(* ===== verification/_CoqProject ===== *)
-Q . S2P
Prelude.v
Effects.v
Leb128.v
Idpack.v
IdpackCodec.v
Consts.v
Types.v
Bitcoin.v
SignerState.v
Packaging.v
Requests.v
Sweep.v
Validation.v
Deposits.v
Contracts.v
WstsNet.v
DkgVerification.v
WstsFrost.v
FrostVerification.v
WstsFire.v
WstsFireRounds.v
WstsSigner.v
WstsSignerDkg.v
WstsMachines.v
StacksSigning.v
Wallet.v
Coordinator.v
CoordinatorDemo.v
CoordinatorSafety.v
CoordinatorPending.v
CoordinatorStacks.v
TxSigner.v
TxSignerSafety.v
Node.v
BlockObserver.v
RequestDecider.v
NodeSafety.v
NodeDemo.v
SbtcEvents.v
EmilyEntries.v
EmilyStore.v
EmilyAccessors.v
EmilyHandlers.v
EmilySafety.v
EmilyQuiet.v
EmilyNewBlock.v
EmilyWebhook.v
Wsts.v
WstsDkg.v
WstsSign.v
