(* ===== verification/Prelude.v ===== *)
(** * A verification library for sBTC

    ** The program

    sBTC is a two-way peg between bitcoin and the Stacks chain. Depositors lock
    bitcoin in a taproot output that the signers can sweep; holders of the
    token ask for withdrawals on the Stacks chain. In every bitcoin block one
    signer, the coordinator, collects the pending requests, filters and packs
    them into a chain of sweep transactions and asks the others to sign; each
    signer rebuilds the transactions from its own database, validates every
    input and output, and signs what it accepts. Confirmed sweeps are taken
    apart again, and for every request a contract call is validated and signed
    that mints or burns the token. The signatures are threshold signatures of
    the WSTS library, whose keys come from a distributed key generation that
    is verified before use. The Emily API keeps the requests for wallets: it
    learns of deposits from users, of their acceptance from the signers and of
    everything else from the blocks of the Stacks nodes. The repository holds
    the shared library ([sbtc/]), the threshold signatures ([wsts/]), the
    signer ([signer/]), the Emily API ([emily/]), the Clarity contracts and
    generated clients.

    ** Files, and the code they model

    - [Prelude]: outcomes of Rust computations ([Ok], [Err], panic, out of
      fuel), machine integers, vectors, the shared tactics, hint databases and
      lemmas.
    - [Effects]: methods on [&mut self] that may fail, with Hoare triples,
      frames and the tactics that walk through their binds.
    - [Leb128]: [sbtc/src/leb128.rs].
    - [Idpack]: [sbtc/src/idpack/segment.rs], [segments.rs],
      [segmenters/bitmap.rs]: cutting a sorted id list into segments.
    - [IdpackCodec]: [sbtc/src/idpack/codec/]: the wire format.
    - [Consts]: protocol constants of [signer/src/lib.rs], [bitcoin/utxo.rs],
      [bitcoin/packaging.rs].
    - [Types]: outpoints, transactions, IEEE [f64] (with the executable
      arithmetic of [SpecFloat]), the lexicographic orders behind [sort].
    - [Bitcoin]: the class [BitcoinLib] of what the signer calls in
      rust-bitcoin and in generated protobuf code, and its documented laws as
      separate classes ([BitcoinWeights], [OpReturnLaw]).
    - [SignerState]: [signer/src/context/signer_state.rs]: limits, signer set,
      cached chain state.
    - [Packaging]: [signer/src/bitcoin/packaging.rs]: the [Weighted] trait as a
      class, bags and the best-fit packager.
    - [Requests]: first half of [signer/src/bitcoin/utxo.rs] and the rows of
      [signer/src/storage/model.rs]: requests, votes, fees, request filters.
    - [Sweep]: second half of [bitcoin/utxo.rs]: unsigned sweeps, signature
      hashes, chains of sweeps, fee assessment, deconstruction.
    - [Validation]: [signer/src/bitcoin/validation.rs] (with
      [assess_mempool_sweep_transaction_fees] of [bitcoin/rpc.rs]): from a
      presign request to the rows that say what is signed.
    - [Deposits]: [sbtc/src/deposits.rs]: deposit and reclaim scripts and
      [validate_tx].
    - [Contracts]: [signer/src/stacks/contracts.rs]: validation of the four
      contract calls and of deployments, and the arguments of the calls.
    - [StacksSigning]: the handler of Stacks signing requests in
      [signer/src/transaction_signer.rs], with its per-tenure memory.
    - [WstsNet]: [wsts/src/net.rs]: the messages of the protocol, and the
      classes of what the machines call in the cryptography.
    - [DkgVerification]: [signer/src/dkg/verification.rs], [dkg/wsts.rs]: the
      state machine that verifies a new aggregate key, over any coordinator;
      [FrostVerification] is that machine over the FROST coordinator.
    - [WstsFrost]: [wsts/src/state_machine/coordinator/frost.rs], [mod.rs]: the
      FROST coordinator.
    - [WstsFire], [WstsFireRounds]: [coordinator/fire.rs]: the FIRE
      coordinator, its verdicts on malicious signers, its signing rounds.
    - [WstsSigner], [WstsSignerDkg]: [wsts/src/state_machine/signer/mod.rs]: the
      signer machine, and what its key generation reports.
    - [WstsMachines]: [signer/src/wsts_state_machine.rs]: how the signer creates,
      saves and loads these machines.
    - [Wsts], [WstsDkg], [WstsSign] (MathComp): [wsts/src/v2.rs],
      [compute.rs], [common.rs], [schnorr.rs], [taproot.rs], [vss.rs],
      [util.rs]: the cryptography over a field and a module; key generation;
      BIP-340 and taproot signatures.
    - [SbtcEvents]: [sbtc/src/events.rs]: reading what the registry prints.
    - [EmilyEntries]: [emily/handler/src/database/entries/] and [api/models/]:
      entries, events and updates of deposits and withdrawals.
    - [EmilyStore]: the tables of the API, the requests it sends to DynamoDB and
      what may come back ([DynamoLaws] with other clients, [QuietLaws]
      without), with an implementation in memory.
    - [EmilyAccessors]: [database/accessors.rs]; [EmilyHandlers]:
      [api/handlers/]; [EmilyNewBlock]: [api/handlers/new_block.rs], the webhook
      of the Stacks nodes.
    - [EmilySafety]: what holds whatever other clients do; [EmilyQuiet]: what
      an undisturbed API achieves.

    ** How code becomes definitions

    A function that can fail returns an [outcome]; [?] is the monadic bind, a
    [for] loop is [ofold] (or a [Fixpoint] on the list), and code that mutates
    [self] returns the new state. Plain [+] and [-] panic on overflow, as the
    release profile asks ([overflow-checks = true]); [checked_], [saturating_]
    and [as] conversions are written out at their width. Hashes and keys are
    integers with the big-endian digits of their bytes, so that they compare as
    the source compares them. A [HashMap] is a [gmap], a [BTreeSet] or
    [HashSet] a [gset], a [Vec] a list. The database, the chain clients and the
    DynamoDB service are records or classes of functions that may fail; third
    party code is never given a body, and where a theorem relies on its
    documented behaviour the law is a named class, with an instance that
    satisfies it next to the witnesses.

    ** Fuel

    The encoder and size loops of LEB128 run on the bit length of the value
    ([encode_into_step], [calculate_size_step]); the idpack decoder on the
    length of the input plus one ([decode_loop_no_diverge]); the message loop of
    the DKG state machine on the number of unprocessed messages plus one
    ([process_all_spec]); the loops of the FROST and FIRE coordinators, which
    go on while a state was left without a message, on two rounds. Each bound is
    proved sufficient, so [Diverge] never occurs and totality is a theorem. The
    retry loops of the Emily API run on the numbers of attempts of the source.
    Its paginated queries take the number of pages as an argument; the theorems
    ask for more pages than there are entries. The other loops are structural.

    ** What the theorems show

    - Backing: the contract calls accepted for a confirmed sweep never mint
      more, net of what they burn, than the signers' output gained
      ([completed_sweep_backed]); calls are accepted exactly under the
      documented conditions, a withdrawal is never both accepted and rejected
      in one view of the chains, and a signer signs at most once per request
      and tenure ([signed_once_per_tenure]).
    - Signing decisions: a signature commits only to a transaction whose every
      deposit and withdrawal passed validation ([will_sign_sound]); packages
      respect the mint and rolling withdrawal caps ([package_limits]); signers
      rebuild exactly the coordinator's transaction
      ([rebuild_same_transaction]).
    - Transactions: layout, conservation of value, alignment of signature
      hashes with inputs, chaining of a package, coverage of the miner fee by
      the assessed fees, and reading a confirmed sweep back.
    - Packing and filtering: every package is within the vote, signature, size
      and [OP_RETURN] limits, and every package the packager returns can be
      built; the filters keep exactly the requests within the limits.
    - Codecs: LEB128, idpack, deposit and reclaim scripts round trip; decoders
      are total and sound on arbitrary bytes; the size estimate is exact.
    - State: the signer set refines a set of keys; limits fail closed; DKG
      messages are delivered once, in order and only when admissible, and
      processing terminates.
    - Threshold signatures: an aggregate signature of honest shares verifies
      under the tweaked key ([taproot_signature_verifies]) and a failure names
      the culprits; key generation accepts only shares that match the
      commitments ([dkg_sound]); what a signer reports about another is what
      the coordinator finds ([signer_reports_hold], [fire_verdicts_exact]);
      signing rounds complete ([fire_signing_completes],
      [frost_signing_completes]); a deployed machine never panics on a message,
      and a saved one is loaded unchanged ([WstsMachines]).
    - Events: what the registry prints for a call of the signers is read back
      as that call ([registry_events_report_calls]); every field that is read is
      in its type ([registry_event_typed]).
    - Emily: with any fair clients beside it and any failing request the API
      keeps its entries valid, chronological and versioned
      ([api_keeps_tables_ok]), its updates are atomic
      ([deposit_update_linearizable]), the signers' updates only accept
      ([signer_updates_only_accept]) and every update is answered
      ([update_deposits_reply]); undisturbed, a reorganisation restores exactly
      the surviving histories ([reorg_completes]), throttling tightens the
      limits in force ([throttle_takes_effect]) and a block that reports a
      deposit confirms it ([new_block_confirms_deposit]).
    - Some theorems record behaviour that the documentation does not mention
      ([decode_panics_on_max_offset], [zero_signatures_still_packaged],
      [duplicate_request_id_fails], [fire_unknown_report_panics],
      [resent_shares_convict_honest], [reset_machine_panics],
      [uncommitted_share_accepted], [repeated_confirmation_appends],
      [reorg_leaves_abandoned_block], [create_withdrawal_resets],
      [limit_is_empty_ignores_minimum]).

    ** What is not modelled

    Asynchronous orchestration (coordinator, signer and block-observer event
    loops, the request decider), SQL storage, HTTP and peer-to-peer clients,
    protobuf conversions, configuration, the listings, routes and JSON codecs
    of the Emily API, the blocklist client, and everything that is not Rust.
    Next in the plan: coordinator selection and DKG scheduling, the other
    handlers of the signer's event loop, and the request decider. *)

From stdpp Require Export base tactics list numbers sorting gmap.
From Stdlib Require Export ZArith Lia.

#[global] Open Scope Z_scope.

(** ** Outcomes of a Rust computation

    A call either returns [Ok], returns [Err], panics (failed index, checked
    arithmetic: the release profile sets [overflow-checks = true]) or runs out
    of the fuel given to a loop ([Diverge]); a loop that provably never
    produces [Diverge] terminates. *)
Inductive outcome (E A : Type) : Type :=
| Ok (a : A)
| Err (e : E)
| Panic
| Diverge.
Arguments Ok {E A} _.
Arguments Err {E A} _.
Arguments Panic {E A}.
Arguments Diverge {E A}.

#[global] Instance outcome_ret {E} : MRet (outcome E) := fun A a => Ok a.
#[global] Instance outcome_bind {E} : MBind (outcome E) := fun A B f m =>
  match m with
  | Ok a => f a
  | Err e => Err e
  | Panic => Panic
  | Diverge => Diverge
  end.

(** [Result::map_err], also what [?] does through [From]. *)
Definition map_err {E E' A} (f : E -> E') (m : outcome E A) : outcome E' A :=
  match m with
  | Ok a => Ok a
  | Err e => Err (f e)
  | Panic => Panic
  | Diverge => Diverge
  end.

(** [Result::map]. *)
Definition map_ok {E A B} (f : A -> B) (m : outcome E A) : outcome E B :=
  match m with
  | Ok a => Ok (f a)
  | Err e => Err e
  | Panic => Panic
  | Diverge => Diverge
  end.

(** A computation that cannot return [Err], used where errors are typed. *)
Definition infallible {E A} (m : outcome Empty_set A) : outcome E A :=
  map_err (fun e : Empty_set => match e with end) m.

Definition is_ok {E A} (m : outcome E A) : bool :=
  match m with Ok _ => true | _ => false end.

(** [Option::ok_or]. *)
Definition ok_or {E A} (o : option A) (e : E) : outcome E A :=
  match o with Some a => Ok a | None => Err e end.

(** A [for] loop (or [try_fold]) that threads a state and stops at the first
    [Err] or panic. *)
Fixpoint ofold {E A S} (f : S -> A -> outcome E S) (s : S) (l : list A) : outcome E S :=
  match l with
  | [] => Ok s
  | a :: l => s' ← f s a; ofold f s' l
  end.

(** ** Machine integers: an unsigned [w]-bit integer is a [Z] in [[0, 2^w)]. *)
Definition in_u (w x : Z) : Prop := 0 <= x < 2 ^ w.
#[global] Instance in_u_dec w x : Decision (in_u w x).
Proof. unfold in_u. apply _. Defined.

Definition u64_max : Z := 2 ^ 64 - 1.
Definition u32_max : Z := 2 ^ 32 - 1.
Definition u16_max : Z := 2 ^ 16 - 1.

(** Plain [+], [-], [*]: they panic when the result does not fit. *)
Definition add_u {E} (w x y : Z) : outcome E Z :=
  if x + y <? 2 ^ w then Ok (x + y) else Panic.
Definition sub_u {E} (x y : Z) : outcome E Z :=
  if y <=? x then Ok (x - y) else Panic.
Definition mul_u {E} (w x y : Z) : outcome E Z :=
  if x * y <? 2 ^ w then Ok (x * y) else Panic.

(** [checked_add], [saturating_add], [saturating_sub]. *)
Definition checked_add (w x y : Z) : option Z :=
  if x + y <? 2 ^ w then Some (x + y) else None.
Definition saturating_add (w x y : Z) : Z := Z.min (x + y) (2 ^ w - 1).
Definition saturating_sub (x y : Z) : Z := Z.max (x - y) 0.

Declare Scope rust_scope.
Delimit Scope rust_scope with rust.
(** [x.saturating_sub(y)] and [x.saturating_add(y)] on [u64]. *)
Notation "x ∸ y" := (saturating_sub x y) (at level 50, left associativity) : rust_scope.
Notation "x ∔ y" := (saturating_add 64 x y) (at level 50, left associativity) : rust_scope.

(** [checked_shr] and [checked_shl] on [u64]: [None] when the shift is at
    least the width; [shl] drops the bits shifted out. *)
Definition checked_shr64 (x s : Z) : option Z :=
  if s <? 64 then Some (Z.shiftr x s) else None.
Definition checked_shl64 (x s : Z) : option Z :=
  if s <? 64 then Some (Z.shiftl x s mod 2 ^ 64) else None.

(** [u64::div_ceil] with its two-step definition; the divisor is positive at
    every call modelled with it. *)
Definition div_ceil (x y : Z) : Z :=
  let d := x / y in
  let r := x mod y in
  if 0 <? r then d + 1 else d.

(** A byte is an 8-bit [Z]. *)
Definition is_byte (b : Z) : Prop := in_u 8 b.

(** ** Vectors *)
Definition zlen {A} (l : list A) : Z := Z.of_nat (length l).

(** [is_empty] *)
Definition is_empty {A} (l : list A) : bool := match l with [] => true | _ => false end.

(** [v[i]]: panics out of range. *)
Definition idx {E A} (l : list A) (i : Z) : outcome E A :=
  if i <? 0 then Panic else
  match l !! Z.to_nat i with Some a => Ok a | None => Panic end.

(** [v[i] = x]: panics out of range. *)
Definition idx_set {E A} (l : list A) (i : Z) (x : A) : outcome E (list A) :=
  if (0 <=? i) && (i <? zlen l) then Ok (<[Z.to_nat i := x]> l) else Panic.

(** [&v[i..j]]: panics when [i > j] or [j > len]. *)
Definition slice {E A} (l : list A) (i j : Z) : outcome E (list A) :=
  if (0 <=? i) && (i <=? j) && (j <=? zlen l)
  then Ok (take (Z.to_nat (j - i)) (drop (Z.to_nat i) l)) else Panic.

(** [slice::windows(2)] *)
Fixpoint windows2 {A} (l : list A) : list (A * A) :=
  match l with
  | a :: ((b :: _) as tl) => (a, b) :: windows2 tl
  | _ => []
  end.

(** [iter().enumerate()] from a start index. *)
Fixpoint enumerate_from {A} (i : Z) (l : list A) : list (Z * A) :=
  match l with
  | [] => []
  | a :: l => (i, a) :: enumerate_from (i + 1) l
  end.
Definition enumerate {A} (l : list A) : list (Z * A) := enumerate_from 0 l.

(** [iter().scan(st, f)] where [f] never stops the iteration. *)
Fixpoint scan {A B S} (f : S -> A -> S * B) (s : S) (l : list A) : list B :=
  match l with
  | [] => []
  | a :: l => let '(s', b) := f s a in b :: scan f s' l
  end.

(** [count_ones] *)
Fixpoint pos_ones (p : positive) : Z :=
  match p with
  | xH => 1
  | xO p => pos_ones p
  | xI p => 1 + pos_ones p
  end.
Definition count_ones (x : Z) : Z :=
  match x with Zpos p => pos_ones p | _ => 0 end.

Definition zsum (l : list Z) : Z := foldr Z.add 0 l.

(** ** Tactics *)

(** Invert [m ≫= f = Ok b] hypotheses and clear impossible outcomes. *)
Lemma bind_ok_inv {E A B} (m : outcome E A) (f : A -> outcome E B) b :
  m ≫= f = Ok b -> exists a, m = Ok a /\ f a = Ok b.
Proof. destruct m; naive_solver. Qed.
Lemma bind_err_inv {E A B} (m : outcome E A) (f : A -> outcome E B) e :
  m ≫= f = Err e -> m = Err e \/ exists a, m = Ok a /\ f a = Err e.
Proof. destruct m; naive_solver. Qed.

Lemma map_err_ok_inv {E E' A} (f : E -> E') (m : outcome E A) a :
  map_err f m = Ok a -> m = Ok a.
Proof. destruct m; naive_solver. Qed.

Lemma map_ok_inv {E A B} (f : A -> B) (m : outcome E A) b :
  map_ok f m = Ok b -> exists a, m = Ok a /\ b = f a.
Proof. destruct m; naive_solver. Qed.

Lemma ok_inj {E A} (a b : A) : @Ok E A a = Ok b -> a = b.
Proof. congruence. Qed.

Ltac outcome_inv :=
  repeat match goal with
  | H : _ ≫= _ = Ok _ |- _ =>
      let a := fresh "v" in let Ha := fresh "Hv" in
      apply bind_ok_inv in H as (a & Ha & H)
  | H : map_err _ _ = Ok _ |- _ => apply map_err_ok_inv in H
  | H : map_ok _ _ = Ok _ |- _ =>
      let a := fresh "v" in let Ha := fresh "Hv" in
      apply map_ok_inv in H as (a & Ha & ->)
  | H : Ok _ = Ok _ |- _ => apply ok_inj in H; simplify_eq
  | H : Err _ = Ok _ |- _ => discriminate H
  | H : Panic = Ok _ |- _ => discriminate H
  | H : Diverge = Ok _ |- _ => discriminate H
  | H : mret _ = Ok _ |- _ => apply ok_inj in H; simplify_eq
  end.

(** Case split on the boolean comparisons on [Z] in the goal or a hypothesis. *)
Ltac zbool :=
  repeat match goal with
  | H : (_ && _) = true |- _ => apply andb_true_iff in H as [? ?]
  | H : (_ || _) = false |- _ => apply orb_false_iff in H as [? ?]
  | H : (_ <? _) = true |- _ => apply Z.ltb_lt in H
  | H : (_ <? _) = false |- _ => apply Z.ltb_ge in H
  | H : (_ <=? _) = true |- _ => apply Z.leb_le in H
  | H : (_ <=? _) = false |- _ => apply Z.leb_gt in H
  | H : (_ =? _) = true |- _ => apply Z.eqb_eq in H
  | H : (_ =? _) = false |- _ => apply Z.eqb_neq in H
  end.
Ltac zcase :=
  match goal with
  | |- context [?a <? ?b] => destruct (Z.ltb_spec a b)
  | |- context [?a <=? ?b] => destruct (Z.leb_spec a b)
  | |- context [?a =? ?b] => destruct (Z.eqb_spec a b)
  end.
Ltac zcase_in H :=
  match type of H with
  | context [?a <? ?b] => destruct (Z.ltb_spec a b)
  | context [?a <=? ?b] => destruct (Z.leb_spec a b)
  | context [?a =? ?b] => destruct (Z.eqb_spec a b)
  end.

(** ** Generic lemmas *)

Lemma zlen_nonneg {A} (l : list A) : 0 <= zlen l.
Proof. unfold zlen. lia. Qed.
Lemma zlen_app {A} (l k : list A) : zlen (l ++ k) = zlen l + zlen k.
Proof. unfold zlen. rewrite length_app. lia. Qed.
Lemma zlen_cons {A} (a : A) l : zlen (a :: l) = 1 + zlen l.
Proof. unfold zlen. simpl length. lia. Qed.
Lemma zlen_nil {A} : zlen ([] : list A) = 0.
Proof. reflexivity. Qed.

(** Lengths: rewriting by structure, and non-negativity, for [lia]. *)
Create Rewrite HintDb zlen.
#[export] Hint Rewrite @zlen_app @zlen_cons @zlen_nil @length_map @length_app : zlen.
Create HintDb rust.
#[export] Hint Resolve zlen_nonneg : rust.
Ltac zlen_facts :=
  repeat match goal with
  | |- context [zlen ?l] => assert_fails (assert (0 <= zlen l) by assumption); pose proof (zlen_nonneg l)
  | _ : context [zlen ?l] |- _ => assert_fails (assert (0 <= zlen l) by assumption); pose proof (zlen_nonneg l)
  end.
(** Arithmetic over lengths. *)
Ltac zlia := autorewrite with zlen in *; zlen_facts; lia.

Lemma zlen_to_nat {A} (l : list A) : Z.to_nat (zlen l) = length l.
Proof. unfold zlen. lia. Qed.

Lemma ofold_app {E A S} (f : S -> A -> outcome E S) s l k :
  ofold f s (l ++ k) = (s' ← ofold f s l; ofold f s' k).
Proof. revert s. induction l as [|a l IH]; intros s; simpl; [done|]. destruct (f s a); simpl; auto. Qed.

(** The rule of a [for] loop: an invariant indexed by the elements processed. *)
Lemma ofold_ind {E A S} (P : list A -> S -> Prop) (f : S -> A -> outcome E S) :
  (forall done s a s', P done s -> f s a = Ok s' -> P (done ++ [a]) s') ->
  forall l done s s', P done s -> ofold f s l = Ok s' -> P (done ++ l) s'.
Proof.
  intros Hstep. induction l as [|a l IH]; intros dn s s' HP Hf; simpl in Hf.
  - outcome_inv. by rewrite app_nil_r.
  - outcome_inv. rewrite cons_middle, app_assoc. eauto.
Qed.

(** Total correctness of a [for] loop whose body always succeeds. *)
Lemma ofold_total {E A S} (P : list A -> S -> Prop) (f : S -> A -> outcome E S) :
  forall l done s,
  (forall pre a post s, l = pre ++ a :: post -> P (done ++ pre) s ->
     exists s', f s a = Ok s' /\ P (done ++ pre ++ [a]) s') ->
  P done s -> exists s', ofold f s l = Ok s' /\ P (done ++ l) s'.
Proof.
  induction l as [|a l IH]; intros dn s Hstep HP; simpl.
  - exists s. by rewrite app_nil_r.
  - destruct (Hstep [] a l s) as (s1 & -> & H1); [done|by rewrite app_nil_r|].
    simpl in *. destruct (IH (dn ++ [a]) s1) as (s2 & -> & H2); [|done|].
    + intros pre b post s' -> HP'. rewrite <- app_assoc in HP'.
      destruct (Hstep (a :: pre) b post s') as (s'' & ? & ?); [done|done|].
      exists s''. split; [done|]. by rewrite <- app_assoc.
    + exists s2. split; [done|]. by rewrite <- app_assoc in H2.
Qed.

Lemma idx_ok {E A} (l : list A) i a :
  l !! Z.to_nat i = Some a -> 0 <= i -> idx (E:=E) l i = Ok a.
Proof. intros Hl Hi. unfold idx. rewrite Hl. zcase; [lia|done]. Qed.

Lemma idx_inv {E A} (l : list A) i a :
  idx (E:=E) l i = Ok a -> 0 <= i < zlen l /\ l !! Z.to_nat i = Some a.
Proof.
  unfold idx, zlen. zcase; [done|]. destruct (l !! Z.to_nat i) eqn:Hl; [|done].
  intros [= ->]. apply lookup_lt_Some in Hl. split; [lia|done].
Qed.

Lemma div_ceil_spec x y : 0 < y -> 0 <= x -> y * (div_ceil x y - 1) < x <= y * div_ceil x y.
Proof.
  intros. unfold div_ceil. pose proof (Z.div_mod x y ltac:(lia)).
  pose proof (Z.mod_pos_bound x y ltac:(lia)). zcase; nia.
Qed.

Lemma div_ceil_nonneg x y : 0 < y -> 0 <= x -> 0 <= div_ceil x y.
Proof. intros. pose proof (div_ceil_spec x y). nia. Qed.

#[export] Hint Resolve div_ceil_nonneg : rust.

Lemma div_ceil_le x y b : 0 < y -> 0 <= x -> x <= y * b -> div_ceil x y <= b.
Proof. intros. pose proof (div_ceil_spec x y). nia. Qed.

(** *** Strictly sorted vectors *)
Abbreviation ssorted := (StronglySorted Z.lt).

Lemma ssorted_app (l k : list Z) :
  ssorted (l ++ k) <-> (forall x y, x ∈ l -> y ∈ k -> x < y) /\ ssorted l /\ ssorted k.
Proof. apply StronglySorted_app. Qed.

Lemma ssorted_ext (l k : list Z) :
  ssorted l -> ssorted k -> (forall x, x ∈ l <-> x ∈ k) -> l = k.
Proof.
  revert k. induction l as [|a l IH]; intros [|b k]; rewrite ?StronglySorted_cons, ?Forall_forall;
    intros Hl Hk Hx; [done|set_solver..|].
  destruct Hl as [Hal Hl], Hk as [Hbk Hk]. assert (a = b) as ->.
  { assert (a ∈ b :: k) as [|Ha]%elem_of_cons by set_solver; [done|].
    assert (b ∈ a :: l) as [|Hb]%elem_of_cons by set_solver; [done|].
    specialize (Hal b Hb). specialize (Hbk a Ha). lia. }
  f_equal. apply IH; [done..|]. intros x. specialize (Hx x). rewrite !elem_of_cons in Hx.
  split; intros Hin; [specialize (Hal x Hin)|specialize (Hbk x Hin)]; naive_solver lia.
Qed.

Lemma sorted_le_lt l : StronglySorted Z.le l -> NoDup l -> ssorted l.
Proof.
  induction 1 as [|x l Hs IH Hf]; intros Hnd; [constructor|]. apply NoDup_cons in Hnd as [Hni Hnd].
  constructor; [auto|]. rewrite Forall_forall in *. intros y Hy. specialize (Hf y Hy).
  destruct (decide (x = y)) as [->|]; [done|lia].
Qed.

Lemma ssorted_snoc (l : list Z) m x :
  ssorted l -> last l = Some m -> m < x -> ssorted (l ++ [x]).
Proof.
  intros Hl Hlast Hlt. apply last_Some in Hlast as [l' ->].
  apply ssorted_app. split_and!; [|done|by repeat constructor].
  intros a b Ha ->%list_elem_of_singleton. apply ssorted_app in Hl as [Hl _].
  apply elem_of_app in Ha as [Ha| ->%list_elem_of_singleton]; [|done].
  specialize (Hl a m Ha ltac:(left)). lia.
Qed.

Lemma ssorted_cons_le a l x : ssorted (a :: l) -> x ∈ a :: l -> a <= x.
Proof.
  rewrite StronglySorted_cons, Forall_forall. intros [Hf _] [->|Hx]%elem_of_cons; [done|].
  specialize (Hf x Hx). lia.
Qed.

Lemma ssorted_last_le l m x : ssorted l -> last l = Some m -> x ∈ l -> x <= m.
Proof.
  intros Hl [l' ->]%last_Some Hx. apply ssorted_app in Hl as [Hl _].
  apply elem_of_app in Hx as [Hx| ->%list_elem_of_singleton]; [|done].
  specialize (Hl x m Hx ltac:(left)). lia.
Qed.

(** The window test of [is_unique_sorted] is strict sortedness. *)
Lemma windows2_ssorted (l : list Z) : forallb (fun w => w.1 <? w.2) (windows2 l) = true <-> ssorted l.
Proof.
  induction l as [|a [|b l] IH]; [by repeat constructor..|].
  change (windows2 (a :: b :: l)) with ((a, b) :: windows2 (b :: l)). simpl forallb.
  rewrite andb_true_iff, IH, Z.ltb_lt, !StronglySorted_cons, Forall_cons. simpl.
  split; [|naive_solver]. intros (Hab & Hf & Hs). split_and!; [done| |done|done].
  eapply Forall_impl; [done|]. simpl. intros; lia.
Qed.

Lemma last_is_Some_ne {A} (l : list A) : l <> [] -> exists x, last l = Some x.
Proof. intros. destruct (last l) eqn:H'; [eauto|]. by apply last_None in H'. Qed.

(** *** Panicking arithmetic that does not panic *)
Lemma add_u_ok {E} w x y : x + y < 2 ^ w -> add_u (E:=E) w x y = Ok (x + y).
Proof. intros. unfold add_u. by zcase; [|lia]. Qed.
Lemma sub_u_ok {E} x y : y <= x -> sub_u (E:=E) x y = Ok (x - y).
Proof. intros. unfold sub_u. by zcase; [|lia]. Qed.
Lemma mul_u_ok {E} w x y : x * y < 2 ^ w -> mul_u (E:=E) w x y = Ok (x * y).
Proof. intros. unfold mul_u. by zcase; [|lia]. Qed.

Lemma ok_or_ok {E A} (o : option A) (e : E) a : ok_or o e = Ok a <-> o = Some a.
Proof. destruct o; simpl; split; congruence. Qed.

Ltac oreduce := cbn [mbind outcome_bind mret outcome_ret map_err map_ok ok_or].
(** Discharge additions and subtractions whose bounds [lia] sees. *)
Ltac uarith :=
  repeat first [ rewrite add_u_ok by lia | rewrite sub_u_ok by lia | progress oreduce ].

(** *** [enumerate] *)
Lemma enumerate_from_app {A} (l k : list A) : forall i,
  enumerate_from i (l ++ k) = enumerate_from i l ++ enumerate_from (i + zlen l) k.
Proof.
  induction l as [|a l IH]; intros i; simpl; [by rewrite zlen_nil, Z.add_0_r|].
  rewrite IH, zlen_cons. do 2 f_equal. f_equal. lia.
Qed.

Lemma enumerate_split {A} (l : list A) pre i a post :
  enumerate l = pre ++ (i, a) :: post ->
  exists l1 l2, l = l1 ++ a :: l2 /\ i = zlen l1 /\ zlen pre = zlen l1.
Proof.
  unfold enumerate. intros H.
  assert (forall l i0 pre, enumerate_from i0 l = pre ++ (i, a) :: post ->
    exists l1 l2, l = l1 ++ a :: l2 /\ i = i0 + zlen l1 /\ zlen pre = zlen l1) as Hgen.
  { clear. induction l as [|b l IH]; intros i0 [|p pre] H; simpl in H; [done|done| |].
    - injection H as -> -> _. exists [], l. rewrite zlen_nil. split_and!; [done|lia|done].
    - injection H as _ H. apply IH in H as (l1 & l2 & -> & -> & Hl). exists (b :: l1), l2.
      rewrite !zlen_cons. split_and!; [done|lia|lia]. }
  apply Hgen in H as (l1 & l2 & ? & ? & ?). exists l1, l2. split_and!; [done|lia|done].
Qed.

Lemma length_enumerate {A} (l : list A) : length (enumerate l) = length l.
Proof. unfold enumerate. generalize 0. induction l; intros; simpl; auto. Qed.

Lemma seqZ_split m n pre a post : seqZ m n = pre ++ a :: post -> a = m + zlen pre /\ zlen pre < n.
Proof.
  intros H. assert (seqZ m n !! length pre = Some a) as Hl by (rewrite H; by apply list_lookup_middle).
  apply lookup_seqZ in Hl as [-> ?]. unfold zlen. done.
Qed.

Lemma Forall_sublist' {A} (P : A -> Prop) l k : l `sublist_of` k -> Forall P k -> Forall P l.
Proof. intros Hs. rewrite !Forall_forall. intros HP x Hx. apply HP. by eapply elem_of_sublist. Qed.

Lemma StronglySorted_sublist {A} (R : A -> A -> Prop) l k :
  l `sublist_of` k -> StronglySorted R k -> StronglySorted R l.
Proof.
  induction 1 as [|x l k Hs IH|x l k Hs IH]; rewrite ?StronglySorted_cons; [done| |naive_solver].
  intros [Hf Hk]. split; [by eapply Forall_sublist'|auto].
Qed.

Lemma enumerate_lookup {A} (l : list A) i k a :
  enumerate l !! i = Some (k, a) -> k = Z.of_nat i /\ l !! i = Some a.
Proof.
  unfold enumerate. intros Hi. assert (forall l i z, enumerate_from z l !! i = Some (k, a) ->
    k = z + Z.of_nat i /\ l !! i = Some a) as Hgen.
  { clear. induction l as [|b l IH]; intros [|i] z H; simpl in *; [done|done|by simplify_eq; split; [lia|]|].
    apply IH in H as [-> ?]. split; [lia|done]. }
  apply Hgen in Hi as [-> ?]. split; [lia|done].
Qed.

Lemma omap_ext {A B} (f g : A -> option B) (l : list A) : (forall x, f x = g x) -> omap f l = omap g l.
Proof. intros Hfg. induction l as [|x l IH]; [done|]. cbn. rewrite Hfg. destruct (g x); [f_equal|]; apply IH. Qed.

Lemma zlen_omap {A B} (f : A -> option B) (l : list A) : zlen (omap f l) <= zlen l.
Proof.
  induction l as [|x l IH]; [done|]. cbn. change (list_omap _ _ f l) with (omap f l).
  destruct (f x); rewrite !zlen_cons; lia.
Qed.

Lemma enumerate_elem {A} (l : list A) i a : l !! i = Some a -> (Z.of_nat i, a) ∈ enumerate l.
Proof.
  unfold enumerate. assert (forall l i z, l !! i = Some a -> (z + Z.of_nat i, a) ∈ enumerate_from z l) as Hgen.
  { clear. induction l as [|b l IH]; intros [|i] z H; simpl in *; [done|done|by simplify_eq; rewrite Z.add_0_r; left|].
    right. replace (z + Z.of_nat (S i)) with (z + 1 + Z.of_nat i) by lia. auto. }
  apply (Hgen l i 0).
Qed.

Lemma enumerate_value {A} (l : list A) i a : (i, a) ∈ enumerate l -> a ∈ l.
Proof.
  unfold enumerate. generalize 0. induction l as [|b l IH]; intros z Hx; cbn in Hx; [by apply not_elem_of_nil in Hx|].
  apply elem_of_cons in Hx as [[= _ ->]|Hx]; [left|right; by eapply IH].
Qed.

Lemma is_empty_true {A} (l : list A) : is_empty l = true <-> l = [].
Proof. by destruct l. Qed.
Lemma is_empty_false {A} (l : list A) : is_empty l = false <-> l <> [].
Proof. by destruct l. Qed.

(** ** Logs whose every event satisfies a condition on the events before it *)
Section Guarded.
Context {E : Type}.
Implicit Types (new pre : list E) (G : list E -> E -> Prop).
Definition guarded G new : Prop := forall pre e post, new = pre ++ e :: post -> G pre e.

Lemma guarded_nil G : guarded G [].
Proof. intros pre e post Hn. by destruct pre. Qed.
Lemma guarded_snoc G new e : guarded G new -> G new e -> guarded G (new ++ [e]).
Proof.
  intros Hg He pre e' post Heq. destruct (decide (post = [])) as [->|Hp].
  - apply app_inj_tail in Heq as [-> ->]. done.
  - destruct (exists_last Hp) as (post' & e'' & ->). change (e' :: post' ++ [e'']) with ((e' :: post') ++ [e'']) in Heq. rewrite app_assoc in Heq.
    apply app_inj_tail in Heq as [-> _]. by eapply Hg.
Qed.
Lemma guarded_app G new more : guarded G new -> (forall pre e, e ∈ more -> G (new ++ pre) e) -> guarded G (new ++ more).
Proof.
  intros Hg Hm. assert (forall pre rest, more = pre ++ rest -> guarded G (new ++ pre)) as Hall; [|apply (Hall more []); by rewrite app_nil_r].
  intros pre. induction pre as [|e pre IH] using rev_ind; intros rest Heq; [by rewrite app_nil_r|].
  rewrite app_assoc. apply guarded_snoc; [apply (IH ([e] ++ rest)); by rewrite app_assoc|]. apply Hm. rewrite Heq. set_solver.
Qed.
Lemma guarded_impl G G' new : guarded G new -> (forall pre e, G pre e -> G' pre e) -> guarded G' new.
Proof. intros Hg Hi pre e post Heq. by eapply Hi, Hg. Qed.
Lemma guarded_elem G new e : guarded G new -> e ∈ new -> exists pre post, new = pre ++ e :: post /\ G pre e.
Proof. intros Hg (pre & post & ->)%list_elem_of_split. exists pre, post. split; [done|]. by eapply Hg. Qed.
End Guarded.
