(* ===== verification/Effects.v ===== *)
(** Stateful operations: methods on [&mut self] that may fail, Hoare triples and
    frames for them, with the tactics that walk through their binds. *)

From S2P Require Import Prelude.

(** ** Stateful operations *)

(** A method on [&mut self] that may fail: the object it leaves behind is
    returned with every outcome. *)
Definition st (S E A : Type) : Type := S -> S * outcome E A.

Section St.
Context {S E : Type}.
Definition st_ret {A} (a : A) : st S E A := fun s => (s, Ok a).
Definition st_bind {A B} (m : st S E A) (k : A -> st S E B) : st S E B := fun s =>
  match m s with
  | (s', Ok a) => k a s'
  | (s', Err e) => (s', Err e)
  | (s', Panic) => (s', Panic)
  | (s', Diverge) => (s', Diverge)
  end.
Definition st_get : st S E S := fun s => (s, Ok s).
Definition st_modify (f : S -> S) : st S E unit := fun s => (f s, Ok tt).
Definition st_throw {A} (e : E) : st S E A := fun s => (s, Err e).
Definition st_lift {A} (o : outcome E A) : st S E A := fun s => (s, o).
(** [ok_or(..)?] *)
Definition st_ok_or {A} (o : option A) (e : E) : st S E A := st_lift (ok_or o e).
(** A failing call whose error may be a result: the value for such an error. *)
Definition st_catch {A} (m : st S E A) (handle : E -> option A) : st S E A := fun s =>
  match m s with
  | (s', Err e) => match handle e with Some a => (s', Ok a) | None => (s', Err e) end
  | r => r
  end.
End St.
Notation "x <- m ;; k" := (st_bind m (fun x => k)) (at level 100, m at next level, right associativity).
Notation "m ;;; k" := (st_bind m (fun _ => k)) (at level 100, right associativity).

(** [m] started in [P] neither panics nor loops; it ends in [Q] when it
    succeeds and in [R] when it fails. *)
Definition triple {S E A} (P : S -> Prop) (m : st S E A) (Q : A -> S -> Prop) (R : E -> S -> Prop) : Prop :=
  forall s, P s ->
    match m s with
    | (s', Ok a) => Q a s'
    | (s', Err e) => R e s'
    | _ => False
    end.

Section Triple.
Context {S E : Type}.
Implicit Types (P : S -> Prop) (R : E -> S -> Prop).
Lemma triple_ret {A} P (a : A) (Q : A -> S -> Prop) R : (forall s, P s -> Q a s) -> triple P (st_ret a) Q R.
Proof. intros HQ s Hs. by apply HQ. Qed.
Lemma triple_bind {A B} P (m : st S E A) (k : A -> st S E B) Q Q' R :
  triple P m Q' R -> (forall a, triple (Q' a) (k a) Q R) -> triple P (st_bind m k) Q R.
Proof. intros Hm Hk s Hs. unfold st_bind. specialize (Hm s Hs). destruct (m s) as [s' []]; try done. by apply Hk. Qed.
Lemma triple_get P (Q : S -> S -> Prop) R : (forall s, P s -> Q s s) -> triple P st_get Q R.
Proof. intros HQ s Hs. by apply HQ. Qed.
Lemma triple_modify P f (Q : unit -> S -> Prop) R : (forall s, P s -> Q tt (f s)) -> triple P (st_modify f) Q R.
Proof. intros HQ s Hs. by apply HQ. Qed.
Lemma triple_throw {A} P e (Q : A -> S -> Prop) R : (forall s, P s -> R e s) -> triple P (st_throw e) Q R.
Proof. intros HQ s Hs. by apply HQ. Qed.
Lemma triple_weaken {A} P P' (m : st S E A) (Q Q' : A -> S -> Prop) R R' :
  (forall s, P s -> P' s) -> (forall a s, Q' a s -> Q a s) -> (forall e s, R' e s -> R e s) ->
  triple P' m Q' R' -> triple P m Q R.
Proof. intros HP HQ HR Hm s Hs. specialize (Hm s (HP s Hs)). destruct (m s) as [s' []]; auto. Qed.
Lemma triple_catch {A} P (m : st S E A) h (Q : A -> S -> Prop) R :
  triple P m Q (fun e s => match h e with Some a => Q a s | None => R e s end) -> triple P (st_catch m h) Q R.
Proof. intros Hm s Hs. specialize (Hm s Hs). unfold st_catch. destruct (m s) as [s' []]; try done. by destruct (h e). Qed.
Lemma triple_lift {A} P (o : outcome E A) (Q : A -> S -> Prop) R :
  (forall s, P s -> match o with Ok a => Q a s | Err e => R e s | _ => False end) -> triple P (st_lift o) Q R.
Proof. intros Ho s Hs. specialize (Ho s Hs). by destruct o. Qed.
Lemma triple_ok_or {A} P (o : option A) e (Q : A -> S -> Prop) R :
  (forall s, P s -> match o with Some a => Q a s | None => R e s end) -> triple P (st_ok_or o e) Q R.
Proof. intros Ho. apply triple_lift. intros s Hs. specialize (Ho s Hs). by destruct o. Qed.
(** Reading the state fixes it in what follows. *)
Lemma triple_read {A} P (k : S -> st S E A) (Q : A -> S -> Prop) R :
  (forall s, P s -> triple (fun s' => s' = s) (k s) Q R) -> triple P (st_bind st_get k) Q R.
Proof. intros Hk s Hs. by apply (Hk s Hs s). Qed.
End Triple.

(** *** Frames: what an operation leaves unchanged, however it ends *)
Definition framed {S E A} (I : S -> Prop) (m : st S E A) : Prop := forall s, I s -> I (m s).1.

Section Frames.
Context {S E : Type}.
Implicit Types (I : S -> Prop).
Lemma framed_ret {A} I (a : A) : framed I (st_ret (E := E) a).
Proof. by intros s. Qed.
Lemma framed_lift {A} I (o : outcome E A) : framed I (st_lift o).
Proof. by intros s. Qed.
Lemma framed_throw {A} I (e : E) : framed I (st_throw (A := A) e).
Proof. by intros s. Qed.
Lemma framed_get I : framed I (st_get (E := E)).
Proof. by intros s. Qed.
Lemma framed_bind {A B} I (m : st S E A) (k : A -> st S E B) :
  framed I m -> (forall a, framed I (k a)) -> framed I (st_bind m k).
Proof.
  intros Hm Hk s Hs. unfold st_bind. specialize (Hm s Hs). destruct (m s) as [s' []]; try done. by apply Hk.
Qed.
Lemma framed_catch {A} I (m : st S E A) h : framed I m -> framed I (st_catch m h).
Proof. intros Hm s Hs. unfold st_catch. specialize (Hm s Hs). destruct (m s) as [s' []]; try done. by destruct (h e). Qed.
Lemma framed_modify I f : (forall s, I s -> I (f s)) -> framed I (st_modify (E := E) f).
Proof. intros Hf s Hs. by apply Hf. Qed.
Lemma framed_if {A} I (b : bool) (m m' : st S E A) : framed I m -> framed I m' -> framed I (if b then m else m').
Proof. by destruct b. Qed.
End Frames.

Create HintDb frames.
#[global] Hint Resolve framed_ret framed_lift framed_throw framed_get : frames.

(** Operations are framed by walking through their binds. *)
Ltac frame_step :=
  match goal with
  | |- forall _, _ => intro
  | |- framed _ (st_bind _ _) => apply framed_bind
  | |- framed _ (st_catch _ _) => apply framed_catch
  | |- framed _ (st_modify _) => apply framed_modify; by intros ? []
  | |- framed _ (if _ then _ else _) => apply framed_if
  | |- framed _ (let '(_, _) := ?x in _) => destruct x
  | |- framed _ (match ?x with _ => _ end) => destruct x
  | |- _ => solve [eauto with frames]
  end.
Ltac frame := repeat frame_step.

(** *** Postconditions on every outcome: [Q] on success, [R] on an error, [X]
    on a panic or a loop *)
Definition hoare {S E A} (P : S -> Prop) (m : st S E A) (Q : A -> S -> Prop) (R : E -> S -> Prop) (X : S -> Prop) : Prop :=
  forall s, P s ->
    match m s with
    | (s', Ok a) => Q a s'
    | (s', Err e) => R e s'
    | (s', _) => X s'
    end.

Section Hoare.
Context {S E : Type}.
Implicit Types (P X I : S -> Prop) (R : E -> S -> Prop).
Lemma st_bind_ok {A B} (m : st S E A) (k : A -> st S E B) s s' b : st_bind m k s = (s', Ok b) ->
  exists s1 a, m s = (s1, Ok a) /\ k a s1 = (s', Ok b).
Proof. unfold st_bind. destruct (m s) as [s1 [a| | |]]; [|done..]. intros H. by exists s1, a. Qed.
Lemma hoare_ret {A} P (a : A) (Q : A -> S -> Prop) R X : (forall s, P s -> Q a s) -> hoare P (st_ret a) Q R X.
Proof. intros HQ s Hs. by apply HQ. Qed.
Lemma hoare_bind {A B} P (m : st S E A) (k : A -> st S E B) Q Q' R X :
  hoare P m Q' R X -> (forall a, hoare (Q' a) (k a) Q R X) -> hoare P (st_bind m k) Q R X.
Proof. intros Hm Hk s Hs. unfold st_bind. specialize (Hm s Hs). destruct (m s) as [s' []]; try done. by apply Hk. Qed.
Lemma hoare_throw {A} P e (Q : A -> S -> Prop) R X : (forall s, P s -> R e s) -> hoare P (st_throw e) Q R X.
Proof. intros HR s Hs. by apply HR. Qed.
Lemma hoare_modify P f (Q : unit -> S -> Prop) R X : (forall s, P s -> Q tt (f s)) -> hoare P (st_modify f) Q R X.
Proof. intros HQ s Hs. by apply HQ. Qed.
Lemma hoare_lift {A} P (o : outcome E A) (Q : A -> S -> Prop) R X :
  (forall s, P s -> match o with Ok a => Q a s | Err e => R e s | _ => X s end) -> hoare P (st_lift o) Q R X.
Proof. intros Ho s Hs. specialize (Ho s Hs). by destruct o. Qed.
Lemma hoare_ok_or {A} P (o : option A) e (Q : A -> S -> Prop) R X :
  (forall s, P s -> match o with Some a => Q a s | None => R e s end) -> hoare P (st_ok_or o e) Q R X.
Proof. intros Ho s Hs. specialize (Ho s Hs). by destruct o. Qed.
Lemma hoare_catch {A} P (m : st S E A) h (Q : A -> S -> Prop) R X :
  hoare P m Q (fun e s => match h e with Some a => Q a s | None => R e s end) X -> hoare P (st_catch m h) Q R X.
Proof. intros Hm s Hs. specialize (Hm s Hs). unfold st_catch. destruct (m s) as [s' []]; try done. by destruct (h e). Qed.
Lemma hoare_weaken {A} P P' (m : st S E A) (Q Q' : A -> S -> Prop) R R' X X' :
  hoare P' m Q' R' X' -> (forall s, P s -> P' s) -> (forall a s, Q' a s -> Q a s) -> (forall e s, R' e s -> R e s) -> (forall s, X' s -> X s) ->
  hoare P m Q R X.
Proof. intros Hm HP HQ HR HX s Hs. specialize (Hm s (HP s Hs)). destruct (m s) as [s' []]; auto. Qed.
Lemma hoare_framed {A} I (m : st S E A) : framed I m <-> hoare I m (fun _ => I) (fun _ => I) I.
Proof.
  split; intros Hm s Hs; specialize (Hm s Hs).
  - by destruct (m s) as [s' []].
  - by destruct (m s) as [s' []].
Qed.
(** What holds of the state before, kept beside what the operation frames. *)
Lemma hoare_and {A} P I (m : st S E A) (Q : A -> S -> Prop) R X : hoare P m Q R X -> framed I m ->
  hoare (fun s => P s /\ I s) m (fun a s => Q a s /\ I s) (fun e s => R e s /\ I s) (fun s => X s /\ I s).
Proof. intros Hm Hf s [Hs Hi]. specialize (Hm s Hs). specialize (Hf s Hi). destruct (m s) as [s' []]; by split. Qed.
End Hoare.
