(* ===== verification/Leb128.v ===== *)
(** * LEB128 variable-length integers ([sbtc/src/leb128.rs])

    [encode_into], [try_decode], [calculate_size] and the cursor reader
    [read_leb128], with the byte masks and shifts of the source. The loops of
    the encoder and of the size computation run on fuel that [encode_into_step]
    and [calculate_size_step] prove sufficient for every non-negative value. *)

From S2P Require Import Prelude.

(** ** Constants *)
Definition MAX_BYTES : Z := 10.
Definition BITS_PER_BYTE : Z := 7.
Definition LOWER_BITS_MASK : Z := 127.
Definition CONTINUATION_FLAG : Z := 128.
Definition MULTI_BYTE_THRESHOLD : Z := 128.

(** [leb128::Error] *)
Inductive Leb128Error :=
| IncompleteSequence
| InvalidContinuation
| EmptyInput
| ValueOutOfBounds
| IndexOutOfBounds
| UnexpectedDecodeError.
#[global] Instance Leb128Error_eq_dec : EqDecision Leb128Error.
Proof. solve_decision. Defined.

(** Fuel for a loop that divides its counter by [2^7]: one more than the
    number of bits. *)
Definition shift_fuel (value : Z) : nat := S (Z.to_nat (Z.log2 value)).

(** ** Encoding: the [loop] of [encode_into] *)
Fixpoint encode_loop (fuel : nat) (value : Z) (bytes : list Z) : list Z :=
  match fuel with
  | O => bytes
  | S fuel =>
      let byte := Z.land value LOWER_BITS_MASK in
      let value := default 0 (checked_shr64 value BITS_PER_BYTE) in
      let byte := if negb (value =? 0) then Z.lor byte CONTINUATION_FLAG else byte in
      let bytes := bytes ++ [byte] in
      if value =? 0 then bytes else encode_loop fuel value bytes
  end.

Definition encode_into (value : Z) (bytes : list Z) : list Z :=
  encode_loop (shift_fuel value) value bytes.

(** ** Decoding: the [while position < bytes.len()] loop; [rest] is
    [bytes[position..]]. *)
Fixpoint try_decode_loop (rest : list Z) (position shift result : Z)
    : outcome Leb128Error (Z * Z) :=
  match rest with
  | [] => Err UnexpectedDecodeError
  | byte :: rest =>
      let value := Z.land byte LOWER_BITS_MASK in
      let continues := negb (Z.land byte CONTINUATION_FLAG =? 0) in
      if (position =? MAX_BYTES - 1) && (1 <? value) then Err ValueOutOfBounds else
      if (position =? MAX_BYTES - 1) && continues then Err InvalidContinuation else
      match checked_shl64 value shift with
      | None => Err ValueOutOfBounds
      | Some shifted =>
          let result := Z.lor result shifted in
          let position := position + 1 in
          let shift := shift + BITS_PER_BYTE in
          if negb continues then Ok (result, position) else
          match rest with
          | [] => Err IncompleteSequence
          | _ => try_decode_loop rest position shift result
          end
      end
  end.

Definition try_decode (bytes : list Z) : outcome Leb128Error (Z * Z) :=
  match bytes with
  | [] => Err EmptyInput
  | _ => try_decode_loop bytes 0 0 0
  end.

(** ** Size without encoding *)
Fixpoint calculate_size_loop (fuel : nat) (value size : Z) : Z :=
  match fuel with
  | O => size
  | S fuel =>
      if MULTI_BYTE_THRESHOLD <=? value
      then calculate_size_loop fuel (default 0 (checked_shr64 value BITS_PER_BYTE)) (size + 1)
      else size
  end.

Definition calculate_size (value : Z) : Z :=
  calculate_size_loop (shift_fuel value) value 0 + 1.

(** ** [Cursor<&[u8]>] and [ReadLeb128] (64-bit targets: [u64] positions fit
    [usize]) *)
Record Cursor := mkCursor { get_ref : list Z; position : Z }.

Definition read_leb128 (c : Cursor) : outcome Leb128Error (Z * Cursor) :=
  let start_pos := position c in
  let buffer := get_ref c in
  if zlen buffer <=? start_pos then Err IndexOutOfBounds else
  '(value, bytes_read) ← try_decode (drop (Z.to_nat start_pos) buffer);
  mret (value, mkCursor buffer (start_pos + bytes_read)).

(** ** Proofs: one unfolding equation per loop *)
Lemma shift_fuel_shift v : 128 <= v -> (shift_fuel (Z.shiftr v 7) < shift_fuel v)%nat.
Proof.
  intros. unfold shift_fuel. rewrite Z.log2_shiftr by lia.
  pose proof (Z.log2_le_mono 128 v ltac:(lia)) as Hl. change (Z.log2 128) with 7 in Hl. lia.
Qed.

Lemma checked_shr64_7 v : default 0 (checked_shr64 v BITS_PER_BYTE) = v / 128.
Proof. unfold checked_shr64, BITS_PER_BYTE. simpl. rewrite Z.shiftr_div_pow2 by lia. done. Qed.

Lemma land_mask v : Z.land v LOWER_BITS_MASK = v mod 128.
Proof. unfold LOWER_BITS_MASK. change 127 with (Z.ones 7). by rewrite Z.land_ones by lia. Qed.

Lemma lor_flag v : 0 <= v < 128 -> Z.lor v CONTINUATION_FLAG = v + 128.
Proof.
  intros. unfold CONTINUATION_FLAG. symmetry. apply Z.add_nocarry_lor.
  apply Z.bits_inj'. intros n Hn. rewrite Z.land_spec, Z.bits_0.
  change 128 with (2 ^ 7). rewrite Z.pow2_bits_eqb by lia.
  destruct (Z.eqb_spec 7 n) as [<-|]; [|by rewrite andb_false_r].
  rewrite <- (Z.mod_small v (2 ^ 7)) by lia. by rewrite Z.mod_pow2_bits_high by lia.
Qed.

Lemma land_flag b : 0 <= b < 256 -> (Z.land b CONTINUATION_FLAG =? 0) = (b <? 128).
Proof.
  intros. unfold CONTINUATION_FLAG. destruct (Z.ltb_spec b 128); apply Z.eqb_eq || apply Z.eqb_neq.
  - apply Z.bits_inj'. intros n Hn. rewrite Z.land_spec, Z.bits_0.
    change 128 with (2 ^ 7). rewrite Z.pow2_bits_eqb by lia.
    destruct (Z.eqb_spec 7 n) as [<-|]; [|by rewrite andb_false_r].
    rewrite <- (Z.mod_small b (2 ^ 7)) by lia. by rewrite Z.mod_pow2_bits_high by lia.
  - intros Hz. assert (Z.testbit (Z.land b 128) 7 = true) as Hb.
    { rewrite Z.land_spec. replace (Z.testbit b 7) with true; [done|].
      symmetry. rewrite Z.testbit_true by lia. change (2 ^ 7) with 128.
      replace (b / 128) with 1; [done|]. apply Z.div_unique with (b - 128); lia. }
    rewrite Hz in Hb. discriminate.
Qed.

(** Induction on the number of 7-bit groups of a value. *)
Lemma leb_ind (P : Z -> Prop) :
  (forall v, 0 <= v < 128 -> P v) ->
  (forall v, 128 <= v -> P (v / 128) -> P v) ->
  forall v, 0 <= v -> P v.
Proof.
  intros Hsmall Hbig. apply Zlt_0_ind. intros v IH Hv.
  destruct (Z.lt_ge_cases v 128); [by apply Hsmall; lia|].
  apply Hbig; [done|]. apply IH.
  split; [by apply Z.div_pos; lia|]. apply Z.div_lt; lia.
Qed.

Lemma div128_eq0 v : 0 <= v -> (v / 128 =? 0) = (v <? 128).
Proof.
  intros. destruct (Z.ltb_spec v 128).
  - apply Z.eqb_eq. by apply Z.div_small.
  - apply Z.eqb_neq. assert (128 / 128 <= v / 128) by (apply Z.div_le_mono; lia).
    change (128 / 128) with 1 in *. lia.
Qed.

Lemma encode_loop_fuel f1 : forall f2 v b, 0 <= v ->
  (shift_fuel v <= f1)%nat -> (shift_fuel v <= f2)%nat ->
  encode_loop f1 v b = encode_loop f2 v b.
Proof.
  induction f1 as [|f1 IH]; intros f2 v b Hv H1 H2; [unfold shift_fuel in H1; lia|].
  destruct f2 as [|f2]; [unfold shift_fuel in H2; lia|]. cbn [encode_loop].
  rewrite checked_shr64_7, !div128_eq0 by done. destruct (Z.ltb_spec v 128); simpl; [done|].
  pose proof (shift_fuel_shift v ltac:(lia)) as Hf.
  rewrite Z.shiftr_div_pow2 in Hf by lia. change (2 ^ 7) with 128 in Hf.
  apply IH; [|lia|lia]. apply Z.div_pos; lia.
Qed.

Lemma encode_into_step v b : 0 <= v ->
  encode_into v b = if v <? 128 then b ++ [v] else encode_into (v / 128) (b ++ [v mod 128 + 128]).
Proof.
  intros Hv. unfold encode_into at 1. unfold shift_fuel. cbn [encode_loop].
  rewrite checked_shr64_7, !div128_eq0, land_mask by done.
  destruct (Z.ltb_spec v 128); simpl; [by rewrite Z.mod_small by lia|].
  pose proof (Z.mod_pos_bound v 128). rewrite lor_flag by lia.
  pose proof (shift_fuel_shift v ltac:(lia)) as Hf.
  rewrite Z.shiftr_div_pow2 in Hf by lia. change (2 ^ 7) with 128 in Hf.
  apply encode_loop_fuel; [apply Z.div_pos; lia|unfold shift_fuel in *; lia|done].
Qed.

Lemma encode_into_app v : 0 <= v -> forall b, encode_into v b = b ++ encode_into v [].
Proof.
  revert v. apply (leb_ind (fun v => forall b, encode_into v b = b ++ encode_into v [])).
  - intros v Hv b. rewrite (encode_into_step v b), (encode_into_step v []) by lia.
    destruct (Z.ltb_spec v 128); [done|lia].
  - intros v Hv IH b. rewrite (encode_into_step v b), (encode_into_step v []) by lia.
    destruct (Z.ltb_spec v 128); [lia|]. rewrite IH, (IH ([] ++ _)). by rewrite <- !app_assoc.
Qed.

Lemma encode_small v : 0 <= v < 128 -> encode_into v [] = [v].
Proof. intros. rewrite encode_into_step by lia. destruct (Z.ltb_spec v 128); [done|lia]. Qed.

Lemma encode_large v : 128 <= v ->
  encode_into v [] = (v mod 128 + 128) :: encode_into (v / 128) [].
Proof.
  intros. rewrite encode_into_step by lia. destruct (Z.ltb_spec v 128); [lia|].
  rewrite encode_into_app by (apply Z.div_pos; lia). done.
Qed.

Lemma calculate_size_loop_add f : forall v s,
  calculate_size_loop f v s = calculate_size_loop f v 0 + s.
Proof.
  induction f as [|f IH]; intros v s; simpl; [lia|]. zcase; [|lia]. rewrite IH, (IH _ 1). lia.
Qed.

Lemma calculate_size_loop_fuel f1 : forall f2 v s, 0 <= v ->
  (shift_fuel v <= f1)%nat -> (shift_fuel v <= f2)%nat ->
  calculate_size_loop f1 v s = calculate_size_loop f2 v s.
Proof.
  induction f1 as [|f1 IH]; intros f2 v s Hv H1 H2; [unfold shift_fuel in H1; lia|].
  destruct f2 as [|f2]; [unfold shift_fuel in H2; lia|]. cbn [calculate_size_loop].
  rewrite checked_shr64_7. unfold MULTI_BYTE_THRESHOLD. zcase; [|done].
  pose proof (shift_fuel_shift v ltac:(lia)) as Hf.
  rewrite Z.shiftr_div_pow2 in Hf by lia. change (2 ^ 7) with 128 in Hf.
  apply IH; [apply Z.div_pos; lia|lia|lia].
Qed.

Lemma calculate_size_step v : 0 <= v ->
  calculate_size v = if v <? 128 then 1 else calculate_size (v / 128) + 1.
Proof.
  intros Hv. unfold calculate_size at 1. unfold shift_fuel. cbn [calculate_size_loop].
  rewrite checked_shr64_7. unfold MULTI_BYTE_THRESHOLD.
  destruct (Z.leb_spec 128 v), (Z.ltb_spec v 128); try lia.
  rewrite calculate_size_loop_add. unfold calculate_size.
  pose proof (shift_fuel_shift v ltac:(lia)) as Hf.
  rewrite Z.shiftr_div_pow2 in Hf by lia. change (2 ^ 7) with 128 in Hf.
  rewrite (calculate_size_loop_fuel _ (shift_fuel (v / 128))); [lia|apply Z.div_pos; lia| |done].
  unfold shift_fuel in *. lia.
Qed.

Lemma calculate_size_encode v : 0 <= v -> zlen (encode_into v []) = calculate_size v.
Proof.
  revert v. apply leb_ind; intros v Hv.
  - rewrite encode_small, calculate_size_step by lia. by destruct (Z.ltb_spec v 128); [|lia].
  - intros IH. rewrite encode_large, calculate_size_step, zlen_cons, IH by lia.
    destruct (Z.ltb_spec v 128); lia.
Qed.

(** [k] groups suffice below [128^k]. *)
Lemma calculate_size_bound (k : nat) : forall v, 0 <= v < 128 ^ (Z.of_nat k + 1) ->
  1 <= calculate_size v <= Z.of_nat k + 1.
Proof.
  induction k as [|k IH]; intros v Hv; rewrite calculate_size_step by lia; zcase; try lia.
  assert (0 <= v / 128 < 128 ^ (Z.of_nat k + 1)).
  { split; [apply Z.div_pos; lia|]. apply Z.div_lt_upper_bound; [lia|].
    rewrite Nat2Z.inj_succ in Hv. replace (Z.succ (Z.of_nat k) + 1) with (Z.succ (Z.of_nat k + 1)) in Hv by lia.
    rewrite Z.pow_succ_r in Hv by lia. lia. }
  specialize (IH _ H0). lia.
Qed.

Lemma calculate_size_u64 v : in_u 64 v -> 1 <= calculate_size v <= 10.
Proof. unfold in_u. intros. apply (calculate_size_bound 9). simpl. lia. Qed.

Lemma encode_bytes v : 0 <= v -> Forall is_byte (encode_into v []).
Proof.
  revert v. apply leb_ind; intros v Hv.
  - rewrite encode_small by lia. repeat constructor; lia.
  - intros IH. rewrite encode_large by lia. constructor; [|done].
    pose proof (Z.mod_pos_bound v 128). unfold is_byte, in_u. lia.
Qed.

(** ** Decoding inverts encoding *)
Lemma lor_shiftl_add a b n : 0 <= n -> 0 <= a < 2 ^ n -> Z.lor a (Z.shiftl b n) = a + b * 2 ^ n.
Proof.
  intros Hn Ha. rewrite <- Z.shiftl_mul_pow2 by done. symmetry. apply Z.add_nocarry_lor.
  apply Z.bits_inj'. intros i Hi. rewrite Z.land_spec, Z.bits_0.
  destruct (Z.lt_ge_cases i n).
  - by rewrite Z.shiftl_spec_low, andb_false_r by lia.
  - rewrite <- (Z.mod_small a (2 ^ n)), Z.mod_pow2_bits_high by lia. done.
Qed.

(** One iteration of the decoding loop on a byte [b] whose payload fits. *)
Lemma try_decode_loop_cons b rest pos acc :
  0 <= b < 256 -> 0 <= pos <= 9 -> 0 <= acc < 2 ^ (7 * pos) ->
  (pos = 9 -> b <= 1) ->
  try_decode_loop (b :: rest) pos (7 * pos) acc =
    let acc' := acc + (b mod 128) * 2 ^ (7 * pos) in
    if b <? 128 then Ok (acc', pos + 1)
    else match rest with
         | [] => Err IncompleteSequence
         | _ => try_decode_loop rest (pos + 1) (7 * (pos + 1)) acc'
         end.
Proof.
  intros Hb Hpos Hacc H9. pose proof (Z.mod_pos_bound b 128 ltac:(lia)).
  assert (pos = 9 -> b mod 128 = b) by (intros; apply Z.mod_small; lia).
  assert (0 < 2 ^ (7 * pos)) by (apply Z.pow_pos_nonneg; lia).
  assert ((b mod 128) * 2 ^ (7 * pos) < 2 ^ 64).
  { destruct (decide (pos = 9)) as [->|]; [change (7 * 9) with 63; nia|].
    assert (2 ^ (7 * pos) <= 2 ^ 56) by (apply Z.pow_le_mono_r; lia). nia. }
  cbn [try_decode_loop]. rewrite land_mask, land_flag by done.
  unfold MAX_BYTES, BITS_PER_BYTE, checked_shl64. change (10 - 1) with 9.
  replace ((pos =? 9) && (1 <? b mod 128)) with false by
    (symmetry; apply andb_false_iff; destruct (Z.eqb_spec pos 9); [right|by left]; apply Z.ltb_ge; lia).
  replace ((pos =? 9) && negb (b <? 128)) with false by
    (symmetry; apply andb_false_iff; destruct (Z.eqb_spec pos 9); [right|by left];
     destruct (Z.ltb_spec b 128); [done|lia]).
  destruct (Z.ltb_spec (7 * pos) 64); [|lia].
  rewrite Z.mod_small by (rewrite Z.shiftl_mul_pow2 by lia; nia).
  rewrite lor_shiftl_add by lia. rewrite negb_involutive.
  replace (7 * pos + 7) with (7 * (pos + 1)) by lia. done.
Qed.

Lemma encode_nonempty v : 0 <= v -> exists b bs, encode_into v [] = b :: bs.
Proof.
  intros. destruct (Z.lt_ge_cases v 128); [rewrite encode_small|rewrite encode_large]; eauto; lia.
Qed.

Lemma try_decode_loop_encode v : 0 <= v -> forall rest pos acc,
  0 <= pos <= 9 -> 0 <= acc < 2 ^ (7 * pos) -> v * 2 ^ (7 * pos) < 2 ^ 64 ->
  try_decode_loop (encode_into v [] ++ rest) pos (7 * pos) acc
  = Ok (acc + v * 2 ^ (7 * pos), pos + calculate_size v).
Proof.
  revert v. apply (leb_ind (fun v => forall rest pos acc, _ -> _ -> _ -> _)).
  - intros v Hv rest pos acc Hpos Hacc Hlt. rewrite encode_small, calculate_size_step by lia.
    simpl app. rewrite try_decode_loop_cons; [|lia|lia|lia|].
    2: { intros ->. change (2 ^ (7 * 9)) with (2 ^ 63) in Hlt. lia. }
    rewrite Z.mod_small by lia. simpl. by destruct (Z.ltb_spec v 128); [|lia].
  - intros v Hv IH rest pos acc Hpos Hacc Hlt. rewrite encode_large, calculate_size_step by lia.
    pose proof (Z.mod_pos_bound v 128 ltac:(lia)). pose proof (Z.div_mod v 128 ltac:(lia)) as Hdm.
    assert (0 < 2 ^ (7 * pos)) by (apply Z.pow_pos_nonneg; lia).
    assert (pos <= 8).
    { destruct (decide (pos = 9)) as [->|]; [|lia]. change (2 ^ (7 * 9)) with (2 ^ 63) in Hlt. lia. }
    assert (2 ^ (7 * (pos + 1)) = 128 * 2 ^ (7 * pos)) as Hp.
    { replace (7 * (pos + 1)) with (7 + 7 * pos) by lia. by rewrite Z.pow_add_r by lia. }
    rewrite <- app_comm_cons, try_decode_loop_cons by lia. cbv zeta.
    replace ((v mod 128 + 128) mod 128) with (v mod 128)
      by (rewrite <- Z.add_mod_idemp_r, Z.mod_same, Z.add_0_r, Z.mod_mod; lia).
    destruct (Z.ltb_spec (v mod 128 + 128) 128), (Z.ltb_spec v 128); [lia..|].
    destruct (encode_nonempty (v / 128)) as (b & bs & Hbs); [apply Z.div_pos; lia|].
    transitivity (try_decode_loop (encode_into (v / 128) [] ++ rest) (pos + 1) (7 * (pos + 1))
      (acc + v mod 128 * 2 ^ (7 * pos))); [by rewrite Hbs|].
    rewrite IH by (rewrite ?Hp; nia). f_equal. f_equal; [rewrite Hp; nia|lia].
Qed.

Lemma try_decode_encode v rest : in_u 64 v ->
  try_decode (encode_into v [] ++ rest) = Ok (v, calculate_size v).
Proof.
  intros [H0 H1]. pose proof (try_decode_loop_encode v H0 rest 0 0 ltac:(lia) ltac:(lia) ltac:(lia)) as H.
  destruct (encode_nonempty v H0) as (b & bs & Hbs). unfold try_decode.
  rewrite Hbs in *. simpl app in *. change (7 * 0) with 0 in H. rewrite H. do 2 f_equal; lia.
Qed.

(** On arbitrary bytes a decoded value is a [u64], at least one and at most
    ten bytes are consumed, and none past the end of the input. *)
Lemma try_decode_loop_bounds rest : forall pos acc v n,
  Forall is_byte rest -> 0 <= pos <= 9 -> 0 <= acc < 2 ^ (7 * pos) ->
  try_decode_loop rest pos (7 * pos) acc = Ok (v, n) ->
  0 <= v < 2 ^ 64 /\ pos < n <= 10 /\ n <= pos + zlen rest.
Proof.
  induction rest as [|b rest IH]; intros pos acc v n Hb Hpos Hacc Hd; [done|].
  inversion_clear Hb as [|?? Hbyte Hrest]. unfold is_byte, in_u in Hbyte. change (2 ^ 8) with 256 in Hbyte.
  assert (pos = 9 -> b <= 1) as H9.
  { intros ->. cbn [try_decode_loop] in Hd. rewrite land_mask, land_flag in Hd by done.
    change (9 =? MAX_BYTES - 1) with true in Hd. cbn [andb] in Hd.
    destruct (Z.ltb_spec 1 (b mod 128)); [done|]. destruct (Z.ltb_spec b 128); [|done].
    rewrite Z.mod_small in * by lia. lia. }
  rewrite try_decode_loop_cons in Hd by done. cbv zeta in Hd. rewrite zlen_cons.
  pose proof (Z.mod_pos_bound b 128 ltac:(lia)). pose proof (zlen_nonneg rest).
  assert (2 ^ (7 * (pos + 1)) = 128 * 2 ^ (7 * pos)) as Hp.
  { replace (7 * (pos + 1)) with (7 + 7 * pos) by lia. by rewrite Z.pow_add_r by lia. }
  destruct (Z.ltb_spec b 128).
  - injection Hd as <- <-. split; [|lia].
    assert (0 < 2 ^ (7 * pos)) by (apply Z.pow_pos_nonneg; lia).
    destruct (decide (pos = 9)) as [->|].
    + rewrite Z.mod_small by lia. change (2 ^ (7 * 9)) with (2 ^ 63) in *. lia.
    + assert (2 ^ (7 * pos) <= 2 ^ 56) by (apply Z.pow_le_mono_r; lia). nia.
  - destruct rest as [|b' rest']; [done|]. apply IH in Hd; [lia|done| |rewrite Hp; nia].
    destruct (decide (pos = 9)) as [->|]; lia.
Qed.

Lemma try_decode_bounds bytes v n : Forall is_byte bytes ->
  try_decode bytes = Ok (v, n) -> in_u 64 v /\ 1 <= n <= 10 /\ n <= zlen bytes.
Proof.
  intros Hb Hd. destruct bytes as [|b bs]; [done|]. unfold try_decode in Hd.
  apply (try_decode_loop_bounds (b :: bs) 0 0) in Hd; [|done|lia|simpl; lia]. unfold in_u. lia.
Qed.

(** Errors the decoder can report: never the two "cannot happen" ones. *)
Lemma try_decode_loop_total rest : forall pos acc,
  Forall is_byte rest -> rest <> [] -> 0 <= pos <= 9 -> 0 <= acc < 2 ^ (7 * pos) ->
  match try_decode_loop rest pos (7 * pos) acc with
  | Ok _ | Err IncompleteSequence => True
  | Err InvalidContinuation | Err ValueOutOfBounds => 10 <= pos + zlen rest
  | _ => False
  end.
Proof.
  induction rest as [|b rest IH]; intros pos acc Hb Hne Hpos Hacc; [done|].
  inversion_clear Hb as [|?? Hbyte Hrest]. unfold is_byte, in_u in Hbyte. change (2 ^ 8) with 256 in Hbyte.
  rewrite zlen_cons. pose proof (zlen_nonneg rest). pose proof (Z.mod_pos_bound b 128 ltac:(lia)).
  destruct (decide (pos = 9 -> b <= 1)) as [H9|H9].
  - rewrite try_decode_loop_cons by done. cbv zeta. destruct (Z.ltb_spec b 128); [done|].
    destruct rest as [|b' rest']; [done|].
    assert (pos <> 9) by (intros ->; lia).
    assert (2 ^ (7 * (pos + 1)) = 128 * 2 ^ (7 * pos)) as Hp.
    { replace (7 * (pos + 1)) with (7 + 7 * pos) by lia. by rewrite Z.pow_add_r by lia. }
    specialize (IH (pos + 1) (acc + b mod 128 * 2 ^ (7 * pos)) Hrest ltac:(done) ltac:(lia)).
    replace (pos + (1 + zlen (b' :: rest'))) with (pos + 1 + zlen (b' :: rest')) by lia.
    apply IH. rewrite Hp. nia.
  - assert (pos = 9) as -> by (destruct (decide (pos = 9)); [done|exfalso; apply H9; lia]).
    cbn [try_decode_loop]. rewrite land_mask, land_flag by done.
    change (9 =? MAX_BYTES - 1) with true. cbn [andb].
    destruct (Z.ltb_spec 1 (b mod 128)); [lia|]. destruct (Z.ltb_spec b 128); [|simpl; lia].
    rewrite Z.mod_small in * by lia. exfalso. apply H9. lia.
Qed.

(** ** Reading from a cursor *)
Lemma read_leb128_encode pre v rest : in_u 64 v ->
  read_leb128 (mkCursor (pre ++ encode_into v [] ++ rest) (zlen pre))
  = Ok (v, mkCursor (pre ++ encode_into v [] ++ rest) (zlen (pre ++ encode_into v []))).
Proof.
  intros Hv. unfold read_leb128. simpl. destruct Hv as [H0 ?].
  destruct (encode_nonempty v H0) as (b & bs & Hbs).
  destruct (Z.leb_spec (zlen (pre ++ encode_into v [] ++ rest)) (zlen pre)) as [Hl|_].
  { rewrite Hbs in Hl. zlia. }
  rewrite zlen_to_nat, drop_app_length, try_decode_encode by done. simpl.
  by rewrite zlen_app, calculate_size_encode.
Qed.

Lemma read_leb128_bounds c v c' : Forall is_byte (get_ref c) -> 0 <= position c ->
  read_leb128 c = Ok (v, c') ->
  in_u 64 v /\ get_ref c' = get_ref c /\ position c < position c' <= zlen (get_ref c).
Proof.
  intros Hb Hp. unfold read_leb128. zcase; [done|]. intros Hr. outcome_inv.
  destruct v0 as [value n]. outcome_inv.
  apply try_decode_bounds in Hv; [|by apply Forall_drop]. simpl.
  destruct Hv as (Hv & Hn & Hl). split_and!; [done|done|lia|].
  unfold zlen in *. rewrite length_drop in Hl. lia.
Qed.

Lemma read_leb128_no_panic c : Forall is_byte (get_ref c) -> 0 <= position c ->
  read_leb128 c <> Panic /\ read_leb128 c <> Diverge.
Proof.
  intros Hb Hp. unfold read_leb128. zcase; [done|].
  assert (drop (Z.to_nat (position c)) (get_ref c) <> []) as Hne.
  { intros Hd%(f_equal length). rewrite length_drop in Hd. unfold zlen in *. simpl in Hd. lia. }
  pose proof (try_decode_loop_total (drop (Z.to_nat (position c)) (get_ref c)) 0 0
    (Forall_drop _ _ _ Hb) Hne ltac:(lia) ltac:(simpl; lia)) as Ht.
  change (7 * 0) with 0 in Ht. unfold try_decode.
  destruct (drop (Z.to_nat (position c)) (get_ref c)) as [|b bs]; [done|].
  destruct (try_decode_loop (b :: bs) 0 0 0) as [[]|[]| |]; done.
Qed.

(** ** Claims *)

(** LEB128 round trip: for every [u64], [encode_into] appends bytes that
    [try_decode] reads back with the value and the exact byte count, whatever
    follows them in the buffer. *)
Theorem leb128_roundtrip v prefix rest : in_u 64 v ->
  exists bytes, encode_into v prefix = prefix ++ bytes /\ Forall is_byte bytes /\
    try_decode (bytes ++ rest) = Ok (v, zlen bytes).
Proof.
  intros Hv. pose proof Hv as [H0 _]. exists (encode_into v []).
  split_and!; [by apply encode_into_app|by apply encode_bytes|].
  by rewrite try_decode_encode, calculate_size_encode.
Qed.

Lemma leb128_roundtrip_witness : exists bytes,
  encode_into u64_max [7] = [7] ++ bytes /\ Forall is_byte bytes /\
  try_decode (bytes ++ [1; 2]) = Ok (u64_max, zlen bytes).
Proof. apply leb128_roundtrip. unfold in_u, u64_max. lia. Defined.

(** [calculate_size] predicts the length of the encoding of every [u64],
    and that length is between one and [MAX_BYTES] = 10 bytes. *)
Theorem leb128_size v : in_u 64 v ->
  zlen (encode_into v []) = calculate_size v /\ 1 <= calculate_size v <= MAX_BYTES.
Proof.
  intros Hv. split; [apply calculate_size_encode; apply Hv|]. by apply calculate_size_u64.
Qed.

Lemma leb128_size_witness :
  zlen (encode_into u64_max []) = calculate_size u64_max /\ 1 <= calculate_size u64_max <= MAX_BYTES.
Proof. apply leb128_size. unfold in_u, u64_max. lia. Defined.

(** On arbitrary bytes [try_decode] is total: it returns a [u64] having
    consumed between one and ten of the given bytes, or one of the four
    documented errors; the two "cannot happen" errors never occur, and the
    overlong errors only on inputs of ten bytes or more. *)
Theorem try_decode_total bytes : Forall is_byte bytes ->
  match try_decode bytes with
  | Ok (v, n) => in_u 64 v /\ 1 <= n <= MAX_BYTES /\ n <= zlen bytes
  | Err EmptyInput => bytes = []
  | Err IncompleteSequence => True
  | Err InvalidContinuation | Err ValueOutOfBounds => MAX_BYTES <= zlen bytes
  | _ => False
  end.
Proof.
  intros Hb. destruct bytes as [|b bs]; [done|].
  pose proof (try_decode_loop_total (b :: bs) 0 0 Hb ltac:(done) ltac:(lia) ltac:(simpl; lia)) as Ht.
  change (7 * 0) with 0 in Ht.
  destruct (try_decode (b :: bs)) as [[v n]|e| |] eqn:Hd; unfold try_decode in Hd; rewrite Hd in Ht; [|by destruct e|done|done].
  by apply (try_decode_bounds (b :: bs)).
Qed.

Lemma try_decode_total_witness : in_u 64 300 /\ 1 <= 2 <= MAX_BYTES /\ 2 <= zlen [172; 2].
Proof.
  apply (try_decode_total [172; 2]). repeat (constructor; [unfold is_byte, in_u; lia|]). constructor.
Defined.
