(* ===== verification/Idpack.v ===== *)
(** * Integer-set compression: segments and the bitmap segmenter
    ([sbtc/src/idpack/segment.rs], [segments.rs], [segmenters/bitmap.rs])

    A segment is a non-empty, strictly ascending vector; a collection of
    segments concatenates to a strictly ascending vector ([segs_wf]). The
    segmenter cuts a sorted vector where a split saves bytes. *)

From S2P Require Import Prelude Leb128.

(** ** [segment.rs] *)
Inductive SegmentError :=
| UnsortedValue (value : Z)
| DuplicateValue (value : Z).

Record Segment := mkSegment { seg_values : list Z }.

Definition seg_new_with_offset (offset : Z) : Segment := mkSegment [offset].

Definition seg_offset {E} (s : Segment) : outcome E Z := idx (seg_values s) 0.

Definition seg_max {E} (s : Segment) : outcome E Z :=
  i ← sub_u (zlen (seg_values s)) 1; idx (seg_values s) i.

Definition seg_try_insert (s : Segment) (value : Z) : outcome SegmentError Segment :=
  last_value ← seg_max s;
  if value <? last_value then Err (UnsortedValue value) else
  if value =? last_value then Err (DuplicateValue value) else
  mret (mkSegment (seg_values s ++ [value])).

Definition seg_payload_values {E} (s : Segment) : outcome E (list Z) :=
  slice (seg_values s) 1 (zlen (seg_values s)).

Definition seg_len (s : Segment) : Z := zlen (seg_values s).

Definition seg_range {E} (s : Segment) : outcome E Z :=
  m ← seg_max s; o ← seg_offset s; sub_u m o.

(** ** [segments.rs] *)
Inductive SegmentsError :=
| OverlappingSegments (offset prev_max : Z).

Definition segs_values (segs : list Segment) : list Z := concat (map seg_values segs).

Definition segs_try_push (segs : list Segment) (segment : Segment)
    : outcome SegmentsError (list Segment) :=
  match last segs with
  | Some last_segment =>
      prev_max ← seg_max last_segment;
      offset ← seg_offset segment;
      if offset <=? prev_max then Err (OverlappingSegments offset prev_max)
      else mret (segs ++ [segment])
  | None => mret (segs ++ [segment])
  end.

(** ** [segmenters/mod.rs] *)
Inductive SegmenterError :=
| InvalidSequence
| SegmenterSegment (e : SegmentError)
| SegmenterSegments (e : SegmentsError)
| InvalidBoundaries.

(** ** [segmenters/bitmap.rs] *)
Record BitmapCosts := mkBitmapCosts { bytes_if_split : Z; bytes_if_combined : Z }.

Definition should_split (c : BitmapCosts) : bool := bytes_if_split c <? bytes_if_combined c.

Definition costs_calculate {E} (offset prev next : Z) : outcome E BitmapCosts :=
  d ← sub_u prev offset;
  let current_payload := div_ceil d 8 in
  let current_length_header := calculate_size current_payload in
  d' ← sub_u next offset;
  let combined_payload := div_ceil d' 8 in
  let combined_length_header := calculate_size combined_payload in
  bytes_if_combined ← add_u 64 combined_length_header combined_payload;
  let split_length_header := 1 in
  let split_offset := calculate_size (saturating_sub next prev) in
  s ← add_u 64 current_length_header current_payload;
  s ← add_u 64 s split_offset;
  s ← add_u 64 s split_length_header;
  mret (mkBitmapCosts s bytes_if_combined).

(** One window of the boundary search; the state is the boundaries found so
    far and the offset of the current segment. *)
Definition boundary_step {E} (st : list Z * Z) (w : Z * (Z * Z)) : outcome E (list Z * Z) :=
  let '(boundaries, current_offset) := st in
  let '(pos, (prev, next)) := w in
  costs ← costs_calculate current_offset prev next;
  mret (if should_split costs then (boundaries ++ [pos + 1], next)
        else (boundaries, current_offset)).

Definition find_segment_boundaries {E} (values : list Z) : outcome E (list Z) :=
  if zlen values <=? 1 then mret [0; zlen values] else
  first ← idx values 0;
  '(boundaries, _) ← ofold boundary_step ([0], first) (enumerate (windows2 values));
  mret (boundaries ++ [zlen values]).

Definition create_segment_step (values : list Z) (segments : list Segment) (w : Z * Z)
    : outcome SegmenterError (list Segment) :=
  let '(start_idx, end_idx) := w in
  sl ← slice values start_idx end_idx;
  match sl with
  | [] => Err InvalidBoundaries
  | offset :: rest =>
      segment ← map_err SegmenterSegment (ofold seg_try_insert (seg_new_with_offset offset) rest);
      map_err SegmenterSegments (segs_try_push segments segment)
  end.

Definition create_segments_from_boundaries (values boundaries : list Z)
    : outcome SegmenterError (list Segment) :=
  ofold (create_segment_step values) [] (windows2 boundaries).

Definition is_unique_sorted (values : list Z) : bool :=
  forallb (fun w => w.1 <? w.2) (windows2 values).

Definition package (values : list Z) : outcome SegmenterError (list Segment) :=
  match values with
  | [] => mret []
  | _ =>
      if negb (is_unique_sorted values) then Err InvalidSequence else
      boundaries ← find_segment_boundaries values;
      create_segments_from_boundaries values boundaries
  end.

(** The closure of the [fold] in [estimate_size], with the captured
    [prev_max]. *)
Definition estimate_step {E} (st : Z * Z) (segment : Segment) : outcome E (Z * Z) :=
  let '(prev_max, total_bytes) := st in
  offset ← seg_offset segment;
  let offset_size := calculate_size (saturating_sub offset prev_max) in
  range ← seg_range segment;
  let bytes_needed := div_ceil range 8 in
  let length_header_size := calculate_size bytes_needed in
  prev_max ← seg_max segment;
  s ← add_u 64 offset_size length_header_size;
  segment_size ← add_u 64 s bytes_needed;
  total ← add_u 64 total_bytes segment_size;
  mret (prev_max, total).

Definition estimate_size (values : list Z) : outcome SegmenterError Z :=
  match values with
  | [] => mret 0
  | _ =>
      segments ← package values;
      '(_, encoded_size) ← ofold estimate_step (0, 0) segments;
      mret encoded_size
  end.

(** ** Well-formedness *)
Record seg_wf (s : Segment) : Prop := {
  seg_wf_ne : seg_values s <> [];
  seg_wf_sorted : ssorted (seg_values s);
  seg_wf_u64 : Forall (in_u 64) (seg_values s) }.

Record segs_wf (segs : list Segment) : Prop := {
  segs_wf_ne : Forall (fun s => seg_values s <> []) segs;
  segs_wf_sorted : ssorted (segs_values segs);
  segs_wf_u64 : Forall (in_u 64) (segs_values segs) }.

(** ** Segment operations on well-formed segments *)
Lemma seg_max_ok {E} s m : last (seg_values s) = Some m -> seg_max (E:=E) s = Ok m.
Proof.
  intros Hl. unfold seg_max, sub_u.
  assert (seg_values s <> []) as Hne by (intros Hn; by rewrite Hn in Hl).
  assert (1 <= zlen (seg_values s)).
  { destruct (seg_values s); [done|]. rewrite zlen_cons. pose proof (zlen_nonneg l). lia. }
  destruct (Z.leb_spec 1 (zlen (seg_values s))); [|lia]. simpl. apply idx_ok; [|lia].
  rewrite last_lookup in Hl. rewrite <- Hl. f_equal. unfold zlen. lia.
Qed.

Lemma seg_offset_ok {E} s o p : seg_values s = o :: p -> seg_offset (E:=E) s = Ok o.
Proof. intros Hs. unfold seg_offset. by rewrite Hs. Qed.

Lemma seg_max_inv {E} s m : seg_max (E:=E) s = Ok m -> last (seg_values s) = Some m.
Proof.
  unfold seg_max, sub_u. intros H. outcome_inv. destruct (Z.leb_spec 1 (zlen (seg_values s))); [|done].
  outcome_inv. apply idx_inv in H as [_ H]. rewrite last_lookup, <- H. f_equal. unfold zlen. lia.
Qed.

Lemma seg_offset_inv {E} s o : seg_offset (E:=E) s = Ok o -> exists p, seg_values s = o :: p.
Proof. unfold seg_offset. intros [_ H]%idx_inv. destruct (seg_values s); naive_solver. Qed.

Lemma seg_payload_ok {E} s o p : seg_values s = o :: p -> seg_payload_values (E:=E) s = Ok p.
Proof.
  intros Hs. unfold seg_payload_values, slice. rewrite Hs, zlen_cons. pose proof (zlen_nonneg p).
  destruct (Z.leb_spec 1 (1 + zlen p)), (Z.leb_spec (1 + zlen p) (1 + zlen p)); try lia. cbn [andb Z.leb Z.compare].
  change (Z.to_nat 1) with 1%nat. simpl drop. rewrite drop_0. f_equal. rewrite take_ge; [done|]. unfold zlen. lia.
Qed.

Lemma seg_range_ok {E} s o p m : seg_wf s -> seg_values s = o :: p -> last (seg_values s) = Some m ->
  seg_range (E:=E) s = Ok (m - o).
Proof.
  intros [_ Hs _] Hv Hm. unfold seg_range. rewrite (seg_max_ok s m), (seg_offset_ok s o p) by done.
  simpl. unfold sub_u. zcase; [done|]. apply last_Some_elem_of in Hm. rewrite Hv in *.
  pose proof (ssorted_cons_le o p m Hs Hm). lia.
Qed.

Lemma seg_try_insert_ok s m x : last (seg_values s) = Some m -> m < x ->
  seg_try_insert s x = Ok (mkSegment (seg_values s ++ [x])).
Proof.
  intros Hl Hlt. unfold seg_try_insert. rewrite (seg_max_ok s m) by done. simpl.
  zcase; [lia|]. by zcase; [lia|].
Qed.

Lemma seg_try_insert_inv s x s' : seg_try_insert s x = Ok s' ->
  exists m, last (seg_values s) = Some m /\ m < x /\ s' = mkSegment (seg_values s ++ [x]).
Proof.
  unfold seg_try_insert. intros H. outcome_inv. apply seg_max_inv in Hv. exists v.
  do 2 (zcase_in H; [done|]). outcome_inv. split_and!; [done|lia|done].
Qed.

Lemma insert_all_ok l : forall vals, vals <> [] -> ssorted (vals ++ l) ->
  ofold seg_try_insert (mkSegment vals) l = Ok (mkSegment (vals ++ l)).
Proof.
  induction l as [|x l IH]; intros vals Hne Hs; simpl; [by rewrite app_nil_r|].
  destruct (last_is_Some_ne vals Hne) as [m Hm].
  rewrite (seg_try_insert_ok (mkSegment vals) m x); [|done|].
  - simpl. rewrite IH; [by rewrite <- app_assoc|by destruct vals|by rewrite <- app_assoc].
  - apply ssorted_app in Hs as [Hs _]. apply Hs; [by apply last_Some_elem_of|left].
Qed.

(** ** Collections of segments *)
Lemma segs_values_app a b : segs_values (a ++ b) = segs_values a ++ segs_values b.
Proof. unfold segs_values. by rewrite map_app, concat_app. Qed.
Lemma segs_values_one s : segs_values [s] = seg_values s.
Proof. unfold segs_values. simpl. by rewrite app_nil_r. Qed.

Lemma last_app_ne {A} (l k : list A) : k <> [] -> last (l ++ k) = last k.
Proof. intros. destruct (last_is_Some_ne k) as [x Hx]; [done|]. rewrite last_app, Hx. done. Qed.

Lemma segs_last_value segs s :
  last segs = Some s -> seg_values s <> [] -> last (segs_values segs) = last (seg_values s).
Proof. intros [l ->]%last_Some Hne. by rewrite segs_values_app, segs_values_one, last_app_ne. Qed.

Lemma segs_try_push_ok segs s : seg_values s <> [] ->
  Forall (fun s => seg_values s <> []) segs -> ssorted (segs_values segs ++ seg_values s) ->
  segs_try_push segs s = Ok (segs ++ [s]).
Proof.
  intros Hne Hnes Hs. unfold segs_try_push. destruct (last segs) as [sl|] eqn:Hl; [|done].
  assert (seg_values sl <> []) as Hnel by (by eapply Forall_forall in Hnes; [|by apply last_Some_elem_of]).
  destruct (last_is_Some_ne _ Hnel) as [m Hm]. rewrite (seg_max_ok sl m) by done.
  destruct (seg_values s) as [|o p] eqn:Hv; [done|]. rewrite (seg_offset_ok s o p) by done. simpl.
  zcase; [|done]. apply ssorted_app in Hs as [Hs _].
  assert (m < o); [|lia]. apply Hs; [|left].
  apply last_Some_elem_of. by rewrite (segs_last_value segs sl).
Qed.

Lemma segs_try_push_wf segs s segs' : segs_wf segs -> seg_wf s ->
  segs_try_push segs s = Ok segs' -> segs' = segs ++ [s] /\ segs_wf segs'.
Proof.
  intros [Hne Hs Hu] [Hne1 Hs1 Hu1] Hp.
  assert (segs' = segs ++ [s] /\ (forall x y, x ∈ segs_values segs -> y ∈ seg_values s -> x < y)) as [-> Hlt].
  { unfold segs_try_push in Hp. destruct (last segs) as [sl|] eqn:Hl.
    - outcome_inv. apply seg_max_inv in Hv. apply seg_offset_inv in Hv0 as [p Hp'].
      zcase_in Hp; [done|]. outcome_inv. split; [done|]. intros x y Hx Hy.
      rewrite Hp' in Hs1, Hy. pose proof (ssorted_cons_le _ _ _ Hs1 Hy).
      assert (last (segs_values segs) = Some v).
      { rewrite (segs_last_value _ sl); [done|done|by intros Hn; rewrite Hn in Hv]. }
      pose proof (ssorted_last_le _ _ _ Hs H1 Hx). lia.
    - outcome_inv. apply last_None in Hl as ->. split; [done|]. by intros x y ?%elem_of_nil. }
  split; [done|]. constructor; rewrite ?segs_values_app, ?segs_values_one.
  - by apply Forall_app; split; [|constructor].
  - by apply ssorted_app.
  - by apply Forall_app.
Qed.

(** ** The segmenter succeeds exactly on strictly sorted input *)
(** The byte length of a bitmap spanning a [u64] range, and of its header. *)
Lemma payload_bounds r : in_u 64 r ->
  0 <= div_ceil r 8 <= 2 ^ 61 /\ 1 <= calculate_size (div_ceil r 8) <= 10.
Proof.
  unfold in_u. intros. pose proof (div_ceil_nonneg r 8). pose proof (div_ceil_le r 8 (2 ^ 61)).
  split; [lia|]. apply calculate_size_u64. unfold in_u. lia.
Qed.

Lemma costs_calculate_ok {E} offset prev next :
  0 <= offset -> offset <= prev -> prev < next -> next < 2 ^ 64 ->
  exists c, costs_calculate (E:=E) offset prev next = Ok c.
Proof.
  intros. unfold costs_calculate.
  destruct (payload_bounds (prev - offset)) as [? ?]; [unfold in_u; lia|].
  destruct (payload_bounds (next - offset)) as [? ?]; [unfold in_u; lia|].
  assert (1 <= calculate_size (saturating_sub next prev) <= 10)
    by (apply calculate_size_u64; unfold in_u, saturating_sub; lia).
  uarith. eauto.
Qed.

Lemma boundary_loop_ok {E} l : forall x pos bs off,
  ssorted (x :: l) -> Forall (in_u 64) (x :: l) -> 0 <= off <= x ->
  exists bs' off', ofold (boundary_step (E:=E)) (bs, off) (enumerate_from pos (windows2 (x :: l)))
                   = Ok (bs ++ bs', off')
    /\ ssorted bs' /\ Forall (fun b => pos < b <= pos + zlen l) bs'.
Proof.
  induction l as [|y l IH]; intros x pos bs off Hs Hu Hoff.
  - exists [], off. simpl. rewrite app_nil_r. split_and!; [done|constructor|done].
  - rewrite StronglySorted_cons, Forall_cons in Hs. destruct Hs as [[Hxy _] Hs].
    apply Forall_cons in Hu as [Hx Hu]. pose proof (Forall_inv Hu) as Hy. unfold in_u in Hx, Hy.
    change (enumerate_from pos (windows2 (x :: y :: l)))
      with ((pos, (x, y)) :: enumerate_from (pos + 1) (windows2 (y :: l))).
    cbn [ofold boundary_step]. destruct (costs_calculate_ok (E:=E) off x y) as [c ->]; try lia.
    oreduce. pose proof (zlen_nonneg l).
    destruct (should_split c).
    + destruct (IH y (pos + 1) (bs ++ [pos + 1]) y) as (bs' & off' & -> & Hs' & Hf); [done..|lia|].
      exists ((pos + 1) :: bs'), off'. rewrite <- app_assoc. split; [done|]. rewrite zlen_cons. split.
      * apply StronglySorted_cons. split; [|done]. eapply Forall_impl; [done|]. simpl. lia.
      * constructor; [lia|]. eapply Forall_impl; [done|]. simpl. lia.
    + destruct (IH y (pos + 1) bs off) as (bs' & off' & -> & Hs' & Hf); [done..|lia|].
      exists bs', off'. rewrite zlen_cons. split_and!; [done|done|].
      eapply Forall_impl; [done|]. simpl. lia.
Qed.

Lemma find_boundaries_ok {E} x l : ssorted (x :: l) -> Forall (in_u 64) (x :: l) ->
  exists inner, find_segment_boundaries (E:=E) (x :: l) = Ok (0 :: inner ++ [zlen (x :: l)])
    /\ ssorted (0 :: inner ++ [zlen (x :: l)]).
Proof.
  intros Hs Hu. unfold find_segment_boundaries. pose proof (zlen_nonneg l) as Hl. rewrite zlen_cons. zcase.
  - exists []. split; [done|]. simpl. repeat constructor. lia.
  - destruct (boundary_loop_ok (E:=E) l x 0 [0] x) as (bs & off & Hb & Hsb & Hf); [done..| |].
    { pose proof (Forall_inv Hu) as Hx. unfold in_u in Hx. lia. }
    change (idx (x :: l) 0) with (@Ok E Z x). oreduce.
    unfold enumerate. rewrite Hb. oreduce. exists bs. split; [done|].
    rewrite Forall_forall in Hf. simpl in Hf.
    apply StronglySorted_cons. rewrite Forall_app, !Forall_forall, ssorted_app. split_and!; [| | |done|].
    + intros b Hin. specialize (Hf b Hin). lia.
    + intros b ->%list_elem_of_singleton. lia.
    + intros a b Ha ->%list_elem_of_singleton. specialize (Hf a Ha). lia.
    + repeat constructor.
Qed.

Lemma slice_ok {E A} (l : list A) i j : 0 <= i -> i <= j -> j <= zlen l ->
  slice (E:=E) l i j = Ok (take (Z.to_nat (j - i)) (drop (Z.to_nat i) l)).
Proof. intros. unfold slice. by repeat (zcase; [|lia]). Qed.

(** [take j l] is [take i l] followed by the slice [i..j]. *)
Lemma take_slice {A} (l : list A) i j : 0 <= i -> i <= j -> j <= zlen l ->
  take (Z.to_nat j) l = take (Z.to_nat i) l ++ take (Z.to_nat (j - i)) (drop (Z.to_nat i) l).
Proof.
  intros. replace (Z.to_nat j) with (Z.to_nat i + Z.to_nat (j - i))%nat by lia.
  by rewrite <- take_take_drop.
Qed.

Lemma slice_ne {A} (l : list A) i j : 0 <= i -> i < j -> j <= zlen l ->
  take (Z.to_nat (j - i)) (drop (Z.to_nat i) l) <> [].
Proof.
  unfold zlen. intros ??? H%(f_equal length). rewrite length_take, length_drop in H. simpl in H. lia.
Qed.

Lemma create_segment_step_ok values segs i j :
  0 <= i -> i < j -> j <= zlen values -> ssorted values ->
  Forall (fun s => seg_values s <> []) segs -> segs_values segs = take (Z.to_nat i) values ->
  exists segs', create_segment_step values segs (i, j) = Ok segs'
    /\ Forall (fun s => seg_values s <> []) segs'
    /\ segs_values segs' = take (Z.to_nat j) values.
Proof.
  intros Hi Hij Hj Hs Hne Hv. unfold create_segment_step. rewrite slice_ok by lia. oreduce.
  pose proof (slice_ne values i j Hi Hij Hj) as Hslne.
  pose proof (take_slice values i j Hi ltac:(lia) Hj) as Htk.
  assert (ssorted (segs_values segs ++ take (Z.to_nat (j - i)) (drop (Z.to_nat i) values))) as Hss.
  { rewrite Hv, <- Htk. rewrite <- (take_drop (Z.to_nat j) values) in Hs.
    by apply ssorted_app in Hs as (_ & Hs & _). }
  destruct (take (Z.to_nat (j - i)) (drop (Z.to_nat i) values)) as [|o rest] eqn:Hsl; [done|].
  unfold seg_new_with_offset. rewrite insert_all_ok; [|done|by apply ssorted_app in Hss as (_ & _ & Hss)]. oreduce.
  rewrite segs_try_push_ok by done. oreduce. eexists. split; [done|]. split.
  - apply Forall_app. split; [done|]. by repeat constructor.
  - rewrite segs_values_app, segs_values_one, Hv. by rewrite Htk.
Qed.

Lemma list_last_cons {A} (b : A) bs d : List.last (b :: bs) d = List.last bs b.
Proof.
  revert b d. induction bs as [|c bs IH]; intros b d; [done|].
  change (List.last (b :: c :: bs) d) with (List.last (c :: bs) d). by rewrite !IH.
Qed.

Lemma create_segments_ok values bs : ssorted values -> forall b0 segs,
  0 <= b0 -> ssorted (b0 :: bs) -> Forall (fun b => b <= zlen values) bs ->
  Forall (fun s => seg_values s <> []) segs -> segs_values segs = take (Z.to_nat b0) values ->
  exists segs', ofold (create_segment_step values) segs (windows2 (b0 :: bs)) = Ok segs'
    /\ Forall (fun s => seg_values s <> []) segs'
    /\ segs_values segs' = take (Z.to_nat (List.last bs b0)) values.
Proof.
  intros Hs. induction bs as [|b bs IH]; intros b0 segs Hb0 Hbs Hle Hne Hv; [eauto|].
  rewrite StronglySorted_cons, Forall_cons in Hbs. destruct Hbs as [[Hlt _] Hbs].
  apply Forall_cons in Hle as [Hb Hle].
  change (windows2 (b0 :: b :: bs)) with ((b0, b) :: windows2 (b :: bs)). cbn [ofold].
  destruct (create_segment_step_ok values segs b0 b) as (segs' & -> & Hne' & Hv'); [done..|].
  oreduce. destruct (IH b segs') as (segs'' & -> & ? & ?); [lia|done..|].
  eexists. split_and!; [done|done|]. by rewrite list_last_cons.
Qed.

Lemma package_ok values : ssorted values -> Forall (in_u 64) values ->
  exists segs, package values = Ok segs /\ segs_values segs = values /\ segs_wf segs.
Proof.
  intros Hs Hu. destruct values as [|x l].
  { exists []. split_and!; [done|done|]. by repeat constructor. }
  unfold package, is_unique_sorted. rewrite (proj2 (windows2_ssorted (x :: l)) Hs). cbn [negb].
  destruct (find_boundaries_ok (E:=SegmenterError) x l Hs Hu) as (inner & -> & Hb). oreduce.
  unfold create_segments_from_boundaries.
  destruct (create_segments_ok (x :: l) (inner ++ [zlen (x :: l)]) Hs 0 []) as (segs & -> & Hne & Hv);
    [lia|done| |done|done|].
  { apply Forall_forall. intros b Hin. rewrite app_comm_cons in Hb.
    eapply (ssorted_last_le _ (zlen (x :: l))) in Hb; [done|by rewrite last_snoc|set_solver]. }
  rewrite List.last_last, zlen_to_nat, firstn_all in Hv.
  exists segs. split_and!; [done|done|]. constructor; [done|by rewrite Hv..].
Qed.

Lemma package_inv values segs : package values = Ok segs -> ssorted values.
Proof.
  destruct values as [|x l]; [constructor|]. unfold package, is_unique_sorted.
  destruct (forallb _ (windows2 (x :: l))) eqn:Hf; [|done]. intros _. by apply windows2_ssorted.
Qed.

Lemma package_invalid values : ~ ssorted values -> package values = Err InvalidSequence.
Proof.
  intros Hs. destruct values as [|x l]; [by destruct Hs; constructor|]. unfold package, is_unique_sorted.
  destruct (forallb _ (windows2 (x :: l))) eqn:Hf; [|done]. by apply windows2_ssorted in Hf.
Qed.

(** Each segment of a well-formed collection is well formed. *)
Lemma segs_wf_cons s segs : segs_wf (s :: segs) -> seg_wf s /\ segs_wf segs.
Proof.
  intros [Hne Hs Hu]. apply Forall_cons in Hne as [? ?].
  change (segs_values (s :: segs)) with (seg_values s ++ segs_values segs) in *.
  apply ssorted_app in Hs as (? & ? & ?). apply Forall_app in Hu as [? ?]. done.
Qed.
