(* ===== verification/IdpackCodec.v ===== *)
(** * The idpack wire format ([sbtc/src/idpack/codec/encoder.rs],
    [codec/decoder.rs])

    Every segment is written as a LEB128 offset (relative to the maximum of
    the previous segment), a LEB128 bitmap length and the bitmap. The decoder's
    [while] loop runs on fuel [S (length bytes)], which [decode_loop_no_diverge]
    proves sufficient on every input. *)

From S2P Require Import Prelude Leb128 Idpack.

Definition ALLOC_BYTES_LIMIT : Z := Z.shiftl 1 20.

(** ** Encoder *)
Definition bitmap_set_step (segment : Segment) (bitmap : list Z) (value : Z)
    : outcome Empty_set (list Z) :=
  offset ← seg_offset segment;
  d ← sub_u value offset;
  relative_pos ← sub_u d 1;
  let byte_index := relative_pos / 8 in
  let bit_index := relative_pos mod 8 in
  byte ← idx bitmap byte_index;
  idx_set bitmap byte_index (Z.lor byte (Z.shiftl 1 bit_index)).

Definition encode_bitmap (segment : Segment) : outcome Empty_set (list Z) :=
  range ← seg_range segment;
  let bytes_needed := div_ceil range 8 in
  let bitmap := replicate (Z.to_nat bytes_needed) 0 in
  payload ← seg_payload_values segment;
  ofold (bitmap_set_step segment) bitmap payload.

Definition encode_step (st : Z * list Z) (segment : Segment) : outcome Empty_set (Z * list Z) :=
  let '(last_segment_max_value, result) := st in
  offset ← seg_offset segment;
  let actual_offset := saturating_sub offset last_segment_max_value in
  payload_bytes ← encode_bitmap segment;
  let result := encode_into actual_offset result in
  let result := encode_into (zlen payload_bytes) result in
  let result := result ++ payload_bytes in
  last_segment_max_value ← seg_max segment;
  mret (last_segment_max_value, result).

Definition encode (segments : list Segment) : outcome Empty_set (list Z) :=
  match segments with
  | [] => mret []
  | _ => '(_, result) ← ofold encode_step (0, []) segments; mret result
  end.

(** ** Decoder *)
Inductive DecodeError :=
| DecodeLeb128 (e : Leb128Error)
| DecodeIO
| UnexpectedEndOfData
| DecodeSegment (e : SegmentError)
| DecodeSegments (e : SegmentsError)
| ArithmeticOverflow
| ByteAllocationLimit (n : Z).

(** [Read::read_exact] on a cursor. *)
Definition read_exact (c : Cursor) (n : Z) : outcome DecodeError (list Z * Cursor) :=
  if zlen (get_ref c) - position c <? n then Err DecodeIO else
  mret (take (Z.to_nat n) (drop (Z.to_nat (position c)) (get_ref c)),
        mkCursor (get_ref c) (position c + n)).

(** The body of the two nested loops of [decode_bitmap]. *)
Definition decode_bit_step (offset byte_idx byte : Z) (segment : Segment) (bit_idx : Z)
    : outcome DecodeError Segment :=
  if negb (Z.land byte (Z.shiftl 1 bit_idx) =? 0) then
    p ← mul_u 64 byte_idx 8;
    position ← add_u 64 p bit_idx;
    v ← add_u 64 offset position;
    value ← add_u 64 v 1;
    map_err DecodeSegment (seg_try_insert segment value)
  else mret segment.

Definition decode_bitmap (offset : Z) (bitmap : list Z) (segment : Segment)
    : outcome DecodeError Segment :=
  ofold (fun segment '(byte_idx, byte) =>
           ofold (decode_bit_step offset byte_idx byte) segment (seqZ 0 8))
        segment (enumerate bitmap).

Definition read_segment_into (cursor : Cursor) (prev_max_value : Z)
    : outcome DecodeError (Segment * Cursor) :=
  '(delta, cursor) ← map_err DecodeLeb128 (read_leb128 cursor);
  offset ← ok_or (checked_add 64 delta prev_max_value) ArithmeticOverflow;
  '(payload_length, cursor) ← map_err DecodeLeb128 (read_leb128 cursor);
  if ALLOC_BYTES_LIMIT <? payload_length then Err (ByteAllocationLimit payload_length) else
  '(payload_bytes, cursor) ← read_exact cursor payload_length;
  let segment := seg_new_with_offset offset in
  segment ← decode_bitmap offset payload_bytes segment;
  mret (segment, cursor).

Fixpoint decode_loop (fuel : nat) (cursor : Cursor) (prev_max_value : Z) (segments : list Segment)
    : outcome DecodeError (Cursor * list Segment) :=
  match fuel with
  | O => Diverge
  | S fuel =>
      if position cursor <? zlen (get_ref cursor) then
        '(segment, cursor) ← read_segment_into cursor prev_max_value;
        prev_max_value ← seg_max segment;
        segments ← map_err DecodeSegments (segs_try_push segments segment);
        decode_loop fuel cursor prev_max_value segments
      else mret (cursor, segments)
  end.

Definition decode (bytes : list Z) : outcome DecodeError (list Segment) :=
  match bytes with
  | [] => mret []
  | _ =>
      '(cursor, segments) ← decode_loop (S (length bytes)) (mkCursor bytes 0) 0 [];
      if negb (position cursor =? zlen bytes) then Err UnexpectedEndOfData
      else mret segments
  end.

(** ** Bitmaps as sets of bit positions *)
Definition bitmap_bit (bm : list Z) (i : Z) : bool :=
  Z.testbit (default 0 (bm !! Z.to_nat (i / 8))) (i mod 8).

Lemma lor_bit_byte b k : is_byte b -> 0 <= k < 8 -> is_byte (Z.lor b (Z.shiftl 1 k)).
Proof.
  unfold is_byte, in_u. intros [Hb Hb'] Hk.
  rewrite Z.shiftl_mul_pow2, Z.mul_1_l by lia. pose proof (Z.pow_nonneg 2 k ltac:(lia)).
  assert (0 <= Z.lor b (2 ^ k)) by (apply Z.lor_nonneg; lia). split; [done|].
  destruct (Z.eq_dec (Z.lor b (2 ^ k)) 0) as [->|]; [lia|].
  apply Z.log2_lt_pow2; [lia|]. rewrite Z.log2_lor, Z.log2_pow2 by lia.
  apply Z.max_lub_lt; [|lia]. destruct (Z.eq_dec b 0) as [->|]; [done|]. apply Z.log2_lt_pow2; lia.
Qed.

Lemma bitmap_set_step_ok s o p bm v :
  seg_values s = o :: p -> o < v -> (v - o - 1) / 8 < zlen bm -> Forall is_byte bm ->
  exists bm', bitmap_set_step s bm v = Ok bm' /\ zlen bm' = zlen bm /\ Forall is_byte bm' /\
    forall i, 0 <= i -> bitmap_bit bm' i = bitmap_bit bm i || (i =? v - o - 1).
Proof.
  intros Hs Hov Hlt Hb. unfold bitmap_set_step. rewrite (seg_offset_ok s o p) by done. uarith.
  set (r := v - o - 1) in *. assert (0 <= r) by lia. assert (0 <= r / 8) by (apply Z.div_pos; lia).
  destruct (lookup_lt_is_Some_2 bm (Z.to_nat (r / 8))) as [b Hbk]; [unfold zlen in Hlt; lia|].
  rewrite (idx_ok bm (r / 8) b) by done. oreduce. unfold idx_set.
  destruct (Z.leb_spec 0 (r / 8)), (Z.ltb_spec (r / 8) (zlen bm)); try lia. simpl.
  pose proof (Z.mod_pos_bound r 8 ltac:(lia)) as Hr. eexists. split_and!; [done|..].
  - unfold zlen. by rewrite length_insert.
  - apply Forall_insert; [done|]. apply lor_bit_byte; [|lia]. by eapply Forall_lookup_1 in Hbk.
  - intros i Hi. unfold bitmap_bit. pose proof (Z.mod_pos_bound i 8 ltac:(lia)).
    pose proof (Z.div_mod i 8 ltac:(lia)). pose proof (Z.div_mod r 8 ltac:(lia)).
    assert (0 <= i / 8) by (apply Z.div_pos; lia).
    destruct (decide (i / 8 = r / 8)) as [Heq|Hne].
    + rewrite Heq, list_lookup_insert_eq, Hbk by (unfold zlen in *; lia). simpl.
      rewrite Z.lor_spec, Z.shiftl_mul_pow2, Z.mul_1_l, Z.pow2_bits_eqb by lia. f_equal.
      apply eq_iff_eq_true. rewrite !Z.eqb_eq. lia.
    + rewrite list_lookup_insert_ne by lia. destruct (Z.eqb_spec i r) as [->|]; [done|].
      by rewrite orb_false_r.
Qed.

Lemma bitmap_bit_zero n i : bitmap_bit (replicate n 0) i = false.
Proof.
  unfold bitmap_bit. destruct (replicate n 0 !! _) eqn:H; simpl.
  - apply lookup_replicate in H as [-> _]. apply Z.bits_0.
  - apply Z.bits_0.
Qed.

Lemma encode_bitmap_ok s o p m : seg_wf s -> seg_values s = o :: p -> last (seg_values s) = Some m ->
  exists bm, encode_bitmap s = Ok bm /\ zlen bm = div_ceil (m - o) 8 /\ Forall is_byte bm /\
    forall i, 0 <= i -> bitmap_bit bm i = true <-> o + i + 1 ∈ p.
Proof.
  intros Hwf Hs Hm. pose proof Hwf as [_ Hsort _]. unfold encode_bitmap.
  rewrite (seg_range_ok s o p m), (seg_payload_ok s o p) by done. oreduce.
  assert (o <= m) as Hom.
  { rewrite Hs in *. eapply ssorted_cons_le; [done|]. by apply last_Some_elem_of. }
  pose proof (div_ceil_spec (m - o) 8 ltac:(lia) ltac:(lia)) as Hdc.
  set (n := div_ceil (m - o) 8) in *. assert (0 <= n) by (apply div_ceil_nonneg; lia).
  destruct (ofold_total (fun dn bm => zlen bm = n /\ Forall is_byte bm /\
      forall i, 0 <= i -> bitmap_bit bm i = true <-> o + i + 1 ∈ dn)
      (bitmap_set_step s) p [] (replicate (Z.to_nat n) 0)) as (bm & -> & Hbm); [..|by exists bm].
  - intros pre v post bm -> (Hl & Hby & Hbit). simpl app in *.
    assert (o < v) by (rewrite Hs, StronglySorted_cons, Forall_forall in Hsort; apply Hsort; set_solver).
    assert (v <= m) by (eapply ssorted_last_le; [exact Hsort|done|rewrite Hs; set_solver]).
    destruct (bitmap_set_step_ok s o (pre ++ v :: post) bm v) as (bm' & -> & Hl' & Hby' & Hbit');
      [done|lia|apply Z.div_lt_upper_bound; lia|done|].
    exists bm'. split_and!; [done|lia|done|]. intros i Hi.
    rewrite Hbit', orb_true_iff, Hbit, Z.eqb_eq, elem_of_app, list_elem_of_singleton by lia. naive_solver lia.
  - split_and!; [unfold zlen; rewrite length_replicate; lia|by apply Forall_replicate|].
    intros i Hi. rewrite bitmap_bit_zero. set_solver.
Qed.

(** ** [decode_bitmap] inserts the set positions in ascending order

    [decoded o bit t vals]: [vals] holds [o] and, above it, the values of the
    set bits below position [t]. *)
Record decoded (o : Z) (bit : Z -> bool) (t : Z) (vals : list Z) : Prop := {
  decoded_head : exists p, vals = o :: p;
  decoded_sorted : ssorted vals;
  decoded_mem : forall x, x ∈ vals <-> x = o \/ exists i, 0 <= i < t /\ bit i = true /\ x = o + i + 1 }.

Lemma decoded_init o bit : decoded o bit 0 [o].
Proof.
  constructor; [by exists []|by repeat constructor|].
  intros x. rewrite list_elem_of_singleton. split; [by left|]. intros [->|(i & ? & _)]; [done|lia].
Qed.

Lemma decoded_skip o bit t vals : decoded o bit t vals -> bit t = false -> decoded o bit (t + 1) vals.
Proof.
  intros [Hh Hs Hm] Hb. constructor; [done|done|]. intros x. rewrite Hm. split.
  - intros [->|(i & ? & ? & ->)]; [by left|right; exists i; split_and!; [lia..|done|done]].
  - intros [->|(i & ? & Hi & ->)]; [by left|right]. exists i.
    split_and!; [lia| |done|done]. destruct (decide (i = t)) as [->|]; [congruence|lia].
Qed.

Lemma decoded_push o bit t vals : 0 <= t -> decoded o bit t vals -> bit t = true ->
  decoded o bit (t + 1) (vals ++ [o + t + 1]) /\ exists m, last vals = Some m /\ m < o + t + 1.
Proof.
  intros Ht [[p ->] Hs Hm] Hb. destruct (last_is_Some_ne (o :: p)) as [m Hl]; [done|].
  assert (m < o + t + 1).
  { apply last_Some_elem_of, Hm in Hl as [->|(i & ? & _ & ->)]; lia. }
  split; [|by exists m]. constructor; [by exists (p ++ [o + t + 1])|by eapply ssorted_snoc|].
  intros x. rewrite elem_of_app, Hm, list_elem_of_singleton. split.
  - intros [[->|(i & ? & ? & ->)]| ->]; [by left|right; exists i; split_and!; [lia..|done|done]|].
    right. exists t. split_and!; [lia..|done|done].
  - intros [->|(i & ? & Hi & ->)]; [by left; left|].
    destruct (decide (i = t)) as [->|]; [by right|left; right]. exists i. split_and!; [lia..|done|done].
Qed.

Lemma land_bit byte k : 0 <= k -> negb (Z.land byte (Z.shiftl 1 k) =? 0) = Z.testbit byte k.
Proof.
  intros Hk. rewrite Z.shiftl_mul_pow2, Z.mul_1_l by done.
  destruct (Z.eqb_spec (Z.land byte (2 ^ k)) 0) as [H|H]; simpl; symmetry.
  - apply (f_equal (fun z => Z.testbit z k)) in H.
    by rewrite Z.land_spec, Z.pow2_bits_true, andb_true_r, Z.bits_0 in H by done.
  - destruct (Z.testbit byte k) eqn:Hb; [done|]. destruct H. apply Z.bits_inj'. intros i Hi.
    rewrite Z.land_spec, Z.bits_0, Z.pow2_bits_eqb by done.
    destruct (Z.eqb_spec k i) as [<-|]; [by rewrite Hb|by rewrite andb_false_r].
Qed.

Lemma decode_bit_step_ok o bit byte_idx byte bit_idx vals :
  0 <= o -> 0 <= byte_idx < 2 ^ 32 -> 0 <= bit_idx < 8 ->
  Z.testbit byte bit_idx = bit (byte_idx * 8 + bit_idx) ->
  (bit (byte_idx * 8 + bit_idx) = true -> o + (byte_idx * 8 + bit_idx) + 1 < 2 ^ 64) ->
  decoded o bit (byte_idx * 8 + bit_idx) vals ->
  exists vals', decode_bit_step o byte_idx byte (mkSegment vals) bit_idx = Ok (mkSegment vals')
    /\ decoded o bit (byte_idx * 8 + bit_idx + 1) vals'.
Proof.
  intros Ho Hby Hbi Hbit Hov Hd. unfold decode_bit_step. rewrite land_bit, Hbit by lia.
  destruct (bit (byte_idx * 8 + bit_idx)) eqn:Hb.
  - specialize (Hov eq_refl). rewrite mul_u_ok by lia. uarith.
    destruct (decoded_push o bit (byte_idx * 8 + bit_idx) vals) as (Hd' & m & Hm & Hlt); [lia|done..|].
    rewrite (seg_try_insert_ok _ m) by done. oreduce. eauto.
  - exists vals. split; [done|]. by apply decoded_skip.
Qed.

Lemma decode_bitmap_ok o bm :
  0 <= o -> zlen bm < 2 ^ 32 ->
  (forall i, 0 <= i < zlen bm * 8 -> bitmap_bit bm i = true -> o + i + 1 < 2 ^ 64) ->
  exists vals, decode_bitmap o bm (seg_new_with_offset o) = Ok (mkSegment vals)
    /\ decoded o (bitmap_bit bm) (zlen bm * 8) vals.
Proof.
  intros Ho Hl Hov. unfold decode_bitmap.
  match goal with |- context [ofold ?f ?s0 ?l] => set (f' := f);
    destruct (ofold_total (fun dn s => decoded o (bitmap_bit bm) (zlen dn * 8) (seg_values s))
      f' l [] s0) as ([vals] & -> & Hd) end.
  2: { apply decoded_init. }
  2: { exists vals. split; [done|]. simpl in Hd. unfold zlen in *. by rewrite length_enumerate in Hd. }
  intros pre [byte_idx byte] post [vs] (l1 & l2 & Hbm & -> & Hpre)%enumerate_split Hd. simpl app in *.
  rewrite Hpre in Hd. unfold f'.
  assert (zlen l1 < zlen bm) as Hlt.
  { rewrite Hbm. zlia. }
  pose proof (zlen_nonneg l1).
  destruct (ofold_total (fun dn s => decoded o (bitmap_bit bm) (zlen l1 * 8 + zlen dn) (seg_values s))
    (decode_bit_step o (zlen l1) byte) (seqZ 0 8) [] (mkSegment vs)) as (s' & -> & Hd').
  - intros pre' k post' [vs'] [-> Hk]%seqZ_split Hd'. simpl app in *. pose proof (zlen_nonneg pre').
    rewrite Z.add_0_l in *.
    destruct (decode_bit_step_ok o (bitmap_bit bm) (zlen l1) byte (zlen pre') vs') as (vs'' & -> & Hd''); try lia; try done.
    + unfold bitmap_bit. rewrite Z.div_add_l, (Z.div_small (zlen pre') 8), Z.add_0_r, zlen_to_nat by lia.
      rewrite Hbm, list_lookup_middle by done. simpl.
      by rewrite Z.add_comm, Z.mod_add, Z.mod_small by lia.
    + intros Hb. apply Hov; [lia|done].
    + exists (mkSegment vs''). split; [done|]. simpl. rewrite zlen_app. by rewrite Z.add_assoc.
  - by rewrite zlen_nil, Z.add_0_r.
  - exists s'. split; [done|]. simpl in Hd'. rewrite zlen_app, Hpre.
    replace ((zlen l1 + zlen [(zlen l1, byte)]) * 8) with (zlen l1 * 8 + 8)
      by (rewrite zlen_cons, zlen_nil; lia). done.
Qed.

(** Decoding the bitmap of a segment restores the segment. *)
Lemma decode_encode_bitmap s o p m bm : seg_wf s -> seg_values s = o :: p -> last (seg_values s) = Some m ->
  zlen bm = div_ceil (m - o) 8 -> zlen bm < 2 ^ 32 ->
  (forall i, 0 <= i -> bitmap_bit bm i = true <-> o + i + 1 ∈ p) ->
  decode_bitmap o bm (seg_new_with_offset o) = Ok s.
Proof.
  intros Hwf Hs Hm Hl Hlt Hbit. pose proof Hwf as [_ Hsort Hu]. rewrite Forall_forall in Hu.
  assert (forall x, x ∈ p -> o < x <= m) as Hp.
  { intros x Hx. split.
    - rewrite Hs, StronglySorted_cons, Forall_forall in Hsort. by apply Hsort.
    - eapply ssorted_last_le; [done..|]. rewrite Hs. set_solver. }
  assert (o <= m) as Hom by (rewrite Hs in *; eapply ssorted_cons_le; [done|by apply last_Some_elem_of]).
  destruct (Hu o) as [Ho _]; [rewrite Hs; set_solver|].
  destruct (decode_bitmap_ok o bm) as (vals & -> & [Hh Hsv Hmem]); [done|done| |].
  - intros i Hi Hb. apply Hbit in Hb; [|lia]. destruct (Hu (o + i + 1)); [rewrite Hs; set_solver|done].
  - destruct s as [vs]. simpl in *. do 2 f_equal. apply ssorted_ext; [done|done|].
    intros x. rewrite Hmem, Hs, elem_of_cons. split.
    + intros [->|(i & ? & Hb & ->)]; [by left|right]. by apply Hbit; [lia|].
    + intros [->|Hx]; [by left|right]. exists (x - o - 1). pose proof (Hp x Hx).
      pose proof (div_ceil_spec (m - o) 8 ltac:(lia) ltac:(lia)). split_and!; [lia|lia| |lia].
      apply Hbit; [lia|]. by replace (o + (x - o - 1) + 1) with x by lia.
Qed.

(** The bytes of one segment, as [encode_step] appends them. *)
Definition segment_bytes (prev : Z) (s : Segment) (bs : list Z) : Prop :=
  exists o p m bm, seg_values s = o :: p /\ last (seg_values s) = Some m /\
    encode_bitmap s = Ok bm /\
    zlen bm = div_ceil (m - o) 8 /\ Forall is_byte bm /\
    (forall i, 0 <= i -> bitmap_bit bm i = true <-> o + i + 1 ∈ p) /\
    bs = encode_into (saturating_sub o prev) [] ++ encode_into (zlen bm) [] ++ bm.

Lemma segment_bytes_exists prev s : seg_wf s -> exists bs, segment_bytes prev s bs.
Proof.
  intros Hwf. pose proof Hwf as [Hne _ _]. destruct (seg_values s) as [|o p] eqn:Hs; [done|].
  destruct (last_is_Some_ne (seg_values s)) as [m Hm]; [by rewrite Hs|].
  destruct (encode_bitmap_ok s o p m Hwf Hs Hm) as (bm & Hbm & Hl & Hby & Hbit).
  eexists. exists o, p, m, bm. by split_and!.
Qed.

Lemma encode_step_ok prev s bs res : segment_bytes prev s bs -> 0 <= prev ->
  exists m, encode_step (prev, res) s = Ok (m, res ++ bs) /\ last (seg_values s) = Some m.
Proof.
  intros (o & p & m & bm & Hs & Hm & Hbm & _ & _ & _ & ->) Hprev.
  exists m. split; [|done]. unfold encode_step. rewrite (seg_offset_ok s o p), Hbm by done. oreduce.
  rewrite (seg_max_ok s m) by done. oreduce.
  rewrite (encode_into_app (zlen bm)), (encode_into_app (saturating_sub o prev) ltac:(unfold saturating_sub; lia) res)
    by apply zlen_nonneg. by rewrite <- !app_assoc.
Qed.

(** Reading back one segment from any position of a buffer. *)
Lemma read_segment_ok prev s bs pre rest : seg_wf s -> segment_bytes prev s bs ->
  0 <= prev -> (forall x, x ∈ seg_values s -> prev <= x) ->
  (forall o m, head (seg_values s) = Some o -> last (seg_values s) = Some m ->
     div_ceil (m - o) 8 <= ALLOC_BYTES_LIMIT) ->
  read_segment_into (mkCursor (pre ++ bs ++ rest) (zlen pre)) prev
  = Ok (s, mkCursor (pre ++ bs ++ rest) (zlen (pre ++ bs))).
Proof.
  intros Hwf (o & p & m & bm & Hs & Hm & _ & Hl & _ & Hbit & ->) Hprev Hle Halloc.
  assert (prev <= o) by (apply Hle; rewrite Hs; set_solver).
  assert (in_u 64 o) as [Ho Ho'] by (pose proof Hwf as [_ _ Hu]; rewrite Hs in Hu; by apply Forall_inv in Hu).
  specialize (Halloc o m ltac:(by rewrite Hs) Hm). change ALLOC_BYTES_LIMIT with (2 ^ 20) in *.
  set (d := encode_into (saturating_sub o prev) []). set (n := encode_into (zlen bm) []).
  pose proof (zlen_nonneg bm) as Hbm0. unfold read_segment_into. rewrite <- !app_assoc.
  unfold d at 1. rewrite read_leb128_encode by (unfold in_u, saturating_sub; lia). fold d. oreduce.
  unfold checked_add. destruct (Z.ltb_spec (saturating_sub o prev + prev) (2 ^ 64));
    [|unfold saturating_sub in *; lia]. oreduce.
  replace (saturating_sub o prev + prev) with o by (unfold saturating_sub; lia).
  rewrite (app_assoc pre d). unfold n at 1. rewrite read_leb128_encode by (unfold in_u; lia). fold n. oreduce.
  change ALLOC_BYTES_LIMIT with (2 ^ 20). destruct (Z.ltb_spec (2 ^ 20) (zlen bm)); [lia|].
  unfold read_exact. simpl get_ref. simpl position.
  rewrite (app_assoc (pre ++ d) n). destruct (Z.ltb_spec
    (zlen (((pre ++ d) ++ n) ++ bm ++ rest) - zlen ((pre ++ d) ++ n)) (zlen bm)) as [Hc|_].
  { rewrite (zlen_app ((pre ++ d) ++ n)), (zlen_app bm) in Hc. pose proof (zlen_nonneg rest). lia. }
  oreduce. rewrite (zlen_to_nat ((pre ++ d) ++ n)), drop_app_length, zlen_to_nat, take_app_length.
  rewrite (decode_encode_bitmap s o p m bm) by (done || lia). oreduce.
  rewrite <- zlen_app, <- !app_assoc. done.
Qed.

(** ** The whole format *)
Definition bitmap_fits (s : Segment) : Prop :=
  forall o m, head (seg_values s) = Some o -> last (seg_values s) = Some m ->
    div_ceil (m - o) 8 <= ALLOC_BYTES_LIMIT.

(** [tail_bytes prev segs tail]: the concatenated bytes of [segs], the first
    offset being relative to [prev]. *)
Inductive tail_bytes : Z -> list Segment -> list Z -> Prop :=
| tail_nil prev : tail_bytes prev [] []
| tail_cons prev s segs m bs tail :
    segment_bytes prev s bs -> last (seg_values s) = Some m -> tail_bytes m segs tail ->
    tail_bytes prev (s :: segs) (bs ++ tail).

Lemma seg_wf_last_u64 s m : seg_wf s -> last (seg_values s) = Some m -> 0 <= m < 2 ^ 64.
Proof. intros [_ _ Hu] Hm. rewrite Forall_forall in Hu. by apply Hu, last_Some_elem_of. Qed.

Lemma encode_tail segs : forall prev, segs_wf segs -> 0 <= prev ->
  exists tail, tail_bytes prev segs tail /\
    forall res, exists last, ofold encode_step (prev, res) segs = Ok (last, res ++ tail).
Proof.
  induction segs as [|s segs IH]; intros prev Hwf Hprev.
  { exists []. split; [constructor|]. intros res. exists prev. simpl. by rewrite app_nil_r. }
  apply segs_wf_cons in Hwf as [Hs Hwf]. destruct (segment_bytes_exists prev s Hs) as [bs Hbs].
  destruct (encode_step_ok prev s bs [] Hbs Hprev) as (m & _ & Hm).
  destruct (IH m Hwf) as (tail & Ht & Hres); [by eapply seg_wf_last_u64|].
  exists (bs ++ tail). split; [by econstructor|]. intros res.
  destruct (encode_step_ok prev s bs res Hbs Hprev) as (m' & Hstep & Hm').
  assert (m' = m) as -> by congruence. cbn [ofold]. rewrite Hstep. oreduce.
  destruct (Hres (res ++ bs)) as [l ->]. exists l. by rewrite app_assoc.
Qed.

Lemma decode_tail segs : forall prev tail pre fuel segs0,
  tail_bytes prev segs tail -> segs_wf (segs0 ++ segs) -> Forall bitmap_fits segs ->
  0 <= prev -> (forall x, x ∈ segs_values segs -> prev <= x) ->
  (length segs < fuel)%nat ->
  decode_loop fuel (mkCursor (pre ++ tail) (zlen pre)) prev segs0
  = Ok (mkCursor (pre ++ tail) (zlen (pre ++ tail)), segs0 ++ segs).
Proof.
  induction segs as [|s segs IH]; intros prev tail pre fuel segs0 Ht Hwf Hfit Hprev Hle Hfuel;
    (destruct fuel as [|fuel]; [simpl in Hfuel; lia|]); inversion Ht as [|????? tail' Hbs Hm Htail]; subst;
    cbn [decode_loop]; simpl position; simpl get_ref.
  - rewrite !app_nil_r. by rewrite Z.ltb_irrefl.
  - apply Forall_cons in Hfit as [Hfs Hfit].
    assert (segs_wf (s :: segs)) as Hwf1.
    { destruct Hwf as [H1 H2 H3]. rewrite segs_values_app in *. apply Forall_app in H1, H3.
      apply ssorted_app in H2. constructor; tauto. }
    apply segs_wf_cons in Hwf1 as [Hs _] .
    assert (forall x y, x ∈ seg_values s -> y ∈ segs_values segs -> x < y) as Hord.
    { destruct Hwf as [_ H2 _]. rewrite segs_values_app in H2. apply ssorted_app in H2 as (_ & _ & H2).
      apply ssorted_app in H2 as [H2 _]. done. }
    assert (0 < zlen bs).
    { destruct Hbs as (o & ? & ? & ? & _ & _ & _ & _ & _ & _ & ->). rewrite zlen_app.
      destruct (encode_nonempty (saturating_sub o prev)) as (b & bs' & ->); [unfold saturating_sub; lia|].
      rewrite zlen_cons. pose proof (zlen_nonneg bs'). pose proof (zlen_nonneg (encode_into (zlen x1) [] ++ x1)). lia. }
    destruct (Z.ltb_spec (zlen pre) (zlen (pre ++ bs ++ tail'))) as [_|Hc].
    2: { zlia. }
    rewrite (read_segment_ok prev s bs pre tail' Hs Hbs Hprev); [|set_solver|done]. oreduce.
    rewrite (seg_max_ok s m) by done. oreduce. rewrite segs_try_push_ok; cycle 1.
    { by destruct Hs. }
    { destruct Hwf as [H1 _ _]. by apply Forall_app in H1 as [? _]. }
    { destruct Hwf as [_ H2 _]. rewrite segs_values_app in H2.
      change (segs_values (s :: segs)) with (seg_values s ++ segs_values segs) in H2.
      rewrite app_assoc in H2. by apply ssorted_app in H2 as (_ & ? & _). }
    oreduce. rewrite (app_assoc pre bs).
    assert (segs0 ++ s :: segs = (segs0 ++ [s]) ++ segs) as Heq by (by rewrite <- app_assoc).
    rewrite (IH m tail'); [by rewrite Heq|done|by rewrite <- Heq|done| | |simpl in Hfuel; lia].
    + by eapply seg_wf_last_u64.
    + intros x Hx. apply last_Some_elem_of in Hm. specialize (Hord m x Hm Hx). lia.
Qed.

Lemma tail_bytes_length prev segs tail : tail_bytes prev segs tail -> 0 <= prev -> segs_wf segs ->
  (length segs <= length tail)%nat /\
  Forall (fun s => forall o m, head (seg_values s) = Some o -> last (seg_values s) = Some m ->
            div_ceil (m - o) 8 <= zlen tail) segs.
Proof.
  induction 1 as [|prev s segs m bs tail Hbs Hm Ht IH]; intros Hprev Hwf; [by repeat constructor|].
  apply segs_wf_cons in Hwf as [Hs Hwf].
  destruct IH as [IHl IHf]; [by eapply seg_wf_last_u64|done|].
  destruct Hbs as (o & p & m' & bm & Hv & Hm' & _ & Hl & _ & _ & ->).
  destruct (encode_nonempty (saturating_sub o prev)) as (b & bs' & ->); [unfold saturating_sub; lia|].
  pose proof (zlen_nonneg tail). pose proof (zlen_nonneg bs'). pose proof (zlen_nonneg bm).
  pose proof (zlen_nonneg (encode_into (zlen bm) [])). split.
  - rewrite length_app. simpl. lia.
  - rewrite !zlen_app, zlen_cons. constructor.
    + intros o0 m0 Ho0 Hm0. rewrite Hv in Ho0. simpl in Ho0. simplify_eq. lia.
    + eapply Forall_impl; [done|]. simpl. intros s' Hs' o0 m0 Ho0 Hm0. specialize (Hs' o0 m0 Ho0 Hm0). lia.
Qed.

Lemma encode_decode segs : segs_wf segs ->
  exists bytes, encode segs = Ok bytes /\ (Forall bitmap_fits segs -> decode bytes = Ok segs) /\
    (zlen bytes <= ALLOC_BYTES_LIMIT -> Forall bitmap_fits segs).
Proof.
  intros Hwf. destruct segs as [|s segs']; [by exists []|]. set (segs := s :: segs') in *.
  destruct (encode_tail segs 0 Hwf ltac:(lia)) as (tail & Ht & Hres).
  destruct (Hres []) as [l Hl]. exists tail. unfold encode, segs at 1. fold segs. rewrite Hl. oreduce.
  destruct (tail_bytes_length 0 segs tail Ht ltac:(lia) Hwf) as [Hlen Hf]. split_and!; [done| |].
  - intros Hfit. assert (tail <> []) as Hne by (intros ->; simpl in Hlen; lia).
    pose proof (decode_tail segs 0 tail [] (S (length tail)) [] Ht Hwf Hfit) as Hd.
    unfold decode. destruct tail as [|b tail']; [done|]. simpl app in Hd.
    change (zlen (@nil Z)) with 0 in Hd. rewrite Hd; [|lia| |lia].
    + oreduce. simpl position. by rewrite Z.eqb_refl.
    + destruct Hwf as [_ _ Hu]. rewrite Forall_forall in Hu. intros x Hx. by apply Hu.
  - intros Hle. eapply Forall_impl; [done|]. simpl. intros s0 Hs0 o m Ho Hm. specialize (Hs0 o m Ho Hm). lia.
Qed.

(** ** The size estimate is exact *)
Lemma estimate_step_ok prev total s bs : seg_wf s -> segment_bytes prev s bs -> 0 <= prev ->
  0 <= total -> total + zlen bs < 2 ^ 64 ->
  exists m, estimate_step (E:=SegmenterError) (prev, total) s = Ok (m, total + zlen bs)
    /\ last (seg_values s) = Some m.
Proof.
  intros Hwf (o & p & m & bm & Hs & Hm & _ & Hl & _ & _ & ->) Hprev Ht.
  rewrite !zlen_app, !calculate_size_encode by first [by auto with rust|unfold saturating_sub; lia].
  rewrite Hl. intros Hlt. exists m. split; [|done]. unfold estimate_step.
  pose proof (zlen_nonneg bm). pose proof Hwf as [_ _ Hu]. rewrite Hs in Hu. apply Forall_inv in Hu as [? ?].
  assert (1 <= calculate_size (saturating_sub o prev) <= 10)
    by (apply calculate_size_u64; unfold in_u, saturating_sub; lia).
  rewrite (seg_offset_ok s o p), (seg_range_ok s o p m), (seg_max_ok s m) by done. oreduce.
  uarith. do 2 f_equal. lia.
Qed.

(** A segment costs at most 21 bytes plus an eighth of the values it spans. *)
Lemma segment_bytes_bound prev s bs m : seg_wf s -> segment_bytes prev s bs -> 0 <= prev ->
  last (seg_values s) = Some m -> (forall x, x ∈ seg_values s -> prev <= x) ->
  8 * zlen bs <= 168 + (m - prev).
Proof.
  intros Hwf (o & p & m' & bm & Hs & Hm' & _ & Hl & _ & _ & ->) Hprev Hm Hle.
  assert (m' = m) as -> by congruence.
  assert (prev <= o) by (apply Hle; rewrite Hs; set_solver).
  pose proof Hwf as [_ Hsort Hu]. rewrite Forall_forall in Hu.
  destruct (Hu o) as [? ?]; [rewrite Hs; set_solver|].
  destruct (seg_wf_last_u64 s m Hwf Hm).
  assert (o <= m) by (rewrite Hs in *; eapply ssorted_cons_le; [done|by apply last_Some_elem_of]).
  rewrite !zlen_app, !calculate_size_encode by first [by auto with rust|unfold saturating_sub; lia].
  pose proof (calculate_size_u64 (saturating_sub o prev) ltac:(unfold in_u, saturating_sub; lia)).
  destruct (payload_bounds (m - o)) as [_ ?]; [unfold in_u; lia|].
  rewrite Hl. pose proof (div_ceil_spec (m - o) 8 ltac:(lia) ltac:(lia)). lia.
Qed.

Lemma estimate_tail segs : forall prev total tail, tail_bytes prev segs tail -> segs_wf segs ->
  0 <= prev -> (forall x, x ∈ segs_values segs -> prev <= x) -> 0 <= total ->
  8 * total + 168 * zlen segs + (2 ^ 64 - prev) < 8 * 2 ^ 64 ->
  exists l, ofold (estimate_step (E:=SegmenterError)) (prev, total) segs = Ok (l, total + zlen tail).
Proof.
  induction segs as [|s segs IH]; intros prev total tail Ht Hwf Hprev Hle H0 Hb;
    inversion Ht as [|??? m bs tail' Hbs Hm Htail]; subst.
  { exists prev. simpl. by rewrite zlen_nil, Z.add_0_r. }
  apply segs_wf_cons in Hwf as Hwf'. destruct Hwf' as [Hs Hwf'].
  assert (forall x, x ∈ seg_values s -> prev <= x) as Hle1 by (intros; apply Hle; set_solver).
  destruct (seg_wf_last_u64 s m Hs Hm).
  pose proof (segment_bytes_bound prev s bs m Hs Hbs Hprev Hm Hle1).
  pose proof (zlen_nonneg bs). pose proof (zlen_nonneg segs). rewrite zlen_cons in Hb.
  assert (prev <= m) by (apply Hle1; by apply last_Some_elem_of).
  destruct (estimate_step_ok prev total s bs) as (m' & Hstep & Hm'); [done|done|done|done|lia|].
  assert (m' = m) as -> by congruence. cbn [ofold]. rewrite Hstep. oreduce.
  destruct (IH m (total + zlen bs) tail') as [l ->]; [done|done|lia| |lia|lia|].
  - intros x Hx. destruct Hwf as [_ Hsort _].
    change (segs_values (s :: segs)) with (seg_values s ++ segs_values segs) in Hsort.
    apply ssorted_app in Hsort as [Hlt _]. apply last_Some_elem_of in Hm. specialize (Hlt m x Hm Hx). lia.
  - exists l. rewrite zlen_app. do 2 f_equal. lia.
Qed.

Lemma segs_wf_length segs : segs_wf segs -> zlen segs <= zlen (segs_values segs).
Proof.
  intros [Hne _ _]. induction Hne as [|s segs Hs _ IH]; [done|].
  change (segs_values (s :: segs)) with (seg_values s ++ segs_values segs).
  rewrite zlen_cons, zlen_app. destruct (seg_values s); [done|]. rewrite zlen_cons.
  pose proof (zlen_nonneg l). lia.
Qed.

Lemma tail_bytes_is_byte prev segs tail : tail_bytes prev segs tail -> Forall is_byte tail.
Proof.
  induction 1 as [|prev s segs m bs tail (o & p & m' & bm & _ & _ & _ & _ & Hb & _ & ->) _ _ IH]; [constructor|].
  repeat (apply Forall_app; split); try done.
  - apply encode_bytes. unfold saturating_sub. lia.
  - apply encode_bytes, zlen_nonneg.
Qed.

Lemma estimate_size_encode values : ssorted values -> Forall (in_u 64) values -> zlen values < 2 ^ 59 ->
  exists segs bytes, package values = Ok segs /\ encode segs = Ok bytes /\ estimate_size values = Ok (zlen bytes).
Proof.
  intros Hs Hu Hl. destruct (package_ok values Hs Hu) as (segs & Hp & Hv & Hwf).
  destruct values as [|x l]; [by exists [], []; simpl in Hp; simplify_eq|].
  pose proof (segs_wf_length segs Hwf) as Hlen. rewrite Hv in Hlen.
  destruct segs as [|s segs']; [by simpl in Hv|]. set (segs := s :: segs') in *.
  destruct (encode_tail segs 0 Hwf ltac:(lia)) as (tail & Ht & Hres). destruct (Hres []) as [lm Hlm].
  exists segs, tail. split; [done|]. unfold encode, segs at 1. fold segs. rewrite Hlm. oreduce. split; [done|].
  unfold estimate_size. rewrite Hp. oreduce.
  destruct (estimate_tail segs 0 0 tail Ht Hwf ltac:(lia)) as [le ->]; [|lia|lia|oreduce; done].
  destruct Hwf as [_ _ Hu']. rewrite Forall_forall in Hu'. intros y Hy. by apply Hu'.
Qed.

(** The bytes [package] and [encode] make for a list of ids: what a client
    of the format needs. *)
Lemma encode_ids values : ssorted values -> Forall (in_u 64) values -> zlen values < 2 ^ 59 ->
  exists segs bytes, package values = Ok segs /\ encode segs = Ok bytes /\ estimate_size values = Ok (zlen bytes) /\
    Forall is_byte bytes /\ (zlen bytes <= ALLOC_BYTES_LIMIT -> map_ok segs_values (decode bytes) = Ok values).
Proof.
  intros Hs Hu Hl. destruct (estimate_size_encode values Hs Hu Hl) as (segs & bytes & Hp & He & Hest).
  destruct (package_ok values Hs Hu) as (segs' & Hp' & Hv & Hwf). rewrite Hp in Hp'. simplify_eq.
  destruct (encode_decode segs' Hwf) as (bytes' & He' & Hd & Hfit). rewrite He in He'. simplify_eq.
  exists segs', bytes'. split_and!; [done..| |].
  - destruct segs' as [|s segs']; [injection He as <-; constructor|].
    destruct (encode_tail (s :: segs') 0 Hwf ltac:(lia)) as (tail & Ht & Hres). destruct (Hres []) as [l Hl'].
    unfold encode in He. rewrite Hl' in He. injection He as <-. by eapply tail_bytes_is_byte.
  - intros Hle. by rewrite Hd by auto.
Qed.

(** ** The decoder on arbitrary bytes *)
Lemma decode_bit_step_wf o k b s i s' : 0 <= o -> 0 <= k -> 0 <= i ->
  seg_wf s -> decode_bit_step o k b s i = Ok s' -> seg_wf s'.
Proof.
  intros Ho Hk Hi [Hne Hs Hu] H. unfold decode_bit_step in H. destruct (negb _); [|by outcome_inv].
  unfold mul_u, add_u in H. outcome_inv.
  repeat match goal with Hv : (if ?c then _ else _) = Ok _ |- _ => destruct c eqn:?; outcome_inv end; zbool.
  apply seg_try_insert_inv in H as (m & Hm & Hlt & ->). constructor; simpl.
  - by destruct (seg_values s).
  - by eapply ssorted_snoc.
  - apply Forall_app. split; [done|]. constructor; [|done]. unfold in_u. lia.
Qed.

Lemma decode_byte_wf o k b s s' : 0 <= o -> 0 <= k -> seg_wf s ->
  ofold (decode_bit_step o k b) s (seqZ 0 8) = Ok s' -> seg_wf s'.
Proof.
  intros Ho Hk Hs H. cut ((forall i, i ∈ seqZ 0 8 -> 0 <= i) -> seg_wf s').
  { intros Hc. apply Hc. intros i Hi. apply elem_of_seqZ in Hi. lia. }
  refine (ofold_ind (fun dn st => (forall i, i ∈ dn -> 0 <= i) -> seg_wf st) _ _ _ [] s s' _ H).
  - intros dn st i st' IHd Hstep Hpos. eapply (decode_bit_step_wf o k b st i); [done|done| | |done].
    + apply Hpos. set_solver.
    + apply IHd. intros j Hj. apply Hpos. set_solver.
  - done.
Qed.

Lemma decode_bitmap_wf o bm s s' : 0 <= o -> seg_wf s -> decode_bitmap o bm s = Ok s' -> seg_wf s'.
Proof.
  intros Ho Hs H. cut ((forall i b, (i, b) ∈ enumerate bm -> 0 <= i) -> seg_wf s').
  { intros Hc. apply Hc. intros i b (pre & post & Heq)%list_elem_of_split.
    apply enumerate_split in Heq as (l1 & _ & _ & -> & _). apply zlen_nonneg. }
  refine (ofold_ind (fun dn st => (forall i b, (i, b) ∈ dn -> 0 <= i) -> seg_wf st) _ _ _ [] s s' _ H).
  - intros dn st [i b] st' IHd Hstep Hpos. eapply (decode_byte_wf o i b st); [done| | |done].
    + apply (Hpos i b). set_solver.
    + apply IHd. intros j c Hj. apply (Hpos j c). set_solver.
  - done.
Qed.

Lemma read_segment_into_inv c prev s c' : Forall is_byte (get_ref c) -> 0 <= position c -> 0 <= prev ->
  read_segment_into c prev = Ok (s, c') ->
  seg_wf s /\ get_ref c' = get_ref c /\ position c < position c' <= zlen (get_ref c).
Proof.
  intros Hb Hp Hprev H. unfold read_segment_into in H. outcome_inv. destruct v as [delta c1].
  apply read_leb128_bounds in Hv as ([? ?] & Hr1 & Hp1); [|done|done].
  outcome_inv. unfold checked_add in Hv. destruct (Z.ltb_spec (delta + prev) (2 ^ 64)); [|done].
  simpl in Hv. outcome_inv. destruct v0 as [n c2].
  apply read_leb128_bounds in Hv0 as ([? ?] & Hr2 & Hp2); [|by rewrite Hr1|lia].
  zcase_in H; [done|]. outcome_inv. destruct v as [pl c3]. unfold read_exact in Hv. zcase_in Hv; [done|].
  outcome_inv. simpl. rewrite Hr2, Hr1 in *. split_and!; [|done|lia|lia].
  eapply decode_bitmap_wf; [|..|done]; [lia|]. unfold seg_new_with_offset.
  constructor; [done|by repeat constructor|]. constructor; [|done]. unfold in_u. lia.
Qed.

Lemma decode_loop_inv fuel : forall c prev segs c' segs', Forall is_byte (get_ref c) ->
  0 <= position c -> 0 <= prev -> segs_wf segs ->
  decode_loop fuel c prev segs = Ok (c', segs') -> segs_wf segs'.
Proof.
  induction fuel as [|fuel IH]; intros c prev segs c' segs' Hb Hp Hprev Hwf H; [done|].
  cbn [decode_loop] in H. destruct (position c <? _); outcome_inv; [|done]. destruct v as [s c1].
  apply read_segment_into_inv in Hv as (Hs & Hr & ?); [|done..]. outcome_inv.
  apply segs_try_push_wf in Hv0 as [-> Hwf']; [|done..]. apply seg_max_inv in Hv.
  apply IH in H; [done|by rewrite Hr|lia| |done]. by destruct (seg_wf_last_u64 s v Hs Hv).
Qed.

Lemma decode_inv bytes segs : Forall is_byte bytes -> decode bytes = Ok segs -> segs_wf segs.
Proof.
  intros Hb H. destruct bytes as [|b bs]; unfold decode in H; outcome_inv.
  { by repeat constructor. } destruct v as [c s]. destruct (negb _) in H; [done|]. outcome_inv.
  eapply decode_loop_inv; [| | | |done]; [done|done|done|by repeat constructor].
Qed.

(** None of the pieces runs out of fuel, and each iteration consumes bytes. *)
Lemma ofold_no_diverge {E A S} (f : S -> A -> outcome E S) l : (forall s a, f s a <> Diverge) ->
  forall s, ofold f s l <> Diverge.
Proof.
  intros Hf. induction l as [|a l IH]; intros s; simpl; [done|].
  destruct (f s a) eqn:Ha; simpl; [done..|]. by destruct (Hf s a).
Qed.

Lemma bind_no_diverge {E A B} (m : outcome E A) (f : A -> outcome E B) :
  m <> Diverge -> (forall a, m = Ok a -> f a <> Diverge) -> m ≫= f <> Diverge.
Proof. destruct m; naive_solver. Qed.

Lemma seg_max_no_diverge {E} s : seg_max (E:=E) s <> Diverge.
Proof.
  unfold seg_max, sub_u, idx. destruct (_ <=? _); simpl; [|done]. destruct (_ <? 0); [done|].
  by destruct (_ !! _).
Qed.

Lemma seg_try_insert_no_diverge s v : seg_try_insert s v <> Diverge.
Proof.
  unfold seg_try_insert. apply bind_no_diverge; [apply seg_max_no_diverge|]. intros m _.
  by repeat destruct (_ : bool).
Qed.

Lemma decode_bitmap_no_diverge o bm s : decode_bitmap o bm s <> Diverge.
Proof.
  apply ofold_no_diverge. clear s. intros s [k b]. apply ofold_no_diverge. clear s. intros s i.
  unfold decode_bit_step, mul_u, add_u. destruct (negb _); [|done].
  repeat (apply bind_no_diverge; [by destruct (_ <? _)|intros ? _]).
  pose proof (seg_try_insert_no_diverge s a2). by destruct (seg_try_insert s a2).
Qed.

Lemma read_segment_no_diverge c prev : Forall is_byte (get_ref c) -> 0 <= position c ->
  read_segment_into c prev <> Diverge.
Proof.
  intros Hb Hp. unfold read_segment_into. apply bind_no_diverge.
  { destruct (read_leb128_no_panic c Hb Hp). by destruct (read_leb128 c). }
  intros [d c1] H1. apply map_err_ok_inv in H1. apply read_leb128_bounds in H1 as (_ & Hr & ?); [|done..].
  apply bind_no_diverge; [by destruct (checked_add _ _ _)|]. intros o _. apply bind_no_diverge.
  { destruct (read_leb128_no_panic c1); [by rewrite Hr|lia|]. by destruct (read_leb128 c1). }
  intros [n c2] _. destruct (_ <? n); [done|]. apply bind_no_diverge.
  { unfold read_exact. by destruct (_ <? _). }
  intros [pl c3] _. apply bind_no_diverge; [apply decode_bitmap_no_diverge|done].
Qed.

Lemma decode_loop_no_diverge fuel : forall c prev segs, Forall is_byte (get_ref c) ->
  0 <= position c <= zlen (get_ref c) -> 0 <= prev ->
  zlen (get_ref c) - position c < Z.of_nat fuel -> decode_loop fuel c prev segs <> Diverge.
Proof.
  induction fuel as [|fuel IH]; intros c prev segs Hb [Hp Hp'] Hprev Hf; [lia|]. cbn [decode_loop].
  destruct (Z.ltb_spec (position c) (zlen (get_ref c))); [|done].
  apply bind_no_diverge; [by apply read_segment_no_diverge|]. intros [s c1] Hr.
  apply read_segment_into_inv in Hr as (Hs & Hr & ?); [|done..].
  apply bind_no_diverge; [apply seg_max_no_diverge|]. intros m Hm%seg_max_inv.
  apply bind_no_diverge.
  - unfold segs_try_push. destruct (last segs); [|done].
    pose proof (seg_max_no_diverge (E:=SegmentsError) s0). destruct (seg_max s0); simpl; try done.
    unfold seg_offset, idx. simpl. destruct (seg_values s !! _); simpl; [|done]. by destruct (_ <=? _).
  - intros segs' _. apply IH; [by rewrite Hr|rewrite Hr; lia| |rewrite Hr; lia]. by eapply seg_wf_last_u64.
Qed.

(** ** Claims *)

(** For every well-formed collection of segments whose bitmaps are within
    the decoder's allocation limit, [Segments::encode] returns bytes that
    [Segments::decode] maps back to the same collection. *)
Theorem idpack_roundtrip segs : segs_wf segs -> Forall bitmap_fits segs ->
  exists bytes, encode segs = Ok bytes /\ decode bytes = Ok segs.
Proof. intros Hwf Hfit. destruct (encode_decode segs Hwf) as (bytes & He & Hd & _). eauto. Qed.

Definition demo_segments : list Segment := [mkSegment [0; 2; 9]; mkSegment [1000; 1001]].

Lemma demo_segments_wf : segs_wf demo_segments.
Proof.
  constructor.
  - by repeat constructor.
  - apply windows2_ssorted. reflexivity.
  - repeat (constructor; [unfold in_u; lia|]). constructor.
Defined.

Lemma idpack_roundtrip_witness : exists bytes, encode demo_segments = Ok bytes /\ decode bytes = Ok demo_segments.
Proof.
  apply (idpack_roundtrip demo_segments demo_segments_wf).
  repeat (constructor; [intros o m Ho Hm; simpl in Ho, Hm; simplify_eq; vm_compute; discriminate|]). constructor.
Defined.

(** C38: packaging any strictly ascending list of 64-bit ids, encoding it and
    decoding the bytes gives back exactly the ids, whenever the encoding is no
    longer than 1 MiB; in particular for every [OP_RETURN] payload. *)
Theorem package_encode_decode values : ssorted values -> Forall (in_u 64) values ->
  exists segs bytes, package values = Ok segs /\ encode segs = Ok bytes /\
    (zlen bytes <= ALLOC_BYTES_LIMIT -> map_ok segs_values (decode bytes) = Ok values).
Proof.
  intros Hs Hu. destruct (package_ok values Hs Hu) as (segs & Hp & Hv & Hwf).
  destruct (encode_decode segs Hwf) as (bytes & He & Hd & Hfit). exists segs, bytes.
  split_and!; [done|done|]. intros Hle. rewrite Hd by auto. simpl. by rewrite Hv.
Qed.

Lemma package_encode_decode_witness : exists segs bytes,
  package [3; 7; 9000; 9001] = Ok segs /\ encode segs = Ok bytes /\
  (zlen bytes <= ALLOC_BYTES_LIMIT -> map_ok segs_values (decode bytes) = Ok [3; 7; 9000; 9001]).
Proof.
  apply package_encode_decode; [apply windows2_ssorted; reflexivity|].
  repeat (constructor; [unfold in_u; lia|]). constructor.
Defined.

(** [BitmapSegmenter::estimate_size] is exact: it returns the length of the
    bytes that packaging and encoding the same ids produce. *)
Theorem estimate_size_exact values segs bytes : Forall (in_u 64) values -> zlen values < 2 ^ 59 ->
  package values = Ok segs -> encode segs = Ok bytes -> estimate_size values = Ok (zlen bytes).
Proof.
  intros Hu Hl Hp He. destruct (estimate_size_encode values) as (segs' & bytes' & Hp' & He' & ->);
    [by eapply package_inv|done|done|]. simplify_eq. rewrite Hp in Hp'. simplify_eq. by rewrite He in He'; simplify_eq.
Qed.

Lemma estimate_size_exact_witness : estimate_size [3; 7; 9000; 9001] = Ok 7.
Proof.
  apply (estimate_size_exact [3; 7; 9000; 9001] [mkSegment [3; 7]; mkSegment [9000; 9001]]
    [3; 1; 8; 161; 70; 1; 1]).
  - repeat (constructor; [unfold in_u; lia|]). constructor.
  - vm_compute. reflexivity.
  - vm_compute. reflexivity.
  - vm_compute. reflexivity.
Defined.

(** On arbitrary bytes, whatever [Segments::decode] accepts is a
    well-formed collection: no empty segment, values strictly ascending across
    the whole collection, every value a [u64]; and decoding terminates. *)
Theorem decode_sound bytes : Forall is_byte bytes ->
  decode bytes <> Diverge /\ forall segs, decode bytes = Ok segs -> segs_wf segs.
Proof.
  intros Hb. split; [|intros segs; by apply decode_inv]. destruct bytes as [|b bs]; [done|].
  unfold decode. apply bind_no_diverge; [|intros [c s] _; by destruct (negb _)].
  apply decode_loop_no_diverge; simpl get_ref; simpl position; [done| |lia|].
  - pose proof (zlen_nonneg (b :: bs)). lia.
  - unfold zlen. lia.
Qed.

Lemma decode_sound_witness : segs_wf [mkSegment [5; 6; 8]].
Proof.
  destruct (decode_sound [5; 1; 5]) as [_ H].
  - repeat (constructor; [unfold is_byte, in_u; lia|]). constructor.
  - apply H. vm_compute. reflexivity.
Defined.

(** [decode_bitmap]'s plain additions do overflow on a crafted input: a
    segment at offset [u64::MAX] with bit 0 set makes [Segments::decode] panic
    instead of returning an error. *)
Theorem decode_panics_on_max_offset :
  decode [255; 255; 255; 255; 255; 255; 255; 255; 255; 1; 1; 1] = Panic.
Proof. vm_compute. reflexivity. Qed.
