(* ===== verification/Consts.v ===== *)
(** * Protocol constants of the signer ([signer/src/lib.rs],
    [signer/src/bitcoin/packaging.rs], [signer/src/bitcoin/utxo.rs]) *)

From S2P Require Import Prelude.

(** [signer/src/lib.rs] *)
Definition MAX_KEYS : Z := 128.
Definition DEPOSIT_LOCKTIME_BLOCK_BUFFER : Z := 3.
Definition MAX_MEMPOOL_PACKAGE_TX_COUNT : Z := 25.
Definition DEPOSIT_DUST_LIMIT : Z := 546.
Definition WITHDRAWAL_BLOCKS_EXPIRY : Z := 24.
Definition MAX_MEMPOOL_PACKAGE_SIZE : Z := 101000.
Definition MAX_BITCOIN_BLOCK_VSIZE : Z := 1000000.
Definition GOSSIPSUB_MAX_TRANSMIT_SIZE : Z := 65536.

(** [sbtc/src/lib.rs] *)
Definition WITHDRAWAL_MIN_CONFIRMATIONS : Z := 6.

(** [signer/src/bitcoin/utxo.rs] *)
Definition MAX_BASE_TX_VSIZE : Z := 137.
Definition OP_RETURN_VERSION : Z := 1.
Definition OP_RETURN_HEADER_SIZE : Z := 3.
Definition OP_RETURN_MAX_SIZE : Z := 80.
Definition PROTOBUF_ENCODED_SIZE_OVERHEAD : Z := 2.
Definition OP_RETURN_AVAILABLE_SIZE : Z := OP_RETURN_MAX_SIZE - OP_RETURN_HEADER_SIZE.

(** [signer/src/bitcoin/packaging.rs] *)
Definition BAG_OVERHEAD : Z := 4.
Definition SIGNED_MESSAGE_OVERHEAD : Z := 1024.
Definition MAX_PRESIGN_REQUEST_SIZE : Z := GOSSIPSUB_MAX_TRANSMIT_SIZE - SIGNED_MESSAGE_OVERHEAD.
Definition PACKAGE_MAX_VSIZE : Z :=
  ((MAX_MEMPOOL_PACKAGE_SIZE - MAX_MEMPOOL_PACKAGE_TX_COUNT * MAX_BASE_TX_VSIZE) / 5000) * 5000.
