(* ===== verification/Types.v ===== *)
(** * Shared data types: bitcoin primitives, [f64], lexicographic order

    Hashes and public keys are fixed-length byte arrays compared byte by
    byte; they are modelled as the integer with those big-endian digits, which
    compares the same way. A script is its bytes. *)

From Stdlib Require Import SpecFloat.
From S2P Require Import Prelude.

Abbreviation Script := (list Z).
Abbreviation Txid := Z.
Abbreviation BlockHash := Z.
Abbreviation PublicKey := Z.
Abbreviation XOnlyPublicKey := Z.

(** ** Transactions ([bitcoin::Transaction] and its parts) *)
Record OutPoint := mkOutPoint { op_txid : Txid; op_vout : Z }.
#[global] Instance OutPoint_eq_dec : EqDecision OutPoint.
Proof. solve_decision. Defined.
#[global] Instance OutPoint_countable : Countable OutPoint.
Proof.
  refine (inj_countable' (fun o => (op_txid o, op_vout o)) (fun p => mkOutPoint p.1 p.2) _). by intros [].
Defined.

(** [TxIn]: [script_sig] is empty and [sequence] zero in every input built
    here, so both are left out. *)
Record TxIn := mkTxIn { previous_output : OutPoint; witness : list (list Z) }.
Record TxOut := mkTxOut { txo_value : Z; txo_script : Script }.

(** [Transaction]: version two and lock time zero in every transaction built. *)
Record Transaction := mkTransaction { tx_input : list TxIn; tx_output : list TxOut }.

(** ** Amounts *)
Definition MAX_MONEY : Z := 2100000000000000.

(** ** [f64] *)
Abbreviation f64 := spec_float.
Definition f64_of_Z (x : Z) : f64 := binary_normalize 53 1024 x 0 false.
Definition f64_mul : f64 -> f64 -> f64 := SFmul 53 1024.
Definition f64_add : f64 -> f64 -> f64 := SFadd 53 1024.
Definition f64_div : f64 -> f64 -> f64 := SFdiv 53 1024.
(** [f64::max]: the other operand when one is NaN. *)
Definition f64_max (x y : f64) : f64 :=
  match SFcompare x y with
  | Some Lt => y
  | Some _ => x
  | None => match x with S754_nan => y | _ => x end
  end.
(** [f64::ceil]: a finite value is [(-1)^s * m * 2^e]. *)
Definition f64_ceil (x : f64) : f64 :=
  match x with
  | S754_finite s m e =>
      if 0 <=? e then x else
      let v := if s then Z.neg m else Z.pos m in
      binary_normalize 53 1024 (- ((- v) / 2 ^ (- e))) 0 s
  | _ => x
  end.
(** [x as u64]: truncation towards zero, saturating, NaN to zero. *)
Definition f64_as_u64 (x : f64) : Z :=
  match x with
  | S754_finite false m e =>
      Z.min u64_max (if 0 <=? e then Z.pos m * 2 ^ e else Z.pos m / 2 ^ (- e))
  | S754_infinity false => u64_max
  | _ => 0
  end.

Lemma f64_as_u64_range x : in_u 64 (f64_as_u64 x).
Proof.
  unfold in_u, f64_as_u64, u64_max. destruct x as [s|s| |s m e]; try (destruct s; lia); [lia|].
  destruct s; [lia|]. zcase.
  - pose proof (Z.pow_nonneg 2 e). nia.
  - assert (0 <= Z.pos m / 2 ^ (- e)) by (apply Z.div_pos; [lia|apply Z.pow_pos_nonneg; lia]). lia.
Qed.

(** ** Derived [Ord]: lexicographic comparison of the fields *)
Fixpoint lex_cmp {A} (cmp : A -> A -> comparison) (l k : list A) : comparison :=
  match l, k with
  | [], [] => Eq
  | [], _ :: _ => Lt
  | _ :: _, [] => Gt
  | a :: l, b :: k => match cmp a b with Eq => lex_cmp cmp l k | c => c end
  end.

(** A record with a derived [Ord] is compared by the list of its fields, a
    field by the list of its digits (one digit for an integer). *)
Abbreviation okey := (list (list Z)).
Definition okey_le (k1 k2 : okey) : bool :=
  match lex_cmp (lex_cmp Z.compare) k1 k2 with Gt => false | _ => true end.

(** [sort_by_key]: stable insertion sort. *)
Fixpoint insert_by {A} (key : A -> okey) (x : A) (l : list A) : list A :=
  match l with
  | [] => [x]
  | y :: l => if okey_le (key x) (key y) then x :: y :: l else y :: insert_by key x l
  end.
Definition sort_by_key {A} (key : A -> okey) (l : list A) : list A := foldr (insert_by key) [] l.

(** *** The order is total and transitive *)
Section LexOrder.
Context {A : Type} (cmp : A -> A -> comparison).
Context (cmp_eq : forall a b, cmp a b = Eq -> a = b).
Context (cmp_refl : forall a, cmp a a = Eq).
Context (cmp_sym : forall a b, cmp b a = CompOpp (cmp a b)).
Context (cmp_trans : forall a b c, cmp a b = Lt -> cmp b c = Lt -> cmp a c = Lt).

Lemma lex_eq : forall l k, lex_cmp cmp l k = Eq -> l = k.
Proof.
  induction l as [|a l IH]; intros [|b k] H; simpl in H; try done.
  destruct (cmp a b) eqn:Hc; try done. f_equal; auto.
Qed.
Lemma lex_refl : forall l, lex_cmp cmp l l = Eq.
Proof. induction l as [|a l IH]; simpl; [done|]. by rewrite cmp_refl. Qed.
Lemma lex_sym : forall l k, lex_cmp cmp k l = CompOpp (lex_cmp cmp l k).
Proof.
  induction l as [|a l IH]; intros [|b k]; simpl; try done.
  rewrite (cmp_sym a b). destruct (cmp a b); simpl; auto.
Qed.
Lemma lex_trans : forall l k m, lex_cmp cmp l k = Lt -> lex_cmp cmp k m = Lt -> lex_cmp cmp l m = Lt.
Proof.
  induction l as [|a l IH]; intros [|b k] [|c m] H1 H2; simpl in *; try done.
  destruct (cmp a b) eqn:Hab, (cmp b c) eqn:Hbc; try done.
  - apply cmp_eq in Hab, Hbc. subst. rewrite cmp_refl. eauto.
  - apply cmp_eq in Hab. subst. by rewrite Hbc.
  - apply cmp_eq in Hbc. subst. by rewrite Hab.
  - by rewrite (cmp_trans a b c).
Qed.
End LexOrder.

Definition okey_cmp : okey -> okey -> comparison := lex_cmp (lex_cmp Z.compare).
Lemma okey_cmp_eq k1 k2 : okey_cmp k1 k2 = Eq -> k1 = k2.
Proof. apply lex_eq, lex_eq, Z.compare_eq. Qed.
Lemma okey_cmp_refl k : okey_cmp k k = Eq.
Proof. apply lex_refl, lex_refl, Z.compare_refl. Qed.
Lemma okey_cmp_sym k1 k2 : okey_cmp k2 k1 = CompOpp (okey_cmp k1 k2).
Proof. apply lex_sym, lex_sym. intros a b. by rewrite <- Z.compare_antisym. Qed.
Lemma okey_cmp_trans k1 k2 k3 : okey_cmp k1 k2 = Lt -> okey_cmp k2 k3 = Lt -> okey_cmp k1 k3 = Lt.
Proof.
  apply lex_trans; [apply lex_eq, Z.compare_eq|apply lex_refl, Z.compare_refl|].
  apply lex_trans; [apply Z.compare_eq|apply Z.compare_refl|]. intros a b c. rewrite !Z.compare_lt_iff. lia.
Qed.

Lemma okey_le_total k1 k2 : okey_le k1 k2 = false -> okey_le k2 k1 = true.
Proof.
  unfold okey_le. fold okey_cmp. rewrite (okey_cmp_sym k1 k2). by destruct (okey_cmp k1 k2).
Qed.
Lemma okey_le_trans k1 k2 k3 : okey_le k1 k2 = true -> okey_le k2 k3 = true -> okey_le k1 k3 = true.
Proof.
  unfold okey_le. fold okey_cmp. intros H1 H2.
  destruct (okey_cmp k1 k2) eqn:H12; [apply okey_cmp_eq in H12; by subst| |done].
  destruct (okey_cmp k2 k3) eqn:H23; [apply okey_cmp_eq in H23; subst; by rewrite H12| |done].
  by rewrite (okey_cmp_trans k1 k2 k3).
Qed.
Lemma okey_le_antisym k1 k2 : okey_le k1 k2 = true -> okey_le k2 k1 = true -> k1 = k2.
Proof.
  unfold okey_le. fold okey_cmp. rewrite (okey_cmp_sym k1 k2). destruct (okey_cmp k1 k2) eqn:H; try done.
  intros _ _. by apply okey_cmp_eq.
Qed.

(** The first fields decide. *)
Lemma okey_cmp_app_lt a : forall b x y, length a = length b -> okey_cmp a b = Lt -> okey_cmp (a ++ x) (b ++ y) = Lt.
Proof.
  unfold okey_cmp. induction a as [|c a IH]; intros [|d b] x y Hl Hc; simpl in *; try done.
  destruct (lex_cmp Z.compare c d); [|done|done]. apply IH; [lia|done].
Qed.

(** *** [sort_by_key] sorts *)
Definition key_le {A} (key : A -> okey) (x y : A) : Prop := okey_le (key x) (key y) = true.

Section Sorting.
Context {A : Type} (key : A -> okey).
Implicit Types l k : list A.

Lemma insert_by_perm x l : insert_by key x l ≡ₚ x :: l.
Proof. induction l as [|y l IH]; simpl; [done|]. destruct (okey_le _ _); [done|]. rewrite IH. apply Permutation_swap. Qed.
Lemma sort_by_key_perm l : sort_by_key key l ≡ₚ l.
Proof. induction l as [|x l IH]; simpl; [done|]. by rewrite insert_by_perm, IH. Qed.

Lemma insert_by_sorted x l : StronglySorted (key_le key) l -> StronglySorted (key_le key) (insert_by key x l).
Proof.
  induction 1 as [|y l Hs IH Hf]; simpl; [by repeat constructor|].
  destruct (okey_le (key x) (key y)) eqn:Hxy.
  - constructor; [by constructor|]. constructor; [done|]. eapply Forall_impl; [done|].
    intros z. simpl. by apply okey_le_trans.
  - constructor; [done|]. rewrite insert_by_perm. constructor; [by apply okey_le_total|done].
Qed.
Lemma sort_by_key_sorted l : StronglySorted (key_le key) (sort_by_key key l).
Proof. induction l as [|x l IH]; simpl; [constructor|]. by apply insert_by_sorted. Qed.

(** With distinct keys there is one sorted list. *)
Lemma sorted_unique l k : NoDup (map key l) -> l ≡ₚ k ->
  StronglySorted (key_le key) l -> StronglySorted (key_le key) k -> l = k.
Proof.
  revert k. induction l as [|a l IH]; intros k Hnd Hp Hl Hk.
  { symmetry in Hp. by apply Permutation_nil_r in Hp. }
  destruct k as [|b k]; [by apply Permutation_nil_r in Hp|].
  apply StronglySorted_cons in Hl as [Hla Hl], Hk as [Hkb Hk].
  rewrite Forall_forall in Hla, Hkb. cbn [map] in Hnd. apply NoDup_cons in Hnd as [Hni Hnd].
  assert (a = b) as ->.
  { assert (a ∈ b :: k) as [|Ha]%elem_of_cons by (rewrite <- Hp; left); [done|].
    assert (b ∈ a :: l) as [|Hb]%elem_of_cons by (rewrite Hp; left); [done|].
    specialize (Hla b Hb). specialize (Hkb a Ha). exfalso. apply Hni.
    rewrite (okey_le_antisym (key a) (key b) Hla Hkb). by apply list_elem_of_fmap_2. }
  f_equal. apply IH; [done| |done|done]. by apply Permutation_cons_inv in Hp.
Qed.

Lemma sort_by_key_unique l k : NoDup (map key l) -> l ≡ₚ k -> sort_by_key key l = sort_by_key key k.
Proof.
  intros Hnd Hp. apply sorted_unique; [|by rewrite !sort_by_key_perm|apply sort_by_key_sorted..].
  by rewrite sort_by_key_perm.
Qed.
Lemma sort_by_key_id l : NoDup (map key l) -> StronglySorted (key_le key) l -> sort_by_key key l = l.
Proof.
  intros Hnd Hs. apply sorted_unique; [by rewrite sort_by_key_perm|apply sort_by_key_perm|apply sort_by_key_sorted|done].
Qed.

(** Strictly sorted keys. *)
Definition key_lt (x y : A) : Prop := okey_cmp (key x) (key y) = Lt.

Lemma key_le_lt x y : key_le key x y -> key x <> key y -> key_lt x y.
Proof.
  unfold key_le, okey_le, key_lt. fold okey_cmp. destruct (okey_cmp (key x) (key y)) eqn:Hc; try done.
  apply okey_cmp_eq in Hc. congruence.
Qed.
Lemma sorted_lt l : StronglySorted (key_le key) l -> NoDup (map key l) -> StronglySorted key_lt l.
Proof.
  induction 1 as [|x l Hs IH Hf]; intros Hnd; [constructor|]. cbn [map] in Hnd. apply NoDup_cons in Hnd as [Hni Hnd].
  constructor; [auto|]. rewrite Forall_forall in *. intros y Hy. apply key_le_lt; [auto|]. intros Heq. apply Hni.
  rewrite Heq. by apply list_elem_of_fmap_2.
Qed.
Lemma sorted_lt_NoDup l : StronglySorted key_lt l -> NoDup (map key l).
Proof.
  induction 1 as [|x l Hs IH Hf]; [constructor|]. cbn [map]. apply NoDup_cons. split; [|done].
  intros (y & Heq & Hy)%list_elem_of_fmap. rewrite Forall_forall in Hf. specialize (Hf y Hy). unfold key_lt in Hf.
  rewrite Heq in Hf. by rewrite okey_cmp_refl in Hf.
Qed.
Lemma sorted_lt_le l : StronglySorted key_lt l -> StronglySorted (key_le key) l.
Proof.
  induction 1 as [|x l Hs IH Hf]; constructor; [done|]. eapply Forall_impl; [exact Hf|]. intros y.
  unfold key_lt, key_le, okey_le. fold okey_cmp. by intros ->.
Qed.
Lemma sort_by_key_lt l : StronglySorted key_lt l -> sort_by_key key l = l.
Proof. intros Hs. apply sort_by_key_id; [by apply sorted_lt_NoDup|by apply sorted_lt_le]. Qed.
End Sorting.

Lemma StronglySorted_map {A B} (R : B -> B -> Prop) (f : A -> B) l :
  StronglySorted R (map f l) <-> StronglySorted (fun x y => R (f x) (f y)) l.
Proof.
  induction l as [|x l IH]; cbn [map]; [split; constructor|].
  rewrite !StronglySorted_cons, IH, Forall_map. done.
Qed.

Lemma StronglySorted_impl {A} (R S : A -> A -> Prop) l :
  (forall x y, R x y -> S x y) -> StronglySorted R l -> StronglySorted S l.
Proof. intros HRS. induction 1 as [|x l Hs IH Hf]; constructor; [done|]. eapply Forall_impl; [exact Hf|]. auto. Qed.
Lemma StronglySorted_impl_in {A} (R S : A -> A -> Prop) l :
  (forall x y, x ∈ l -> y ∈ l -> R x y -> S x y) -> StronglySorted R l -> StronglySorted S l.
Proof.
  intros HRS Hl. induction Hl as [|x l Hs IH Hf]; constructor.
  - apply IH. intros y z Hy Hz. apply HRS; by right.
  - rewrite Forall_forall in *. intros y Hy. apply HRS; [left|by right|auto].
Qed.

(** [model::DkgSharesStatus] *)
Inductive DkgSharesStatus := Unverified | Verified | Failed.
