(* ===== verification/Bitcoin.v ===== *)
(** * The interface to rust-bitcoin and the generated protobuf code

    What the signer calls in third-party crates, as one class. The laws are
    the documented behaviour the development relies on, each a named class so
    that a theorem states which one it uses. *)

From S2P Require Import Prelude Types.

(** A script instruction, as [Script::instructions] yields it. *)
Inductive instruction :=
| InstrOp (op : Z)
| InstrPushBytes (data : list Z)
| InstrError.
#[global] Instance instruction_eq_dec : EqDecision instruction.
Proof. solve_decision. Defined.

Definition OP_RETURN : Z := 106.

(** The spend type of a taproot input, for its signature hash. *)
Inductive spend_path :=
| KeySpend
| ScriptSpend (script : Script).

Class BitcoinLib := {
  (** [ScriptBuf::new_p2tr] *)
  new_p2tr : XOnlyPublicKey -> option Z -> Script;
  (** The merkle root, and the serialized control block of the first leaf, of
      the two-node tree built from a script leaf and a hidden node
      ([NodeInfo::combine], [TaprootSpendInfo::from_node_info]). The tree has
      depth one and contains the leaf, so the two [expect]s succeed. *)
  tap_merkle_root : XOnlyPublicKey -> Script -> Z -> option Z;
  tap_control_block : XOnlyPublicKey -> Script -> Z -> list Z;
  (** [Signature::to_vec] of the all-zero dummy Schnorr signature. *)
  dummy_signature : list Z;
  (** [TxIn::segwit_weight], [TxOut::weight], [Transaction::vsize],
      [Transaction::compute_txid]. *)
  segwit_weight : TxIn -> Z;
  txout_weight : TxOut -> Z;
  transaction_vsize : Transaction -> Z;
  compute_txid : Transaction -> Txid;
  (** [Script::minimal_non_dust] in sats. *)
  minimal_non_dust : Script -> Z;
  (** [ScriptBuf::new_op_return] and [Script::instructions]. *)
  new_op_return : list Z -> Script;
  instructions : Script -> list instruction;
  (** [SighashCache::taproot_{key,script}_spend_signature_hash] with
      [Prevouts::All]: [None] when it fails. *)
  taproot_sighash : Transaction -> nat -> list TxOut -> spend_path -> option Z;
  (** [encoded_len] of the generated protobuf messages. *)
  outpoint_encoded_len : OutPoint -> Z;
  qualified_id_encoded_len : Z * Txid * BlockHash -> Z }.

(** [Weight::to_vbytes_ceil] *)
Definition to_vbytes_ceil (weight : Z) : Z := div_ceil weight 4.

(** Weights are positive and bounded by the size of a block, and message
    lengths positive. *)
Class BitcoinWeights `{BitcoinLib} : Prop := {
  segwit_weight_pos : forall i, 1 <= segwit_weight i;
  txout_weight_pos : forall o, 1 <= txout_weight o;
  outpoint_len_pos : forall o, 0 <= outpoint_encoded_len o;
  qualified_id_len_pos : forall q, 0 <= qualified_id_encoded_len q }.

(** A script made by [new_op_return] parses as the opcode and one push. *)
Class OpReturnLaw `{BitcoinLib} : Prop := {
  op_return_instructions : forall data, Forall is_byte data ->
    instructions (new_op_return data) = [InstrOp OP_RETURN; InstrPushBytes data] }.

(** The standard output scripts, and the least value of an output of each that
    nodes relay at the default dust relay fee of 3000 sats per kvB, which
    [Script::minimal_non_dust] documents (Bitcoin Core, [policy.cpp]): P2PKH,
    P2SH, P2WPKH, P2WSH and P2TR. *)
Definition p2pkh_script (h : list Z) : Script := [118; 169; 20] ++ h ++ [136; 172].
Definition p2sh_script (h : list Z) : Script := [169; 20] ++ h ++ [135].
Definition witness_program_script (version : Z) (h : list Z) : Script := (if version =? 0 then 0 else 80 + version) :: zlen h :: h.
Definition standard_dust (s : Script) : option Z :=
  let n := length s in
  if (n =? 25)%nat && bool_decide (take 3 s = [118; 169; 20]) && bool_decide (drop 23 s = [136; 172]) then Some 546 else
  if (n =? 23)%nat && bool_decide (take 2 s = [169; 20]) && bool_decide (drop 22 s = [135]) then Some 540 else
  if (n =? 22)%nat && bool_decide (take 2 s = [0; 20]) then Some 294 else
  if (n =? 34)%nat && (bool_decide (take 2 s = [0; 32]) || bool_decide (take 2 s = [81; 32])) then Some 330 else None.
Class DustLaw `{BitcoinLib} : Prop := {
  minimal_non_dust_standard : forall s d, standard_dust s = Some d -> minimal_non_dust s = d }.
Lemma standard_dust_range s d : standard_dust s = Some d -> 294 <= d <= 546.
Proof. unfold standard_dust. repeat case_match; intros [= <-]; lia. Qed.
Lemma standard_p2pkh h : length h = 20%nat -> standard_dust (p2pkh_script h) = Some 546.
Proof. intros Hh. do 20 (destruct h as [|? h]; [discriminate Hh|]). by destruct h; [vm_compute|]. Qed.
Lemma standard_p2sh h : length h = 20%nat -> standard_dust (p2sh_script h) = Some 540.
Proof. intros Hh. do 20 (destruct h as [|? h]; [discriminate Hh|]). by destruct h; [vm_compute|]. Qed.
Lemma standard_witness_20 h : length h = 20%nat -> standard_dust (witness_program_script 0 h) = Some 294.
Proof. intros Hh. do 20 (destruct h as [|? h]; [discriminate Hh|]). by destruct h; [vm_compute|]. Qed.
Lemma standard_witness_32 version h : length h = 32%nat -> version = 0 \/ version = 1 -> standard_dust (witness_program_script version h) = Some 330.
Proof. intros Hh Hv. do 32 (destruct h as [|? h]; [discriminate Hh|]). destruct h; [|discriminate Hh]. destruct Hv as [-> | ->]; by vm_compute. Qed.

(** ** A concrete instance, which satisfies the laws *)
Definition demo_instructions (s : Script) : list instruction :=
  match s with
  | op :: data => if op =? OP_RETURN then [InstrOp op; InstrPushBytes data] else [InstrError]
  | [] => []
  end.
Definition demo_bitcoin : BitcoinLib := {|
  new_p2tr := fun k root => 81 :: 32 :: k :: match root with Some r => [r] | None => [] end;
  tap_merkle_root := fun _ s h => Some (zsum s + h);
  tap_control_block := fun k s h => [192; k; h];
  dummy_signature := [];
  segwit_weight := fun i => 165 + zlen (concat (witness i));
  txout_weight := fun o => 36 + 4 * zlen (txo_script o);
  transaction_vsize := fun tx => 50 + 60 * zlen (tx_input tx) + 40 * zlen (tx_output tx);
  compute_txid := fun tx => zlen (tx_input tx) + 1000 * zsum (map txo_value (tx_output tx));
  minimal_non_dust := fun s => default 330 (standard_dust s);
  new_op_return := fun data => OP_RETURN :: data;
  instructions := demo_instructions;
  taproot_sighash := fun tx i prevouts path => Some (Z.of_nat i);
  outpoint_encoded_len := fun _ => 40;
  qualified_id_encoded_len := fun _ => 70 |}.
Lemma demo_weights : @BitcoinWeights demo_bitcoin.
Proof.
  constructor; simpl; intros; [pose proof (zlen_nonneg (concat (witness i)))
    |pose proof (zlen_nonneg (txo_script o))|..]; lia.
Qed.
Lemma demo_dust : @DustLaw demo_bitcoin.
Proof. constructor. intros s d Hd. cbn. by rewrite Hd. Qed.
Lemma demo_op_return : @OpReturnLaw demo_bitcoin.
Proof. by constructor. Qed.
