(* ===== verification/SignerState.v ===== *)
(** * Cached signer state ([signer/src/context/signer_state.rs])

    The sBTC limits with their defaults, the signer set with its peer ids, and
    the [SignerState] cell. Each lock-protected field is a record field; the
    [RwLock]s are never poisoned, so [expect] does not fail. *)

From S2P Require Import Prelude Types.

(** ** Limits *)
Record SbtcLimits := mkSbtcLimits {
  lim_total_cap : option Z;
  lim_per_deposit_minimum : option Z;
  lim_per_deposit_cap : option Z;
  lim_per_withdrawal_cap : option Z;
  lim_rolling_withdrawal_blocks : option Z;
  lim_rolling_withdrawal_cap : option Z;
  lim_withdrawn_total : option Z;
  lim_max_mintable_cap : option Z }.

Record RollingWithdrawalLimits := mkRolling {
  rolling_blocks : Z;
  rolling_cap : Z;
  rolling_withdrawn_total : Z }.

Definition fully_constrained (withdrawn_total : Z) : RollingWithdrawalLimits := mkRolling 0 0 withdrawn_total.
Definition rolling_unlimited (withdrawn_total : Z) : RollingWithdrawalLimits := mkRolling 0 u64_max withdrawn_total.

Definition limits_zero : SbtcLimits :=
  mkSbtcLimits (Some 0) (Some MAX_MONEY) (Some 0) (Some 0) (Some 0) (Some 0) (Some u64_max) (Some 0).

Definition total_cap (l : SbtcLimits) : Z := default MAX_MONEY (lim_total_cap l).
Definition total_cap_exists (l : SbtcLimits) : bool := match lim_total_cap l with Some _ => true | None => false end.
Definition per_deposit_minimum (l : SbtcLimits) : Z := default 0 (lim_per_deposit_minimum l).
Definition per_deposit_cap (l : SbtcLimits) : Z := default MAX_MONEY (lim_per_deposit_cap l).
Definition per_withdrawal_cap (l : SbtcLimits) : Z := default MAX_MONEY (lim_per_withdrawal_cap l).
Definition max_mintable_cap (l : SbtcLimits) : Z := default MAX_MONEY (lim_max_mintable_cap l).

Definition rolling_withdrawal_limits (l : SbtcLimits) : RollingWithdrawalLimits :=
  let withdrawn_total := default 0 (lim_withdrawn_total l) in
  match lim_rolling_withdrawal_blocks l, lim_rolling_withdrawal_cap l with
  | Some blocks, Some cap => mkRolling blocks cap withdrawn_total
  | None, None => rolling_unlimited withdrawn_total
  | _, _ => fully_constrained withdrawn_total
  end.

(** ** The signer set

    [PeerId::from(PublicKey)] belongs to libp2p: [to_peer_id]. A [HashSet] of
    signers is hashed on the public key, and looked up by public key through
    [Borrow]. *)
Abbreviation PeerId := Z.
Record Signer := mkSigner { sg_public_key : PublicKey; sg_peer_id : PeerId }.
#[global] Instance Signer_eq_dec : EqDecision Signer.
Proof. solve_decision. Defined.
#[global] Instance Signer_countable : Countable Signer.
Proof.
  refine (inj_countable' (fun s => (sg_public_key s, sg_peer_id s)) (fun p => mkSigner p.1 p.2) _). by intros [].
Defined.

Record SignerSet := mkSignerSet {
  ss_signers : gset Signer;
  ss_peer_ids : gset PeerId }.
Definition signer_set_default : SignerSet := mkSignerSet ∅ ∅.

(** [HashSet::remove] and [contains] of a borrowed public key. *)
Definition remove_key (pk : PublicKey) (s : gset Signer) : gset Signer :=
  filter (fun x => sg_public_key x <> pk) s.
Definition contains_key (pk : PublicKey) (s : gset Signer) : bool :=
  bool_decide (set_Exists (fun x => sg_public_key x = pk) s).

Section SignerSet.
Context (to_peer_id : PublicKey -> PeerId).

Definition signer_new (pk : PublicKey) : Signer := mkSigner pk (to_peer_id pk).

Definition add_signer (pk : PublicKey) (s : SignerSet) : SignerSet :=
  let signer := signer_new pk in
  mkSignerSet ({[signer]} ∪ ss_signers s) ({[sg_peer_id signer]} ∪ ss_peer_ids s).

Definition get_signers (s : SignerSet) : list Signer := elements (ss_signers s).

Definition remove_old_step (s : SignerSet) (signer : Signer) : SignerSet :=
  mkSignerSet (remove_key (sg_public_key signer) (ss_signers s)) (ss_peer_ids s ∖ {[sg_peer_id signer]}).
Definition add_new_step (s : SignerSet) (pk : PublicKey) : SignerSet :=
  let signer := signer_new pk in
  mkSignerSet ({[signer]} ∪ ss_signers s) ({[sg_peer_id signer]} ∪ ss_peer_ids s).

(** [replace_signers]: both loops run under the write locks; the old signers
    were read before. A [BTreeSet] of keys is iterated in any order here. *)
Definition replace_signers (public_keys : gset PublicKey) (s : SignerSet) : SignerSet :=
  let inner_signer_set := get_signers s in
  let s := foldl remove_old_step s inner_signer_set in
  foldl add_new_step s (elements public_keys).

Definition is_signer (pk : PublicKey) (s : SignerSet) : bool := contains_key pk (ss_signers s).

Definition remove_signer (pk : PublicKey) (s : SignerSet) : SignerSet :=
  if is_signer pk s then
    let peer_id := to_peer_id pk in
    mkSignerSet (remove_key pk (ss_signers s)) (ss_peer_ids s ∖ {[peer_id]})
  else s.

Definition is_allowed_peer (peer_id : PeerId) (s : SignerSet) : bool := bool_decide (peer_id ∈ ss_peer_ids s).
Definition num_signers (s : SignerSet) : Z := Z.of_nat (size (ss_signers s)).

Definition get_pubkey_for_peer (peer_id : PeerId) (s : SignerSet) : option PublicKey :=
  option_map sg_public_key (List.find (fun signer => sg_peer_id signer =? peer_id) (get_signers s)).

(** *** The set of public keys a [SignerSet] stands for *)
Definition signer_keys (s : SignerSet) : gset PublicKey := set_map sg_public_key (ss_signers s).

Record signer_set_ok (s : SignerSet) : Prop := {
  ss_peer : forall x, x ∈ ss_signers s -> sg_peer_id x = to_peer_id (sg_public_key x);
  ss_ids : ss_peer_ids s = set_map to_peer_id (signer_keys s) }.

(** The abstract specification: a finite set of public keys. *)
Inductive set_op :=
| OpAdd (pk : PublicKey)
| OpRemove (pk : PublicKey)
| OpReplace (pks : gset PublicKey).
Definition run_op (s : SignerSet) (op : set_op) : SignerSet :=
  match op with
  | OpAdd pk => add_signer pk s
  | OpRemove pk => remove_signer pk s
  | OpReplace pks => replace_signers pks s
  end.
Definition spec_op (k : gset PublicKey) (op : set_op) : gset PublicKey :=
  match op with
  | OpAdd pk => {[pk]} ∪ k
  | OpRemove pk => k ∖ {[pk]}
  | OpReplace pks => pks
  end.

Lemma signer_set_default_ok : signer_set_ok signer_set_default.
Proof. constructor; [set_solver|]. unfold signer_keys. simpl. by rewrite !set_map_empty. Qed.

Lemma signer_keys_elem s pk : pk ∈ signer_keys s <-> exists x, x ∈ ss_signers s /\ sg_public_key x = pk.
Proof. unfold signer_keys. rewrite elem_of_map. naive_solver. Qed.

Lemma is_signer_spec pk s : is_signer pk s = true <-> pk ∈ signer_keys s.
Proof.
  unfold is_signer, contains_key. rewrite bool_decide_eq_true, signer_keys_elem. unfold set_Exists. naive_solver.
Qed.

Lemma signer_mem s pk : signer_set_ok s -> pk ∈ signer_keys s <-> signer_new pk ∈ ss_signers s.
Proof.
  intros [Hp _]. rewrite signer_keys_elem. split.
  - intros (x & Hx & <-). specialize (Hp x Hx). unfold signer_new. rewrite <- Hp. by destruct x.
  - intros H. by exists (signer_new pk).
Qed.

Lemma add_signer_keys pk s : signer_keys (add_signer pk s) = {[pk]} ∪ signer_keys s.
Proof. unfold signer_keys, add_signer. simpl. by rewrite set_map_union_L, set_map_singleton_L. Qed.

Lemma add_signer_ok pk s : signer_set_ok s -> signer_set_ok (add_signer pk s).
Proof.
  intros [H1 H2]. constructor.
  - simpl. intros x [->%elem_of_singleton|?]%elem_of_union; [done|auto].
  - rewrite add_signer_keys, set_map_union_L, set_map_singleton_L. simpl. by rewrite H2.
Qed.

Section Injective.
Context (to_peer_id_inj : Inj (=) (=) to_peer_id).

Lemma remove_old_ok s x : signer_set_ok s -> sg_peer_id x = to_peer_id (sg_public_key x) ->
  signer_set_ok (remove_old_step s x) /\ signer_keys (remove_old_step s x) = signer_keys s ∖ {[sg_public_key x]}.
Proof.
  intros [H1 H2] Hx.
  assert (signer_keys (remove_old_step s x) = signer_keys s ∖ {[sg_public_key x]}) as Hk.
  { apply set_eq. intros pk. rewrite elem_of_difference, !signer_keys_elem, elem_of_singleton.
    unfold remove_old_step, remove_key. simpl. setoid_rewrite elem_of_filter. naive_solver. }
  split; [constructor|done].
  - simpl. unfold remove_key. intros y [_ Hy]%elem_of_filter. auto.
  - rewrite Hk. simpl. rewrite H2, Hx. apply set_eq. intros i.
    rewrite elem_of_difference, !elem_of_map, elem_of_singleton. setoid_rewrite elem_of_difference.
    setoid_rewrite elem_of_singleton. split; [naive_solver|].
    intros (pk & -> & Hpk & Hne). split; [by exists pk|]. intros ?%to_peer_id_inj. done.
Qed.

Lemma remove_old_all l : forall s, signer_set_ok s ->
  Forall (fun x => sg_peer_id x = to_peer_id (sg_public_key x)) l ->
  let s' := foldl remove_old_step s l in
  signer_set_ok s' /\ signer_keys s' = signer_keys s ∖ list_to_set (map sg_public_key l).
Proof.
  induction l as [|x l IH]; intros s Hs Hl; simpl.
  - split; [done|]. set_solver.
  - apply Forall_cons in Hl as [Hx Hl]. destruct (remove_old_ok s x Hs Hx) as [Hs' Hk].
    destruct (IH _ Hs' Hl) as [? ->]. split; [done|]. rewrite Hk. set_solver.
Qed.

Lemma add_new_all l : forall s, signer_set_ok s ->
  let s' := foldl add_new_step s l in signer_set_ok s' /\ signer_keys s' = signer_keys s ∪ list_to_set l.
Proof.
  induction l as [|x l IH]; intros s Hs; simpl.
  - split; [done|]. set_solver.
  - destruct (IH _ (add_signer_ok x s Hs)) as [? Hk]. split; [done|].
    change (add_new_step s x) with (add_signer x s). rewrite Hk, add_signer_keys. set_solver.
Qed.

Lemma replace_signers_ok pks s : signer_set_ok s ->
  signer_set_ok (replace_signers pks s) /\ signer_keys (replace_signers pks s) = pks.
Proof.
  intros Hs. unfold replace_signers. destruct (remove_old_all (get_signers s) s Hs) as [Hs' Hk].
  { apply Forall_forall. intros x Hx. apply (ss_peer _ Hs). unfold get_signers in Hx. by apply elem_of_elements in Hx. }
  destruct (add_new_all (elements pks) _ Hs') as [? ->]. split; [done|]. rewrite Hk, list_to_set_elements_L.
  assert (signer_keys s ∖ list_to_set (map sg_public_key (get_signers s)) = ∅) as ->; [|set_solver].
  apply set_eq. intros pk. rewrite elem_of_difference, elem_of_list_to_set, signer_keys_elem.
  split; [|set_solver]. intros [(x & Hx & <-) Hn]. exfalso. apply Hn. apply (list_elem_of_fmap_2 sg_public_key).
  unfold get_signers. by apply elem_of_elements.
Qed.

Lemma remove_signer_ok pk s : signer_set_ok s ->
  signer_set_ok (remove_signer pk s) /\ signer_keys (remove_signer pk s) = signer_keys s ∖ {[pk]}.
Proof.
  intros Hs. unfold remove_signer. destruct (is_signer pk s) eqn:Hi.
  - apply (remove_old_ok s (signer_new pk) Hs eq_refl).
  - split; [done|]. assert (pk ∉ signer_keys s); [|set_solver]. rewrite <- is_signer_spec. by rewrite Hi.
Qed.

Lemma run_op_ok op s : signer_set_ok s ->
  signer_set_ok (run_op s op) /\ signer_keys (run_op s op) = spec_op (signer_keys s) op.
Proof.
  destruct op as [pk|pk|pks]; simpl; intros Hs.
  - split; [by apply add_signer_ok|apply add_signer_keys].
  - by apply remove_signer_ok.
  - by apply replace_signers_ok.
Qed.

Lemma get_pubkey_for_peer_spec s peer pk : signer_set_ok s ->
  get_pubkey_for_peer peer s = Some pk <-> pk ∈ signer_keys s /\ to_peer_id pk = peer.
Proof.
  intros Hs. unfold get_pubkey_for_peer. split.
  - destruct (List.find _ _) as [x|] eqn:Hf; [|done]. intros [= <-].
    apply List.find_some in Hf as [Hx Hp]. zbool.
    assert (x ∈ ss_signers s) as Hx' by (apply elem_of_elements; by apply list_elem_of_In).
    split; [apply signer_keys_elem; by exists x|]. by rewrite <- (ss_peer _ Hs x Hx').
  - intros [Hpk <-]. pose proof (proj1 (signer_mem s pk Hs) Hpk) as Hin.
    destruct (List.find _ _) as [x|] eqn:Hf.
    + apply List.find_some in Hf as [Hx Hp]. zbool.
      assert (x ∈ ss_signers s) as Hx' by (apply elem_of_elements; by apply list_elem_of_In).
      rewrite (ss_peer _ Hs x Hx') in Hp. apply to_peer_id_inj in Hp. simpl. by rewrite Hp.
    + exfalso. pose proof (List.find_none _ _ Hf (signer_new pk)) as Hn. simpl in Hn.
      rewrite Z.eqb_refl in Hn. apply elem_of_elements, list_elem_of_In in Hin. by specialize (Hn Hin).
Qed.
End Injective.
End SignerSet.

Lemma size_set_map `{Countable A} `{Countable B} (f : A -> B) (X : gset A) :
  Inj (=) (=) f -> size (set_map (D := gset B) f X) = size X.
Proof.
  intros Hinj. induction X as [|x X Hx IH] using set_ind_L; [by rewrite set_map_empty|].
  rewrite set_map_union_L, set_map_singleton_L, !size_union, !size_singleton, IH; [done|set_solver|].
  intros y ->%elem_of_singleton (z & ->%Hinj & ?)%elem_of_map. done.
Qed.

(** ** [SignerState] *)
Record SignerSetInfo := mkSignerSetInfo {
  ssi_aggregate_key : PublicKey;
  ssi_signer_set : gset PublicKey;
  ssi_signatures_required : Z }.
Record BitcoinBlockRef := mkBitcoinBlockRef { bbr_block_height : Z; bbr_block_hash : BlockHash }.
Record StacksBlockRef := mkStacksBlockRef { sbr_block_hash : BlockHash; sbr_block_height : Z }.

Record SignerState := mkSignerState {
  st_current_signer_set : SignerSet;
  st_current_limits : SbtcLimits;
  st_registry_signing_set_info : option SignerSetInfo;
  st_sbtc_contracts_deployed : bool;
  st_sbtc_bitcoin_start_height : Z;
  st_is_sbtc_bitcoin_start_height_set : bool;
  st_bitcoin_chain_tip : option BitcoinBlockRef;
  st_stacks_chain_tip : option StacksBlockRef }.

Definition signer_state_default : SignerState :=
  mkSignerState signer_set_default limits_zero None false 0 false None None.

Definition update_registry_signer_set_info (info : SignerSetInfo) (s : SignerState) : SignerState :=
  let '(mkSignerState a b _ d e f g h) := s in mkSignerState a b (Some info) d e f g h.
Definition set_bitcoin_chain_tip (tip : BitcoinBlockRef) (s : SignerState) : SignerState :=
  let '(mkSignerState a b c d e f _ h) := s in mkSignerState a b c d e f (Some tip) h.
Definition set_stacks_chain_tip (tip : StacksBlockRef) (s : SignerState) : SignerState :=
  let '(mkSignerState a b c d e f g _) := s in mkSignerState a b c d e f g (Some tip).
Definition update_current_limits (limits : SbtcLimits) (s : SignerState) : SignerState :=
  let '(mkSignerState a _ c d e f g h) := s in mkSignerState a limits c d e f g h.
Definition set_sbtc_contracts_deployed (s : SignerState) : SignerState :=
  let '(mkSignerState a b c _ e f g h) := s in mkSignerState a b c true e f g h.
Definition set_sbtc_bitcoin_start_height (height : Z) (s : SignerState) : SignerState :=
  let '(mkSignerState a b c d _ _ g h) := s in mkSignerState a b c d height true g h.

(** ** Properties *)

(** Refinement of the signer set: after any sequence of additions,
    removals and replacements, the membership test, the peer allow-list, the
    peer-to-key lookup and the count all agree with the set of public keys
    obtained by running the same operations on a plain set (peer ids being an
    injective function of the key). *)
Theorem signer_set_refines (to_peer_id : PublicKey -> PeerId) (ops : list set_op) :
  Inj (=) (=) to_peer_id ->
  let s := foldl (run_op to_peer_id) signer_set_default ops in
  let keys := foldl spec_op ∅ ops in
  (forall pk, is_signer pk s = true <-> pk ∈ keys) /\
  (forall peer, is_allowed_peer peer s = true <-> exists pk, pk ∈ keys /\ to_peer_id pk = peer) /\
  (forall peer pk, get_pubkey_for_peer peer s = Some pk <-> pk ∈ keys /\ to_peer_id pk = peer) /\
  num_signers s = Z.of_nat (size keys).
Proof.
  intros Hinj s keys.
  assert (signer_set_ok to_peer_id s /\ signer_keys s = keys) as [Hs Hk].
  { subst s keys. induction ops as [|op ops IH] using rev_ind; [split; [apply signer_set_default_ok|done]|].
    rewrite !foldl_app. simpl. destruct IH as [Hs Hk].
    destruct (run_op_ok to_peer_id Hinj op _ Hs) as [? Hk']. split; [done|]. by rewrite Hk', Hk. }
  rewrite <- Hk. split_and!.
  - intros pk. apply (is_signer_spec to_peer_id).
  - intros peer. unfold is_allowed_peer. rewrite bool_decide_eq_true, (ss_ids _ _ Hs), elem_of_map. naive_solver.
  - intros peer pk. by apply (get_pubkey_for_peer_spec to_peer_id Hinj).
  - unfold num_signers, signer_keys. f_equal.
    assert (ss_signers s = set_map (signer_new to_peer_id) (signer_keys s)) as Hss.
    { apply set_eq. intros x. rewrite elem_of_map. split.
      - intros Hx. exists (sg_public_key x). rewrite (signer_keys_elem to_peer_id). split; [|eauto].
        unfold signer_new. rewrite <- (ss_peer _ _ Hs x Hx). by destruct x.
      - intros (pk & -> & Hpk). by apply signer_mem. }
    rewrite Hss at 1. rewrite size_set_map; [done|]. intros a b [= ->]. done.
Qed.

Lemma signer_set_refines_witness :
  let s := foldl (run_op (fun pk => pk + 1000)) signer_set_default [OpAdd 1; OpAdd 2; OpRemove 1; OpReplace {[2; 3]}] in
  is_signer 1 s = false /\ get_pubkey_for_peer 1003 s = Some 3 /\ num_signers s = 2.
Proof.
  destruct (signer_set_refines (fun pk => pk + 1000) [OpAdd 1; OpAdd 2; OpRemove 1; OpReplace {[2; 3]}])
    as (H1 & _ & H3 & H4); [intros a b; lia|].
  split_and!.
  - apply not_true_is_false. rewrite H1. apply (bool_decide_unpack _). by vm_compute.
  - apply H3. split; [|done]. apply (bool_decide_unpack _). by vm_compute.
  - by rewrite H4.
Defined.

(** The limits fail closed: the initial state admits no deposit and no
    withdrawal, a half-configured rolling limit has cap zero, and only an
    entirely absent rolling limit is unlimited. *)
Theorem limits_fail_closed (l : SbtcLimits) :
  let zero := st_current_limits signer_state_default in
  (forall amount, per_deposit_minimum zero <= amount <= per_deposit_cap zero -> False) /\
  per_withdrawal_cap zero = 0 /\ max_mintable_cap zero = 0 /\ rolling_cap (rolling_withdrawal_limits zero) = 0 /\
  (is_Some (lim_rolling_withdrawal_blocks l) <-> lim_rolling_withdrawal_cap l = None ->
     rolling_cap (rolling_withdrawal_limits l) = 0) /\
  (lim_rolling_withdrawal_blocks l = None -> lim_rolling_withdrawal_cap l = None ->
     rolling_cap (rolling_withdrawal_limits l) = u64_max).
Proof.
  split_and!; [|done..|intros Hb|intros Hb Hc].
  - intros amount [H1 H2]. change (MAX_MONEY <= amount) in H1. change (amount <= 0) in H2. unfold MAX_MONEY in *. lia.
  - unfold rolling_withdrawal_limits.
    destruct (lim_rolling_withdrawal_blocks l), (lim_rolling_withdrawal_cap l); try done; exfalso.
    + destruct Hb as [Hb _]. discriminate (Hb (ex_intro _ _ eq_refl)).
    + destruct Hb as [_ Hb]. destruct (Hb eq_refl) as [? ?]. done.
  - unfold rolling_withdrawal_limits. by rewrite Hb, Hc.
Qed.
