(* ===== verification/Packaging.v ===== *)
(** * Best-fit packaging of requests ([signer/src/bitcoin/packaging.rs])

    The [Weighted] trait is a class; a [Bag] and the [BestFitPackager] are
    records updated by [bag_add_item] and [insert_item]. Machine arithmetic is
    checked ([u16] signature counts, [u64] sizes). *)

From S2P Require Import Prelude Leb128 Idpack IdpackCodec Consts.

(** ** The [Weighted] trait *)
Class Weighted (T : Type) := {
  needs_signature : T -> bool;
  votes : T -> Z;
  vsize : T -> Z;
  withdrawal_id : T -> option Z;
  presign_weight : T -> Z }.

Record PackagerConfig := mkPackagerConfig {
  max_votes_against : Z;
  max_signatures : Z;
  max_total_vsize : Z;
  max_op_return_size : Z;
  max_total_presign_size : Z }.

Definition packager_config_new (max_votes_against max_signatures : Z) : PackagerConfig :=
  mkPackagerConfig max_votes_against max_signatures PACKAGE_MAX_VSIZE OP_RETURN_AVAILABLE_SIZE
    MAX_PRESIGN_REQUEST_SIZE.

(** [slice::binary_search] on a sorted vector of distinct ids: [inl] the
    position of the element, or [inr] the insertion point. *)
Fixpoint lower_bound (l : list Z) (x : Z) : nat :=
  match l with
  | y :: l => if y <? x then S (lower_bound l x) else O
  | [] => O
  end.
Definition binary_search (l : list Z) (x : Z) : nat + nat :=
  let pos := lower_bound l x in
  if decide (l !! pos = Some x) then inl pos else inr pos.

(** The [if let Some(id)] block of [Bag::add_item]. *)
Definition add_withdrawal_id (ids : list Z) (id : option Z) : list Z :=
  match id with
  | Some id =>
      match binary_search ids id with
      | inl _ => ids
      | inr pos => take pos ids ++ id :: drop pos ids
      end
  | None => ids
  end.

Section Packager.
Context {T : Type} `{Weighted T}.

Record Bag := mkBag {
  bag_config : PackagerConfig;
  bag_items : list T;
  votes_bitmap : Z;
  items_needing_signatures : Z;
  bag_vsize : Z;
  withdrawal_ids : list Z }.

Definition bag_new (config : PackagerConfig) : Bag := mkBag config [] 0 0 0 [].

Definition bag_add_item {E} (bag : Bag) (item : T) : outcome E Bag :=
  let votes_bitmap := Z.lor (votes_bitmap bag) (votes item) in
  items_needing_signatures ←
    add_u 16 (items_needing_signatures bag) (if needs_signature item then 1 else 0);
  vsize ← add_u 64 (bag_vsize bag) (vsize item);
  let withdrawal_ids := add_withdrawal_id (withdrawal_ids bag) (withdrawal_id item) in
  mret (mkBag (bag_config bag) (bag_items bag ++ [item]) votes_bitmap
          items_needing_signatures vsize withdrawal_ids).

Definition bag_with_item {E} (config : PackagerConfig) (item : T) : outcome E Bag :=
  bag_add_item (bag_new config) item.

Definition votes_compatible (bag : Bag) (item : T) : bool :=
  let combined_votes := Z.lor (votes_bitmap bag) (votes item) in
  count_ones combined_votes <=? max_votes_against (bag_config bag).

Definition signatures_compatible {E} (bag : Bag) (item : T) : outcome E bool :=
  let sig := if needs_signature item then 1 else 0 in
  n ← add_u 16 (items_needing_signatures bag) sig;
  mret (n <=? max_signatures (bag_config bag)).

Definition can_fit_withdrawal_ids {E} (bag : Bag) (ids : list Z) : outcome E bool :=
  match ids with
  | [] => mret true
  | _ =>
      match estimate_size ids with
      | Ok size => mret (size <=? max_op_return_size (bag_config bag))
      | Err _ => mret false
      | Panic => Panic
      | Diverge => Diverge
      end
  end.

Definition can_add_withdrawal_id {E} (bag : Bag) (new_id : Z) : outcome E bool :=
  match withdrawal_ids bag with
  | [] => mret true
  | _ =>
      match binary_search (withdrawal_ids bag) new_id with
      | inl _ => mret true
      | inr pos =>
          let combined_ids :=
            take pos (withdrawal_ids bag) ++ [new_id] ++ drop pos (withdrawal_ids bag) in
          can_fit_withdrawal_ids bag combined_ids
      end
  end.

Definition withdrawal_id_compatible {E} (bag : Bag) (item : T) : outcome E bool :=
  match withdrawal_id item with
  | None => mret true
  | Some id => can_add_withdrawal_id bag id
  end.

Definition is_compatible {E} (bag : Bag) (item : T) : outcome E bool :=
  if negb (votes_compatible bag item) then mret false else
  sig ← signatures_compatible bag item;
  if negb sig then mret false else withdrawal_id_compatible bag item.

Definition compatibility_score (bag : Bag) (item : T) : Z :=
  count_ones (Z.lxor (votes_bitmap bag) (votes item)).

Record BestFitPackager := mkPackager {
  bags : list Bag;
  pk_config : PackagerConfig;
  total_vsize : Z;
  total_presign_size : Z }.

Definition packager_new (config : PackagerConfig) : BestFitPackager := mkPackager [] config 0 0.

(** [iter_mut().filter(is_compatible).min_by_key(score)]: the index and score
    of the first minimum among the bags [i, i+1, ...]. *)
Fixpoint best_bag_from {E} (i : nat) (bags : list Bag) (item : T) (best : option (nat * Z))
    : outcome E (option (nat * Z)) :=
  match bags with
  | [] => mret best
  | bag :: bags =>
      compatible ← is_compatible bag item;
      let score := compatibility_score bag item in
      let best :=
        if compatible : bool then
          match best with
          | Some (_, s) => if score <? s then Some (i, score) else best
          | None => Some (i, score)
          end
        else best in
      best_bag_from (S i) bags item best
  end.

Definition find_best_bag {E} (p : BestFitPackager) (item : T) : outcome E (option nat) :=
  best ← best_bag_from 0 (bags p) item None;
  mret (option_map fst best).

Definition insert_item {E} (p : BestFitPackager) (item : T) : outcome E BestFitPackager :=
  let votes_against := count_ones (votes item) in
  let total_package_vsize := saturating_add 64 (total_vsize p) (vsize item) in
  let total_presign := saturating_add 64 (total_presign_size p) (presign_weight item) in
  if (max_votes_against (pk_config p) <? votes_against)
     || (max_total_vsize (pk_config p) <? total_package_vsize)
     || (max_total_presign_size (pk_config p) <? total_presign)
  then mret p else
  best ← find_best_bag p item;
  match best with
  | Some i =>
      bag ← idx (bags p) (Z.of_nat i);
      bag ← bag_add_item bag item;
      mret (mkPackager (<[i := bag]> (bags p)) (pk_config p) total_package_vsize total_presign)
  | None =>
      let total_presign := saturating_add 64 total_presign BAG_OVERHEAD in
      if max_total_presign_size (pk_config p) <? total_presign then mret p else
      bag ← bag_with_item (pk_config p) item;
      mret (mkPackager (bags p ++ [bag]) (pk_config p) total_package_vsize total_presign)
  end.

Definition finalize (p : BestFitPackager) : list (list T) := map bag_items (bags p).

Definition compute_optimal_packages {E} (items : list T) (max_votes_against max_needs_signature : Z)
    : outcome E (list (list T)) :=
  let config := packager_config_new max_votes_against max_needs_signature in
  packager ← ofold insert_item (packager_new config) items;
  mret (finalize packager).

(** ** Invariants

    [bag_ok cfg bag]: the cached fields of a bag describe its items, and the
    limits of [cfg] hold for them. *)
Definition lors (l : list Z) : Z := foldr Z.lor 0 l.
Definition sig_count (items : list T) : Z :=
  zsum (map (fun i => if needs_signature i then 1 else 0) items).

Record item_ok (i : T) : Prop := {
  item_vsize : 0 <= vsize i;
  item_presign : 1 <= presign_weight i;
  item_id : forall id, withdrawal_id i = Some id -> in_u 64 id }.

Record ids_ok (cfg : PackagerConfig) (items : list T) (ids : list Z) : Prop := {
  ids_sorted : ssorted ids;
  ids_u64 : Forall (in_u 64) ids;
  ids_mem : forall x, x ∈ ids <-> exists i, i ∈ items /\ withdrawal_id i = Some x;
  ids_len : zlen ids <= zlen items;
  ids_fit : exists n, estimate_size ids = Ok n /\ n <= max_op_return_size cfg }.

Record bag_ok (cfg : PackagerConfig) (b : Bag) : Prop := {
  bok_config : bag_config b = cfg;
  bok_nonempty : bag_items b <> [];
  bok_votes : votes_bitmap b = lors (map votes (bag_items b));
  bok_votes_le : count_ones (votes_bitmap b) <= max_votes_against cfg;
  bok_sigs : items_needing_signatures b = sig_count (bag_items b);
  bok_sigs_le : sig_count (bag_items b) <= Z.max 1 (max_signatures cfg);
  bok_vsize : bag_vsize b = zsum (map vsize (bag_items b));
  bok_ids : ids_ok cfg (bag_items b) (withdrawal_ids b) }.

Definition all_items (p : BestFitPackager) : list T := concat (map bag_items (bags p)).

Record packager_ok (cfg : PackagerConfig) (seen : list T) (p : BestFitPackager) : Prop := {
  pok_config : pk_config p = cfg;
  pok_bags : Forall (bag_ok cfg) (bags p);
  pok_sub : all_items p ⊆+ seen;
  pok_items : Forall item_ok (all_items p);
  pok_vsize : total_vsize p = zsum (map vsize (all_items p));
  pok_vsize_le : total_vsize p <= max_total_vsize cfg;
  pok_presign : total_presign_size p = zsum (map presign_weight (all_items p)) + BAG_OVERHEAD * zlen (bags p);
  pok_presign_le : total_presign_size p <= max_total_presign_size cfg }.

(** The configurations [compute_optimal_packages] uses. *)
Record config_ok (cfg : PackagerConfig) : Prop := {
  cfg_vsize : max_total_vsize cfg < 2 ^ 63;
  cfg_presign : max_total_presign_size cfg < 2 ^ 16 - 1;
  cfg_op_return : 11 <= max_op_return_size cfg;
  cfg_votes : 0 <= max_votes_against cfg }.

End Packager.
Arguments Bag : clear implicits.
Arguments BestFitPackager : clear implicits.

(** ** Sorted insertion *)
Lemma lower_bound_spec l x : ssorted l ->
  (forall y, y ∈ take (lower_bound l x) l -> y < x) /\
  (forall y, y ∈ drop (lower_bound l x) l -> x <= y).
Proof.
  induction l as [|z l IH]; intros Hs; simpl; [set_solver|].
  apply StronglySorted_cons in Hs as [Hz Hs]. rewrite Forall_forall in Hz. destruct (IH Hs) as [H1 H2].
  destruct (Z.ltb_spec z x); simpl.
  - split; [|done]. intros y [->|Hy]%elem_of_cons; auto.
  - split; [set_solver|]. intros y [->|Hy]%elem_of_cons; [done|]. specialize (Hz y Hy). lia.
Qed.

Lemma binary_search_inl l x pos : binary_search l x = inl pos -> x ∈ l.
Proof. unfold binary_search. case_decide; [|done]. intros _. by eapply list_elem_of_lookup_2. Qed.

Lemma binary_search_inr l x pos : ssorted l -> binary_search l x = inr pos ->
  (x ∉ l) /\ ssorted (take pos l ++ x :: drop pos l).
Proof.
  intros Hs. unfold binary_search. case_decide as Hd; [done|]. intros [= <-].
  destruct (lower_bound_spec l x Hs) as [H1 H2]. set (k := lower_bound l x) in *.
  assert (forall y, y ∈ drop k l -> x < y) as H3.
  { intros y Hy. pose proof (H2 y Hy). destruct (decide (x = y)) as [<-|]; [|lia]. exfalso.
    apply Hd. rewrite <- (Nat.add_0_r k), <- lookup_drop. destruct (drop k l) as [|z d] eqn:Hdr; [set_solver|].
    assert (ssorted (z :: d)) as Hzd.
    { rewrite <- (take_drop k l), Hdr in Hs. by apply ssorted_app in Hs as (_ & _ & ?). }
    pose proof (ssorted_cons_le z d x Hzd Hy). specialize (H2 z ltac:(left)). simpl. f_equal. lia. }
  pose proof Hs as Hs'. rewrite <- (take_drop k l) in Hs'. apply ssorted_app in Hs' as (H4 & H5 & H6). split.
  - rewrite <- (take_drop k l), elem_of_app. intros [Hx|Hx]; [specialize (H1 x Hx)|specialize (H3 x Hx)]; lia.
  - apply ssorted_app. rewrite StronglySorted_cons, Forall_forall. split_and!; [|done|done|done].
    intros y z Hy [->|Hz]%elem_of_cons; auto.
Qed.

(** A single id always fits. *)
Lemma estimate_size_single id : in_u 64 id -> exists n, estimate_size [id] = Ok n /\ n <= 11.
Proof.
  intros Hid. pose proof Hid as [? ?].
  assert (package [id] = Ok [mkSegment [id]]) as Hp by reflexivity.
  assert (seg_wf (mkSegment [id])) as Hwf by (constructor; [done|by repeat constructor|by constructor]).
  assert (1 <= calculate_size (saturating_sub id 0) <= 10)
    by (apply calculate_size_u64; unfold in_u, saturating_sub; lia).
  exists (calculate_size (saturating_sub id 0) + 1). split; [|lia].
  unfold estimate_size. rewrite Hp. oreduce. cbn [ofold estimate_step].
  rewrite (seg_offset_ok _ id []), (seg_range_ok _ id [] id), (seg_max_ok _ id) by done. oreduce.
  rewrite Z.sub_diag. change (div_ceil 0 8) with 0. change (calculate_size 0) with 1.
  uarith. f_equal. lia.
Qed.

(** ** Each operation preserves the invariants *)
Section PackagerProofs.
Context {T : Type} `{Weighted T}.
Implicit Types (b : Bag T) (p : BestFitPackager T) (items : list T).

Lemma zsum_app l k : zsum (l ++ k) = zsum l + zsum k.
Proof. induction l; simpl; lia. Qed.
Lemma lors_app l k : lors (l ++ k) = Z.lor (lors l) (lors k).
Proof. induction l as [|a l IH]; simpl; [by rewrite Z.lor_0_l|]. by rewrite IH, Z.lor_assoc. Qed.
Lemma zsum_nonneg l : Forall (fun x => 0 <= x) l -> 0 <= zsum l.
Proof. induction 1; simpl; lia. Qed.
Lemma zsum_perm l k : l ≡ₚ k -> zsum l = zsum k.
Proof. induction 1; simpl; lia. Qed.
Lemma sig_count_app items items' : sig_count (items ++ items') = sig_count items + sig_count items'.
Proof. unfold sig_count. by rewrite map_app, zsum_app. Qed.

Lemma ids_ok_nil cfg : 11 <= max_op_return_size cfg -> ids_ok cfg ([] : list T) [].
Proof.
  constructor; [constructor|constructor|set_solver|done|exists 0; split; [done|lia]].
Qed.

Lemma ids_ok_none cfg items ids item :
  withdrawal_id item = None -> ids_ok cfg items ids -> ids_ok cfg (items ++ [item]) ids.
Proof.
  intros Hn [H1 H2 H3 H4 H5]. constructor; [done|done| |zlia|done].
  intros x. rewrite H3. split.
  - intros (i & ? & ?). exists i. split; [set_solver|done].
  - intros (i & [Hi| ->%list_elem_of_singleton]%elem_of_app & ?); [by exists i|congruence].
Qed.

Lemma ids_ok_add cfg items ids item id :
  withdrawal_id item = Some id -> in_u 64 id -> ids_ok cfg items ids ->
  (forall pos, binary_search ids id = inr pos -> exists n,
     estimate_size (add_withdrawal_id ids (Some id)) = Ok n /\ n <= max_op_return_size cfg) ->
  ids_ok cfg (items ++ [item]) (add_withdrawal_id ids (Some id)).
Proof.
  intros Hid Hu [H1 H2 H3 H4 H5] Hfit. simpl in *.
  assert (forall x, (exists i, i ∈ items ++ [item] /\ withdrawal_id i = Some x) <-> x ∈ ids \/ x = id) as Hx.
  { intros x. rewrite H3. split.
    - intros (i & [Hi| ->%list_elem_of_singleton]%elem_of_app & Hi'); [by left; exists i|right; congruence].
    - intros [(i & ? & ?)| ->]; [exists i|exists item]; (split; [set_solver|done]). }
  destruct (binary_search ids id) as [pos|pos] eqn:Hb.
  - apply binary_search_inl in Hb. constructor; [done|done| |zlia|done].
    intros x. rewrite Hx. naive_solver.
  - apply binary_search_inr in Hb as [Hni Hs]; [|done]. constructor; [done| | | |by eapply Hfit].
    + rewrite <- (take_drop pos ids), Forall_app in H2. apply Forall_app. split; [tauto|constructor; tauto].
    + intros x. rewrite Hx. rewrite <- (take_drop pos ids) at 3. rewrite !elem_of_app, elem_of_cons. tauto.
    + rewrite <- (take_drop pos ids) in H4. zlia.
Qed.

(** Compatibility of a withdrawal id never panics and means the ids still fit. *)
Lemma withdrawal_id_compatible_ok {E} cfg b item : bag_config b = cfg -> item_ok item ->
  ids_ok cfg (bag_items b) (withdrawal_ids b) -> zlen (bag_items b) < 2 ^ 58 -> 11 <= max_op_return_size cfg ->
  exists c, withdrawal_id_compatible (E:=E) b item = Ok c /\
    (c = true -> ids_ok cfg (bag_items b ++ [item]) (add_withdrawal_id (withdrawal_ids b) (withdrawal_id item))).
Proof.
  intros Hcfg Hi Hids Hlen H11. unfold withdrawal_id_compatible.
  destruct (withdrawal_id item) as [id|] eqn:Hid; [|by exists true; split; [|intros _; apply ids_ok_none]].
  pose proof (item_id _ Hi id Hid) as Hu. pose proof Hids as [H1 H2 H3 H4 H5]. unfold can_add_withdrawal_id.
  destruct (withdrawal_ids b) as [|id0 ids0] eqn:Hw.
  { exists true. split; [done|]. intros _. apply ids_ok_add; [done..|]. intros pos _.
    destruct (estimate_size_single id Hu) as (n & Hn & Hle). exists n.
    replace (add_withdrawal_id [] (Some id)) with [id] by reflexivity. split; [done|lia]. }
  rewrite <- Hw in *. clear Hw. destruct (binary_search (withdrawal_ids b) id) as [pos|pos] eqn:Hb.
  { exists true. split; [done|]. intros _. apply ids_ok_add; [done..|]. intros pos' Hb'. congruence. }
  set (ids' := take pos (withdrawal_ids b) ++ [id] ++ drop pos (withdrawal_ids b)).
  assert (add_withdrawal_id (withdrawal_ids b) (Some id) = ids') as Hadd by (simpl; by rewrite Hb).
  assert (ssorted ids') as Hs by (by apply binary_search_inr in Hb as [_ ?]).
  assert (Forall (in_u 64) ids') as Hu'.
  { rewrite <- (take_drop pos (withdrawal_ids b)), Forall_app in H2.
    apply Forall_app. split; [tauto|constructor; tauto]. }
  assert (zlen ids' = zlen (withdrawal_ids b) + 1) as Hl'.
  { unfold ids'. rewrite <- (take_drop pos (withdrawal_ids b)) at 3. zlia. }
  destruct (estimate_size_encode ids' Hs Hu') as (segs & bytes & _ & _ & Hest); [lia|].
  assert (exists i0 l0, ids' = i0 :: l0) as (i0 & l0 & Hne) by (unfold ids'; destruct (take pos _); eauto).
  exists (zlen bytes <=? max_op_return_size cfg). split.
  - unfold can_fit_withdrawal_ids. rewrite Hne at 1. rewrite Hest, Hcfg. done.
  - intros Hc. zbool. apply ids_ok_add; [done..|]. intros pos' _. rewrite Hadd. eauto.
Qed.

Lemma sig_count_bounds items : 0 <= sig_count items <= zlen items.
Proof.
  induction items as [|i items IH]; [done|]. unfold sig_count in *. simpl. rewrite zlen_cons.
  destruct (needs_signature i); lia.
Qed.

(** [compat cfg b item]: what [is_compatible] establishes. *)
Definition compat cfg b item : Prop :=
  count_ones (Z.lor (votes_bitmap b) (votes item)) <= max_votes_against cfg /\
  sig_count (bag_items b ++ [item]) <= max_signatures cfg /\
  ids_ok cfg (bag_items b ++ [item]) (add_withdrawal_id (withdrawal_ids b) (withdrawal_id item)).

Lemma is_compatible_ok {E} cfg b item : bag_ok cfg b -> item_ok item -> config_ok cfg ->
  zlen (bag_items b) < 2 ^ 16 - 1 ->
  exists c, is_compatible (E:=E) b item = Ok c /\ (c = true -> compat cfg b item).
Proof.
  intros [Hc _ Hv _ Hs _ _ Hids] Hi [_ _ H11 _] Hlen. unfold is_compatible, votes_compatible. rewrite Hc.
  destruct (Z.leb_spec (count_ones (Z.lor (votes_bitmap b) (votes item))) (max_votes_against cfg)); cbn [negb];
    [|by exists false].
  unfold signatures_compatible. pose proof (sig_count_bounds (bag_items b)).
  assert (sig_count [item] = if needs_signature item then 1 else 0) as Hone
    by (unfold sig_count; simpl; destruct (needs_signature item); lia).
  rewrite add_u_ok by (rewrite Hs; destruct (needs_signature item); lia). oreduce. rewrite Hc, Hs, <- Hone.
  destruct (Z.leb_spec (sig_count (bag_items b) + sig_count [item]) (max_signatures cfg)); cbn [negb];
    [|by exists false].
  destruct (withdrawal_id_compatible_ok (E:=E) cfg b item) as (c & -> & Hc'); [done..|lia|done|].
  exists c. split; [done|]. intros Ht. unfold compat. rewrite sig_count_app. auto.
Qed.

Lemma bag_add_item_ok {E} cfg b item : bag_config b = cfg ->
  votes_bitmap b = lors (map votes (bag_items b)) -> items_needing_signatures b = sig_count (bag_items b) ->
  bag_vsize b = zsum (map vsize (bag_items b)) ->
  count_ones (Z.lor (votes_bitmap b) (votes item)) <= max_votes_against cfg ->
  sig_count (bag_items b ++ [item]) <= Z.max 1 (max_signatures cfg) ->
  ids_ok cfg (bag_items b ++ [item]) (add_withdrawal_id (withdrawal_ids b) (withdrawal_id item)) ->
  zlen (bag_items b) < 2 ^ 16 - 1 -> bag_vsize b + vsize item < 2 ^ 64 ->
  exists b', bag_add_item (E:=E) b item = Ok b' /\ bag_ok cfg b' /\ bag_items b' = bag_items b ++ [item].
Proof.
  intros Hc Hv Hs Hvs Hvl Hsl Hids Hlen Hlt. unfold bag_add_item.
  pose proof (sig_count_bounds (bag_items b)).
  assert (sig_count [item] = if needs_signature item then 1 else 0) as Hone
    by (unfold sig_count; simpl; destruct (needs_signature item); lia).
  rewrite (add_u_ok 16) by (rewrite Hs; destruct (needs_signature item); lia). uarith.
  eexists. split; [done|]. split; [|done]. constructor; simpl; [done| |..|done]; try done.
  - by destruct (bag_items b).
  - rewrite map_app, lors_app, Hv. simpl. by rewrite Z.lor_0_r.
  - by rewrite sig_count_app, Hone, Hs.
  - rewrite map_app, zsum_app, Hvs. simpl. lia.
Qed.

Lemma best_bag_from_ok {E} cfg item : item_ok item -> config_ok cfg ->
  forall l i best,
  Forall (fun b => bag_ok cfg b /\ zlen (bag_items b) < 2 ^ 16 - 1) l ->
  exists r, best_bag_from (E:=E) i l item best = Ok r /\
    (r = best \/ exists k b s, r = Some ((i + k)%nat, s) /\ l !! k = Some b /\ compat cfg b item).
Proof.
  intros Hi Hcfg. induction l as [|b l IH]; intros i best Hl; [by exists best; split; [|left]|].
  apply Forall_cons in Hl as [[Hb Hlen] Hl]. cbn [best_bag_from].
  destruct (is_compatible_ok (E:=E) cfg b item Hb Hi Hcfg Hlen) as (c & -> & Hc). oreduce.
  match goal with |- context [best_bag_from _ l item ?x] => set (best' := x);
    destruct (IH (S i) best' Hl) as (r & -> & Hr) end.
  exists r. split; [done|]. destruct Hr as [->|(k & b' & s & -> & Hk & Hcompat)].
  - unfold best'. destruct c; [|by left]. specialize (Hc eq_refl).
    assert (exists k b0 s, Some (i, compatibility_score b item) = Some ((i + k)%nat, s) /\
      (b :: l) !! k = Some b0 /\ compat cfg b0 item) as Hthis.
    { exists O, b, (compatibility_score b item). by rewrite Nat.add_0_r. }
    destruct best as [[j s]|]; [|by right]. destruct (_ <? s); [by right|by left].
  - right. exists (S k), b', s. by rewrite Nat.add_succ_r.
Qed.

(** Sums over the items of all bags, when one bag gets an item. *)
Lemma all_items_insert p i b b' item : bags p !! i = Some b -> bag_items b' = bag_items b ++ [item] ->
  concat (map bag_items (<[i := b']> (bags p))) ≡ₚ item :: all_items p.
Proof.
  intros Hb Hi. unfold all_items. pose proof (lookup_lt_Some _ _ _ Hb) as Hlt.
  rewrite <- (take_drop_middle (bags p) i b Hb) at 2. rewrite (insert_take_drop _ _ _ Hlt).
  rewrite !map_app, !concat_app. simpl. rewrite Hi.
  set (l1 := concat (map bag_items (take i (bags p)))). set (l2 := concat (map bag_items (drop (S i) (bags p)))).
  rewrite (Permutation_middle l1 (bag_items b ++ l2) item). apply Permutation_app_head.
  rewrite <- app_assoc. symmetry. apply Permutation_middle.
Qed.

Lemma items_weights items : Forall item_ok items ->
  0 <= zsum (map vsize items) /\ zlen items <= zsum (map presign_weight items).
Proof. induction 1 as [|i l [Hv Hp _] _ IH]; simpl; [done|]. rewrite zlen_cons. lia. Qed.

Lemma all_items_bag_le p b : b ∈ bags p -> Forall item_ok (all_items p) ->
  zlen (bag_items b) <= zsum (map presign_weight (all_items p)) /\
  zsum (map vsize (bag_items b)) <= zsum (map vsize (all_items p)).
Proof.
  intros (l1 & l2 & Hb)%list_elem_of_split.
  assert (all_items p = concat (map bag_items l1) ++ bag_items b ++ concat (map bag_items l2)) as ->.
  { unfold all_items. by rewrite Hb, map_app, concat_app. }
  rewrite !map_app, !zsum_app, !Forall_app. intros Hall. destruct Hall as (H1 & H2 & H3).
  pose proof (items_weights _ H1). pose proof (items_weights _ H2). pose proof (items_weights _ H3).
  pose proof (zlen_nonneg (concat (map bag_items l1))).
  pose proof (zlen_nonneg (concat (map bag_items l2))). lia.
Qed.

Lemma packager_bags_small cfg seen p : config_ok cfg -> packager_ok cfg seen p ->
  Forall (fun b => bag_ok cfg b /\ zlen (bag_items b) < 2 ^ 16 - 1) (bags p).
Proof.
  intros Hcfg Hp. pose proof (pok_bags _ _ _ Hp) as Hb. rewrite !Forall_forall in *. intros b Hin. split; [auto|].
  pose proof (all_items_bag_le p b Hin (pok_items _ _ _ Hp)). pose proof (pok_presign _ _ _ Hp).
  pose proof (pok_presign_le _ _ _ Hp). pose proof (cfg_presign _ Hcfg). pose proof (zlen_nonneg (bags p)).
  unfold BAG_OVERHEAD in *. lia.
Qed.

(** The totals of a packager after [item] was put somewhere. *)
Lemma packager_ok_put cfg seen p item p' : packager_ok cfg seen p -> item_ok item ->
  pk_config p' = cfg -> Forall (bag_ok cfg) (bags p') -> all_items p' ≡ₚ item :: all_items p ->
  total_vsize p' = total_vsize p + vsize item -> total_vsize p' <= max_total_vsize cfg ->
  total_presign_size p' = total_presign_size p + presign_weight item + BAG_OVERHEAD * (zlen (bags p') - zlen (bags p)) ->
  total_presign_size p' <= max_total_presign_size cfg ->
  packager_ok cfg (seen ++ [item]) p'.
Proof.
  intros [] Hi Hc Hb Hperm Hv Hvl Hs Hsl. constructor; [done|done| | | |done| |done].
  - rewrite Hperm, (comm (++)). by apply submseteq_skip.
  - rewrite Hperm. by constructor.
  - rewrite (zsum_perm _ (map vsize (item :: all_items p))) by (by rewrite Hperm). simpl. lia.
  - rewrite (zsum_perm (map presign_weight (all_items p')) (map presign_weight (item :: all_items p)))
      by (by rewrite Hperm). simpl. lia.
Qed.

Lemma packager_ok_skip cfg seen p item : packager_ok cfg seen p -> packager_ok cfg (seen ++ [item]) p.
Proof. intros []. constructor; try done. by apply submseteq_inserts_r. Qed.

Lemma saturating_add_le w x y m : saturating_add w x y <= m -> m < 2 ^ w - 1 -> saturating_add w x y = x + y.
Proof. unfold saturating_add. lia. Qed.

(** The bag a new item opens. *)
Lemma bag_with_item_ok {E} cfg item : item_ok item -> config_ok cfg ->
  count_ones (votes item) <= max_votes_against cfg -> vsize item < 2 ^ 64 ->
  exists b, bag_with_item (E:=E) cfg item = Ok b /\ bag_ok cfg b /\ bag_items b = [item].
Proof.
  intros Hi [_ _ H11 _] Hv Hvs. apply (bag_add_item_ok (E:=E) cfg (bag_new cfg) item); simpl; try done.
  - unfold sig_count. simpl. destruct (needs_signature item); lia.
  - destruct (withdrawal_id item) as [id|] eqn:Hid; [|by apply (ids_ok_none _ []), ids_ok_nil].
    pose proof (item_id _ Hi id Hid) as Hu. apply (ids_ok_add _ []); [done|done|by apply ids_ok_nil|].
    intros _ _. destruct (estimate_size_single id Hu) as (n & ? & ?). exists n. split; [done|lia].
Qed.

Lemma find_best_bag_ok {E} cfg seen p item : config_ok cfg -> packager_ok cfg seen p -> item_ok item ->
  exists r, find_best_bag (E:=E) p item = Ok r /\
    (forall i, r = Some i -> exists b, bags p !! i = Some b /\ compat cfg b item).
Proof.
  intros Hcfg Hp Hi. unfold find_best_bag.
  destruct (best_bag_from_ok (E:=E) cfg item Hi Hcfg (bags p) 0 None) as (r & -> & Hr);
    [by eapply packager_bags_small|].
  exists (option_map fst r). split; [done|]. intros i Hri.
  destruct Hr as [->|(k & b & s & -> & Hk & Hc)]; [done|]. injection Hri as <-. by exists b.
Qed.

Lemma insert_item_ok {E} cfg seen p item : config_ok cfg -> packager_ok cfg seen p -> item_ok item ->
  exists p', insert_item (E:=E) p item = Ok p' /\ packager_ok cfg (seen ++ [item]) p'.
Proof.
  intros Hcfg Hp Hi. pose proof Hp as []. unfold insert_item. rewrite pok_config0.
  pose proof (cfg_vsize _ Hcfg). pose proof (cfg_presign _ Hcfg). pose proof (item_vsize _ Hi).
  pose proof (items_weights _ pok_items0).
  destruct (_ || _) eqn:Hlim; [by exists p; split; [|apply packager_ok_skip]|]. zbool.
  rewrite (saturating_add_le 64 _ _ (max_total_vsize cfg)) in * by lia.
  rewrite (saturating_add_le 64 _ _ (max_total_presign_size cfg)) in * by lia.
  destruct (find_best_bag_ok (E:=E) cfg seen p item Hcfg Hp Hi) as (r & -> & Hr). oreduce.
  destruct r as [i|].
  - destruct (Hr i eq_refl) as (b & Hb & Hv & Hs & Hids). rewrite (idx_ok _ _ b) by (rewrite ?Nat2Z.id; done || lia).
    pose proof (proj1 (Forall_forall _ _) (packager_bags_small _ _ _ Hcfg Hp) b) as [[] ?];
      [by eapply list_elem_of_lookup_2|].
    pose proof (all_items_bag_le p b (list_elem_of_lookup_2 _ _ _ Hb) pok_items0).
    destruct (bag_add_item_ok (E:=E) cfg b item) as (b' & Hadd & Hb' & Hit); try done; [lia..|].
    oreduce. rewrite Hadd. oreduce. eexists. split; [done|]. apply (packager_ok_put cfg seen p item); simpl; try done.
    + by apply Forall_insert.
    + by apply all_items_insert with (b := b).
    + unfold zlen. rewrite length_insert. lia.
  - destruct (_ <? _) eqn:Hlim'; [by exists p; split; [|apply packager_ok_skip]|]. zbool.
    rewrite (saturating_add_le 64 _ _ (max_total_presign_size cfg)) in * by lia.
    destruct (bag_with_item_ok (E:=E) cfg item Hi Hcfg) as (b & -> & Hb & Hit); [done|lia|].
    oreduce. eexists. split; [done|]. apply (packager_ok_put cfg seen p item); simpl; try done.
    + apply Forall_app. split; [done|by apply Forall_singleton].
    + unfold all_items. simpl. rewrite map_app, concat_app. simpl. rewrite Hit, app_nil_r. by rewrite (comm (++)).
    + zlia.
Qed.

(** What [best_bag_from] selects: the first compatible bag of least score. *)
Definition best_ok (i : nat) (l : list (Bag T)) item (best r : option (nat * Z)) : Prop :=
  match r with
  | None => best = None /\ forall b, b ∈ l -> is_compatible (E:=Empty_set) b item = Ok false
  | Some (j, s) =>
      (best = Some (j, s) \/ exists k b, j = (i + k)%nat /\ l !! k = Some b /\ s = compatibility_score b item /\
         is_compatible (E:=Empty_set) b item = Ok true) /\
      (forall j0 s0, best = Some (j0, s0) -> s <= s0 /\ (s = s0 -> j = j0)) /\
      (forall k b, l !! k = Some b -> is_compatible (E:=Empty_set) b item = Ok true ->
         s <= compatibility_score b item /\ (s = compatibility_score b item -> (j <= i + k)%nat))
  end.

Lemma best_bag_from_best item : forall l i best r,
  (forall j s, best = Some (j, s) -> (j < i)%nat) ->
  best_bag_from (E:=Empty_set) i l item best = Ok r -> best_ok i l item best r.
Proof.
  induction l as [|b l IH]; intros i best r Hlt Hr; cbn [best_bag_from] in Hr.
  { outcome_inv. destruct r as [[j s]|]; simpl; [|split; [done|set_solver]].
    split_and!; [by left|intros ?? [= -> ->]; split; [done|done]|done]. }
  outcome_inv. rename v into c. apply IH in Hr; cycle 1.
  { intros j s Hb. destruct c; [|specialize (Hlt j s Hb); lia].
    destruct best as [[j0 s0]|]; [|by simplify_eq; lia]. specialize (Hlt j0 s0 eq_refl).
    destruct (_ <? s0); simplify_eq; lia. }
  destruct r as [[j s]|]; simpl in *.
  - destruct Hr as (Hsel & Hbest & Hmin). destruct c.
    + split_and!.
      * destruct Hsel as [Hsel|(k & b' & -> & ? & ? & ?)];
          [|right; exists (S k), b'; split_and!; [lia|done..]].
        destruct best as [[j0 s0]|]; [destruct (_ <? s0) eqn:Hs|]; simplify_eq; [|by left|];
          right; exists O, b; split_and!; (done || lia).
      * intros j0 s0 ->. specialize (Hlt j0 s0 eq_refl). zcase_in Hbest;
          destruct (Hbest _ _ eq_refl); split; [lia| |done..]. intros ->. lia.
      * intros [|k] b' Hk Hc; simplify_eq/=; [|destruct (Hmin k b' Hk Hc); split; [done|intros; lia]].
        destruct best as [[j0 s0]|]; [specialize (Hlt j0 s0 eq_refl); zcase_in Hbest|];
          destruct (Hbest _ _ eq_refl) as [? Heq]; split; try lia; intros E'; specialize (Heq ltac:(lia)); lia.
    + split_and!; [|done|].
      * destruct Hsel as [?|(k & b' & -> & ? & ? & ?)]; [by left|].
        right; exists (S k), b'; split_and!; [lia|done..].
      * intros [|k] b' Hk Hc; simplify_eq/=; [congruence|]. destruct (Hmin k b' Hk Hc); split; [done|intros; lia].
  - destruct Hr as [Hb Hall]. destruct c; [by destruct best as [[]|]; [destruct (_ <? _)|]|].
    split; [done|]. intros b' [->|?]%elem_of_cons; auto.
Qed.

Lemma compute_optimal_packages_ok {E} items mva mns : Forall item_ok items -> 0 <= mva ->
  exists p, compute_optimal_packages (E:=E) items mva mns = Ok (finalize p) /\
    packager_ok (packager_config_new mva mns) items p.
Proof.
  intros Hi Hv. set (cfg := packager_config_new mva mns).
  assert (config_ok cfg) as Hcfg by (constructor; simpl; try done; lia).
  destruct (ofold_total (E:=E) (packager_ok cfg) insert_item items [] (packager_new cfg)) as (p & Hp & Hok).
  { intros pre a post p -> Hp. apply Forall_app in Hi as [_ [Ha _]%Forall_cons]. by apply insert_item_ok. }
  { by constructor. }
  exists p. unfold compute_optimal_packages. fold cfg. by rewrite Hp.
Qed.

Lemma packager_ok_finalize cfg items p : packager_ok cfg items p ->
  concat (finalize p) ⊆+ items /\
  zsum (map vsize (concat (finalize p))) <= max_total_vsize cfg /\
  zsum (map presign_weight (concat (finalize p))) + BAG_OVERHEAD * zlen (finalize p) <= max_total_presign_size cfg /\
  Forall (fun pkg => pkg <> [] /\ count_ones (lors (map votes pkg)) <= max_votes_against cfg /\
    sig_count pkg <= Z.max 1 (max_signatures cfg) /\ exists ids, ids_ok cfg pkg ids) (finalize p).
Proof.
  intros []. unfold finalize. fold (all_items p). split_and!; [done| | |].
  - by rewrite <- pok_vsize0.
  - unfold zlen in *. rewrite length_map. by rewrite <- pok_presign0.
  - rewrite Forall_map. eapply Forall_impl; [done|]. intros b []. simpl in *.
    rewrite <- bok_votes0. split_and!; [done|done|lia|eauto].
Qed.

End PackagerProofs.

(** ** Properties *)

(** A sample [Weighted] type, for the witnesses. *)
Record SampleItem := mkSample {
  sample_deposit : bool;
  sample_votes : Z;
  sample_vsize : Z;
  sample_id : option Z }.
#[global] Instance sample_weighted : Weighted SampleItem := {|
  needs_signature := sample_deposit;
  votes := sample_votes;
  vsize := sample_vsize;
  withdrawal_id := sample_id;
  presign_weight := fun _ => 40 |}.
Definition sample_items : list SampleItem :=
  [mkSample true 1 250 None; mkSample false 2 40 (Some 7); mkSample true 1 250 None; mkSample false 0 40 (Some 8)].
Lemma sample_items_ok : Forall item_ok sample_items.
Proof. repeat apply List.Forall_cons; try apply List.Forall_nil; constructor; simpl; intros; simplify_eq; unfold in_u; lia. Qed.



(** What [insert_item] does with a request, on every branch: it is
    dropped only when a limit excludes it; it joins a compatible bag whose
    votes differ least from its own (the first such bag); and it opens a new
    bag only when no bag is compatible. *)
Theorem insert_item_best_fit {T} `{Weighted T} (p p' : BestFitPackager T) (item : T) :
  insert_item (E:=Empty_set) p item = Ok p' ->
  let incompatible := forall b, b ∈ bags p -> is_compatible (E:=Empty_set) b item = Ok false in
  let presign := saturating_add 64 (total_presign_size p) (presign_weight item) in
  (p' = p /\
    (max_votes_against (pk_config p) < count_ones (votes item) \/
     max_total_vsize (pk_config p) < saturating_add 64 (total_vsize p) (vsize item) \/
     max_total_presign_size (pk_config p) < presign \/
     (incompatible /\ max_total_presign_size (pk_config p) < saturating_add 64 presign BAG_OVERHEAD))) \/
  (exists i b b', bags p !! i = Some b /\ is_compatible (E:=Empty_set) b item = Ok true /\
    bag_add_item (E:=Empty_set) b item = Ok b' /\ bags p' = <[i := b']> (bags p) /\
    forall j b0, bags p !! j = Some b0 -> is_compatible (E:=Empty_set) b0 item = Ok true ->
      compatibility_score b item <= compatibility_score b0 item /\
      (compatibility_score b item = compatibility_score b0 item -> (i <= j)%nat)) \/
  (incompatible /\ exists b', bag_with_item (E:=Empty_set) (pk_config p) item = Ok b' /\ bags p' = bags p ++ [b']).
Proof.
  intros Hins incompatible presign. unfold insert_item in Hins. fold presign in Hins.
  destruct (_ || _) eqn:Hlim in Hins.
  { outcome_inv. left. split; [done|]. apply orb_true_iff in Hlim as [[?|?]%orb_true_iff|?]; zbool; auto. }
  outcome_inv. unfold find_best_bag in Hv. outcome_inv. apply best_bag_from_best in Hv0; [|done].
  destruct v0 as [[i s]|]; simpl in *.
  - destruct Hv0 as ([?|(k & b & -> & Hb & -> & Hc)] & _ & Hmin); [done|]. outcome_inv.
    apply idx_inv in Hv as [_ Hv]. rewrite Nat2Z.id in Hv. right. left. simplify_eq.
    exists k, b, v0. split_and!; [done..|]. intros j b0 Hj Hcj. apply (Hmin j b0 Hj Hcj).
  - destruct Hv0 as [_ Hinc]. destruct (_ <? _) eqn:Hov in Hins; outcome_inv; zbool.
    + left. split; [done|]. auto 6.
    + right. right. split; [done|]. eauto.
Qed.

Definition sample_packager : BestFitPackager SampleItem :=
  match compute_optimal_packages (E:=Empty_set) sample_items 1 1,
        ofold (E:=Empty_set) insert_item (packager_new (packager_config_new 1 1)) sample_items with
  | Ok _, Ok p => p
  | _, _ => packager_new (packager_config_new 1 1)
  end.
Lemma insert_item_best_fit_witness :
  exists p', insert_item (E:=Empty_set) sample_packager (mkSample false 2 40 (Some 9)) = Ok p' /\
    (length (bags p') = 3)%nat.
Proof.
  destruct (insert_item (E:=Empty_set) sample_packager (mkSample false 2 40 (Some 9))) as [p'| | |] eqn:Hp;
    [|by vm_compute in Hp..].
  exists p'. split; [done|]. destruct (insert_item_best_fit _ _ _ Hp) as [[-> _]|[(i & b & b' & Hi & _ & _ & -> & _)|[Hinc _]]].
  - by vm_compute.
  - by rewrite length_insert; vm_compute.
  - exfalso. specialize (Hinc (nth 1 (bags sample_packager) (bag_new (pk_config sample_packager)))).
    vm_compute in Hinc. discriminate Hinc. right. left.
Defined.

(** The signature limit is not enforced when a bag is opened: with a
    maximum of zero signatures, a deposit (which needs one) is still packaged,
    in a bag of its own, instead of being ignored. *)
Theorem zero_signatures_still_packaged {T} `{Weighted T} (item : T) :
  item_ok item -> needs_signature item = true -> votes item = 0 ->
  vsize item <= PACKAGE_MAX_VSIZE -> presign_weight item + BAG_OVERHEAD <= MAX_PRESIGN_REQUEST_SIZE ->
  compute_optimal_packages (E:=Empty_set) [item] 0 0 = Ok [[item]].
Proof.
  intros Hi Hn Hv Hvs Hp. set (cfg := packager_config_new 0 0).
  assert (config_ok cfg) as Hcfg by (constructor; simpl; try done; lia).
  pose proof (item_vsize _ Hi). pose proof (item_presign _ Hi).
  assert (PACKAGE_MAX_VSIZE = 95000) as Hmv by reflexivity. assert (MAX_PRESIGN_REQUEST_SIZE = 64512) as Hmp by reflexivity.
  rewrite Hmv, Hmp in *. unfold BAG_OVERHEAD in *.
  destruct (bag_with_item_ok (E:=Empty_set) cfg item Hi Hcfg) as (b & Hb & _ & Hit); [by rewrite Hv|lia|].
  unfold compute_optimal_packages. fold cfg. cbn [ofold]. unfold insert_item, saturating_add. simpl max_votes_against.
  cbn [packager_new pk_config total_vsize total_presign_size cfg packager_config_new max_votes_against
       max_total_vsize max_total_presign_size bags]. rewrite Hv. change (count_ones 0) with 0.
  rewrite Hmv, Hmp. unfold BAG_OVERHEAD.
  repeat (zcase; [lia|]). cbn [orb]. fold cfg. unfold find_best_bag. cbn [best_bag_from bags]. oreduce.
  cbn [option_map]. repeat (zcase; [lia|]). rewrite Hb. oreduce. unfold finalize. simpl. by rewrite Hit.
Qed.

Lemma zero_signatures_still_packaged_witness :
  let item := mkSample true 0 250 None in compute_optimal_packages (E:=Empty_set) [item] 0 0 = Ok [[item]].
Proof.
  apply zero_signatures_still_packaged; simpl; done.
Defined.
