(* ===== verification/Requests.v ===== *)
(** * Deposit and withdrawal requests, fees and request filters
    ([signer/src/bitcoin/utxo.rs], [signer/src/storage/model.rs]) *)

From S2P Require Import Prelude Types Consts Bitcoin SignerState Packaging.

(** ** Database records ([storage/model.rs]) *)
Record QualifiedRequestId := mkQualifiedRequestId {
  q_request_id : Z;
  q_txid : Txid;
  q_block_hash : BlockHash }.
#[global] Instance QualifiedRequestId_eq_dec : EqDecision QualifiedRequestId.
Proof. solve_decision. Defined.

Record ModelDepositRequest := mkModelDeposit {
  md_txid : Txid;
  md_output_index : Z;
  md_spend_script : Script;
  md_reclaim_script_hash : Z;
  md_recipient : list Z;
  md_amount : Z;
  md_max_fee : Z;
  md_lock_time : Z;
  md_signers_public_key : XOnlyPublicKey;
  md_sender_script_pub_keys : list Script }.
Definition md_outpoint (r : ModelDepositRequest) : OutPoint := mkOutPoint (md_txid r) (md_output_index r).

Record ModelWithdrawalRequest := mkModelWithdrawal {
  mw_request_id : Z;
  mw_txid : Txid;
  mw_block_hash : BlockHash;
  mw_recipient : Script;
  mw_amount : Z;
  mw_max_fee : Z;
  mw_sender_address : list Z;
  mw_bitcoin_block_height : Z }.
Definition mw_qualified_id (r : ModelWithdrawalRequest) : QualifiedRequestId :=
  mkQualifiedRequestId (mw_request_id r) (mw_txid r) (mw_block_hash r).

(** *** Votes *)
Record SignerVote := mkSignerVote { signer_public_key : PublicKey; is_accepted : option bool }.
(** [SignerVotes::from]: sorted by public key. *)
Definition signer_votes_from (votes : list SignerVote) : list SignerVote :=
  sort_by_key (fun v => [[signer_public_key v]]) votes.
(** [BitArray::set] on a bitmap whose bit [i] is bit [i] of a [u128]. *)
Definition bitmap_set (b : Z) (i : Z) (v : bool) : Z := if v then Z.setbit b i else Z.clearbit b i.
Definition signer_votes_bitmap (votes : list SignerVote) : Z :=
  foldl (fun b '(index, vote) => bitmap_set b index (negb (default false (is_accepted vote))))
    0 (take (Z.to_nat (Z.min 128 MAX_KEYS)) (enumerate votes)).

(** ** Fees *)
Record Fees := mkFees { fees_total : Z; fees_vsize : Z }.

Inductive FeesError := InvalidLastFee (total vsize : Z).
Definition fees_new (total vsize : Z) : outcome FeesError Fees :=
  if MAX_MONEY <? total then Err (InvalidLastFee total vsize) else
  if vsize =? 0 then Err (InvalidLastFee total vsize) else
  if MAX_BITCOIN_BLOCK_VSIZE <? vsize then Err (InvalidLastFee total vsize) else
  Ok (mkFees total vsize).
Definition fees_rate (f : Fees) : f64 := f64_div (f64_of_Z (fees_total f)) (f64_of_Z (fees_vsize f)).

Definition DEFAULT_INCREMENTAL_RELAY_FEE_RATE : f64 := f64_div (f64_of_Z 1000) (f64_of_Z 1000).
Definition SOLO_DEPOSIT_TX_VSIZE : f64 := f64_of_Z 249.
Definition BASE_WITHDRAWAL_TX_VSIZE : f64 := f64_of_Z MAX_BASE_TX_VSIZE.
(** The literal [0.001]: the correctly rounded quotient. *)
Definition SATS_PER_VBYTE_INCREMENT : f64 := f64_div (f64_of_Z 1) (f64_of_Z 1000).

Definition compute_transaction_fee (tx_vsize fee_rate : f64) (last_fees : option Fees) : Z :=
  match last_fees with
  | Some fees =>
      let rate := fees_rate fees in
      let minimum_fee_rate := f64_max fee_rate (f64_add rate (f64_mul rate SATS_PER_VBYTE_INCREMENT)) in
      let fee_increment := f64_mul tx_vsize DEFAULT_INCREMENTAL_RELAY_FEE_RATE in
      f64_as_u64 (f64_ceil (f64_max (f64_add (f64_of_Z (fees_total fees)) fee_increment)
                                    (f64_mul tx_vsize minimum_fee_rate)))
  | None => f64_as_u64 (f64_ceil (f64_mul tx_vsize fee_rate))
  end.

(** ** Requests ([utxo.rs]) *)
Record DepositRequest := mkDepositRequest {
  dr_outpoint : OutPoint;
  dr_max_fee : Z;
  dr_signer_bitmap : Z;
  dr_amount : Z;
  dr_deposit_script : Script;
  dr_reclaim_script_hash : Z;
  dr_signers_public_key : XOnlyPublicKey }.

Record WithdrawalRequest := mkWithdrawalRequest {
  wr_request_id : Z;
  wr_txid : Txid;
  wr_block_hash : BlockHash;
  wr_amount : Z;
  wr_max_fee : Z;
  wr_script_pubkey : Script;
  wr_signer_bitmap : Z }.

#[global] Instance DepositRequest_eq_dec : EqDecision DepositRequest.
Proof. solve_decision. Defined.
#[global] Instance WithdrawalRequest_eq_dec : EqDecision WithdrawalRequest.
Proof. solve_decision. Defined.

Definition deposit_from_model (request : ModelDepositRequest) (votes : list SignerVote) : DepositRequest :=
  mkDepositRequest (md_outpoint request) (md_max_fee request) (signer_votes_bitmap votes) (md_amount request)
    (md_spend_script request) (md_reclaim_script_hash request) (md_signers_public_key request).
Definition withdrawal_from_model (request : ModelWithdrawalRequest) (votes : list SignerVote) : WithdrawalRequest :=
  mkWithdrawalRequest (mw_request_id request) (mw_txid request) (mw_block_hash request) (mw_amount request)
    (mw_max_fee request) (mw_recipient request) (signer_votes_bitmap votes).
Definition wr_qualified_id (r : WithdrawalRequest) : QualifiedRequestId :=
  mkQualifiedRequestId (wr_request_id r) (wr_txid r) (wr_block_hash r).

Inductive RequestRef :=
| Deposit (req : DepositRequest)
| Withdrawal (req : WithdrawalRequest).
#[global] Instance RequestRef_eq_dec : EqDecision RequestRef.
Proof. solve_decision. Defined.

Definition as_withdrawal (r : RequestRef) : option WithdrawalRequest :=
  match r with Withdrawal req => Some req | _ => None end.
Definition as_deposit (r : RequestRef) : option DepositRequest :=
  match r with Deposit req => Some req | _ => None end.
Definition signer_bitmap (r : RequestRef) : Z :=
  match r with Deposit req => dr_signer_bitmap req | Withdrawal req => wr_signer_bitmap req end.

(** *** The derived [Ord]: [Deposit < Withdrawal], then field by field. A
    bitmap is compared bit by bit from bit 0. *)
Definition bitmap_bits (b : Z) : list Z := map (fun i => if Z.testbit b i then 1 else 0) (seqZ 0 128).
Definition deposit_key (d : DepositRequest) : okey :=
  [[op_txid (dr_outpoint d)]; [op_vout (dr_outpoint d)]; [dr_max_fee d]; bitmap_bits (dr_signer_bitmap d);
   [dr_amount d]; dr_deposit_script d; [dr_reclaim_script_hash d]; [dr_signers_public_key d]].
Definition withdrawal_key (w : WithdrawalRequest) : okey :=
  [[wr_request_id w]; [wr_txid w]; [wr_block_hash w]; [wr_amount w]; [wr_max_fee w]; wr_script_pubkey w;
   bitmap_bits (wr_signer_bitmap w)].
Definition request_key (r : RequestRef) : okey :=
  match r with Deposit d => [0] :: deposit_key d | Withdrawal w => [1] :: withdrawal_key w end.

(** [Requests::new] *)
Definition requests_new (request_refs : list RequestRef) : list RequestRef := sort_by_key request_key request_refs.

(** The NUMS point used for the key path of deposits. *)
Definition NUMS_X_COORDINATE : list Z :=
  [80; 146; 155; 116; 193; 160; 73; 84; 183; 139; 75; 96; 53; 233; 122; 94;
   7; 138; 90; 15; 40; 236; 150; 213; 71; 191; 238; 154; 206; 128; 58; 192].
Definition UNSPENDABLE_TAPROOT_KEY : XOnlyPublicKey := foldl (fun acc b => acc * 256 + b) 0 NUMS_X_COORDINATE.

Section Requests.
Context `{BitcoinLib}.

Definition construct_witness_data (d : DepositRequest) (signature : list Z) : list (list Z) :=
  [signature; dr_deposit_script d;
   tap_control_block UNSPENDABLE_TAPROOT_KEY (dr_deposit_script d) (dr_reclaim_script_hash d)].
Definition deposit_as_tx_input (d : DepositRequest) (signature : list Z) : TxIn :=
  mkTxIn (dr_outpoint d) (construct_witness_data d signature).
Definition deposit_as_tx_out (d : DepositRequest) : TxOut :=
  let merkle_root := tap_merkle_root UNSPENDABLE_TAPROOT_KEY (dr_deposit_script d) (dr_reclaim_script_hash d) in
  mkTxOut (dr_amount d) (new_p2tr UNSPENDABLE_TAPROOT_KEY merkle_root).
Definition withdrawal_as_tx_output (w : WithdrawalRequest) : TxOut := mkTxOut (wr_amount w) (wr_script_pubkey w).

(** [impl Weighted] for each request type. *)
#[global] Instance deposit_weighted : Weighted DepositRequest := {|
  needs_signature := fun _ => true;
  votes := dr_signer_bitmap;
  vsize := fun d => to_vbytes_ceil (segwit_weight (deposit_as_tx_input d dummy_signature));
  withdrawal_id := fun _ => None;
  presign_weight := fun d =>
    saturating_add 64 (outpoint_encoded_len (dr_outpoint d)) PROTOBUF_ENCODED_SIZE_OVERHEAD |}.
#[global] Instance withdrawal_weighted : Weighted WithdrawalRequest := {|
  needs_signature := fun _ => false;
  votes := wr_signer_bitmap;
  vsize := fun w => to_vbytes_ceil (txout_weight (withdrawal_as_tx_output w));
  withdrawal_id := fun w => Some (wr_request_id w);
  presign_weight := fun w =>
    saturating_add 64 (qualified_id_encoded_len (wr_request_id w, wr_txid w, wr_block_hash w))
      PROTOBUF_ENCODED_SIZE_OVERHEAD |}.
#[global] Instance request_weighted : Weighted RequestRef := {|
  needs_signature := fun r =>
    match r with Deposit req => needs_signature req | Withdrawal req => needs_signature req end;
  votes := fun r => match r with Deposit req => votes req | Withdrawal req => votes req end;
  vsize := fun r => match r with Deposit req => vsize req | Withdrawal req => vsize req end;
  withdrawal_id := fun r => option_map wr_request_id (as_withdrawal r);
  presign_weight := fun r =>
    match r with Deposit req => presign_weight req | Withdrawal req => presign_weight req end |}.

Definition tx_ins (reqs : list RequestRef) : list TxIn :=
  omap (fun req => option_map (fun d => deposit_as_tx_input d dummy_signature) (as_deposit req)) reqs.
Definition tx_outs (reqs : list RequestRef) : list TxOut :=
  omap (fun req => option_map withdrawal_as_tx_output (as_withdrawal req)) reqs.

(** ** Filters ([RequestPreprocessor]) *)
Record RequestPreprocessor := mkPreprocessor {
  rp_sbtc_limits : SbtcLimits;
  rp_fee_rate : f64;
  rp_last_fees : option Fees }.

(** [Amount::checked_add] is a [u64] addition. The new amount to mint is the
    state threaded by [scan]. *)
Definition validate_deposit_amount (rp : RequestPreprocessor) (amount_to_mint : Z) (req : DepositRequest)
    : Z * option RequestRef :=
  let minimum_fee := compute_transaction_fee SOLO_DEPOSIT_TX_VSIZE (rp_fee_rate rp) (rp_last_fees rp) in
  let is_fee_valid := minimum_fee <=? Z.min (dr_max_fee req) (dr_amount req) in
  let is_above_dust := DEPOSIT_DUST_LIMIT <=? saturating_sub (dr_amount req) minimum_fee in
  let is_above_per_deposit_minimum := per_deposit_minimum (rp_sbtc_limits rp) <=? dr_amount req in
  let is_within_per_deposit_cap := dr_amount req <=? per_deposit_cap (rp_sbtc_limits rp) in
  let is_within_max_mintable_cap :=
    match checked_add 64 amount_to_mint (dr_amount req) with
    | Some new_amount => new_amount <=? max_mintable_cap (rp_sbtc_limits rp)
    | None => false
    end in
  if is_fee_valid && is_above_dust && is_above_per_deposit_minimum && is_within_per_deposit_cap
     && is_within_max_mintable_cap
  then (amount_to_mint + dr_amount req, Some (Deposit req))
  else (amount_to_mint, None).

Definition validate_withdrawal_amounts (rp : RequestPreprocessor) (withdrawal_amounts : Z)
    (req : WithdrawalRequest) : Z * option RequestRef :=
  let rolling_limits := rolling_withdrawal_limits (rp_sbtc_limits rp) in
  let new_cumulative_total := saturating_add 64 withdrawal_amounts (wr_amount req) in
  let is_within_rolling_limits := new_cumulative_total <=? rolling_cap rolling_limits in
  let is_within_cap := wr_amount req <=? per_withdrawal_cap (rp_sbtc_limits rp) in
  let is_above_minimum := minimal_non_dust (wr_script_pubkey req) <=? wr_amount req in
  let tx_vsize := f64_add BASE_WITHDRAWAL_TX_VSIZE (f64_of_Z (vsize req)) in
  let is_fee_valid := compute_transaction_fee tx_vsize (rp_fee_rate rp) (rp_last_fees rp) <=? wr_max_fee req in
  if is_within_rolling_limits && is_fee_valid && is_within_cap && is_above_minimum
  then (new_cumulative_total, Some (Withdrawal req))
  else (withdrawal_amounts, None).

Definition filter_deposits (rp : RequestPreprocessor) (deposits : list DepositRequest) : list RequestRef :=
  omap id (scan (validate_deposit_amount rp) 0 deposits).

Definition preprocess_withdrawals (rp : RequestPreprocessor) (requests : list WithdrawalRequest)
    : list RequestRef :=
  let withdrawn_total := rolling_withdrawn_total (rolling_withdrawal_limits (rp_sbtc_limits rp)) in
  let reqs := sort_by_key request_key (map Withdrawal requests) in
  omap id (scan (validate_withdrawal_amounts rp) withdrawn_total (omap as_withdrawal reqs)).

End Requests.

(** ** Lemmas *)
Section RequestLemmas.
Context `{BitcoinLib}.

(** The conditions each deposit must meet alone, and the running total. *)
Definition deposit_acceptable (rp : RequestPreprocessor) (d : DepositRequest) : bool :=
  let minimum_fee := compute_transaction_fee SOLO_DEPOSIT_TX_VSIZE (rp_fee_rate rp) (rp_last_fees rp) in
  (minimum_fee <=? Z.min (dr_max_fee d) (dr_amount d)) && (minimum_fee + DEPOSIT_DUST_LIMIT <=? dr_amount d) &&
  (per_deposit_minimum (rp_sbtc_limits rp) <=? dr_amount d) && (dr_amount d <=? per_deposit_cap (rp_sbtc_limits rp)).
Definition minted (l : list RequestRef) : Z := zsum (map dr_amount (omap as_deposit l)).

Definition withdrawal_acceptable (rp : RequestPreprocessor) (w : WithdrawalRequest) : bool :=
  let tx_vsize := f64_add BASE_WITHDRAWAL_TX_VSIZE (f64_of_Z (vsize w)) in
  (compute_transaction_fee tx_vsize (rp_fee_rate rp) (rp_last_fees rp) <=? wr_max_fee w) &&
  (wr_amount w <=? per_withdrawal_cap (rp_sbtc_limits rp)) && (minimal_non_dust (wr_script_pubkey w) <=? wr_amount w).
Definition withdrawn (l : list RequestRef) : Z := zsum (map wr_amount (omap as_withdrawal l)).

(** A [scan] whose state is a function of the output so far. *)
Lemma scan_app {A B S} (f : S -> A -> S * B) s l k :
  scan f s (l ++ k) = scan f s l ++ scan f (foldl (fun s a => (f s a).1) s l) k.
Proof.
  revert s. induction l as [|a l IH]; intros s; simpl; [done|].
  destruct (f s a) as [s' b] eqn:Hf. simpl. by rewrite IH.
Qed.

Lemma validate_deposit_amount_eq rp m d : 0 <= m -> 0 <= dr_amount d -> max_mintable_cap (rp_sbtc_limits rp) < 2 ^ 64 ->
  validate_deposit_amount rp m d =
    if deposit_acceptable rp d && (m + dr_amount d <=? max_mintable_cap (rp_sbtc_limits rp))
    then (m + dr_amount d, Some (Deposit d)) else (m, None).
Proof.
  intros Hm Ha Hcap. unfold validate_deposit_amount, deposit_acceptable.
  set (fee := compute_transaction_fee _ _ _).
  assert (0 <= fee).
  { unfold fee, compute_transaction_fee. destruct (rp_last_fees rp); apply f64_as_u64_range. }
  assert ((DEPOSIT_DUST_LIMIT <=? saturating_sub (dr_amount d) fee) = (fee + DEPOSIT_DUST_LIMIT <=? dr_amount d)) as ->.
  { unfold saturating_sub, DEPOSIT_DUST_LIMIT. destruct (Z.leb_spec (fee + 546) (dr_amount d)); zcase; lia. }
  assert (match checked_add 64 m (dr_amount d) with
          | Some new_amount => new_amount <=? max_mintable_cap (rp_sbtc_limits rp) | None => false end
          = (m + dr_amount d <=? max_mintable_cap (rp_sbtc_limits rp))) as ->; [|done].
  unfold checked_add. destruct (Z.ltb_spec (m + dr_amount d) (2 ^ 64)); [done|]. zcase; [lia|done].
Qed.

Lemma scan_deposits_state rp ds : Forall (fun d => 0 <= dr_amount d) ds ->
  max_mintable_cap (rp_sbtc_limits rp) < 2 ^ 64 ->
  0 <= minted (filter_deposits rp ds) /\
  foldl (fun s a => (validate_deposit_amount rp s a).1) 0 ds = minted (filter_deposits rp ds).
Proof.
  intros Hds Hcap. induction ds as [|d ds IH] using rev_ind; [done|].
  apply Forall_app in Hds as [Hds [Hd _]%Forall_cons]. destruct (IH Hds) as [Hnn Hst].
  unfold filter_deposits in *. rewrite foldl_app, scan_app, omap_app, Hst. simpl.
  unfold minted in *. rewrite omap_app, map_app, zsum_app.
  rewrite validate_deposit_amount_eq by done. destruct (_ && _); simpl; lia.
Qed.

Lemma filter_deposits_snoc rp ds d : Forall (fun d => 0 <= dr_amount d) (ds ++ [d]) ->
  max_mintable_cap (rp_sbtc_limits rp) < 2 ^ 64 ->
  filter_deposits rp (ds ++ [d]) = filter_deposits rp ds ++
    if deposit_acceptable rp d &&
       (minted (filter_deposits rp ds) + dr_amount d <=? max_mintable_cap (rp_sbtc_limits rp))
    then [Deposit d] else [].
Proof.
  intros [Hds [Hd _]%Forall_cons]%Forall_app Hcap. destruct (scan_deposits_state rp ds Hds Hcap) as [Hnn Hst].
  unfold filter_deposits at 1. rewrite scan_app, omap_app, Hst. fold (filter_deposits rp ds). f_equal. simpl.
  rewrite validate_deposit_amount_eq by done. by destruct (_ && _).
Qed.

(** The same for withdrawals, from the amount already withdrawn. *)
Definition accept_withdrawals (rp : RequestPreprocessor) (total : Z) (ws : list WithdrawalRequest) : list RequestRef :=
  omap id (scan (validate_withdrawal_amounts rp) total ws).

Lemma validate_withdrawal_amounts_eq rp m w :
  validate_withdrawal_amounts rp m w =
    if withdrawal_acceptable rp w &&
       (saturating_add 64 m (wr_amount w) <=? rolling_cap (rolling_withdrawal_limits (rp_sbtc_limits rp)))
    then (saturating_add 64 m (wr_amount w), Some (Withdrawal w)) else (m, None).
Proof.
  unfold validate_withdrawal_amounts, withdrawal_acceptable. cbv zeta.
  destruct (saturating_add _ _ _ <=? _), (compute_transaction_fee _ _ _ <=? _), (_ <=? per_withdrawal_cap _),
    (minimal_non_dust _ <=? _); done.
Qed.

Lemma accept_withdrawals_sub rp : forall ws total, exists ws',
  accept_withdrawals rp total ws = map Withdrawal ws' /\ ws' `sublist_of` ws /\
  Forall (fun w => withdrawal_acceptable rp w = true) ws' /\
  (ws' = [] \/ foldl (fun m w => saturating_add 64 m (wr_amount w)) total ws' <=
                 rolling_cap (rolling_withdrawal_limits (rp_sbtc_limits rp))).
Proof.
  induction ws as [|w ws IH]; intros total; [by exists []; split_and!; auto|].
  unfold accept_withdrawals. cbn [scan]. rewrite validate_withdrawal_amounts_eq.
  destruct (_ && _) eqn:Hok; cbn [omap list_omap id].
  - destruct (IH (saturating_add 64 total (wr_amount w))) as (ws' & Heq & Hsub & Hall & Hsum).
    unfold accept_withdrawals in Heq. change (list_omap _ _ id) with (omap (M:=list) (id (A:=option RequestRef))).
    rewrite Heq. exists (w :: ws'). apply andb_true_iff in Hok as [Hacc Hcap]. zbool. split_and!; [done| |by constructor|].
    + by apply sublist_skip.
    + right. simpl. destruct Hsum as [->|?]; done.
  - destruct (IH total) as (ws' & Heq & Hsub & Hall & Hsum). exists ws'. split_and!; [done| |done|done].
    by apply sublist_cons.
Qed.

Lemma saturating_fold ws : forall total, 0 <= total <= u64_max -> Forall (fun w => 0 <= wr_amount w) ws ->
  foldl (fun m w => saturating_add 64 m (wr_amount w)) total ws = Z.min (total + zsum (map wr_amount ws)) u64_max.
Proof.
  induction ws as [|w ws IH]; intros total Ht Hws; simpl; [lia|]. apply Forall_cons in Hws as [Hw Hws].
  assert (0 <= zsum (map wr_amount ws)) by (apply zsum_nonneg; by rewrite Forall_map).
  rewrite IH; [|unfold saturating_add, u64_max in *; lia|done]. unfold saturating_add, u64_max in *. lia.
Qed.

Lemma omap_map_Withdrawal ws : omap as_withdrawal (map Withdrawal ws) = ws.
Proof. induction ws as [|w ws IH]; simpl; [done|]. by f_equal. Qed.
Lemma omap_map_Deposit ds : omap as_deposit (map Deposit ds) = ds.
Proof. induction ds as [|d ds IH]; simpl; [done|]. by f_equal. Qed.

(** A sorted vector of requests has its withdrawals in the order of their ids. *)
Lemma request_key_le_ids w w' : key_le request_key (Withdrawal w) (Withdrawal w') -> wr_request_id w <= wr_request_id w'.
Proof.
  unfold key_le, okey_le. simpl. destruct (wr_request_id w ?= wr_request_id w') eqn:Hc; [| |done].
  - apply Z.compare_eq in Hc. lia.
  - rewrite Z.compare_lt_iff in Hc. lia.
Qed.
Lemma sorted_withdrawal_ids rs : StronglySorted (key_le request_key) rs ->
  StronglySorted Z.le (omap withdrawal_id rs).
Proof.
  induction 1 as [|r rs Hs IH Hf]; [constructor|]. destruct r as [d|w]; cbn; [done|].
  constructor; [done|]. apply Forall_forall. intros id Hid. apply list_elem_of_omap in Hid as ([d|w'] & Hin & Hw); [done|].
  simpl in Hw. simplify_eq. rewrite Forall_forall in Hf. by apply request_key_le_ids, Hf.
Qed.
Lemma item_ok_request `{!BitcoinWeights} r :
  (forall w, r = Withdrawal w -> in_u 64 (wr_request_id w)) -> item_ok r.
Proof.
  intros Hid. pose proof segwit_weight_pos. pose proof txout_weight_pos. pose proof outpoint_len_pos.
  pose proof qualified_id_len_pos. destruct r as [d|w]; constructor.
  - simpl. unfold to_vbytes_ceil. apply div_ceil_nonneg; [lia|]. etrans; [|apply segwit_weight_pos]. lia.
  - simpl. unfold saturating_add, PROTOBUF_ENCODED_SIZE_OVERHEAD.
    specialize (outpoint_len_pos (dr_outpoint d)). lia.
  - done.
  - simpl. unfold to_vbytes_ceil. apply div_ceil_nonneg; [lia|]. etrans; [|apply txout_weight_pos]. lia.
  - simpl. unfold saturating_add, PROTOBUF_ENCODED_SIZE_OVERHEAD.
    specialize (qualified_id_len_pos (wr_request_id w, wr_txid w, wr_block_hash w)). lia.
  - simpl. intros id [= <-]. by apply Hid.
Qed.

(** The withdrawals among the filtered requests come from the input. *)
Lemma omap_id_scan {S A B} (f : S -> A -> S * option B) (g : A -> B) :
  (forall s a b, (f s a).2 = Some b -> b = g a) ->
  forall l s b, b ∈ omap id (scan f s l) -> exists a, a ∈ l /\ b = g a.
Proof.
  intros Hf. induction l as [|a l IH]; intros s b Hb; simpl in Hb; [set_solver|].
  destruct (f s a) as [s' [b'|]] eqn:He; simpl in Hb.
  - apply elem_of_cons in Hb as [->|Hb]; [exists a; split; [left|]; apply (Hf s); by rewrite He|].
    destruct (IH s' b Hb) as (a' & ? & ?). exists a'. split; [by right|done].
  - destruct (IH s' b Hb) as (a' & ? & ?). exists a'. split; [by right|done].
Qed.

Lemma items_withdrawals rp ds ws w :
  Withdrawal w ∈ filter_deposits rp ds ++ preprocess_withdrawals rp ws -> w ∈ ws.
Proof.
  intros [Hw|Hw]%elem_of_app.
  - apply (omap_id_scan _ Deposit) in Hw as (d & _ & ?); [done|]. intros s a b.
    unfold validate_deposit_amount. destruct (_ && _); simpl; congruence.
  - apply (omap_id_scan _ Withdrawal) in Hw as (w' & Hw & [= ->]).
    + apply list_elem_of_omap in Hw as (r & Hr & Hw). rewrite sort_by_key_perm in Hr.
      apply list_elem_of_fmap in Hr as (w0 & -> & ?). by injection Hw as ->.
    + intros s a b. unfold validate_withdrawal_amounts. destruct (_ && _); simpl; congruence.
Qed.

End RequestLemmas.

(** Sample requests for the witnesses. *)
Definition demo_limits : SbtcLimits :=
  mkSbtcLimits None (Some 1000) (Some 100000) (Some 50000) (Some 100) (Some 90000) (Some 20000) (Some 150000).
Definition demo_rp : RequestPreprocessor := mkPreprocessor demo_limits (f64_of_Z 10) (Some (mkFees 2000 300)).
Definition demo_deposit (n amount : Z) : DepositRequest :=
  mkDepositRequest (mkOutPoint n 0) 20000 0 amount [117; 172] 7 9.
Definition demo_withdrawal (n amount : Z) : WithdrawalRequest :=
  mkWithdrawalRequest n (100 + n) 5 amount 20000 [81; 32] 0.

(** ** Properties *)

(** [filter_deposits] keeps, in order, exactly the deposits that meet the
    fee, dust, minimum and cap conditions and still fit under the mintable cap
    after those kept before them; the kept amounts never exceed that cap. *)
Theorem filter_deposits_greedy `{BitcoinLib} rp ds :
  Forall (fun d => 0 <= dr_amount d) ds -> max_mintable_cap (rp_sbtc_limits rp) < 2 ^ 64 ->
  exists ds', filter_deposits rp ds = map Deposit ds' /\ ds' `sublist_of` ds /\
    Forall (fun d => deposit_acceptable rp d = true) ds' /\
    (ds' = [] \/ zsum (map dr_amount ds') <= max_mintable_cap (rp_sbtc_limits rp)) /\
    (forall pre d post, ds = pre ++ d :: post -> deposit_acceptable rp d = true ->
       minted (filter_deposits rp pre) + dr_amount d <= max_mintable_cap (rp_sbtc_limits rp) -> d ∈ ds').
Proof.
  intros Hds Hcap. induction ds as [|d ds IH] using rev_ind.
  { exists []. split_and!; [done..|by left|]. intros [|? ?] ? ? ?; done. }
  pose proof Hds as [Hds' _]%Forall_app. destruct (IH Hds') as (ds' & Heq & Hsub & Hall & Hsum & Hgreedy).
  rewrite (filter_deposits_snoc rp ds d Hds Hcap), Heq.
  assert (minted (map Deposit ds') = zsum (map dr_amount ds')) as Hm by (unfold minted; by rewrite omap_map_Deposit).
  destruct (_ && _) eqn:Hok.
  - apply andb_true_iff in Hok as [Hacc Hfit]. zbool. exists (ds' ++ [d]). rewrite map_app. split_and!; [done| | | |].
    + by apply sublist_app.
    + apply Forall_app. by split; [|apply Forall_singleton].
    + right. rewrite map_app, zsum_app. simpl. lia.
    + intros pre d' post Hpost Ha Hf. apply elem_of_app.
      destruct post as [|x post _] using rev_ind; [apply app_inj_2 in Hpost as [_ [= ->]]; [right; left|done]|].
      rewrite app_comm_cons, app_assoc in Hpost. apply app_inj_2 in Hpost as [-> _]; [|done]. left. by eapply Hgreedy.
  - exists ds'. rewrite app_nil_r. split_and!; [done|by apply sublist_inserts_r|done|done|].
    intros pre d' post Hpost Ha Hf.
    destruct post as [|x post _] using rev_ind.
    + apply app_inj_2 in Hpost as [<- [= <-]]; [|done]. rewrite Heq, Hm in *. rewrite Ha in Hok. simpl in Hok. zbool. lia.
    + rewrite app_comm_cons, app_assoc in Hpost. apply app_inj_2 in Hpost as [-> _]; [|done]. by eapply Hgreedy.
Qed.

Lemma filter_deposits_greedy_witness : let H := demo_bitcoin in
  let ds := [demo_deposit 1 90000; demo_deposit 2 500; demo_deposit 3 80000; demo_deposit 4 60000] in
  exists ds', filter_deposits demo_rp ds = map Deposit ds' /\
    zsum (map dr_amount ds') <= 150000 /\ ds' = [demo_deposit 1 90000; demo_deposit 4 60000].
Proof.
  intros H ds. destruct (filter_deposits_greedy (H:=demo_bitcoin) demo_rp ds) as (ds' & Heq & _ & _ & Hsum & _);
    [by repeat constructor|done|].
  exists ds'. split; [done|]. destruct Hsum as [->|Hsum]; [by vm_compute in Heq|]. split; [done|].
  assert (map Deposit ds' = map Deposit [demo_deposit 1 90000; demo_deposit 4 60000]) as Hm
    by (rewrite <- Heq; by vm_compute).
  apply (f_equal (omap as_deposit)) in Hm. by rewrite !omap_map_Deposit in Hm.
Defined.

(** C33: the coordinator's choice of withdrawals keeps the limits and depends on
    the requests only. Of withdrawals with distinct request ids,
    [preprocess_withdrawals] returns some, in the order of their ids, each meeting
    the fee, cap and dust conditions; with the amount already withdrawn in the
    window they stay within the rolling cap (a cap of [u64::MAX] meaning no
    limit); and the same requests in another order give the same result. *)
Theorem preprocess_withdrawals_limits `{BitcoinLib} rp ws :
  let rolling := rolling_withdrawal_limits (rp_sbtc_limits rp) in
  Forall (fun w => 0 <= wr_amount w) ws -> NoDup (map wr_request_id ws) ->
  in_u 64 (rolling_withdrawn_total rolling) ->
  exists ws', preprocess_withdrawals rp ws = map Withdrawal ws' /\ ws' ⊆+ ws /\
    ssorted (map wr_request_id ws') /\
    Forall (fun w => withdrawal_acceptable rp w = true) ws' /\
    (ws' = [] \/ rolling_cap rolling = u64_max \/ u64_max < rolling_cap rolling \/
     rolling_withdrawn_total rolling + zsum (map wr_amount ws') <= rolling_cap rolling) /\
    (forall ws2, ws ≡ₚ ws2 -> preprocess_withdrawals rp ws2 = preprocess_withdrawals rp ws).
Proof.
  intros rolling Hws Hnd Ht. unfold preprocess_withdrawals. fold rolling.
  set (sorted := sort_by_key request_key (map Withdrawal ws)).
  assert (sorted ≡ₚ map Withdrawal ws) as Hperm by apply sort_by_key_perm.
  assert (omap as_withdrawal sorted ≡ₚ ws) as Hp' by (rewrite Hperm; by rewrite omap_map_Withdrawal).
  destruct (accept_withdrawals_sub rp (omap as_withdrawal sorted) (rolling_withdrawn_total rolling))
    as (ws' & Heq & Hsub & Hall & Hsum).
  assert (omap withdrawal_id sorted = map wr_request_id (omap as_withdrawal sorted)) as Hids.
  { clear. induction sorted as [|[d|w] l IH]; simpl; [done|done|]. by f_equal. }
  assert (ssorted (map wr_request_id (omap as_withdrawal sorted))) as Hs.
  { apply sorted_le_lt; [rewrite <- Hids; apply sorted_withdrawal_ids, sort_by_key_sorted|by rewrite Hp']. }
  exists ws'. split_and!; [done| | |done| |].
  - rewrite <- Hp'. by apply sublist_submseteq.
  - eapply StronglySorted_sublist; [|exact Hs]. by apply (fmap_sublist wr_request_id).
  - destruct Hsum as [->|Hsum]; [by left|]. right. rewrite saturating_fold in Hsum.
    + fold rolling in Hsum. lia.
    + unfold in_u, u64_max in *. lia.
    + eapply Forall_sublist'; [exact Hsub|]. by rewrite Hp'.
  - intros ws2 H2. f_equal. f_equal. f_equal. symmetry. apply sort_by_key_unique; [|by rewrite H2].
    rewrite map_map. simpl. clear -Hnd. induction ws as [|w ws IH]; simpl in *; [constructor|].
    apply NoDup_cons in Hnd as [Hni Hnd]. apply NoDup_cons. split; [|auto].
    intros (w' & [= Hid _ _ _ _ _ _] & Hw')%list_elem_of_fmap. apply Hni. rewrite Hid. by apply list_elem_of_fmap_2.
Qed.

Lemma preprocess_withdrawals_limits_witness : let H := demo_bitcoin in
  let ws := [demo_withdrawal 9 40000; demo_withdrawal 4 30000; demo_withdrawal 7 45000; demo_withdrawal 8 60000] in
  exists ws', preprocess_withdrawals demo_rp ws = map Withdrawal ws' /\ ssorted (map wr_request_id ws') /\
    20000 + zsum (map wr_amount ws') <= 90000 /\
    map wr_request_id (omap as_withdrawal (preprocess_withdrawals demo_rp ws)) = [4; 9].
Proof.
  intros H ws.
  destruct (preprocess_withdrawals_limits (H:=demo_bitcoin) demo_rp ws) as (ws' & Heq & _ & Hs & _ & Hsum & _);
    [by repeat constructor|apply (bool_decide_unpack _); by vm_compute|by vm_compute|].
  exists ws'. split_and!; [done|done| |by vm_compute].
  change (rolling_cap _) with 90000 in Hsum. change (rolling_withdrawn_total _) with 20000 in Hsum.
  destruct Hsum as [->|[Hc|[Hc|Hc]]]; [simpl; lia|by vm_compute in Hc..|done].
Defined.

(** The bitmap made from the signers' votes has bit [i] set exactly when
    the [i]-th signer, in the order of the public keys, did not vote in favour;
    a missing vote counts as a vote against. *)
Theorem signer_votes_bitmap_spec (votes : list SignerVote) i :
  0 <= i -> Z.testbit (signer_votes_bitmap (signer_votes_from votes)) i = true <->
    i < 128 /\ exists v, signer_votes_from votes !! Z.to_nat i = Some v /\ is_accepted v <> Some true.
Proof.
  generalize (signer_votes_from votes) as l. clear votes. intros l Hi. unfold signer_votes_bitmap.
  change (Z.to_nat (Z.min 128 MAX_KEYS)) with 128%nat.
  assert (forall l k b, 0 <= k ->
    Z.testbit (foldl (fun b '(index, vote) => bitmap_set b index (negb (default false (is_accepted vote)))) b
                 (enumerate_from k l)) i = true <->
    (exists v, k <= i /\ l !! Z.to_nat (i - k) = Some v /\ is_accepted v <> Some true) \/
    (~ (k <= i < k + zlen l) /\ Z.testbit b i = true)) as Hgen.
  { clear l. induction l as [|v l IH]; intros k b Hk; cbn [foldl enumerate_from].
    - rewrite zlen_nil. split; [intros; right; split; [lia|done]|intros [(v & ? & ? & ?)|[_ ?]]; done].
    - rewrite IH by lia. rewrite zlen_cons. pose proof (zlen_nonneg l).
      assert (Z.testbit (bitmap_set b k (negb (default false (is_accepted v)))) i =
              if decide (i = k) then negb (default false (is_accepted v)) else Z.testbit b i) as ->.
      { unfold bitmap_set. case_decide as Hd; [subst|]; destruct (negb _).
        - by rewrite Z.setbit_eq.
        - by rewrite Z.clearbit_eq.
        - by rewrite Z.setbit_neq by lia.
        - by rewrite Z.clearbit_neq by lia. }
      case_decide as Hd.
      + subst i. rewrite Z.sub_diag. split.
        * intros [(? & ? & _)|[_ Hv]]; [lia|]. left. exists v. split_and!; [lia|done|].
          by destruct (is_accepted v) as [[]|].
        * intros [(v' & _ & [= ->] & Hv)|[? _]]; [|lia]. right. split; [lia|].
          by destruct (is_accepted v') as [[]|].
      + split.
        * intros [(v' & ? & Hl & ?)|[? ?]]; [left; exists v'|right; split; [lia|done]]. split_and!; [lia| |done].
          by replace (Z.to_nat (i - k)) with (S (Z.to_nat (i - (k + 1)))) by lia.
        * intros [(v' & ? & Hl & ?)|[? ?]]; [left; exists v'|right; split; [lia|done]]. split_and!; [lia| |done].
          by replace (Z.to_nat (i - k)) with (S (Z.to_nat (i - (k + 1)))) in Hl by lia. }
  assert (take 128 (enumerate l) = enumerate_from 0 (take 128 l)) as ->.
  { unfold enumerate. generalize 128%nat 0. clear. intros n. revert l. induction n as [|n IH]; intros [|v l] z; simpl;
      [done..|]. by rewrite IH. }
  rewrite Hgen by done. rewrite Z.testbit_0_l, Z.sub_0_r. split.
  - intros [(v & _ & Hv & ?)|[_ ?]]; [|done]. apply lookup_take_Some in Hv as [? ?]. split; [lia|eauto].
  - intros (? & v & ? & ?). left. exists v. split_and!; [done| |done]. apply lookup_take_Some. split; [done|lia].
Qed.

Lemma signer_votes_bitmap_spec_witness :
  let votes := [mkSignerVote 30 (Some true); mkSignerVote 10 None; mkSignerVote 20 (Some false)] in
  Z.testbit (signer_votes_bitmap (signer_votes_from votes)) 1 = true.
Proof. apply signer_votes_bitmap_spec; [lia|]. split; [lia|]. by exists (mkSignerVote 20 (Some false)). Defined.
