(* ===== verification/Sweep.v ===== *)
(** * Sweep transactions ([signer/src/bitcoin/utxo.rs], second half)

    Building the unsigned sweep transactions of a package, their signature
    hashes, assessing fees of a confirmed sweep, and taking a confirmed sweep
    apart again. Calls into rust-bitcoin go through the class [BitcoinLib]. *)

From S2P Require Import Prelude Types Consts Bitcoin SignerState Leb128 Idpack IdpackCodec Packaging Requests.

(** Errors of this module ([crate::error::Error]). *)
Inductive SweepError :=
| BitcoinNoRequests
| TypeConversion
| OpReturnSizeLimitExceeded (size max_size : Z)
| InvalidAmount (amount : Z)
| IdPackSegmenter (e : SegmenterError)
| PushBytesError
| SighashError
| SbtcTxMalformed
| SbtcTxOpReturnFormatError
| IdPackDecode (e : DecodeError).

(** ** The signers' UTXO *)
Record SignerUtxo := mkSignerUtxo {
  su_outpoint : OutPoint;
  su_amount : Z;
  su_public_key : XOnlyPublicKey }.

Record SignerBtcState := mkSignerBtcState {
  sb_utxo : SignerUtxo;
  sb_fee_rate : f64;
  sb_public_key : XOnlyPublicKey;
  sb_last_fees : option Fees;
  sb_magic_bytes : list Z }.

Record UnsignedTransaction := mkUnsigned {
  ut_requests : list RequestRef;
  ut_tx : Transaction;
  ut_signer_public_key : XOnlyPublicKey;
  ut_signer_utxo : SignerBtcState;
  ut_tx_fee : Z;
  ut_tx_vsize : Z }.

Inductive TxPrevoutType := SignersInput | DepositInput.
Record SignatureHash := mkSignatureHash {
  sh_txid : Txid;
  sh_outpoint : OutPoint;
  sh_sighash : Z;
  sh_prevout_type : TxPrevoutType;
  sh_aggregate_key : XOnlyPublicKey }.
Record SignatureHashes := mkSignatureHashes {
  shs_txid : Txid;
  shs_signer_outpoint : OutPoint;
  shs_signers : Z;
  shs_signers_aggregate_key : XOnlyPublicKey;
  shs_deposits : list (DepositRequest * Z) }.

Definition outpoint_key (o : OutPoint) : okey := [[op_txid o]; [op_vout o]].
Definition deposit_sighashes (s : SignatureHashes) : list SignatureHash :=
  map (fun '(deposit, sighash) =>
         mkSignatureHash (shs_txid s) (dr_outpoint deposit) sighash DepositInput (dr_signers_public_key deposit))
    (sort_by_key (fun x => outpoint_key (dr_outpoint x.1)) (shs_deposits s)).
Definition signer_sighash (s : SignatureHashes) : SignatureHash :=
  mkSignatureHash (shs_txid s) (shs_signer_outpoint s) (shs_signers s) SignersInput (shs_signers_aggregate_key s).

(** [x as i64] of a [u64], and [i64] addition and subtraction. *)
Definition as_i64 (x : Z) : Z := if x <? 2 ^ 63 then x else x - 2 ^ 64.
Definition add_i64 {E} (x y : Z) : outcome E Z :=
  if (- 2 ^ 63 <=? x + y) && (x + y <? 2 ^ 63) then Ok (x + y) else Panic.
(** [x as u64] of an [i64]. *)
Definition i64_as_u64 (x : Z) : Z := x mod 2 ^ 64.

Section Sweep.
Context `{BitcoinLib}.

Definition signers_script_pubkey (k : XOnlyPublicKey) : Script := new_p2tr k None.

(** [Witness::p2tr_key_spend] pushes the signature. *)
Definition signer_as_tx_input (u : SignerUtxo) (signature : list Z) : TxIn := mkTxIn (su_outpoint u) [signature].
Definition signer_new_tx_output (public_key : XOnlyPublicKey) (sats : Z) : TxOut :=
  mkTxOut sats (signers_script_pubkey public_key).
Definition signer_as_tx_output (u : SignerUtxo) : TxOut := signer_new_tx_output (su_public_key u) (su_amount u).

(** ** Building the transaction *)
Definition signer_amount_step (amount : Z) (req : RequestRef) : outcome SweepError Z :=
  match req with
  | Deposit req => add_i64 amount (as_i64 (dr_amount req))
  | Withdrawal req => add_i64 amount (- as_i64 (wr_amount req))
  end.
Definition compute_signer_amount (reqs : list RequestRef) (state : SignerBtcState) : outcome SweepError Z :=
  amount ← ofold signer_amount_step (as_i64 (su_amount (sb_utxo state))) reqs;
  if amount <? 0 then Err (InvalidAmount amount) else mret (i64_as_u64 amount).

(** [PushBytesBuf::extend_from_slice] and [push]: at most [2^32 - 1] bytes. *)
Definition push_bytes_extend (data more : list Z) : outcome SweepError (list Z) :=
  if zlen (data ++ more) <? 2 ^ 32 then mret (data ++ more) else Err PushBytesError.

Definition new_op_return_output (reqs : list RequestRef) (state : SignerBtcState) : outcome SweepError TxOut :=
  data ← push_bytes_extend [] (sb_magic_bytes state);
  data ← push_bytes_extend data [OP_RETURN_VERSION];
  let withdrawal_ids := omap withdrawal_id reqs in
  data ← match withdrawal_ids with
         | [] => mret data
         | _ =>
             segments ← map_err IdPackSegmenter (package withdrawal_ids);
             encoded ← infallible (encode segments);
             push_bytes_extend data encoded
         end;
  if OP_RETURN_MAX_SIZE <? zlen data then Err (OpReturnSizeLimitExceeded (zlen data) OP_RETURN_MAX_SIZE) else
  mret (mkTxOut 0 (new_op_return data)).

Definition new_transaction (reqs : list RequestRef) (state : SignerBtcState) : outcome SweepError Transaction :=
  let signature := dummy_signature in
  let signer_input := signer_as_tx_input (sb_utxo state) signature in
  signer_output_sats ← compute_signer_amount reqs state;
  let signer_output := signer_new_tx_output (sb_public_key state) signer_output_sats in
  op_return ← new_op_return_output reqs state;
  mret (mkTransaction (signer_input :: tx_ins reqs) (signer_output :: op_return :: tx_outs reqs)).

Definition adjust_amounts (tx : Transaction) (tx_fee : Z) : Transaction :=
  match tx_output tx with
  | utxo_out :: outs =>
      let signers_amount := saturating_sub (txo_value utxo_out) tx_fee in
      mkTransaction (tx_input tx) (mkTxOut signers_amount (txo_script utxo_out) :: outs)
  | [] => tx
  end.

Definition new_stub (requests : list RequestRef) (state : SignerBtcState) : outcome SweepError UnsignedTransaction :=
  match requests with
  | [] => Err BitcoinNoRequests
  | _ =>
      tx ← new_transaction requests state;
      let tx_vsize := transaction_vsize tx in
      if 2 ^ 32 <=? tx_vsize then Err TypeConversion else
      let tx_fee := compute_transaction_fee (f64_of_Z tx_vsize) (sb_fee_rate state) (sb_last_fees state) in
      let tx := adjust_amounts tx tx_fee in
      mret (mkUnsigned requests tx (sb_public_key state) state tx_fee tx_vsize)
  end.

Definition reset_witness_data (u : UnsignedTransaction) : UnsignedTransaction :=
  let tx := mkTransaction (map (fun tx_in => mkTxIn (previous_output tx_in) []) (tx_input (ut_tx u)))
              (tx_output (ut_tx u)) in
  mkUnsigned (ut_requests u) tx (ut_signer_public_key u) (ut_signer_utxo u) (ut_tx_fee u) (ut_tx_vsize u).

Definition unsigned_new (requests : list RequestRef) (state : SignerBtcState) : outcome SweepError UnsignedTransaction :=
  unsigned ← new_stub requests state;
  mret (reset_witness_data unsigned).

Definition new_signer_utxo {E} (u : UnsignedTransaction) : outcome E SignerUtxo :=
  out ← idx (tx_output (ut_tx u)) 0;
  mret (mkSignerUtxo (mkOutPoint (compute_txid (ut_tx u)) 0) (txo_value out) (ut_signer_public_key u)).

(** [u64] sums, which panic on overflow. *)
Definition usum (l : list Z) : outcome SweepError Z := ofold (add_u 64) 0 l.
Definition input_amounts (u : UnsignedTransaction) : outcome SweepError Z :=
  usum (map dr_amount (omap as_deposit (ut_requests u)) ++ [su_amount (sb_utxo (ut_signer_utxo u))]).
Definition output_amounts (u : UnsignedTransaction) : outcome SweepError Z :=
  usum (map txo_value (tx_output (ut_tx u))).

(** ** Signature hashes *)
Definition deposit_sighash (u : UnsignedTransaction) (prevouts : list TxOut) (w : Z * DepositRequest)
    : outcome SweepError (DepositRequest * Z) :=
  let '(input_index, deposit) := w in
  index ← add_u 64 input_index 1;
  match taproot_sighash (ut_tx u) (Z.to_nat index) prevouts (ScriptSpend (dr_deposit_script deposit)) with
  | Some sighash => mret (deposit, sighash)
  | None => Err SighashError
  end.
(** [collect::<Result<Vec<_>, _>>]. *)
Definition collect {E A B} (f : A -> outcome E B) (l : list A) : outcome E (list B) :=
  ofold (fun acc a => b ← f a; mret (acc ++ [b])) [] l.
Definition construct_digests (u : UnsignedTransaction) : outcome SweepError SignatureHashes :=
  let deposit_requests := omap as_deposit (ut_requests u) in
  let input_utxos := signer_as_tx_output (sb_utxo (ut_signer_utxo u)) :: map deposit_as_tx_out deposit_requests in
  signer_sighash ← ok_or (taproot_sighash (ut_tx u) 0 input_utxos KeySpend) SighashError;
  deposit_sighashes ← collect (deposit_sighash u input_utxos) (enumerate deposit_requests);
  mret (mkSignatureHashes (compute_txid (ut_tx u)) (su_outpoint (sb_utxo (ut_signer_utxo u))) signer_sighash
          (su_public_key (sb_utxo (ut_signer_utxo u))) deposit_sighashes).

(** ** Transaction packages *)
Record SbtcRequests := mkSbtcRequests {
  sr_deposits : list DepositRequest;
  sr_withdrawals : list WithdrawalRequest;
  sr_signer_state : SignerBtcState;
  sr_accept_threshold : Z;
  sr_num_signers : Z;
  sr_sbtc_limits : SbtcLimits;
  sr_max_deposits_per_bitcoin_tx : Z }.

Definition reject_capacity (s : SbtcRequests) : Z := saturating_sub (sr_num_signers s) (sr_accept_threshold s).

(** The closure given to [scan]: the state moves to the new UTXO. *)
Definition construct_step (st : SignerBtcState * list UnsignedTransaction) (request_refs : list RequestRef)
    : outcome SweepError (SignerBtcState * list UnsignedTransaction) :=
  let '(state, txs) := st in
  let requests := requests_new request_refs in
  tx ← unsigned_new requests state;
  utxo ← new_signer_utxo tx;
  mret (mkSignerBtcState utxo (sb_fee_rate state) (sb_public_key state) None (sb_magic_bytes state), txs ++ [tx]).

Definition construct_transactions (s : SbtcRequests) : outcome SweepError (list UnsignedTransaction) :=
  match sr_deposits s, sr_withdrawals s with
  | [], [] => mret []
  | _, _ =>
      let request_preprocessor :=
        mkPreprocessor (sr_sbtc_limits s) (sb_fee_rate (sr_signer_state s)) (sb_last_fees (sr_signer_state s)) in
      let deposits := filter_deposits request_preprocessor (sr_deposits s) in
      let withdrawals := preprocess_withdrawals request_preprocessor (sr_withdrawals s) in
      let items := deposits ++ withdrawals in
      let max_votes_against := reject_capacity s in
      let max_needs_signature := sr_max_deposits_per_bitcoin_tx s in
      packages ← compute_optimal_packages items max_votes_against max_needs_signature;
      '(_, txs) ← ofold construct_step (sr_signer_state s, [])
                    (take (Z.to_nat MAX_MEMPOOL_PACKAGE_TX_COUNT) packages);
      mret txs
  end.

(** ** Fee assessment ([FeeAssessment]) *)
Definition request_weight (tx : Transaction) : Z :=
  zsum (map segwit_weight (drop 1 (tx_input tx)) ++ map txout_weight (drop 2 (tx_output tx))).

(** [u64::div_ceil] panics on a zero divisor. *)
Definition div_ceil_u64 {E} (x y : Z) : outcome E Z := if y =? 0 then Panic else mret (div_ceil x y).

Definition assess_input_fee (tx : Transaction) (outpoint : OutPoint) (tx_fee : Z) : outcome Empty_set (option Z) :=
  let request_weight := request_weight tx in
  match List.find (fun tx_in => bool_decide (previous_output tx_in = outpoint)) (drop 1 (tx_input tx)) with
  | None => mret None
  | Some tx_in =>
      let input_weight := segwit_weight tx_in in
      x ← mul_u 64 input_weight tx_fee;
      fee_sats ← div_ceil_u64 x request_weight;
      mret (Some fee_sats)
  end.

Definition assess_output_fee (tx : Transaction) (vout : nat) (tx_fee : Z) : outcome Empty_set (option Z) :=
  if (vout <? 2)%nat then mret None else
  let request_weight := request_weight tx in
  match tx_output tx !! vout with
  | None => mret None
  | Some out =>
      let output_weight := txout_weight out in
      x ← mul_u 64 output_weight tx_fee;
      fee_sats ← div_ceil_u64 x request_weight;
      mret (Some fee_sats)
  end.

(** ** Confirmed transactions ([BitcoinTxInfo], [TxDeconstructor]) *)
Record BitcoinTxVinPrevout := mkVinPrevout { vp_value : Z; vp_script_pubkey : Script }.
Record BitcoinTxVin := mkVin { vin_txid : option Txid; vin_vout : option Z; vin_prevout : option BitcoinTxVinPrevout }.
Record BitcoinTxInfo := mkTxInfo { ti_fee : option Z; ti_tx : Transaction; ti_vin : list BitcoinTxVin }.

Definition txinfo_assess_input_fee (info : BitcoinTxInfo) (outpoint : OutPoint) : outcome Empty_set (option Z) :=
  match ti_fee info with Some fee => assess_input_fee (ti_tx info) outpoint fee | None => mret None end.
Definition txinfo_assess_output_fee (info : BitcoinTxInfo) (vout : nat) : outcome Empty_set (option Z) :=
  match ti_fee info with Some fee => assess_output_fee (ti_tx info) vout fee | None => mret None end.

Record PrevoutRef := mkPrevoutRef {
  pr_amount : Z;
  pr_script_pubkey : Script;
  pr_txid : Txid;
  pr_output_index : Z }.
Definition txinfo_prevout (info : BitcoinTxInfo) (index : nat) : option PrevoutRef :=
  match ti_vin info !! index with
  | Some vin =>
      match vin_prevout vin, vin_txid vin, vin_vout vin with
      | Some prevout, Some txid, Some vout => Some (mkPrevoutRef (vp_value prevout) (vp_script_pubkey prevout) txid vout)
      | _, _, _ => None
      end
  | None => None
  end.

Inductive TxOutputType := SignersOutput | SignersOpReturn | WithdrawalOutput | Donation.
#[global] Instance TxOutputType_eq_dec : EqDecision TxOutputType.
Proof. solve_decision. Defined.
Record TxOutput := mkTxOutput {
  to_txid : Txid;
  to_output_index : Z;
  to_script_pubkey : Script;
  to_amount : Z;
  to_output_type : TxOutputType }.
Record WithdrawalTxOutput := mkWithdrawalTxOutput {
  wo_txid : Txid;
  wo_output_index : Z;
  wo_request_id : Z }.
Record TxPrevout := mkTxPrevout {
  tp_txid : Txid;
  tp_prevout_txid : Txid;
  tp_prevout_output_index : Z;
  tp_script_pubkey : Script;
  tp_amount : Z;
  tp_prevout_type : TxPrevoutType }.

Definition is_signer_created (info : BitcoinTxInfo) (signer_script_pubkeys : gset Script) : bool :=
  match txinfo_prevout info 0 with
  | None => false
  | Some signer_input => bool_decide (pr_script_pubkey signer_input ∈ signer_script_pubkeys)
  end.

(** [index as u32] of an output index, which is below [2^32]. *)
Definition vout_to_output (info : BitcoinTxInfo) (index : nat) (output_type : TxOutputType) : option TxOutput :=
  match tx_output (ti_tx info) !! index with
  | Some tx_out =>
      Some (mkTxOutput (compute_txid (ti_tx info)) (Z.of_nat index mod 2 ^ 32) (txo_script tx_out) (txo_value tx_out)
              output_type)
  | None => None
  end.
Definition vin_to_prevout (info : BitcoinTxInfo) (index : nat) (input_type : TxPrevoutType) : option TxPrevout :=
  match txinfo_prevout info index with
  | Some prevout =>
      Some (mkTxPrevout (compute_txid (ti_tx info)) (pr_txid prevout) (pr_output_index prevout)
              (pr_script_pubkey prevout) (pr_amount prevout) input_type)
  | None => None
  end.

Definition to_inputs (info : BitcoinTxInfo) (signer_script_pubkeys : gset Script) : list TxPrevout :=
  if negb (is_signer_created info signer_script_pubkeys) then [] else
  omap (fun index =>
          match index with
          | O => vin_to_prevout info index SignersInput
          | _ => vin_to_prevout info index DepositInput
          end) (seq 0 (length (tx_input (ti_tx info)))).

Definition to_tx_outputs (info : BitcoinTxInfo) (signer_script_pubkeys : gset Script) : list TxOutput :=
  let outputs := tx_output (ti_tx info) in
  if negb (is_signer_created info signer_script_pubkeys) then
    omap (fun index =>
            match outputs !! index with
            | Some tx_out =>
                if decide (txo_script tx_out ∈ signer_script_pubkeys) then vout_to_output info index Donation else None
            | None => None
            end) (seq 0 (length outputs))
  else
    omap (fun index =>
            match index with
            | 0%nat => vout_to_output info index SignersOutput
            | 1%nat => vout_to_output info index SignersOpReturn
            | _ => vout_to_output info index WithdrawalOutput
            end) (seq 0 (length outputs)).

Definition to_withdrawal_outputs (tx_outputs : list TxOutput) : outcome SweepError (list WithdrawalTxOutput) :=
  match tx_outputs !! 0%nat with
  | None => mret []
  | Some output =>
  if negb (bool_decide (to_output_type output = SignersOutput)) then mret [] else
  match tx_outputs !! 1%nat with
  | None => mret []
  | Some op_return_output =>
  if negb (bool_decide (to_output_type op_return_output = SignersOpReturn)) then mret [] else
  if zlen tx_outputs =? 2 then mret [] else
  let tx_withdrawals_outputs := drop 2 tx_outputs in
  let is_all_withdrawals :=
    forallb (fun out => bool_decide (to_output_type out = WithdrawalOutput)) tx_withdrawals_outputs in
  if negb is_all_withdrawals then Err SbtcTxMalformed else
  match instructions (to_script_pubkey op_return_output) with
  | [InstrOp op; InstrPushBytes raw_bytes] =>
      if negb (op =? OP_RETURN) then Err SbtcTxOpReturnFormatError else
      if zlen raw_bytes <? OP_RETURN_HEADER_SIZE then Err SbtcTxOpReturnFormatError else
      version ← idx raw_bytes 2;
      if version =? 0 then mret [] else
      if negb (version =? OP_RETURN_VERSION) then Err SbtcTxOpReturnFormatError else
      let encoded_withdrawal_ids := drop (Z.to_nat OP_RETURN_HEADER_SIZE) raw_bytes in
      segments ← map_err IdPackDecode (decode encoded_withdrawal_ids);
      let withdrawal_ids := segs_values segments in
      if negb (zlen withdrawal_ids =? zlen tx_outputs - 2) then Err SbtcTxMalformed else
      mret (zip_with (fun out request_id => mkWithdrawalTxOutput (to_txid out) (to_output_index out) request_id)
              tx_withdrawals_outputs withdrawal_ids)
  | _ => Err SbtcTxOpReturnFormatError
  end
  end
  end.

Definition to_outputs (info : BitcoinTxInfo) (signer_script_pubkeys : gset Script)
    : outcome SweepError (list TxOutput * list WithdrawalTxOutput) :=
  let tx_outputs := to_tx_outputs info signer_script_pubkeys in
  withdrawal_outputs ← to_withdrawal_outputs tx_outputs;
  mret (tx_outputs, withdrawal_outputs).

End Sweep.

(** ** Lemmas *)
Section SweepLemmas.
Context `{BitcoinLib}.
Implicit Types (reqs : list RequestRef) (state : SignerBtcState) (u : UnsignedTransaction).

Definition amount_of (r : RequestRef) : Z := match r with Deposit d => dr_amount d | Withdrawal w => wr_amount w end.

(** Amounts small enough for the [i64] arithmetic: any real amounts are. *)
Record amounts_ok reqs state : Prop := {
  ao_utxo : 0 <= su_amount (sb_utxo state);
  ao_reqs : Forall (fun r => 0 <= amount_of r) reqs;
  ao_in : su_amount (sb_utxo state) + minted reqs < 2 ^ 63;
  ao_out : withdrawn reqs < 2 ^ 63 }.

Lemma minted_cons r reqs :
  minted (r :: reqs) = match r with Deposit d => dr_amount d | _ => 0 end + minted reqs.
Proof. by destruct r. Qed.
Lemma withdrawn_cons r reqs :
  withdrawn (r :: reqs) = match r with Withdrawal w => wr_amount w | _ => 0 end + withdrawn reqs.
Proof. by destruct r. Qed.
Lemma minted_withdrawn_nonneg reqs : Forall (fun r => 0 <= amount_of r) reqs ->
  0 <= minted reqs /\ 0 <= withdrawn reqs.
Proof.
  induction 1 as [|r reqs Hr _ IH]; [done|]. rewrite minted_cons, withdrawn_cons. destruct r; simpl in *; lia.
Qed.

Lemma signer_amount_fold reqs : forall a, Forall (fun r => 0 <= amount_of r) reqs ->
  a + minted reqs < 2 ^ 63 -> - 2 ^ 63 <= a - withdrawn reqs ->
  minted reqs < 2 ^ 63 -> withdrawn reqs < 2 ^ 63 ->
  ofold signer_amount_step a reqs = Ok (a + minted reqs - withdrawn reqs).
Proof.
  induction reqs as [|r reqs IH]; intros a Hall Hin Hout Hm Hw; cbn [ofold].
  { change (minted []) with 0. change (withdrawn []) with 0. f_equal. lia. }
  apply Forall_cons in Hall as [Hr Hall]. destruct (minted_withdrawn_nonneg reqs Hall).
  rewrite minted_cons, withdrawn_cons in *. destruct r as [d|w]; simpl amount_of in Hr; cbn [signer_amount_step];
    unfold add_i64, as_i64.
  - destruct (Z.ltb_spec (dr_amount d) (2 ^ 63)); [|lia].
    destruct (Z.leb_spec (- 2 ^ 63) (a + dr_amount d)); [|lia].
    destruct (Z.ltb_spec (a + dr_amount d) (2 ^ 63)); [|lia]. cbn [andb]. oreduce. rewrite IH by (done || lia). f_equal. lia.
  - destruct (Z.ltb_spec (wr_amount w) (2 ^ 63)); [|lia].
    destruct (Z.leb_spec (- 2 ^ 63) (a + - wr_amount w)); [|lia].
    destruct (Z.ltb_spec (a + - wr_amount w) (2 ^ 63)); [|lia]. cbn [andb]. oreduce. rewrite IH by (done || lia). f_equal. lia.
Qed.

Lemma compute_signer_amount_eq reqs state : amounts_ok reqs state ->
  let total := su_amount (sb_utxo state) + minted reqs - withdrawn reqs in
  compute_signer_amount reqs state = if total <? 0 then Err (InvalidAmount total) else Ok total.
Proof.
  intros [Hu Hr Hi Ho] total. destruct (minted_withdrawn_nonneg reqs Hr). unfold compute_signer_amount.
  unfold as_i64. destruct (Z.ltb_spec (su_amount (sb_utxo state)) (2 ^ 63)); [|lia].
  rewrite signer_amount_fold by (done || lia). oreduce. fold total. destruct (Z.ltb_spec total 0); [done|].
  unfold i64_as_u64. rewrite Z.mod_small by (subst total; lia). done.
Qed.

(** *** The OP_RETURN output *)
Lemma push_bytes_extend_ok data more : zlen data + zlen more < 2 ^ 32 ->
  push_bytes_extend data more = Ok (data ++ more).
Proof. intros. unfold push_bytes_extend. rewrite zlen_app. by zcase; [|lia]. Qed.

(** What the output carries: the header, then the encoded ids. *)
Definition op_return_data state (encoded : list Z) : list Z :=
  sb_magic_bytes state ++ [OP_RETURN_VERSION] ++ encoded.

Lemma new_op_return_output_ok reqs state n :
  let ids := omap withdrawal_id reqs in
  zlen (sb_magic_bytes state) = 2 -> ssorted ids -> Forall (in_u 64) ids -> zlen ids < 2 ^ 59 ->
  estimate_size ids = Ok n -> n <= OP_RETURN_AVAILABLE_SIZE ->
  exists encoded, new_op_return_output reqs state = Ok (mkTxOut 0 (new_op_return (op_return_data state encoded))) /\
    zlen (op_return_data state encoded) = OP_RETURN_HEADER_SIZE + n /\ Forall is_byte encoded /\
    map_ok segs_values (decode encoded) = Ok ids.
Proof.
  intros ids Hm Hs Hu Hl Hest Hn. destruct (encode_ids ids Hs Hu Hl) as (segs & bytes & Hp & He & Hz & Hb & Hd).
  rewrite Hest in Hz. injection Hz as ->. unfold OP_RETURN_AVAILABLE_SIZE, OP_RETURN_MAX_SIZE, OP_RETURN_HEADER_SIZE in *.
  exists bytes. unfold new_op_return_output, op_return_data. fold ids.
  pose proof (zlen_nonneg bytes).
  rewrite (push_bytes_extend_ok []) by (rewrite zlen_nil; lia). oreduce. cbn [app].
  rewrite push_bytes_extend_ok by (rewrite zlen_cons, zlen_nil; lia). oreduce.
  assert (match ids with
          | [] => mret (sb_magic_bytes state ++ [OP_RETURN_VERSION])
          | _ => segments ← map_err IdPackSegmenter (package ids); encoded ← infallible (encode segments);
                 push_bytes_extend (sb_magic_bytes state ++ [OP_RETURN_VERSION]) encoded
          end = Ok (sb_magic_bytes state ++ [OP_RETURN_VERSION] ++ bytes)) as ->.
  { destruct ids as [|id ids'] eqn:Hids.
    - cbn in Hp. injection Hp as <-. cbn in He. injection He as <-. done.
    - rewrite Hp. oreduce. rewrite He. unfold infallible. oreduce.
      rewrite push_bytes_extend_ok by zlia. by rewrite <- app_assoc. }
  oreduce. unfold OP_RETURN_MAX_SIZE. rewrite !zlen_app, zlen_cons, zlen_nil, Hm. destruct (Z.ltb_spec 80 (2 + (1 + 0 + zlen bytes))); [lia|].
  split_and!; [done|rewrite zlen_cons; lia|done|]. apply Hd. change ALLOC_BYTES_LIMIT with 1048576. lia.
Qed.

(** The converse: an output was only made for strictly ascending ids. *)
Lemma new_op_return_output_inv reqs state out :
  new_op_return_output reqs state = Ok out -> ssorted (omap withdrawal_id reqs) /\
  exists encoded, out = mkTxOut 0 (new_op_return (op_return_data state encoded)) /\
    zlen (op_return_data state encoded) <= OP_RETURN_MAX_SIZE /\
    exists segs, package (omap withdrawal_id reqs) = Ok segs /\ encode segs = Ok encoded.
Proof.
  unfold new_op_return_output, push_bytes_extend. intros Hout. outcome_inv.
  destruct (zlen ([] ++ _) <? _); [|done]. outcome_inv. destruct (zlen (_ ++ [OP_RETURN_VERSION]) <? _) eqn:?; [|done].
  outcome_inv. destruct (OP_RETURN_MAX_SIZE <? zlen v1) eqn:Hsz; [done|]. outcome_inv. zbool.
  destruct (omap withdrawal_id reqs) as [|id ids] eqn:Hids.
  - outcome_inv. split; [constructor|]. exists []. split_and!; [done..|]. by exists [].
  - outcome_inv. unfold infallible in *. outcome_inv. destruct (_ <? _); [|done]. outcome_inv.
    split; [by eapply package_inv|]. eexists. split_and!; [by rewrite <- app_assoc|by rewrite <- app_assoc in Hsz|eauto].
Qed.

Lemma new_op_return_output_unsorted reqs state : zlen (sb_magic_bytes state) = 2 ->
  ~ ssorted (omap withdrawal_id reqs) ->
  new_op_return_output reqs state = Err (IdPackSegmenter InvalidSequence).
Proof.
  intros Hm Hs. unfold new_op_return_output. rewrite (push_bytes_extend_ok []) by (rewrite zlen_nil; lia). oreduce.
  cbn [app]. rewrite push_bytes_extend_ok by (rewrite zlen_cons, zlen_nil; lia). oreduce.
  rewrite package_invalid by done. oreduce. destruct (omap withdrawal_id reqs) eqn:Hids; [|done].
  destruct Hs. constructor.
Qed.

(** *** The shape of an unsigned transaction *)
Lemma tx_ins_outs_length reqs : zlen (tx_ins reqs) + zlen (tx_outs reqs) = zlen reqs.
Proof.
  unfold tx_ins, tx_outs. induction reqs as [|[d|w] l IH]; [done|..]; cbn [omap list_omap as_deposit as_withdrawal option_map] in *;
    rewrite !zlen_cons; lia.
Qed.
Lemma tx_ins_reset reqs : map (fun i => mkTxIn (previous_output i) []) (tx_ins reqs) =
  map (fun o => mkTxIn o []) (map dr_outpoint (omap as_deposit reqs)).
Proof. unfold tx_ins. induction reqs as [|[d|w] l IH]; simpl; [done| |done]. by f_equal. Qed.
Lemma tx_outs_eq reqs : tx_outs reqs = map withdrawal_as_tx_output (omap as_withdrawal reqs).
Proof. unfold tx_outs. induction reqs as [|[d|w] l IH]; simpl; [done|done|]. by f_equal. Qed.

Lemma new_stub_inv reqs state u : new_stub reqs state = Ok u ->
  reqs <> [] /\ ut_requests u = reqs /\ ut_signer_utxo u = state /\ ut_signer_public_key u = sb_public_key state /\
  in_u 64 (ut_tx_fee u) /\
  exists amount op_return, compute_signer_amount reqs state = Ok amount /\
    new_op_return_output reqs state = Ok op_return /\
    tx_input (ut_tx u) = signer_as_tx_input (sb_utxo state) dummy_signature :: tx_ins reqs /\
    tx_output (ut_tx u) =
      signer_new_tx_output (sb_public_key state) (saturating_sub amount (ut_tx_fee u)) :: op_return ::
      map withdrawal_as_tx_output (omap as_withdrawal reqs).
Proof.
  unfold new_stub. intros Hv. destruct reqs as [|r reqs]; [done|].
  outcome_inv. destruct (2 ^ 32 <=? _); [done|]. outcome_inv. unfold new_transaction in Hv0. outcome_inv.
  split_and!; [done..| |].
  - simpl. unfold compute_transaction_fee. destruct (sb_last_fees state); apply f64_as_u64_range.
  - exists v0, v1. split_and!; [done..|]. rewrite <- tx_outs_eq. reflexivity.
Qed.

Lemma unsigned_new_inv reqs state u : unsigned_new reqs state = Ok u ->
  reqs <> [] /\ ut_requests u = reqs /\ ut_signer_utxo u = state /\ ut_signer_public_key u = sb_public_key state /\
  in_u 64 (ut_tx_fee u) /\
  exists amount op_return, compute_signer_amount reqs state = Ok amount /\
    new_op_return_output reqs state = Ok op_return /\
    tx_input (ut_tx u) =
      map (fun o => mkTxIn o []) (su_outpoint (sb_utxo state) :: map dr_outpoint (omap as_deposit reqs)) /\
    tx_output (ut_tx u) =
      signer_new_tx_output (sb_public_key state) (saturating_sub amount (ut_tx_fee u)) :: op_return ::
      map withdrawal_as_tx_output (omap as_withdrawal reqs).
Proof.
  unfold unsigned_new. intros Hu. outcome_inv.
  apply new_stub_inv in Hv as (? & ? & ? & ? & ? & amount & out & ? & ? & Hin & Hout).
  split_and!; [done..|]. exists amount, out. split_and!; [done..| |done].
  simpl. rewrite Hin. cbn [map]. rewrite <- tx_ins_reset. done.
Qed.

Lemma usum_ok l : Forall (fun x => 0 <= x) l -> zsum l < 2 ^ 64 -> usum l = Ok (zsum l).
Proof.
  unfold usum. intros Hl Hs. assert (forall l a, Forall (fun x => 0 <= x) l -> a + zsum l < 2 ^ 64 ->
    ofold (E:=SweepError) (add_u 64) a l = Ok (a + zsum l)) as Hgen.
  { clear. induction l as [|x l IH]; intros a Hl Hs; cbn [ofold zsum foldr] in *; [f_equal; lia|].
    apply Forall_cons in Hl as [Hx Hl]. pose proof (zsum_nonneg l Hl). unfold zsum in *. uarith.
    rewrite IH by (done || lia). f_equal. lia. }
  rewrite Hgen by (done || lia). f_equal.
Qed.

Lemma collect_inv {E A B} (f : A -> outcome E B) l r : collect f l = Ok r ->
  Forall2 (fun a b => f a = Ok b) l r.
Proof.
  unfold collect. intros Hf.
  refine (ofold_ind (fun dn acc => Forall2 (fun a b => f a = Ok b) dn acc) _ _ l [] [] r _ Hf); [|constructor].
  intros dn acc a acc' Hacc Hstep. outcome_inv. apply Forall2_app; [done|]. by repeat constructor.
Qed.

Lemma construct_digests_inv u shs : construct_digests u = Ok shs ->
  let deposits := omap as_deposit (ut_requests u) in
  let prevouts := signer_as_tx_output (sb_utxo (ut_signer_utxo u)) :: map deposit_as_tx_out deposits in
  shs_txid shs = compute_txid (ut_tx u) /\
  shs_signer_outpoint shs = su_outpoint (sb_utxo (ut_signer_utxo u)) /\
  shs_signers_aggregate_key shs = su_public_key (sb_utxo (ut_signer_utxo u)) /\
  taproot_sighash (ut_tx u) 0 prevouts KeySpend = Some (shs_signers shs) /\
  map fst (shs_deposits shs) = deposits /\
  forall i d sighash, shs_deposits shs !! i = Some (d, sighash) ->
    taproot_sighash (ut_tx u) (S i) prevouts (ScriptSpend (dr_deposit_script d)) = Some sighash.
Proof.
  intros Hd deposits prevouts. unfold construct_digests in Hd. fold deposits prevouts in Hd.
  apply bind_ok_inv in Hd as (s0 & Hs0 & Hd). apply bind_ok_inv in Hd as (ds & Hds & Hd). injection Hd as <-.
  destruct (taproot_sighash _ 0 _ _) eqn:Hk in Hs0; [|done]. injection Hs0 as <-. simpl.
  apply collect_inv in Hds.
  assert (forall i w x, enumerate deposits !! i = Some w -> deposit_sighash u prevouts w = Ok x ->
    deposits !! i = Some x.1 /\
    taproot_sighash (ut_tx u) (S i) prevouts (ScriptSpend (dr_deposit_script x.1)) = Some x.2) as Hstep.
  { intros i [k d] [d' sh] Hw Hx. apply enumerate_lookup in Hw as [-> Hw]. unfold deposit_sighash in Hx. outcome_inv.
    unfold add_u in Hv. destruct (_ <? _); [|done]. outcome_inv.
    replace (Z.to_nat (Z.of_nat i + 1)) with (S i) in Hx by lia.
    destruct (taproot_sighash _ _ _ _) eqn:Ht in Hx; outcome_inv. done. }
  split_and!; [done..| |].
  - apply list_eq. intros i. rewrite list_lookup_fmap.
    destruct (ds !! i) as [x|] eqn:Hx; simpl.
    + destruct (Forall2_lookup_r _ _ _ _ _ Hds Hx) as (w & Hw & Hok). by destruct (Hstep i w x Hw Hok) as [-> _].
    + apply lookup_ge_None in Hx. rewrite <- (Forall2_length _ _ _ Hds), length_enumerate in Hx.
      symmetry. by apply lookup_ge_None.
  - intros i d sh Hi. destruct (Forall2_lookup_r _ _ _ _ _ Hds Hi) as (w & Hw & Hok).
    by destruct (Hstep i w (d, sh) Hw Hok) as [_ Ht].
Qed.

Lemma requests_new_perm pkg : requests_new pkg ≡ₚ pkg.
Proof. apply sort_by_key_perm. Qed.

Lemma omap_withdrawal_id reqs : omap withdrawal_id reqs = map wr_request_id (omap as_withdrawal reqs).
Proof. induction reqs as [|[d|w] l IH]; simpl; [done|done|]. by f_equal. Qed.

(** The ids of a sorted package are the ids its bag kept. *)
Lemma requests_new_ids cfg pkg ids : ids_ok cfg pkg ids -> NoDup (omap withdrawal_id pkg) ->
  omap withdrawal_id (requests_new pkg) = ids.
Proof.
  intros Hids Hnd. apply ssorted_ext; [|by apply Hids|].
  - apply sorted_le_lt; [apply sorted_withdrawal_ids, sort_by_key_sorted|]. by rewrite requests_new_perm.
  - intros x. rewrite (ids_mem _ _ _ Hids), list_elem_of_omap. setoid_rewrite requests_new_perm. done.
Qed.

End SweepLemmas.

(** ** Properties *)

(** The layout of an unsigned sweep transaction: the first input spends
    the signers' UTXO and the others spend exactly the deposits of the package,
    in order, with empty witnesses; the first output pays the signers' key, the
    second is the [OP_RETURN] of at most 80 bytes, and the others pay each
    withdrawal its amount to its script, in order. *)
Theorem unsigned_layout `{BitcoinLib} reqs state u : unsigned_new reqs state = Ok u ->
  ut_requests u = reqs /\
  tx_input (ut_tx u) = map (fun o => mkTxIn o [])
    (su_outpoint (sb_utxo state) :: map dr_outpoint (omap as_deposit reqs)) /\
  exists sats data, zlen data <= OP_RETURN_MAX_SIZE /\
    tx_output (ut_tx u) = mkTxOut sats (signers_script_pubkey (sb_public_key state)) ::
      mkTxOut 0 (new_op_return data) ::
      map (fun w => mkTxOut (wr_amount w) (wr_script_pubkey w)) (omap as_withdrawal reqs).
Proof.
  intros Hu. apply unsigned_new_inv in Hu as (_ & Hr & _ & _ & _ & amount & out & _ & Hop & Hin & Hout).
  apply new_op_return_output_inv in Hop as (_ & encoded & -> & Hsz & _). split_and!; [done..|]. by do 2 eexists.
Qed.

Lemma sweep_amounts `{BitcoinLib} reqs state : amounts_ok reqs state ->
  let available := su_amount (sb_utxo state) + minted reqs - withdrawn reqs in
  (available < 0 -> reqs <> [] -> unsigned_new reqs state = Err (InvalidAmount available)) /\
  (forall u, unsigned_new reqs state = Ok u ->
     0 <= available /\
     input_amounts u = Ok (su_amount (sb_utxo state) + minted reqs) /\
     output_amounts u = Ok (su_amount (sb_utxo state) + minted reqs - Z.min (ut_tx_fee u) available)).
Proof.
  intros Hok available. pose proof (compute_signer_amount_eq reqs state Hok) as Hc. cbv zeta in Hc. fold available in Hc.
  destruct Hok as [Hu Hr Hi Ho]. destruct (minted_withdrawn_nonneg reqs Hr). split.
  - intros Hneg Hne. unfold unsigned_new, new_stub, new_transaction. destruct reqs; [done|]. rewrite Hc.
    by destruct (Z.ltb_spec available 0); [|lia].
  - intros u Hun. apply unsigned_new_inv in Hun as (_ & Hreq & Hst & _ & [Hf _] & amount & out & Ham & Hop & Hin & Hout).
    rewrite Ham in Hc. destruct (Z.ltb_spec available 0) as [|Hav]; [done|]. injection Hc as ->. split; [done|].
    assert (Forall (fun x => 0 <= x) (map dr_amount (omap as_deposit reqs)) /\
            Forall (fun x => 0 <= x) (map wr_amount (omap as_withdrawal reqs))) as [Hd Hw].
    { clear -Hr. induction Hr as [|[d|w] l Hx _ [IH1 IH2]]; simpl; [done|split; [by constructor|done]|].
      split; [done|by constructor]. }
    apply new_op_return_output_inv in Hop as (_ & enc & -> & _).
    unfold minted, withdrawn in *. unfold input_amounts, output_amounts. rewrite Hreq, Hst, Hout.
    assert (map txo_value (map withdrawal_as_tx_output (omap as_withdrawal reqs)) =
            map wr_amount (omap as_withdrawal reqs)) as Hmw by (rewrite map_map; done).
    split.
    + rewrite usum_ok; rewrite ?zsum_app; cbn [zsum foldr]; [f_equal; lia| |unfold zsum in *; lia].
      apply Forall_app. split; [done|by apply Forall_singleton].
    + cbn [map txo_value signer_new_tx_output]. rewrite Hmw. unfold saturating_sub.
      rewrite usum_ok; cbn [zsum foldr] in *.
      * f_equal. unfold zsum in *. lia.
      * constructor; [lia|]. by constructor.
      * unfold zsum in *. lia.
Qed.

(** The other steps of building a sweep never report [InvalidAmount]. *)
Lemma op_return_not_amount `{BitcoinLib} reqs state x : new_op_return_output reqs state <> Err (InvalidAmount x).
Proof.
  assert (forall data more, push_bytes_extend data more <> Err (InvalidAmount x)) as Hpush.
  { intros data more. unfold push_bytes_extend. by destruct (_ <? _). }
  unfold new_op_return_output. intros He. apply bind_err_inv in He as [He|(d & _ & He)]; [by eapply Hpush|].
  apply bind_err_inv in He as [He|(d' & _ & He)]; [by eapply Hpush|]. apply bind_err_inv in He as [He|(d2 & _ & He)]; [|by destruct (_ <? _)].
  destruct (omap withdrawal_id reqs) as [|i ids]; [done|]. apply bind_err_inv in He as [He|(segs & _ & He)]; [by destruct (package _)|].
  apply bind_err_inv in He as [He|(enc & _ & He)]; [by destruct (encode _)|by eapply Hpush].
Qed.
Lemma invalid_amount_inv `{BitcoinLib} reqs state x : unsigned_new reqs state = Err (InvalidAmount x) ->
  reqs <> [] /\ compute_signer_amount reqs state = Err (InvalidAmount x).
Proof.
  unfold unsigned_new, new_stub. intros He. apply bind_err_inv in He as [He|(u & _ & He)]; [|done]. destruct reqs as [|q qs]; [done|]. split; [done|].
  apply bind_err_inv in He as [He|(tx & _ & He)]; [|by destruct (_ <=? _)]. unfold new_transaction in He.
  apply bind_err_inv in He as [He|(a & _ & He)]; [done|]. apply bind_err_inv in He as [He|(o & _ & He)]; [|done]. by apply op_return_not_amount in He.
Qed.


(** C25: the signature hashes are aligned with the inputs: digest [i] of the
    deposits is computed for input [i + 1], the input that spends the outpoint
    of that deposit, against the prevouts of all inputs in input order, with
    the deposit's own script; the signers' digest is the key-spend of input 0. *)
Theorem digests_match_inputs `{BitcoinLib} reqs state u shs :
  unsigned_new reqs state = Ok u -> construct_digests u = Ok shs ->
  let deposits := omap as_deposit reqs in
  let prevouts := signer_as_tx_output (sb_utxo state) :: map deposit_as_tx_out deposits in
  shs_txid shs = compute_txid (ut_tx u) /\
  taproot_sighash (ut_tx u) 0 prevouts KeySpend = Some (shs_signers shs) /\
  length (tx_input (ut_tx u)) = length prevouts /\
  map fst (shs_deposits shs) = deposits /\
  forall i d sighash, shs_deposits shs !! i = Some (d, sighash) ->
    taproot_sighash (ut_tx u) (S i) prevouts (ScriptSpend (dr_deposit_script d)) = Some sighash /\
    tx_input (ut_tx u) !! S i = Some (mkTxIn (dr_outpoint d) []) /\
    prevouts !! S i = Some (deposit_as_tx_out d).
Proof.
  intros Hu Hd deposits prevouts.
  apply unsigned_new_inv in Hu as (_ & Hreq & Hst & _ & _ & amount & out & _ & _ & Hin & _).
  apply construct_digests_inv in Hd as (Htx & _ & _ & Hk & Hfst & Hall). 
  rewrite Hreq, Hst in Hk, Hall. rewrite Hreq in Hfst. fold deposits in Hk, Hall, Hfst. fold prevouts in Hk, Hall.
  split_and!; [done|done|by rewrite Hin; simpl; rewrite !length_map|done|].
  intros i d sh Hi. split; [by apply Hall|]. rewrite Hin. simpl. rewrite !list_lookup_fmap.
  fold deposits. rewrite <- Hfst, list_lookup_fmap, Hi. done.
Qed.

(** What the [scan] of [construct_transactions] maintains. *)
Definition next_state `{BitcoinLib} (t : UnsignedTransaction) (state : SignerBtcState) : Prop :=
  exists out, tx_output (ut_tx t) !! 0%nat = Some out /\
    sb_utxo state = mkSignerUtxo (mkOutPoint (compute_txid (ut_tx t)) 0) (txo_value out) (ut_signer_public_key t) /\
    sb_last_fees state = None.

Section ChainLemmas.
Context `{BitcoinLib}.

Record chain_inv (state0 : SignerBtcState) (pkgs : list (list RequestRef))
    (st : SignerBtcState * list UnsignedTransaction) : Prop := {
  ci_len : length st.2 = length pkgs;
  ci_reqs : map ut_requests st.2 = map requests_new pkgs;
  ci_new : forall i t, st.2 !! i = Some t -> unsigned_new (ut_requests t) (ut_signer_utxo t) = Ok t;
  ci_first : forall t, st.2 !! 0%nat = Some t -> ut_signer_utxo t = state0;
  ci_next : forall i t t', st.2 !! i = Some t -> st.2 !! S i = Some t' -> next_state t (ut_signer_utxo t');
  ci_empty : st.2 = [] -> st.1 = state0;
  ci_last : forall t, last st.2 = Some t -> next_state t st.1 }.

Lemma construct_step_inv state0 pkgs st pkg st' : chain_inv state0 pkgs st ->
  construct_step st pkg = Ok st' -> chain_inv state0 (pkgs ++ [pkg]) st'.
Proof.
  intros [Hl Hr Hn Hf Hnx He Hla] Hs. destruct st as [state txs]. simpl in *. unfold construct_step in Hs. outcome_inv.
  rename v into tx. unfold new_signer_utxo in Hv0. outcome_inv. apply idx_inv in Hv1 as [_ Hout].
  pose proof (unsigned_new_inv _ _ _ Hv) as (_ & Hreq & Hst & _ & _). constructor; simpl.
  - rewrite !length_app. simpl. lia.
  - rewrite !map_app, Hr. simpl. by rewrite Hreq.
  - intros i t Ht. apply lookup_snoc_Some in Ht as [[_ Ht]|[_ <-]]; [by eapply Hn|]. by rewrite Hreq, Hst.
  - intros t Ht. apply lookup_snoc_Some in Ht as [[_ Ht]|[Hz <-]]; [by apply Hf|].
    rewrite Hst. apply He. by destruct txs.
  - intros i t t' Ht Ht'. apply lookup_snoc_Some in Ht' as [[Hlt Ht']|[Hi <-]].
    + rewrite lookup_app_l in Ht by lia. by eapply Hnx.
    + rewrite Hst. apply Hla. rewrite lookup_app_l in Ht by lia. rewrite last_lookup, <- Hi. done.
  - by destruct txs.
  - intros t. rewrite last_snoc. intros [= <-]. by eexists.
Qed.

Lemma construct_steps_inv state0 pkgs st : ofold construct_step (state0, []) pkgs = Ok st -> chain_inv state0 pkgs st.
Proof.
  intros Hs. refine (ofold_ind (chain_inv state0) _ _ pkgs [] (state0, []) st _ Hs).
  - intros dn s a s' Hinv Hstep. by eapply construct_step_inv.
  - by constructor.
Qed.
End ChainLemmas.

(** C18: a transaction package is a chain: it has at most 25 transactions; the
    first spends the signers' current UTXO and each further one spends output
    0 of the transaction before it, with the amount and the key of that output
    and without a fee bump; every transaction sweeps a sorted package, and
    together they sweep only accepted requests, each at most once. *)
Theorem construct_transactions_chain `{BitcoinLib} `{!BitcoinWeights} (s : SbtcRequests) txs :
  Forall (fun w => in_u 64 (wr_request_id w)) (sr_withdrawals s) ->
  construct_transactions s = Ok txs ->
  (length txs <= 25)%nat /\
  (forall t, txs !! 0%nat = Some t -> ut_signer_utxo t = sr_signer_state s) /\
  (forall i t t', txs !! i = Some t -> txs !! S i = Some t' ->
     next_state t (ut_signer_utxo t') /\
     exists inp, tx_input (ut_tx t') !! 0%nat = Some inp /\
       previous_output inp = mkOutPoint (compute_txid (ut_tx t)) 0) /\
  (forall t, t ∈ txs -> StronglySorted (key_le request_key) (ut_requests t)) /\
  let rp := mkPreprocessor (sr_sbtc_limits s) (sb_fee_rate (sr_signer_state s)) (sb_last_fees (sr_signer_state s)) in
  concat (map ut_requests txs) ⊆+ filter_deposits rp (sr_deposits s) ++ preprocess_withdrawals rp (sr_withdrawals s).
Proof.
  intros Hw Hc. unfold construct_transactions in Hc.
  destruct (decide (sr_deposits s = [] /\ sr_withdrawals s = [])) as [[H1 H2]|Hne].
  { rewrite H1, H2 in Hc. injection Hc as <-. split_and!; [simpl; lia|done|done|set_solver|simpl; apply submseteq_nil_l]. }
  set (rp := mkPreprocessor _ _ _) in *.
  set (items := filter_deposits rp (sr_deposits s) ++ preprocess_withdrawals rp (sr_withdrawals s)) in *.
  assert (exists p, compute_optimal_packages (E:=SweepError) items (reject_capacity s) (sr_max_deposits_per_bitcoin_tx s)
    = Ok (finalize p) /\ packager_ok (packager_config_new (reject_capacity s) (sr_max_deposits_per_bitcoin_tx s)) items p)
    as (p & Hp & Hok).
  { apply compute_optimal_packages_ok; [|unfold reject_capacity, saturating_sub; lia].
    apply Forall_forall. intros r Hr. apply item_ok_request. intros w ->. rewrite Forall_forall in Hw. apply Hw.
    by eapply items_withdrawals. }
  assert (exists st, ofold construct_step (sr_signer_state s, []) (take 25 (finalize p)) = Ok st /\ st.2 = txs)
    as ([st2 txs'] & Hst & Htxs).
  { destruct (sr_deposits s) eqn:Hd, (sr_withdrawals s) eqn:Hwd; [by destruct Hne|..]; fold rp items in Hc;
      rewrite Hp in Hc; cbn [mbind outcome_bind] in Hc; apply bind_ok_inv in Hc as (st & Hst & Hc);
      (exists st; split; [exact Hst|]; destruct st; by injection Hc). }
  simpl in Htxs. subst txs'. apply construct_steps_inv in Hst as [Hl Hr Hn Hf Hnx _ _]. simpl in *.
  split_and!.
  - rewrite Hl, length_take. lia.
  - done.
  - intros i t t' Ht Ht'. pose proof (Hnx i t t' Ht Ht') as Hnext. split; [done|].
    pose proof (unsigned_new_inv _ _ _ (Hn _ _ Ht')) as (_ & _ & _ & _ & _ & am & out & _ & _ & Hin & _).
    destruct Hnext as (o & _ & Hu & _). rewrite Hin, Hu. eexists. split; [done|]. done.
  - intros t Ht. assert (ut_requests t ∈ map ut_requests txs) as Ht' by (by apply (list_elem_of_fmap_2 ut_requests)).
    rewrite Hr in Ht'. clear Ht. rename Ht' into Ht.
    apply list_elem_of_fmap in Ht as (pkg & -> & _). apply sort_by_key_sorted.
  - rewrite Hr. destruct (packager_ok_finalize _ _ _ Hok) as [Hsub _]. etrans; [|exact Hsub].
    rewrite <- (take_drop 25 (finalize p)) at 2. rewrite concat_app.
    assert (forall l, concat (map requests_new l) ≡ₚ concat l) as ->; [|apply submseteq_inserts_r, reflexivity].
    induction l as [|x l IH]; simpl; [done|]. by rewrite IH, requests_new_perm.
Qed.

(** C29: every package that the packager returns can be built into a sweep. If the
    withdrawal ids are 64-bit integers and distinct (two equal ids make the
    package fail, [duplicate_request_id_fails]), the signers' funds and the
    deposits cover the withdrawals, the amounts fit 63 bits, and the virtual size
    of a transaction with that many inputs and outputs fits 32 bits, then
    [UnsignedTransaction::new] succeeds; and its second output is an [OP_RETURN]
    of at most 80 bytes, the header followed by bytes that decode to the
    package's withdrawal ids. *)
Theorem packaged_sweep_builds `{BitcoinLib} `{!BitcoinWeights} items mva mns pkgs pkg state :
  Forall (fun r => forall w, r = Withdrawal w -> in_u 64 (wr_request_id w)) items -> 0 <= mva ->
  NoDup (omap withdrawal_id items) -> zlen items < 2 ^ 59 ->
  compute_optimal_packages (E:=SweepError) items mva mns = Ok pkgs -> pkg ∈ pkgs ->
  zlen (sb_magic_bytes state) = 2 -> 
  (forall tx, zlen (tx_input tx) + zlen (tx_output tx) = zlen pkg + 3 -> transaction_vsize tx < 2 ^ 32) ->
  amounts_ok pkg state -> withdrawn pkg <= su_amount (sb_utxo state) + minted pkg ->
  exists u encoded, unsigned_new (requests_new pkg) state = Ok u /\
    tx_output (ut_tx u) !! 1%nat = Some (mkTxOut 0 (new_op_return (op_return_data state encoded))) /\
    zlen (op_return_data state encoded) <= OP_RETURN_MAX_SIZE /\
    map_ok segs_values (decode encoded) = Ok (omap withdrawal_id (requests_new pkg)).
Proof.
  intros Hid Hv Hnd Hlen Hc Hpkg Hm Hvs Hok Hfunds.
  destruct (compute_optimal_packages_ok (E:=SweepError) items mva mns) as (p & Hc' & Hp); [|done|].
  { eapply Forall_impl; [exact Hid|]. intros r Hr. by apply item_ok_request. }
  rewrite Hc in Hc'. injection Hc' as ->. destruct (packager_ok_finalize _ _ _ Hp) as (Hsub & _ & _ & Hall).
  rewrite Forall_forall in Hall. destruct (Hall pkg Hpkg) as (Hne & _ & _ & ids & Hids). clear Hall.
  assert (pkg ⊆+ items) as Hpi.
  { etrans; [|exact Hsub]. apply list_elem_of_split in Hpkg as (l1 & l2 & ->). rewrite concat_app. simpl.
    apply submseteq_inserts_l, submseteq_inserts_r. done. }
  assert (NoDup (omap withdrawal_id pkg)) as Hndp.
  { apply submseteq_Permutation in Hpi as [k Hk]. rewrite Hk, omap_app in Hnd. by apply NoDup_app in Hnd as [? _]. }
  pose proof (requests_new_ids _ _ _ Hids Hndp) as Heq. pose proof Hids as [Hs Hu _ Hil (n & Hest & Hn)].
  assert (zlen pkg <= zlen items) by (unfold zlen; apply submseteq_length in Hpi; lia).
  destruct (new_op_return_output_ok (requests_new pkg) state n) as (encoded & Hop & Hsz & _ & Hd);
    rewrite ?Heq; [done..|lia|done|done|].
  assert (minted (requests_new pkg) = minted pkg) as Hmn by (unfold minted; apply zsum_perm; by rewrite requests_new_perm).
  assert (withdrawn (requests_new pkg) = withdrawn pkg) as Hwn
    by (unfold withdrawn; apply zsum_perm; by rewrite requests_new_perm).
  assert (amounts_ok (requests_new pkg) state) as Hok'.
  { destruct Hok. constructor; rewrite ?Hmn, ?Hwn; try done. by rewrite requests_new_perm. }
  pose proof (compute_signer_amount_eq _ _ Hok') as Hca. cbv zeta in Hca. rewrite Hmn, Hwn in Hca.
  destruct (Z.ltb_spec (su_amount (sb_utxo state) + minted pkg - withdrawn pkg) 0); [lia|].
  assert (requests_new pkg <> []) as Hne'.
  { intros Hnil. pose proof (requests_new_perm pkg) as Hpp. rewrite Hnil in Hpp. by apply Permutation_nil_l in Hpp. }
  unfold unsigned_new, new_stub. destruct (requests_new pkg) as [|r rs] eqn:Hrs; [done|]. rewrite <- Hrs in *.
  unfold new_transaction. rewrite Hca. oreduce. rewrite Hop. oreduce.
  match goal with |- context [2 ^ 32 <=? transaction_vsize ?t] => destruct (Z.leb_spec (2 ^ 32) (transaction_vsize t));
    [enough (transaction_vsize t < 2 ^ 32) by lia; apply Hvs|] end.
  { cbn [tx_input tx_output]. rewrite !zlen_cons. pose proof (tx_ins_outs_length (requests_new pkg)) as Htl.
    pose proof (Permutation_length (requests_new_perm pkg)) as Hpl. unfold zlen in *. lia. }
  oreduce. do 2 eexists. split; [done|]. split; [done|]. rewrite Heq in Hd. split; [|done].
  rewrite Hsz. unfold OP_RETURN_HEADER_SIZE, OP_RETURN_MAX_SIZE in *.
  change (max_op_return_size _) with 77 in Hn. lia.
Qed.

(** Two withdrawals with one request id make the whole package fail: the
    packager accepts them, but the [OP_RETURN] encoder refuses the ids, with
    [InvalidSequence], whatever the funds. *)
Theorem duplicate_request_id_fails `{BitcoinLib} reqs state amount :
  zlen (sb_magic_bytes state) = 2 -> ~ NoDup (omap withdrawal_id reqs) ->
  compute_signer_amount (requests_new reqs) state = Ok amount ->
  unsigned_new (requests_new reqs) state = Err (IdPackSegmenter InvalidSequence).
Proof.
  intros Hm Hdup Ha. assert (requests_new reqs <> []) as Hne.
  { intros Hnil. pose proof (requests_new_perm reqs) as Hpp. rewrite Hnil in Hpp. apply Permutation_nil_l in Hpp.
    subst. apply Hdup. constructor. }
  unfold unsigned_new, new_stub. destruct (requests_new reqs) as [|r rs] eqn:Hrs; [done|]. rewrite <- Hrs in *.
  unfold new_transaction. rewrite Ha. oreduce. rewrite new_op_return_output_unsorted; [done|done|].
  intros Hs. apply Hdup. rewrite <- (requests_new_perm reqs). clear -Hs.
  induction Hs as [|x l Hs IH Hf]; [constructor|]. apply NoDup_cons. split; [|done].
  intros Hx. rewrite Forall_forall in Hf. specialize (Hf x Hx). lia.
Qed.

Section ToOutputs.
Context `{BitcoinLib}.

Lemma omap_seq_outputs info (outs : list TxOut) (f : nat -> TxOutputType) : tx_output (ti_tx info) = outs ->
  omap (fun i => vout_to_output info i (f i)) (seq 0 (length outs)) =
  imap (fun i o => mkTxOutput (compute_txid (ti_tx info)) (Z.of_nat i mod 2 ^ 32) (txo_script o) (txo_value o) (f i)) outs.
Proof.
  intros Ho. unfold vout_to_output. rewrite Ho. clear Ho.
  assert (forall pre post, outs = pre ++ post ->
    omap (fun i => match outs !! i with
      | Some o => Some (mkTxOutput (compute_txid (ti_tx info)) (Z.of_nat i mod 2 ^ 32) (txo_script o) (txo_value o) (f i))
      | None => None end) (seq (length pre) (length post)) =
    imap (fun i o => mkTxOutput (compute_txid (ti_tx info)) (Z.of_nat (length pre + i) mod 2 ^ 32) (txo_script o)
                       (txo_value o) (f (length pre + i)%nat)) post) as Hgen.
  { intros pre post. revert pre. induction post as [|o post IH]; intros pre Heq; [done|]. simpl.
    assert (outs !! length pre = Some o) as -> by (rewrite Heq; by apply list_lookup_middle).
    rewrite Nat.add_0_r. f_equal. specialize (IH (pre ++ [o])). rewrite length_app, Nat.add_1_r in IH. simpl in IH.
    etrans; [apply IH; by rewrite <- app_assoc|]. apply imap_ext. intros i x _. simpl. by rewrite <- Nat.add_succ_r. }
  by apply (Hgen [] outs).
Qed.

Lemma to_tx_outputs_created info keys : is_signer_created info keys = true ->
  to_tx_outputs info keys =
  imap (fun i o => mkTxOutput (compute_txid (ti_tx info)) (Z.of_nat i mod 2 ^ 32) (txo_script o) (txo_value o)
    (match i with 0%nat => SignersOutput | 1%nat => SignersOpReturn | _ => WithdrawalOutput end))
    (tx_output (ti_tx info)).
Proof.
  intros Hc. unfold to_tx_outputs. rewrite Hc. cbn [negb]. rewrite <- (omap_seq_outputs info) by done.
  apply omap_ext. by intros [|[|i]].
Qed.
End ToOutputs.

(** What [to_withdrawal_outputs] reads from a sweep's outputs when the
    [OP_RETURN] carries the ids [ids]. *)
Lemma to_withdrawal_outputs_ids `{BitcoinLib} `{!OpReturnLaw} o0 o1 rest magic encoded ids :
  to_output_type o0 = SignersOutput -> to_output_type o1 = SignersOpReturn ->
  to_script_pubkey o1 = new_op_return (magic ++ [OP_RETURN_VERSION] ++ encoded) ->
  zlen magic = 2 -> Forall is_byte magic -> Forall is_byte encoded ->
  Forall (fun o => to_output_type o = WithdrawalOutput) rest ->
  map_ok segs_values (decode encoded) = Ok ids -> zlen ids = zlen rest ->
  to_withdrawal_outputs (o0 :: o1 :: rest) =
    Ok (zip_with (fun out id => mkWithdrawalTxOutput (to_txid out) (to_output_index out) id) rest ids).
Proof.
  intros Ht0 Ht1 Hscript Hm Hmb Heb Htypes Hdec Hlen. unfold to_withdrawal_outputs. cbn [lookup list_lookup].
  rewrite Ht0, Ht1, !bool_decide_true by done. cbn [negb]. rewrite !zlen_cons.
  destruct (Z.eqb_spec (1 + (1 + zlen rest)) 2) as [Hz|Hz].
  { destruct rest as [|x rest]; [done|]. zlia. }
  cbn [drop]. rewrite (proj2 (forallb_forall _ rest)).
  2: { intros x Hx. apply bool_decide_eq_true. rewrite Forall_forall in Htypes. by apply Htypes, list_elem_of_In. }
  cbn [negb]. rewrite Hscript, op_return_instructions.
  2: { rewrite !Forall_app. split_and!; [done| |done]. constructor; [|done]. by unfold is_byte, in_u, OP_RETURN_VERSION. }
  rewrite Z.eqb_refl. cbn [negb]. destruct magic as [|m1 [|m2 [|m3 magic]]]; [done|done| |zlia].
  assert (zlen ([m1; m2] ++ [OP_RETURN_VERSION] ++ encoded) = 3 + zlen encoded) as -> by zlia.
  unfold OP_RETURN_HEADER_SIZE. destruct (Z.ltb_spec (3 + zlen encoded) 3); [zlia|].
  rewrite (idx_ok _ 2 1) by done. oreduce. change (1 =? OP_RETURN_VERSION) with true. change (1 =? 0) with false. cbn [negb].
  change (drop (Z.to_nat 3) ([m1; m2] ++ [OP_RETURN_VERSION] ++ encoded)) with encoded.
  destruct (decode encoded) as [segs0| | |]; try done. simpl in Hdec. injection Hdec as Hdec. oreduce. rewrite Hdec.
  destruct (Z.eqb_spec (zlen ids) (1 + (1 + zlen rest) - 2)); [|lia]. done.
Qed.

(** C37: taking a confirmed sweep apart gives back what was put in: if the
    transaction built for [reqs] confirms, with whatever witnesses, and its
    first prevout is one of the signers' scripts, the deconstructor reports one withdrawal output per
    withdrawal of the package, at its output index and with its request id. *)
Theorem sweep_outputs_roundtrip `{BitcoinLib} `{!OpReturnLaw} reqs state u info keys :
  unsigned_new reqs state = Ok u -> tx_output (ti_tx info) = tx_output (ut_tx u) ->
  is_signer_created info keys = true -> zlen (sb_magic_bytes state) = 2 -> Forall is_byte (sb_magic_bytes state) ->
  Forall (in_u 64) (omap withdrawal_id reqs) -> zlen reqs + 2 < 2 ^ 32 ->
  exists outs, to_outputs info keys = Ok (outs,
      imap (fun i w => mkWithdrawalTxOutput (compute_txid (ti_tx info)) (Z.of_nat i + 2) (wr_request_id w))
        (omap as_withdrawal reqs)) /\
    map to_output_type outs = SignersOutput :: SignersOpReturn :: map (fun _ => WithdrawalOutput) (omap as_withdrawal reqs).
Proof.
  intros Hu Htx Hc Hm Hmb Hids Hlen. exists (to_tx_outputs info keys). unfold to_outputs.
  rewrite (to_tx_outputs_created info keys Hc), Htx.
  apply unsigned_new_inv in Hu as (_ & _ & _ & _ & _ & amount & out & _ & Hop & _ & Hout).
  apply new_op_return_output_inv in Hop as (Hs & encoded & -> & Hsz & segs & Hp & He).
  set (ws := omap as_withdrawal reqs) in *. rewrite omap_withdrawal_id in *. fold ws in Hs, Hids, Hp.
  pose proof (zlen_omap as_withdrawal reqs) as Hwl. fold ws in Hwl.
  destruct (encode_ids (map wr_request_id ws)) as (segs' & enc' & Hp' & He' & _ & Hb & Hd);
    [done|done|unfold zlen in *; rewrite length_map; lia|].
  rewrite Hp in Hp'. injection Hp' as <-. rewrite He in He'. injection He' as <-.
  assert (zlen encoded <= 77) as Hel by (unfold op_return_data, OP_RETURN_MAX_SIZE in Hsz; zlia).
  rewrite Hout. cbn [imap]. set (txid := compute_txid (ti_tx info)). set (rest := imap _ (map withdrawal_as_tx_output ws)).
  assert (rest = imap (fun i w => mkTxOutput txid (Z.of_nat i + 2) (wr_script_pubkey w) (wr_amount w) WithdrawalOutput) ws)
    as Hrest.
  { unfold rest. rewrite imap_fmap. apply imap_ext. intros i w Hw. simpl. apply lookup_lt_Some in Hw.
    unfold zlen in *. rewrite Z.mod_small by lia. f_equal. lia. }
  assert (map to_output_type rest = map (fun _ => WithdrawalOutput) ws) as Htypes.
  { rewrite Hrest. apply list_eq. intros i. rewrite !list_lookup_fmap, list_lookup_imap. by destruct (ws !! i). }
  split; [|simpl; by rewrite Htypes].
  rewrite (to_withdrawal_outputs_ids _ _ rest (sb_magic_bytes state) encoded (map wr_request_id ws)); try done.
  - oreduce. do 2 f_equal. rewrite Hrest. apply list_eq. intros i.
    rewrite lookup_zip_with, list_lookup_fmap, !list_lookup_imap. by destruct (ws !! i).
  - apply Forall_forall. intros x Hx. apply (list_elem_of_fmap_2 to_output_type) in Hx.
    change (to_output_type x ∈ map to_output_type rest) in Hx. rewrite Htypes in Hx.
    by apply list_elem_of_fmap in Hx as (? & -> & _).
  - apply Hd. change ALLOC_BYTES_LIMIT with 1048576. lia.
  - unfold zlen. by rewrite Hrest, length_imap, length_map.
Qed.

(** *** Fees *)
Section FeeLemmas.
Context `{BitcoinLib}.

(** The weights of what is charged: every input after the first, every output
    after the second. *)
Definition charged_weights (tx : Transaction) : list Z :=
  map segwit_weight (drop 1 (tx_input tx)) ++ map txout_weight (drop 2 (tx_output tx)).

Lemma div_ceil_sum w fee ws : 0 < w -> 0 <= fee -> Forall (fun x => 0 <= x) ws ->
  fee * zsum ws <= w * zsum (map (fun x => div_ceil (x * fee) w) ws) <= fee * zsum ws + w * zlen ws.
Proof.
  intros Hw Hf. induction 1 as [|x ws Hx _ IH]; [change (zlen ([] : list Z)) with 0; simpl; lia|].
  cbn [map zsum foldr]. fold (zsum ws). fold (zsum (map (fun x => div_ceil (x * fee) w) ws)). rewrite zlen_cons.
  pose proof (div_ceil_spec (x * fee) w Hw ltac:(nia)). nia.
Qed.

Lemma assess_input_fee_ok tx o fee tx_in : in_u 64 fee -> 0 < request_weight tx ->
  List.find (fun i => bool_decide (previous_output i = o)) (drop 1 (tx_input tx)) = Some tx_in ->
  segwit_weight tx_in * fee < 2 ^ 64 ->
  assess_input_fee tx o fee = Ok (Some (div_ceil (segwit_weight tx_in * fee) (request_weight tx))).
Proof.
  intros Hf Hw Hfind Hlt. unfold assess_input_fee, div_ceil_u64. rewrite Hfind, mul_u_ok by done. oreduce.
  by zcase; [lia|].
Qed.
Lemma assess_output_fee_ok tx vout fee out : in_u 64 fee -> 0 < request_weight tx -> (2 <= vout)%nat ->
  tx_output tx !! vout = Some out -> txout_weight out * fee < 2 ^ 64 ->
  assess_output_fee tx vout fee = Ok (Some (div_ceil (txout_weight out * fee) (request_weight tx))).
Proof.
  intros Hf Hw Hv Hout Hlt. unfold assess_output_fee, div_ceil_u64. rewrite Hout, mul_u_ok by done. oreduce.
  destruct (Nat.ltb_spec vout 2); [lia|]. by zcase; [lia|].
Qed.

Lemma find_outpoint l i tx_in : NoDup (map previous_output l) -> l !! i = Some tx_in ->
  List.find (fun x => bool_decide (previous_output x = previous_output tx_in)) l = Some tx_in.
Proof.
  revert i. induction l as [|a l IH]; intros i Hnd Hi; [done|]. cbn [map] in Hnd. apply NoDup_cons in Hnd as [Hni Hnd].
  simpl. case_bool_decide as Heq.
  - destruct i as [|i]; [by simplify_eq|]. simpl in Hi. destruct Hni. rewrite Heq.
    apply list_elem_of_fmap_2. by eapply list_elem_of_lookup_2.
  - destruct i as [|i]; [injection Hi as ->; done|]. by eapply IH.
Qed.
End FeeLemmas.

(** The fee each charged input and output is assessed, by the two functions. *)
Definition assessed_fees `{BitcoinLib} (tx : Transaction) (fee : Z) : list (outcome Empty_set (option Z)) :=
  map (fun i => assess_input_fee tx (previous_output i) fee) (drop 1 (tx_input tx)) ++
  map (fun k => assess_output_fee tx (2 + k) fee) (seq 0 (length (drop 2 (tx_output tx)))).

Lemma assessed_fees_total `{BitcoinLib} `{!BitcoinWeights} tx fee :
  NoDup (map previous_output (drop 1 (tx_input tx))) -> charged_weights tx <> [] ->
  in_u 64 fee -> request_weight tx * fee < 2 ^ 64 ->
  exists fees, assessed_fees tx fee = map (fun f => Ok (Some f)) fees /\
    zlen fees = zlen (charged_weights tx) /\
    fee <= zsum fees <= fee + zlen fees /\
    assess_output_fee tx 0 fee = Ok None /\ assess_output_fee tx 1 fee = Ok None.
Proof.
  intros Hnd Hne Hf Hlt. pose proof Hf as [Hf0 _].
  assert (Forall (fun x => 1 <= x) (charged_weights tx)) as Hpos.
  { unfold charged_weights. apply Forall_app. rewrite !Forall_map. split; apply Forall_true; simpl; intros;
      [apply segwit_weight_pos|apply txout_weight_pos]. }
  assert (forall x l, x ∈ l -> Forall (fun x => 1 <= x) l -> 1 <= x <= zsum l) as Hle.
  { clear. intros x l Hx. induction 1 as [|y l Hy Hl IH]; [set_solver|]. cbn [zsum foldr]. fold (zsum l).
    assert (0 <= zsum l) by (apply zsum_nonneg; eapply Forall_impl; [exact Hl|]; simpl; lia).
    apply elem_of_cons in Hx as [->|Hx]; [lia|]. specialize (IH Hx). lia. }
  change (request_weight tx) with (zsum (charged_weights tx)) in *.
  assert (0 < zsum (charged_weights tx)) as Hw.
  { destruct (charged_weights tx) as [|x l]; [done|]. specialize (Hle x (x :: l) ltac:(left) Hpos). lia. }
  assert (forall x, x ∈ charged_weights tx -> x * fee < 2 ^ 64) as Hmul.
  { intros x Hx. specialize (Hle x _ Hx Hpos). nia. }
  exists (map (fun x => div_ceil (x * fee) (zsum (charged_weights tx))) (charged_weights tx)).
  assert (0 <= zlen (charged_weights tx)) by apply zlen_nonneg.
  pose proof (div_ceil_sum (zsum (charged_weights tx)) fee (charged_weights tx) Hw Hf0) as Hsum.
  split_and!; [|by unfold zlen; rewrite length_map| | |done|done].
  - unfold assessed_fees. unfold charged_weights at 2. rewrite !map_app, !map_map. f_equal.
    + apply list_eq. intros i. rewrite !list_lookup_fmap. destruct (drop 1 (tx_input tx) !! i) as [x|] eqn:Hx; [|done].
      simpl. f_equal. apply assess_input_fee_ok; [done|done|by eapply find_outpoint|]. apply Hmul.
      unfold charged_weights. apply elem_of_app. left. apply list_elem_of_fmap_2. by eapply list_elem_of_lookup_2.
    + apply list_eq. intros i. rewrite !list_lookup_fmap. destruct (drop 2 (tx_output tx) !! i) as [x|] eqn:Hx.
      * pose proof (lookup_lt_Some _ _ _ Hx) as Hi. rewrite lookup_seq_lt by done. simpl. f_equal.
        pose proof Hx as Hx2. rewrite lookup_drop in Hx2. apply assess_output_fee_ok; [done|done|lia|done|]. apply Hmul.
        unfold charged_weights. apply elem_of_app. right. apply list_elem_of_fmap_2. by eapply list_elem_of_lookup_2.
      * apply lookup_ge_None in Hx. rewrite lookup_seq_ge by done. done.
  - assert (Forall (fun x => 0 <= x) (charged_weights tx)) as Hnn by (eapply Forall_impl; [exact Hpos|]; simpl; lia).
    specialize (Hsum Hnn). nia.
  - assert (Forall (fun x => 0 <= x) (charged_weights tx)) as Hnn by (eapply Forall_impl; [exact Hpos|]; simpl; lia).
    specialize (Hsum Hnn). unfold zlen at 1. rewrite length_map. fold (zlen (charged_weights tx)). nia.
Qed.

(** the assessed fees cover the miner fee: for a sweep with distinct
    inputs that services at least one request, every deposit input and every
    withdrawal output is assessed a fee, these fees add up to at least the
    fee paid, and to less than it plus one sat per request; the signers' own
    input and outputs are never charged. *)
Theorem assessed_fees_cover `{BitcoinLib} `{!BitcoinWeights} tx fee :
  NoDup (map previous_output (drop 1 (tx_input tx))) -> charged_weights tx <> [] ->
  in_u 64 fee -> request_weight tx * fee < 2 ^ 64 ->
  exists fees, assessed_fees tx fee = map (fun f => Ok (Some f)) fees /\
    zlen fees = zlen (charged_weights tx) /\
    fee <= zsum fees <= fee + zlen fees /\
    assess_output_fee tx 0 fee = Ok None /\ assess_output_fee tx 1 fee = Ok None.
Proof. apply assessed_fees_total. Qed.

(** ** Witnesses, on a sample package with the sample instance *)
#[local] Existing Instance demo_bitcoin.
#[local] Existing Instance demo_weights.
#[local] Existing Instance demo_op_return.

Definition demo_state : SignerBtcState :=
  mkSignerBtcState (mkSignerUtxo (mkOutPoint 99 1) 500000 11) (f64_of_Z 10) 12 (Some (mkFees 2000 300)) [83; 51].
Definition demo_items : list RequestRef :=
  [Withdrawal (demo_withdrawal 7 30000); Deposit (demo_deposit 1 90000); Withdrawal (demo_withdrawal 4 20000);
   Deposit (demo_deposit 2 60000)].
Definition demo_unsigned : UnsignedTransaction :=
  match unsigned_new (requests_new demo_items) demo_state with
  | Ok u => u
  | _ => mkUnsigned [] (mkTransaction [] []) 0 demo_state 0 0
  end.
Lemma demo_unsigned_ok : unsigned_new (requests_new demo_items) demo_state = Ok demo_unsigned.
Proof. by vm_compute. Qed.
Lemma demo_amounts_ok items : Forall (fun r => 0 <= amount_of r) items -> minted items < 2 ^ 40 ->
  withdrawn items < 2 ^ 40 -> amounts_ok items demo_state.
Proof. intros. constructor; [done|done|simpl; lia|lia]. Qed.

Lemma unsigned_layout_witness : exists sats data, zlen data <= OP_RETURN_MAX_SIZE /\
  tx_output (ut_tx demo_unsigned) = mkTxOut sats (signers_script_pubkey 12) :: mkTxOut 0 (new_op_return data) ::
    [mkTxOut 20000 [81; 32]; mkTxOut 30000 [81; 32]].
Proof.
  destruct (unsigned_layout (requests_new demo_items) demo_state demo_unsigned demo_unsigned_ok)
    as (_ & _ & sats & data & Hd & Hout). exists sats, data. split; [exact Hd|]. rewrite Hout. by vm_compute.
Defined.


Lemma digests_match_inputs_witness : exists shs, construct_digests demo_unsigned = Ok shs /\
  map fst (shs_deposits shs) = [demo_deposit 1 90000; demo_deposit 2 60000].
Proof.
  destruct (construct_digests demo_unsigned) as [shs| | |] eqn:Hd; [|by vm_compute in Hd..].
  exists shs. split; [done|].
  destruct (digests_match_inputs _ _ _ _ demo_unsigned_ok Hd) as (_ & _ & _ & -> & _). by vm_compute.
Defined.

Definition demo_requests : SbtcRequests :=
  mkSbtcRequests [demo_deposit 1 90000; demo_deposit 2 60000] [demo_withdrawal 7 30000; demo_withdrawal 4 20000]
    demo_state 2 3 demo_limits 1.
Lemma construct_transactions_chain_witness : exists txs, construct_transactions demo_requests = Ok txs /\
  length txs = 2%nat /\ forall t, txs !! 0%nat = Some t -> ut_signer_utxo t = demo_state.
Proof.
  destruct (construct_transactions demo_requests) as [txs| | |] eqn:Hc; [|by vm_compute in Hc..].
  exists txs. split; [done|].
  destruct (construct_transactions_chain demo_requests txs) as (_ & Hfirst & _); [|exact Hc|].
  - repeat (apply List.Forall_cons; [unfold in_u; simpl; lia|]). apply List.Forall_nil.
  - split; [|exact Hfirst]. assert (map_ok length (construct_transactions demo_requests) = Ok 2%nat) as Hl by (by vm_compute).
    rewrite Hc in Hl. by injection Hl.
Defined.

Lemma packaged_sweep_builds_witness : exists u encoded, unsigned_new (requests_new demo_items) demo_state = Ok u /\
  tx_output (ut_tx u) !! 1%nat = Some (mkTxOut 0 (new_op_return (op_return_data demo_state encoded))) /\
  map_ok segs_values (decode encoded) = Ok [4; 7].
Proof.
  destruct (packaged_sweep_builds demo_items 1 5 [demo_items] demo_items demo_state) as (u & enc & Hu & Ho & _ & Hd).
  - repeat (apply List.Forall_cons; [intros w Hw; simplify_eq; unfold in_u; simpl; lia|]). apply List.Forall_nil.
  - lia.
  - apply (bool_decide_unpack _). by vm_compute.
  - by vm_compute.
  - by vm_compute.
  - left.
  - done.
  - intros tx. change (zlen demo_items) with 4. simpl. pose proof (zlen_nonneg (tx_input tx)).
    pose proof (zlen_nonneg (tx_output tx)). lia.
  - apply demo_amounts_ok; [by repeat constructor|by vm_compute..].
  - by vm_compute.
  - exists u, enc. split_and!; [done|done|]. rewrite Hd. by vm_compute.
Defined.

Lemma duplicate_request_id_fails_witness :
  unsigned_new (requests_new [Withdrawal (demo_withdrawal 7 30000); Withdrawal (demo_withdrawal 7 20000)]) demo_state
  = Err (IdPackSegmenter InvalidSequence).
Proof.
  apply (duplicate_request_id_fails _ _ 450000); [done| |by vm_compute].
  intros Hnd. apply NoDup_cons in Hnd as [Hni _]. apply Hni. left.
Defined.

Definition demo_info : BitcoinTxInfo :=
  mkTxInfo (Some 5000) (ut_tx demo_unsigned)
    [mkVin (Some 99) (Some 1) (Some (mkVinPrevout 500000 (signers_script_pubkey 11)))].
Lemma sweep_outputs_roundtrip_witness : exists outs,
  to_outputs demo_info {[signers_script_pubkey 11]} =
    Ok (outs, [mkWithdrawalTxOutput (compute_txid (ut_tx demo_unsigned)) 2 4;
               mkWithdrawalTxOutput (compute_txid (ut_tx demo_unsigned)) 3 7]).
Proof.
  destruct (sweep_outputs_roundtrip (requests_new demo_items) demo_state demo_unsigned demo_info
    {[signers_script_pubkey 11]}) as (outs & Ho & _); [exact demo_unsigned_ok|done|by vm_compute|done| | |by vm_compute|].
  - repeat (apply List.Forall_cons; [unfold is_byte, in_u; lia|]). apply List.Forall_nil.
  - change (omap withdrawal_id (requests_new demo_items)) with [4; 7].
    repeat (apply List.Forall_cons; [unfold in_u; lia|]). apply List.Forall_nil.
  - exists outs. rewrite Ho. done.
Defined.

Lemma assessed_fees_cover_witness : exists fees,
  assessed_fees (ut_tx demo_unsigned) 5000 = map (fun f => Ok (Some f)) fees /\ 5000 <= zsum fees <= 5004.
Proof.
  destruct (assessed_fees_cover (ut_tx demo_unsigned) 5000) as (fees & Hf & Hl & Hs & _);
    [|by vm_compute|by vm_compute|by vm_compute|].
  - apply (bool_decide_unpack _). by vm_compute.
  - exists fees. split; [done|]. rewrite Hl in Hs. change (zlen (charged_weights (ut_tx demo_unsigned))) with 4 in Hs. lia.
Defined.
