(* ===== verification/Validation.v ===== *)
(** * Validation of a sweep package ([signer/src/bitcoin/validation.rs])

    A signer that receives a [BitcoinPreSignRequest] rebuilds the transactions
    from its own database and decides, input by input, what it will sign. The
    database and the bitcoin client are the record [ValidationEnv]. *)

From Stdlib Require Import SpecFloat.
From S2P Require Import Prelude Types Consts Bitcoin SignerState Leb128 Idpack IdpackCodec Packaging Requests Sweep.

(** ** Requests *)
Record TxRequestIds := mkTxRequestIds {
  tr_deposits : list OutPoint;
  tr_withdrawals : list QualifiedRequestId }.
Record BitcoinPreSignRequest := mkPreSign {
  ps_request_package : list TxRequestIds;
  ps_fee_rate : f64 }.
Record BitcoinTxContext := mkTxContext {
  bc_chain_tip : BlockHash;
  bc_chain_tip_height : Z;
  bc_signer_public_key : PublicKey;
  bc_aggregate_key : PublicKey }.

#[global] Instance QualifiedRequestId_countable : Countable QualifiedRequestId.
Proof.
  refine (inj_countable' (fun q => (q_request_id q, q_txid q, q_block_hash q))
    (fun p => mkQualifiedRequestId p.1.1 p.1.2 p.2) _). by intros [].
Defined.

(** [TxRequestIds::from(&Requests)] *)
Definition tx_request_ids_from (requests : list RequestRef) : TxRequestIds :=
  foldl (fun ids request =>
    match request with
    | Deposit deposit => mkTxRequestIds (tr_deposits ids ++ [dr_outpoint deposit]) (tr_withdrawals ids)
    | Withdrawal withdrawal => mkTxRequestIds (tr_deposits ids) (tr_withdrawals ids ++ [wr_qualified_id withdrawal])
    end) (mkTxRequestIds [] []) requests.

(** [iter().all(|x| set.insert(x))]: stops at the first element already
    present. *)
Fixpoint all_insert {A} `{Countable A} (set : gset A) (l : list A) : bool * gset A :=
  match l with
  | [] => (true, set)
  | a :: l => if decide (a ∈ set) then (false, set) else all_insert ({[a]} ∪ set) l
  end.
Fixpoint is_unique_from (deposits_set : gset OutPoint) (withdrawal_request_id_set : gset Z)
    (package : list TxRequestIds) : bool :=
  match package with
  | [] => true
  | reqs :: package =>
      let '(deposits, deposits_set) := all_insert deposits_set (tr_deposits reqs) in
      let '(withdrawal_requests, withdrawal_request_id_set) :=
        all_insert withdrawal_request_id_set (map q_request_id (tr_withdrawals reqs)) in
      if deposits && withdrawal_requests then is_unique_from deposits_set withdrawal_request_id_set package else false
  end.
Definition is_unique (package : list TxRequestIds) : bool := is_unique_from ∅ ∅ package.

(** ** Results and errors *)
Inductive InputValidationResult :=
| InputOk | AmountTooLow | MintAmountBelowDustLimit | AmountTooHigh | FeeTooHigh | CannotSignUtxo | TxNotOnBestChain
| DepositUtxoSpent | DkgSharesVerifyFailed | DkgSharesUnverified | LockTimeExpiry | NoVote | RejectedRequest
| InputUnknown | UnsupportedLockTime.
Inductive WithdrawalValidationResult :=
| WithdrawalOk | WAmountTooHigh | AmountIsDust | WFeeTooHigh | WNoVote | RequestExpired | RequestFulfilled
| RequestNotFinal | RequestRejected | WTxNotOnBestChain | WithdrawalUnknown.
#[global] Instance InputValidationResult_eq_dec : EqDecision InputValidationResult.
Proof. solve_decision. Defined.
#[global] Instance WithdrawalValidationResult_eq_dec : EqDecision WithdrawalValidationResult.
Proof. solve_decision. Defined.

Inductive BitcoinSweepErrorMsg :=
| DepositMsg (r : InputValidationResult)
| WithdrawalMsg (r : WithdrawalValidationResult).
Inductive ValidationError :=
| PreSignContainsNoRequests
| DuplicateRequests
| PreSignInvalidFeeRate (rate : f64)
| NoStacksChainTip
| BitcoinValidation (error : BitcoinSweepErrorMsg) (context : BitcoinTxContext)
| ExceedsSbtcSupplyCap (total_amount max_mintable : Z)
| ExceedsWithdrawalCap (amounts cap cap_blocks withdrawn_total : Z)
| MissingSignerUtxo
| LastFee (e : FeesError)
| SweepFailed (e : SweepError)
| StorageError
| BitcoinClientError.
Definition input_into_error (r : InputValidationResult) (ctx : BitcoinTxContext) : ValidationError :=
  BitcoinValidation (DepositMsg r) ctx.
Definition withdrawal_into_error (r : WithdrawalValidationResult) (ctx : BitcoinTxContext) : ValidationError :=
  BitcoinValidation (WithdrawalMsg r) ctx.

Definition MIN_BITCOIN_FEE_RATE : f64 := f64_div (f64_of_Z 1) (f64_of_Z 1000).
Definition MAX_BITCOIN_FEE_RATE : f64 := f64_of_Z 1000.
(** [BITCOIN_FEE_RATE_RANGE.contains(&rate)]; false for NaN. *)
Definition fee_rate_in_range (rate : f64) : bool := SFleb MIN_BITCOIN_FEE_RATE rate && SFleb rate MAX_BITCOIN_FEE_RATE.

Definition pre_validation (r : BitcoinPreSignRequest) : outcome ValidationError unit :=
  let no_requests := existsb (fun x => is_empty (tr_deposits x) && is_empty (tr_withdrawals x)) (ps_request_package r) in
  if no_requests || is_empty (ps_request_package r) then Err PreSignContainsNoRequests else
  if negb (is_unique (ps_request_package r)) then Err DuplicateRequests else
  if negb (fee_rate_in_range (ps_fee_rate r)) then Err (PreSignInvalidFeeRate (ps_fee_rate r)) else
  mret tt.

(** ** Reports *)
Inductive DepositConfirmationStatus :=
| DepositConfirmed (block_height : Z) (block_hash : BlockHash)
| DepositSpent (txid : Txid)
| DepositUnconfirmed.
Inductive WithdrawalRequestStatus :=
| WithdrawalConfirmed
| WithdrawalFulfilled (txid : Txid)
| WithdrawalUnconfirmed.
(** [bitcoin::relative::LockTime]: a 16-bit number of blocks or of 512-second
    units. *)
Inductive RelativeLockTime := LockBlocks (height : Z) | LockTime (intervals : Z).

Record DepositRequestReport := mkDepositReport {
  rep_outpoint : OutPoint;
  rep_status : DepositConfirmationStatus;
  rep_can_sign : option bool;
  rep_can_accept : option bool;
  rep_amount : Z;
  rep_max_fee : Z;
  rep_lock_time : RelativeLockTime;
  rep_deposit_script : Script;
  rep_reclaim_script_hash : Z;
  rep_signers_public_key : XOnlyPublicKey;
  rep_dkg_shares_status : option DkgSharesStatus }.

Record WithdrawalRequestReport := mkWithdrawalReport {
  wrep_id : QualifiedRequestId;
  wrep_status : WithdrawalRequestStatus;
  wrep_amount : Z;
  wrep_max_fee : Z;
  wrep_recipient : Script;
  wrep_is_accepted : option bool;
  wrep_bitcoin_block_height : Z }.

Definition to_deposit_request (r : DepositRequestReport) (votes : list SignerVote) : DepositRequest :=
  mkDepositRequest (rep_outpoint r) (rep_max_fee r) (signer_votes_bitmap votes) (rep_amount r) (rep_deposit_script r)
    (rep_reclaim_script_hash r) (rep_signers_public_key r).
Definition to_withdrawal_request (r : WithdrawalRequestReport) (votes : list SignerVote) : WithdrawalRequest :=
  mkWithdrawalRequest (q_request_id (wrep_id r)) (q_txid (wrep_id r)) (q_block_hash (wrep_id r)) (wrep_amount r)
    (wrep_max_fee r) (wrep_recipient r) (signer_votes_bitmap votes).

Section Validation.
Context `{BitcoinLib}.

(** [DepositRequestReport::validate] *)
Definition validate_deposit (r : DepositRequestReport) (chain_tip_height : Z) (tx : Transaction) (tx_fee : Z)
    (sbtc_limits : SbtcLimits) : outcome Empty_set InputValidationResult :=
  match rep_status r with
  | DepositUnconfirmed => mret TxNotOnBestChain
  | DepositSpent _ => mret DepositUtxoSpent
  | DepositConfirmed confirmed_block_height _ =>
  if rep_amount r <? per_deposit_minimum sbtc_limits then mret AmountTooLow else
  if per_deposit_cap sbtc_limits <? rep_amount r then mret AmountTooHigh else
  let deposit_age := saturating_sub chain_tip_height confirmed_block_height in
  match rep_lock_time r with
  | LockTime _ => mret UnsupportedLockTime
  | LockBlocks height =>
  let max_age := saturating_sub height DEPOSIT_LOCKTIME_BLOCK_BUFFER in
  if max_age <=? deposit_age then mret LockTimeExpiry else
  assessed ← assess_input_fee tx (rep_outpoint r) tx_fee;
  match assessed with
  | None => mret InputUnknown
  | Some assessed_fee =>
  if Z.min (rep_max_fee r) (rep_amount r) <? assessed_fee then mret FeeTooHigh else
  if saturating_sub (rep_amount r) assessed_fee <? DEPOSIT_DUST_LIMIT then mret MintAmountBelowDustLimit else
  match rep_can_accept r with
  | None => mret NoVote
  | Some false => mret RejectedRequest
  | Some true =>
  match rep_can_sign r with
  | Some false => mret CannotSignUtxo
  | None => mret NoVote
  | Some true =>
  match rep_dkg_shares_status r with
  | Some Verified => mret InputOk
  | Some Unverified => mret DkgSharesUnverified
  | Some Failed => mret DkgSharesVerifyFailed
  | None => mret CannotSignUtxo
  end end end end end end.

(** [WithdrawalRequestReport::validate] *)
Definition validate_withdrawal (r : WithdrawalRequestReport) (bitcoin_chain_tip_height : Z) (output_index : nat)
    (tx : Transaction) (tx_fee : Z) (sbtc_limits : SbtcLimits) : outcome Empty_set WithdrawalValidationResult :=
  match wrep_status r with
  | WithdrawalUnconfirmed => mret WTxNotOnBestChain
  | WithdrawalFulfilled _ => mret RequestFulfilled
  | WithdrawalConfirmed =>
  match wrep_is_accepted r with
  | None => mret WNoVote
  | Some false => mret RequestRejected
  | Some true =>
  if per_withdrawal_cap sbtc_limits <? wrep_amount r then mret WAmountTooHigh else
  if wrep_amount r <? minimal_non_dust (wrep_recipient r) then mret AmountIsDust else
  let block_wait := saturating_sub bitcoin_chain_tip_height (wrep_bitcoin_block_height r) in
  if block_wait <? WITHDRAWAL_MIN_CONFIRMATIONS then mret RequestNotFinal else
  if WITHDRAWAL_BLOCKS_EXPIRY <? block_wait then mret RequestExpired else
  assessed ← assess_output_fee tx output_index tx_fee;
  match assessed with
  | None => mret WithdrawalUnknown
  | Some assessed_fee => if wrep_max_fee r <? assessed_fee then mret WFeeTooHigh else mret WithdrawalOk
  end end end.

(** ** The database, the limits and the bitcoin client

    The code reads the cached limits for the package, and again for each of its
    transactions; they are the same here, as between two blocks, at which the
    block observer writes them. *)
Record ValidationEnv := mkEnv {
  env_stacks_chain_tip : option BlockHash;
  env_limits : SbtcLimits;
  get_deposit_request_report : BlockHash -> OutPoint -> PublicKey ->
    outcome ValidationError (option DepositRequestReport);
  get_deposit_request_signer_votes : OutPoint -> PublicKey -> outcome ValidationError (list SignerVote);
  get_withdrawal_request_report : BlockHash -> BlockHash -> QualifiedRequestId -> PublicKey ->
    outcome ValidationError (option WithdrawalRequestReport);
  get_withdrawal_request_signer_votes : QualifiedRequestId -> PublicKey -> outcome ValidationError (list SignerVote);
  get_signer_utxo : BlockHash -> outcome ValidationError (option SignerUtxo);
  find_mempool_transactions_spending_output : OutPoint -> outcome ValidationError (list Txid);
  get_transaction_fee : Txid -> outcome ValidationError (Z * Z);
  find_mempool_descendants : Txid -> outcome ValidationError (list Txid);
  (** [XOnlyPublicKey::from(PublicKey)] *)
  to_x_only : PublicKey -> XOnlyPublicKey }.

Record ValidationCache := mkCache {
  cache_deposit_reports : gmap OutPoint (DepositRequestReport * list SignerVote);
  cache_withdrawal_reports : gmap QualifiedRequestId (WithdrawalRequestReport * list SignerVote) }.

Definition fetch_deposit (env : ValidationEnv) (ctx : BitcoinTxContext) (cache : ValidationCache) (outpoint : OutPoint)
    : outcome ValidationError ValidationCache :=
  report ← get_deposit_request_report env (bc_chain_tip ctx) outpoint (bc_signer_public_key ctx);
  match report with
  | None => Err (input_into_error InputUnknown ctx)
  | Some report =>
      votes ← get_deposit_request_signer_votes env outpoint (bc_aggregate_key ctx);
      mret (mkCache (<[outpoint := (report, votes)]> (cache_deposit_reports cache)) (cache_withdrawal_reports cache))
  end.
Definition fetch_withdrawal (env : ValidationEnv) (ctx : BitcoinTxContext) (stacks_chain_tip : BlockHash)
    (cache : ValidationCache) (qualified_id : QualifiedRequestId) : outcome ValidationError ValidationCache :=
  report ← get_withdrawal_request_report env (bc_chain_tip ctx) stacks_chain_tip qualified_id (bc_signer_public_key ctx);
  match report with
  | None => Err (withdrawal_into_error WithdrawalUnknown ctx)
  | Some report =>
      votes ← get_withdrawal_request_signer_votes env qualified_id (bc_aggregate_key ctx);
      mret (mkCache (cache_deposit_reports cache)
              (<[qualified_id := (report, votes)]> (cache_withdrawal_reports cache)))
  end.
Definition fetch_requests (env : ValidationEnv) (ctx : BitcoinTxContext) (stacks_chain_tip : BlockHash)
    (cache : ValidationCache) (requests : TxRequestIds) : outcome ValidationError ValidationCache :=
  cache ← ofold (fetch_deposit env ctx) cache (tr_deposits requests);
  ofold (fetch_withdrawal env ctx stacks_chain_tip) cache (tr_withdrawals requests).
Definition fetch_all_reports (r : BitcoinPreSignRequest) (env : ValidationEnv) (ctx : BitcoinTxContext)
    : outcome ValidationError ValidationCache :=
  match env_stacks_chain_tip env with
  | None => Err NoStacksChainTip
  | Some stacks_chain_tip => ofold (fetch_requests env ctx stacks_chain_tip) (mkCache ∅ ∅) (ps_request_package r)
  end.

(** [HashMap::values] visits the entries in some order. *)
Definition deposit_amounts (cache : ValidationCache) : list Z :=
  map (fun e => rep_amount e.2.1) (map_to_list (cache_deposit_reports cache)).
Definition withdrawal_amounts (cache : ValidationCache) : list Z :=
  map (fun e => wrep_amount e.2.1) (map_to_list (cache_withdrawal_reports cache)).

Definition mint_step (max_mintable acc amount : Z) : outcome ValidationError Z :=
  sum ← ok_or (checked_add 64 acc amount) (ExceedsSbtcSupplyCap u64_max max_mintable);
  if max_mintable <? sum then Err (ExceedsSbtcSupplyCap sum max_mintable) else mret sum.
Definition withdraw_step (rolling_limits : RollingWithdrawalLimits) (acc amount : Z) : outcome ValidationError Z :=
  let sum := (acc ∔ amount)%rust in
  if rolling_cap rolling_limits <? sum
  then Err (ExceedsWithdrawalCap sum (rolling_cap rolling_limits) (rolling_blocks rolling_limits)
              (rolling_withdrawn_total rolling_limits))
  else mret sum.
Definition assert_request_amount_limits (cache : ValidationCache) (limits : SbtcLimits)
    : outcome ValidationError unit :=
  let max_mintable := max_mintable_cap limits in
  _ ← ofold (mint_step max_mintable) 0 (deposit_amounts cache);
  let rolling_limits := rolling_withdrawal_limits limits in
  _ ← ofold (withdraw_step rolling_limits) (rolling_withdrawn_total rolling_limits) (withdrawal_amounts cache);
  mret tt.

(** [max_by_key]: the last element of greatest key. *)
Definition max_by_fee (l : list (Txid * (Z * Z))) : option (Txid * (Z * Z)) :=
  foldl (fun best x =>
    match best with
    | Some b => if x.2.1 <? b.2.1 then Some b else Some x
    | None => Some x
    end) None l.
Definition assess_mempool_sweep_transaction_fees (env : ValidationEnv) (signer_utxo : SignerUtxo)
    : outcome ValidationError (option Fees) :=
  mempool_txs ← find_mempool_transactions_spending_output env (su_outpoint signer_utxo);
  match mempool_txs with
  | [] => mret None
  | _ =>
      fees ← collect (fun txid => fee ← get_transaction_fee env txid; mret (txid, fee)) mempool_txs;
      match max_by_fee fees with
      | None => mret None
      | Some (best_sweep_root_txid, fees) =>
          descendant_txids ← find_mempool_descendants env best_sweep_root_txid;
          descendant_fees ← collect (get_transaction_fee env) descendant_txids;
          let '(total_fees, total_vsize) :=
            foldl (fun acc fees => (acc.1 ∔ fees.1, acc.2 ∔ fees.2)%rust) fees descendant_fees in
          map_ok Some (map_err LastFee (fees_new total_fees total_vsize))
      end
  end.

(** ** Rebuilding the transactions *)
Record SbtcReports := mkReports {
  reports_deposits : list (DepositRequest * DepositRequestReport);
  reports_withdrawals : list (WithdrawalRequest * WithdrawalRequestReport);
  reports_signer_state : SignerBtcState }.

Definition create_transaction (r : SbtcReports) : outcome SweepError UnsignedTransaction :=
  let deposits := map (fun x => Deposit x.1) (reports_deposits r) in
  let withdrawals := map (fun x => Withdrawal x.1) (reports_withdrawals r) in
  let requests := requests_new (deposits ++ withdrawals) in
  new_stub requests (reports_signer_state r).

Record BitcoinTxValidationData := mkValidationData {
  vd_signer_sighash : SignatureHash;
  vd_deposit_sighashes : list SignatureHash;
  vd_reports : SbtcReports;
  vd_chain_tip : BlockHash;
  vd_tx : Transaction;
  vd_tx_fee : Z;
  vd_chain_tip_height : Z;
  vd_sbtc_limits : SbtcLimits }.

Definition qualified_id_key (q : QualifiedRequestId) : okey := [[q_request_id q]; [q_txid q]; [q_block_hash q]].

Definition construct_tx_sighashes (env : ValidationEnv) (ctx : BitcoinTxContext) (requests : TxRequestIds)
    (signer_state : SignerBtcState) (cache : ValidationCache)
    : outcome ValidationError (BitcoinTxValidationData * SignerBtcState) :=
  deposits ← collect (fun outpoint =>
      '(report, votes) ← ok_or (cache_deposit_reports cache !! outpoint) (input_into_error InputUnknown ctx);
      mret (to_deposit_request report votes, report)) (tr_deposits requests);
  withdrawals ← collect (fun id =>
      '(report, votes) ← ok_or (cache_withdrawal_reports cache !! id) (withdrawal_into_error WithdrawalUnknown ctx);
      mret (to_withdrawal_request report votes, report)) (tr_withdrawals requests);
  let deposits := sort_by_key (fun x => outpoint_key (dr_outpoint x.1)) deposits in
  let withdrawals := sort_by_key (fun x => qualified_id_key (wrep_id x.2)) withdrawals in
  let reports := mkReports deposits withdrawals signer_state in
  tx ← map_err SweepFailed (create_transaction reports);
  sighashes ← map_err SweepFailed (construct_digests tx);
  utxo ← new_signer_utxo tx;
  let new_signer_state :=
    mkSignerBtcState utxo (sb_fee_rate signer_state) (sb_public_key signer_state) None (sb_magic_bytes signer_state) in
  let out := mkValidationData (signer_sighash sighashes) (deposit_sighashes sighashes) reports (bc_chain_tip ctx)
    (ut_tx tx) (ut_tx_fee tx) (bc_chain_tip_height ctx) (env_limits env) in
  mret (out, new_signer_state).

(** The magic bytes ['T', '3']. *)
Definition construct_package_sighashes (r : BitcoinPreSignRequest) (env : ValidationEnv) (ctx : BitcoinTxContext)
    : outcome ValidationError (list BitcoinTxValidationData) :=
  _ ← pre_validation r;
  cache ← fetch_all_reports r env ctx;
  let limits := env_limits env in
  _ ← assert_request_amount_limits cache limits;
  utxo ← get_signer_utxo env (bc_chain_tip ctx);
  signer_utxo ← ok_or utxo MissingSignerUtxo;
  last_fees ← assess_mempool_sweep_transaction_fees env signer_utxo;
  let signer_state :=
    mkSignerBtcState signer_utxo (ps_fee_rate r) (to_x_only env (bc_aggregate_key ctx)) last_fees [84; 51] in
  '(_, outputs) ← ofold (fun '(signer_state, outputs) requests =>
      '(output, new_signer_state) ← construct_tx_sighashes env ctx requests signer_state cache;
      mret (new_signer_state, outputs ++ [output])) (signer_state, []) (ps_request_package r);
  mret outputs.

(** ** The decision *)

(** [Iterator::all] *)
Definition iter_all {A} (f : A -> outcome Empty_set bool) (l : list A) : outcome Empty_set bool :=
  ofold (fun (ok : bool) a => if ok then f a else mret false) true l.

Definition is_valid_tx (d : BitcoinTxValidationData) : outcome Empty_set bool :=
  if is_empty (reports_deposits (vd_reports d)) && is_empty (reports_withdrawals (vd_reports d)) then mret false else
      deposit_validation_results ← iter_all (fun x =>
          v ← validate_deposit x.2 (vd_chain_tip_height d) (vd_tx d) (vd_tx_fee d) (vd_sbtc_limits d);
          mret (match v with
                | InputOk | CannotSignUtxo | DkgSharesUnverified | DkgSharesVerifyFailed => true
                | _ => false
                end)) (reports_deposits (vd_reports d));
      withdrawal_validation_results ← iter_all (fun '(index, x) =>
          v ← validate_withdrawal x.2 (vd_chain_tip_height d) (Z.to_nat index + 2) (vd_tx d) (vd_tx_fee d) (vd_sbtc_limits d);
          mret (bool_decide (v = WithdrawalOk))) (enumerate (reports_withdrawals (vd_reports d)));
      mret (deposit_validation_results && withdrawal_validation_results).

Record BitcoinTxSigHash := mkTxSigHash {
  ts_txid : Txid;
  ts_chain_tip : BlockHash;
  ts_prevout_txid : Txid;
  ts_aggregate_key : XOnlyPublicKey;
  ts_prevout_output_index : Z;
  ts_sighash : Z;
  ts_prevout_type : TxPrevoutType;
  ts_validation_result : InputValidationResult;
  ts_is_valid_tx : bool;
  ts_will_sign : bool }.
Record BitcoinWithdrawalOutput := mkBitcoinWithdrawalOutput {
  bw_bitcoin_txid : Txid;
  bw_bitcoin_chain_tip : BlockHash;
  bw_output_index : Z;
  bw_request_id : Z;
  bw_stacks_txid : Txid;
  bw_stacks_block_hash : BlockHash;
  bw_validation_result : WithdrawalValidationResult;
  bw_is_valid_tx : bool }.

Definition input_row (d : BitcoinTxValidationData) (is_valid_tx : bool) (x : SignatureHash * InputValidationResult)
    : BitcoinTxSigHash :=
  let '(sighash, validation_result) := x in
  mkTxSigHash (sh_txid sighash) (vd_chain_tip d) (op_txid (sh_outpoint sighash)) (sh_aggregate_key sighash)
    (op_vout (sh_outpoint sighash)) (sh_sighash sighash) (sh_prevout_type sighash) validation_result is_valid_tx
    (is_valid_tx && bool_decide (validation_result = InputOk)).
Definition to_input_rows (d : BitcoinTxValidationData) : outcome Empty_set (list BitcoinTxSigHash) :=
  is_valid_tx ← is_valid_tx d;
  validation_results ← collect (fun x =>
      validate_deposit x.2 (vd_chain_tip_height d) (vd_tx d) (vd_tx_fee d) (vd_sbtc_limits d))
    (reports_deposits (vd_reports d));
  let deposit_sighashes := zip (vd_deposit_sighashes d) validation_results in
  mret (map (input_row d is_valid_tx) ((vd_signer_sighash d, InputOk) :: deposit_sighashes)).

Definition withdrawal_row (d : BitcoinTxValidationData) (is_valid_tx : bool)
    (x : Z * (WithdrawalRequest * WithdrawalRequestReport)) : outcome Empty_set BitcoinWithdrawalOutput :=
  let '(output_index, (_, report)) := x in
  index ← add_u 32 (output_index mod 2 ^ 32) 2;
  v ← validate_withdrawal report (vd_chain_tip_height d) (Z.to_nat output_index + 2) (vd_tx d) (vd_tx_fee d)
        (vd_sbtc_limits d);
  mret (mkBitcoinWithdrawalOutput (compute_txid (vd_tx d)) (vd_chain_tip d) index (q_request_id (wrep_id report))
          (q_txid (wrep_id report)) (q_block_hash (wrep_id report)) v is_valid_tx).
Definition to_withdrawal_rows (d : BitcoinTxValidationData) : outcome Empty_set (list BitcoinWithdrawalOutput) :=
  is_valid_tx ← is_valid_tx d;
  collect (withdrawal_row d is_valid_tx) (enumerate (reports_withdrawals (vd_reports d))).

End Validation.

(** ** Lemmas *)
Lemma all_insert_true {A} `{Countable A} (l : list A) : forall set set',
  all_insert set l = (true, set') <-> NoDup l /\ (forall x, x ∈ l -> x ∉ set) /\ set' = list_to_set l ∪ set.
Proof.
  induction l as [|a l IH]; intros set set'; simpl.
  - split; [intros [= <-]; split_and!; [constructor|set_solver|set_solver]|].
    intros (_ & _ & ->). f_equal. set_solver.
  - rewrite NoDup_cons. case_decide; [split; [done|intros (_ & Hx & _); set_solver]|]. rewrite IH. split.
    + intros (Hnd & Hx & ->). split_and!; [set_solver|done|set_solver|set_solver].
    + intros ((Hni & Hnd) & Hx & ->). split_and!; [done|set_solver|set_solver].
Qed.

Lemma fresh_app {A} `{Countable A} (l r : list A) (s : gset A) : NoDup l -> (forall x, x ∈ l -> x ∉ s) ->
  (forall x, x ∈ l ++ r -> x ∉ s) /\ (forall x, x ∈ l -> x ∉ r) <->
  (forall x, x ∈ r -> x ∉ list_to_set l ∪ s).
Proof.
  intros Hnd Hl. setoid_rewrite elem_of_app. setoid_rewrite not_elem_of_union. setoid_rewrite elem_of_list_to_set.
  naive_solver.
Qed.

Lemma is_unique_from_spec package : forall dset wset,
  is_unique_from dset wset package = true <->
  NoDup (concat (map tr_deposits package)) /\
  NoDup (map q_request_id (concat (map tr_withdrawals package))) /\
  (forall o, o ∈ concat (map tr_deposits package) -> o ∉ dset) /\
  (forall i, i ∈ map q_request_id (concat (map tr_withdrawals package)) -> i ∉ wset).
Proof.
  induction package as [|reqs package IH]; intros dset wset; cbn [is_unique_from map concat].
  - split; [intros _; split_and!; [constructor|constructor|set_solver|set_solver]|done].
  - rewrite map_app, !NoDup_app. destruct (all_insert dset _) as [okd dset'] eqn:Hd.
    destruct (all_insert wset _) as [okw wset'] eqn:Hw.
    destruct okd; [apply all_insert_true in Hd as (Hd1 & Hd2 & ->)|].
    2: { split; [done|]. intros ((Hnd & _) & _ & Hdd & _). exfalso.
         assert (all_insert dset (tr_deposits reqs) = (true, list_to_set (tr_deposits reqs) ∪ dset)) as E; [|congruence].
         apply all_insert_true. split_and!; [done|set_solver|done]. }
    destruct okw; [apply all_insert_true in Hw as (Hw1 & Hw2 & ->)|].
    2: { split; [done|]. intros (_ & (Hnd & _) & _ & Hdw). exfalso.
         set (l := map q_request_id (tr_withdrawals reqs)) in *.
         assert (all_insert wset l = (true, list_to_set l ∪ wset)) as E; [|congruence].
         apply all_insert_true. split_and!; [done|set_solver|done]. }
    simpl. rewrite IH. clear IH.
    pose proof (fresh_app _ (concat (map tr_deposits package)) dset Hd1 Hd2) as F1.
    pose proof (fresh_app _ (map q_request_id (concat (map tr_withdrawals package))) wset Hw1 Hw2) as F2.
    tauto.
Qed.

Lemma is_unique_spec package : is_unique package = true <->
  NoDup (concat (map tr_deposits package)) /\ NoDup (map q_request_id (concat (map tr_withdrawals package))).
Proof. unfold is_unique. rewrite is_unique_from_spec. split; [tauto|]. intros [? ?]. split_and!; [done|done|set_solver..]. Qed.

Section ValidationLemmas.
Context `{BitcoinLib}.

(** What [Ok] from each [validate] means. *)
Definition deposit_valid (r : DepositRequestReport) (tip : Z) (tx : Transaction) (fee : Z) (l : SbtcLimits) : Prop :=
  exists height hash lock assessed,
    rep_status r = DepositConfirmed height hash /\
    per_deposit_minimum l <= rep_amount r <= per_deposit_cap l /\
    rep_lock_time r = LockBlocks lock /\ saturating_sub tip height < saturating_sub lock DEPOSIT_LOCKTIME_BLOCK_BUFFER /\
    assess_input_fee tx (rep_outpoint r) fee = Ok (Some assessed) /\
    assessed <= rep_max_fee r /\ assessed <= rep_amount r /\ DEPOSIT_DUST_LIMIT <= rep_amount r - assessed /\
    rep_can_accept r = Some true.
Definition withdrawal_valid (r : WithdrawalRequestReport) (tip : Z) (index : nat) (tx : Transaction) (fee : Z)
    (l : SbtcLimits) : Prop :=
  exists assessed,
    wrep_status r = WithdrawalConfirmed /\ wrep_is_accepted r = Some true /\
    minimal_non_dust (wrep_recipient r) <= wrep_amount r <= per_withdrawal_cap l /\
    WITHDRAWAL_MIN_CONFIRMATIONS <= saturating_sub tip (wrep_bitcoin_block_height r) <= WITHDRAWAL_BLOCKS_EXPIRY /\
    assess_output_fee tx index fee = Ok (Some assessed) /\ assessed <= wrep_max_fee r.

(** The four results a valid transaction may have for a deposit. *)
Definition tolerated (v : InputValidationResult) : bool :=
  match v with InputOk | CannotSignUtxo | DkgSharesUnverified | DkgSharesVerifyFailed => true | _ => false end.

Lemma validate_deposit_inv r tip tx fee l v : validate_deposit r tip tx fee l = Ok v -> tolerated v = true ->
  deposit_valid r tip tx fee l /\
  (v = InputOk -> rep_can_sign r = Some true /\ rep_dkg_shares_status r = Some Verified).
Proof.
  unfold validate_deposit. intros Hv Ht.
  destruct (rep_status r) as [height hash|t|] eqn:Hst; [|injection Hv as <-; done..].
  destruct (Z.ltb_spec (rep_amount r) (per_deposit_minimum l)); [injection Hv as <-; done|].
  destruct (Z.ltb_spec (per_deposit_cap l) (rep_amount r)); [injection Hv as <-; done|].
  destruct (rep_lock_time r) as [lock|t] eqn:Hlk; [|injection Hv as <-; done].
  destruct (Z.leb_spec (saturating_sub lock DEPOSIT_LOCKTIME_BLOCK_BUFFER) (saturating_sub tip height));
    [injection Hv as <-; done|].
  apply bind_ok_inv in Hv as ([assessed|] & Ha & Hv); [|injection Hv as <-; done].
  destruct (Z.ltb_spec (Z.min (rep_max_fee r) (rep_amount r)) assessed); [injection Hv as <-; done|].
  destruct (Z.ltb_spec (saturating_sub (rep_amount r) assessed) DEPOSIT_DUST_LIMIT); [injection Hv as <-; done|].
  destruct (rep_can_accept r) as [[]|] eqn:Hacc; [|injection Hv as <-; done..].
  assert (DEPOSIT_DUST_LIMIT <= rep_amount r - assessed) by (unfold saturating_sub, DEPOSIT_DUST_LIMIT in *; lia).
  split; [exists height, hash, lock, assessed; split_and!; (done || lia)|]. intros ->.
  destruct (rep_can_sign r) as [[]|]; try done. by destruct (rep_dkg_shares_status r) as [[]|].
Qed.

Lemma validate_withdrawal_inv r tip i tx fee l :
  validate_withdrawal r tip i tx fee l = Ok WithdrawalOk -> withdrawal_valid r tip i tx fee l.
Proof.
  unfold validate_withdrawal. intros Hv. destruct (wrep_status r) eqn:Hst; try done.
  destruct (wrep_is_accepted r) as [[]|] eqn:Hacc; try done.
  destruct (Z.ltb_spec (per_withdrawal_cap l) (wrep_amount r)); [done|].
  destruct (Z.ltb_spec (wrep_amount r) (minimal_non_dust (wrep_recipient r))); [done|].
  destruct (Z.ltb_spec (saturating_sub tip (wrep_bitcoin_block_height r)) WITHDRAWAL_MIN_CONFIRMATIONS); [done|].
  destruct (Z.ltb_spec WITHDRAWAL_BLOCKS_EXPIRY (saturating_sub tip (wrep_bitcoin_block_height r))); [done|].
  apply bind_ok_inv in Hv as ([assessed|] & Ha & Hv); [|done].
  destruct (Z.ltb_spec (wrep_max_fee r) assessed); [done|]. exists assessed. split_and!; (done || lia).
Qed.

(** A fold of [all]. *)
Lemma iter_all_true {A} (f : A -> outcome Empty_set bool) (l : list A) :
  iter_all f l = Ok true -> Forall (fun a => f a = Ok true) l.
Proof.
  unfold iter_all. assert (forall l b, ofold (fun (ok : bool) a => if ok then f a else mret false) b l = Ok true ->
    b = true /\ Forall (fun a => f a = Ok true) l) as Hgen; [|intros Hf; by apply Hgen in Hf as [_ ?]].
  clear l. induction l as [|a l IH]; intros b Hf; cbn [ofold] in Hf; [outcome_inv; by split; [|constructor]|].
  outcome_inv. apply IH in Hf as [-> Hall]. destruct b; [|done]. split; [done|by constructor].
Qed.

Lemma is_valid_tx_inv d : is_valid_tx d = Ok true ->
  (reports_deposits (vd_reports d) <> [] \/ reports_withdrawals (vd_reports d) <> []) /\
  Forall (fun x => deposit_valid x.2 (vd_chain_tip_height d) (vd_tx d) (vd_tx_fee d) (vd_sbtc_limits d))
    (reports_deposits (vd_reports d)) /\
  (forall k x, reports_withdrawals (vd_reports d) !! k = Some x ->
     withdrawal_valid x.2 (vd_chain_tip_height d) (k + 2) (vd_tx d) (vd_tx_fee d) (vd_sbtc_limits d)).
Proof.
  unfold is_valid_tx. intros Hv. set (ds := reports_deposits (vd_reports d)) in *.
  set (ws := reports_withdrawals (vd_reports d)) in *.
  destruct (is_empty ds && is_empty ws) eqn:Hne; [done|]. rename Hv into Hm.
  split; [apply andb_false_iff in Hne as [?%is_empty_false|?%is_empty_false]; auto|].
  apply bind_ok_inv in Hm as (okd & Hd & Hm). apply bind_ok_inv in Hm as (okw & Hw & Hm).
  injection Hm as Hm. apply andb_true_iff in Hm as [-> ->]. apply iter_all_true in Hd, Hw. split.
  - eapply Forall_impl; [exact Hd|]. simpl. intros x Hx. apply bind_ok_inv in Hx as (v & Hv & Ht). injection Ht as Ht.
    by eapply validate_deposit_inv.
  - intros k x Hk. rewrite Forall_forall in Hw. specialize (Hw (Z.of_nat k, x)). simpl in Hw.
    rewrite Nat2Z.id in Hw. destruct (bind_ok_inv _ _ _ (Hw (enumerate_elem _ _ _ Hk))) as (v & Hv & Ht).
    injection Ht as Ht%bool_decide_eq_true. subst v. by apply validate_withdrawal_inv.
Qed.


(** *** Rebuilding: the reports, the inputs and the outputs are aligned *)
Lemma requests_sorted_lt (ds : list DepositRequest) (ws : list WithdrawalRequest) :
  StronglySorted (key_lt (fun d => outpoint_key (dr_outpoint d))) ds ->
  StronglySorted (key_lt (fun w => qualified_id_key (wr_qualified_id w))) ws ->
  StronglySorted (key_lt request_key) (map Deposit ds ++ map Withdrawal ws).
Proof.
  intros Hd Hw. apply StronglySorted_app. rewrite !StronglySorted_map. split_and!.
  - intros x y (d & -> & _)%list_elem_of_fmap (w & -> & _)%list_elem_of_fmap. done.
  - eapply StronglySorted_impl; [|exact Hd]. intros d d' Hlt.
    apply (okey_cmp_app_lt ([0] :: outpoint_key (dr_outpoint d)) ([0] :: outpoint_key (dr_outpoint d'))); [done|]. exact Hlt.
  - eapply StronglySorted_impl; [|exact Hw]. intros w w' Hlt.
    apply (okey_cmp_app_lt ([1] :: qualified_id_key (wr_qualified_id w)) ([1] :: qualified_id_key (wr_qualified_id w')));
      [done|]. exact Hlt.
Qed.

(** The reports in the cache are those of the requested ids. *)
Record cache_coherent (cache : ValidationCache) : Prop := {
  cc_deposits : forall o r v, cache_deposit_reports cache !! o = Some (r, v) -> rep_outpoint r = o;
  cc_withdrawals : forall i r v, cache_withdrawal_reports cache !! i = Some (r, v) -> wrep_id r = i }.

Record rebuilt (cache : ValidationCache) (requests : TxRequestIds) (state : SignerBtcState)
    (d : BitcoinTxValidationData) (u : UnsignedTransaction) (shs : SignatureHashes) : Prop := {
  rb_state : reports_signer_state (vd_reports d) = state;
  rb_ds : Forall (fun x => exists votes, cache_deposit_reports cache !! rep_outpoint x.2 = Some (x.2, votes) /\
            x.1 = to_deposit_request x.2 votes) (reports_deposits (vd_reports d));
  rb_ws : Forall (fun x => exists votes, cache_withdrawal_reports cache !! wrep_id x.2 = Some (x.2, votes) /\
            x.1 = to_withdrawal_request x.2 votes) (reports_withdrawals (vd_reports d));
  rb_dperm : map (fun x => rep_outpoint x.2) (reports_deposits (vd_reports d)) ≡ₚ tr_deposits requests;
  rb_wperm : map (fun x => wrep_id x.2) (reports_withdrawals (vd_reports d)) ≡ₚ tr_withdrawals requests;
  rb_lt : StronglySorted (key_lt request_key)
    (map (fun x => Deposit x.1) (reports_deposits (vd_reports d)) ++
     map (fun x => Withdrawal x.1) (reports_withdrawals (vd_reports d)));
  rb_stub : new_stub (map (fun x => Deposit x.1) (reports_deposits (vd_reports d)) ++
                      map (fun x => Withdrawal x.1) (reports_withdrawals (vd_reports d))) state = Ok u;
  rb_digests : construct_digests u = Ok shs;
  rb_sorted : deposit_sighashes shs =
    map (fun x => mkSignatureHash (shs_txid shs) (dr_outpoint x.1) x.2 DepositInput (dr_signers_public_key x.1))
      (shs_deposits shs);
  rb_signer : vd_signer_sighash d = signer_sighash shs;
  rb_deposits : vd_deposit_sighashes d = deposit_sighashes shs;
  rb_tx : vd_tx d = ut_tx u;
  rb_fee : vd_tx_fee d = ut_tx_fee u }.

Lemma collect_lookup_deposits (cache : ValidationCache) err l r : cache_coherent cache ->
  collect (E:=ValidationError) (fun outpoint =>
      '(report, votes) ← ok_or (cache_deposit_reports cache !! outpoint) err;
      mret (to_deposit_request report votes, report)) l = Ok r ->
  map (fun x => rep_outpoint x.2) r = l /\
  Forall (fun x => exists votes, cache_deposit_reports cache !! rep_outpoint x.2 = Some (x.2, votes) /\
            x.1 = to_deposit_request x.2 votes) r.
Proof.
  intros Hcc Hr. apply collect_inv in Hr. induction Hr as [|o x l r Hx Hr [IH1 IH2]]; [done|].
  destruct (cache_deposit_reports cache !! o) as [[rep v]|] eqn:Ho; [|done]. injection Hx as <-.
  pose proof (cc_deposits _ Hcc _ _ _ Ho) as Hrep. cbn [map snd]. rewrite IH1, Hrep. split; [done|].
  constructor; [|done]. exists v. simpl. by rewrite Hrep.
Qed.
Lemma collect_lookup_withdrawals (cache : ValidationCache) err l r : cache_coherent cache ->
  collect (E:=ValidationError) (fun id =>
      '(report, votes) ← ok_or (cache_withdrawal_reports cache !! id) err;
      mret (to_withdrawal_request report votes, report)) l = Ok r ->
  map (fun x => wrep_id x.2) r = l /\
  Forall (fun x => exists votes, cache_withdrawal_reports cache !! wrep_id x.2 = Some (x.2, votes) /\
            x.1 = to_withdrawal_request x.2 votes) r.
Proof.
  intros Hcc Hr. apply collect_inv in Hr. induction Hr as [|o x l r Hx Hr [IH1 IH2]]; [done|].
  destruct (cache_withdrawal_reports cache !! o) as [[rep v]|] eqn:Ho; [|done]. injection Hx as <-.
  pose proof (cc_withdrawals _ Hcc _ _ _ Ho) as Hrep. cbn [map snd]. rewrite IH1, Hrep. split; [done|].
  constructor; [|done]. exists v. simpl. by rewrite Hrep.
Qed.

Lemma outpoint_key_inj o1 o2 : outpoint_key o1 = outpoint_key o2 -> o1 = o2.
Proof. destruct o1, o2. by intros [= -> ->]. Qed.
Lemma qualified_id_key_inj q1 q2 : qualified_id_key q1 = qualified_id_key q2 -> q1 = q2.
Proof. destruct q1, q2. by intros [= -> -> ->]. Qed.


Lemma map_key_eq {A B} (f g : A -> B) (l : list A) : Forall (fun x => f x = g x) l -> map f l = map g l.
Proof. apply Forall_fmap_ext_1. Qed.

Lemma omap_deposits_app {A B} (ds : list (DepositRequest * A)) (ws : list (WithdrawalRequest * B)) :
  omap as_deposit (map (fun x => Deposit x.1) ds ++ map (fun x => Withdrawal x.1) ws) = map fst ds.
Proof.
  rewrite omap_app. rewrite <- (map_map fst Deposit), omap_map_Deposit.
  assert (omap as_deposit (map (fun x => Withdrawal x.1) ws) = []) as ->; [|by rewrite app_nil_r].
  induction ws; simpl; done.
Qed.
Lemma omap_withdrawals_app {A B} (ds : list (DepositRequest * A)) (ws : list (WithdrawalRequest * B)) :
  omap as_withdrawal (map (fun x => Deposit x.1) ds ++ map (fun x => Withdrawal x.1) ws) = map fst ws.
Proof.
  rewrite omap_app. rewrite <- (map_map fst Withdrawal), omap_map_Withdrawal.
  assert (omap as_withdrawal (map (fun x => Deposit x.1) ds) = []) as ->; [|done].
  induction ds; simpl; done.
Qed.

Lemma to_withdrawal_request_id r votes : wr_qualified_id (to_withdrawal_request r votes) = wrep_id r.
Proof. unfold wr_qualified_id. simpl. by destruct (wrep_id r). Qed.

Lemma construct_tx_sighashes_inv env ctx requests state cache d state' : cache_coherent cache ->
  NoDup (tr_deposits requests) -> NoDup (tr_withdrawals requests) ->
  construct_tx_sighashes env ctx requests state cache = Ok (d, state') ->
  vd_chain_tip_height d = bc_chain_tip_height ctx /\ vd_sbtc_limits d = env_limits env /\
  exists u shs, rebuilt cache requests state d u shs /\ new_signer_utxo (E:=ValidationError) u = Ok (sb_utxo state') /\
    sb_last_fees state' = None.
Proof.
  intros Hcc Hnd Hnw Hc. unfold construct_tx_sighashes in Hc.
  apply bind_ok_inv in Hc as (ds & Hds & Hc). apply bind_ok_inv in Hc as (ws & Hws & Hc).
  destruct (collect_lookup_deposits _ _ _ _ Hcc Hds) as [Hd1 Hd2].
  destruct (collect_lookup_withdrawals _ _ _ _ Hcc Hws) as [Hw1 Hw2]. clear Hds Hws.
  set (ds' := sort_by_key _ ds) in Hc. set (ws' := sort_by_key _ ws) in Hc.
  assert (ds' ≡ₚ ds) as Hdp by apply sort_by_key_perm. assert (ws' ≡ₚ ws) as Hwp by apply sort_by_key_perm.
  apply bind_ok_inv in Hc as (u & Hu & Hc). apply bind_ok_inv in Hc as (shs & Hshs & Hc).
  apply bind_ok_inv in Hc as (utxo & Hutxo & Hc). injection Hc as <- <-. apply map_err_ok_inv in Hu, Hshs.
  assert (StronglySorted (key_lt (fun x : DepositRequest * DepositRequestReport => outpoint_key (dr_outpoint x.1))) ds') as Hsd.
  { apply sorted_lt; [apply sort_by_key_sorted|]. rewrite Hdp.
    rewrite (map_key_eq _ (fun x => outpoint_key (rep_outpoint x.2))).
    - rewrite <- (map_map (fun x => rep_outpoint x.2) outpoint_key), Hd1. apply NoDup_fmap_2_strong; [|done].
      intros ? ? _ _. apply outpoint_key_inj.
    - eapply Forall_impl; [exact Hd2|]. intros x (v & _ & ->). done. }
  assert (StronglySorted (key_lt (fun x : WithdrawalRequest * WithdrawalRequestReport => qualified_id_key (wrep_id x.2))) ws') as Hsw.
  { apply sorted_lt; [apply sort_by_key_sorted|]. rewrite Hwp.
    rewrite <- (map_map (fun x => wrep_id x.2) qualified_id_key), Hw1. apply NoDup_fmap_2_strong; [|done].
    intros ? ? _ _. apply qualified_id_key_inj. }
  rewrite <- Hdp in Hd2. rewrite <- Hwp in Hw2.
  assert (StronglySorted (key_lt request_key)
    (map (fun x => Deposit x.1) ds' ++ map (fun x => Withdrawal x.1) ws')) as Hlt.
  { rewrite <- (map_map fst Deposit), <- (map_map fst Withdrawal). apply requests_sorted_lt.
    - by rewrite StronglySorted_map.
    - rewrite StronglySorted_map. eapply StronglySorted_impl_in; [|exact Hsw]. unfold key_lt. intros x y Hx Hy.
      rewrite Forall_forall in Hw2. destruct (Hw2 x Hx) as (vx & _ & ->), (Hw2 y Hy) as (vy & _ & ->).
      by rewrite !to_withdrawal_request_id. }
  unfold create_transaction in Hu. cbn [reports_deposits reports_withdrawals reports_signer_state] in Hu.
  unfold requests_new in Hu. rewrite (sort_by_key_lt _ _ Hlt) in Hu.
  split_and!; [done..|]. exists u, shs. split_and!; [|done|done]. constructor; cbn; try done.
  - by rewrite Hdp, Hd1.
  - by rewrite Hwp, Hw1.
  - unfold deposit_sighashes. rewrite sort_by_key_lt; [apply map_ext; by intros []|].
    pose proof (construct_digests_inv _ _ Hshs) as (_ & _ & _ & _ & Hfst & _).
    pose proof (new_stub_inv _ _ _ Hu) as (_ & Hr & _). rewrite Hr in Hfst. rewrite omap_deposits_app in Hfst.
    apply (proj1 (StronglySorted_map (key_lt (fun d => outpoint_key (dr_outpoint d))) fst _)). rewrite Hfst.
    by apply StronglySorted_map.
Qed.


(** *** The cache holds exactly the requested reports *)
Record env_coherent (env : ValidationEnv) : Prop := {
  ec_deposits : forall tip o pk r, get_deposit_request_report env tip o pk = Ok (Some r) ->
    rep_outpoint r = o /\ 0 <= rep_amount r;
  ec_withdrawals : forall tip stip i pk r, get_withdrawal_request_report env tip stip i pk = Ok (Some r) ->
    wrep_id r = i /\ 0 <= wrep_amount r }.

Record cache_inv (dl : list OutPoint) (wl : list QualifiedRequestId) (cache : ValidationCache) : Prop := {
  cv_coherent : cache_coherent cache;
  cv_dnn : forall o r v, cache_deposit_reports cache !! o = Some (r, v) -> 0 <= rep_amount r;
  cv_wnn : forall i r v, cache_withdrawal_reports cache !! i = Some (r, v) -> 0 <= wrep_amount r;
  cv_ddom : forall o, is_Some (cache_deposit_reports cache !! o) <-> o ∈ dl;
  cv_wdom : forall i, is_Some (cache_withdrawal_reports cache !! i) <-> i ∈ wl }.

Lemma lookup_insert_is_Some_iff {K A} `{Countable K} (m : gmap K A) k x (l : list K) :
  (forall i, is_Some (m !! i) <-> i ∈ l) -> forall i, is_Some (<[k := x]> m !! i) <-> i ∈ l ++ [k].
Proof.
  intros Hm i. rewrite lookup_insert_is_Some', elem_of_app, list_elem_of_singleton, Hm. naive_solver.
Qed.

Lemma fetch_deposit_inv env ctx dl wl cache o cache' : env_coherent env -> cache_inv dl wl cache ->
  fetch_deposit env ctx cache o = Ok cache' -> cache_inv (dl ++ [o]) wl cache'.
Proof.
  intros Henv [[Hc1 Hc2] Hd Hw Hdd Hwd] Hf. unfold fetch_deposit in Hf. apply bind_ok_inv in Hf as (rep & Hrep & Hf).
  destruct rep as [rep|]; [|done]. apply bind_ok_inv in Hf as (v & _ & Hf). injection Hf as <-.
  destruct (ec_deposits _ Henv _ _ _ _ Hrep) as [Ho Ha]. constructor; [constructor|..]; cbn; try done.
  - intros o' r v'. rewrite lookup_insert_Some. intros [[<- [= <- <-]]|[_ ?]]; [done|by eapply Hc1].
  - intros o' r v'. rewrite lookup_insert_Some. intros [[<- [= <- <-]]|[_ ?]]; [done|by eapply Hd].
  - by apply lookup_insert_is_Some_iff.
Qed.
Lemma fetch_withdrawal_inv env ctx tip dl wl cache i cache' : env_coherent env -> cache_inv dl wl cache ->
  fetch_withdrawal env ctx tip cache i = Ok cache' -> cache_inv dl (wl ++ [i]) cache'.
Proof.
  intros Henv [[Hc1 Hc2] Hd Hw Hdd Hwd] Hf. unfold fetch_withdrawal in Hf. apply bind_ok_inv in Hf as (rep & Hrep & Hf).
  destruct rep as [rep|]; [|done]. apply bind_ok_inv in Hf as (v & _ & Hf). injection Hf as <-.
  destruct (ec_withdrawals _ Henv _ _ _ _ _ Hrep) as [Ho Ha]. constructor; [constructor|..]; cbn; try done.
  - intros o' r v'. rewrite lookup_insert_Some. intros [[<- [= <- <-]]|[_ ?]]; [done|by eapply Hc2].
  - intros o' r v'. rewrite lookup_insert_Some. intros [[<- [= <- <-]]|[_ ?]]; [done|by eapply Hw].
  - by apply lookup_insert_is_Some_iff.
Qed.

Lemma fetch_all_reports_inv r env ctx cache : env_coherent env -> fetch_all_reports r env ctx = Ok cache ->
  cache_inv (concat (map tr_deposits (ps_request_package r))) (concat (map tr_withdrawals (ps_request_package r))) cache.
Proof.
  intros Henv Hf. unfold fetch_all_reports in Hf. destruct (env_stacks_chain_tip env) as [tip|]; [|done].
  refine (ofold_ind (fun dn c => cache_inv (concat (map tr_deposits dn)) (concat (map tr_withdrawals dn)) c)
    _ _ (ps_request_package r) [] _ cache _ Hf).
  - intros dn c reqs c' Hinv Hstep. unfold fetch_requests in Hstep. apply bind_ok_inv in Hstep as (c1 & H1 & H2).
    rewrite !map_app, !concat_app. cbn [map concat]. rewrite !app_nil_r.
    assert (cache_inv (concat (map tr_deposits dn) ++ tr_deposits reqs) (concat (map tr_withdrawals dn)) c1) as Hc1.
    { refine (ofold_ind (fun l c => cache_inv (concat (map tr_deposits dn) ++ l) (concat (map tr_withdrawals dn)) c)
        _ _ (tr_deposits reqs) [] c c1 _ H1); [|by rewrite app_nil_r].
      intros l c0 o c2 Hi Hs. rewrite app_assoc. by eapply fetch_deposit_inv. }
    refine (ofold_ind (fun l c => cache_inv (concat (map tr_deposits dn) ++ tr_deposits reqs)
        (concat (map tr_withdrawals dn) ++ l) c) _ _ (tr_withdrawals reqs) [] c1 c' _ H2); [|by rewrite app_nil_r].
    intros l c0 o c2 Hi Hs. rewrite app_assoc. by eapply fetch_withdrawal_inv.
  - constructor; [constructor|..]; cbn; intros *; rewrite ?lookup_empty; try done.
    + split; [by intros [? ?]|set_solver].
    + split; [by intros [? ?]|set_solver].
Qed.

(** *** The amount limits *)
Lemma mint_fold max l : forall acc s, 0 <= acc -> Forall (fun x => 0 <= x) l ->
  ofold (mint_step max) acc l = Ok s -> s = acc + zsum l /\ (l = [] \/ acc + zsum l <= max).
Proof.
  induction l as [|x l IH]; intros acc s Ha Hl Hs; cbn [ofold] in Hs.
  { injection Hs as <-. split; [simpl; lia|by left]. }
  apply Forall_cons in Hl as [Hx Hl]. apply bind_ok_inv in Hs as (s1 & Hs1 & Hs). unfold mint_step in Hs1.
  unfold checked_add in Hs1. destruct (acc + x <? 2 ^ 64); [|done]. cbn in Hs1.
  destruct (Z.ltb_spec max (acc + x)); [done|]. injection Hs1 as <-. apply IH in Hs as [-> Hm]; [|lia|done].
  cbn [zsum foldr] in *. fold (zsum l). split; [lia|]. right. destruct Hm as [->|Hm]; cbn; lia.
Qed.
Lemma withdraw_fold lim l : forall acc s, 0 <= acc -> Forall (fun x => 0 <= x) l ->
  ofold (withdraw_step lim) acc l = Ok s ->
  l = [] \/ u64_max <= rolling_cap lim \/ acc + zsum l <= rolling_cap lim.
Proof.
  induction l as [|x l IH]; intros acc s Ha Hl Hs; cbn [ofold] in Hs; [by left|]. right.
  apply Forall_cons in Hl as [Hx Hl]. apply bind_ok_inv in Hs as (s1 & Hs1 & Hs). unfold withdraw_step in Hs1.
  destruct (Z.ltb_spec (rolling_cap lim) (saturating_add 64 acc x)) as [|Hle]; [done|]. injection Hs1 as <-.
  change (2 ^ 64 - 1) with u64_max in *. unfold saturating_add in *. fold u64_max in *.
  apply IH in Hs; [|unfold u64_max; lia|done]. cbn [zsum foldr]. fold (zsum l).
  destruct Hs as [->|[?|Hs]]; [cbn; lia|by left|]. destruct (Z.le_gt_cases u64_max (rolling_cap lim)); [by left|].
  right. lia.
Qed.

Lemma sum_over_map {K A} `{Countable K} (m : gmap K A) (f : A -> Z) (l : list K) (g : K -> Z) : NoDup l ->
  (forall k, is_Some (m !! k) <-> k ∈ l) -> (forall k a, m !! k = Some a -> g k = f a) ->
  zsum (map (fun e => f e.2) (map_to_list m)) = zsum (map g l).
Proof.
  intros Hnd Hdom Hg. assert ((map_to_list m).*1 ≡ₚ l) as Hp.
  { apply NoDup_Permutation; [apply NoDup_fst_map_to_list|done|]. intros k. rewrite <- Hdom. split.
    - intros ([k' a] & -> & Hin)%list_elem_of_fmap. apply elem_of_map_to_list in Hin. eauto.
    - intros [a Ha]. apply list_elem_of_fmap. exists (k, a). split; [done|]. by apply elem_of_map_to_list. }
  transitivity (zsum (map g (map fst (map_to_list m)))); [|apply zsum_perm; by rewrite <- Hp].
  rewrite map_map. f_equal. apply map_key_eq. apply Forall_forall. intros [k a] Hin%elem_of_map_to_list.
  simpl. symmetry. by apply Hg.
Qed.

End ValidationLemmas.

Section PackageLemmas.
Context `{BitcoinLib}.

Lemma NoDup_concat {A} (ls : list (list A)) : NoDup (concat ls) -> Forall NoDup ls.
Proof.
  induction ls as [|l ls IH]; simpl; [constructor|]. intros (? & _ & ?)%NoDup_app. constructor; auto.
Qed.

(** The amounts cached for the ids of a package are those of its reports. *)
Lemma cached_amounts {K R V W} `{Countable K} (m : gmap K (R * V)) (key : R -> K) (amount : R -> Z)
    (P : W * R -> V -> Prop) (ids : list K) (xs : list (W * R)) :
  NoDup ids -> (forall k, is_Some (m !! k) <-> k ∈ ids) -> map (fun x => key x.2) xs ≡ₚ ids ->
  Forall (fun x => exists v, m !! key x.2 = Some (x.2, v) /\ P x v) xs ->
  zsum (map (fun e => amount e.2.1) (map_to_list m)) = zsum (map (fun x => amount x.2) xs).
Proof.
  intros Hnd Hdom Hp Hxs. set (g := fun k => match m !! k with Some (r, _) => amount r | None => 0 end).
  rewrite (sum_over_map m (fun x => amount x.1) ids g); [|done|done|].
  - rewrite (zsum_perm _ (map g (map (fun x => key x.2) xs))) by (by rewrite Hp).
    rewrite map_map. f_equal. apply map_key_eq. eapply Forall_impl; [exact Hxs|]. intros x (v & Hx & _).
    unfold g. by rewrite Hx.
  - intros k [r v] Hk. unfold g. by rewrite Hk.
Qed.

Lemma package_reports env ctx cache state pkg st out : cache_coherent cache ->
  ofold (E:=ValidationError) (fun '(signer_state, outputs) requests =>
      '(output, new_signer_state) ← construct_tx_sighashes env ctx requests signer_state cache;
      mret (new_signer_state, outputs ++ [output])) (state, []) pkg = Ok (st, out) ->
  Forall NoDup (map tr_deposits pkg) -> Forall NoDup (map tr_withdrawals pkg) ->
  let ds := concat (map (fun d => reports_deposits (vd_reports d)) out) in
  let ws := concat (map (fun d => reports_withdrawals (vd_reports d)) out) in
  length out = length pkg /\
  map (fun x => rep_outpoint x.2) ds ≡ₚ concat (map tr_deposits pkg) /\
  map (fun x => wrep_id x.2) ws ≡ₚ concat (map tr_withdrawals pkg) /\
  Forall (fun x => exists votes, cache_deposit_reports cache !! rep_outpoint x.2 = Some (x.2, votes) /\
            x.1 = to_deposit_request x.2 votes) ds /\
  Forall (fun x => exists votes, cache_withdrawal_reports cache !! wrep_id x.2 = Some (x.2, votes) /\
            x.1 = to_withdrawal_request x.2 votes) ws.
Proof.
  intros Hcc Hf.
  refine (ofold_ind (fun dn s => Forall NoDup (map tr_deposits dn) -> Forall NoDup (map tr_withdrawals dn) ->
    let ds := concat (map (fun d => reports_deposits (vd_reports d)) s.2) in
    let ws := concat (map (fun d => reports_withdrawals (vd_reports d)) s.2) in
    length s.2 = length dn /\
    map (fun x => rep_outpoint x.2) ds ≡ₚ concat (map tr_deposits dn) /\
    map (fun x => wrep_id x.2) ws ≡ₚ concat (map tr_withdrawals dn) /\
    Forall (fun x => exists votes, cache_deposit_reports cache !! rep_outpoint x.2 = Some (x.2, votes) /\
            x.1 = to_deposit_request x.2 votes) ds /\
    Forall (fun x => exists votes, cache_withdrawal_reports cache !! wrep_id x.2 = Some (x.2, votes) /\
            x.1 = to_withdrawal_request x.2 votes) ws) _ _ pkg [] (state, []) (st, out) _ Hf); [|done].
  intros dn [s0 out0] reqs s' IH Hstep. rewrite !map_app, !Forall_app.
  intros [Hd1 [Hd2 _]%Forall_cons] [Hw1 [Hw2 _]%Forall_cons]. destruct (IH Hd1 Hw1) as (Hl & Hdp & Hwp & Hdl & Hwl).
  apply bind_ok_inv in Hstep as ([d st'] & Hc & Hs). apply ok_inj in Hs. subst s'.
  destruct (construct_tx_sighashes_inv _ _ _ _ _ _ _ Hcc Hd2 Hw2 Hc) as (_ & _ & u & shs & [_ Hds Hws Hdp' Hwp' _ _ _ _ _ _ _ _] & _).
  cbn [snd] in *. rewrite !map_app, !concat_app. cbn [map concat]. rewrite !app_nil_r, !map_app, !length_app.
  split_and!; [simpl; lia|by rewrite Hdp, Hdp'|by rewrite Hwp, Hwp'|by apply Forall_app|by apply Forall_app].
Qed.
End PackageLemmas.

(** ** Properties *)

(** C2: what a signature commits to. If the signer marks a row of a rebuilt
    transaction [will_sign], then every withdrawal of the transaction passed
    validation and is paid its amount to its recipient by output [k + 2]; every
    deposit is confirmed, unspent, within the limits, not close to its reclaim
    time, accepted by this signer, and is assessed a fee within its maximum
    that leaves more than dust; and if the row is for a deposit, its sighash is
    the script-path sighash of the input spending exactly that deposit, for
    which this signer can sign with verified shares. *)
Theorem will_sign_sound `{BitcoinLib} env ctx requests state cache d state' rows row :
  cache_coherent cache -> NoDup (tr_deposits requests) -> NoDup (tr_withdrawals requests) ->
  construct_tx_sighashes env ctx requests state cache = Ok (d, state') ->
  to_input_rows d = Ok rows -> row ∈ rows -> ts_will_sign row = true ->
  let tip := bc_chain_tip_height ctx in
  let ds := reports_deposits (vd_reports d) in
  let ws := reports_withdrawals (vd_reports d) in
  let prevouts := signer_as_tx_output (sb_utxo state) :: map (fun x => deposit_as_tx_out x.1) ds in
  map (fun x => rep_outpoint x.2) ds ≡ₚ tr_deposits requests /\
  map (fun x => wrep_id x.2) ws ≡ₚ tr_withdrawals requests /\
  (forall k x, ws !! k = Some x ->
     withdrawal_valid x.2 tip (k + 2) (vd_tx d) (vd_tx_fee d) (env_limits env) /\
     tx_output (vd_tx d) !! (k + 2)%nat = Some (mkTxOut (wrep_amount x.2) (wrep_recipient x.2))) /\
  Forall (fun x => deposit_valid x.2 tip (vd_tx d) (vd_tx_fee d) (env_limits env)) ds /\
  ((row.(ts_prevout_type) = SignersInput /\ taproot_sighash (vd_tx d) 0 prevouts KeySpend = Some (ts_sighash row)) \/
   exists i x inp, row.(ts_prevout_type) = DepositInput /\ ds !! i = Some x /\
     mkOutPoint (ts_prevout_txid row) (ts_prevout_output_index row) = rep_outpoint x.2 /\
     tx_input (vd_tx d) !! S i = Some inp /\ previous_output inp = rep_outpoint x.2 /\
     taproot_sighash (vd_tx d) (S i) prevouts (ScriptSpend (rep_deposit_script x.2)) = Some (ts_sighash row) /\
     rep_can_sign x.2 = Some true /\ rep_dkg_shares_status x.2 = Some Verified).
Proof.
  intros Hcc Hnd Hnw Hc Hrows Hrow Hsign tip ds ws prevouts.
  destruct (construct_tx_sighashes_inv _ _ _ _ _ _ _ Hcc Hnd Hnw Hc) as (Htip & Hlim & u & shs & Hrb & _ & _).
  destruct Hrb as [_ Hds Hws Hdp Hwp _ Hstub Hdig Hsort Hsg Hdep Htx Hfee].
  fold ds in Hds, Hdp, Hstub. fold ws in Hws, Hwp, Hstub.
  unfold to_input_rows in Hrows. apply bind_ok_inv in Hrows as (valid & Hvalid & Hrows).
  apply bind_ok_inv in Hrows as (results & Hres & Hrows). apply ok_inj in Hrows. subst rows.
  apply list_elem_of_fmap in Hrow as ([sh v] & -> & Hin). simpl in Hsign. apply andb_true_iff in Hsign as [-> Hv].
  apply bool_decide_eq_true in Hv as ->. apply is_valid_tx_inv in Hvalid as (_ & Hdv & Hwv).
  fold ds in Hdv. fold ws in Hwv. rewrite Htip, Hlim in Hdv, Hwv. fold tip in Hdv, Hwv.
  pose proof (new_stub_inv _ _ _ Hstub) as (_ & Hreq & Hst & _ & _ & am & op & _ & _ & Hins & Houts).
  pose proof (construct_digests_inv _ _ Hdig) as (_ & _ & _ & Hkey & Hfst & Hall).
  rewrite Hst, Hreq, omap_deposits_app, map_map in Hkey, Hall. fold prevouts in Hkey, Hall.
  rewrite Hreq, omap_deposits_app in Hfst. split_and!; [done|done| |done|].
  - intros k x Hx. split; [by apply Hwv|]. rewrite Htx, Houts, omap_withdrawals_app, Nat.add_comm. simpl.
    rewrite !list_lookup_fmap, Hx. simpl. rewrite Forall_forall in Hws.
    destruct (Hws x) as (votes & _ & ->); [by eapply list_elem_of_lookup_2|]. done.
  - apply elem_of_cons in Hin as [[= ->]|Hin].
    + left. rewrite Hsg, Htx. split; [done|exact Hkey].
    + right. rewrite Hdep, Hsort in Hin. apply list_elem_of_lookup in Hin as [i Hi].
      rewrite lookup_zip_with in Hi. rewrite list_lookup_fmap in Hi.
      destruct (shs_deposits shs !! i) as [[dr sighash]|] eqn:Hsh; [|done]. simpl in Hi.
      destruct (results !! i) as [v|] eqn:Hr; [|done]. simpl in Hi. injection Hi as <- ->.
      apply collect_inv in Hres. destruct (Forall2_lookup_r _ _ _ _ _ Hres Hr) as (x & Hx & Hval).
      fold ds in Hx. apply validate_deposit_inv in Hval as [_ Hok]; [|done]. destruct (Hok eq_refl) as [Hcs Hdkg].
      assert (dr = x.1) as ->.
      { apply (f_equal (fun l => l !! i)) in Hfst. rewrite !list_lookup_fmap, Hsh, Hx in Hfst. by injection Hfst. }
      assert (exists votes, x.1 = to_deposit_request x.2 votes) as [votes Hx1].
      { rewrite Forall_forall in Hds. destruct (Hds x) as (v & _ & ?); [by eapply list_elem_of_lookup_2|]. eauto. }
      exists i, x, (deposit_as_tx_input x.1 dummy_signature). split_and!; try done.
      * simpl. rewrite Hx1. simpl. by destruct (rep_outpoint x.2).
      * rewrite Htx, Hins. simpl. unfold tx_ins.
        assert (forall l, omap (fun req => option_map (fun d => deposit_as_tx_input d dummy_signature) (as_deposit req)) l
          = map (fun d => deposit_as_tx_input d dummy_signature) (omap as_deposit l)) as ->.
        { clear. induction l as [|[]]; simpl; [done| |done]. by f_equal. }
        by rewrite omap_deposits_app, !list_lookup_fmap, Hx.
      * simpl. by rewrite Hx1.
      * rewrite Htx. simpl. specialize (Hall i x.1 sighash Hsh). by rewrite Hx1 in Hall at 1.
Qed.

(** [pre_validation] accepts exactly the nonempty packages whose
    transactions each name a request, that name no deposit outpoint and no
    withdrawal request id twice, at a fee rate in range; and reports the first
    of these that fails. *)
Theorem pre_validation_spec r :
  let pkg := ps_request_package r in
  let requested := pkg <> [] /\ Forall (fun x => tr_deposits x <> [] \/ tr_withdrawals x <> []) pkg in
  let unique := NoDup (concat (map tr_deposits pkg)) /\ NoDup (map q_request_id (concat (map tr_withdrawals pkg))) in
  (pre_validation r = Ok tt <-> requested /\ unique /\ fee_rate_in_range (ps_fee_rate r) = true) /\
  (pre_validation r = Err PreSignContainsNoRequests <-> ~ requested) /\
  (pre_validation r = Err DuplicateRequests <-> requested /\ ~ unique) /\
  (pre_validation r = Err (PreSignInvalidFeeRate (ps_fee_rate r)) <->
     requested /\ unique /\ fee_rate_in_range (ps_fee_rate r) = false).
Proof.
  intros pkg requested unique. unfold pre_validation. fold pkg.
  destruct (existsb _ pkg || is_empty pkg) eqn:He.
  - assert (~ requested) as Hn.
    { intros [Hne Hall]. apply orb_true_iff in He as [He|He%is_empty_true]; [|done].
      apply existsb_exists in He as (x & Hx%list_elem_of_In & Hemp). apply andb_true_iff in Hemp as [H1%is_empty_true H2%is_empty_true].
      rewrite Forall_forall in Hall. by destruct (Hall x Hx). }
    clearbody requested unique. split_and!; split; (done || tauto || intuition congruence).
  - apply orb_false_iff in He as [He Hne%is_empty_false].
    assert (requested) as Hr.
    { split; [done|]. apply Forall_forall. intros x Hx. apply not_true_iff_false in He.
      destruct (decide (tr_deposits x = [])) as [Hd|]; [|by left]. right. intros Hw. apply He.
      apply existsb_exists. exists x. split; [by apply list_elem_of_In|]. by rewrite Hd, Hw. }
    destruct (is_unique pkg) eqn:Hu; cbn [negb].
    + assert unique as Hun by (by apply is_unique_spec). clearbody requested unique.
      destruct (fee_rate_in_range _) eqn:Hf; cbn [negb]; split_and!; split; (done || tauto || intuition congruence).
    + assert (~ unique) as Hun by (intros Hun; apply is_unique_spec in Hun; congruence).
      clearbody requested unique. split_and!; split; (done || tauto || intuition congruence).
Qed.

(** C13: package limits: if a package passes, it has a transaction, each of its
    transactions names at least one request, no request is named twice, its fee
    rate is in range, the deposits of all its transactions together mint at
    most the mintable cap, and its withdrawals together with those of the
    window stay within the rolling cap (a cap of [u64::MAX] meaning no limit).
    It is assumed that the database's reports are about the requests that they
    are asked for, with amounts that are not negative ([env_coherent]). *)
Theorem package_limits `{BitcoinLib} r env ctx out :
  let limits := env_limits env in
  env_coherent env -> 0 <= max_mintable_cap limits -> 0 <= rolling_withdrawn_total (rolling_withdrawal_limits limits) ->
  construct_package_sighashes r env ctx = Ok out ->
  let ds := concat (map (fun d => reports_deposits (vd_reports d)) out) in
  let ws := concat (map (fun d => reports_withdrawals (vd_reports d)) out) in
  fee_rate_in_range (ps_fee_rate r) = true /\ length out = length (ps_request_package r) /\ out <> [] /\
  Forall (fun tx => tr_deposits tx <> [] \/ tr_withdrawals tx <> []) (ps_request_package r) /\
  map (fun x => rep_outpoint x.2) ds ≡ₚ concat (map tr_deposits (ps_request_package r)) /\
  map (fun x => wrep_id x.2) ws ≡ₚ concat (map tr_withdrawals (ps_request_package r)) /\
  NoDup (map (fun x => rep_outpoint x.2) ds) /\ NoDup (map (fun x => q_request_id (wrep_id x.2)) ws) /\
  zsum (map (fun x => rep_amount x.2) ds) <= max_mintable_cap limits /\
  (ws = [] \/ u64_max <= rolling_cap (rolling_withdrawal_limits limits) \/
   rolling_withdrawn_total (rolling_withdrawal_limits limits) + zsum (map (fun x => wrep_amount x.2) ws)
     <= rolling_cap (rolling_withdrawal_limits limits)).
Proof.
  intros limits Henv Hcap0 Hwt0 Hc ds ws. unfold construct_package_sighashes in Hc. fold limits in Hc.
  apply bind_ok_inv in Hc as ([] & Hpre & Hc). apply bind_ok_inv in Hc as (cache & Hcache & Hc).
  apply bind_ok_inv in Hc as ([] & Hlim & Hc). apply bind_ok_inv in Hc as (ou & _ & Hc).
  apply bind_ok_inv in Hc as (utxo & _ & Hc). apply bind_ok_inv in Hc as (fees & _ & Hc).
  apply bind_ok_inv in Hc as ([st out'] & Hfold & Hc). injection Hc as ->.
  apply (proj1 (pre_validation_spec r)) in Hpre as ([Hne Hnamed] & [Hud Huw] & Hrate).
  pose proof (fetch_all_reports_inv _ _ _ _ Henv Hcache) as [Hcoh Hdn Hwn Hdd Hwd].
  set (pkg := ps_request_package r) in *.
  destruct (package_reports _ _ _ _ _ _ _ Hcoh Hfold) as (Hlen & Hdp & Hwp & Hdl & Hwl).
  { by apply NoDup_concat. } { apply NoDup_concat. by eapply NoDup_fmap_1. }
  fold ds in Hdp, Hdl. fold ws in Hwp, Hwl.
  unfold assert_request_amount_limits in Hlim. apply bind_ok_inv in Hlim as (s1 & Hmint & Hlim).
  apply bind_ok_inv in Hlim as (s2 & Hwith & _).
  assert (forall A (f : A -> Z) (m : list A), Forall (fun x => 0 <= f x) m -> Forall (fun x => 0 <= x) (map f m)) as Hfm.
  { intros A f m Hm. by rewrite Forall_map. }
  apply mint_fold in Hmint as [_ Hmint]; [|done|].
  2: { apply Hfm, Forall_forall. intros [o [rep v]] Hin%elem_of_map_to_list. by eapply Hdn. }
  apply withdraw_fold in Hwith; [|done|].
  2: { apply Hfm, Forall_forall. intros [o [rep v]] Hin%elem_of_map_to_list. by eapply Hwn. }
  assert (zsum (deposit_amounts cache) = zsum (map (fun x => rep_amount x.2) ds)) as Hsd
    by (eapply (cached_amounts _ rep_outpoint rep_amount); [exact Hud|exact Hdd|exact Hdp|exact Hdl]).
  assert (zsum (withdrawal_amounts cache) = zsum (map (fun x => wrep_amount x.2) ws)) as Hsw
    by (eapply (cached_amounts _ wrep_id wrep_amount); [by eapply NoDup_fmap_1|done|done|exact Hwl]).
  split_and!; [done|done|intros ->; by destruct pkg|done|done|done|by rewrite Hdp| | |].
  - rewrite <- (map_map (fun x => wrep_id x.2) q_request_id), Hwp. done.
  - rewrite <- Hsd. destruct Hmint as [->|Hm]; [done|lia].
  - destruct Hwith as [Hnil|[?|?]]; [left|right; by left|right; right; lia].
    destruct ws as [|x ws'] eqn:Hws; [done|]. apply Forall_cons in Hwl as [(v & Hx & _) _].
    unfold withdrawal_amounts in Hnil. apply elem_of_map_to_list in Hx. apply map_eq_nil in Hnil. rewrite Hnil in Hx.
    by apply not_elem_of_nil in Hx.
Qed.

Section RebuildLemmas.
Context `{BitcoinLib}.

Lemma tx_request_ids_from_spec reqs : tx_request_ids_from reqs =
  mkTxRequestIds (map dr_outpoint (omap as_deposit reqs)) (map wr_qualified_id (omap as_withdrawal reqs)).
Proof.
  unfold tx_request_ids_from. assert (forall acc, foldl (fun ids request =>
    match request with
    | Deposit deposit => mkTxRequestIds (tr_deposits ids ++ [dr_outpoint deposit]) (tr_withdrawals ids)
    | Withdrawal withdrawal => mkTxRequestIds (tr_deposits ids) (tr_withdrawals ids ++ [wr_qualified_id withdrawal])
    end) acc reqs = mkTxRequestIds (tr_deposits acc ++ map dr_outpoint (omap as_deposit reqs))
                      (tr_withdrawals acc ++ map wr_qualified_id (omap as_withdrawal reqs))) as ->; [|done].
  induction reqs as [|[d|w] reqs IH]; intros acc; cbn [foldl]; [destruct acc; simpl; by rewrite !app_nil_r|..];
    rewrite IH; simpl; by rewrite <- app_assoc.
Qed.

Lemma requests_split_perm reqs :
  reqs ≡ₚ map Deposit (omap as_deposit reqs) ++ map Withdrawal (omap as_withdrawal reqs).
Proof.
  induction reqs as [|[d|w] reqs IH]; simpl; [done|by rewrite <- IH|]. rewrite <- Permutation_middle. by rewrite <- IH.
Qed.

(** Two lists in bijection through a key are permutations of each other. *)
Lemma perm_by_key {A K} (f : A -> K) (g : K -> option A) (l k : list A) :
  Forall (fun x => g (f x) = Some x) l -> Forall (fun x => g (f x) = Some x) k -> map f l ≡ₚ map f k -> l ≡ₚ k.
Proof.
  intros Hl Hk Hp. assert (forall l, Forall (fun x => g (f x) = Some x) l -> omap g (map f l) = l) as Hid.
  { clear. induction 1 as [|x l Hx _ IH]; [done|]. cbn. rewrite Hx. f_equal. exact IH. }
  rewrite <- (Hid l Hl), <- (Hid k Hk). by rewrite Hp.
Qed.
End RebuildLemmas.

(** C24: signers rebuild the coordinator's transaction: if the coordinator built
    a sweep from a sorted package, and this signer has the same [SignerBtcState]
    (key, outpoint and fees) and reports that describe the same requests, the transaction it rebuilds from the ids in the message is the
    coordinator's transaction with the same fee. *)
Theorem rebuild_same_transaction `{BitcoinLib} env ctx reqs state cache u d state' :
  unsigned_new (requests_new reqs) state = Ok u -> cache_coherent cache ->
  NoDup (map dr_outpoint (omap as_deposit reqs)) -> NoDup (map wr_qualified_id (omap as_withdrawal reqs)) ->
  (forall dr, Deposit dr ∈ reqs -> exists r v,
     cache_deposit_reports cache !! dr_outpoint dr = Some (r, v) /\ to_deposit_request r v = dr) ->
  (forall w, Withdrawal w ∈ reqs -> exists r v,
     cache_withdrawal_reports cache !! wr_qualified_id w = Some (r, v) /\ to_withdrawal_request r v = w) ->
  construct_tx_sighashes env ctx (tx_request_ids_from (requests_new reqs)) state cache = Ok (d, state') ->
  map previous_output (tx_input (vd_tx d)) = map previous_output (tx_input (ut_tx u)) /\
  tx_output (vd_tx d) = tx_output (ut_tx u) /\ vd_tx_fee d = ut_tx_fee u.
Proof.
  intros Hu Hcc Hnd Hnw Hd Hw Hc. set (reqs' := requests_new reqs) in *.
  assert (reqs' ≡ₚ reqs) as Hp by apply requests_new_perm. rewrite <- Hp in Hnd, Hnw.
  setoid_rewrite <- Hp in Hd. setoid_rewrite <- Hp in Hw. rewrite tx_request_ids_from_spec in Hc.
  edestruct construct_tx_sighashes_inv as (_ & _ & u' & shs & Hrb & _); [exact Hcc| | |exact Hc|]; [done..|].
  destruct Hrb as [_ Hds Hws Hdp Hwp Hlt Hstub _ _ _ _ Htx Hfee]. cbn [tr_deposits tr_withdrawals] in Hdp, Hwp.
  set (ds := reports_deposits (vd_reports d)) in *. set (ws := reports_withdrawals (vd_reports d)) in *.
  assert (map fst ds ≡ₚ omap as_deposit reqs') as Hdperm.
  { apply (perm_by_key dr_outpoint (fun o => option_map (fun '(r, v) => to_deposit_request r v) (cache_deposit_reports cache !! o))).
    - rewrite Forall_map. eapply Forall_impl; [exact Hds|]. intros x (v & Hx & Hx1). simpl.
      assert (dr_outpoint x.1 = rep_outpoint x.2) as -> by (by rewrite Hx1). rewrite Hx. simpl. by rewrite Hx1.
    - apply Forall_forall. intros dr (r & Hr & Hdr)%list_elem_of_omap. destruct r; [|done]. injection Hdr as ->.
      destruct (Hd dr Hr) as (r & v & -> & <-). done.
    - rewrite <- Hdp, map_map. rewrite (map_key_eq _ (fun x => rep_outpoint x.2)); [done|].
      eapply Forall_impl; [exact Hds|]. intros x (v & _ & ->). done. }
  assert (map fst ws ≡ₚ omap as_withdrawal reqs') as Hwperm.
  { apply (perm_by_key wr_qualified_id
      (fun o => option_map (fun '(r, v) => to_withdrawal_request r v) (cache_withdrawal_reports cache !! o))).
    - rewrite Forall_map. eapply Forall_impl; [exact Hws|]. intros x (v & Hx & Hx1). simpl.
      assert (wr_qualified_id x.1 = wrep_id x.2) as -> by (by rewrite Hx1, to_withdrawal_request_id). rewrite Hx.
      simpl. by rewrite Hx1.
    - apply Forall_forall. intros w (r & Hr & Hdr)%list_elem_of_omap. destruct r; [done|]. injection Hdr as ->.
      destruct (Hw w Hr) as (r & v & -> & <-). done.
    - rewrite <- Hwp, map_map. rewrite (map_key_eq _ (fun x => wrep_id x.2)); [done|].
      eapply Forall_impl; [exact Hws|]. intros x (v & _ & ->). apply to_withdrawal_request_id. }
  assert (map (fun x => Deposit x.1) ds ++ map (fun x => Withdrawal x.1) ws = reqs') as Heq.
  { apply (sorted_unique request_key); [by apply sorted_lt_NoDup| |by apply sorted_lt_le|apply sort_by_key_sorted].
    rewrite (requests_split_perm reqs'), <- Hdperm, <- Hwperm, !map_map. done. }
  rewrite Heq in Hstub. unfold unsigned_new in Hu. rewrite Hstub in Hu. injection Hu as <-. rewrite Htx, Hfee. simpl.
  split_and!; [|done|done]. by rewrite map_map.
Qed.

(** ** Witnesses *)
#[local] Existing Instance demo_bitcoin.

Definition demo_deposit_report (o : OutPoint) : DepositRequestReport :=
  mkDepositReport o (DepositConfirmed 100 5) (Some true) (Some true) (30000 * (op_txid o + 1)) 20000 (LockBlocks 50)
    [117; 172] 7 9 (Some Verified).
Definition demo_withdrawal_report (i : QualifiedRequestId) : WithdrawalRequestReport :=
  mkWithdrawalReport i WithdrawalConfirmed 20000 20000 [81; 32] (Some true) 100.
Definition demo_votes : list SignerVote := [mkSignerVote 1 (Some true); mkSignerVote 2 (Some true)].
Definition demo_env : ValidationEnv := {|
  env_stacks_chain_tip := Some 4;
  env_limits := demo_limits;
  get_deposit_request_report := fun _ o _ => Ok (if 0 <=? op_txid o then Some (demo_deposit_report o) else None);
  get_deposit_request_signer_votes := fun _ _ => Ok demo_votes;
  get_withdrawal_request_report := fun _ _ i _ => Ok (Some (demo_withdrawal_report i));
  get_withdrawal_request_signer_votes := fun _ _ => Ok demo_votes;
  get_signer_utxo := fun _ => Ok (Some (mkSignerUtxo (mkOutPoint 99 1) 500000 11));
  find_mempool_transactions_spending_output := fun _ => Ok [21; 22];
  get_transaction_fee := fun txid => Ok (100 * txid, 300);
  find_mempool_descendants := fun _ => Ok [];
  to_x_only := fun k => k |}.
Lemma demo_env_coherent : env_coherent demo_env.
Proof.
  constructor; cbn.
  - intros tip o pk r. destruct (Z.leb_spec 0 (op_txid o)); [|done]. intros Hr. injection Hr as <-. cbn [rep_outpoint rep_amount demo_deposit_report]. split; [done|lia].
  - intros tip stip i pk r Hr. injection Hr as <-. done.
Qed.
Definition demo_ctx : BitcoinTxContext := mkTxContext 8 110 1 12.
Definition demo_ids : TxRequestIds :=
  mkTxRequestIds [mkOutPoint 2 0; mkOutPoint 1 0] [mkQualifiedRequestId 7 1 1; mkQualifiedRequestId 4 1 1].
Definition demo_presign : BitcoinPreSignRequest := mkPreSign [demo_ids] (f64_of_Z 10).
Definition demo_cache : ValidationCache :=
  match fetch_all_reports demo_presign demo_env demo_ctx with Ok c => c | _ => mkCache ∅ ∅ end.
Lemma demo_cache_ok : fetch_all_reports demo_presign demo_env demo_ctx = Ok demo_cache.
Proof. by vm_compute. Qed.
Lemma demo_cache_coherent : cache_coherent demo_cache.
Proof. exact (cv_coherent _ _ _ (fetch_all_reports_inv _ _ _ _ demo_env_coherent demo_cache_ok)). Qed.

Lemma package_limits_witness : exists out, construct_package_sighashes demo_presign demo_env demo_ctx = Ok out /\
  zsum (map (fun x => rep_amount x.2) (concat (map (fun d => reports_deposits (vd_reports d)) out))) <= 150000.
Proof.
  destruct (construct_package_sighashes demo_presign demo_env demo_ctx) as [out| | |] eqn:Hc; [|by vm_compute in Hc..].
  exists out. split; [done|].
  destruct (package_limits demo_presign demo_env demo_ctx out) as (_ & _ & _ & _ & _ & _ & _ & _ & Hm & _);
    [exact demo_env_coherent|by vm_compute|by vm_compute|exact Hc|exact Hm].
Defined.

Lemma will_sign_sound_witness : exists d st rows, construct_tx_sighashes demo_env demo_ctx demo_ids demo_state demo_cache = Ok (d, st) /\
  to_input_rows d = Ok rows /\ map ts_will_sign rows = [true; true; true] /\
  Forall (fun x => rep_can_accept x.2 = Some true) (reports_deposits (vd_reports d)).
Proof.
  destruct (construct_tx_sighashes demo_env demo_ctx demo_ids demo_state demo_cache) as [[d st]| | |] eqn:Hc;
    [|by vm_compute in Hc..].
  assert (Hr : map_ok (map ts_will_sign) (x ← map_err (fun _ => tt) (construct_tx_sighashes demo_env demo_ctx demo_ids demo_state demo_cache);
    map_err (fun _ => tt) (to_input_rows x.1)) = Ok [true; true; true]) by (by vm_compute).
  rewrite Hc in Hr. cbn in Hr. destruct (to_input_rows d) as [rows| | |] eqn:Hrows; [|done..]. cbn in Hr. injection Hr as Hr.
  exists d, st, rows. split_and!; [done..|]. destruct rows as [|row rows']; [done|].
  edestruct (will_sign_sound demo_env demo_ctx demo_ids demo_state demo_cache d st (row :: rows') row)
    as (_ & _ & _ & Hd & _).
  - exact demo_cache_coherent.
  - apply (bool_decide_unpack _). by vm_compute.
  - apply (bool_decide_unpack _). by vm_compute.
  - exact Hc.
  - exact Hrows.
  - left.
  - by injection Hr.
  - eapply Forall_impl; [exact Hd|]. intros x (? & ? & ? & ? & Hv). apply Hv.
Defined.

Definition demo_coordinator_requests : list RequestRef :=
  [Withdrawal (to_withdrawal_request (demo_withdrawal_report (mkQualifiedRequestId 7 1 1)) demo_votes);
   Deposit (to_deposit_request (demo_deposit_report (mkOutPoint 1 0)) demo_votes)].
Lemma rebuild_same_transaction_witness : exists u d st,
  unsigned_new (requests_new demo_coordinator_requests) demo_state = Ok u /\
  construct_tx_sighashes demo_env demo_ctx (tx_request_ids_from (requests_new demo_coordinator_requests)) demo_state demo_cache
    = Ok (d, st) /\
  tx_output (vd_tx d) = tx_output (ut_tx u).
Proof.
  destruct (unsigned_new (requests_new demo_coordinator_requests) demo_state) as [u| | |] eqn:Hu; [|by vm_compute in Hu..].
  destruct (construct_tx_sighashes demo_env demo_ctx (tx_request_ids_from (requests_new demo_coordinator_requests)) demo_state
    demo_cache) as [[d st]| | |] eqn:Hc; [|by vm_compute in Hc..].
  exists u, d, st. split_and!; [done..|].
  edestruct (rebuild_same_transaction demo_env demo_ctx demo_coordinator_requests demo_state demo_cache u d st)
    as (_ & Hout & _).
  - exact Hu.
  - exact demo_cache_coherent.
  - apply (bool_decide_unpack _). by vm_compute.
  - apply (bool_decide_unpack _). by vm_compute.
  - intros dr Hdr. repeat (apply elem_of_cons in Hdr as [Hdr|Hdr]); [done| |by apply not_elem_of_nil in Hdr].
    injection Hdr as ->. exists (demo_deposit_report (mkOutPoint 1 0)), demo_votes. by vm_compute.
  - intros w Hw. repeat (apply elem_of_cons in Hw as [Hw|Hw]); [|done|by apply not_elem_of_nil in Hw].
    injection Hw as ->. exists (demo_withdrawal_report (mkQualifiedRequestId 7 1 1)), demo_votes. by vm_compute.
  - exact Hc.
  - exact Hout.
Defined.
