(* ===== verification/Deposits.v ===== *)
(** * Deposit and reclaim scripts ([sbtc/src/deposits.rs])

    Printing and parsing of the two scripts of a deposit output, and the
    validation of a deposit transaction. The script builder, the lock-time
    type, Stacks principals and x-only keys belong to other crates: they are
    the class [DepositLib], with their documented behaviour as [DepositLaws]. *)

From S2P Require Import Prelude Types Consts Bitcoin Requests Validation.

Definition DEPOSIT_SCRIPT_FIXED_LENGTH : Z := 35.
Definition STACKS_ADDRESS_ENCODED_SIZE : Z := 21.
Definition STANDARD_SCRIPT_LENGTH : Z := 1 + 1 + 8 + STACKS_ADDRESS_ENCODED_SIZE + DEPOSIT_SCRIPT_FIXED_LENGTH.
Definition MAX_RECLAIM_SCRIPT_LENGTH : Z := 2048.
Definition OP_DROP : Z := 117.
Definition OP_CHECKSIG : Z := 172.
Definition OP_PUSHDATA1 : Z := 76.
Definition OP_CSV : Z := 178.
Definition OP_PUSHNUM_1 : Z := 81.
Definition OP_PUSHNUM_16 : Z := 96.
Definition OP_PUSHNUM_NEG1 : Z := 79.

Class DepositLib := {
  PrincipalData : Type;
  PrincipalData_eq_dec :: EqDecision PrincipalData;
  (** [serialize_to_vec] and [consensus_deserialize] (which may leave bytes
      unread), and [StacksAddress::is_mainnet] of the issuer. *)
  principal_serialize : PrincipalData -> list Z;
  principal_deserialize : list Z -> option PrincipalData;
  issuer_is_mainnet : PrincipalData -> bool;
  (** [XOnlyPublicKey::serialize] and [from_slice]. *)
  xonly_serialize : XOnlyPublicKey -> list Z;
  xonly_from_slice : list Z -> option XOnlyPublicKey;
  (** [relative::LockTime::from_consensus] ([None] when disabled) and
      [to_consensus_u32]. *)
  from_consensus : Z -> option RelativeLockTime;
  to_consensus_u32 : RelativeLockTime -> Z;
  (** [Builder::push_slice] and [Builder::push_int]: the bytes appended. *)
  push_slice : list Z -> list Z;
  push_int : Z -> list Z;
  (** [opcode.classify(ClassifyContext::TapScript) == Class::SuccessOp] *)
  is_success_op : Z -> bool;
  (** The merkle root of the tree of two script leaves. *)
  two_leaf_merkle_root : XOnlyPublicKey -> Script -> Script -> option Z }.

Inductive ScriptNumError := NumericOverflow | NonMinimalPush.
Inductive DepositError `{DepositLib} :=
| DisabledLockTime (n : Z)
| InvalidDepositCheckSigPart
| InvalidDepositScript
| InvalidDepositScriptLength
| InvalidReclaimScriptLength (n : Z)
| InvalidReclaimScriptLockTime (n : Z)
| InvalidReclaimScript
| ScriptNum (e : ScriptNumError)
| InvalidXOnlyPublicKey
| NonMinimalPushDepositScript
| ParseStacksAddress
| RecipientNetworkMismatch (p : PrincipalData)
| UnsupportedLockTimeUnits (n : Z)
| OutpointIndex (o : OutPoint)
| UtxoScriptPubKeyMismatch (o : OutPoint)
| TxidMismatch (from_tx from_request : Txid)
| ReclaimScriptWithSuccessOp (s : Script).

(** [u64::to_be_bytes], [u64::from_be_bytes] *)
Fixpoint be_bytes (n : nat) (x : Z) : list Z :=
  match n with
  | O => []
  | S n => be_bytes n (x / 256) ++ [x mod 256]
  end.
Definition to_be_bytes (x : Z) : list Z := be_bytes 8 x.
Definition from_be_bytes (l : list Z) : Z := foldl (fun acc b => acc * 256 + b) 0 l.

(** ** Script numbers *)
Definition scriptint_step (st : Z * Z) (n : Z) : Z * Z := (st.1 + Z.shiftl n st.2, st.2 + 8).
Definition scriptint_parse {E} (v : list Z) : outcome E Z :=
  let '(ret, sh) := foldl scriptint_step (0, 0) v in
  last ← idx v (zlen v - 1);
  mret (if Z.land last 128 =? 0 then ret else - Z.land ret (Z.shiftl 1 (sh - 1) - 1)).

Section Deposits.
Context `{BitcoinLib} `{DepositLib}.

Definition read_scriptint (v : list Z) (max_size : Z) : outcome DepositError Z :=
  match last v with
  | None => mret 0
  | Some last =>
      if max_size <? zlen v then Err (ScriptNum NumericOverflow) else
      if Z.land last 127 =? 0 then
        if zlen v <=? 1 then Err (ScriptNum NonMinimalPush) else
        second ← idx v (zlen v - 2);
        if Z.land second 128 =? 0 then Err (ScriptNum NonMinimalPush) else scriptint_parse v
      else scriptint_parse v
  end.

(** ** The deposit script *)
Record DepositScriptInputs := mkDepositInputs {
  di_signers_public_key : XOnlyPublicKey;
  di_recipient : PrincipalData;
  di_max_fee : Z }.

Definition deposit_script (d : DepositScriptInputs) : Script :=
  let recipient_bytes := principal_serialize (di_recipient d) in
  let op_drop_data := to_be_bytes (di_max_fee d) ++ recipient_bytes in
  push_slice op_drop_data ++ [OP_DROP] ++ push_slice (xonly_serialize (di_signers_public_key d)) ++ [OP_CHECKSIG].

(** The [match params] of [DepositScriptInputs::parse]. *)
Definition parse_deposit_data (params : list Z) : outcome DepositError (list Z) :=
  let push n data := if (zlen data =? n) && (n <? 76) then Ok data else Err InvalidDepositScript in
  match params with
  | op :: rest =>
      match rest with
      | n :: data =>
          if (op =? OP_PUSHDATA1) && (zlen data =? n) && (75 <? n) && (n <? 160) then Ok data else
          if (op =? OP_PUSHDATA1) && (zlen data =? n) && (n <? 76) then Err NonMinimalPushDepositScript else
          push op rest
      | [] => push op rest
      end
  | [] => Err InvalidDepositScript
  end.

Definition deposit_parse (script : Script) : outcome DepositError DepositScriptInputs :=
  if zlen script <? STANDARD_SCRIPT_LENGTH then Err InvalidDepositScriptLength else
  let n := Z.to_nat (zlen script - DEPOSIT_SCRIPT_FIXED_LENGTH) in
  let params := take n script in
  let check := drop n script in
  match check with
  | drop_op :: len :: tail =>
      if (drop_op =? OP_DROP) && (len =? 32) && bool_decide (last tail = Some OP_CHECKSIG) then
        let public_key := removelast tail in
        deposit_data ← parse_deposit_data params;
        if zlen deposit_data <? 8 then Err InvalidDepositScript else
        let max_fee_bytes := take 8 deposit_data in
        let address := drop 8 deposit_data in
        recipient ← ok_or (principal_deserialize address) ParseStacksAddress;
        key ← ok_or (xonly_from_slice public_key) InvalidXOnlyPublicKey;
        mret (mkDepositInputs key recipient (from_be_bytes max_fee_bytes))
      else Err InvalidDepositCheckSigPart
  | _ => Err InvalidDepositCheckSigPart
  end.

(** ** The reclaim script *)
Record ReclaimScriptInputs := mkReclaimInputs {
  ri_lock_time : RelativeLockTime;
  ri_script : Script }.

Definition validate_lock_time (lock_time : Z) : outcome DepositError RelativeLockTime :=
  lock ← ok_or (from_consensus lock_time) (DisabledLockTime lock_time);
  match lock with
  | LockTime _ => Err (UnsupportedLockTimeUnits (to_consensus_u32 lock))
  | LockBlocks _ => mret lock
  end.

Definition has_op_success (script : Script) : bool :=
  existsb (fun op => match op with InstrOp opcode => is_success_op opcode | _ => false end) (instructions script).
Definition validate_script (script : Script) : outcome DepositError unit :=
  if MAX_RECLAIM_SCRIPT_LENGTH <? zlen script then Err (InvalidReclaimScriptLength (zlen script)) else
  if has_op_success script then Err (ReclaimScriptWithSuccessOp script) else mret tt.

Definition reclaim_try_new (lock_time : Z) (script : Script) : outcome DepositError ReclaimScriptInputs :=
  lock ← validate_lock_time lock_time;
  _ ← validate_script script;
  mret (mkReclaimInputs lock script).

Definition reclaim_lock_time (r : ReclaimScriptInputs) : Z := to_consensus_u32 (ri_lock_time r).

Definition reclaim_script (r : ReclaimScriptInputs) : Script :=
  push_int (reclaim_lock_time r) ++ [OP_CSV] ++ ri_script r.

(** The [match reclaim_script.as_bytes()] of [ReclaimScriptInputs::parse]. *)
Definition parse_lock_time (s : Script) : outcome DepositError (Z * Script) :=
  match s with
  | n :: rest =>
      let number :=
        if (n <=? 5) && bool_decide (rest !! Z.to_nat n = Some OP_CSV) then
          lock ← read_scriptint (take (Z.to_nat n) rest) 5;
          mret (lock, drop (S (Z.to_nat n)) rest)
        else Err InvalidReclaimScript in
      match rest with
      | csv :: script =>
          if (n =? 0) && (csv =? OP_CSV) then mret (0, script) else
          if (csv =? OP_CSV) && ((n =? OP_PUSHNUM_NEG1) || ((OP_PUSHNUM_1 <=? n) && (n <=? OP_PUSHNUM_16)))
          then mret (n - OP_PUSHNUM_1 + 1, script) else number
      | [] => number
      end
  | [] => Err InvalidReclaimScript
  end.

Definition reclaim_parse (s : Script) : outcome DepositError ReclaimScriptInputs :=
  '(lock_time, script) ← parse_lock_time s;
  if (0 <=? lock_time) && (lock_time <? 2 ^ 32) then reclaim_try_new lock_time script
  else Err (InvalidReclaimScriptLockTime lock_time).

(** ** The deposit transaction *)
Definition deposit_script_pubkey (deposit_script reclaim_script : Script) : Script :=
  let merkle_root := two_leaf_merkle_root UNSPENDABLE_TAPROOT_KEY deposit_script reclaim_script in
  new_p2tr UNSPENDABLE_TAPROOT_KEY merkle_root.

Record CreateDepositRequest := mkCreateDeposit {
  cd_outpoint : OutPoint;
  cd_reclaim_script : Script;
  cd_deposit_script : Script }.
Record DepositInfo := mkDepositInfo {
  dinfo_outpoint : OutPoint;
  dinfo_max_fee : Z;
  dinfo_amount : Z;
  dinfo_deposit_script : Script;
  dinfo_reclaim_script : Script;
  dinfo_signers_public_key : XOnlyPublicKey;
  dinfo_recipient : PrincipalData;
  dinfo_lock_time : RelativeLockTime }.

Definition validate_tx (r : CreateDepositRequest) (tx : Transaction) (is_mainnet : bool)
    : outcome DepositError DepositInfo :=
  if negb (compute_txid tx =? op_txid (cd_outpoint r)) then
    Err (TxidMismatch (compute_txid tx) (op_txid (cd_outpoint r)))
  else
  match tx_output tx !! Z.to_nat (op_vout (cd_outpoint r)) with
  | None => Err (OutpointIndex (cd_outpoint r))
  | Some tx_out =>
      deposit ← deposit_parse (cd_deposit_script r);
      reclaim ← reclaim_parse (cd_reclaim_script r);
      let dscript := deposit_script deposit in
      let rscript := reclaim_script reclaim in
      if negb (bool_decide (dscript = cd_deposit_script r)) then Err InvalidDepositScript else
      if negb (bool_decide (rscript = cd_reclaim_script r)) then Err InvalidReclaimScript else
      let expected_script_pubkey := deposit_script_pubkey dscript rscript in
      if negb (bool_decide (expected_script_pubkey = txo_script tx_out)) then
        Err (UtxoScriptPubKeyMismatch (cd_outpoint r)) else
      if negb (Bool.eqb (issuer_is_mainnet (di_recipient deposit)) is_mainnet) then
        Err (RecipientNetworkMismatch (di_recipient deposit)) else
      mret (mkDepositInfo (cd_outpoint r) (di_max_fee deposit) (txo_value tx_out) dscript rscript
              (di_signers_public_key deposit) (di_recipient deposit) (ri_lock_time reclaim))
  end.

End Deposits.

(** ** Documented behaviour of the libraries *)

(** The minimal script-number encoding of [17 .. 2^16 - 1]. *)
Definition scriptint_bytes (n : Z) : list Z :=
  if n <? 128 then [n] else if n <? 2 ^ 15 then [n mod 256; n / 256] else [n mod 256; n / 256; 0].

Class DepositLaws `{DepositLib} : Prop := {
  push_slice_small : forall d, 1 <= zlen d <= 75 -> push_slice d = zlen d :: d;
  push_slice_data1 : forall d, 76 <= zlen d <= 255 -> push_slice d = OP_PUSHDATA1 :: zlen d :: d;
  push_int_0 : push_int 0 = [0];
  push_int_num : forall n, 1 <= n <= 16 -> push_int n = [80 + n];
  push_int_bytes : forall n, 17 <= n < 2 ^ 16 -> push_int n = zlen (scriptint_bytes n) :: scriptint_bytes n;
  principal_roundtrip : forall p, principal_deserialize (principal_serialize p) = Some p;
  principal_length : forall p, 22 <= zlen (principal_serialize p) <= 151;
  xonly_length : forall k, zlen (xonly_serialize k) = 32;
  (** BIP-68: the disable bit, the unit bit and the 16-bit value. *)
  from_consensus_law : forall n, in_u 32 n -> from_consensus n =
    if Z.testbit n 31 then None else
    if Z.testbit n 22 then Some (LockTime (n mod 2 ^ 16)) else Some (LockBlocks (n mod 2 ^ 16));
  to_consensus_blocks : forall h, in_u 16 h -> to_consensus_u32 (LockBlocks h) = h }.

(** ** Lemmas *)
Lemma be_bytes_length n : forall x, length (be_bytes n x) = n.
Proof. induction n as [|n IH]; intros x; simpl; [done|]. rewrite length_app, IH. simpl. lia. Qed.
Lemma from_be_bytes_app l b : from_be_bytes (l ++ [b]) = from_be_bytes l * 256 + b.
Proof. unfold from_be_bytes. by rewrite foldl_app. Qed.
Lemma be_bytes_roundtrip n : forall x, 0 <= x < 256 ^ Z.of_nat n -> from_be_bytes (be_bytes n x) = x.
Proof.
  induction n as [|n IH]; intros x Hx; [change (256 ^ Z.of_nat 0) with 1 in Hx; cbn; lia|].
  cbn [be_bytes]. rewrite from_be_bytes_app, IH.
  - pose proof (Z.div_mod x 256). lia.
  - rewrite Nat2Z.inj_succ, Z.pow_succ_r in Hx by lia. split; [apply Z.div_pos; lia|]. apply Z.div_lt_upper_bound; lia.
Qed.
Lemma to_be_bytes_roundtrip x : in_u 64 x -> from_be_bytes (to_be_bytes x) = x.
Proof. intros [? ?]. apply be_bytes_roundtrip. change (256 ^ Z.of_nat 8) with (2 ^ 64). done. Qed.

Section DepositLemmas.
Context `{BitcoinLib} `{DepositLib}.

Lemma scriptint_parse_pos {E} v b : last v = Some b -> Z.land b 128 = 0 ->
  scriptint_parse (E:=E) v = Ok (foldl scriptint_step (0, 0) v).1.
Proof.
  intros Hl Hb. unfold scriptint_parse. destruct (foldl scriptint_step (0, 0) v) as [ret sh].
  rewrite (idx_ok _ _ b).
  - oreduce. by rewrite Hb.
  - apply last_Some in Hl as [l ->]. unfold zlen. rewrite length_app. simpl.
    replace (Z.to_nat (Z.of_nat (length l + 1) - 1)) with (length l) by lia. by apply list_lookup_middle.
  - destruct v; [done|]. rewrite zlen_cons. pose proof (zlen_nonneg v). lia.
Qed.

Lemma read_scriptint_bytes `{!DepositLaws} n : 17 <= n < 2 ^ 16 -> read_scriptint (scriptint_bytes n) 5 = Ok n.
Proof.
  intros Hn. pose proof (Z.div_mod n 256 ltac:(lia)) as Hdm. pose proof (Z.mod_pos_bound n 256 ltac:(lia)) as Hmb.
  assert (forall b, 0 <= b < 128 -> Z.land b 128 = 0 /\ Z.land b 127 = b) as Hsmall.
  { intros b Hb. split.
    - apply Z.bits_inj'. intros k Hk. rewrite Z.land_spec, Z.bits_0. change 128 with (2 ^ 7). rewrite Z.pow2_bits_eqb by lia.
      destruct (Z.eqb_spec 7 k) as [<-|]; [|by rewrite andb_false_r]. rewrite Z.bits_above_log2; [done|lia|].
      destruct (Z.eq_dec b 0) as [->|]; [done|]. apply Z.log2_lt_pow2; lia.
    - change 127 with (Z.ones 7). rewrite Z.land_ones by lia. apply Z.mod_small. lia. }
  assert (forall b, 128 <= b < 256 -> Z.land b 128 = 128) as Hhigh.
  { intros b Hb. apply Z.bits_inj'. intros k Hk. rewrite Z.land_spec. change 128 with (2 ^ 7) at 1 2.
    rewrite Z.pow2_bits_eqb by lia. destruct (Z.eqb_spec 7 k) as [<-|]; [|by rewrite andb_false_r]. rewrite andb_true_r.
    rewrite Z.testbit_true by lia. change (2 ^ 7) with 128.
    assert (b / 128 = 1) as -> by (symmetry; apply (Z.div_unique _ _ 1 (b - 128)); lia). done. }
  unfold scriptint_bytes. destruct (Z.ltb_spec n 128); [|destruct (Z.ltb_spec n (2 ^ 15))].
  - destruct (Hsmall n ltac:(lia)) as [Hl1 Hl2]. unfold read_scriptint. cbn [last]. rewrite Hl2.
    change (5 <? zlen [n]) with false. destruct (Z.eqb_spec n 0); [lia|]. rewrite (scriptint_parse_pos _ n) by done.
    cbn [foldl scriptint_step fst snd]. by rewrite Z.shiftl_0_r.
  - destruct (Z.lt_ge_cases n 256).
    + rewrite (Z.div_small n 256), (Z.mod_small n 256) by lia. unfold read_scriptint. cbn [last].
      change (5 <? zlen [n; 0]) with false. change (Z.land 0 127 =? 0) with true. change (zlen [n; 0] <=? 1) with false.
      rewrite (idx_ok _ _ n) by done. oreduce. rewrite Hhigh by lia. change (128 =? 0) with false. cbn iota.
      rewrite (scriptint_parse_pos _ 0) by done. cbn [foldl scriptint_step fst snd].
      rewrite Z.shiftl_0_r, Z.shiftl_0_l. f_equal. lia.
    + assert (0 < n / 256 < 128) as Hq by (split; [apply Z.div_str_pos; lia|apply Z.div_lt_upper_bound; lia]).
      destruct (Hsmall (n / 256) ltac:(lia)) as [Hl1 Hl2]. unfold read_scriptint. cbn [last]. rewrite Hl2.
      change (5 <? zlen [n mod 256; n / 256]) with false. destruct (Z.eqb_spec (n / 256) 0); [lia|].
      rewrite (scriptint_parse_pos _ (n / 256)) by done. cbn [foldl scriptint_step fst snd].
      rewrite Z.shiftl_0_r, Z.shiftl_mul_pow2 by lia. f_equal. change (2 ^ (0 + 8)) with 256. lia.
  - assert (128 <= n / 256 < 256) as Hq by (split; [apply Z.div_le_lower_bound; lia|apply Z.div_lt_upper_bound; lia]).
    unfold read_scriptint. cbn [last]. change (5 <? zlen [n mod 256; n / 256; 0]) with false.
    change (Z.land 0 127 =? 0) with true. change (zlen [n mod 256; n / 256; 0] <=? 1) with false.
    rewrite (idx_ok _ _ (n / 256)) by done. oreduce. rewrite (Hhigh (n / 256)) by done. change (128 =? 0) with false. cbn iota.
    rewrite (scriptint_parse_pos _ 0) by done. cbn [foldl scriptint_step fst snd].
    rewrite Z.shiftl_0_r, Z.shiftl_mul_pow2, Z.shiftl_0_l by lia. f_equal. change (2 ^ (0 + 8)) with 256. lia.
Qed.


Lemma parse_lock_time_int `{!DepositLaws} h script : in_u 16 h ->
  parse_lock_time (push_int h ++ [OP_CSV] ++ script) = Ok (h, script).
Proof.
  intros [Hh0 Hh1]. destruct (Z.eq_dec h 0) as [->|Hnz].
  { rewrite push_int_0. cbn. done. }
  destruct (Z.le_gt_cases h 16).
  { rewrite push_int_num by lia. cbn [app parse_lock_time].
    destruct (Z.eqb_spec (80 + h) 0); [lia|]. cbn [andb]. rewrite Z.eqb_refl. cbn [andb].
    unfold OP_PUSHNUM_NEG1, OP_PUSHNUM_1, OP_PUSHNUM_16. destruct (Z.eqb_spec (80 + h) 79); [lia|].
    destruct (Z.leb_spec 81 (80 + h)); [|lia]. destruct (Z.leb_spec (80 + h) 96); [|lia]. cbn. do 2 f_equal. lia. }
  rewrite push_int_bytes by lia. pose proof (read_scriptint_bytes h ltac:(lia)) as Hr. revert Hr.
  assert (exists b0 bs, scriptint_bytes h = b0 :: bs /\ (length bs <= 2)%nat) as (b0 & bs & -> & Hlen).
  { unfold scriptint_bytes. repeat destruct (_ <? _); do 2 eexists; (split; [done|simpl; lia]). }
  intros Hr. set (v := b0 :: bs) in *. change ((zlen v :: v) ++ [OP_CSV] ++ script) with (zlen v :: (v ++ OP_CSV :: script)).
  assert (1 <= zlen v <= 3) as Hv by (unfold v, zlen; simpl; lia).
  unfold parse_lock_time. rewrite zlen_to_nat.
  assert ((v ++ OP_CSV :: script) !! length v = Some OP_CSV) as -> by (by apply list_lookup_middle).
  rewrite (take_app_length v), Hr. oreduce.
  assert (drop (S (length v)) (v ++ OP_CSV :: script) = script) as ->.
  { rewrite cons_middle, app_assoc. apply drop_app_length'. rewrite length_app. simpl. lia. }
  rewrite bool_decide_true by done. destruct (Z.leb_spec (zlen v) 5); [|lia]. cbn [andb].
  change (v ++ OP_CSV :: script) with (b0 :: bs ++ OP_CSV :: script). cbn iota beta.
  destruct (Z.eqb_spec (zlen v) 0); [lia|]. cbn [andb].
  unfold OP_PUSHNUM_NEG1, OP_PUSHNUM_1, OP_PUSHNUM_16. destruct (Z.eqb_spec (zlen v) 79); [lia|].
  destruct (Z.leb_spec 81 (zlen v)); [lia|]. cbn [orb andb]. by rewrite andb_false_r.
Qed.

Lemma from_consensus_u16 `{!DepositLaws} h : in_u 16 h -> from_consensus h = Some (LockBlocks h).
Proof.
  intros [? ?]. rewrite from_consensus_law by (unfold in_u; lia).
  assert (forall k, 16 <= k -> Z.testbit h k = false) as Hb.
  { intros k Hk. destruct (Z.eq_dec h 0) as [->|]; [apply Z.bits_0|]. apply Z.bits_above_log2; [lia|].
    assert (Z.log2 h < 16) by (apply Z.log2_lt_pow2; lia). lia. }
  rewrite !Hb by lia. by rewrite Z.mod_small by lia.
Qed.

Lemma parse_deposit_data_push `{!DepositLaws} data : 30 <= zlen data <= 159 ->
  parse_deposit_data (push_slice data) = Ok data.
Proof.
  intros Hd. destruct (Z.le_gt_cases (zlen data) 75).
  - rewrite push_slice_small by lia. cbn [parse_deposit_data]. destruct data as [|n rest] eqn:Hdata; [rewrite zlen_nil in Hd; lia|].
    rewrite <- Hdata in *. unfold OP_PUSHDATA1. destruct (Z.eqb_spec (zlen data) 76); [lia|]. cbn [andb].
    rewrite Z.eqb_refl. destruct (Z.ltb_spec (zlen data) 76); [done|lia].
  - rewrite push_slice_data1 by lia. cbn [parse_deposit_data]. rewrite !Z.eqb_refl.
    destruct (Z.ltb_spec 75 (zlen data)); [|lia]. destruct (Z.ltb_spec (zlen data) 160); [done|lia].
Qed.

End DepositLemmas.

(** ** Properties *)

(** deposit scripts round trip: parsing the script printed for a valid
    key, any recipient principal and any [u64] maximum fee gives them back. *)
Theorem deposit_script_roundtrip `{BitcoinLib} `{DepositLib} `{!DepositLaws} d :
  xonly_from_slice (xonly_serialize (di_signers_public_key d)) = Some (di_signers_public_key d) ->
  in_u 64 (di_max_fee d) -> deposit_parse (deposit_script d) = Ok d.
Proof.
  intros Hk Hf. unfold deposit_script. set (data := to_be_bytes (di_max_fee d) ++ principal_serialize (di_recipient d)).
  set (key := xonly_serialize (di_signers_public_key d)) in *. pose proof (xonly_length (di_signers_public_key d)) as Hkl.
  fold key in Hkl. pose proof (principal_length (di_recipient d)) as Hpl.
  assert (length (to_be_bytes (di_max_fee d)) = 8%nat) as H8 by apply be_bytes_length.
  assert (30 <= zlen data <= 159) as Hdl by (unfold data; rewrite zlen_app; unfold zlen at 1 3; rewrite H8; lia).
  assert (push_slice key = 32 :: key) as -> by (rewrite push_slice_small by lia; by rewrite Hkl).
  set (params := push_slice data). assert (31 <= zlen params) as Hpar.
  { unfold params. destruct (Z.le_gt_cases (zlen data) 75);
      [rewrite push_slice_small by lia|rewrite push_slice_data1 by lia]; rewrite ?zlen_cons; lia. }
  set (check := [OP_DROP] ++ (32 :: key) ++ [OP_CHECKSIG]).
  change (params ++ [OP_DROP] ++ (32 :: key) ++ [OP_CHECKSIG]) with (params ++ check).
  assert (zlen check = 35) as Hcl by (unfold check; zlia).
  unfold deposit_parse. rewrite zlen_app, Hcl. unfold DEPOSIT_SCRIPT_FIXED_LENGTH.
  change STANDARD_SCRIPT_LENGTH with 66. destruct (Z.ltb_spec (zlen params + 35) 66); [lia|].
  replace (Z.to_nat (zlen params + 35 - 35)) with (length params) by (unfold zlen; lia).
  rewrite take_app_length, drop_app_length. unfold check. cbn [app].
  rewrite !Z.eqb_refl, last_snoc, bool_decide_true by done. cbn [andb]. rewrite removelast_last.
  unfold params. rewrite parse_deposit_data_push by done. oreduce. destruct (Z.ltb_spec (zlen data) 8); [lia|].
  unfold data. rewrite <- H8, take_app_length, drop_app_length. rewrite principal_roundtrip. oreduce. rewrite Hk. oreduce.
  rewrite to_be_bytes_roundtrip by done. by destruct d.
Qed.

(** Reclaim scripts round trip: for a lock time of at most 65535 blocks
    and an admissible user script, parsing the printed reclaim script gives
    back both. *)
Theorem reclaim_script_roundtrip `{BitcoinLib} `{DepositLib} `{!DepositLaws} h script :
  in_u 16 h -> zlen script <= MAX_RECLAIM_SCRIPT_LENGTH -> has_op_success script = false ->
  let r := mkReclaimInputs (LockBlocks h) script in reclaim_parse (reclaim_script r) = Ok r.
Proof.
  intros Hh Hs Hop r. unfold reclaim_script, reclaim_lock_time, reclaim_parse. cbn [ri_lock_time ri_script r].
  rewrite to_consensus_blocks by done. rewrite parse_lock_time_int by done. oreduce. pose proof Hh as [? ?].
  destruct (Z.leb_spec 0 h); [|lia]. destruct (Z.ltb_spec h (2 ^ 32)); [|lia]. cbn [andb].
  unfold reclaim_try_new, validate_lock_time. rewrite from_consensus_u16 by done. oreduce. unfold validate_script.
  destruct (Z.ltb_spec MAX_RECLAIM_SCRIPT_LENGTH (zlen script)); [lia|]. by rewrite Hop.
Qed.

(** What an accepted deposit guarantees: the transaction has the
    requested id; the output at the requested index carries the recorded
    amount and pays the taproot script of exactly the two recorded scripts
    under the unspendable key; the deposit script is the canonical script of
    the recorded key, recipient and fee; the reclaim path is locked for
    exactly the recorded number of blocks (in block units, at most 65535), by
    a script without OP_SUCCESS opcodes within the length limit; and the
    recipient is on the expected network. *)
Theorem validate_tx_sound `{BitcoinLib} `{DepositLib} `{!DepositLaws} r tx is_mainnet info :
  validate_tx r tx is_mainnet = Ok info ->
  compute_txid tx = op_txid (cd_outpoint r) /\ dinfo_outpoint info = cd_outpoint r /\
  dinfo_deposit_script info = cd_deposit_script r /\ dinfo_reclaim_script info = cd_reclaim_script r /\
  tx_output tx !! Z.to_nat (op_vout (cd_outpoint r)) =
    Some (mkTxOut (dinfo_amount info) (deposit_script_pubkey (cd_deposit_script r) (cd_reclaim_script r))) /\
  cd_deposit_script r =
    deposit_script (mkDepositInputs (dinfo_signers_public_key info) (dinfo_recipient info) (dinfo_max_fee info)) /\
  issuer_is_mainnet (dinfo_recipient info) = is_mainnet /\
  exists h user, in_u 16 h /\ dinfo_lock_time info = LockBlocks h /\
    cd_reclaim_script r = push_int h ++ OP_CSV :: user /\
    zlen user <= MAX_RECLAIM_SCRIPT_LENGTH /\ has_op_success user = false.
Proof.
  unfold validate_tx. destruct (Z.eqb_spec (compute_txid tx) (op_txid (cd_outpoint r))) as [Htx|]; [|done]. cbn [negb].
  destruct (tx_output tx !! _) as [out|] eqn:Hout; [|done]. intros Hv.
  apply bind_ok_inv in Hv as (deposit & Hd & Hv). apply bind_ok_inv in Hv as (reclaim & Hr & Hv).
  case_bool_decide as Hds; [|done]. case_bool_decide as Hrs; [|done]. case_bool_decide as Hpk; [|done]. cbn [negb] in Hv.
  destruct (Bool.eqb _ is_mainnet) eqn:Hnet; [|done]. apply eqb_prop in Hnet. injection Hv as <-. cbn.
  assert (exists h, in_u 16 h /\ ri_lock_time reclaim = LockBlocks h /\
    zlen (ri_script reclaim) <= MAX_RECLAIM_SCRIPT_LENGTH /\ has_op_success (ri_script reclaim) = false) as (h & Hh & Hl & Hlen & Hop).
  { unfold reclaim_parse in Hr. apply bind_ok_inv in Hr as ([n s] & _ & Hr).
    destruct ((0 <=? n) && (n <? 2 ^ 32)) eqn:Hn; [|done]. zbool. unfold reclaim_try_new in Hr.
    apply bind_ok_inv in Hr as (lock & Hlock & Hr). apply bind_ok_inv in Hr as ([] & Hscr & Hr). injection Hr as <-.
    unfold validate_script in Hscr. destruct (Z.ltb_spec MAX_RECLAIM_SCRIPT_LENGTH (zlen s)); [done|].
    destruct (has_op_success s) eqn:Hop; [done|]. unfold validate_lock_time in Hlock.
    rewrite from_consensus_law in Hlock by (unfold in_u; lia).
    destruct (Z.testbit n 31); [done|]. destruct (Z.testbit n 22); [done|]. injection Hlock as <-.
    exists (n mod 2 ^ 16). split_and!; try done; unfold in_u; apply Z.mod_pos_bound; lia. }
  split_and!; try done.
  - rewrite <- Hds, <- Hrs, Hpk. by destruct out.
  - exists h, (ri_script reclaim). split_and!; try done. rewrite <- Hrs. unfold reclaim_script, reclaim_lock_time.
    by rewrite Hl, to_consensus_blocks.
Qed.

(** ** Witnesses, on an instance that satisfies the laws *)
Definition demo_deposit_lib : DepositLib := {|
  PrincipalData := bool;
  principal_serialize := fun p => replicate 22 (if p then 22 else 26);
  principal_deserialize := fun l =>
    match l with 22 :: _ => Some true | 26 :: _ => Some false | _ => None end;
  issuer_is_mainnet := fun p => p;
  xonly_serialize := fun k => k :: replicate 31 0;
  xonly_from_slice := fun l => head l;
  from_consensus := fun n =>
    if Z.testbit n 31 then None else
    if Z.testbit n 22 then Some (LockTime (n mod 2 ^ 16)) else Some (LockBlocks (n mod 2 ^ 16));
  to_consensus_u32 := fun l => match l with LockBlocks h => h | LockTime t => 2 ^ 22 + t end;
  push_slice := fun d => if zlen d <=? 75 then zlen d :: d else OP_PUSHDATA1 :: zlen d :: d;
  push_int := fun n =>
    if n =? 0 then [0] else if n <=? 16 then [80 + n] else zlen (scriptint_bytes n) :: scriptint_bytes n;
  is_success_op := fun op => op =? 80;
  two_leaf_merkle_root := fun k s s' => Some (zsum s + 3 * zsum s') |}.
Lemma demo_deposit_laws : @DepositLaws demo_deposit_lib.
Proof.
  constructor; cbn [push_slice push_int demo_deposit_lib]; intros.
  - by destruct (Z.leb_spec (zlen d) 75); [|lia].
  - by destruct (Z.leb_spec (zlen d) 75); [lia|].
  - done.
  - destruct (Z.eqb_spec n 0); [lia|]. by destruct (Z.leb_spec n 16); [|lia].
  - destruct (Z.eqb_spec n 0); [lia|]. by destruct (Z.leb_spec n 16); [lia|].
  - by destruct p.
  - by destruct p.
  - done.
  - done.
  - done.
Qed.

#[local] Existing Instance demo_bitcoin.
#[local] Existing Instance demo_deposit_lib.
#[local] Existing Instance demo_deposit_laws.

Lemma deposit_script_roundtrip_witness :
  let d := mkDepositInputs 123 true 80000 in deposit_parse (deposit_script d) = Ok d.
Proof. apply deposit_script_roundtrip; [by vm_compute|split; by vm_compute]. Defined.

Lemma reclaim_script_roundtrip_witness :
  let r := mkReclaimInputs (LockBlocks 700) [81] in reclaim_parse (reclaim_script r) = Ok r.
Proof. apply reclaim_script_roundtrip; [split; by vm_compute|by vm_compute|by vm_compute]. Defined.

Definition demo_dscript : Script := deposit_script (mkDepositInputs 123 true 80000).
Definition demo_rscript : Script := reclaim_script (mkReclaimInputs (LockBlocks 700) [81]).
Definition demo_deposit_tx : Transaction := mkTransaction [] [mkTxOut 250000 (deposit_script_pubkey demo_dscript demo_rscript)].
Definition demo_create : CreateDepositRequest :=
  mkCreateDeposit (mkOutPoint (compute_txid demo_deposit_tx) 0) demo_rscript demo_dscript.
Definition demo_deposit_info : DepositInfo :=
  mkDepositInfo (cd_outpoint demo_create) 80000 250000 demo_dscript demo_rscript 123 true (LockBlocks 700).
Lemma demo_create_ok : validate_tx demo_create demo_deposit_tx true = Ok demo_deposit_info.
Proof. vm_cast_no_check (@eq_refl (outcome DepositError DepositInfo) (Ok demo_deposit_info)). Qed.
Lemma validate_tx_sound_witness : exists h user, dinfo_lock_time demo_deposit_info = LockBlocks h /\
  cd_reclaim_script demo_create = push_int h ++ OP_CSV :: user /\ has_op_success user = false.
Proof.
  destruct (validate_tx_sound demo_create demo_deposit_tx true demo_deposit_info demo_create_ok)
    as (_ & _ & _ & _ & _ & _ & _ & h & user & _ & Hl & Hr & _ & Hop). exists h, user. split_and!; [exact Hl|exact Hr|exact Hop].
Defined.
