(* ===== verification/Contracts.v ===== *)
(** * Validation of sBTC contract calls ([signer/src/stacks/contracts.rs])

    Before a signer signs a Stacks transaction it validates the contract call
    against its own view of both chains. The database, the bitcoin client, the
    Stacks client and the configuration are the record [ContractEnv]; every
    query may fail. The theorems say when a call is accepted and that the
    calls accepted for one confirmed sweep keep the token backed. *)

From stdpp Require Import strings.
From S2P Require Import Prelude Types Consts Bitcoin SignerState Packaging Requests Sweep Validation.

Abbreviation StacksAddress := Z.
(** A Clarity principal, by its serialization. *)
Abbreviation Principal := (list Z).

(** ** Data *)
Record ReqContext := mkReqContext {
  rc_chain_tip : BitcoinBlockRef;
  rc_stacks_chain_tip : BlockHash;
  rc_context_window : Z;
  rc_origin : PublicKey;
  rc_aggregate_key : PublicKey;
  rc_signatures_required : Z;
  rc_deployer : StacksAddress }.

Record CompleteDepositV1 := mkCompleteDeposit {
  cdv_outpoint : OutPoint;
  cdv_amount : Z;
  cdv_recipient : Principal;
  cdv_deployer : StacksAddress;
  cdv_sweep_txid : Txid;
  cdv_sweep_block_hash : BlockHash;
  cdv_sweep_block_height : Z }.

Record AcceptWithdrawalV1 := mkAcceptWithdrawal {
  aw_id : QualifiedRequestId;
  aw_outpoint : OutPoint;
  aw_tx_fee : Z;
  aw_signer_bitmap : Z;
  aw_deployer : StacksAddress;
  aw_sweep_block_hash : BlockHash;
  aw_sweep_block_height : Z }.

Record RejectWithdrawalV1 := mkRejectWithdrawal {
  rj_id : QualifiedRequestId;
  rj_signer_bitmap : Z;
  rj_deployer : StacksAddress }.

Record RotateKeysV1 := mkRotateKeys {
  rk_new_keys : gset PublicKey;
  rk_aggregate_key : PublicKey;
  rk_deployer : StacksAddress;
  rk_signatures_required : Z }.

Inductive ContractCall :=
| CallCompleteDeposit (c : CompleteDepositV1)
| CallAcceptWithdrawal (c : AcceptWithdrawalV1)
| CallRejectWithdrawal (c : RejectWithdrawalV1)
| CallRotateKeys (c : RotateKeysV1).

Inductive SmartContract := SbtcRegistry | SbtcToken | SbtcDeposit | SbtcWithdrawal | SbtcBootstrapSigners.
Definition SMART_CONTRACTS : list SmartContract :=
  [SbtcRegistry; SbtcToken; SbtcDeposit; SbtcWithdrawal; SbtcBootstrapSigners].
Definition contract_name (c : SmartContract) : string :=
  match c with
  | SbtcToken => "sbtc-token"
  | SbtcRegistry => "sbtc-registry"
  | SbtcDeposit => "sbtc-deposit"
  | SbtcWithdrawal => "sbtc-withdrawal"
  | SbtcBootstrapSigners => "sbtc-bootstrap-signers"
  end.

Inductive StacksTx :=
| StacksContractCall (c : ContractCall)
| StacksSmartContract (c : SmartContract).

Inductive DepositErrorMsg :=
| DE_AmountBelowDustLimit | DE_DeployerMismatch | DE_DepositCompleted | DE_FeeTooHigh | DE_IncorrectMintAmount
| DE_MissingFromSweep | DE_InvalidSweep | DE_RecipientMismatch | DE_RequestMissing | DE_SweepTransactionMissing
| DE_SweepTransactionReorged.
Inductive WithdrawalErrorMsg :=
| WE_DeployerMismatch | WE_FeeTooHigh | WE_IncorrectFee | WE_IncorrectSweepTx | WE_InvalidAmount | WE_InvalidSweep
| WE_RecipientMismatch | WE_RequestCompleted | WE_RequestMissing | WE_SweepTransactionMissing
| WE_SweepTransactionReorged | WE_UtxoMissingFromSweep.
Inductive WithdrawalRejectErrorMsg :=
| WR_DeployerMismatch | WR_RequestBeingFulfilled | WR_RequestCompleted | WR_RequestStillActive | WR_RequestFulfilled
| WR_RequestMissing | WR_RequestNotFinal | WR_RequestUnconfirmed.
Inductive RotateKeysErrorMsg :=
| RK_DeployerMismatch | RK_SignerSetMismatch | RK_AggregateKeyMismatch | RK_SignaturesRequiredMismatch
| RK_KeyRotationExists | RK_DkgSharesNotVerified.

(** The variants of [crate::error::Error] these functions return;
    [StacksNodeNotFound] is a Stacks node response with status 404 and
    [ClientError] any other failure of the database or of a client. *)
Inductive ContractError :=
| DepositValidation (e : DepositErrorMsg) (ctx : ReqContext) (tx : CompleteDepositV1)
| WithdrawalAcceptValidation (e : WithdrawalErrorMsg) (ctx : ReqContext) (tx : AcceptWithdrawalV1)
| WithdrawalRejectValidation (e : WithdrawalRejectErrorMsg) (ctx : ReqContext) (tx : RejectWithdrawalV1)
| RotateKeysValidation (e : RotateKeysErrorMsg) (ctx : ReqContext) (tx : RotateKeysV1)
| NoDkgShares
| MissingDkgShares (k : PublicKey)
| ContractAlreadyDeployed (name : string)
| StacksNodeNotFound
| ClientError (n : Z).

(** [EncryptedDkgShares], the columns read here. *)
Record EncryptedDkgShares := mkDkgShares {
  ds_aggregate_key : PublicKey;
  ds_signer_set_public_keys : list PublicKey;
  ds_signature_share_threshold : Z;
  ds_status : DkgSharesStatus }.
Definition shares_signer_set (s : EncryptedDkgShares) : gset PublicKey := list_to_set (ds_signer_set_public_keys s).

Record ContractEnv := mkContractEnv {
  ce_public_key : PublicKey;
  ce_deployer : StacksAddress;
  ce_is_deposit_completed : StacksAddress -> OutPoint -> outcome ContractError bool;
  ce_is_withdrawal_completed : StacksAddress -> Z -> outcome ContractError bool;
  ce_get_contract_source : StacksAddress -> string -> outcome ContractError string;
  ce_get_tx_info : Txid -> BlockHash -> outcome ContractError (option BitcoinTxInfo);
  ce_in_canonical_bitcoin_blockchain : BitcoinBlockRef -> BitcoinBlockRef -> outcome ContractError bool;
  ce_is_signer_script_pub_key : Script -> outcome ContractError bool;
  ce_get_deposit_request : Txid -> Z -> outcome ContractError (option ModelDepositRequest);
  ce_get_withdrawal_request_report : BlockHash -> BlockHash -> QualifiedRequestId -> PublicKey ->
    outcome ContractError (option WithdrawalRequestReport);
  ce_is_withdrawal_inflight : QualifiedRequestId -> BlockHash -> outcome ContractError bool;
  ce_is_withdrawal_active : QualifiedRequestId -> BitcoinBlockRef -> Z -> outcome ContractError bool;
  ce_get_encrypted_dkg_shares : PublicKey -> outcome ContractError (option EncryptedDkgShares);
  ce_get_latest_encrypted_dkg_shares : outcome ContractError (option EncryptedDkgShares);
  ce_key_rotation_exists : BlockHash -> gset PublicKey -> PublicKey -> Z -> outcome ContractError bool }.

(** ** Arguments of the calls *)
#[warnings="-register-all"]
Inductive ClarityValue :=
| CvBuffer (data : list Z)
| CvUInt (n : Z)
| CvPrincipal (p : Principal)
| CvList (l : list ClarityValue)
| CvString (ascii : list Z)
| CvTuple (data_map : list (string * ClarityValue)).      (* a [BTreeMap]: one value per name *)

(** [u64]/[u32] fields are widened to [u128]; a hash is its 32 bytes, written
    in reverse by [to_le_bytes]. *)
Fixpoint hash_le_bytes (n : nat) (x : Z) : list Z :=
  match n with O => [] | S n => x mod 256 :: hash_le_bytes n (x / 256) end.
Definition to_le_bytes (x : Z) : list Z := hash_le_bytes 32 x.
(** [PublicKey::serialize]: the 33 compressed bytes. *)
Definition pk_serialize (k : PublicKey) : list Z := rev (hash_le_bytes 33 k).

Definition complete_deposit_args (c : CompleteDepositV1) : list ClarityValue :=
  [CvBuffer (to_le_bytes (op_txid (cdv_outpoint c))); CvUInt (op_vout (cdv_outpoint c)); CvUInt (cdv_amount c);
   CvPrincipal (cdv_recipient c); CvBuffer (to_le_bytes (cdv_sweep_block_hash c));
   CvUInt (cdv_sweep_block_height c); CvBuffer (to_le_bytes (cdv_sweep_txid c))].
Definition accept_withdrawal_args (c : AcceptWithdrawalV1) : list ClarityValue :=
  [CvUInt (q_request_id (aw_id c)); CvBuffer (to_le_bytes (op_txid (aw_outpoint c))); CvUInt 0;
   CvUInt (op_vout (aw_outpoint c)); CvUInt (aw_tx_fee c); CvBuffer (to_le_bytes (aw_sweep_block_hash c));
   CvUInt (aw_sweep_block_height c); CvBuffer (to_le_bytes (op_txid (aw_outpoint c)))].
Definition reject_withdrawal_args (c : RejectWithdrawalV1) : list ClarityValue :=
  [CvUInt (q_request_id (rj_id c)); CvUInt 0].
(** A [BTreeSet] is visited in ascending order. *)
Definition rotate_keys_args (c : RotateKeysV1) : list ClarityValue :=
  [CvList (map (fun pk => CvBuffer (pk_serialize pk)) (merge_sort Z.le (elements (rk_new_keys c))));
   CvBuffer (pk_serialize (rk_aggregate_key c)); CvUInt (rk_signatures_required c)].

(** ** Validation *)
Section Validate.
Context `{BitcoinLib}.
Variables (env : ContractEnv) (req_ctx : ReqContext).

(** [sweep_tx.vin.first().and_then(|x| Some(x.prevout.as_ref()?.script_pubkey...))] *)
Definition first_prevout_script (info : BitcoinTxInfo) : option Script :=
  vin ← head (ti_vin info);
  prevout ← vin_prevout vin;
  Some (vp_script_pubkey prevout).

(** *** [CompleteDepositV1] *)
Definition validate_vars (c : CompleteDepositV1) (fee : Z) : outcome ContractError unit :=
  let into_error := fun e => DepositValidation e req_ctx c in
  if negb (cdv_deployer c =? rc_deployer req_ctx) then Err (into_error DE_DeployerMismatch) else
  request ← ce_get_deposit_request env (op_txid (cdv_outpoint c)) (op_vout (cdv_outpoint c));
  match request with
  | None => Err (into_error DE_RequestMissing)
  | Some deposit_request =>
      if negb (bool_decide (cdv_recipient c = md_recipient deposit_request)) then Err (into_error DE_RecipientMismatch) else
      if cdv_amount c <? DEPOSIT_DUST_LIMIT then Err (into_error DE_AmountBelowDustLimit) else
      let expected := if fee <=? md_amount deposit_request then Some (md_amount deposit_request - fee) else None in
      if negb (bool_decide (Some (cdv_amount c) = expected)) then Err (into_error DE_IncorrectMintAmount) else
      if md_max_fee deposit_request <? fee then Err (into_error DE_FeeTooHigh) else mret tt
  end.

Definition validate_sweep_tx (c : CompleteDepositV1) : outcome ContractError Z :=
  let into_error := fun e => DepositValidation e req_ctx c in
  found ← ce_get_tx_info env (cdv_sweep_txid c) (cdv_sweep_block_hash c);
  match found with
  | None => Err (into_error DE_SweepTransactionMissing)
  | Some sweep_tx =>
      let block_ref := mkBitcoinBlockRef (cdv_sweep_block_height c) (cdv_sweep_block_hash c) in
      in_canonical ← ce_in_canonical_bitcoin_blockchain env (rc_chain_tip req_ctx) block_ref;
      if negb in_canonical then Err (into_error DE_SweepTransactionReorged) else
      if negb (existsb (fun tx_in => bool_decide (previous_output tx_in = cdv_outpoint c)) (tx_input (ti_tx sweep_tx)))
      then Err (into_error DE_MissingFromSweep) else
      script_pub_key ← ok_or (first_prevout_script sweep_tx) (into_error DE_InvalidSweep);
      is_signers ← ce_is_signer_script_pub_key env script_pub_key;
      if negb is_signers then Err (into_error DE_InvalidSweep) else
      fee ← infallible (txinfo_assess_input_fee sweep_tx (cdv_outpoint c));
      ok_or fee (into_error DE_MissingFromSweep)
  end.

Definition complete_deposit_validate (c : CompleteDepositV1) : outcome ContractError unit :=
  is_deposit_completed ← ce_is_deposit_completed env (rc_deployer req_ctx) (cdv_outpoint c);
  if (is_deposit_completed : bool) then Err (DepositValidation DE_DepositCompleted req_ctx c) else
  fee ← validate_sweep_tx c;
  validate_vars c fee.

(** *** [AcceptWithdrawalV1] *)
Definition validate_utxo (c : AcceptWithdrawalV1) (tx_out : TxOut) : outcome ContractError unit :=
  let into_error := fun e => WithdrawalAcceptValidation e req_ctx c in
  if negb (aw_deployer c =? rc_deployer req_ctx) then Err (into_error WE_DeployerMismatch) else
  report ← ce_get_withdrawal_request_report env (bbr_block_hash (rc_chain_tip req_ctx)) (rc_stacks_chain_tip req_ctx)
             (aw_id c) (ce_public_key env);
  match report with
  | None => Err (into_error WE_RequestMissing)
  | Some report =>
      match wrep_status report with
      | WithdrawalConfirmed | WithdrawalUnconfirmed => Err (into_error WE_SweepTransactionMissing)
      | WithdrawalFulfilled txid =>
          if negb (txid =? op_txid (aw_outpoint c)) then Err (into_error WE_IncorrectSweepTx) else
          if negb (bool_decide (txo_script tx_out = wrep_recipient report)) then Err (into_error WE_RecipientMismatch) else
          if negb (txo_value tx_out =? wrep_amount report) then Err (into_error WE_InvalidAmount) else
          if wrep_max_fee report <? aw_tx_fee c then Err (into_error WE_FeeTooHigh) else mret tt
      end
  end.

Definition validate_sweep (c : AcceptWithdrawalV1) : outcome ContractError TxOut :=
  let into_error := fun e => WithdrawalAcceptValidation e req_ctx c in
  let vout := Z.to_nat (op_vout (aw_outpoint c)) in
  found ← ce_get_tx_info env (op_txid (aw_outpoint c)) (aw_sweep_block_hash c);
  match found with
  | None => Err (into_error WE_SweepTransactionMissing)
  | Some sweep_tx =>
      let block_ref := mkBitcoinBlockRef (aw_sweep_block_height c) (aw_sweep_block_hash c) in
      in_canonical ← ce_in_canonical_bitcoin_blockchain env (rc_chain_tip req_ctx) block_ref;
      if negb in_canonical then Err (into_error WE_SweepTransactionReorged) else
      assessed ← infallible (txinfo_assess_output_fee sweep_tx vout);
      expected_fee ← ok_or assessed (into_error WE_UtxoMissingFromSweep);
      if negb (expected_fee =? aw_tx_fee c) then Err (into_error WE_IncorrectFee) else
      script_pub_key ← ok_or (first_prevout_script sweep_tx) (into_error WE_InvalidSweep);
      is_signers ← ce_is_signer_script_pub_key env script_pub_key;
      if negb is_signers then Err (into_error WE_InvalidSweep) else
      ok_or (tx_output (ti_tx sweep_tx) !! vout) (into_error WE_UtxoMissingFromSweep)
  end.

Definition accept_withdrawal_validate (c : AcceptWithdrawalV1) : outcome ContractError unit :=
  withdrawal_completed ← ce_is_withdrawal_completed env (rc_deployer req_ctx) (q_request_id (aw_id c));
  if (withdrawal_completed : bool) then Err (WithdrawalAcceptValidation WE_RequestCompleted req_ctx c) else
  tx_out ← validate_sweep c;
  validate_utxo c tx_out.

(** *** [RejectWithdrawalV1] *)
Definition reject_withdrawal_validate (c : RejectWithdrawalV1) : outcome ContractError unit :=
  let into_error := fun e => WithdrawalRejectValidation e req_ctx c in
  withdrawal_completed ← ce_is_withdrawal_completed env (rc_deployer req_ctx) (q_request_id (rj_id c));
  if (withdrawal_completed : bool) then Err (into_error WR_RequestCompleted) else
  if negb (rj_deployer c =? rc_deployer req_ctx) then Err (into_error WR_DeployerMismatch) else
  maybe_report ← ce_get_withdrawal_request_report env (bbr_block_hash (rc_chain_tip req_ctx))
                   (rc_stacks_chain_tip req_ctx) (rj_id c) (ce_public_key env);
  match maybe_report with
  | None => Err (into_error WR_RequestMissing)
  | Some report =>
      match wrep_status report with
      | WithdrawalFulfilled _ => Err (into_error WR_RequestFulfilled)
      | WithdrawalUnconfirmed => Err (into_error WR_RequestUnconfirmed)
      | WithdrawalConfirmed =>
          let blocks_observed := (bbr_block_height (rc_chain_tip req_ctx) ∸ wrep_bitcoin_block_height report)%rust in
          if blocks_observed <=? WITHDRAWAL_BLOCKS_EXPIRY then Err (into_error WR_RequestNotFinal) else
          is_inflight ← ce_is_withdrawal_inflight env (rj_id c) (bbr_block_hash (rc_chain_tip req_ctx));
          if (is_inflight : bool) then Err (into_error WR_RequestBeingFulfilled) else
          is_active ← ce_is_withdrawal_active env (rj_id c) (rc_chain_tip req_ctx) WITHDRAWAL_MIN_CONFIRMATIONS;
          if (is_active : bool) then Err (into_error WR_RequestStillActive) else mret tt
      end
  end.

(** *** [RotateKeysV1] *)
Definition rotate_keys_load (aggregate_key : PublicKey) : outcome ContractError RotateKeysV1 :=
  found ← ce_get_encrypted_dkg_shares env aggregate_key;
  match found with
  | Some shares => mret (mkRotateKeys (shares_signer_set shares) (ds_aggregate_key shares) (ce_deployer env)
                           (ds_signature_share_threshold shares))
  | None => Err (MissingDkgShares aggregate_key)
  end.

Definition rotate_keys_validate (c : RotateKeysV1) : outcome ContractError unit :=
  let into_error := fun e => RotateKeysValidation e req_ctx c in
  if negb (rk_deployer c =? rc_deployer req_ctx) then Err (into_error RK_DeployerMismatch) else
  latest ← ce_get_latest_encrypted_dkg_shares env;
  match latest with
  | None => Err NoDkgShares
  | Some latest_dkg =>
      if negb (bool_decide (rk_new_keys c = shares_signer_set latest_dkg)) then Err (into_error RK_SignerSetMismatch) else
      if negb (rk_aggregate_key c =? ds_aggregate_key latest_dkg) then Err (into_error RK_AggregateKeyMismatch) else
      if negb (match ds_status latest_dkg with Verified => true | _ => false end)
      then Err (into_error RK_DkgSharesNotVerified) else
      if negb (rk_signatures_required c =? ds_signature_share_threshold latest_dkg)
      then Err (into_error RK_SignaturesRequiredMismatch) else
      rotation_exists ← ce_key_rotation_exists env (rc_stacks_chain_tip req_ctx) (rk_new_keys c) (rk_aggregate_key c)
                   (rk_signatures_required c);
      if (rotation_exists : bool) then Err (into_error RK_KeyRotationExists) else mret tt
  end.

Definition contract_call_validate (c : ContractCall) : outcome ContractError unit :=
  match c with
  | CallCompleteDeposit c => complete_deposit_validate c
  | CallAcceptWithdrawal c => accept_withdrawal_validate c
  | CallRejectWithdrawal c => reject_withdrawal_validate c
  | CallRotateKeys c => rotate_keys_validate c
  end.

(** *** [SmartContract] *)
Definition is_deployed (c : SmartContract) (deployer : StacksAddress) : outcome ContractError bool :=
  match ce_get_contract_source env deployer (contract_name c) with
  | Ok _ => Ok true
  | Err StacksNodeNotFound => Ok false
  | Err err => Err err
  | Panic => Panic
  | Diverge => Diverge
  end.
Definition smart_contract_validate (c : SmartContract) : outcome ContractError unit :=
  deployed ← is_deployed c (rc_deployer req_ctx);
  if (deployed : bool) then Err (ContractAlreadyDeployed (contract_name c)) else mret tt.

(** The [match &request.contract_tx] of [assert_valid_stacks_tx_sign_request]. *)
Definition stacks_tx_validate (tx : StacksTx) : outcome ContractError unit :=
  match tx with
  | StacksContractCall c => contract_call_validate c
  | StacksSmartContract c => smart_contract_validate c
  end.
End Validate.

(** ** What acceptance means *)
Section Accepted.
Context `{BitcoinLib}.
Implicit Types (env : ContractEnv) (ctx : ReqContext).

(** The confirmed sweep a call names: bitcoin-core has it in the named block,
    the block is canonical, and its first input spends a signers' output. *)
Record confirmed_sweep env ctx (txid : Txid) (hash : BlockHash) (height : Z) (info : BitcoinTxInfo) : Prop := {
  cs_found : ce_get_tx_info env txid hash = Ok (Some info);
  cs_canonical : ce_in_canonical_bitcoin_blockchain env (rc_chain_tip ctx) (mkBitcoinBlockRef height hash) = Ok true;
  cs_signers : exists script, first_prevout_script info = Some script /\ ce_is_signer_script_pub_key env script = Ok true }.

(** The ten points documented on [CompleteDepositV1::validate]. *)
Record deposit_completable env ctx (c : CompleteDepositV1) (info : BitcoinTxInfo) (request : ModelDepositRequest)
    (fee : Z) : Prop := {
  dc_deployer : cdv_deployer c = rc_deployer ctx;
  dc_request : ce_get_deposit_request env (op_txid (cdv_outpoint c)) (op_vout (cdv_outpoint c)) = Ok (Some request);
  dc_sweep : confirmed_sweep env ctx (cdv_sweep_txid c) (cdv_sweep_block_hash c) (cdv_sweep_block_height c) info;
  dc_fee : txinfo_assess_input_fee info (cdv_outpoint c) = Ok (Some fee);
  dc_recipient : cdv_recipient c = md_recipient request;
  dc_dust : DEPOSIT_DUST_LIMIT <= cdv_amount c;
  dc_amount : cdv_amount c = md_amount request - fee;
  dc_max_fee : fee <= md_max_fee request;
  dc_not_completed : ce_is_deposit_completed env (rc_deployer ctx) (cdv_outpoint c) = Ok false }.

(** The ten points documented on [AcceptWithdrawalV1::validate]. *)
Record withdrawal_acceptable env ctx (c : AcceptWithdrawalV1) (info : BitcoinTxInfo) (report : WithdrawalRequestReport)
    : Prop := {
  wa_deployer : aw_deployer c = rc_deployer ctx;
  wa_request : ce_get_withdrawal_request_report env (bbr_block_hash (rc_chain_tip ctx)) (rc_stacks_chain_tip ctx)
                 (aw_id c) (ce_public_key env) = Ok (Some report);
  wa_fulfilled : wrep_status report = WithdrawalFulfilled (op_txid (aw_outpoint c));
  wa_sweep : confirmed_sweep env ctx (op_txid (aw_outpoint c)) (aw_sweep_block_hash c) (aw_sweep_block_height c) info;
  wa_output : tx_output (ti_tx info) !! Z.to_nat (op_vout (aw_outpoint c)) =
                Some (mkTxOut (wrep_amount report) (wrep_recipient report));
  wa_fee : txinfo_assess_output_fee info (Z.to_nat (op_vout (aw_outpoint c))) = Ok (Some (aw_tx_fee c));
  wa_max_fee : aw_tx_fee c <= wrep_max_fee report;
  wa_not_completed : ce_is_withdrawal_completed env (rc_deployer ctx) (q_request_id (aw_id c)) = Ok false }.

Lemma assessed_input_is_input info o fee : txinfo_assess_input_fee info o = Ok (Some fee) ->
  exists tx_in, tx_in ∈ drop 1 (tx_input (ti_tx info)) /\ previous_output tx_in = o.
Proof.
  unfold txinfo_assess_input_fee, assess_input_fee. destruct (ti_fee info); [|done].
  destruct (List.find _ _) as [tx_in|] eqn:Hf; [|done]. intros _. apply find_some in Hf as [Hin Ho].
  exists tx_in. split; [by apply list_elem_of_In|by case_bool_decide].
Qed.

Lemma infallible_ok {E A} (m : outcome Empty_set A) (a : A) : infallible (E:=E) m = Ok a <-> m = Ok a.
Proof. destruct m as [?|[]| |]; split; unfold infallible; simpl; congruence. Qed.

Lemma validate_sweep_tx_iff env ctx c fee : validate_sweep_tx env ctx c = Ok fee <->
  exists info, confirmed_sweep env ctx (cdv_sweep_txid c) (cdv_sweep_block_hash c) (cdv_sweep_block_height c) info /\
    txinfo_assess_input_fee info (cdv_outpoint c) = Ok (Some fee).
Proof.
  unfold validate_sweep_tx. split.
  - intros Hv. apply bind_ok_inv in Hv as ([info|] & Hi & Hv); [|done]. apply bind_ok_inv in Hv as ([] & Hc & Hv); [|done].
    cbn [negb] in Hv. destruct (existsb _ _); [|done]. cbn [negb] in Hv. apply bind_ok_inv in Hv as (script & Hs & Hv).
    apply ok_or_ok in Hs. apply bind_ok_inv in Hv as ([] & Hsig & Hv); [|done]. cbn [negb] in Hv.
    apply bind_ok_inv in Hv as (f & Hf & Hv). apply infallible_ok in Hf. apply ok_or_ok in Hv as ->.
    exists info. split; [|done]. split; [done|done|by exists script].
  - intros (info & [Hi Hc (script & Hs & Hsig)] & Hf). rewrite Hi. oreduce. rewrite Hc. oreduce. cbn [negb].
    assert (existsb (fun tx_in => bool_decide (previous_output tx_in = cdv_outpoint c)) (tx_input (ti_tx info)) = true) as ->.
    { apply assessed_input_is_input in Hf as (tx_in & Hin & Ho). apply existsb_exists. exists tx_in.
      rewrite bool_decide_true by done. split; [|done]. apply list_elem_of_In. by eapply elem_of_sublist, sublist_drop. }
    cbn [negb]. rewrite Hs. oreduce. rewrite Hsig. oreduce. cbn [negb]. rewrite Hf. done.
Qed.

Lemma complete_deposit_iff env ctx c : complete_deposit_validate env ctx c = Ok tt <->
  exists info request fee, deposit_completable env ctx c info request fee.
Proof.
  unfold complete_deposit_validate, validate_vars. split.
  - intros Hv. apply bind_ok_inv in Hv as ([] & Hdone & Hv); [done|]. apply bind_ok_inv in Hv as (fee & Hf & Hv).
    apply validate_sweep_tx_iff in Hf as (info & Hs & Hf). destruct (Z.eqb_spec (cdv_deployer c) (rc_deployer ctx)); [|done].
    cbn [negb] in Hv. apply bind_ok_inv in Hv as ([request|] & Hr & Hv); [|done]. case_bool_decide; [|done]. cbn [negb] in Hv.
    destruct (Z.ltb_spec (cdv_amount c) DEPOSIT_DUST_LIMIT); [done|]. case_bool_decide as Ha; [|done]. cbn [negb] in Hv.
    destruct (Z.ltb_spec (md_max_fee request) fee); [done|]. exists info, request, fee. split; try done.
    destruct (fee <=? md_amount request); congruence.
  - intros (info & request & fee & Hok). destruct Hok. rewrite dc_not_completed0. oreduce.
    assert (validate_sweep_tx env ctx c = Ok fee) as -> by (apply validate_sweep_tx_iff; eauto). oreduce.
    rewrite dc_deployer0, Z.eqb_refl. cbn [negb]. rewrite dc_request0. oreduce. rewrite bool_decide_true by done. cbn [negb].
    destruct (Z.ltb_spec (cdv_amount c) DEPOSIT_DUST_LIMIT); [lia|].
    destruct (Z.leb_spec fee (md_amount request)); [|unfold DEPOSIT_DUST_LIMIT in *; lia].
    rewrite bool_decide_true by congruence. cbn [negb]. by destruct (Z.ltb_spec (md_max_fee request) fee); [lia|].
Qed.

Lemma validate_sweep_iff env ctx c out : validate_sweep env ctx c = Ok out <->
  exists info, confirmed_sweep env ctx (op_txid (aw_outpoint c)) (aw_sweep_block_hash c) (aw_sweep_block_height c) info /\
    txinfo_assess_output_fee info (Z.to_nat (op_vout (aw_outpoint c))) = Ok (Some (aw_tx_fee c)) /\
    tx_output (ti_tx info) !! Z.to_nat (op_vout (aw_outpoint c)) = Some out.
Proof.
  unfold validate_sweep. split.
  - intros Hv. apply bind_ok_inv in Hv as ([info|] & Hi & Hv); [|done]. apply bind_ok_inv in Hv as ([] & Hc & Hv); [|done].
    cbn [negb] in Hv. apply bind_ok_inv in Hv as (a & Ha & Hv). apply infallible_ok in Ha.
    apply bind_ok_inv in Hv as (fee & Hf & Hv). apply ok_or_ok in Hf as ->.
    destruct (Z.eqb_spec fee (aw_tx_fee c)) as [->|]; [|done]. cbn [negb] in Hv.
    apply bind_ok_inv in Hv as (script & Hs & Hv). apply ok_or_ok in Hs. apply bind_ok_inv in Hv as ([] & Hsig & Hv); [|done].
    cbn [negb] in Hv. apply ok_or_ok in Hv. exists info. split_and!; [|done|done]. split; [done|done|by exists script].
  - intros (info & [Hi Hc (script & Hs & Hsig)] & Hf & Ho). rewrite Hi. oreduce. rewrite Hc. oreduce. cbn [negb].
    rewrite Hf. unfold infallible. oreduce. rewrite Z.eqb_refl. cbn [negb]. rewrite Hs. oreduce. rewrite Hsig. oreduce.
    cbn [negb]. by rewrite Ho.
Qed.

Lemma accept_withdrawal_iff env ctx c : accept_withdrawal_validate env ctx c = Ok tt <->
  exists info report, withdrawal_acceptable env ctx c info report.
Proof.
  unfold accept_withdrawal_validate, validate_utxo. split.
  - intros Hv. apply bind_ok_inv in Hv as ([] & Hdone & Hv); [done|]. apply bind_ok_inv in Hv as (out & Hs & Hv).
    apply validate_sweep_iff in Hs as (info & Hs & Hf & Ho). destruct (Z.eqb_spec (aw_deployer c) (rc_deployer ctx)); [|done].
    cbn [negb] in Hv. apply bind_ok_inv in Hv as ([report|] & Hr & Hv); [|done].
    destruct (wrep_status report) as [|txid|] eqn:Hst; [done| |done].
    destruct (Z.eqb_spec txid (op_txid (aw_outpoint c))) as [->|]; [|done]. case_bool_decide; [|done]. cbn [negb] in Hv.
    destruct (Z.eqb_spec (txo_value out) (wrep_amount report)); [|done]. cbn [negb] in Hv.
    destruct (Z.ltb_spec (wrep_max_fee report) (aw_tx_fee c)); [done|]. exists info, report. split; try done.
    destruct out; simpl in *; congruence.
  - intros (info & report & Hok). destruct Hok. rewrite wa_not_completed0. oreduce.
    assert (validate_sweep env ctx c = Ok (mkTxOut (wrep_amount report) (wrep_recipient report))) as ->
      by (apply validate_sweep_iff; eauto). oreduce. rewrite wa_deployer0, Z.eqb_refl. cbn [negb]. rewrite wa_request0. oreduce.
    rewrite wa_fulfilled0, Z.eqb_refl. cbn [negb txo_script txo_value]. rewrite bool_decide_true, Z.eqb_refl by done. cbn [negb].
    by destruct (Z.ltb_spec (wrep_max_fee report) (aw_tx_fee c)); [lia|].
Qed.
End Accepted.

(** ** A completed sweep keeps the token backed *)

(** The fee an assessment charges. *)
Definition assessed (m : outcome Empty_set (option Z)) : Z := match m with Ok (Some f) => f | _ => 0 end.
(** The amount of an output. *)
Definition output_value (tx : Transaction) (k : nat) : Z := from_option txo_value 0 (tx_output tx !! k).

Section Backing.
Context `{BitcoinLib}.
Implicit Types (reqs : list RequestRef) (info : BitcoinTxInfo).

(** [info] is what bitcoin-core reports of the sweep [u] once it is signed and
    confirmed: same outpoints, same outputs, and the fee is what the inputs
    have over the outputs. *)
Record confirmed_as (u : UnsignedTransaction) info : Prop := {
  ca_inputs : map previous_output (tx_input (ti_tx info)) = map previous_output (tx_input (ut_tx u));
  ca_outputs : tx_output (ti_tx info) = tx_output (ut_tx u);
  ca_fee : exists i o, input_amounts u = Ok i /\ output_amounts u = Ok o /\ ti_fee info = Some (i - o) }.

(** A signer accepted the call [c], naming the sweep [info], in some state in
    which its record of the deposit has the amount that was swept. *)
Definition mint_of reqs info (c : CompleteDepositV1) : Prop := exists env ctx,
  complete_deposit_validate env ctx c = Ok tt /\
  ce_get_tx_info env (cdv_sweep_txid c) (cdv_sweep_block_hash c) = Ok (Some info) /\
  forall d request, Deposit d ∈ reqs -> dr_outpoint d = cdv_outpoint c ->
    ce_get_deposit_request env (op_txid (cdv_outpoint c)) (op_vout (cdv_outpoint c)) = Ok (Some request) ->
    md_amount request = dr_amount d.

(** A signer accepted the call [a], naming the sweep [info], in some state in
    which the withdrawal request has amount [amount]. *)
Definition accept_of info (a : AcceptWithdrawalV1) (amount : Z) : Prop := exists env ctx report,
  accept_withdrawal_validate env ctx a = Ok tt /\
  ce_get_tx_info env (op_txid (aw_outpoint a)) (aw_sweep_block_hash a) = Ok (Some info) /\
  ce_get_withdrawal_request_report env (bbr_block_hash (rc_chain_tip ctx)) (rc_stacks_chain_tip ctx)
    (aw_id a) (ce_public_key env) = Ok (Some report) /\ amount = wrep_amount report.

Lemma zsum_map_sub {A} (f g : A -> Z) l : zsum (map (fun x => f x - g x) l) = zsum (map f l) - zsum (map g l).
Proof. induction l as [|x l IH]; [done|]. cbn [map zsum foldr] in *. unfold zsum in *. lia. Qed.

Lemma assessed_fees_sum tx fee fees : assessed_fees tx fee = map (fun f => Ok (Some f)) fees ->
  zsum fees = zsum (map (fun o => assessed (assess_input_fee tx o fee)) (map previous_output (drop 1 (tx_input tx)))) +
              zsum (map (fun k => assessed (assess_output_fee tx k fee)) (seq 2 (length (drop 2 (tx_output tx))))).
Proof.
  unfold assessed_fees. intros He. apply (f_equal (map assessed)) in He. rewrite map_app, !map_map in He.
  simpl in He. rewrite map_id in He. rewrite <- He, zsum_app. rewrite map_map. do 2 f_equal.
  change (seq 2 ?n) with (seq (2 + 0) n). rewrite <- fmap_add_seq. by rewrite map_map.
Qed.

(** What a mint carries, as a function of its outpoint. *)
Lemma mint_amount reqs info fee c d : ti_fee info = Some fee -> mint_of reqs info c ->
  Deposit d ∈ reqs -> dr_outpoint d = cdv_outpoint c ->
  cdv_amount c = dr_amount d - assessed (assess_input_fee (ti_tx info) (cdv_outpoint c) fee).
Proof.
  intros Hfee (env & ctx & Hv & Hi & Hrec) Hd Ho. apply complete_deposit_iff in Hv as (info' & request & f & Hok).
  destruct Hok as [_ Hr [Hi' _ _] Hf _ _ Ha _ _]. rewrite Hi in Hi'. simplify_eq.
  unfold txinfo_assess_input_fee in Hf. rewrite Hfee in Hf. rewrite Hf. rewrite Ha. by rewrite (Hrec d request).
Qed.

Lemma accept_amount info fee a amount : ti_fee info = Some fee -> accept_of info a amount ->
  let k := Z.to_nat (op_vout (aw_outpoint a)) in
  amount = output_value (ti_tx info) k /\ aw_tx_fee a = assessed (assess_output_fee (ti_tx info) k fee).
Proof.
  intros Hfee (env & ctx & report & Hv & Hi & Hr & ->) k. apply accept_withdrawal_iff in Hv as (info' & report' & Hok).
  destruct Hok as [_ Hr' _ [Hi' _ _] Ho Hf _ _]. rewrite Hi in Hi'. rewrite Hr in Hr'. simplify_eq.
  unfold txinfo_assess_output_fee in Hf. rewrite Hfee in Hf. unfold output_value, k. by rewrite Ho, Hf.
Qed.

Lemma mints_total reqs info fee mints : ti_fee info = Some fee -> Forall (mint_of reqs info) mints ->
  NoDup (map dr_outpoint (omap as_deposit reqs)) ->
  map cdv_outpoint mints ≡ₚ map dr_outpoint (omap as_deposit reqs) ->
  zsum (map cdv_amount mints) = minted reqs -
    zsum (map (fun o => assessed (assess_input_fee (ti_tx info) o fee)) (map dr_outpoint (omap as_deposit reqs))).
Proof.
  intros Hfee Hm Hnd Hp. set (ds := omap as_deposit reqs) in *.
  assert (forall d, d ∈ ds -> Deposit d ∈ reqs) as Hds.
  { intros d Hd. apply list_elem_of_omap in Hd as (r & Hr & Hd). destruct r; simpl in Hd; by simplify_eq. }
  set (amount := fun o => from_option dr_amount 0 (List.find (fun d => bool_decide (dr_outpoint d = o)) ds)).
  assert (forall d, d ∈ ds -> amount (dr_outpoint d) = dr_amount d) as Ham.
  { intros d Hd. unfold amount. clearbody ds. clear -Hnd Hd. induction ds as [|x ds IH]; [by apply elem_of_nil in Hd|].
    cbn [map] in Hnd. apply NoDup_cons in Hnd as [Hni Hnd]. simpl. apply elem_of_cons in Hd as [->|Hd].
    - by rewrite bool_decide_true.
    - rewrite bool_decide_false; [by apply IH|]. intros Heq. apply Hni. rewrite Heq. by apply list_elem_of_fmap_2. }
  set (g := fun o => assessed (assess_input_fee (ti_tx info) o fee)).
  assert (map cdv_amount mints = map (fun o => amount o - g o) (map cdv_outpoint mints)) as ->.
  { rewrite map_map. apply map_ext_in. intros c Hc. apply list_elem_of_In in Hc.
    assert (cdv_outpoint c ∈ map dr_outpoint ds) as Hin by (rewrite <- Hp; by apply list_elem_of_fmap_2).
    apply list_elem_of_fmap in Hin as (d & Ho & Hd). rewrite Ho, (Ham d Hd), <- Ho.
    rewrite Forall_forall in Hm. by apply (mint_amount reqs); auto. }
  rewrite (zsum_perm _ (map (fun o => amount o - g o) (map dr_outpoint ds))) by (by apply (Permutation_map (fun o => amount o - g o))).
  rewrite zsum_map_sub. f_equal. unfold minted. fold ds. f_equal. rewrite map_map. apply map_ext_in. intros d Hd.
  apply Ham. by apply list_elem_of_In.
Qed.

Lemma accepts_total info fee accepts amounts n : ti_fee info = Some fee -> Forall2 (accept_of info) accepts amounts ->
  map (fun a => Z.to_nat (op_vout (aw_outpoint a))) accepts ≡ₚ seq 2 n ->
  zsum amounts = zsum (map (output_value (ti_tx info)) (seq 2 n)) /\
  zsum (map aw_tx_fee accepts) = zsum (map (fun k => assessed (assess_output_fee (ti_tx info) k fee)) (seq 2 n)).
Proof.
  intros Hfee Ha Hp. rewrite <- (zsum_perm _ _ (Permutation_map (output_value (ti_tx info)) Hp)).
  rewrite <- (zsum_perm _ _ (Permutation_map (fun k => assessed (assess_output_fee (ti_tx info) k fee)) Hp)).
  clear Hp. rewrite !map_map. induction Ha as [|a x accepts amounts Hax _ [IH1 IH2]]; [done|].
  apply (accept_amount info fee) in Hax as [-> Hf]; [|done].
  cbn [map zsum foldr] in *. unfold zsum in *. lia.
Qed.
End Backing.

(** C1: the token stays backed. Take a sweep built for a package, signed and
    confirmed on bitcoin, whose requests have all been completed by contract
    calls that signers accepted (one complete-deposit call per deposit, one
    accept-withdrawal call per withdrawal output). Then the sats minted, minus
    the sats burned for the withdrawals (their amounts and their assessed
    fees), are at most what the signers' own output gained over the UTXO the
    sweep spent: mints and burns never exceed the bitcoin the signers hold. *)
Theorem completed_sweep_backed `{BitcoinLib} `{!BitcoinWeights} reqs state u info mints accepts amounts :
  unsigned_new reqs state = Ok u -> amounts_ok reqs state -> confirmed_as u info ->
  (forall fee, ti_fee info = Some fee -> request_weight (ti_tx info) * fee < 2 ^ 64) ->
  NoDup (map dr_outpoint (omap as_deposit reqs)) ->
  Forall (mint_of reqs info) mints ->
  map cdv_outpoint mints ≡ₚ map dr_outpoint (omap as_deposit reqs) ->
  Forall2 (accept_of info) accepts amounts ->
  map (fun a => Z.to_nat (op_vout (aw_outpoint a))) accepts ≡ₚ seq 2 (length (omap as_withdrawal reqs)) ->
  exists out, tx_output (ti_tx info) !! 0%nat = Some out /\
    txo_script out = signers_script_pubkey (sb_public_key state) /\
    zsum (map cdv_amount mints) - (zsum amounts + zsum (map aw_tx_fee accepts)) <=
    txo_value out - su_amount (sb_utxo state).
Proof.
  intros Hu Hok [Hin Hout (i & o & Hi & Ho & Hfee)] Hw Hnd Hm Hmp Ha Hap.
  destruct (sweep_amounts reqs state Hok) as [_ Hs]. destruct (Hs u Hu) as (Hav & Hi' & Ho').
  pose proof (compute_signer_amount_eq reqs state Hok) as Hc. cbv zeta in Hc.
  rewrite Hi in Hi'. rewrite Ho in Ho'. apply ok_inj in Hi', Ho'. subst i o.
  apply unsigned_new_inv in Hu as (Hne & _ & _ & _ & [Hf0 Hf1] & amount & op & Hamt & _ & Hui & Huo).
  rewrite Hc in Hamt. destruct (Z.ltb_spec (su_amount (sb_utxo state) + minted reqs - withdrawn reqs) 0); [lia|].
  apply ok_inj in Hamt. subst amount. rewrite Huo in Hout. rewrite Hui in Hin. cbn [map] in Hin.
  set (fee := _ - (_ - _)) in Hfee. assert (map previous_output (drop 1 (tx_input (ti_tx info))) =
    map dr_outpoint (omap as_deposit reqs)) as Hdrop.
  { rewrite <- skipn_map, Hin. simpl. rewrite map_map. simpl. by rewrite map_id. }
  destruct (assessed_fees_total (ti_tx info) fee) as (fees & Hfs & _ & [Hcover _] & _).
  { by rewrite Hdrop. }
  { unfold charged_weights. rewrite Hout. cbn [drop]. rewrite drop_0. intros Hnil. apply app_nil in Hnil as [Hn1 Hn2].
    apply map_eq_nil in Hn1, Hn2. apply map_eq_nil in Hn2. rewrite Hn1 in Hdrop. symmetry in Hdrop. apply map_eq_nil in Hdrop.
    destruct reqs as [|[d|w] reqs]; simpl in *; done. }
  { subst fee. unfold in_u in *. lia. }
  { by apply Hw. }
  apply assessed_fees_sum in Hfs. rewrite Hdrop in Hfs.
  assert (length (drop 2 (tx_output (ti_tx info))) = length (omap as_withdrawal reqs)) as Hlen
    by (rewrite Hout; simpl; by rewrite drop_0, length_map). rewrite Hlen in Hfs.
  pose proof (mints_total reqs info fee mints Hfee Hm Hnd Hmp) as Hmints.
  destruct (accepts_total info fee accepts amounts _ Hfee Ha Hap) as [Hamounts Hafees].
  assert (zsum (map (output_value (ti_tx info)) (seq 2 (length (omap as_withdrawal reqs)))) = withdrawn reqs) as Hwd.
  { unfold output_value, withdrawn. rewrite Hout. f_equal. apply list_eq. intros k. rewrite !list_lookup_fmap.
    destruct (omap as_withdrawal reqs !! k) as [w|] eqn:Hk.
    - rewrite lookup_seq_lt by (by eapply lookup_lt_Some). simpl. by rewrite list_lookup_fmap, Hk.
    - rewrite lookup_seq_ge by (by apply lookup_ge_None). done. }
  eexists. rewrite Hout. split_and!; [done..|]. cbn [signer_new_tx_output txo_value]. unfold saturating_sub. lia.
Qed.

(** complete-deposit calls are accepted exactly under the documented
    conditions: the call names the expected deployer, a deposit on record with
    its recipient, and a canonical sweep whose first input spends a signers'
    output and which spends the deposit after it; it mints the recorded amount
    minus the fee assessed to that input, at least the dust limit, the fee is
    within the depositor's maximum, and nothing was minted before. *)
Theorem complete_deposit_exact `{BitcoinLib} env ctx c :
  complete_deposit_validate env ctx c = Ok tt <->
  exists info request fee, deposit_completable env ctx c info request fee /\
    exists tx_in, tx_in ∈ drop 1 (tx_input (ti_tx info)) /\ previous_output tx_in = cdv_outpoint c.
Proof.
  rewrite complete_deposit_iff. split.
  - intros (info & request & fee & Hok). exists info, request, fee. split; [done|].
    by eapply assessed_input_is_input, dc_fee.
  - intros (info & request & fee & Hok & _). eauto.
Qed.

(** Accept-withdrawal calls are accepted exactly under the documented
    conditions: the request is on record as fulfilled by the named
    transaction, which is a canonical signers' sweep whose named output pays
    the recorded recipient exactly the recorded amount; the fee of the call is
    the one assessed to that output and within the requester's maximum; and
    the request is not completed. *)
Theorem accept_withdrawal_exact `{BitcoinLib} env ctx c :
  accept_withdrawal_validate env ctx c = Ok tt <->
  exists info report, withdrawal_acceptable env ctx c info report.
Proof. apply accept_withdrawal_iff. Qed.

Lemma reject_withdrawal_inv env ctx c : reject_withdrawal_validate env ctx c = Ok tt ->
  exists report, ce_get_withdrawal_request_report env (bbr_block_hash (rc_chain_tip ctx)) (rc_stacks_chain_tip ctx)
      (rj_id c) (ce_public_key env) = Ok (Some report) /\ wrep_status report = WithdrawalConfirmed /\
    WITHDRAWAL_BLOCKS_EXPIRY < bbr_block_height (rc_chain_tip ctx) - wrep_bitcoin_block_height report /\
    ce_is_withdrawal_inflight env (rj_id c) (bbr_block_hash (rc_chain_tip ctx)) = Ok false /\
    ce_is_withdrawal_active env (rj_id c) (rc_chain_tip ctx) WITHDRAWAL_MIN_CONFIRMATIONS = Ok false /\
    ce_is_withdrawal_completed env (rc_deployer ctx) (q_request_id (rj_id c)) = Ok false.
Proof.
  unfold reject_withdrawal_validate. intros Hv. apply bind_ok_inv in Hv as ([] & Hdone & Hv); [done|].
  destruct (rj_deployer c =? rc_deployer ctx); [|done]. cbn [negb] in Hv.
  apply bind_ok_inv in Hv as ([report|] & Hr & Hv); [|done]. destruct (wrep_status report) eqn:Hst; [|done|done].
  unfold saturating_sub, WITHDRAWAL_BLOCKS_EXPIRY in *. destruct (Z.leb_spec (Z.max (bbr_block_height (rc_chain_tip ctx) -
    wrep_bitcoin_block_height report) 0) 24); [done|].
  apply bind_ok_inv in Hv as ([] & Hin & Hv); [done|]. apply bind_ok_inv in Hv as ([] & Hact & Hv); [done|].
  exists report. split_and!; try done. lia.
Qed.

(** A withdrawal is never both accepted and rejected: a signer that
    accepts a reject call, because the request is confirmed, expired by more
    than 24 blocks, not in flight and not active, accepts no accept call for
    the same request in the same view of the chains; whatever the sweep,
    output and fee the call names. *)
Theorem accept_reject_exclusive `{BitcoinLib} env ctx (r : RejectWithdrawalV1) (a : AcceptWithdrawalV1) :
  aw_id a = rj_id r -> contract_call_validate env ctx (CallRejectWithdrawal r) = Ok tt ->
  ce_is_withdrawal_inflight env (rj_id r) (bbr_block_hash (rc_chain_tip ctx)) = Ok false /\
  ce_is_withdrawal_active env (rj_id r) (rc_chain_tip ctx) WITHDRAWAL_MIN_CONFIRMATIONS = Ok false /\
  contract_call_validate env ctx (CallAcceptWithdrawal a) <> Ok tt.
Proof.
  cbn [contract_call_validate]. intros Hid Hr.
  apply reject_withdrawal_inv in Hr as (report & Hrep & Hst & _ & Hfl & Hact & _). split_and!; [done..|].
  intros Ha. apply accept_withdrawal_iff in Ha as (info & report' & Hok). destruct Hok as [_ Hrep' Hst' _ _ _ _ _].
  rewrite Hid in Hrep'. congruence.
Qed.

(** Rotate-keys calls follow the latest DKG: a call is accepted exactly
    when the latest shares are verified and the call carries their signer set,
    aggregate key and threshold, with the expected deployer and no identical
    rotation on chain. *)
Theorem rotate_keys_latest env ctx c :
  rotate_keys_validate env ctx c = Ok tt <->
  exists shares, ce_get_latest_encrypted_dkg_shares env = Ok (Some shares) /\ ds_status shares = Verified /\
    c = mkRotateKeys (shares_signer_set shares) (ds_aggregate_key shares) (rc_deployer ctx)
          (ds_signature_share_threshold shares) /\
    ce_key_rotation_exists env (rc_stacks_chain_tip ctx) (rk_new_keys c) (rk_aggregate_key c)
      (rk_signatures_required c) = Ok false.
Proof.
  unfold rotate_keys_validate. split.
  - intros Hv. destruct (Z.eqb_spec (rk_deployer c) (rc_deployer ctx)) as [Hd|]; [|done]. cbn [negb] in Hv.
    apply bind_ok_inv in Hv as ([shares|] & Hs & Hv); [|done]. case_bool_decide as Hk; [|done]. cbn [negb] in Hv.
    destruct (Z.eqb_spec (rk_aggregate_key c) (ds_aggregate_key shares)) as [Ha|]; [|done]. cbn [negb] in Hv.
    destruct (ds_status shares) eqn:Hst; try done. cbn [negb] in Hv.
    destruct (Z.eqb_spec (rk_signatures_required c) (ds_signature_share_threshold shares)) as [Ht|]; [|done]. cbn [negb] in Hv.
    apply bind_ok_inv in Hv as ([] & He & Hv); [done|]. exists shares. split_and!; try done.
    destruct c; simpl in *; congruence.
  - intros (shares & Hs & Hst & -> & He). cbn [rk_deployer rk_new_keys rk_aggregate_key rk_signatures_required] in *.
    rewrite Z.eqb_refl. cbn [negb]. rewrite Hs. oreduce. rewrite bool_decide_true by done. rewrite !Z.eqb_refl, Hst. cbn [negb].
    by rewrite He.
Qed.

(** ** Witnesses *)
#[local] Existing Instance demo_bitcoin.
#[local] Existing Instance demo_weights.

Definition demo_confirmed : BitcoinTxInfo :=
  mkTxInfo (match input_amounts demo_unsigned, output_amounts demo_unsigned with Ok i, Ok o => Some (i - o) | _, _ => None end)
    (ut_tx demo_unsigned) [mkVin (Some 99) (Some 1) (Some (mkVinPrevout 500000 (signers_script_pubkey 11)))].
Definition demo_deposits : list DepositRequest := omap as_deposit (requests_new demo_items).
Definition demo_withdrawals : list WithdrawalRequest := omap as_withdrawal (requests_new demo_items).
Definition demo_ctx' : ReqContext := mkReqContext (mkBitcoinBlockRef 900 77) 5 10 1 12 2 42.
(** A signer that has the requests of the sample package on record. *)
Definition demo_contract_env : ContractEnv := {|
  ce_public_key := 1;
  ce_deployer := 42;
  ce_is_deposit_completed := fun _ _ => Ok false;
  ce_is_withdrawal_completed := fun _ _ => Ok false;
  ce_get_contract_source := fun _ _ => Err StacksNodeNotFound;
  ce_get_tx_info := fun txid hash => Ok (if (txid =? 1000) && (hash =? 70) then Some demo_confirmed else None);
  ce_in_canonical_bitcoin_blockchain := fun tip block => Ok (bbr_block_height block <=? bbr_block_height tip);
  ce_is_signer_script_pub_key := fun s => Ok (bool_decide (s = signers_script_pubkey 11));
  ce_get_deposit_request := fun txid vout =>
    Ok (match List.find (fun d => bool_decide (dr_outpoint d = mkOutPoint txid vout)) demo_deposits with
        | Some d => Some (mkModelDeposit txid vout [] 0 [22; 7] (dr_amount d) 90000 10 11 [])
        | None => None
        end);
  ce_get_withdrawal_request_report := fun _ _ i _ =>
    Ok (match List.find (fun w => wr_request_id w =? q_request_id i) demo_withdrawals with
        | Some w => Some (mkWithdrawalReport i (WithdrawalFulfilled 1000) (wr_amount w) 90000 (wr_script_pubkey w) (Some true) 860)
        | None => Some (mkWithdrawalReport i WithdrawalConfirmed 5000 90000 [0] (Some false) 860)
        end);
  ce_is_withdrawal_inflight := fun _ _ => Ok false;
  ce_is_withdrawal_active := fun _ _ _ => Ok false;
  ce_get_encrypted_dkg_shares := fun _ => Ok None;
  ce_get_latest_encrypted_dkg_shares := Ok None;
  ce_key_rotation_exists := fun _ _ _ _ => Ok false |}.
Definition demo_sweep_fee : Z := default 0 (ti_fee demo_confirmed).
Definition demo_mint (d : DepositRequest) : CompleteDepositV1 :=
  mkCompleteDeposit (dr_outpoint d) (dr_amount d - assessed (assess_input_fee (ut_tx demo_unsigned) (dr_outpoint d) demo_sweep_fee))
    [22; 7] 42 1000 70 890.
Definition demo_accept (k : nat) (w : WithdrawalRequest) : AcceptWithdrawalV1 :=
  mkAcceptWithdrawal (mkQualifiedRequestId (wr_request_id w) 0 0) (mkOutPoint 1000 (Z.of_nat (2 + k)))
    (assessed (assess_output_fee (ut_tx demo_unsigned) (2 + k) demo_sweep_fee)) 0 42 70 890.
Definition demo_mints : list CompleteDepositV1 := map demo_mint demo_deposits.
Definition demo_accepts : list AcceptWithdrawalV1 := imap demo_accept demo_withdrawals.

Lemma demo_confirmed_as : confirmed_as demo_unsigned demo_confirmed.
Proof. split; [done|done|]. exists 650000, 646100. split_and!; by vm_compute. Qed.
Lemma demo_mint_of d : d ∈ demo_deposits -> mint_of (requests_new demo_items) demo_confirmed (demo_mint d).
Proof.
  intros Hd. assert (demo_deposits = [demo_deposit 1 90000; demo_deposit 2 60000]) as Hds by (by vm_compute).
  rewrite Hds in Hd. exists demo_contract_env, demo_ctx'. split_and!.
  - apply elem_of_cons in Hd as [->|Hd%list_elem_of_singleton]; [by vm_compute|subst d; by vm_compute].
  - done.
  - intros d' request Hd' Ho. assert (d' ∈ demo_deposits) as Hin by (apply list_elem_of_omap; by exists (Deposit d')).
    rewrite Hds in Hin. apply elem_of_cons in Hin as [->|Hin%list_elem_of_singleton]; [|subst d'];
      rewrite <- Ho; intros Hr; injection Hr as <-; by vm_compute.
Qed.
Lemma demo_accepts_of : Forall2 (accept_of demo_confirmed) demo_accepts (map wr_amount demo_withdrawals).
Proof.
  assert (demo_withdrawals = [demo_withdrawal 4 20000; demo_withdrawal 7 30000]) as Hw by (by vm_compute).
  unfold demo_accepts. rewrite Hw. cbn [imap map].
  repeat (apply Forall2_cons; split; [exists demo_contract_env, demo_ctx'; eexists; split_and!; [by vm_compute|done|by vm_compute|done]|]).
  apply Forall2_nil. done.
Qed.
Lemma completed_sweep_backed_witness : exists out, tx_output (ti_tx demo_confirmed) !! 0%nat = Some out /\
  zsum (map cdv_amount demo_mints) - (zsum (map wr_amount demo_withdrawals) + zsum (map aw_tx_fee demo_accepts)) <=
  txo_value out - 500000.
Proof.
  destruct (completed_sweep_backed (requests_new demo_items) demo_state demo_unsigned demo_confirmed demo_mints demo_accepts
    (map wr_amount demo_withdrawals)) as (out & Ho & _ & Hle).
  - exact demo_unsigned_ok.
  - apply demo_amounts_ok; [|by vm_compute|by vm_compute].
    repeat (apply List.Forall_cons; [by vm_compute|]). apply List.Forall_nil.
  - exact demo_confirmed_as.
  - intros fee Hf. vm_compute in Hf. injection Hf as <-. by vm_compute.
  - apply (bool_decide_unpack _). by vm_compute.
  - apply Forall_forall. intros c Hc. apply list_elem_of_fmap in Hc as (d & -> & Hd). by apply demo_mint_of.
  - by vm_compute.
  - exact demo_accepts_of.
  - by vm_compute.
  - exists out. split; [exact Ho|exact Hle].
Defined.

Lemma accept_reject_exclusive_witness :
  let i := mkQualifiedRequestId 9 0 0 in let r := mkRejectWithdrawal i 0 42 in
  contract_call_validate demo_contract_env demo_ctx' (CallRejectWithdrawal r) = Ok tt /\
  contract_call_validate demo_contract_env demo_ctx'
    (CallAcceptWithdrawal (mkAcceptWithdrawal i (mkOutPoint 1000 2) 411 0 42 70 890)) <> Ok tt.
Proof.
  intros i r. split; [by vm_compute|]. apply (accept_reject_exclusive demo_contract_env demo_ctx' r); by vm_compute.
Defined.
