(* ===== verification/WstsNet.v ===== *)
(** The messages of the [wsts] crate and the data its coordinators share.

    Source: src/wsts/src/net.rs, src/wsts/src/state_machine/mod.rs,
    src/wsts/src/state_machine/coordinator/mod.rs,
    src/signer/src/dkg/wsts.rs.

    The coordinators reach the cryptography through the class [WstsCrypto]:
    the operations of [common.rs], [compute.rs] and [v2.rs] they call, whose
    definitions and theorems over a field and a module are in [Wsts],
    [WstsDkg] and [WstsSign].  Identifiers are [u32] or [u64] values as
    integers; byte strings are lists of integers. *)

From S2P Require Import Prelude Effects.

(** ** The cryptography the coordinators call *)
Class WstsCrypto := {
  Point : Type;
  #[global] Point_eq_dec :: EqDecision Point;
  point_default : Point;
  point_add : Point -> Point -> Point;
  Scalar : Type;
  scalar_base : Scalar -> Point;                                (* [s * G] *)
  scalar_try_from : list Z -> option Scalar;
  PolyCommitment : Type;
  constant_term : PolyCommitment -> Point;
  check_public_shares : PolyCommitment -> Z -> bool;
  compute_poly : Z -> PolyCommitment -> option Point;           (* [compute::poly(&compute::id(k), c.poly())] *)
  PublicNonce : Type;
  public_nonce_is_valid : PublicNonce -> bool;
  SignatureShare : Type;
  share_key_ids : SignatureShare -> list Z;
  Signature : Type;
  SchnorrProof : Type;
  TupleProof : Type;
  tuple_proof_verify : TupleProof -> Point -> Point -> Point -> bool;
  decrypt : Point -> list Z -> option (list Z);                 (* under [make_shared_secret_from_key] *)
  AggregatorError : Type;
  Aggregator : Type;
  aggregator_new : Z -> Z -> Aggregator;
  aggregator_init : Aggregator -> gmap Z PolyCommitment -> Aggregator * outcome AggregatorError unit;
  aggregator_sign : Aggregator -> list Z -> list PublicNonce -> list SignatureShare -> list Z ->
    outcome AggregatorError Signature;
  aggregator_sign_schnorr : Aggregator -> list Z -> list PublicNonce -> list SignatureShare -> list Z ->
    outcome AggregatorError SchnorrProof;
  aggregator_sign_taproot : Aggregator -> list Z -> list PublicNonce -> list SignatureShare -> list Z ->
    option (list Z) -> outcome AggregatorError SchnorrProof }.

(** ** Messages ([net.rs]) *)
Inductive SignatureType :=
| Frost
| Schnorr
| Taproot (merkle_root : option (list Z)).
#[global] Instance SignatureType_eq_dec : EqDecision SignatureType.
Proof. solve_decision. Defined.

Section Net.
Context `{WstsCrypto}.

Record BadPrivateShare := mkBadPrivateShare { bps_shared_key : Point; bps_tuple_proof : TupleProof }.

Inductive DkgFailure :=
| FailThreshold
| FailBadState
| FailMissingPublicShares (ids : gset Z)
| FailBadPublicShares (ids : gset Z)
| FailMissingPrivateShares (ids : gset Z)
| FailBadPrivateShares (shares : gmap Z BadPrivateShare).

Inductive DkgStatus :=
| StatusSuccess
| StatusFailure (f : DkgFailure).

Record NetDkgBegin := mkDkgBegin { db_dkg_id : Z }.
Record NetDkgPublicShares := mkDkgPublicShares {
  dps_dkg_id : Z; dps_signer_id : Z; dps_comms : list (Z * PolyCommitment) }.
Record NetDkgPrivateBegin := mkDkgPrivateBegin {
  dpb_dkg_id : Z; dpb_signer_ids : list Z; dpb_key_ids : list Z }.
Record NetDkgPrivateShares := mkDkgPrivateShares {
  dvs_dkg_id : Z; dvs_signer_id : Z; dvs_shares : list (Z * gmap Z (list Z)) }.
Record NetDkgEndBegin := mkDkgEndBegin {
  deb_dkg_id : Z; deb_signer_ids : list Z; deb_key_ids : list Z }.
Record NetDkgEnd := mkDkgEnd { de_dkg_id : Z; de_signer_id : Z; de_status : DkgStatus }.
Record NetNonceRequest := mkNonceRequest {
  nq_dkg_id : Z; nq_sign_id : Z; nq_sign_iter_id : Z; nq_message : list Z; nq_signature_type : SignatureType }.
Record NetNonceResponse := mkNonceResponse {
  nr_dkg_id : Z; nr_sign_id : Z; nr_sign_iter_id : Z; nr_signer_id : Z; nr_key_ids : list Z;
  nr_nonces : list PublicNonce; nr_message : list Z }.
Record NetSignatureShareRequest := mkSignatureShareRequest {
  sq_dkg_id : Z; sq_sign_id : Z; sq_sign_iter_id : Z; sq_nonce_responses : list NetNonceResponse;
  sq_message : list Z; sq_signature_type : SignatureType }.
Record NetSignatureShareResponse := mkSignatureShareResponse {
  sr_dkg_id : Z; sr_sign_id : Z; sr_sign_iter_id : Z; sr_signer_id : Z;
  sr_signature_shares : list SignatureShare }.

Inductive Message :=
| MsgDkgBegin (m : NetDkgBegin)
| MsgDkgPublicShares (m : NetDkgPublicShares)
| MsgDkgPrivateBegin (m : NetDkgPrivateBegin)
| MsgDkgPrivateShares (m : NetDkgPrivateShares)
| MsgDkgEndBegin (m : NetDkgEndBegin)
| MsgDkgEnd (m : NetDkgEnd)
| MsgNonceRequest (m : NetNonceRequest)
| MsgNonceResponse (m : NetNonceResponse)
| MsgSignatureShareRequest (m : NetSignatureShareRequest)
| MsgSignatureShareResponse (m : NetSignatureShareResponse).
End Net.

(** ** Message types ([signer/src/dkg/wsts.rs]) *)
Inductive WstsNetMessageType :=
| DkgBegin | DkgPublicShares | DkgPrivateBegin | DkgPrivateShares | DkgEndBegin | DkgEnd
| NonceRequest | NonceResponse | SignatureShareRequest | SignatureShareResponse.
#[global] Instance WstsNetMessageType_eq_dec : EqDecision WstsNetMessageType.
Proof. solve_decision. Defined.
Definition all_message_types : list WstsNetMessageType :=
  [DkgBegin; DkgPublicShares; DkgPrivateBegin; DkgPrivateShares; DkgEndBegin; DkgEnd;
   NonceRequest; NonceResponse; SignatureShareRequest; SignatureShareResponse].
#[global] Program Instance WstsNetMessageType_finite : finite.Finite WstsNetMessageType :=
  {| finite.enum := all_message_types |}.
Next Obligation. apply (bool_decide_unpack _). by vm_compute. Qed.
Next Obligation. intros []; apply (bool_decide_unpack _); by vm_compute. Qed.

Definition message_type `{WstsCrypto} (m : Message) : WstsNetMessageType :=
  match m with
  | MsgDkgBegin _ => DkgBegin
  | MsgDkgEndBegin _ => DkgEndBegin
  | MsgDkgEnd _ => DkgEnd
  | MsgDkgPrivateBegin _ => DkgPrivateBegin
  | MsgDkgPrivateShares _ => DkgPrivateShares
  | MsgDkgPublicShares _ => DkgPublicShares
  | MsgNonceRequest _ => NonceRequest
  | MsgNonceResponse _ => NonceResponse
  | MsgSignatureShareRequest _ => SignatureShareRequest
  | MsgSignatureShareResponse _ => SignatureShareResponse
  end.

(** ** Coordinators ([state_machine/mod.rs], [coordinator/mod.rs]) *)
Inductive CoordinatorState :=
| CsIdle
| CsDkgPublicDistribute
| CsDkgPublicGather
| CsDkgPrivateDistribute
| CsDkgPrivateGather
| CsDkgEndDistribute
| CsDkgEndGather
| CsNonceRequest (t : SignatureType)
| CsNonceGather (t : SignatureType)
| CsSigShareRequest (t : SignatureType)
| CsSigShareGather (t : SignatureType).
#[global] Instance CoordinatorState_eq_dec : EqDecision CoordinatorState.
Proof. solve_decision. Defined.

Section Coordinator.
Context `{WstsCrypto}.

Inductive CoordinatorError :=
| CeBadStateChange (from to : CoordinatorState)
| CeMissingPublicShares (signer_id : Z)        (* the other [BadStateChange] text *)
| CeBadDkgId (got expected : Z)
| CeBadSignId (got expected : Z)
| CeBadSignIterId (got expected : Z)
| CeMaliciousSigner (signer_id : Z)
| CeAggregator (e : AggregatorError)
| CeSchnorrProofFailed
| CeMissingAggregatePublicKey
| CeMissingSchnorrProof
| CeMissingSignature
| CeMissingMessageNonceInfo
| CeDkgFailure (failures : gmap Z DkgFailure)
| CeAggregateKeyPolynomialMismatch (computed given : Point)
| CeDuplicatePartyId.

Inductive WstsDkgError :=
| DkgPublicTimeout (ids : list Z)
| DkgPrivateTimeout (ids : list Z)
| DkgEndTimeout (ids : list Z)
| DkgEndFailure (failures : gmap Z DkgFailure).

Inductive SignError :=
| SeNonceTimeout (valid malicious : list Z)
| SeInsufficientSigners (malicious : list Z)
| SeAggregator (e : AggregatorError)
| SeCoordinator (e : CoordinatorError).

Inductive OperationResult :=
| ResDkg (key : Point)
| ResSign (s : Signature)
| ResSignSchnorr (p : SchnorrProof)
| ResSignTaproot (p : SchnorrProof)
| ResDkgError (e : WstsDkgError)
| ResSignError (e : SignError).

Record Config := mkConfig {
  cfg_num_signers : Z;
  cfg_num_keys : Z;
  cfg_threshold : Z;
  cfg_dkg_threshold : Z;
  cfg_message_private_key : Scalar;
  cfg_signer_key_ids : gmap Z (gset Z);
  cfg_signer_public_keys : gmap Z Point }.

Definition config_new (num_signers num_keys threshold : Z) (key : Scalar) : Config :=
  mkConfig num_signers num_keys threshold num_keys key ∅ ∅.

(** [(0..n).collect()] of [u32]s. *)
Definition id_range (n : Z) : list Z := seqZ 0 n.
End Coordinator.

(** ** Ordered maps *)

(** The entries of a [BTreeMap] in the order it iterates over them. *)
Definition key_le {A} (x y : Z * A) : Prop := x.1 <= y.1.
#[global] Instance key_le_dec {A} (x y : Z * A) : Decision (key_le x y).
Proof. unfold key_le. apply _. Defined.
Definition btree_list {A} (m : gmap Z A) : list (Z * A) := merge_sort key_le (map_to_list m).

#[global] Instance key_le_total {A} : Total (@key_le A).
Proof. intros x y. unfold key_le. lia. Qed.
#[global] Instance key_le_trans {A} : Transitive (@key_le A).
Proof. intros x y z. unfold key_le. lia. Qed.

Lemma elem_of_btree_list {A} (m : gmap Z A) i x : (i, x) ∈ btree_list m <-> m !! i = Some x.
Proof. unfold btree_list. rewrite merge_sort_Permutation. apply elem_of_map_to_list. Qed.

Lemma StronglySorted_fst_lt {A} (l : list (Z * A)) :
  StronglySorted key_le l -> NoDup l.*1 -> StronglySorted Z.lt l.*1.
Proof.
  induction 1 as [|x l Hs IH Hall]; [constructor|]. cbn. intros [Hx Hnd]%NoDup_cons. constructor; [auto|].
  apply Forall_fmap, Forall_forall. intros y Hy. rewrite Forall_forall in Hall. apply Hall in Hy as Hle.
  unfold key_le in Hle. cbn. assert (x.1 <> y.1); [|lia]. intros Heq. apply Hx, list_elem_of_fmap. eauto.
Qed.

Lemma btree_list_keys {A} (m : gmap Z A) (ids : list Z) : StronglySorted Z.lt ids ->
  (forall i, i ∈ ids <-> is_Some (m !! i)) -> (btree_list m).*1 = ids.
Proof.
  intros Hs Hd. apply ssorted_ext; [|done|].
  - apply StronglySorted_fst_lt; [apply StronglySorted_merge_sort; apply _|].
    unfold btree_list. rewrite merge_sort_Permutation. apply NoDup_fst_map_to_list.
  - intros i. rewrite Hd, list_elem_of_fmap. split.
    + intros ([j x] & -> & Hj). apply elem_of_btree_list in Hj. by exists x.
    + intros [x Hx]. exists (i, x). split; [done|]. by apply elem_of_btree_list.
Qed.

Lemma seqZ_sorted_lt m n : StronglySorted Z.lt (seqZ m n).
Proof.
  destruct (decide (n <= 0)) as [Hn|Hn]; [rewrite seqZ_nil by lia; constructor|].
  revert m. apply (natlike_ind (fun n => forall m, StronglySorted Z.lt (seqZ m n))); [|clear|lia].
  - intros m. rewrite seqZ_nil by lia. constructor.
  - intros n Hn IH m. rewrite seqZ_cons by lia. replace (Z.pred (Z.succ n)) with n by lia.
    constructor; [apply IH|]. apply Forall_forall. intros j Hj%elem_of_seqZ. lia.
Qed.

(** [wrapping_add(1)] and [wrapping_sub(1)] on [u64]. *)
Definition wrapping_succ (x : Z) : Z := (x + 1) mod 2 ^ 64.
Definition wrapping_pred (x : Z) : Z := (x - 1) mod 2 ^ 64.
Lemma wrapping_succ_pred x : in_u 64 x -> wrapping_succ (wrapping_pred x) = x.
Proof. unfold in_u, wrapping_succ, wrapping_pred. intros. rewrite Zplus_mod_idemp_l. replace (x - 1 + 1) with x by lia. by apply Z.mod_small. Qed.
