(* ===== verification/DkgVerification.v ===== *)
(** * The DKG verification state machine ([signer/src/dkg/verification.rs],
    [signer/src/dkg/wsts.rs])

    After DKG the signers run one signing round to verify the new key. The
    messages of the round may arrive in any order: the state machine queues
    them by type and hands them to the FROST coordinator when its state admits
    them. The coordinator is reached through the class [FrostOps]; a panic of
    the coordinator is a panic of the machine. An operation may change the machine and then fail, so it
    returns the new machine beside its outcome. The [while] loop runs on fuel
    [S (pending sm)], which [process_all_spec] proves sufficient. *)

From S2P Require Import Prelude Effects Types WstsNet.

(** ** The FROST coordinator *)

(** What the verification uses of a coordinator; [WstsFrost] gives the
    instance of the [wsts] crate's FROST coordinator. *)
Class FrostOps `{WstsCrypto} (Coord : Type) := {
  coordinator_state : Coord -> CoordinatorState;
  coordinator_process_message : Coord -> Message ->
    Coord * outcome CoordinatorError (option Message * option OperationResult);
  coordinator_reset : Coord -> Coord;
  (** [get_config().signer_public_keys], each point with its conversion to a
      [PublicKey]. *)
  signer_public_keys : Coord -> gmap Z (option PublicKey) }.

(** ** The state machine *)
Section Types.
Context `{WstsCrypto}.

Inductive State :=
| StIdle
| StSigning
| StSuccess (signature : SchnorrProof)
| StError
| StExpired.
Inductive VerificationError :=
| ErrExpired
| ErrEndState (s : State)
| ErrSigningFailure (e : SignError)
| ErrUnexpectedWstsResult (r : OperationResult)
| ErrCoordinator (e : CoordinatorError)
| ErrInvalidCoordinatorState (s : CoordinatorState)
| ErrUnknownSender (k : PublicKey)
| ErrInvalidPublicKeys
| ErrSignerPublicKeyMismatch (signer_id : Z) (wsts sender : PublicKey).

Record QueuedMessage := mkQueued { qm_processed : bool; qm_message : Message }.
Definition queued_new (m : Message) : QueuedMessage := mkQueued false m.
Definition mark_processed (q : QueuedMessage) : QueuedMessage := mkQueued true (qm_message q).

Record StateMachine (Coord : Type) := mkStateMachine {
  sm_aggregate_key : XOnlyPublicKey;
  sm_coordinator : Coord;
  sm_wsts_messages : gmap WstsNetMessageType (list QueuedMessage);
  sm_created_at : Z;
  sm_timeout : option Z;
  sm_state : State }.
End Types.
Arguments mkStateMachine {_ Coord} _ _ _ _ _ _.
Arguments sm_aggregate_key {_ Coord} _.
Arguments sm_coordinator {_ Coord} _.
Arguments sm_wsts_messages {_ Coord} _.
Arguments sm_created_at {_ Coord} _.
Arguments sm_timeout {_ Coord} _.
Arguments sm_state {_ Coord} _.

Section Machine.
Context `{WstsCrypto} {Coord : Type} `{!FrostOps Coord}.
Abbreviation SM := (StateMachine Coord).
Abbreviation Msg := Message.
Implicit Types (sm : SM) (now : Z).

Definition set_state (s : State) sm : SM :=
  mkStateMachine (sm_aggregate_key sm) (sm_coordinator sm) (sm_wsts_messages sm) (sm_created_at sm) (sm_timeout sm) s.
Definition set_queues (q : gmap WstsNetMessageType (list QueuedMessage)) sm : SM :=
  mkStateMachine (sm_aggregate_key sm) (sm_coordinator sm) q (sm_created_at sm) (sm_timeout sm) (sm_state sm).

Definition state_machine_new (coordinator : Coord) (aggregate_key : XOnlyPublicKey) (timeout : option Z) now : SM :=
  mkStateMachine aggregate_key coordinator ∅ now timeout StIdle.

Definition state_machine_reset now sm : SM :=
  mkStateMachine (sm_aggregate_key sm) (coordinator_reset (sm_coordinator sm)) ∅ now (sm_timeout sm) StIdle.

Definition is_expired now sm : bool :=
  match sm_timeout sm with
  | None => false
  | Some timeout => timeout <? now - sm_created_at sm
  end.

Definition assert_valid_state_for_processing sm : outcome VerificationError unit :=
  match sm_state sm with
  | StExpired => Err ErrExpired
  | StSuccess _ | StError => Err (ErrEndState (sm_state sm))
  | StIdle | StSigning => Ok tt
  end.

Definition validate_sender sm (signer_id : Z) (sender : PublicKey) : outcome VerificationError unit :=
  point ← ok_or (signer_public_keys (sm_coordinator sm) !! signer_id) (ErrUnknownSender sender);
  wsts ← ok_or point ErrInvalidPublicKeys;
  if negb (wsts =? sender) then Err (ErrSignerPublicKeyMismatch signer_id wsts sender) else mret tt.

Definition assert_is_known_sender sm (sender : PublicKey) : outcome VerificationError unit :=
  let is_known := existsb (fun kv => match kv.2 with Some pub_key => pub_key =? sender | None => false end)
                    (map_to_list (signer_public_keys (sm_coordinator sm))) in
  if negb is_known then Err (ErrUnknownSender sender) else mret tt.

Definition processable_type (s : CoordinatorState) : option WstsNetMessageType :=
  match s with
  | CsIdle => Some NonceRequest
  | CsNonceGather _ => Some NonceResponse
  | CsSigShareGather _ => Some SignatureShareResponse
  | _ => None
  end.
Definition current_processable_message_type sm : outcome VerificationError WstsNetMessageType :=
  let s := coordinator_state (sm_coordinator sm) in
  ok_or (processable_type s) (ErrInvalidCoordinatorState s).

(** [entry(t).or_default()] *)
Definition queue_of sm (t : WstsNetMessageType) : list QueuedMessage := default [] (sm_wsts_messages sm !! t).

Definition enqueue_message (msg : Msg) sm : SM :=
  let msg_type := message_type msg in
  set_queues (<[msg_type := queue_of sm msg_type ++ [queued_new msg]]> (sm_wsts_messages sm)) sm.

(** The [for msg in messages] loop over the unprocessed messages of a queue. *)
Fixpoint process_pending (pre : CoordinatorState) (queue : list QueuedMessage) (c : Coord) (st : State)
    (processed_any : bool) : list QueuedMessage * Coord * State * outcome VerificationError bool :=
  match queue with
  | [] => ([], c, st, Ok processed_any)
  | msg :: rest =>
      if qm_processed msg then
        let '(rest', c', st', r) := process_pending pre rest c st processed_any in (msg :: rest', c', st', r)
      else
        let msg := mark_processed msg in
        let '(c', result) := coordinator_process_message c (qm_message msg) in
        match result with
        | Err error => (msg :: rest, c', st, Err (ErrCoordinator error))
        | Panic => (msg :: rest, c', st, Panic)
        | Diverge => (msg :: rest, c', st, Diverge)
        | Ok (_, Some (ResSignTaproot sig)) => (msg :: rest, c', StSuccess sig, Ok true)
        | Ok (_, Some (ResSignError error)) => (msg :: rest, c', StError, Err (ErrSigningFailure error))
        | Ok (_, Some result) => (msg :: rest, c', StError, Err (ErrUnexpectedWstsResult result))
        | Ok (_, None) =>
            if negb (bool_decide (coordinator_state c' = pre)) then (msg :: rest, c', st, Ok true) else
            let '(rest', c'', st', r) := process_pending pre rest c' st true in (msg :: rest', c'', st', r)
        end
  end.

Definition process_queued_messages sm : SM * outcome VerificationError bool :=
  match current_processable_message_type sm with
  | Ok t =>
      let pre := coordinator_state (sm_coordinator sm) in
      let '(queue, c, st, r) := process_pending pre (queue_of sm t) (sm_coordinator sm) (sm_state sm) false in
      (mkStateMachine (sm_aggregate_key sm) c (<[t := queue]> (sm_wsts_messages sm)) (sm_created_at sm)
         (sm_timeout sm) st, r)
  | Err e => (sm, Err e)
  | Panic => (sm, Panic)
  | Diverge => (sm, Diverge)
  end.

(** [while self.process_queued_messages()? {}] *)
Fixpoint process_all (fuel : nat) sm : SM * outcome VerificationError unit :=
  match fuel with
  | O => (sm, Diverge)
  | S fuel =>
      match process_queued_messages sm with
      | (sm', Ok true) => process_all fuel sm'
      | (sm', Ok false) => (sm', Ok tt)
      | (sm', Err e) => (sm', Err e)
      | (sm', Panic) => (sm', Panic)
      | (sm', Diverge) => (sm', Diverge)
      end
  end.

Definition unprocessed (q : list QueuedMessage) : list Msg := map qm_message (filter (fun m => qm_processed m = false) q).
Definition processed (q : list QueuedMessage) : list Msg := map qm_message (filter (fun m => qm_processed m = true) q).
Definition pending sm : nat := sum_list (map (fun t => length (unprocessed (queue_of sm t))) all_message_types).

Definition process_message now (sender : PublicKey) (msg : Msg) sm : SM * outcome VerificationError unit :=
  let sm := if is_expired now sm then set_state StExpired sm else sm in
  match (_ ← assert_valid_state_for_processing sm; assert_is_known_sender sm sender) with
  | Ok _ =>
      let sm := set_state StSigning (enqueue_message msg sm) in
      process_all (S (pending sm)) sm
  | Err e => (sm, Err e)
  | Panic => (sm, Panic)
  | Diverge => (sm, Diverge)
  end.
End Machine.

(** ** Specification *)
Section Spec.
Context `{WstsCrypto} {Coord : Type} `{!FrostOps Coord}.
Abbreviation SM := (StateMachine Coord).
Abbreviation Msg := Message.
Implicit Types (sm : SM).

(** The coordinator is handed the messages in order, each of the type its
    state admits at that moment. *)
Inductive feeds : Coord -> list Msg -> Coord -> Prop :=
| feeds_nil c : feeds c [] c
| feeds_cons c m ms c' : processable_type (coordinator_state c) = Some (message_type m) ->
    feeds (coordinator_process_message c m).1 ms c' -> feeds c (m :: ms) c'.

Definition of_type (t : WstsNetMessageType) (ms : list Msg) : list Msg := filter (fun m => message_type m = t) ms.

(** Invariant of the queues: a queue holds messages of its type, the processed
    ones first. *)
Definition queue_ok (t : WstsNetMessageType) (q : list QueuedMessage) : Prop :=
  q = map (mkQueued true) (processed q) ++ map (mkQueued false) (unprocessed q) /\
  Forall (fun m => message_type m = t) (processed q ++ unprocessed q).
Definition queues_ok sm : Prop := forall t, queue_ok t (queue_of sm t).

(** Going from [sm] to [sm'] handed exactly the messages [fed] over. *)
Record fed_by sm (fed : list Msg) sm' : Prop := {
  fb_feeds : feeds (sm_coordinator sm) fed (sm_coordinator sm');
  fb_processed : forall t, processed (queue_of sm' t) = processed (queue_of sm t) ++ of_type t fed;
  fb_unprocessed : forall t, unprocessed (queue_of sm t) = of_type t fed ++ unprocessed (queue_of sm' t) }.

(** On the way from [c] the coordinator itself panics or loops. *)
Definition crashed {E A} (o : outcome E A) : Prop := match o with Panic | Diverge => True | _ => False end.
Definition crash_from (c : Coord) : Prop := exists fed c0 m, feeds c fed c0 /\
  processable_type (coordinator_state c0) = Some (message_type m) /\ crashed (coordinator_process_message c0 m).2.

Lemma feeds_app c ms c' ms' c'' : feeds c ms c' -> feeds c' ms' c'' -> feeds c (ms ++ ms') c''.
Proof. induction 1; [done|]. intros. simpl. constructor; auto. Qed.
Lemma crash_from_feeds c ms c' : feeds c ms c' -> crash_from c' -> crash_from c.
Proof. intros Hf (fed & c0 & m & Hf' & Ht & Hc). exists (ms ++ fed), c0, m. split; [by eapply feeds_app|done]. Qed.
Lemma of_type_app t ms ms' : of_type t (ms ++ ms') = of_type t ms ++ of_type t ms'.
Proof. apply filter_app. Qed.
Lemma fed_by_refl sm : fed_by sm [] sm.
Proof. split; [constructor|intros; by rewrite app_nil_r|done]. Qed.
Lemma fed_by_trans sm ms sm' ms' sm'' : fed_by sm ms sm' -> fed_by sm' ms' sm'' -> fed_by sm (ms ++ ms') sm''.
Proof.
  intros [Hf Hp Hu] [Hf' Hp' Hu']. split; [by eapply feeds_app|intros t..]; rewrite of_type_app.
  - by rewrite Hp', Hp, app_assoc.
  - by rewrite Hu, Hu', app_assoc.
Qed.

Lemma processed_split ps us : processed (map (mkQueued true) ps ++ map (mkQueued false) us) = ps :> list Msg.
Proof.
  unfold processed. rewrite filter_app, map_app. trans (ps ++ []); [|apply app_nil_r]. f_equal.
  - induction ps as [|p ps IH]; [done|]. cbn [map]. rewrite filter_cons_True by done. cbn [map qm_message]. by f_equal.
  - induction us as [|u us IH]; [done|]. cbn [map]. by rewrite filter_cons_False.
Qed.
Lemma unprocessed_split ps us : unprocessed (map (mkQueued true) ps ++ map (mkQueued false) us) = us :> list Msg.
Proof.
  unfold unprocessed. rewrite filter_app, map_app. trans ([] ++ us); [|done]. f_equal.
  - induction ps as [|p ps IH]; [done|]. cbn [map]. by rewrite filter_cons_False.
  - induction us as [|u us IH]; [done|]. cbn [map]. rewrite filter_cons_True by done. cbn [map qm_message]. by f_equal.
Qed.
Lemma of_type_all t ms : Forall (fun m => message_type m = t) ms -> of_type t ms = ms.
Proof. induction 1 as [|m ms Hm _ IH]; [done|]. unfold of_type in *. rewrite filter_cons_True by done. by f_equal. Qed.
Lemma of_type_none t t' ms : t <> t' -> Forall (fun m => message_type m = t) ms -> of_type t' ms = [].
Proof.
  intros Ht. induction 1 as [|m ms Hm _ IH]; [done|]. unfold of_type in *. rewrite filter_cons_False; [done|]. congruence.
Qed.

Lemma of_type_total ms : sum_list (map (fun t => length (of_type t ms)) all_message_types) = length ms.
Proof.
  induction ms as [|m ms IH]; [done|]. assert (forall t, length (of_type t (m :: ms)) =
    ((if decide (message_type m = t) then 1 else 0) + length (of_type t ms))%nat) as Hc.
  { intros t. unfold of_type. rewrite filter_cons. by case_decide. }
  rewrite (map_ext _ _ Hc). simpl length. rewrite <- IH. 
  destruct (message_type m); cbn [map all_message_types];
    repeat (case_decide; try congruence); cbn; lia.
Qed.

Lemma pending_fed sm fed sm' : fed_by sm fed sm' -> pending sm = (length fed + pending sm')%nat.
Proof.
  intros [_ _ Hu]. unfold pending. rewrite <- (of_type_total fed). induction all_message_types as [|t ts IH]; [done|].
  simpl. rewrite IH, (Hu t), length_app. lia.
Qed.

(** *** One pass over a queue *)
Lemma process_pending_spec pre t ps us : forall c st any q' c' st' r,
  coordinator_state c = pre -> processable_type pre = Some t -> Forall (fun m => message_type m = t) us ->
  process_pending pre (map (mkQueued true) ps ++ map (mkQueued false) us) c st any = (q', c', st', r) ->
  exists fed rest, us = fed ++ rest /\ q' = map (mkQueued true) (ps ++ fed) ++ map (mkQueued false) rest /\
    feeds c fed c' /\
    match r with
    | Ok b => if b then any = true \/ fed <> [] else any = false /\ rest = [] /\ fed = []
    | Err _ => fed <> []
    | _ => crash_from c
    end.
Proof.
  induction ps as [|p ps IHp].
  - induction us as [|u us IHu]; intros c st any q' c' st' r Hc Ht Hu Hp; cbn [map app process_pending] in Hp.
    { simplify_eq. exists [], []. split_and!; [done..|constructor|]. destruct any; [by left|done]. }
    cbn [qm_processed mark_processed qm_message] in Hp. apply Forall_cons in Hu as [Hum Hu].
    destruct (coordinator_process_message c u) as [c1 res] eqn:Hres.
    assert (feeds c [u] c1) as Hfeed.
    { constructor; [rewrite Hc, Hum; done|]. rewrite Hres. constructor. }
    assert (exists fed rest, u :: us = fed ++ rest /\
      mkQueued true u :: map (mkQueued false) us = map (mkQueued true) ([] ++ fed) ++ map (mkQueued false) rest /\
      feeds c fed c1 /\ fed <> []) as Hone by (by exists [u], us).
    assert (crashed res -> crash_from c) as Hcr.
    { intros Hcr. exists [], c, u. split_and!; [constructor|by rewrite Hc, Hum|by rewrite Hres]. }
    destruct res as [[out [[]|]]| | |]; try (destruct Hone as (fed & rest & ? & ? & ? & ?); simplify_eq;
      exists fed, rest; split_and!; first [done|by right|by apply Hcr]).
    case_bool_decide as Hs; cbn [negb] in Hp.
    + destruct (process_pending pre (map (mkQueued false) us) c1 st true) as [[[q1 c2] st2] r2] eqn:Hrec. simplify_eq.
      apply IHu in Hrec as (fed & rest & -> & -> & Hf & Hr); [|done..].
      exists (u :: fed), rest. split_and!; [done|done| |].
      * apply (feeds_app c [u] c1 fed c'); done.
      * destruct r as [[]| | |]; [by right|by destruct Hr|done|by apply (crash_from_feeds _ [u] c1)..].
    + destruct Hone as (fed & rest & ? & ? & ? & ?); simplify_eq. exists fed, rest. split_and!; first [done|by right].
  - intros c st any q' c' st' r Hc Ht Hu Hp. cbn [map app process_pending qm_processed] in Hp.
    destruct (process_pending pre _ c st any) as [[[q1 c2] st2] r2] eqn:Hrec. simplify_eq.
    apply IHp in Hrec as (fed & rest & -> & -> & Hf & Hr); [|done..]. by exists fed, rest.
Qed.

(** *** The whole machine *)
Lemma queue_of_insert sm t q (c : Coord) st t' :
  queue_of (mkStateMachine (sm_aggregate_key sm) c (<[t := q]> (sm_wsts_messages sm)) (sm_created_at sm)
    (sm_timeout sm) st) t' = if decide (t = t') then q else queue_of sm t'.
Proof. unfold queue_of. simpl. case_decide as Ht; [by subst; rewrite lookup_insert_eq|by rewrite lookup_insert_ne]. Qed.

(** Every message the coordinator could be handed next has been. *)
Definition drained sm : Prop := forall t,
  processable_type (coordinator_state (sm_coordinator sm)) = Some t -> unprocessed (queue_of sm t) = [].

Lemma process_queued_spec sm sm' r : queues_ok sm -> process_queued_messages sm = (sm', r) ->
  exists fed, fed_by sm fed sm' /\ queues_ok sm' /\
    match r with
    | Ok b => if b then fed <> [] else drained sm'
    | Err _ => True
    | _ => crash_from (sm_coordinator sm)
    end.
Proof.
  intros Hok. unfold process_queued_messages, current_processable_message_type.
  destruct (processable_type (coordinator_state (sm_coordinator sm))) as [t|] eqn:Ht; cbn [ok_or].
  2: { intros. simplify_eq. exists []. split_and!; [apply fed_by_refl|done|done]. }
  destruct (Hok t) as [Hq Hty]. rewrite Hq. apply Forall_app in Hty as [Htp Htu].
  set (ps := processed (queue_of sm t)) in *. set (us := unprocessed (queue_of sm t)) in *.
  destruct (process_pending _ _ _ _ _) as [[[q c] st] r'] eqn:Hp. intros. simplify_eq.
  apply (process_pending_spec _ t) in Hp as (fed & rest & Hus & -> & Hf & Hr); [|done..].
  rewrite Hus in Htu. apply Forall_app in Htu as [Htf Htr].
  exists fed. split_and!.
  - split; [done|intros t'; rewrite queue_of_insert; case_decide as Heq..].
    + subst t'. rewrite processed_split, of_type_all by done. done.
    + rewrite (of_type_none t t') by done. by rewrite app_nil_r.
    + subst t'. rewrite unprocessed_split, of_type_all by done. done.
    + by rewrite (of_type_none t t').
  - intros t'. rewrite queue_of_insert. case_decide as Heq; [|apply Hok]. subst t'. unfold queue_ok.
    rewrite processed_split, unprocessed_split. split; [done|]. by rewrite !Forall_app.
  - destruct r as [[]| | |]; [by destruct Hr| |done..]. destruct Hr as (_ & -> & ->). intros t'. cbn [sm_coordinator].
    inversion Hf; subst. rewrite Ht. intros [= <-]. rewrite queue_of_insert. rewrite decide_True by done.
    by rewrite unprocessed_split.
Qed.

Lemma process_all_spec fuel : forall sm sm' r, queues_ok sm -> (pending sm < fuel)%nat ->
  process_all fuel sm = (sm', r) ->
  exists fed, fed_by sm fed sm' /\ queues_ok sm' /\
    match r with
    | Ok _ => drained sm'
    | Err _ => True
    | _ => crash_from (sm_coordinator sm)
    end.
Proof.
  induction fuel as [|fuel IH]; intros sm sm' r Hok Hlt Hp; [lia|]. cbn [process_all] in Hp.
  destruct (process_queued_messages sm) as [sm1 r1] eqn:Hq. apply process_queued_spec in Hq as (fed & Hf & Hok1 & Hr); [|done].
  destruct r1 as [[]| | |]; [|simplify_eq; by exists fed..].
  apply pending_fed in Hf as Hpend. apply IH in Hp as (fed' & Hf' & Hok' & Hr'); [|done|].
  - exists (fed ++ fed'). split_and!; [by eapply fed_by_trans|done|].
    destruct r; [done|done|by eapply crash_from_feeds; [apply Hf|]..].
  - destruct fed; [done|]. simpl in Hpend. lia.
Qed.

Lemma enqueue_queue_of msg sm st t : queue_of (set_state st (enqueue_message msg sm)) t =
  queue_of sm t ++ (if decide (message_type msg = t) then [queued_new msg] else []).
Proof.
  unfold queue_of, enqueue_message, set_state, set_queues, queue_of. simpl.
  case_decide as Ht; [subst t; by rewrite lookup_insert_eq|by rewrite lookup_insert_ne, app_nil_r].
Qed.

Lemma enqueue_split msg sm st t :
  processed (queue_of (set_state st (enqueue_message msg sm)) t) = processed (queue_of sm t) /\
  unprocessed (queue_of (set_state st (enqueue_message msg sm)) t) = unprocessed (queue_of sm t) ++ of_type t [msg].
Proof.
  rewrite enqueue_queue_of. unfold processed, unprocessed, of_type. rewrite !filter_app, !map_app.
  case_decide as Ht.
  - rewrite (filter_cons_False (fun m => qm_processed m = true)), (filter_cons_True (fun m => qm_processed m = false)) by done.
    rewrite (filter_cons_True (fun m => message_type m = t)) by done. simpl. by rewrite app_nil_r.
  - rewrite (filter_cons_False (fun m => message_type m = t)) by done. simpl. by rewrite !app_nil_r.
Qed.

Lemma enqueue_ok msg sm st : queues_ok sm -> queues_ok (set_state st (enqueue_message msg sm)).
Proof.
  intros Hok t. destruct (Hok t) as [Hq Hty]. destruct (enqueue_split msg sm st t) as [Hp Hu]. unfold queue_ok. rewrite Hp, Hu.
  rewrite enqueue_queue_of. split.
  - rewrite Hq at 1. rewrite map_app, <- app_assoc. do 2 f_equal. unfold of_type.
    case_decide; [by rewrite filter_cons_True|by rewrite filter_cons_False].
  - rewrite app_assoc. apply Forall_app. split; [done|]. unfold of_type.
    destruct (decide (message_type msg = t)); [rewrite filter_cons_True by done; by constructor|by rewrite filter_cons_False].
Qed.

(** [expire now sm]: the expiry check at the start of [process_message]. *)
Definition expire now sm : SM := if is_expired now sm then set_state StExpired sm else sm.

(** The two ways [process_message] can go. *)
Lemma process_message_cases now sender msg sm sm' r : queues_ok sm -> process_message now sender msg sm = (sm', r) ->
  (exists e, sm' = expire now sm /\ r = Err e) \/
  (is_expired now sm = false /\ assert_valid_state_for_processing sm = Ok tt /\ assert_is_known_sender sm sender = Ok tt /\
   exists fed, fed_by (set_state StSigning (enqueue_message msg sm)) fed sm' /\ queues_ok sm' /\
    match r with Ok _ => drained sm' | Err _ => True | _ => crash_from (sm_coordinator sm) end).
Proof.
  intros Hok. unfold process_message. fold (expire now sm). intros Hp.
  destruct (assert_valid_state_for_processing (expire now sm)) as [[]|e| |] eqn:Hv; cbn [mbind outcome_bind] in Hp;
    [|left; simplify_eq; eauto|unfold assert_valid_state_for_processing in Hv; by destruct (sm_state _)..].
  destruct (assert_is_known_sender (expire now sm) sender) as [[]|e| |] eqn:Hs;
    [|left; simplify_eq; eauto|unfold assert_is_known_sender in Hs; by destruct (existsb _ _)..].
  right. unfold expire in *. destruct (is_expired now sm); [done|]. split_and!; [done..|].
  apply process_all_spec in Hp; [done|by apply enqueue_ok|lia].
Qed.
End Spec.

(** The machines that occur: created, then processing messages and reset. *)
Inductive sm_reachable `{WstsCrypto} {Coord} `{!FrostOps Coord} : StateMachine Coord -> Prop :=
| reach_new c k timeout now : sm_reachable (state_machine_new c k timeout now)
| reach_message sm now sender msg : sm_reachable sm -> sm_reachable (process_message now sender msg sm).1
| reach_reset sm now : sm_reachable sm -> sm_reachable (state_machine_reset now sm).

Lemma expire_queue_of `{WstsCrypto} {Coord} now (sm : StateMachine Coord) t : queue_of (expire now sm) t = queue_of sm t.
Proof. unfold expire. by destruct (is_expired now sm). Qed.

Lemma reachable_ok `{WstsCrypto} {Coord} `{!FrostOps Coord} (sm : StateMachine Coord) :
  sm_reachable sm -> queues_ok sm.
Proof.
  induction 1 as [c k timeout now|sm now sender msg _ IH|sm now _ IH]; [intros t; by split..| |intros t; by split].
  destruct (process_message now sender msg sm) as [sm' r] eqn:Hp.
  apply process_message_cases in Hp as [(e & -> & _)|(_ & _ & _ & fed & _ & Hok & _)]; [|done|done].
  intros t. simpl. rewrite expire_queue_of. apply IH.
Qed.

(** C30: delivery. Whatever the order in which messages arrive, every message
    is handed to the coordinator at most once, messages of a type in the order
    they arrived, and only while the coordinator's state admits that type; an
    accepted message joins the end of its queue and no message is lost. *)
Theorem dkg_messages_delivered `{WstsCrypto} {Coord} `{!FrostOps Coord} (sm sm' : StateMachine Coord)
    now sender msg r :
  sm_reachable sm -> process_message now sender msg sm = (sm', r) ->
  exists fed arrived, feeds (sm_coordinator sm) fed (sm_coordinator sm') /\
    (arrived = [msg] \/ arrived = [] /\ fed = [] /\ exists e, r = Err e) /\
    forall t, processed (queue_of sm' t) = processed (queue_of sm t) ++ of_type t fed /\
      of_type t fed ++ unprocessed (queue_of sm' t) = unprocessed (queue_of sm t) ++ of_type t arrived.
Proof.
  intros Hre Hp. apply reachable_ok in Hre. apply process_message_cases in Hp; [|done].
  destruct Hp as [(e & -> & ->)|(_ & _ & _ & fed & [Hf Hp Hu] & _)].
  - exists [], []. split_and!; [unfold expire; destruct (is_expired now sm); constructor|right; eauto|].
    intros t. rewrite expire_queue_of, !app_nil_r. done.
  - exists fed, [msg]. split_and!; [done|by left|]. intros t. destruct (enqueue_split msg sm StSigning t) as [Hep Heu].
    by rewrite Hp, <- Hu, Hep, Heu.
Qed.

(** Processing terminates and is exhaustive: on every reachable machine
    [process_message] returns unless the coordinator itself panics or loops on
    a message it is handed, and when it succeeds no queued message is left
    that the coordinator could process in its state. *)
Theorem dkg_process_terminates `{WstsCrypto} {Coord} `{!FrostOps Coord} (sm sm' : StateMachine Coord)
    now sender msg r :
  sm_reachable sm -> process_message now sender msg sm = (sm', r) ->
  match r with
  | Ok _ => forall t, processable_type (coordinator_state (sm_coordinator sm')) = Some t -> unprocessed (queue_of sm' t) = []
  | Err _ => True
  | _ => crash_from (sm_coordinator sm)
  end.
Proof.
  intros Hre Hp. apply reachable_ok in Hre. apply process_message_cases in Hp; [|done].
  destruct Hp as [(e & -> & ->)|(_ & _ & _ & fed & _ & _ & Hr)]; [done|]. by destruct r.
Qed.

(** what is refused, and with which effect: an expired machine becomes
    [Expired] whatever state it was in; a machine in an end state and a sender
    outside the signing set leave the machine as it is; everything else is
    accepted and moves the machine out of [Idle]. *)
Theorem dkg_message_refused `{WstsCrypto} {Coord} `{!FrostOps Coord} (sm : StateMachine Coord) now sender msg :
  let known := exists i, signer_public_keys (sm_coordinator sm) !! i = Some (Some sender) in
  (is_expired now sm = true -> process_message now sender msg sm = (set_state StExpired sm, Err ErrExpired)) /\
  (is_expired now sm = false ->
    match sm_state sm with
    | StExpired => process_message now sender msg sm = (sm, Err ErrExpired)
    | StSuccess _ | StError => process_message now sender msg sm = (sm, Err (ErrEndState (sm_state sm)))
    | StIdle | StSigning =>
        (~ known -> process_message now sender msg sm = (sm, Err (ErrUnknownSender sender))) /\
        (known -> process_message now sender msg sm =
           process_all (S (pending (set_state StSigning (enqueue_message msg sm)))) (set_state StSigning (enqueue_message msg sm)))
    end).
Proof.
  intros known. assert (existsb (fun kv => match kv.2 with Some pub_key => pub_key =? sender | None => false end)
    (map_to_list (signer_public_keys (sm_coordinator sm))) = true <-> known) as Hk.
  { rewrite existsb_exists. split.
    - intros ([i [k|]] & Hin & Heq); [|done]. exists i. apply list_elem_of_In, elem_of_map_to_list in Hin.
      apply Z.eqb_eq in Heq. simpl in *. congruence.
    - intros [i Hi]. exists (i, Some sender). split; [by apply list_elem_of_In, elem_of_map_to_list|]. simpl. apply Z.eqb_refl. }
  unfold process_message. split; intros He; rewrite He; [done|]. unfold assert_valid_state_for_processing, assert_is_known_sender.
  destruct (sm_state sm); cbn [mbind outcome_bind]; try done; (destruct (existsb _ _); cbn [negb]; split; intros Hn; [|done| |]);
    try done; [by destruct Hn; apply Hk| |by destruct Hn; apply Hk|]; by apply Hk in Hn.
Qed.

