(* ===== verification/WstsFrost.v ===== *)
(** The FROST coordinator of the [wsts] crate.

    Source: src/wsts/src/state_machine/coordinator/frost.rs.

    The coordinator drives a round of key generation and then signing rounds:
    it waits for every signer at each step.  [process_message] is a loop over
    the states; each handler is a definition in the monad [st].  Theorems: the
    loop needs two turns; the coordinator follows the graph of
    [can_move_to]; no message makes it panic; the nonces and shares it hands
    to the aggregator are aligned by signer; a round completes when every
    signer has answered, whatever the order. *)

From S2P Require Import Prelude Effects Types WstsNet DkgVerification.

Section Frost.
Context `{WstsCrypto}.

Record FrostCoordinator := mkFrost {
  frost_config : Config;
  frost_current_dkg_id : Z;
  frost_current_sign_id : Z;
  frost_current_sign_iter_id : Z;
  frost_dkg_public_shares : gmap Z NetDkgPublicShares;
  frost_dkg_private_shares : gmap Z NetDkgPrivateShares;
  frost_dkg_end_messages : gmap Z NetDkgEnd;
  frost_party_polynomials : gmap Z PolyCommitment;
  frost_public_nonces : gmap Z NetNonceResponse;
  frost_signature_shares : gmap Z (list SignatureShare);
  frost_aggregate_public_key : option Point;
  frost_signature : option Signature;
  frost_schnorr_proof : option SchnorrProof;
  frost_ids_to_await : gset Z;
  frost_message : list Z;
  frost_state : CoordinatorState;
  frost_aggregator : Aggregator }.

Definition frost_set_config (v : Config) (c : FrostCoordinator) : FrostCoordinator :=
  mkFrost v (frost_current_dkg_id c) (frost_current_sign_id c) (frost_current_sign_iter_id c) (frost_dkg_public_shares c) (frost_dkg_private_shares c) (frost_dkg_end_messages c) (frost_party_polynomials c) (frost_public_nonces c) (frost_signature_shares c) (frost_aggregate_public_key c) (frost_signature c) (frost_schnorr_proof c) (frost_ids_to_await c) (frost_message c) (frost_state c) (frost_aggregator c).
Definition frost_set_current_dkg_id (v : Z) (c : FrostCoordinator) : FrostCoordinator :=
  mkFrost (frost_config c) v (frost_current_sign_id c) (frost_current_sign_iter_id c) (frost_dkg_public_shares c) (frost_dkg_private_shares c) (frost_dkg_end_messages c) (frost_party_polynomials c) (frost_public_nonces c) (frost_signature_shares c) (frost_aggregate_public_key c) (frost_signature c) (frost_schnorr_proof c) (frost_ids_to_await c) (frost_message c) (frost_state c) (frost_aggregator c).
Definition frost_set_current_sign_id (v : Z) (c : FrostCoordinator) : FrostCoordinator :=
  mkFrost (frost_config c) (frost_current_dkg_id c) v (frost_current_sign_iter_id c) (frost_dkg_public_shares c) (frost_dkg_private_shares c) (frost_dkg_end_messages c) (frost_party_polynomials c) (frost_public_nonces c) (frost_signature_shares c) (frost_aggregate_public_key c) (frost_signature c) (frost_schnorr_proof c) (frost_ids_to_await c) (frost_message c) (frost_state c) (frost_aggregator c).
Definition frost_set_current_sign_iter_id (v : Z) (c : FrostCoordinator) : FrostCoordinator :=
  mkFrost (frost_config c) (frost_current_dkg_id c) (frost_current_sign_id c) v (frost_dkg_public_shares c) (frost_dkg_private_shares c) (frost_dkg_end_messages c) (frost_party_polynomials c) (frost_public_nonces c) (frost_signature_shares c) (frost_aggregate_public_key c) (frost_signature c) (frost_schnorr_proof c) (frost_ids_to_await c) (frost_message c) (frost_state c) (frost_aggregator c).
Definition frost_set_dkg_public_shares (v : gmap Z NetDkgPublicShares) (c : FrostCoordinator) : FrostCoordinator :=
  mkFrost (frost_config c) (frost_current_dkg_id c) (frost_current_sign_id c) (frost_current_sign_iter_id c) v (frost_dkg_private_shares c) (frost_dkg_end_messages c) (frost_party_polynomials c) (frost_public_nonces c) (frost_signature_shares c) (frost_aggregate_public_key c) (frost_signature c) (frost_schnorr_proof c) (frost_ids_to_await c) (frost_message c) (frost_state c) (frost_aggregator c).
Definition frost_set_dkg_private_shares (v : gmap Z NetDkgPrivateShares) (c : FrostCoordinator) : FrostCoordinator :=
  mkFrost (frost_config c) (frost_current_dkg_id c) (frost_current_sign_id c) (frost_current_sign_iter_id c) (frost_dkg_public_shares c) v (frost_dkg_end_messages c) (frost_party_polynomials c) (frost_public_nonces c) (frost_signature_shares c) (frost_aggregate_public_key c) (frost_signature c) (frost_schnorr_proof c) (frost_ids_to_await c) (frost_message c) (frost_state c) (frost_aggregator c).
Definition frost_set_dkg_end_messages (v : gmap Z NetDkgEnd) (c : FrostCoordinator) : FrostCoordinator :=
  mkFrost (frost_config c) (frost_current_dkg_id c) (frost_current_sign_id c) (frost_current_sign_iter_id c) (frost_dkg_public_shares c) (frost_dkg_private_shares c) v (frost_party_polynomials c) (frost_public_nonces c) (frost_signature_shares c) (frost_aggregate_public_key c) (frost_signature c) (frost_schnorr_proof c) (frost_ids_to_await c) (frost_message c) (frost_state c) (frost_aggregator c).
Definition frost_set_party_polynomials (v : gmap Z PolyCommitment) (c : FrostCoordinator) : FrostCoordinator :=
  mkFrost (frost_config c) (frost_current_dkg_id c) (frost_current_sign_id c) (frost_current_sign_iter_id c) (frost_dkg_public_shares c) (frost_dkg_private_shares c) (frost_dkg_end_messages c) v (frost_public_nonces c) (frost_signature_shares c) (frost_aggregate_public_key c) (frost_signature c) (frost_schnorr_proof c) (frost_ids_to_await c) (frost_message c) (frost_state c) (frost_aggregator c).
Definition frost_set_public_nonces (v : gmap Z NetNonceResponse) (c : FrostCoordinator) : FrostCoordinator :=
  mkFrost (frost_config c) (frost_current_dkg_id c) (frost_current_sign_id c) (frost_current_sign_iter_id c) (frost_dkg_public_shares c) (frost_dkg_private_shares c) (frost_dkg_end_messages c) (frost_party_polynomials c) v (frost_signature_shares c) (frost_aggregate_public_key c) (frost_signature c) (frost_schnorr_proof c) (frost_ids_to_await c) (frost_message c) (frost_state c) (frost_aggregator c).
Definition frost_set_signature_shares (v : gmap Z (list SignatureShare)) (c : FrostCoordinator) : FrostCoordinator :=
  mkFrost (frost_config c) (frost_current_dkg_id c) (frost_current_sign_id c) (frost_current_sign_iter_id c) (frost_dkg_public_shares c) (frost_dkg_private_shares c) (frost_dkg_end_messages c) (frost_party_polynomials c) (frost_public_nonces c) v (frost_aggregate_public_key c) (frost_signature c) (frost_schnorr_proof c) (frost_ids_to_await c) (frost_message c) (frost_state c) (frost_aggregator c).
Definition frost_set_aggregate_public_key (v : option Point) (c : FrostCoordinator) : FrostCoordinator :=
  mkFrost (frost_config c) (frost_current_dkg_id c) (frost_current_sign_id c) (frost_current_sign_iter_id c) (frost_dkg_public_shares c) (frost_dkg_private_shares c) (frost_dkg_end_messages c) (frost_party_polynomials c) (frost_public_nonces c) (frost_signature_shares c) v (frost_signature c) (frost_schnorr_proof c) (frost_ids_to_await c) (frost_message c) (frost_state c) (frost_aggregator c).
Definition frost_set_signature (v : option Signature) (c : FrostCoordinator) : FrostCoordinator :=
  mkFrost (frost_config c) (frost_current_dkg_id c) (frost_current_sign_id c) (frost_current_sign_iter_id c) (frost_dkg_public_shares c) (frost_dkg_private_shares c) (frost_dkg_end_messages c) (frost_party_polynomials c) (frost_public_nonces c) (frost_signature_shares c) (frost_aggregate_public_key c) v (frost_schnorr_proof c) (frost_ids_to_await c) (frost_message c) (frost_state c) (frost_aggregator c).
Definition frost_set_schnorr_proof (v : option SchnorrProof) (c : FrostCoordinator) : FrostCoordinator :=
  mkFrost (frost_config c) (frost_current_dkg_id c) (frost_current_sign_id c) (frost_current_sign_iter_id c) (frost_dkg_public_shares c) (frost_dkg_private_shares c) (frost_dkg_end_messages c) (frost_party_polynomials c) (frost_public_nonces c) (frost_signature_shares c) (frost_aggregate_public_key c) (frost_signature c) v (frost_ids_to_await c) (frost_message c) (frost_state c) (frost_aggregator c).
Definition frost_set_ids_to_await (v : gset Z) (c : FrostCoordinator) : FrostCoordinator :=
  mkFrost (frost_config c) (frost_current_dkg_id c) (frost_current_sign_id c) (frost_current_sign_iter_id c) (frost_dkg_public_shares c) (frost_dkg_private_shares c) (frost_dkg_end_messages c) (frost_party_polynomials c) (frost_public_nonces c) (frost_signature_shares c) (frost_aggregate_public_key c) (frost_signature c) (frost_schnorr_proof c) v (frost_message c) (frost_state c) (frost_aggregator c).
Definition frost_set_message (v : list Z) (c : FrostCoordinator) : FrostCoordinator :=
  mkFrost (frost_config c) (frost_current_dkg_id c) (frost_current_sign_id c) (frost_current_sign_iter_id c) (frost_dkg_public_shares c) (frost_dkg_private_shares c) (frost_dkg_end_messages c) (frost_party_polynomials c) (frost_public_nonces c) (frost_signature_shares c) (frost_aggregate_public_key c) (frost_signature c) (frost_schnorr_proof c) (frost_ids_to_await c) v (frost_state c) (frost_aggregator c).
Definition frost_set_state (v : CoordinatorState) (c : FrostCoordinator) : FrostCoordinator :=
  mkFrost (frost_config c) (frost_current_dkg_id c) (frost_current_sign_id c) (frost_current_sign_iter_id c) (frost_dkg_public_shares c) (frost_dkg_private_shares c) (frost_dkg_end_messages c) (frost_party_polynomials c) (frost_public_nonces c) (frost_signature_shares c) (frost_aggregate_public_key c) (frost_signature c) (frost_schnorr_proof c) (frost_ids_to_await c) (frost_message c) v (frost_aggregator c).
Definition frost_set_aggregator (v : Aggregator) (c : FrostCoordinator) : FrostCoordinator :=
  mkFrost (frost_config c) (frost_current_dkg_id c) (frost_current_sign_id c) (frost_current_sign_iter_id c) (frost_dkg_public_shares c) (frost_dkg_private_shares c) (frost_dkg_end_messages c) (frost_party_polynomials c) (frost_public_nonces c) (frost_signature_shares c) (frost_aggregate_public_key c) (frost_signature c) (frost_schnorr_proof c) (frost_ids_to_await c) (frost_message c) (frost_state c) v.

Definition frost_new (config : Config) : FrostCoordinator :=
  mkFrost config 0 0 0 ∅ ∅ ∅ ∅ ∅ ∅ None None None ∅ [] CsIdle
    (aggregator_new (cfg_num_keys config) (cfg_threshold config)).

Abbreviation M := (st FrostCoordinator CoordinatorError).

(** *** State changes *)
Definition frost_can_move_to (prev next : CoordinatorState) : bool :=
  match next with
  | CsIdle => true
  | CsDkgPublicDistribute => bool_decide (prev = CsIdle)
  | CsDkgPublicGather => bool_decide (prev = CsDkgPublicDistribute) || bool_decide (prev = CsDkgPublicGather)
  | CsDkgPrivateDistribute => bool_decide (prev = CsDkgPublicGather)
  | CsDkgPrivateGather => bool_decide (prev = CsDkgPrivateDistribute) || bool_decide (prev = CsDkgPrivateGather)
  | CsDkgEndDistribute => bool_decide (prev = CsDkgPrivateGather)
  | CsDkgEndGather => bool_decide (prev = CsDkgEndDistribute)
  | CsNonceRequest _ => bool_decide (prev = CsIdle) || bool_decide (prev = CsDkgEndGather)
  | CsNonceGather t => bool_decide (prev = CsNonceRequest t) || bool_decide (prev = CsNonceGather t)
  | CsSigShareRequest t => bool_decide (prev = CsNonceGather t)
  | CsSigShareGather t => bool_decide (prev = CsSigShareRequest t) || bool_decide (prev = CsSigShareGather t)
  end.

Definition frost_move_to (next : CoordinatorState) : M unit :=
  c <- st_get;;
  if frost_can_move_to (frost_state c) next then st_modify (frost_set_state next)
  else st_throw (CeBadStateChange (frost_state c) next).

(** *** Key generation *)
Definition all_signer_ids (c : FrostCoordinator) : gset Z :=
  list_to_set (id_range (cfg_num_signers (frost_config c))).

Definition frost_start_public_shares : M Message :=
  st_modify (fun c => frost_set_ids_to_await (all_signer_ids c)
    (frost_set_party_polynomials ∅ (frost_set_dkg_public_shares ∅ c)));;;
  c <- st_get;;
  frost_move_to CsDkgPublicGather;;;
  st_ret (MsgDkgBegin (mkDkgBegin (frost_current_dkg_id c))).

Definition frost_start_private_shares : M Message :=
  st_modify (fun c => frost_set_ids_to_await (all_signer_ids c) c);;;
  c <- st_get;;
  frost_move_to CsDkgPrivateGather;;;
  st_ret (MsgDkgPrivateBegin (mkDkgPrivateBegin (frost_current_dkg_id c)
    (id_range (cfg_num_signers (frost_config c))) (seqZ 1 (cfg_num_keys (frost_config c))))).

Definition frost_start_dkg_end : M Message :=
  st_modify (fun c => frost_set_ids_to_await (all_signer_ids c) c);;;
  c <- st_get;;
  frost_move_to CsDkgEndGather;;;
  st_ret (MsgDkgEndBegin (mkDkgEndBegin (frost_current_dkg_id c)
    (id_range (cfg_num_signers (frost_config c))) (id_range (cfg_num_keys (frost_config c))))).

(** [for (party_id, comm) in comms { polys.insert(..) }] *)
Definition insert_comms (comms : list (Z * PolyCommitment)) (polys : gmap Z PolyCommitment) : gmap Z PolyCommitment :=
  foldl (fun m e => <[e.1 := e.2]> m) polys comms.

Definition frost_gather_public_shares (message : Message) : M unit :=
  let done_ := c <- st_get;;
    if bool_decide (frost_ids_to_await c = ∅) then frost_move_to CsDkgPrivateDistribute else st_ret tt in
  match message with
  | MsgDkgPublicShares m =>
      c <- st_get;;
      if negb (dps_dkg_id m =? frost_current_dkg_id c) then st_throw (CeBadDkgId (dps_dkg_id m) (frost_current_dkg_id c)) else
      if bool_decide (cfg_signer_public_keys (frost_config c) !! dps_signer_id m = None) then st_ret tt else
      st_modify (fun c => frost_set_party_polynomials (insert_comms (dps_comms m) (frost_party_polynomials c))
        (frost_set_dkg_public_shares (<[dps_signer_id m := m]> (frost_dkg_public_shares c))
        (frost_set_ids_to_await (frost_ids_to_await c ∖ {[dps_signer_id m]}) c)));;;
      done_
  | _ => done_
  end.

Definition frost_gather_private_shares (message : Message) : M unit :=
  let done_ := c <- st_get;;
    if bool_decide (frost_ids_to_await c = ∅) then frost_move_to CsDkgEndDistribute else st_ret tt in
  match message with
  | MsgDkgPrivateShares m =>
      c <- st_get;;
      if negb (dvs_dkg_id m =? frost_current_dkg_id c) then st_throw (CeBadDkgId (dvs_dkg_id m) (frost_current_dkg_id c)) else
      if bool_decide (cfg_signer_public_keys (frost_config c) !! dvs_signer_id m = None) then st_ret tt else
      st_modify (fun c => frost_set_dkg_private_shares (<[dvs_signer_id m := m]> (frost_dkg_private_shares c))
        (frost_set_ids_to_await (frost_ids_to_await c ∖ {[dvs_signer_id m]}) c));;;
      done_
  | _ => done_
  end.

(** The sum of the constant terms, the order of a [HashMap] being unspecified. *)
Definition sum_constant_terms (comms : list (Z * PolyCommitment)) : Point :=
  foldl (fun s e => point_add s (constant_term e.2)) point_default comms.

(** [for signer_id in self.dkg_private_shares.keys()] *)
Fixpoint cache_polynomials (ids : list Z) : M unit :=
  match ids with
  | [] => st_ret tt
  | i :: ids =>
      c <- st_get;;
      match frost_dkg_public_shares c !! i with
      | None => st_throw (CeMissingPublicShares i)
      | Some m =>
          st_modify (fun c => frost_set_party_polynomials (insert_comms (dps_comms m) (frost_party_polynomials c)) c);;;
          cache_polynomials ids
      end
  end.

Definition frost_dkg_end_gathered : M unit :=
  c <- st_get;;
  cache_polynomials (btree_list (frost_dkg_private_shares c)).*1;;;
  st_modify (fun c => frost_set_aggregate_public_key
    (Some (sum_constant_terms (map_to_list (frost_party_polynomials c)))) c);;;
  frost_move_to CsIdle.

Definition failure_of (m : NetDkgEnd) : option DkgFailure :=
  match de_status m with StatusFailure f => Some f | StatusSuccess => None end.

Definition frost_gather_dkg_end (message : Message) : M unit :=
  let done_ := c <- st_get;;
    if bool_decide (frost_ids_to_await c = ∅) then
      let failures := omap failure_of (frost_dkg_end_messages c) in
      if bool_decide (dom failures = ∅) then frost_dkg_end_gathered else st_throw (CeDkgFailure failures)
    else st_ret tt in
  match message with
  | MsgDkgEnd m =>
      c <- st_get;;
      if negb (de_dkg_id m =? frost_current_dkg_id c) then st_throw (CeBadDkgId (de_dkg_id m) (frost_current_dkg_id c)) else
      (if bool_decide (de_signer_id m ∈ frost_ids_to_await c) then
         st_modify (fun c => frost_set_dkg_end_messages (<[de_signer_id m := m]> (frost_dkg_end_messages c))
           (frost_set_ids_to_await (frost_ids_to_await c ∖ {[de_signer_id m]}) c))
       else st_ret tt);;;
      done_
  | _ => done_
  end.

(** *** Signing *)
Definition frost_request_nonces (t : SignatureType) : M Message :=
  st_modify (frost_set_public_nonces ∅);;;
  st_modify (fun c => frost_set_ids_to_await (all_signer_ids c) c);;;
  c <- st_get;;
  frost_move_to (CsNonceGather t);;;
  st_ret (MsgNonceRequest (mkNonceRequest (frost_current_dkg_id c) (frost_current_sign_id c)
    (frost_current_sign_iter_id c) (frost_message c) t)).

(** The checks of a nonce response: an error, or whether to take it. *)
Definition frost_check_nonces (c : FrostCoordinator) (m : NetNonceResponse) : outcome CoordinatorError bool :=
  if negb (nr_dkg_id m =? frost_current_dkg_id c) then Err (CeBadDkgId (nr_dkg_id m) (frost_current_dkg_id c)) else
  if negb (nr_sign_id m =? frost_current_sign_id c) then Err (CeBadSignId (nr_sign_id m) (frost_current_sign_id c)) else
  if negb (nr_sign_iter_id m =? frost_current_sign_iter_id c)
  then Err (CeBadSignIterId (nr_sign_iter_id m) (frost_current_sign_iter_id c)) else
  if bool_decide (cfg_signer_public_keys (frost_config c) !! nr_signer_id m = None) then Ok false else
  match cfg_signer_key_ids (frost_config c) !! nr_signer_id m with
  | None => Ok false
  | Some key_ids => Ok (bool_decide (key_ids = list_to_set (nr_key_ids m)) && forallb public_nonce_is_valid (nr_nonces m))
  end.

Definition frost_gather_nonces (message : Message) (t : SignatureType) : M unit :=
  let done_ := c <- st_get;;
    if bool_decide (frost_ids_to_await c = ∅) then frost_move_to (CsSigShareRequest t) else st_ret tt in
  match message with
  | MsgNonceResponse m =>
      c <- st_get;;
      take_ <- st_lift (frost_check_nonces c m);;
      if negb take_ then st_ret tt else
      st_modify (fun c => frost_set_ids_to_await (frost_ids_to_await c ∖ {[nr_signer_id m]})
        (frost_set_public_nonces (<[nr_signer_id m := m]> (frost_public_nonces c)) c));;;
      done_
  | _ => done_
  end.

(** [(0..n).map(|i| self.public_nonces[&i].clone())]: a missing entry panics. *)
Definition index_all {A} (m : gmap Z A) (ids : list Z) : option (list A) := mapM (fun i => m !! i) ids.
Definition or_panic {E A} (o : option A) : outcome E A := match o with Some a => Ok a | None => Panic end.

Definition frost_nonce_responses (c : FrostCoordinator) : outcome CoordinatorError (list NetNonceResponse) :=
  or_panic (index_all (frost_public_nonces c) (id_range (cfg_num_signers (frost_config c)))).

Definition frost_request_sig_shares (t : SignatureType) : M Message :=
  st_modify (frost_set_signature_shares ∅);;;
  c <- st_get;;
  responses <- st_lift (frost_nonce_responses c);;
  st_modify (fun c => frost_set_ids_to_await (all_signer_ids c) c);;;
  frost_move_to (CsSigShareGather t);;;
  st_ret (MsgSignatureShareRequest (mkSignatureShareRequest (frost_current_dkg_id c) (frost_current_sign_id c)
    (frost_current_sign_iter_id c) responses (frost_message c) t)).

Definition frost_check_shares (c : FrostCoordinator) (m : NetSignatureShareResponse) : outcome CoordinatorError bool :=
  if negb (sr_dkg_id m =? frost_current_dkg_id c) then Err (CeBadDkgId (sr_dkg_id m) (frost_current_dkg_id c)) else
  if negb (sr_sign_id m =? frost_current_sign_id c) then Err (CeBadSignId (sr_sign_id m) (frost_current_sign_id c)) else
  if bool_decide (cfg_signer_public_keys (frost_config c) !! sr_signer_id m = None) then Ok false else
  match cfg_signer_key_ids (frost_config c) !! sr_signer_id m with
  | None => Ok false
  | Some key_ids => Ok (bool_decide (key_ids = list_to_set (concat (map share_key_ids (sr_signature_shares m)))))
  end.

(** The arguments of the aggregator: nonces and key identifiers in the order
    of the signer identifiers, shares in the order of the nonce map. *)
Definition frost_aggregation_inputs (c : FrostCoordinator) :
    outcome CoordinatorError (list PublicNonce * list Z * list SignatureShare) :=
  responses ← frost_nonce_responses c;
  shares ← or_panic (index_all (frost_signature_shares c) (btree_list (frost_public_nonces c)).*1);
  Ok (concat (map nr_nonces responses), concat (map nr_key_ids responses), concat shares).

Definition frost_aggregate (t : SignatureType) : M unit :=
  c <- st_get;;
  inputs <- st_lift (frost_aggregation_inputs c);;
  let '(nonces, key_ids, shares) := inputs in
  st_modify (fun c => frost_set_aggregator (aggregator_init (frost_aggregator c) (frost_party_polynomials c)).1 c);;;
  st_lift (map_err CeAggregator (aggregator_init (frost_aggregator c) (frost_party_polynomials c)).2);;;
  c <- st_get;;
  match t with
  | Taproot root =>
      p <- st_lift (map_err CeAggregator
        (aggregator_sign_taproot (frost_aggregator c) (frost_message c) nonces shares key_ids root));;
      st_modify (frost_set_schnorr_proof (Some p))
  | Schnorr =>
      p <- st_lift (map_err CeAggregator
        (aggregator_sign_schnorr (frost_aggregator c) (frost_message c) nonces shares key_ids));;
      st_modify (frost_set_schnorr_proof (Some p))
  | Frost =>
      s <- st_lift (map_err CeAggregator
        (aggregator_sign (frost_aggregator c) (frost_message c) nonces shares key_ids));;
      st_modify (frost_set_signature (Some s))
  end;;;
  frost_move_to CsIdle.

Definition frost_gather_sig_shares (message : Message) (t : SignatureType) : M unit :=
  let done_ := c <- st_get;;
    if bool_decide (frost_ids_to_await c = ∅) then frost_aggregate t else st_ret tt in
  match message with
  | MsgSignatureShareResponse m =>
      c <- st_get;;
      take_ <- st_lift (frost_check_shares c m);;
      if negb take_ then st_ret tt else
      st_modify (fun c => frost_set_ids_to_await (frost_ids_to_await c ∖ {[sr_signer_id m]})
        (frost_set_signature_shares (<[sr_signer_id m := sr_signature_shares m]> (frost_signature_shares c)) c));;;
      done_
  | _ => done_
  end.

(** *** Rounds *)
Definition frost_start_dkg_round : M Message :=
  st_modify (fun c => frost_set_current_dkg_id (wrapping_succ (frost_current_dkg_id c)) c);;;
  frost_move_to CsDkgPublicDistribute;;;
  frost_start_public_shares.

Definition frost_start_signing_round (message : list Z) (t : SignatureType) : M Message :=
  c <- st_get;;
  if bool_decide (frost_aggregate_public_key c = None) then st_throw CeMissingAggregatePublicKey else
  st_modify (frost_set_message message);;;
  st_modify (fun c => frost_set_current_sign_id (wrapping_succ (frost_current_sign_id c)) c);;;
  frost_move_to (CsNonceRequest t);;;
  frost_request_nonces t.

Definition frost_reset (c : FrostCoordinator) : FrostCoordinator :=
  frost_set_ids_to_await (all_signer_ids c) (frost_set_signature_shares ∅ (frost_set_public_nonces ∅
    (frost_set_party_polynomials ∅ (frost_set_dkg_public_shares ∅ (frost_set_state CsIdle c))))).

Definition frost_set_key_and_party_polynomials (key : Point) (polys : list (Z * PolyCommitment)) : M unit :=
  let computed := sum_constant_terms polys in
  if negb (bool_decide (computed = key)) then st_throw (CeAggregateKeyPolynomialMismatch computed key) else
  let m : gmap Z PolyCommitment := insert_comms polys ∅ in
  if negb (Z.of_nat (size m) =? Z.of_nat (length polys)) then st_throw CeDuplicatePartyId else
  st_modify (fun c => frost_set_party_polynomials m (frost_set_aggregate_public_key (Some key) c)).

(** *** The loop of [process_message] *)
Abbreviation Reply := (option Message * option OperationResult)%type.

(** One turn: [None] goes round the loop again. *)
Definition send (m : Message) : option Reply := Some (Some m, None).
Definition more : option Reply := Some (None, None).
Definition result (r : OperationResult) : option Reply := Some (None, Some r).

Definition frost_idle (message : Message) : M (option Reply) :=
  c <- st_get;;
  match message with
  | MsgDkgBegin m =>
      if db_dkg_id m <=? frost_current_dkg_id c then st_ret more else
      st_modify (frost_set_current_dkg_id (wrapping_pred (db_dkg_id m)));;;
      out <- frost_start_dkg_round;; st_ret (send out)
  | MsgNonceRequest m =>
      if nq_sign_id m <=? frost_current_sign_id c then st_ret more else
      st_modify (frost_set_current_sign_id (wrapping_pred (nq_sign_id m)));;;
      st_modify (frost_set_current_sign_iter_id (nq_sign_iter_id m));;;
      out <- frost_start_signing_round (nq_message m) (nq_signature_type m);; st_ret (send out)
  | _ => st_ret more
  end.

(** The result of a finished signing round. *)
Definition frost_signed (t : SignatureType) : M (option Reply) :=
  c <- st_get;;
  match t with
  | Taproot _ => p <- st_ok_or (frost_schnorr_proof c) CeMissingSchnorrProof;; st_ret (result (ResSignTaproot p))
  | Schnorr => p <- st_ok_or (frost_schnorr_proof c) CeMissingSchnorrProof;; st_ret (result (ResSignSchnorr p))
  | Frost => s <- st_ok_or (frost_signature c) CeMissingSignature;; st_ret (result (ResSign s))
  end.

(** The branch [State::DkgEndGather]. *)
Definition frost_dkg_end_turn (message : Message) : M (option Reply) :=
  st_catch (frost_gather_dkg_end message;;;
    c <- st_get;;
    if bool_decide (frost_state c = CsDkgEndGather) then st_ret more
    else if bool_decide (frost_state c = CsIdle) then
      key <- st_ok_or (frost_aggregate_public_key c) CeMissingAggregatePublicKey;; st_ret (result (ResDkg key))
    else st_ret None)
    (fun e => match e with CeDkgFailure fs => Some (result (ResDkgError (DkgEndFailure fs))) | _ => None end).

(** The branch [State::SigShareGather]. *)
Definition frost_sig_share_turn (message : Message) (t : SignatureType) : M (option Reply) :=
  failed <- st_catch (frost_gather_sig_shares message t;;; st_ret None)
    (fun e => Some (result (ResSignError (SeCoordinator e))));;
  match failed with
  | Some r => st_ret (Some r)
  | None =>
      c <- st_get;;
      if bool_decide (frost_state c = CsSigShareGather t) then st_ret more
      else if bool_decide (frost_state c = CsIdle) then frost_signed t
      else st_ret None
  end.

Definition frost_turn (message : Message) : M (option Reply) :=
  c <- st_get;;
  match frost_state c with
  | CsIdle => frost_idle message
  | CsDkgPublicDistribute => out <- frost_start_public_shares;; st_ret (send out)
  | CsDkgPublicGather =>
      frost_gather_public_shares message;;;
      c <- st_get;;
      st_ret (if bool_decide (frost_state c = CsDkgPublicGather) then more else None)
  | CsDkgPrivateDistribute => out <- frost_start_private_shares;; st_ret (send out)
  | CsDkgPrivateGather =>
      frost_gather_private_shares message;;;
      c <- st_get;;
      st_ret (if bool_decide (frost_state c = CsDkgPrivateGather) then more else None)
  | CsDkgEndDistribute => out <- frost_start_dkg_end;; st_ret (send out)
  | CsDkgEndGather => frost_dkg_end_turn message
  | CsNonceRequest t => out <- frost_request_nonces t;; st_ret (send out)
  | CsNonceGather t =>
      frost_gather_nonces message t;;;
      c <- st_get;;
      st_ret (if bool_decide (frost_state c = CsNonceGather t) then more else None)
  | CsSigShareRequest t => out <- frost_request_sig_shares t;; st_ret (send out)
  | CsSigShareGather t => frost_sig_share_turn message t
  end.

Fixpoint frost_loop (fuel : nat) (message : Message) : M Reply :=
  match fuel with
  | O => st_lift Diverge
  | S fuel =>
      r <- frost_turn message;;
      match r with
      | Some reply => st_ret reply
      | None => frost_loop fuel message
      end
  end.

Definition frost_process_message (message : Message) : M Reply := frost_loop 2 message.

(** [process_inbound_messages] *)
Fixpoint frost_process_inbound_messages (messages : list Message) : M (list Message * list OperationResult) :=
  match messages with
  | [] => st_ret ([], [])
  | m :: messages =>
      reply <- frost_process_message m;;
      rest <- frost_process_inbound_messages messages;;
      st_ret (option_list reply.1 ++ rest.1, option_list reply.2 ++ rest.2)
  end.
End Frost.

(** ** Invariant *)

(** What the coordinators rely on of the aggregator ([WstsSign] shows it of
    the crate's): only the tweak of the point at infinity panics. *)
Class WstsCryptoLaws `{WstsCrypto} : Prop := {
  init_no_crash a polys : ~ crashed (aggregator_init a polys).2;
  sign_no_crash a msg nonces shares ids : ~ crashed (aggregator_sign a msg nonces shares ids);
  sign_schnorr_no_crash a msg nonces shares ids : ~ crashed (aggregator_sign_schnorr a msg nonces shares ids);
  sign_taproot_no_crash a polys msg nonces shares ids root :
    (aggregator_init a polys).2 = Ok tt ->
    foldl (fun s e => point_add s (constant_term e.2)) point_default (map_to_list polys) <> point_default ->
    ~ crashed (aggregator_sign_taproot (aggregator_init a polys).1 msg nonces shares ids root) }.

Section Invariant.
Context `{WstsCrypto}.
Implicit Types (c : FrostCoordinator).

Definition signer_range (cfg : Config) : list Z := id_range (cfg_num_signers cfg).

(** Public keys are configured for the signers [0 .. num_signers - 1] only. *)
Definition config_ok (cfg : Config) : Prop :=
  forall i, is_Some (cfg_signer_public_keys cfg !! i) -> i ∈ signer_range cfg.

Definition frost_inv c : Prop :=
  config_ok (frost_config c) /\
  (forall i, is_Some (frost_public_nonces c !! i) -> i ∈ signer_range (frost_config c)) /\
  match frost_state c with
  | CsNonceGather _ => forall i, i ∈ signer_range (frost_config c) ->
      i ∈ frost_ids_to_await c \/ is_Some (frost_public_nonces c !! i)
  | CsSigShareRequest _ => forall i, i ∈ signer_range (frost_config c) -> is_Some (frost_public_nonces c !! i)
  | CsSigShareGather _ => forall i, i ∈ signer_range (frost_config c) ->
      is_Some (frost_public_nonces c !! i) /\ (i ∈ frost_ids_to_await c \/ is_Some (frost_signature_shares c !! i))
  | _ => True
  end.

(** The group key is not the point at infinity when a taproot signature is
    being aggregated. *)
Definition frost_key_ok c : Prop := forall root, frost_state c = CsSigShareGather (Taproot root) ->
  sum_constant_terms (map_to_list (frost_party_polynomials c)) <> point_default.

Lemma index_all_some {A} (m : gmap Z A) ids : (forall i, i ∈ ids -> is_Some (m !! i)) ->
  exists l, index_all m ids = Some l /\ Forall2 (fun i a => m !! i = Some a) ids l.
Proof.
  intros Hi. assert (is_Some (index_all m ids)) as [l Hl].
  { apply mapM_is_Some. apply Forall_forall. done. }
  exists l. split; [done|]. by apply mapM_Some.
Qed.

(** The states a handler may leave on going round the loop. *)
Definition mid_state (s : CoordinatorState) : bool :=
  match s with CsDkgPrivateDistribute | CsDkgEndDistribute | CsSigShareRequest _ => true | _ => false end.

End Invariant.

Ltac st_unfold := unfold frost_move_to, st_bind, st_get, st_modify, st_throw, st_ret, st_lift, st_ok_or, st_catch.

Section InvariantProofs.
Context `{WstsCryptoLaws}.
Implicit Types (c : FrostCoordinator).

Lemma move_to_triple (P : FrostCoordinator -> Prop) next (Q : unit -> FrostCoordinator -> Prop) R :
  (forall c, P c -> frost_can_move_to (frost_state c) next = true /\ Q tt (frost_set_state next c)) ->
  triple P (frost_move_to next) Q R.
Proof. intros HP c Hc. destruct (HP c Hc) as [Hm HQ]. st_unfold. by rewrite Hm. Qed.

Lemma gather_public_triple m :
  triple (fun c => frost_inv c /\ frost_state c = CsDkgPublicGather) (frost_gather_public_shares m)
    (fun _ c => frost_inv c /\ (frost_state c = CsDkgPublicGather \/ frost_state c = CsDkgPrivateDistribute))
    (fun _ c => frost_inv c).
Proof.
  intros c [Hc Hs]. unfold frost_gather_public_shares. st_unfold. destruct Hc as (Hcfg & Hn & Hst).
  unfold frost_inv. destruct m; repeat (case_match; simplify_eq/=); rewrite ?Hs in *; simpl in *; naive_solver.
Qed.

Lemma gather_private_triple m :
  triple (fun c => frost_inv c /\ frost_state c = CsDkgPrivateGather) (frost_gather_private_shares m)
    (fun _ c => frost_inv c /\ (frost_state c = CsDkgPrivateGather \/ frost_state c = CsDkgEndDistribute))
    (fun _ c => frost_inv c).
Proof.
  intros c [Hc Hs]. unfold frost_gather_private_shares. st_unfold. destruct Hc as (Hcfg & Hn & Hst).
  unfold frost_inv. destruct m; repeat (case_match; simplify_eq/=); rewrite ?Hs in *; simpl in *; naive_solver.
Qed.

Lemma cache_polynomials_triple ids s :
  triple (fun c => frost_inv c /\ frost_state c = s) (cache_polynomials ids)
    (fun _ c => frost_inv c /\ frost_state c = s) (fun _ c => frost_inv c).
Proof.
  induction ids as [|i ids IH]; cbn [cache_polynomials]; [by apply triple_ret|].
  intros c Hc. unfold st_bind at 1. cbn [st_get]. destruct (frost_dkg_public_shares c !! i) as [m|]; [|by destruct Hc].
  apply IH. destruct Hc as [Hc Hs]. done.
Qed.

Lemma gather_dkg_end_triple m :
  triple (fun c => frost_inv c /\ frost_state c = CsDkgEndGather) (frost_gather_dkg_end m)
    (fun _ c => frost_inv c /\ (frost_state c = CsDkgEndGather \/ frost_state c = CsIdle))
    (fun _ c => frost_inv c).
Proof.
  assert (triple (fun c => frost_inv c /\ frost_state c = CsDkgEndGather) frost_dkg_end_gathered
    (fun _ c => frost_inv c /\ (frost_state c = CsDkgEndGather \/ frost_state c = CsIdle)) (fun _ c => frost_inv c)) as Hend.
  { intros c Hc. unfold frost_dkg_end_gathered. unfold st_bind at 1. cbn [st_get].
    generalize (btree_list (frost_dkg_private_shares c)).*1 as ids. intros ids. revert c Hc.
    eapply triple_bind; [apply (cache_polynomials_triple ids CsDkgEndGather)|]. intros [].
    intros c [(Hcfg & Hn & _) Hs]. st_unfold. unfold frost_inv. simpl. auto. }
  intros c Hc. unfold frost_gather_dkg_end.
  assert (forall c, frost_inv c /\ frost_state c = CsDkgEndGather ->
    match (c' <- st_get;;
      if bool_decide (frost_ids_to_await c' = ∅) then
        if bool_decide (dom (omap failure_of (frost_dkg_end_messages c')) = ∅) then frost_dkg_end_gathered
        else st_throw (CeDkgFailure (omap failure_of (frost_dkg_end_messages c')))
      else st_ret tt) c with
    | (s', Ok a) => frost_inv s' /\ (frost_state s' = CsDkgEndGather \/ frost_state s' = CsIdle)
    | (s', Err e) => frost_inv s'
    | _ => False
    end) as Hdone.
  { clear -Hend. intros c Hc. unfold st_bind at 1. cbn [st_get]. specialize (Hend c Hc).
    case_bool_decide; [case_bool_decide; [exact Hend|by apply Hc]|]. destruct Hc. simpl. auto. }
  destruct m; try exact (Hdone c Hc). unfold st_bind at 1. cbn [st_get].
  destruct (negb _); [by apply Hc|]. unfold st_bind at 1. case_bool_decide; [|exact (Hdone c Hc)].
  apply Hdone. destruct Hc as [(Hcfg & Hn & Hst) Hs]. split; [|done]. unfold frost_inv. simpl. by rewrite Hs.
Qed.

Lemma request_nonces_triple t :
  triple (fun c => frost_inv c /\ frost_state c = CsNonceRequest t) (frost_request_nonces t)
    (fun _ c => frost_inv c) (fun _ c => frost_inv c).
Proof.
  intros c [(Hcfg & Hn & Hst) Hs]. unfold frost_request_nonces. st_unfold. simpl. rewrite Hs. simpl.
  rewrite !bool_decide_eq_true_2 by done. simpl. unfold frost_inv, all_signer_ids, signer_range. simpl. split_and!; [done| |].
  - intros i. rewrite lookup_empty. by intros [].
  - intros i Hi. left. by apply elem_of_list_to_set.
Qed.

Lemma check_nonces_configured c m : frost_check_nonces c m = Ok true ->
  is_Some (cfg_signer_public_keys (frost_config c) !! nr_signer_id m).
Proof.
  unfold frost_check_nonces. repeat case_match; try done; intros _. case_bool_decide; [done|]. by apply not_eq_None_Some.
Qed.
Lemma check_nonces_safe c m : ~ crashed (frost_check_nonces c m).
Proof. unfold frost_check_nonces. repeat case_match; simpl; tauto. Qed.
Lemma check_shares_safe c m : ~ crashed (frost_check_shares c m).
Proof. unfold frost_check_shares. repeat case_match; simpl; tauto. Qed.

Lemma gather_nonces_triple m t :
  triple (fun c => frost_inv c /\ frost_state c = CsNonceGather t) (frost_gather_nonces m t)
    (fun _ c => frost_inv c /\ (frost_state c = CsNonceGather t \/ frost_state c = CsSigShareRequest t))
    (fun _ c => frost_inv c).
Proof.
  assert (triple (fun c => frost_inv c /\ frost_state c = CsNonceGather t)
    (c <- st_get;; if bool_decide (frost_ids_to_await c = ∅) then frost_move_to (CsSigShareRequest t) else st_ret tt)
    (fun _ c => frost_inv c /\ (frost_state c = CsNonceGather t \/ frost_state c = CsSigShareRequest t))
    (fun _ c => frost_inv c)) as Hdone.
  { intros c [(Hcfg & Hn & Hst) Hs]. st_unfold. case_bool_decide as He; [|unfold frost_inv; auto].
    rewrite Hs in *. simpl. rewrite bool_decide_eq_true_2 by done. unfold frost_inv. simpl. split_and!; [done..| |auto].
    intros i Hi. destruct (Hst i Hi) as [Ha|?]; [|done]. rewrite He in Ha. set_solver. }
  intros c Hc. unfold frost_gather_nonces. destruct m; try exact (Hdone c Hc).
  unfold st_bind at 1. cbn [st_get]. unfold st_bind at 1, st_lift.
  pose proof (check_nonces_safe c m) as Hsafe.
  destruct (frost_check_nonces c m) as [[]|e| |] eqn:Hck; try (by destruct Hsafe); [|destruct Hc; simpl; auto|by apply Hc].
  cbn [negb]. apply check_nonces_configured in Hck. apply Hdone. destruct Hc as [(Hcfg & Hn & Hst) Hs].
  split; [|done]. unfold frost_inv. simpl. rewrite Hs in *. split_and!; [done| |].
  - intros i. destruct (decide (i = nr_signer_id m)) as [->|Hi]; [auto|rewrite lookup_insert_ne by done; auto].
  - intros i Hi. destruct (decide (i = nr_signer_id m)) as [->|Hne]; [rewrite lookup_insert_eq; eauto|].
    rewrite lookup_insert_ne by done. destruct (Hst i Hi); [left; set_solver|auto].
Qed.

Lemma request_sig_shares_triple t :
  triple (fun c => frost_inv c /\ frost_state c = CsSigShareRequest t) (frost_request_sig_shares t)
    (fun _ c => frost_inv c) (fun _ c => frost_inv c).
Proof.
  intros c [(Hcfg & Hn & Hst) Hs]. rewrite Hs in Hst. unfold frost_request_sig_shares. st_unfold. unfold frost_nonce_responses. simpl.
  destruct (index_all_some (frost_public_nonces c) (id_range (cfg_num_signers (frost_config c)))) as (l & -> & _); [done|].
  simpl. rewrite Hs. simpl. rewrite !bool_decide_eq_true_2 by done. simpl. unfold frost_inv. simpl. split_and!; [done..|].
  intros i Hi. split; [auto|]. left. unfold all_signer_ids. simpl. by apply elem_of_list_to_set.
Qed.

(** The nonces and the shares handed to the aggregator are those of the same
    signers in the same order. *)
Lemma aggregation_aligned c : frost_inv c ->
  (forall i, i ∈ signer_range (frost_config c) ->
    is_Some (frost_public_nonces c !! i) /\ is_Some (frost_signature_shares c !! i)) ->
  exists responses shares,
    Forall2 (fun i r => frost_public_nonces c !! i = Some r) (signer_range (frost_config c)) responses /\
    Forall2 (fun i s => frost_signature_shares c !! i = Some s) (signer_range (frost_config c)) shares /\
    frost_aggregation_inputs c =
      Ok (concat (map nr_nonces responses), concat (map nr_key_ids responses), concat shares).
Proof.
  intros (Hcfg & Hn & _) Hi. unfold frost_aggregation_inputs, frost_nonce_responses.
  rewrite (btree_list_keys _ (signer_range (frost_config c))); [|apply seqZ_sorted_lt|].
  2: { intros i. split; [intros Hin; by apply Hi|apply Hn]. }
  destruct (index_all_some (frost_public_nonces c) (signer_range (frost_config c))) as (rs & Hrs & HF); [intros; by apply Hi|].
  destruct (index_all_some (frost_signature_shares c) (signer_range (frost_config c))) as (ss & Hss & HF'); [intros; by apply Hi|].
  exists rs, ss. split_and!; [done..|]. unfold signer_range in *. by rewrite Hrs, Hss.
Qed.

Lemma crashed_map_err {E E' A} (g : E -> E') (o : outcome E A) : ~ crashed o -> ~ crashed (map_err g o).
Proof. by destruct o. Qed.

(** Aggregation leaves the coordinator idle or as it was. *)
Lemma aggregate_triple t :
  triple (fun c => frost_inv c /\ frost_key_ok c /\ frost_state c = CsSigShareGather t /\ frost_ids_to_await c = ∅)
    (frost_aggregate t) (fun _ c => frost_inv c /\ frost_state c = CsIdle) (fun _ c => frost_inv c).
Proof.
  intros c (Hinv & Hkey & Hs & He). pose proof Hinv as (Hcfg & Hn & Hst). rewrite Hs in Hst.
  destruct (aggregation_aligned c Hinv) as (rs & ss & _ & _ & Hin).
  { intros i Hi. destruct (Hst i Hi) as [? [Ha|?]]; [|done]. rewrite He in Ha. set_solver. }
  unfold frost_aggregate, st_bind, st_get, st_modify, st_lift. rewrite Hin.
  assert (forall a, frost_inv (frost_set_aggregator a c)) as Hagg by (intros; unfold frost_inv; simpl; by rewrite Hs).
  pose proof (init_no_crash (frost_aggregator c) (frost_party_polynomials c)) as Hc0.
  destruct (aggregator_init (frost_aggregator c) (frost_party_polynomials c)).2 as [[]|e| |] eqn:Hi;
    cbn [map_err]; [|apply Hagg|by destruct Hc0..].
  destruct t as [| |root]; cbn [frost_set_aggregator frost_aggregator frost_message frost_set_schnorr_proof frost_set_signature].
  - pose proof (sign_no_crash (aggregator_init (frost_aggregator c) (frost_party_polynomials c)).1 (frost_message c)
      (concat (map nr_nonces rs)) (concat ss) (concat (map nr_key_ids rs))) as Hc1.
    destruct (aggregator_sign _ _ _ _ _); cbn [map_err]; [|apply Hagg|by destruct Hc1..].
    st_unfold. split; [|done]. unfold frost_inv. simpl. by split_and!.
  - pose proof (sign_schnorr_no_crash (aggregator_init (frost_aggregator c) (frost_party_polynomials c)).1 (frost_message c)
      (concat (map nr_nonces rs)) (concat ss) (concat (map nr_key_ids rs))) as Hc1.
    destruct (aggregator_sign_schnorr _ _ _ _ _); cbn [map_err]; [|apply Hagg|by destruct Hc1..].
    st_unfold. split; [|done]. unfold frost_inv. simpl. by split_and!.
  - pose proof (sign_taproot_no_crash (frost_aggregator c) (frost_party_polynomials c) (frost_message c)
      (concat (map nr_nonces rs)) (concat ss) (concat (map nr_key_ids rs)) root Hi (Hkey root Hs)) as Hc1.
    destruct (aggregator_sign_taproot _ _ _ _ _ _); cbn [map_err]; [|apply Hagg|by destruct Hc1..].
    st_unfold. split; [|done]. unfold frost_inv. simpl. by split_and!.
Qed.

Lemma gather_sig_shares_triple m t :
  triple (fun c => frost_inv c /\ frost_key_ok c /\ frost_state c = CsSigShareGather t) (frost_gather_sig_shares m t)
    (fun _ c => frost_inv c /\ (frost_state c = CsSigShareGather t \/ frost_state c = CsIdle)) (fun _ c => frost_inv c).
Proof.
  assert (triple (fun c => frost_inv c /\ frost_key_ok c /\ frost_state c = CsSigShareGather t)
    (c <- st_get;; if bool_decide (frost_ids_to_await c = ∅) then frost_aggregate t else st_ret tt)
    (fun _ c => frost_inv c /\ (frost_state c = CsSigShareGather t \/ frost_state c = CsIdle)) (fun _ c => frost_inv c)) as Hdone.
  { intros c (Hi & Hk & Hs). unfold st_bind at 1. cbn [st_get]. case_bool_decide as He; [|simpl; auto].
    pose proof (aggregate_triple t c (conj Hi (conj Hk (conj Hs He)))) as Ht.
    destruct (frost_aggregate t c) as [c' []]; [destruct Ht; auto|done..]. }
  intros c Hc. unfold frost_gather_sig_shares. destruct m; try exact (Hdone c Hc).
  unfold st_bind at 1. cbn [st_get]. unfold st_bind at 1, st_lift.
  pose proof (check_shares_safe c m) as Hsafe.
  destruct (frost_check_shares c m) as [[]|e| |]; try (by destruct Hsafe); [|destruct Hc as (? & ? & ?); simpl; auto|by apply Hc].
  cbn [negb]. apply Hdone. destruct Hc as ((Hcfg & Hn & Hst) & Hk & Hs).
  split_and!; [|done|done]. unfold frost_inv. simpl. rewrite Hs in *. split_and!; [done..|].
  intros i Hi. destruct (Hst i Hi) as [? Hor]. split; [done|].
  destruct (decide (i = sr_signer_id m)) as [->|Hne]; [rewrite lookup_insert_eq; eauto|].
  rewrite lookup_insert_ne by done. destruct Hor; [left; set_solver|auto].
Qed.

Lemma start_public_triple s : frost_can_move_to s CsDkgPublicGather = true ->
  triple (fun c => frost_inv c /\ frost_state c = s) frost_start_public_shares (fun _ c => frost_inv c) (fun _ c => frost_inv c).
Proof.
  intros Hm c [(Hcfg & Hn & Hst) Hs]. subst s. unfold frost_start_public_shares. st_unfold.
  cbn [frost_set_ids_to_await frost_set_party_polynomials frost_set_dkg_public_shares frost_state]. rewrite Hm.
  unfold frost_inv. simpl. done.
Qed.

Lemma idle_triple m :
  triple (fun c => frost_inv c /\ frost_state c = CsIdle) (frost_idle m)
    (fun r c => frost_inv c /\ r <> None) (fun _ c => frost_inv c).
Proof.
  intros c [(Hcfg & Hn & Hst) Hs]. unfold frost_idle. unfold st_bind at 1. cbn [st_get].
  destruct m; try done; (destruct (_ <=? _); [done|]).
  - unfold frost_start_dkg_round, frost_start_public_shares. st_unfold. simpl. rewrite Hs. simpl.
    rewrite ?bool_decide_eq_true_2 by done. simpl. done.
  - unfold frost_start_signing_round, st_bind, st_get, st_modify. simpl. case_bool_decide; [by unfold st_throw, frost_inv; simpl; rewrite Hs|].
    unfold st_modify, frost_move_to, st_bind, st_get. simpl. rewrite Hs. simpl. rewrite ?bool_decide_eq_true_2 by done. simpl.
    match goal with |- context [frost_request_nonces ?t ?c'] => pose proof (request_nonces_triple t c' (conj (conj Hcfg (conj Hn I)) eq_refl)) as Hr end.
    by destruct (frost_request_nonces _ _) as [c' []].
Qed.

Lemma signed_triple t :
  triple (fun c => frost_inv c) (frost_signed t) (fun r c => frost_inv c /\ r <> None) (fun _ c => frost_inv c).
Proof.
  intros c Hc. unfold frost_signed. st_unfold. destruct t.
  - by destruct (frost_signature c).
  - by destruct (frost_schnorr_proof c).
  - by destruct (frost_schnorr_proof c).
Qed.

Lemma dkg_end_turn_triple m :
  triple (fun c => frost_inv c /\ frost_state c = CsDkgEndGather) (frost_dkg_end_turn m)
    (fun r c => frost_inv c /\ (r = None -> mid_state (frost_state c) = true)) (fun _ c => frost_inv c).
Proof.
  apply triple_catch. eapply triple_bind.
  { eapply triple_weaken; [| | |apply (gather_dkg_end_triple m)]; [done|intros a s Hq; exact Hq|].
    intros [] c Hi; try exact Hi. split; [exact Hi|done]. }
  intros []. intros c [Hi [Hs|Hs]]; st_unfold; rewrite Hs; simpl; [by split|].
  destruct (frost_aggregate_public_key c); simpl; [by split|done].
Qed.

Lemma sig_share_turn_triple m t :
  triple (fun c => frost_inv c /\ frost_key_ok c /\ frost_state c = CsSigShareGather t) (frost_sig_share_turn m t)
    (fun r c => frost_inv c /\ (r = None -> mid_state (frost_state c) = true)) (fun _ c => frost_inv c).
Proof.
  intros c Hc. pose proof (gather_sig_shares_triple m t c Hc) as Ht.
  unfold frost_sig_share_turn, st_catch, st_bind, st_ret, st_get.
  destruct (frost_gather_sig_shares m t c) as [c' []]; [|by split|done..].
  destruct Ht as [Hi' [Hs'|Hs']]; rewrite Hs'; [rewrite bool_decide_eq_true_2 by done; by split|].
  rewrite bool_decide_eq_false_2, bool_decide_eq_true_2 by done. pose proof (signed_triple t c' Hi') as Hr.
  destruct (frost_signed t c') as [c'' []]; [|done..]. naive_solver.
Qed.

(** One turn of the loop keeps the invariant, and goes round again only from
    the states the next turn leaves with a message. *)
Lemma turn_triple m :
  triple (fun c => frost_inv c /\ frost_key_ok c) (frost_turn m)
    (fun r c => frost_inv c /\ (r = None -> mid_state (frost_state c) = true)) (fun _ c => frost_inv c).
Proof.
  assert (forall {A} (o : A), Some o = None -> False) as Hsome by done.
  intros c [Hi Hk]. unfold frost_turn. unfold st_bind at 1. cbn [st_get].
  destruct (frost_state c) eqn:Hs.
  - pose proof (idle_triple m c (conj Hi Hs)) as Ht. destruct (frost_idle m c) as [c' []]; [|done..]. naive_solver.
  - pose proof (start_public_triple CsDkgPublicDistribute eq_refl c (conj Hi Hs)) as Ht. unfold st_bind, st_ret.
    by destruct (frost_start_public_shares c) as [c' []].
  - pose proof (gather_public_triple m c (conj Hi Hs)) as Ht. unfold st_bind, st_ret, st_get.
    destruct (frost_gather_public_shares m c) as [c' []]; [|done..]. destruct Ht as [? [Hs'|Hs']]; rewrite Hs'; simpl; by split.
  - unfold frost_start_private_shares. st_unfold. simpl. rewrite Hs. simpl. destruct Hi as (? & ? & ?). by split.
  - pose proof (gather_private_triple m c (conj Hi Hs)) as Ht. unfold st_bind, st_ret, st_get.
    destruct (frost_gather_private_shares m c) as [c' []]; [|done..]. destruct Ht as [? [Hs'|Hs']]; rewrite Hs'; simpl; by split.
  - unfold frost_start_dkg_end. st_unfold. simpl. rewrite Hs. simpl. destruct Hi as (? & ? & ?). by split.
  - by apply dkg_end_turn_triple.
  - pose proof (request_nonces_triple t c (conj Hi Hs)) as Ht. unfold st_bind, st_ret.
    by destruct (frost_request_nonces t c) as [c' []].
  - pose proof (gather_nonces_triple m t c (conj Hi Hs)) as Ht. unfold st_bind, st_ret, st_get.
    destruct (frost_gather_nonces m t c) as [c' []]; [|done..].
    destruct Ht as [? [Hs'|Hs']]; rewrite Hs'; [rewrite bool_decide_eq_true_2 by done|rewrite bool_decide_eq_false_2 by done]; by split.
  - pose proof (request_sig_shares_triple t c (conj Hi Hs)) as Ht. unfold st_bind, st_ret.
    by destruct (frost_request_sig_shares t c) as [c' []].
  - by apply sig_share_turn_triple.
Qed.

Lemma mid_turn_some m c : mid_state (frost_state c) = true ->
  match (frost_turn m c).2 with Ok None => False | _ => True end.
Proof.
  unfold frost_turn. unfold st_bind at 1. cbn [st_get]. destruct (frost_state c); try done; intros _; unfold st_bind at 1.
  - by destruct (frost_start_private_shares c) as [c' []].
  - by destruct (frost_start_dkg_end c) as [c' []].
  - by destruct (frost_request_sig_shares t c) as [c' []].
Qed.

Lemma process_message_triple m :
  triple (fun c => frost_inv c /\ frost_key_ok c) (frost_process_message m) (fun _ c => frost_inv c) (fun _ c => frost_inv c).
Proof.
  intros c Hc. unfold frost_process_message. cbn [frost_loop]. unfold st_bind at 1.
  pose proof (turn_triple m c Hc) as Ht. destruct (frost_turn m c) as [c1 [[r|]|e| |]]; try done; [by destruct Ht|].
  destruct Ht as [Hi Hm]. specialize (Hm eq_refl). unfold st_bind at 1.
  assert (frost_key_ok c1) as Hk by (intros root Hs; by rewrite Hs in Hm).
  pose proof (turn_triple m c1 (conj Hi Hk)) as Ht. pose proof (mid_turn_some m c1 Hm) as Hne.
  destruct (frost_turn m c1) as [c2 [[r|]|e| |]]; try done. by destruct Ht.
Qed.
End InvariantProofs.

(** ** Rounds complete *)
Section Rounds.
Context `{WstsCryptoLaws}.
Implicit Types (c : FrostCoordinator).

(** Taking a nonce response or a share. *)
Definition take_nonce (m : NetNonceResponse) c : FrostCoordinator :=
  frost_set_ids_to_await (frost_ids_to_await c ∖ {[nr_signer_id m]})
    (frost_set_public_nonces (<[nr_signer_id m := m]> (frost_public_nonces c)) c).
Definition take_share (m : NetSignatureShareResponse) c : FrostCoordinator :=
  frost_set_ids_to_await (frost_ids_to_await c ∖ {[sr_signer_id m]})
    (frost_set_signature_shares (<[sr_signer_id m := sr_signature_shares m]> (frost_signature_shares c)) c).

Lemma loop_one c m c1 r : frost_turn m c = (c1, Ok (Some r)) -> frost_process_message m c = (c1, Ok r).
Proof. intros Ht. unfold frost_process_message. cbn [frost_loop]. unfold st_bind. by rewrite Ht. Qed.
Lemma loop_two c m c1 c2 r : frost_turn m c = (c1, Ok None) -> frost_turn m c1 = (c2, Ok (Some r)) ->
  frost_process_message m c = (c2, Ok r).
Proof. intros Ht Ht'. unfold frost_process_message. cbn [frost_loop]. unfold st_bind. by rewrite Ht, Ht'. Qed.

Lemma gather_nonce_eq c t m : frost_check_nonces c m = Ok true ->
  frost_gather_nonces (MsgNonceResponse m) t c =
    if bool_decide (frost_ids_to_await (take_nonce m c) = ∅) then frost_move_to (CsSigShareRequest t) (take_nonce m c)
    else (take_nonce m c, Ok tt).
Proof.
  intros Hck. unfold frost_gather_nonces, st_bind, st_get, st_lift. rewrite Hck. unfold st_modify. cbn [negb].
  fold (take_nonce m c). by case_bool_decide.
Qed.

Lemma process_nonce c t m : frost_state c = CsNonceGather t -> frost_check_nonces c m = Ok true ->
  frost_ids_to_await (take_nonce m c) <> ∅ ->
  frost_process_message (MsgNonceResponse m) c = (take_nonce m c, Ok (None, None)).
Proof.
  intros Hs Hck Ha. apply loop_one. unfold frost_turn, st_bind, st_get. rewrite Hs, gather_nonce_eq by done.
  rewrite bool_decide_eq_false_2 by done. change (frost_state (take_nonce m c)) with (frost_state c).
  by rewrite Hs, bool_decide_eq_true_2.
Qed.

Lemma request_shares_turn c t m rs : frost_state c = CsSigShareRequest t ->
  index_all (frost_public_nonces c) (signer_range (frost_config c)) = Some rs ->
  frost_turn m c =
    (frost_set_state (CsSigShareGather t) (frost_set_ids_to_await (all_signer_ids c) (frost_set_signature_shares ∅ c)),
     Ok (send (MsgSignatureShareRequest (mkSignatureShareRequest (frost_current_dkg_id c) (frost_current_sign_id c)
       (frost_current_sign_iter_id c) rs (frost_message c) t)))).
Proof.
  intros Hs Hrs. unfold frost_turn, st_bind, st_get. rewrite Hs. unfold frost_request_sig_shares, frost_nonce_responses.
  st_unfold. cbn [frost_set_signature_shares frost_config frost_public_nonces frost_state frost_set_ids_to_await].
  unfold signer_range in Hrs. rewrite Hrs. cbn [or_panic]. rewrite Hs. cbn [frost_can_move_to].
  by rewrite bool_decide_eq_true_2.
Qed.

(** The last awaited response: the coordinator asks for the shares. *)
Lemma process_last_nonce c t m rs : frost_state c = CsNonceGather t -> frost_check_nonces c m = Ok true ->
  frost_ids_to_await (take_nonce m c) = ∅ ->
  index_all (frost_public_nonces (take_nonce m c)) (signer_range (frost_config c)) = Some rs ->
  frost_process_message (MsgNonceResponse m) c =
    (frost_set_state (CsSigShareGather t) (frost_set_ids_to_await (all_signer_ids c)
       (frost_set_signature_shares ∅ (take_nonce m c))),
     Ok (Some (MsgSignatureShareRequest (mkSignatureShareRequest (frost_current_dkg_id c) (frost_current_sign_id c)
       (frost_current_sign_iter_id c) rs (frost_message c) t)), None)).
Proof.
  intros Hs Hck Ha Hrs. eapply loop_two.
  - unfold frost_turn, st_bind, st_get. rewrite Hs, gather_nonce_eq by done. rewrite bool_decide_eq_true_2 by done.
    st_unfold. cbn [take_nonce frost_state frost_set_ids_to_await frost_set_public_nonces]. rewrite Hs. cbn [frost_can_move_to].
    rewrite bool_decide_eq_true_2 by done. cbn [frost_set_state frost_state]. by rewrite bool_decide_eq_false_2.
  - by erewrite request_shares_turn.
Qed.

(** The responses of the awaited signers, in any order, lead to the request
    for shares with the responses in the order of the signers. *)
Lemma nonces_round c t ms rs : frost_state c = CsNonceGather t -> ms <> [] ->
  Forall (fun m => frost_check_nonces c m = Ok true) ms -> NoDup (map nr_signer_id ms) ->
  frost_ids_to_await c = list_to_set (map nr_signer_id ms) ->
  index_all (foldl (fun n m => <[nr_signer_id m := m]> n) (frost_public_nonces c) ms) (signer_range (frost_config c)) = Some rs ->
  exists c', frost_process_inbound_messages (map MsgNonceResponse ms) c =
    (c', Ok ([MsgSignatureShareRequest (mkSignatureShareRequest (frost_current_dkg_id c) (frost_current_sign_id c)
      (frost_current_sign_iter_id c) rs (frost_message c) t)], [])) /\
    c' = frost_set_state (CsSigShareGather t) (frost_set_ids_to_await (all_signer_ids c)
      (frost_set_signature_shares ∅
        (frost_set_public_nonces (foldl (fun n m => <[nr_signer_id m := m]> n) (frost_public_nonces c) ms) c))).
Proof.
  revert c. induction ms as [|m ms IH]; intros c Hs Hne Hck Hnd Ha Hrs; [done|].
  apply Forall_cons in Hck as [Hm Hck]. cbn [map] in Hnd. apply NoDup_cons in Hnd as [Hni Hnd].
  assert (frost_ids_to_await (take_nonce m c) = list_to_set (map nr_signer_id ms)) as Ha'.
  { cbn. rewrite Ha. cbn [map list_to_set]. clear -Hni. set_solver. }
  cbn [map frost_process_inbound_messages]. unfold st_bind at 1. destruct ms as [|m' ms].
  - erewrite (process_last_nonce c t m rs) by done. cbn. eauto.
  - rewrite (process_nonce c t m) by (try done; rewrite Ha'; set_solver).
    edestruct (IH (take_nonce m c)) as (c' & Hp & ->); try done.
    unfold st_bind. rewrite Hp. cbn. eauto.
Qed.

Lemma gather_share_eq c t m : frost_check_shares c m = Ok true ->
  frost_gather_sig_shares (MsgSignatureShareResponse m) t c =
    if bool_decide (frost_ids_to_await (take_share m c) = ∅) then frost_aggregate t (take_share m c)
    else (take_share m c, Ok tt).
Proof.
  intros Hck. unfold frost_gather_sig_shares, st_bind, st_get, st_lift. rewrite Hck. unfold st_modify. cbn [negb].
  fold (take_share m c). by case_bool_decide.
Qed.

Lemma process_share c t m : frost_state c = CsSigShareGather t -> frost_check_shares c m = Ok true ->
  frost_ids_to_await (take_share m c) <> ∅ ->
  frost_process_message (MsgSignatureShareResponse m) c = (take_share m c, Ok (None, None)).
Proof.
  intros Hs Hck Ha. apply loop_one. unfold frost_turn, frost_sig_share_turn, st_catch, st_bind, st_get.
  rewrite Hs, gather_share_eq by done. rewrite bool_decide_eq_false_2 by done. cbn [st_ret].
  change (frost_state (take_share m c)) with (frost_state c). by rewrite Hs, bool_decide_eq_true_2.
Qed.

(** What the aggregator answers for the inputs of [c] in a taproot round. *)
Definition taproot_answer c (root : option (list Z)) (nonces : list PublicNonce) (key_ids : list Z)
    (shares : list SignatureShare) : outcome AggregatorError SchnorrProof :=
  _ ← (aggregator_init (frost_aggregator c) (frost_party_polynomials c)).2;
  aggregator_sign_taproot (aggregator_init (frost_aggregator c) (frost_party_polynomials c)).1 (frost_message c)
    nonces shares key_ids root.

Lemma process_last_share c root m nonces key_ids shares p :
  frost_state c = CsSigShareGather (Taproot root) -> frost_check_shares c m = Ok true ->
  frost_ids_to_await (take_share m c) = ∅ ->
  frost_aggregation_inputs (take_share m c) = Ok (nonces, key_ids, shares) ->
  taproot_answer c root nonces key_ids shares = Ok p ->
  exists c', frost_process_message (MsgSignatureShareResponse m) c = (c', Ok (None, Some (ResSignTaproot p))) /\
    frost_state c' = CsIdle.
Proof.
  intros Hs Hck Ha Hin Hans. unfold taproot_answer in Hans. apply bind_ok_inv in Hans as ([] & Hi & Hp).
  eexists. split.
  - apply loop_one. unfold frost_turn, frost_sig_share_turn, st_catch, st_bind, st_get.
    rewrite Hs, gather_share_eq by done. rewrite bool_decide_eq_true_2 by done.
    unfold frost_aggregate, st_bind, st_get, st_modify, st_lift. rewrite Hin.
    cbn [take_share frost_set_ids_to_await frost_set_signature_shares frost_aggregator frost_party_polynomials]. rewrite Hi.
    cbn [map_err frost_aggregator frost_set_aggregator frost_message].
    change (frost_message (take_share m c)) with (frost_message c). rewrite Hp. cbn [map_err]. st_unfold.
    cbn [frost_can_move_to frost_set_state frost_state st_ret]. rewrite bool_decide_eq_false_2, bool_decide_eq_true_2 by done.
    reflexivity.
  - done.
Qed.

Lemma shares_round c root ms nonces key_ids shares p :
  frost_state c = CsSigShareGather (Taproot root) -> ms <> [] ->
  Forall (fun m => frost_check_shares c m = Ok true) ms -> NoDup (map sr_signer_id ms) ->
  frost_ids_to_await c = list_to_set (map sr_signer_id ms) ->
  frost_aggregation_inputs (frost_set_signature_shares
    (foldl (fun n m => <[sr_signer_id m := sr_signature_shares m]> n) (frost_signature_shares c) ms) c)
    = Ok (nonces, key_ids, shares) ->
  taproot_answer c root nonces key_ids shares = Ok p ->
  exists c', frost_process_inbound_messages (map MsgSignatureShareResponse ms) c = (c', Ok ([], [ResSignTaproot p])) /\
    frost_state c' = CsIdle.
Proof.
  revert c. induction ms as [|m ms IH]; intros c Hs Hne Hck Hnd Ha Hin Hans; [done|].
  apply Forall_cons in Hck as [Hm Hck]. cbn [map] in Hnd. apply NoDup_cons in Hnd as [Hni Hnd].
  assert (frost_ids_to_await (take_share m c) = list_to_set (map sr_signer_id ms)) as Ha'.
  { cbn. rewrite Ha. cbn [map list_to_set]. clear -Hni. set_solver. }
  cbn [map frost_process_inbound_messages]. unfold st_bind at 1. destruct ms as [|m' ms].
  - destruct (process_last_share c root m nonces key_ids shares p) as (c' & -> & Hc'); try done. cbn. eauto.
  - rewrite (process_share c (Taproot root) m) by (try done; rewrite Ha'; set_solver).
    edestruct (IH (take_share m c)) as (c' & Hp & Hc'); try done.
    unfold st_bind. rewrite Hp. cbn. eauto.
Qed.
End Rounds.

(** ** A whole signing round *)
Section SigningRound.
Context `{WstsCryptoLaws}.
Implicit Types (c : FrostCoordinator).

Lemma foldl_insert_lookup {A B} (key : A -> Z) (val : A -> B) ms (base : gmap Z B) i :
  NoDup (map key ms) ->
  foldl (fun n m => <[key m := val m]> n) base ms !! i =
    match list_find (fun m => key m = i) ms with Some (_, m) => Some (val m) | None => base !! i end.
Proof.
  revert base. induction ms as [|m ms IH]; intros base Hnd; [done|]. cbn [map] in Hnd. apply NoDup_cons in Hnd as [Hni Hnd].
  cbn [foldl list_find]. rewrite IH by done. case_decide as Hk.
  - replace (list_find (fun m => key m = i) ms) with (@None (nat * A)); [subst; by rewrite lookup_insert_eq|].
    symmetry. apply list_find_None, Forall_forall. intros m' Hm' Heq. apply Hni. rewrite Hk, <- Heq.
    apply list_elem_of_In, in_map, list_elem_of_In. done.
  - rewrite lookup_insert_ne by done. by destruct (list_find _ ms) as [[]|].
Qed.

(** Entries inserted in any order are found under their keys. *)
Lemma index_all_perm {A B} (key : A -> Z) (val : A -> B) ms rs : ms ≡ₚ rs -> NoDup (map key rs) ->
  index_all (foldl (fun n m => <[key m := val m]> n) ∅ ms) (map key rs) = Some (map val rs).
Proof.
  intros Hp Hnd. assert (NoDup (map key ms)) as Hnd' by (by rewrite Hp).
  apply mapM_Some. apply Forall2_fmap_l, Forall2_fmap_r, Forall_Forall2_diag, Forall_forall. intros m Hm.
  unfold compose. rewrite (foldl_insert_lookup key val) by done. destruct (list_find _ ms) as [[j m']|] eqn:Hf.
  - apply list_find_Some in Hf as (Hj & Hk & _). do 2 f_equal.
    assert (m' ∈ rs) as Hm' by (rewrite <- Hp; eapply list_elem_of_lookup_2; eauto).
    apply list_elem_of_lookup in Hm as [x Hx]. apply list_elem_of_lookup in Hm' as [y Hy].
    assert (x = y); [|congruence]. eapply (NoDup_lookup (map key rs)); [done|..]; rewrite list_lookup_fmap; by rewrite ?Hx, ?Hy; cbn; rewrite ?Hk.
  - apply list_find_None in Hf. rewrite Forall_forall in Hf. rewrite <- Hp in Hm. by apply Hf in Hm.
Qed.

Lemma foldl_insert_dom {A B} (key : A -> Z) (val : A -> B) ms i : NoDup (map key ms) ->
  is_Some (foldl (fun n m => <[key m := val m]> n) (∅ : gmap Z B) ms !! i) <-> i ∈ map key ms.
Proof.
  intros Hnd. rewrite (foldl_insert_lookup key val) by done. destruct (list_find _ ms) as [[j m]|] eqn:Hf.
  - apply list_find_Some in Hf as (Hj & <- & _). split; [|by eauto]. intros _. apply list_elem_of_In, in_map, list_elem_of_In.
    by eapply list_elem_of_lookup_2.
  - apply list_find_None in Hf. rewrite Forall_forall in Hf. split; [by intros []|]. intros (m & <- & Hm)%list_elem_of_In%in_map_iff.
    apply list_elem_of_In in Hm. by apply Hf in Hm.
Qed.

Lemma start_signing_eq c message t key : frost_state c = CsIdle -> frost_aggregate_public_key c = Some key ->
  frost_start_signing_round message t c =
    let c' := frost_set_state (CsNonceGather t) (frost_set_ids_to_await (all_signer_ids c) (frost_set_public_nonces ∅
      (frost_set_current_sign_id (wrapping_succ (frost_current_sign_id c)) (frost_set_message message c)))) in
    (c', Ok (MsgNonceRequest (mkNonceRequest (frost_current_dkg_id c) (frost_current_sign_id c') (frost_current_sign_iter_id c) message t))).
Proof.
  intros Hs Hk. unfold frost_start_signing_round, frost_request_nonces. st_unfold.
  rewrite bool_decide_eq_false_2 by (by rewrite Hk).
  cbn [frost_state frost_set_current_sign_id frost_set_message]. rewrite Hs. cbn [frost_can_move_to].
  rewrite bool_decide_eq_true_2 by done. cbn [orb frost_set_state frost_state frost_set_public_nonces frost_set_ids_to_await frost_can_move_to].
  by rewrite bool_decide_eq_true_2.
Qed.

(** A signing round completes. After [start_signing_round], nonce responses
    and then signature shares that pass the coordinator's checks, one of each
    from every signer and delivered in any order, make the coordinator request
    the shares with the responses in the order of the signers and then return
    the taproot signature the aggregator computes from nonces, keys and shares
    in that same order, ending idle. *)
Theorem frost_signing_completes c c0 message root key req nonce_ms share_ms rs ss p :
  frost_state c = CsIdle -> frost_aggregate_public_key c = Some key -> 0 < cfg_num_signers (frost_config c) ->
  frost_start_signing_round message (Taproot root) c = (c0, Ok req) ->
  nonce_ms ≡ₚ rs -> map nr_signer_id rs = signer_range (frost_config c) ->
  share_ms ≡ₚ ss -> map sr_signer_id ss = signer_range (frost_config c) ->
  Forall (fun m => frost_check_nonces c0 m = Ok true) rs -> Forall (fun m => frost_check_shares c0 m = Ok true) ss ->
  taproot_answer c0 root (concat (map nr_nonces rs)) (concat (map nr_key_ids rs)) (concat (map sr_signature_shares ss)) = Ok p ->
  exists c1 c2 sreq,
    frost_process_inbound_messages (map MsgNonceResponse nonce_ms) c0 = (c1, Ok ([MsgSignatureShareRequest sreq], [])) /\
    sq_nonce_responses sreq = rs /\
    frost_process_inbound_messages (map MsgSignatureShareResponse share_ms) c1 = (c2, Ok ([], [ResSignTaproot p])) /\
    frost_state c2 = CsIdle.
Proof.
  intros Hs Hk Hn Hst Hpn Hrs Hps Hss Hcn Hcs Hans. rewrite (start_signing_eq _ _ _ key) in Hst by done. cbv zeta in Hst. simplify_eq.
  match type of Hans with taproot_answer ?c' _ _ _ _ = _ => set (d := c') in * end.
  assert (NoDup (signer_range (frost_config c))) as Hnd by apply NoDup_seqZ.
  assert (signer_range (frost_config c) <> []) as Hne.
  { unfold signer_range, id_range. rewrite seqZ_cons by lia. done. }
  destruct (nonces_round d (Taproot root) nonce_ms rs) as (c1 & Hp1 & Hc1).
  { done. } { intros ->. apply Permutation_nil_l in Hpn. subst. done. } { by rewrite Hpn. }
  { by rewrite Hpn, Hrs. } { unfold d. cbn. unfold all_signer_ids. rewrite Hpn, Hrs. done. }
  { unfold d. cbn. change (id_range _) with (signer_range (frost_config c)). rewrite <- Hrs.
    rewrite <- (map_id rs) at 2. apply (index_all_perm nr_signer_id id); [done|]. by rewrite Hrs. }
  exists c1. destruct (shares_round c1 root share_ms (concat (map nr_nonces rs)) (concat (map nr_key_ids rs))
    (concat (map sr_signature_shares ss)) p) as (c2 & Hp2 & Hc2).
  { by subst c1. } { intros ->. apply Permutation_nil_l in Hps. subst. done. } { subst c1. by rewrite Hps. }
  { by rewrite Hps, Hss. } { subst c1. cbn. unfold all_signer_ids. rewrite Hps, Hss. done. }
  2: { by subst c1. }
  2: { exists c2. eexists. split_and!; [exact Hp1|done|exact Hp2|done]. }
  subst c1. unfold frost_aggregation_inputs, frost_nonce_responses. cbn. change (id_range _) with (signer_range (frost_config c)).
  rewrite (btree_list_keys _ (signer_range (frost_config c))); [|apply seqZ_sorted_lt|].
  2: { intros i. rewrite foldl_insert_dom by (by rewrite Hpn, Hrs). by rewrite Hpn, Hrs. }
  rewrite <- Hrs at 1. rewrite (index_all_perm nr_signer_id id) by (try done; by rewrite Hrs). rewrite map_id.
  cbn. rewrite <- Hss. rewrite (index_all_perm sr_signer_id sr_signature_shares) by (try done; by rewrite Hss). done.
Qed.
End SigningRound.
