(* ===== verification/FrostVerification.v ===== *)
(** The DKG verification machine over the FROST coordinator.

    Source: src/signer/src/dkg/verification.rs, src/wsts/src/state_machine/
    coordinator/frost.rs.

    [frost_ops] makes the FROST coordinator of [WstsFrost] the coordinator of
    the verification machine of [DkgVerification].  The machine hands the
    coordinator signing messages only, so the polynomials of the key stay as
    they were loaded and no sequence of messages makes it panic
    ([verification_safe]).  [reset] drops the polynomials
    ([reset_forgets_key]). *)

From S2P Require Import Prelude Effects Types WstsNet DkgVerification WstsFrost.

(** ** The coordinator of the machine *)
Section FrostInstance.
Context `{WstsCrypto}.
(** [PublicKey::try_from(point)] *)
Variable public_key_of : Point -> option PublicKey.

Definition frost_ops : FrostOps FrostCoordinator := {|
  coordinator_state := frost_state;
  coordinator_process_message c m := frost_process_message m c;
  coordinator_reset := frost_reset;
  signer_public_keys c := public_key_of <$> cfg_signer_public_keys (frost_config c) |}.
End FrostInstance.

(** ** Frames: what a handler leaves unchanged *)
Section Frames.
Context `{WstsCrypto}.
Implicit Types (c : FrostCoordinator).
(** The states of a signing round. *)
Definition signing_state (s : CoordinatorState) : bool :=
  match s with
  | CsIdle | CsNonceRequest _ | CsNonceGather _ | CsSigShareRequest _ | CsSigShareGather _ => true
  | _ => false
  end.
Definition signing_with (p : gmap Z PolyCommitment) c : Prop :=
  frost_party_polynomials c = p /\ signing_state (frost_state c) = true.

Lemma framed_move_to p next : signing_state next = true -> framed (signing_with p) (frost_move_to next).
Proof. intros Hn c [Hp Hs]. unfold frost_move_to. st_unfold. by destruct (frost_can_move_to _ _). Qed.
End Frames.
#[global] Hint Resolve framed_move_to : frames.

Section SigningFrames.
Context `{WstsCrypto} (p : gmap Z PolyCommitment).
Abbreviation I := (signing_with p).

Lemma framed_request_nonces t : framed I (frost_request_nonces t).
Proof. unfold frost_request_nonces. frame. Qed.
Lemma framed_gather_nonces m t : framed I (frost_gather_nonces m t).
Proof. unfold frost_gather_nonces. frame. Qed.
Lemma framed_request_sig_shares t : framed I (frost_request_sig_shares t).
Proof. unfold frost_request_sig_shares. frame. Qed.
Lemma framed_gather_sig_shares m t : framed I (frost_gather_sig_shares m t).
Proof. unfold frost_gather_sig_shares, frost_aggregate. frame. Qed.
Lemma framed_start_signing m t : framed I (frost_start_signing_round m t).
Proof. unfold frost_start_signing_round. frame. apply framed_request_nonces. Qed.
Lemma framed_signed t : framed I (frost_signed t).
Proof. unfold frost_signed, st_ok_or. frame. Qed.

(** A message that does not begin a DKG round keeps the coordinator signing. *)
Lemma framed_turn m : message_type m <> DkgBegin -> framed I (frost_turn m).
Proof.
  intros Hm c Hc. unfold frost_turn. unfold st_bind at 1. cbn [st_get]. destruct Hc as [Hp Hs]. revert Hs.
  assert (forall {A} (n : st FrostCoordinator CoordinatorError A), framed I n -> signing_state (frost_state c) = true -> I (n c).1) as Hf
    by (intros A n Hn Hs; by apply Hn).
  destruct (frost_state c); try done; apply Hf.
  - unfold frost_idle. frame; [done|apply framed_start_signing].
  - frame. apply framed_request_nonces.
  - frame. apply framed_gather_nonces.
  - frame. apply framed_request_sig_shares.
  - unfold frost_sig_share_turn. frame; [apply framed_gather_sig_shares|apply framed_signed].
Qed.
Lemma framed_loop fuel m : message_type m <> DkgBegin -> framed I (frost_loop fuel m).
Proof. intros Hm. induction fuel as [|fuel IH]; cbn [frost_loop]; frame; by apply framed_turn. Qed.
End SigningFrames.

(** ** The machine never panics *)
Section Safe.
Context `{WstsCryptoLaws} (public_key_of : Point -> option PublicKey).
#[local] Existing Instance frost_ops.
Abbreviation FM := (StateMachine FrostCoordinator).
Implicit Types (c : FrostCoordinator) (sm : FM).

(** A coordinator with a loaded key: its polynomials add up to a point other
    than the point at infinity. *)
Definition key_loaded c : Prop :=
  frost_inv c /\ signing_state (frost_state c) = true /\
  sum_constant_terms (map_to_list (frost_party_polynomials c)) <> point_default.

Lemma processable_no_dkg s m : processable_type s = Some (message_type m) -> message_type m <> DkgBegin.
Proof. destruct s; cbn; congruence. Qed.

Lemma key_loaded_step c m : key_loaded c -> message_type m <> DkgBegin ->
  key_loaded (frost_process_message m c).1 /\ ~ crashed (frost_process_message m c).2.
Proof.
  intros (Hi & Hs & Hk) Hm.
  pose proof (framed_loop (frost_party_polynomials c) 2 m Hm c (conj eq_refl Hs)) as [Hp' Hs'].
  fold (frost_process_message m) in Hp', Hs'.
  pose proof (process_message_triple m c (conj Hi (fun _ _ => Hk))) as Ht.
  unfold key_loaded. destruct (frost_process_message m c) as [c' r]. cbn [fst snd] in *. rewrite Hp'.
  destruct r; cbn [crashed]; tauto.
Qed.

Lemma key_loaded_feeds c ms c' : feeds (FrostOps0 := frost_ops public_key_of) c ms c' -> key_loaded c -> key_loaded c'.
Proof. induction 1 as [|c m ms c' Ht _ IH]; [done|]. intros Hc. apply IH, key_loaded_step; [done|by eapply processable_no_dkg]. Qed.

Lemma key_loaded_no_crash c : key_loaded c -> ~ crash_from (FrostOps0 := frost_ops public_key_of) c.
Proof.
  intros Hc (fed & c0 & m & Hf & Ht & Hcr). apply key_loaded_feeds in Hf; [|done].
  apply (key_loaded_step c0 m) in Hf as [_ Hn]; [done|by eapply processable_no_dkg].
Qed.

(** The machines that receive messages and are never reset. *)
Inductive verifying (c0 : FrostCoordinator) : FM -> Prop :=
| verifying_new k timeout now : verifying c0 (state_machine_new c0 k timeout now)
| verifying_message sm now sender msg : verifying c0 sm ->
    verifying c0 (process_message (FrostOps0 := frost_ops public_key_of) now sender msg sm).1.

Lemma verifying_reachable c0 sm : verifying c0 sm -> sm_reachable (FrostOps0 := frost_ops public_key_of) sm.
Proof. induction 1; by constructor. Qed.

Lemma verifying_loaded c0 sm : key_loaded c0 -> verifying c0 sm -> key_loaded (sm_coordinator sm).
Proof.
  intros Hc. induction 1 as [|sm now sender msg Hv IH]; [done|].
  destruct (process_message now sender msg sm) as [sm' r] eqn:Hp. apply verifying_reachable, reachable_ok in Hv.
  apply process_message_cases in Hp as [(e & -> & _)|(_ & _ & _ & fed & [Hf _ _] & _)]; [|by eapply key_loaded_feeds|done].
  cbn. unfold expire. by destruct (is_expired now sm).
Qed.

(** Whatever messages arrive, the machine over the FROST coordinator answers
    each with success or an error, provided the coordinator was loaded with a
    key whose polynomials do not add up to the point at infinity. *)
Lemma verification_safe c0 sm now sender msg :
  key_loaded c0 -> verifying c0 sm ->
  ~ crashed (process_message (FrostOps0 := frost_ops public_key_of) now sender msg sm).2.
Proof.
  intros Hc Hv. destruct (process_message now sender msg sm) as [sm' r] eqn:Hp.
  apply (verifying_loaded _ _ Hc) in Hv as Hl. apply verifying_reachable, reachable_ok in Hv.
  apply process_message_cases in Hp as [(e & _ & ->)|(_ & _ & _ & fed & _ & _ & Hr)]; [by intros []| |done].
  intros Hcr. apply (key_loaded_no_crash _ Hl). by destruct r.
Qed.

(** [reset] forgets the polynomials of the key, not the key. *)
Lemma reset_forgets_key sm now : let c := sm_coordinator (state_machine_reset (FrostOps0 := frost_ops public_key_of) now sm) in
  frost_party_polynomials c = ∅ /\ frost_aggregate_public_key c = frost_aggregate_public_key (sm_coordinator sm) /\
  ~ key_loaded c.
Proof. split_and!; [done|done|]. intros (_ & _ & Hn). by apply Hn. Qed.
End Safe.

(** ** A concrete round *)

(** Integers in place of curve points: enough to run the machines. *)
Definition demo_sum (polys : gmap Z Z) : Z := foldl (fun s e => s + e.2) 0 (map_to_list polys).
Definition demo_crypto : WstsCrypto := {|
  Point := Z; point_default := 0; point_add := Z.add;
  Scalar := Z; scalar_base s := s; scalar_try_from l := head l;
  PolyCommitment := Z; constant_term p := p; check_public_shares _ _ := true; compute_poly _ p := Some p;
  PublicNonce := Z; public_nonce_is_valid n := negb (n =? 0);
  SignatureShare := Z * list Z; share_key_ids := snd; Signature := Z; SchnorrProof := list Z;
  TupleProof := unit; tuple_proof_verify _ _ _ _ := true; decrypt _ l := Some l;
  AggregatorError := unit; Aggregator := Z; aggregator_new _ _ := 0;
  aggregator_init _ polys := (demo_sum polys, Ok tt);
  aggregator_sign a _ nonces shares _ := Ok (foldl Z.add a (nonces ++ map fst shares));
  aggregator_sign_schnorr a _ nonces shares _ := Ok (a :: nonces ++ map fst shares);
  aggregator_sign_taproot a _ nonces shares _ _ := if a =? 0 then Panic else Ok (a :: nonces ++ map fst shares) |}.
#[local] Existing Instance demo_crypto.

Lemma demo_laws : WstsCryptoLaws.
Proof.
  split; try (intros; by intros []). intros a polys msg nonces shares ids root _ Hk.
  cbn in *. unfold demo_sum. destruct (Z.eqb_spec (foldl (fun s e => s + e.2) 0 (map_to_list polys)) 0); [done|by intros []].
Qed.
#[local] Existing Instance demo_laws.

Definition demo_config : Config := mkConfig 2 2 2 2 7 {[0 := {[1]}; 1 := {[2]}]} {[0 := 10; 1 := 20]}.
Definition demo_frost : FrostCoordinator :=
  frost_set_party_polynomials {[0 := 5; 1 := 6]} (frost_set_aggregate_public_key (Some 11) (frost_new demo_config)).

Lemma demo_config_ok : config_ok demo_config.
Proof.
  intros i [k Hk]. cbn in Hk. apply lookup_insert_Some in Hk as [[<- _]|[_ Hk]]; [|apply lookup_singleton_Some in Hk as [<- _]];
    apply (bool_decide_unpack _); by vm_compute.
Qed.
Lemma demo_frost_inv : frost_inv demo_frost.
Proof. split_and!; [exact demo_config_ok| |done]. intros i. cbn. rewrite lookup_empty. by intros []. Qed.
Lemma demo_loaded : key_loaded demo_frost.
Proof. split_and!; [exact demo_frost_inv|done|]. by vm_compute. Qed.

Definition demo_nonces (i : Z) : NetNonceResponse := mkNonceResponse 0 1 0 i [i + 1] [100 + i] [9].
Definition demo_shares (i : Z) : NetSignatureShareResponse := mkSignatureShareResponse 0 1 0 i [(200 + i, [i + 1])].

Lemma frost_signing_completes_witness : exists c0 req c1 c2 sreq,
  frost_start_signing_round [9] (Taproot None) demo_frost = (c0, Ok req) /\
  frost_process_inbound_messages [MsgNonceResponse (demo_nonces 1); MsgNonceResponse (demo_nonces 0)] c0 =
    (c1, Ok ([MsgSignatureShareRequest sreq], [])) /\
  sq_nonce_responses sreq = [demo_nonces 0; demo_nonces 1] /\
  frost_process_inbound_messages [MsgSignatureShareResponse (demo_shares 1); MsgSignatureShareResponse (demo_shares 0)] c1 =
    (c2, Ok ([], [ResSignTaproot [11; 100; 101; 200; 201]])).
Proof.
  eexists _, _.
  destruct (frost_signing_completes demo_frost (frost_start_signing_round [9] (Taproot None) demo_frost).1 [9] None 11
    (MsgNonceRequest (mkNonceRequest 0 1 0 [9] (Taproot None)))
    [demo_nonces 1; demo_nonces 0] [demo_shares 1; demo_shares 0] [demo_nonces 0; demo_nonces 1]
    [demo_shares 0; demo_shares 1] [11; 100; 101; 200; 201]) as (c1 & c2 & sreq & Hp1 & Hr & Hp2 & _);
    [by vm_compute..|apply perm_swap|by vm_compute|apply perm_swap|by vm_compute
    |repeat constructor; by vm_compute|repeat constructor; by vm_compute|by vm_compute|].
  exists c1, c2, sreq. split_and!; [|exact Hp1|exact Hr|exact Hp2]. by vm_compute.
Defined.

(** The machine: the responses and shares of both signers arrive before the
    request that starts the round. *)
Definition demo_key (p : Z) : option PublicKey := Some (p + 1).
#[local] Instance demo_ops : FrostOps FrostCoordinator := @frost_ops demo_crypto demo_key.
Definition demo_request : Message := MsgNonceRequest (mkNonceRequest 0 1 0 [9] (Taproot None)).
Definition demo_run (sm : StateMachine FrostCoordinator) : StateMachine FrostCoordinator :=
  let sm := (process_message 1 11 (MsgNonceResponse (demo_nonces 0)) sm).1 in
  let sm := (process_message 2 21 (MsgSignatureShareResponse (demo_shares 1)) sm).1 in
  let sm := (process_message 3 21 (MsgNonceResponse (demo_nonces 1)) sm).1 in
  (process_message 4 11 (MsgSignatureShareResponse (demo_shares 0)) sm).1.
Definition demo_machine : StateMachine FrostCoordinator := demo_run (state_machine_new demo_frost 0 (Some 60) 0).

Lemma demo_machine_reachable : sm_reachable demo_machine.
Proof. unfold demo_machine, demo_run. do 4 apply reach_message. apply reach_new. Qed.
Lemma demo_verifying : @verifying demo_crypto demo_key demo_frost demo_machine.
Proof. unfold demo_machine, demo_run. do 4 apply (@verifying_message demo_crypto demo_key). apply verifying_new. Qed.

Lemma dkg_messages_delivered_witness : exists fed,
  feeds demo_frost fed (sm_coordinator (process_message 5 11 demo_request demo_machine).1).
Proof.
  destruct (dkg_messages_delivered demo_machine (process_message 5 11 demo_request demo_machine).1 5 11 demo_request
    (process_message 5 11 demo_request demo_machine).2) as (fed & arrived & Hf & _);
    [exact demo_machine_reachable|by destruct (process_message _ _ _ _)|]. exists fed. exact Hf.
Defined.
Lemma dkg_process_terminates_witness :
  sm_state (process_message 5 11 demo_request demo_machine).1 = StSuccess [11; 100; 101; 200; 201] /\
  unprocessed (queue_of (process_message 5 11 demo_request demo_machine).1 NonceRequest) = [].
Proof.
  split; [by vm_compute|].
  apply (dkg_process_terminates demo_machine (process_message 5 11 demo_request demo_machine).1 5 11
    demo_request (Ok tt)); [exact demo_machine_reachable|by vm_compute|by vm_compute].
Defined.
(** After a reset the same messages make the coordinator tweak the point at
    infinity: the key is still there, its polynomials are not. *)
Lemma reset_machine_panics :
  (process_message 5 11 demo_request (demo_run (state_machine_reset 0 demo_machine))).2 = Panic.
Proof. by vm_compute. Qed.
