(* ===== verification/WstsFire.v ===== *)
(** The FIRE coordinator of the [wsts] crate.

    Source: src/wsts/src/state_machine/coordinator/fire.rs,
    src/wsts/src/state_machine/coordinator/mod.rs.

    FIRE signs with any signers that hold enough keys: the responses of a round
    are collected per message, and the first message with the nonces of
    [threshold] key identifiers wins.  After key generation it checks the
    failures that signers report and marks the guilty ones.

    [HashSet]s and [HashMap]s are iterated over in the order of [elements] and
    [map_to_list].  The aggregate nonce that [gather_nonces] logs has no effect
    and is left out. *)

From S2P Require Import Prelude Effects Types WstsNet DkgVerification WstsFrost.

Section Fire.
Context `{WstsCrypto}.

(** The responses collected for one message. *)
Record SignRoundInfo := mkSignRoundInfo {
  sri_public_nonces : gmap Z NetNonceResponse;
  sri_nonce_recv_key_ids : gset Z;
  sri_sign_recv_key_ids : gset Z;
  sri_sign_wait_signer_ids : gset Z }.
Definition sri_default : SignRoundInfo := mkSignRoundInfo ∅ ∅ ∅ ∅.

Record FireCoordinator := mkFire {
  fire_config : Config;
  fire_current_dkg_id : Z;
  fire_current_sign_id : Z;
  fire_current_sign_iter_id : Z;
  fire_dkg_public_shares : gmap Z NetDkgPublicShares;
  fire_dkg_private_shares : gmap Z NetDkgPrivateShares;
  fire_dkg_end_messages : gmap Z NetDkgEnd;
  fire_party_polynomials : gmap Z PolyCommitment;
  fire_signature_shares : gmap Z (list SignatureShare);
  fire_message_nonces : gmap (list Z) SignRoundInfo;
  fire_aggregate_public_key : option Point;
  fire_signature : option Signature;
  fire_schnorr_proof : option SchnorrProof;
  fire_dkg_wait_signer_ids : gset Z;
  fire_message : list Z;
  fire_state : CoordinatorState;
  fire_aggregator : Aggregator;
  fire_malicious_signer_ids : gset Z;
  fire_malicious_dkg_signer_ids : gset Z }.

Definition fire_set_current_dkg_id (v : Z) (c : FireCoordinator) : FireCoordinator :=
  mkFire (fire_config c) v (fire_current_sign_id c) (fire_current_sign_iter_id c) (fire_dkg_public_shares c) (fire_dkg_private_shares c) (fire_dkg_end_messages c) (fire_party_polynomials c) (fire_signature_shares c) (fire_message_nonces c) (fire_aggregate_public_key c) (fire_signature c) (fire_schnorr_proof c) (fire_dkg_wait_signer_ids c) (fire_message c) (fire_state c) (fire_aggregator c) (fire_malicious_signer_ids c) (fire_malicious_dkg_signer_ids c).
Definition fire_set_current_sign_id (v : Z) (c : FireCoordinator) : FireCoordinator :=
  mkFire (fire_config c) (fire_current_dkg_id c) v (fire_current_sign_iter_id c) (fire_dkg_public_shares c) (fire_dkg_private_shares c) (fire_dkg_end_messages c) (fire_party_polynomials c) (fire_signature_shares c) (fire_message_nonces c) (fire_aggregate_public_key c) (fire_signature c) (fire_schnorr_proof c) (fire_dkg_wait_signer_ids c) (fire_message c) (fire_state c) (fire_aggregator c) (fire_malicious_signer_ids c) (fire_malicious_dkg_signer_ids c).
Definition fire_set_current_sign_iter_id (v : Z) (c : FireCoordinator) : FireCoordinator :=
  mkFire (fire_config c) (fire_current_dkg_id c) (fire_current_sign_id c) v (fire_dkg_public_shares c) (fire_dkg_private_shares c) (fire_dkg_end_messages c) (fire_party_polynomials c) (fire_signature_shares c) (fire_message_nonces c) (fire_aggregate_public_key c) (fire_signature c) (fire_schnorr_proof c) (fire_dkg_wait_signer_ids c) (fire_message c) (fire_state c) (fire_aggregator c) (fire_malicious_signer_ids c) (fire_malicious_dkg_signer_ids c).
Definition fire_set_dkg_public_shares (v : gmap Z NetDkgPublicShares) (c : FireCoordinator) : FireCoordinator :=
  mkFire (fire_config c) (fire_current_dkg_id c) (fire_current_sign_id c) (fire_current_sign_iter_id c) v (fire_dkg_private_shares c) (fire_dkg_end_messages c) (fire_party_polynomials c) (fire_signature_shares c) (fire_message_nonces c) (fire_aggregate_public_key c) (fire_signature c) (fire_schnorr_proof c) (fire_dkg_wait_signer_ids c) (fire_message c) (fire_state c) (fire_aggregator c) (fire_malicious_signer_ids c) (fire_malicious_dkg_signer_ids c).
Definition fire_set_dkg_private_shares (v : gmap Z NetDkgPrivateShares) (c : FireCoordinator) : FireCoordinator :=
  mkFire (fire_config c) (fire_current_dkg_id c) (fire_current_sign_id c) (fire_current_sign_iter_id c) (fire_dkg_public_shares c) v (fire_dkg_end_messages c) (fire_party_polynomials c) (fire_signature_shares c) (fire_message_nonces c) (fire_aggregate_public_key c) (fire_signature c) (fire_schnorr_proof c) (fire_dkg_wait_signer_ids c) (fire_message c) (fire_state c) (fire_aggregator c) (fire_malicious_signer_ids c) (fire_malicious_dkg_signer_ids c).
Definition fire_set_dkg_end_messages (v : gmap Z NetDkgEnd) (c : FireCoordinator) : FireCoordinator :=
  mkFire (fire_config c) (fire_current_dkg_id c) (fire_current_sign_id c) (fire_current_sign_iter_id c) (fire_dkg_public_shares c) (fire_dkg_private_shares c) v (fire_party_polynomials c) (fire_signature_shares c) (fire_message_nonces c) (fire_aggregate_public_key c) (fire_signature c) (fire_schnorr_proof c) (fire_dkg_wait_signer_ids c) (fire_message c) (fire_state c) (fire_aggregator c) (fire_malicious_signer_ids c) (fire_malicious_dkg_signer_ids c).
Definition fire_set_party_polynomials (v : gmap Z PolyCommitment) (c : FireCoordinator) : FireCoordinator :=
  mkFire (fire_config c) (fire_current_dkg_id c) (fire_current_sign_id c) (fire_current_sign_iter_id c) (fire_dkg_public_shares c) (fire_dkg_private_shares c) (fire_dkg_end_messages c) v (fire_signature_shares c) (fire_message_nonces c) (fire_aggregate_public_key c) (fire_signature c) (fire_schnorr_proof c) (fire_dkg_wait_signer_ids c) (fire_message c) (fire_state c) (fire_aggregator c) (fire_malicious_signer_ids c) (fire_malicious_dkg_signer_ids c).
Definition fire_set_signature_shares (v : gmap Z (list SignatureShare)) (c : FireCoordinator) : FireCoordinator :=
  mkFire (fire_config c) (fire_current_dkg_id c) (fire_current_sign_id c) (fire_current_sign_iter_id c) (fire_dkg_public_shares c) (fire_dkg_private_shares c) (fire_dkg_end_messages c) (fire_party_polynomials c) v (fire_message_nonces c) (fire_aggregate_public_key c) (fire_signature c) (fire_schnorr_proof c) (fire_dkg_wait_signer_ids c) (fire_message c) (fire_state c) (fire_aggregator c) (fire_malicious_signer_ids c) (fire_malicious_dkg_signer_ids c).
Definition fire_set_message_nonces (v : gmap (list Z) SignRoundInfo) (c : FireCoordinator) : FireCoordinator :=
  mkFire (fire_config c) (fire_current_dkg_id c) (fire_current_sign_id c) (fire_current_sign_iter_id c) (fire_dkg_public_shares c) (fire_dkg_private_shares c) (fire_dkg_end_messages c) (fire_party_polynomials c) (fire_signature_shares c) v (fire_aggregate_public_key c) (fire_signature c) (fire_schnorr_proof c) (fire_dkg_wait_signer_ids c) (fire_message c) (fire_state c) (fire_aggregator c) (fire_malicious_signer_ids c) (fire_malicious_dkg_signer_ids c).
Definition fire_set_aggregate_public_key (v : option Point) (c : FireCoordinator) : FireCoordinator :=
  mkFire (fire_config c) (fire_current_dkg_id c) (fire_current_sign_id c) (fire_current_sign_iter_id c) (fire_dkg_public_shares c) (fire_dkg_private_shares c) (fire_dkg_end_messages c) (fire_party_polynomials c) (fire_signature_shares c) (fire_message_nonces c) v (fire_signature c) (fire_schnorr_proof c) (fire_dkg_wait_signer_ids c) (fire_message c) (fire_state c) (fire_aggregator c) (fire_malicious_signer_ids c) (fire_malicious_dkg_signer_ids c).
Definition fire_set_signature (v : option Signature) (c : FireCoordinator) : FireCoordinator :=
  mkFire (fire_config c) (fire_current_dkg_id c) (fire_current_sign_id c) (fire_current_sign_iter_id c) (fire_dkg_public_shares c) (fire_dkg_private_shares c) (fire_dkg_end_messages c) (fire_party_polynomials c) (fire_signature_shares c) (fire_message_nonces c) (fire_aggregate_public_key c) v (fire_schnorr_proof c) (fire_dkg_wait_signer_ids c) (fire_message c) (fire_state c) (fire_aggregator c) (fire_malicious_signer_ids c) (fire_malicious_dkg_signer_ids c).
Definition fire_set_schnorr_proof (v : option SchnorrProof) (c : FireCoordinator) : FireCoordinator :=
  mkFire (fire_config c) (fire_current_dkg_id c) (fire_current_sign_id c) (fire_current_sign_iter_id c) (fire_dkg_public_shares c) (fire_dkg_private_shares c) (fire_dkg_end_messages c) (fire_party_polynomials c) (fire_signature_shares c) (fire_message_nonces c) (fire_aggregate_public_key c) (fire_signature c) v (fire_dkg_wait_signer_ids c) (fire_message c) (fire_state c) (fire_aggregator c) (fire_malicious_signer_ids c) (fire_malicious_dkg_signer_ids c).
Definition fire_set_dkg_wait_signer_ids (v : gset Z) (c : FireCoordinator) : FireCoordinator :=
  mkFire (fire_config c) (fire_current_dkg_id c) (fire_current_sign_id c) (fire_current_sign_iter_id c) (fire_dkg_public_shares c) (fire_dkg_private_shares c) (fire_dkg_end_messages c) (fire_party_polynomials c) (fire_signature_shares c) (fire_message_nonces c) (fire_aggregate_public_key c) (fire_signature c) (fire_schnorr_proof c) v (fire_message c) (fire_state c) (fire_aggregator c) (fire_malicious_signer_ids c) (fire_malicious_dkg_signer_ids c).
Definition fire_set_message (v : list Z) (c : FireCoordinator) : FireCoordinator :=
  mkFire (fire_config c) (fire_current_dkg_id c) (fire_current_sign_id c) (fire_current_sign_iter_id c) (fire_dkg_public_shares c) (fire_dkg_private_shares c) (fire_dkg_end_messages c) (fire_party_polynomials c) (fire_signature_shares c) (fire_message_nonces c) (fire_aggregate_public_key c) (fire_signature c) (fire_schnorr_proof c) (fire_dkg_wait_signer_ids c) v (fire_state c) (fire_aggregator c) (fire_malicious_signer_ids c) (fire_malicious_dkg_signer_ids c).
Definition fire_set_state (v : CoordinatorState) (c : FireCoordinator) : FireCoordinator :=
  mkFire (fire_config c) (fire_current_dkg_id c) (fire_current_sign_id c) (fire_current_sign_iter_id c) (fire_dkg_public_shares c) (fire_dkg_private_shares c) (fire_dkg_end_messages c) (fire_party_polynomials c) (fire_signature_shares c) (fire_message_nonces c) (fire_aggregate_public_key c) (fire_signature c) (fire_schnorr_proof c) (fire_dkg_wait_signer_ids c) (fire_message c) v (fire_aggregator c) (fire_malicious_signer_ids c) (fire_malicious_dkg_signer_ids c).
Definition fire_set_aggregator (v : Aggregator) (c : FireCoordinator) : FireCoordinator :=
  mkFire (fire_config c) (fire_current_dkg_id c) (fire_current_sign_id c) (fire_current_sign_iter_id c) (fire_dkg_public_shares c) (fire_dkg_private_shares c) (fire_dkg_end_messages c) (fire_party_polynomials c) (fire_signature_shares c) (fire_message_nonces c) (fire_aggregate_public_key c) (fire_signature c) (fire_schnorr_proof c) (fire_dkg_wait_signer_ids c) (fire_message c) (fire_state c) v (fire_malicious_signer_ids c) (fire_malicious_dkg_signer_ids c).
Definition fire_set_malicious_signer_ids (v : gset Z) (c : FireCoordinator) : FireCoordinator :=
  mkFire (fire_config c) (fire_current_dkg_id c) (fire_current_sign_id c) (fire_current_sign_iter_id c) (fire_dkg_public_shares c) (fire_dkg_private_shares c) (fire_dkg_end_messages c) (fire_party_polynomials c) (fire_signature_shares c) (fire_message_nonces c) (fire_aggregate_public_key c) (fire_signature c) (fire_schnorr_proof c) (fire_dkg_wait_signer_ids c) (fire_message c) (fire_state c) (fire_aggregator c) v (fire_malicious_dkg_signer_ids c).
Definition fire_set_malicious_dkg_signer_ids (v : gset Z) (c : FireCoordinator) : FireCoordinator :=
  mkFire (fire_config c) (fire_current_dkg_id c) (fire_current_sign_id c) (fire_current_sign_iter_id c) (fire_dkg_public_shares c) (fire_dkg_private_shares c) (fire_dkg_end_messages c) (fire_party_polynomials c) (fire_signature_shares c) (fire_message_nonces c) (fire_aggregate_public_key c) (fire_signature c) (fire_schnorr_proof c) (fire_dkg_wait_signer_ids c) (fire_message c) (fire_state c) (fire_aggregator c) (fire_malicious_signer_ids c) v.

Definition fire_new (config : Config) : FireCoordinator :=
  mkFire config 0 0 0 ∅ ∅ ∅ ∅ ∅ ∅ None None None ∅ [] CsIdle
    (aggregator_new (cfg_num_keys config) (cfg_threshold config)) ∅ ∅.

Abbreviation M := (st FireCoordinator CoordinatorError).

(** *** State changes *)
Definition fire_can_move_to (prev next : CoordinatorState) : bool :=
  match next with
  | CsIdle => true
  | CsDkgPublicDistribute => bool_decide (prev = CsIdle)
  | CsDkgPublicGather => bool_decide (prev = CsDkgPublicDistribute) || bool_decide (prev = CsDkgPublicGather)
  | CsDkgPrivateDistribute => bool_decide (prev = CsDkgPublicGather)
  | CsDkgPrivateGather => bool_decide (prev = CsDkgPrivateDistribute) || bool_decide (prev = CsDkgPrivateGather)
  | CsDkgEndDistribute => bool_decide (prev = CsDkgPrivateGather)
  | CsDkgEndGather => bool_decide (prev = CsDkgEndDistribute)
  | CsNonceRequest t => bool_decide (prev = CsIdle) || bool_decide (prev = CsDkgEndGather)
                        || bool_decide (prev = CsSigShareGather t)
  | CsNonceGather t => bool_decide (prev = CsNonceRequest t) || bool_decide (prev = CsNonceGather t)
  | CsSigShareRequest t => bool_decide (prev = CsNonceGather t)
  | CsSigShareGather t => bool_decide (prev = CsSigShareRequest t) || bool_decide (prev = CsSigShareGather t)
  end.

Definition fire_move_to (next : CoordinatorState) : M unit :=
  c <- st_get;;
  if fire_can_move_to (fire_state c) next then st_modify (fire_set_state next)
  else st_throw (CeBadStateChange (fire_state c) next).

(** *** Key generation *)
Definition fire_start_public_shares : M Message :=
  st_modify (fun c => fire_set_dkg_wait_signer_ids (list_to_set (id_range (cfg_num_signers (fire_config c))))
    (fire_set_party_polynomials ∅ (fire_set_dkg_public_shares ∅ c)));;;
  c <- st_get;;
  fire_move_to CsDkgPublicGather;;;
  st_ret (MsgDkgBegin (mkDkgBegin (fire_current_dkg_id c))).

Definition fire_start_private_shares : M Message :=
  st_modify (fun c => fire_set_dkg_wait_signer_ids (dom (fire_dkg_public_shares c)) c);;;
  c <- st_get;;
  fire_move_to CsDkgPrivateGather;;;
  st_ret (MsgDkgPrivateBegin (mkDkgPrivateBegin (fire_current_dkg_id c) (btree_list (fire_dkg_public_shares c)).*1 [])).

Definition fire_start_dkg_end : M Message :=
  st_modify (fun c => fire_set_dkg_wait_signer_ids (dom (fire_dkg_private_shares c)) c);;;
  c <- st_get;;
  fire_move_to CsDkgEndGather;;;
  st_ret (MsgDkgEndBegin (mkDkgEndBegin (fire_current_dkg_id c) (btree_list (fire_dkg_private_shares c)).*1 [])).

Definition fire_gather_public_shares (message : Message) : M unit :=
  let done_ := c <- st_get;;
    if bool_decide (fire_dkg_wait_signer_ids c = ∅) then fire_move_to CsDkgPrivateDistribute else st_ret tt in
  match message with
  | MsgDkgPublicShares m =>
      c <- st_get;;
      if negb (dps_dkg_id m =? fire_current_dkg_id c) then st_throw (CeBadDkgId (dps_dkg_id m) (fire_current_dkg_id c)) else
      if bool_decide (cfg_signer_public_keys (fire_config c) !! dps_signer_id m = None) then st_ret tt else
      st_modify (fun c => fire_set_dkg_public_shares (<[dps_signer_id m := m]> (fire_dkg_public_shares c))
        (fire_set_dkg_wait_signer_ids (fire_dkg_wait_signer_ids c ∖ {[dps_signer_id m]}) c));;;
      done_
  | _ => done_
  end.

Definition fire_gather_private_shares (message : Message) : M unit :=
  let done_ := c <- st_get;;
    if bool_decide (fire_dkg_wait_signer_ids c = ∅) then fire_move_to CsDkgEndDistribute else st_ret tt in
  match message with
  | MsgDkgPrivateShares m =>
      c <- st_get;;
      if negb (dvs_dkg_id m =? fire_current_dkg_id c) then st_throw (CeBadDkgId (dvs_dkg_id m) (fire_current_dkg_id c)) else
      if bool_decide (cfg_signer_public_keys (fire_config c) !! dvs_signer_id m = None) then st_ret tt else
      st_modify (fun c => fire_set_dkg_private_shares (<[dvs_signer_id m := m]> (fire_dkg_private_shares c))
        (fire_set_dkg_wait_signer_ids (fire_dkg_wait_signer_ids c ∖ {[dvs_signer_id m]}) c));;;
      done_
  | _ => done_
  end.

(** *** Reported failures *)

(** The signers found malicious and the failures to return. *)
Abbreviation Verdicts := (gset Z * gmap Z DkgFailure)%type.
Abbreviation Checked := (outcome CoordinatorError).

(** Whether a public share of [shares] fails [check_public_shares]. *)
Definition public_shares_bad (threshold : Z) (shares : NetDkgPublicShares) : bool :=
  existsb (fun e => negb (check_public_shares e.2 threshold)) (dps_comms shares).

Definition judge (signer_id bad_signer_id : Z) (f : DkgFailure) (is_bad : bool) (v : Verdicts) : Verdicts :=
  if is_bad then ({[bad_signer_id]} ∪ v.1, <[signer_id := f]> v.2) else ({[signer_id]} ∪ v.1, v.2).

(** [for bad_signer_id in bad_shares] of [BadPublicShares] *)
Fixpoint check_bad_public (c : FireCoordinator) (signer_id : Z) (f : DkgFailure) (bad : list Z) (v : Verdicts) : Checked Verdicts :=
  match bad with
  | [] => Ok v
  | b :: bad =>
      shares ← or_panic (fire_dkg_public_shares c !! b);
      check_bad_public c signer_id f bad
        (judge signer_id b f (public_shares_bad (cfg_threshold (fire_config c)) shares) v)
  end.

(** One encrypted share under the reported key: it does not decrypt, is not a
    scalar, or is not on the polynomial. *)
Definition key_share_bad (shared_key : Point) (poly : PolyCommitment) (key_shares : gmap Z (list Z)) (key_id : Z) : Checked bool :=
  bytes ← or_panic (key_shares !! key_id);
  match decrypt shared_key bytes with
  | None => Ok true
  | Some plain =>
      match scalar_try_from plain with
      | None => Ok true
      | Some private_eval =>
          match compute_poly key_id poly with
          | None => Ok true
          | Some poly_eval => Ok (negb (bool_decide (scalar_base private_eval = poly_eval)))
          end
      end
  end.

(** [for key_id in signer_key_ids], left at the first bad share. *)
Fixpoint key_shares_bad (shared_key : Point) (poly : PolyCommitment) (key_shares : gmap Z (list Z)) (key_ids : list Z) : Checked bool :=
  match key_ids with
  | [] => Ok false
  | k :: key_ids =>
      b ← key_share_bad shared_key poly key_shares k;
      if b : bool then Ok true else key_shares_bad shared_key poly key_shares key_ids
  end.

(** [for (src_party_id, key_shares) in &dkg_private_shares.shares] *)
Fixpoint private_shares_bad (shared_key : Point) (comms : gmap Z PolyCommitment) (key_ids : list Z)
    (shares : list (Z * gmap Z (list Z))) (is_bad : bool) : Checked bool :=
  match shares with
  | [] => Ok is_bad
  | (src_party_id, key_shares) :: shares =>
      poly ← or_panic (comms !! src_party_id);
      b ← key_shares_bad shared_key poly key_shares key_ids;
      private_shares_bad shared_key comms key_ids shares (is_bad || b)
  end.

(** Whether the accusation [s] of [signer_id] against [b] is confirmed. *)
Definition private_report_confirmed (c : FireCoordinator) (signer_id b : Z) (s : BadPrivateShare) : Checked bool :=
  signer_key ← or_panic (cfg_signer_public_keys (fire_config c) !! signer_id);
  bad_key ← or_panic (cfg_signer_public_keys (fire_config c) !! b);
  if negb (tuple_proof_verify (bps_tuple_proof s) signer_key bad_key (bps_shared_key s)) then Ok false else
  public_shares ← or_panic (fire_dkg_public_shares c !! b);
  private_shares ← or_panic (fire_dkg_private_shares c !! b);
  key_ids ← or_panic (cfg_signer_key_ids (fire_config c) !! signer_id);
  private_shares_bad (bps_shared_key s) (insert_comms (dps_comms public_shares) ∅) (elements key_ids)
    (dvs_shares private_shares) false.

(** [for (bad_signer_id, bad_private_share) in bad_shares] *)
Fixpoint check_bad_private (c : FireCoordinator) (signer_id : Z) (f : DkgFailure) (bad : list (Z * BadPrivateShare))
    (v : Verdicts) : Checked Verdicts :=
  match bad with
  | [] => Ok v
  | (b, s) :: bad =>
      is_bad ← private_report_confirmed c signer_id b s;
      check_bad_private c signer_id f bad (judge signer_id b f is_bad v)
  end.

Definition check_failure (c : FireCoordinator) (signer_id : Z) (f : DkgFailure) (v : Verdicts) : Checked Verdicts :=
  match f with
  | FailBadState => Ok ({[signer_id]} ∪ v.1, <[signer_id := f]> v.2)
  | FailThreshold | FailMissingPublicShares _ | FailMissingPrivateShares _ => Ok (v.1, <[signer_id := f]> v.2)
  | FailBadPublicShares bad => check_bad_public c signer_id f (elements bad) v
  | FailBadPrivateShares bad => check_bad_private c signer_id f (map_to_list bad) v
  end.

(** [for (signer_id, dkg_end) in &self.dkg_end_messages] *)
Fixpoint check_failures (c : FireCoordinator) (ends : list (Z * NetDkgEnd)) (v : Verdicts) : Checked Verdicts :=
  match ends with
  | [] => Ok v
  | (i, m) :: ends =>
      v ← match failure_of m with Some f => check_failure c i f v | None => Ok v end;
      check_failures c ends v
  end.

(** The commitments of the signers [ids], in order. *)
Definition comms_of (shares : gmap Z NetDkgPublicShares) (ids : list Z) : option (list (Z * PolyCommitment)) :=
  (fun l => concat (map dps_comms l)) <$> index_all shares ids.

Definition fire_dkg_end_gathered : M unit :=
  c <- st_get;;
  comms <- st_lift (or_panic (comms_of (fire_dkg_public_shares c) (btree_list (fire_dkg_private_shares c)).*1));;
  st_modify (fun c => fire_set_party_polynomials (insert_comms comms (fire_party_polynomials c)) c);;;
  keys <- st_lift (or_panic (comms_of (fire_dkg_public_shares c) (btree_list (fire_dkg_end_messages c)).*1));;
  st_modify (fire_set_aggregate_public_key (Some (sum_constant_terms keys)));;;
  fire_move_to CsIdle.

Definition fire_dkg_end_done : M unit :=
  c <- st_get;;
  if bool_decide (fire_dkg_wait_signer_ids c = ∅) then
    v <- st_lift (check_failures c (btree_list (fire_dkg_end_messages c)) (fire_malicious_dkg_signer_ids c, ∅));;
    st_modify (fire_set_malicious_dkg_signer_ids v.1);;;
    if bool_decide (v.2 = ∅) then fire_dkg_end_gathered else st_throw (CeDkgFailure v.2)
  else st_ret tt.

Definition fire_gather_dkg_end (message : Message) : M unit :=
  match message with
  | MsgDkgEnd m =>
      c <- st_get;;
      if negb (de_dkg_id m =? fire_current_dkg_id c) then st_throw (CeBadDkgId (de_dkg_id m) (fire_current_dkg_id c)) else
      (if bool_decide (de_signer_id m ∈ fire_dkg_wait_signer_ids c) then
         st_modify (fun c => fire_set_dkg_end_messages (<[de_signer_id m := m]> (fire_dkg_end_messages c))
           (fire_set_dkg_wait_signer_ids (fire_dkg_wait_signer_ids c ∖ {[de_signer_id m]}) c))
       else st_ret tt);;;
      fire_dkg_end_done
  | _ => fire_dkg_end_done
  end.

(** *** Signing *)
Definition fire_request_nonces (t : SignatureType) : M Message :=
  st_modify (fire_set_message_nonces ∅);;;
  st_modify (fun c => fire_set_current_sign_iter_id (wrapping_succ (fire_current_sign_iter_id c)) c);;;
  c <- st_get;;
  fire_move_to (CsNonceGather t);;;
  st_ret (MsgNonceRequest (mkNonceRequest (fire_current_dkg_id c) (fire_current_sign_id c)
    (fire_current_sign_iter_id c) (fire_message c) t)).

(** The checks of a nonce response: an error, or the configured key
    identifiers of a response to take. *)
Definition fire_check_nonces (c : FireCoordinator) (m : NetNonceResponse) : outcome CoordinatorError (option (gset Z)) :=
  if negb (nr_dkg_id m =? fire_current_dkg_id c) then Err (CeBadDkgId (nr_dkg_id m) (fire_current_dkg_id c)) else
  if negb (nr_sign_id m =? fire_current_sign_id c) then Err (CeBadSignId (nr_sign_id m) (fire_current_sign_id c)) else
  if negb (nr_sign_iter_id m =? fire_current_sign_iter_id c)
  then Err (CeBadSignIterId (nr_sign_iter_id m) (fire_current_sign_iter_id c)) else
  if bool_decide (cfg_signer_public_keys (fire_config c) !! nr_signer_id m = None) then Ok None else
  match cfg_signer_key_ids (fire_config c) !! nr_signer_id m with
  | None => Ok None
  | Some key_ids =>
      if negb (bool_decide (key_ids = list_to_set (nr_key_ids m))) then Ok None else
      if negb (forallb public_nonce_is_valid (nr_nonces m)) then Ok None else
      if bool_decide (nr_signer_id m ∈ fire_malicious_signer_ids c) then Ok None else
      Ok (Some key_ids)
  end.

Definition info_of (c : FireCoordinator) (message : list Z) : SignRoundInfo :=
  default sri_default (fire_message_nonces c !! message).

Definition add_nonces (m : NetNonceResponse) (key_ids : gset Z) (info : SignRoundInfo) : SignRoundInfo :=
  mkSignRoundInfo (<[nr_signer_id m := m]> (sri_public_nonces info)) (sri_nonce_recv_key_ids info ∪ key_ids)
    (sri_sign_recv_key_ids info) ({[nr_signer_id m]} ∪ sri_sign_wait_signer_ids info).

Definition fire_gather_nonces (message : Message) (t : SignatureType) : M unit :=
  match message with
  | MsgNonceResponse m =>
      c <- st_get;;
      taken <- st_lift (fire_check_nonces c m);;
      match taken with
      | None => st_ret tt
      | Some key_ids =>
          let info := add_nonces m key_ids (info_of c (nr_message m)) in
          st_modify (fun c => fire_set_message_nonces (<[nr_message m := info]> (fire_message_nonces c)) c);;;
          if cfg_threshold (fire_config c) <=? Z.of_nat (size (sri_nonce_recv_key_ids info)) then
            st_modify (fire_set_message (nr_message m));;;
            fire_move_to (CsSigShareRequest t)
          else st_ret tt
      end
  | _ => st_ret tt
  end.

Definition fire_request_sig_shares (t : SignatureType) : M Message :=
  st_modify (fire_set_signature_shares ∅);;;
  c <- st_get;;
  info <- st_ok_or (fire_message_nonces c !! fire_message c) CeMissingMessageNonceInfo;;
  fire_move_to (CsSigShareGather t);;;
  st_ret (MsgSignatureShareRequest (mkSignatureShareRequest (fire_current_dkg_id c) (fire_current_sign_id c)
    (fire_current_sign_iter_id c) (btree_list (sri_public_nonces info)).*2 (fire_message c) t)).

Definition fire_check_shares (c : FireCoordinator) (m : NetSignatureShareResponse) : outcome CoordinatorError bool :=
  if negb (sr_dkg_id m =? fire_current_dkg_id c) then Err (CeBadDkgId (sr_dkg_id m) (fire_current_dkg_id c)) else
  if negb (sr_sign_id m =? fire_current_sign_id c) then Err (CeBadSignId (sr_sign_id m) (fire_current_sign_id c)) else
  if bool_decide (cfg_signer_public_keys (fire_config c) !! sr_signer_id m = None) then Ok false else
  match cfg_signer_key_ids (fire_config c) !! sr_signer_id m with
  | None => Ok false
  | Some key_ids => Ok (bool_decide (key_ids = list_to_set (concat (map share_key_ids (sr_signature_shares m)))))
  end.

Definition add_shares (m : NetSignatureShareResponse) (info : SignRoundInfo) : SignRoundInfo :=
  if bool_decide (sr_signer_id m ∈ sri_sign_wait_signer_ids info) then
    mkSignRoundInfo (sri_public_nonces info) (sri_nonce_recv_key_ids info)
      (list_to_set (concat (map share_key_ids (sr_signature_shares m))) ∪ sri_sign_recv_key_ids info)
      (sri_sign_wait_signer_ids info ∖ {[sr_signer_id m]})
  else info.

(** The arguments of the aggregator, in the order of the nonce map. *)
Definition fire_aggregation_inputs (c : FireCoordinator) (info : SignRoundInfo) :
    outcome CoordinatorError (list PublicNonce * list Z * list SignatureShare) :=
  let responses := (btree_list (sri_public_nonces info)).*2 in
  shares ← or_panic (index_all (fire_signature_shares c) (btree_list (sri_public_nonces info)).*1);
  Ok (concat (map nr_nonces responses), concat (map nr_key_ids responses), concat shares).

Definition fire_aggregate (t : SignatureType) (info : SignRoundInfo) : M unit :=
  c <- st_get;;
  inputs <- st_lift (fire_aggregation_inputs c info);;
  let '(nonces, key_ids, shares) := inputs in
  st_modify (fun c => fire_set_aggregator (aggregator_init (fire_aggregator c) (fire_party_polynomials c)).1 c);;;
  st_lift (map_err CeAggregator (aggregator_init (fire_aggregator c) (fire_party_polynomials c)).2);;;
  c <- st_get;;
  match t with
  | Taproot root =>
      p <- st_lift (map_err CeAggregator
        (aggregator_sign_taproot (fire_aggregator c) (fire_message c) nonces shares key_ids root));;
      st_modify (fire_set_schnorr_proof (Some p))
  | Schnorr =>
      p <- st_lift (map_err CeAggregator
        (aggregator_sign_schnorr (fire_aggregator c) (fire_message c) nonces shares key_ids));;
      st_modify (fire_set_schnorr_proof (Some p))
  | Frost =>
      s <- st_lift (map_err CeAggregator
        (aggregator_sign (fire_aggregator c) (fire_message c) nonces shares key_ids));;
      st_modify (fire_set_signature (Some s))
  end;;;
  fire_move_to CsIdle.

Definition fire_shares_done (t : SignatureType) : M unit :=
  c <- st_get;;
  info <- st_ok_or (fire_message_nonces c !! fire_message c) CeMissingMessageNonceInfo;;
  if bool_decide (sri_sign_wait_signer_ids info = ∅) then fire_aggregate t info else st_ret tt.

Definition fire_gather_sig_shares (message : Message) (t : SignatureType) : M unit :=
  match message with
  | MsgSignatureShareResponse m =>
      c <- st_get;;
      taken <- st_lift (fire_check_shares c m);;
      if negb taken then st_ret tt else
      st_modify (fun c => fire_set_signature_shares (<[sr_signer_id m := sr_signature_shares m]> (fire_signature_shares c)) c);;;
      st_modify (fun c => fire_set_message_nonces
        (<[fire_message c := add_shares m (info_of c (fire_message c))]> (fire_message_nonces c)) c);;;
      fire_shares_done t
  | _ => fire_shares_done t
  end.

(** *** Rounds *)
Definition fire_start_dkg_round : M Message :=
  st_modify (fun c => fire_set_current_dkg_id (wrapping_succ (fire_current_dkg_id c)) c);;;
  fire_move_to CsDkgPublicDistribute;;;
  fire_start_public_shares.

Definition fire_start_signing_round (message : list Z) (t : SignatureType) : M Message :=
  c <- st_get;;
  if bool_decide (fire_aggregate_public_key c = None) then st_throw CeMissingAggregatePublicKey else
  st_modify (fire_set_message message);;;
  st_modify (fun c => fire_set_current_sign_id (wrapping_succ (fire_current_sign_id c)) c);;;
  fire_move_to (CsNonceRequest t);;;
  fire_request_nonces t.

Definition fire_reset (c : FireCoordinator) : FireCoordinator :=
  fire_set_dkg_wait_signer_ids ∅ (fire_set_signature_shares ∅ (fire_set_message_nonces ∅ (fire_set_party_polynomials ∅
    (fire_set_dkg_end_messages ∅ (fire_set_dkg_private_shares ∅ (fire_set_dkg_public_shares ∅ (fire_set_state CsIdle c))))))).

Definition fire_set_key_and_party_polynomials (key : Point) (polys : list (Z * PolyCommitment)) : M unit :=
  let computed := sum_constant_terms polys in
  if negb (bool_decide (computed = key)) then st_throw (CeAggregateKeyPolynomialMismatch computed key) else
  let m : gmap Z PolyCommitment := insert_comms polys ∅ in
  if negb (Z.of_nat (size m) =? Z.of_nat (length polys)) then st_throw CeDuplicatePartyId else
  st_modify (fun c => fire_set_party_polynomials m (fire_set_aggregate_public_key (Some key) c)).

(** *** The loop of [process_message] *)
Abbreviation Reply := (option Message * option OperationResult)%type.

Definition fire_idle (message : Message) : M (option Reply) :=
  c <- st_get;;
  match message with
  | MsgDkgBegin m =>
      if db_dkg_id m <=? fire_current_dkg_id c then st_ret more else
      st_modify (fire_set_current_dkg_id (wrapping_pred (db_dkg_id m)));;;
      out <- fire_start_dkg_round;; st_ret (send out)
  | MsgNonceRequest m =>
      if nq_sign_id m <=? fire_current_sign_id c then st_ret more else
      st_modify (fire_set_current_sign_id (wrapping_pred (nq_sign_id m)));;;
      st_modify (fire_set_current_sign_iter_id (wrapping_pred (nq_sign_iter_id m)));;;
      out <- fire_start_signing_round (nq_message m) (nq_signature_type m);; st_ret (send out)
  | _ => st_ret more
  end.

(** The result of a finished signing round. *)
Definition fire_signed (c : FireCoordinator) (t : SignatureType) : OperationResult :=
  match t with
  | Taproot _ => match fire_schnorr_proof c with
                 | Some p => ResSignTaproot p
                 | None => ResSignError (SeCoordinator CeMissingSchnorrProof) end
  | Schnorr => match fire_schnorr_proof c with
               | Some p => ResSignSchnorr p
               | None => ResSignError (SeCoordinator CeMissingSchnorrProof) end
  | Frost => match fire_signature c with
             | Some s => ResSign s
             | None => ResSignError (SeCoordinator CeMissingSignature) end
  end.

(** The branch [State::DkgEndGather]. *)
Definition fire_dkg_end_turn (message : Message) : M (option Reply) :=
  failed <- st_catch (fire_gather_dkg_end message;;; st_ret None)
    (fun e => match e with CeDkgFailure fs => Some (result (ResDkgError (DkgEndFailure fs))) | _ => None end);;
  match failed with
  | Some r => st_ret (Some r)
  | None =>
      c <- st_get;;
      if bool_decide (fire_state c = CsDkgEndGather) then st_ret more
      else if bool_decide (fire_state c = CsIdle) then
        key <- st_ok_or (fire_aggregate_public_key c) CeMissingAggregatePublicKey;; st_ret (result (ResDkg key))
      else st_ret None
  end.

(** The branch [State::SigShareGather]. *)
Definition fire_sig_share_turn (message : Message) (t : SignatureType) : M (option Reply) :=
  failed <- st_catch (fire_gather_sig_shares message t;;; st_ret None)
    (fun e => Some (result (ResSignError (SeCoordinator e))));;
  match failed with
  | Some r => st_ret (Some r)
  | None =>
      c <- st_get;;
      st_ret (if bool_decide (fire_state c = CsSigShareGather t) then more
              else if bool_decide (fire_state c = CsIdle) then result (fire_signed c t) else None)
  end.

Definition fire_turn (message : Message) : M (option Reply) :=
  c <- st_get;;
  match fire_state c with
  | CsIdle => fire_idle message
  | CsDkgPublicDistribute => out <- fire_start_public_shares;; st_ret (send out)
  | CsDkgPublicGather =>
      fire_gather_public_shares message;;;
      c <- st_get;;
      st_ret (if bool_decide (fire_state c = CsDkgPublicGather) then more else None)
  | CsDkgPrivateDistribute => out <- fire_start_private_shares;; st_ret (send out)
  | CsDkgPrivateGather =>
      fire_gather_private_shares message;;;
      c <- st_get;;
      st_ret (if bool_decide (fire_state c = CsDkgPrivateGather) then more else None)
  | CsDkgEndDistribute => out <- fire_start_dkg_end;; st_ret (send out)
  | CsDkgEndGather => fire_dkg_end_turn message
  | CsNonceRequest t => out <- fire_request_nonces t;; st_ret (send out)
  | CsNonceGather t =>
      fire_gather_nonces message t;;;
      c <- st_get;;
      st_ret (if bool_decide (fire_state c = CsNonceGather t) then more else None)
  | CsSigShareRequest t => out <- fire_request_sig_shares t;; st_ret (send out)
  | CsSigShareGather t => fire_sig_share_turn message t
  end.

Fixpoint fire_loop (fuel : nat) (message : Message) : M Reply :=
  match fuel with
  | O => st_lift Diverge
  | S fuel =>
      r <- fire_turn message;;
      match r with
      | Some reply => st_ret reply
      | None => fire_loop fuel message
      end
  end.

Definition fire_process_message (message : Message) : M Reply := fire_loop 2 message.

(** [process_inbound_messages] *)
Fixpoint fire_process_inbound_messages (messages : list Message) : M (list Message * list OperationResult) :=
  match messages with
  | [] => st_ret ([], [])
  | m :: messages =>
      reply <- fire_process_message m;;
      rest <- fire_process_inbound_messages messages;;
      st_ret (option_list reply.1 ++ rest.1, option_list reply.2 ++ rest.2)
  end.
End Fire.

(** ** Invariant *)
Section FireInvariant.
Context `{WstsCrypto}.
Implicit Types (c : FireCoordinator).

(** A response collected for [message]: it answers the current round, comes
    from a configured signer not marked malicious, and offers valid nonces for
    exactly the keys of that signer. *)
Record nonce_ok c (message : list Z) (i : Z) (r : NetNonceResponse) : Prop := {
  nok_signer : nr_signer_id r = i;
  nok_message : nr_message r = message;
  nok_round : nr_dkg_id r = fire_current_dkg_id c /\ nr_sign_id r = fire_current_sign_id c /\
              nr_sign_iter_id r = fire_current_sign_iter_id c;
  nok_known : is_Some (cfg_signer_public_keys (fire_config c) !! i);
  nok_keys : cfg_signer_key_ids (fire_config c) !! i = Some (list_to_set (nr_key_ids r));
  nok_valid : Forall (fun n => public_nonce_is_valid n = true) (nr_nonces r);
  nok_honest : i ∉ fire_malicious_signer_ids c }.

Record info_ok c (message : list Z) (info : SignRoundInfo) : Prop := {
  iok_nonces : forall i r, sri_public_nonces info !! i = Some r -> nonce_ok c message i r;
  iok_keys : forall k, k ∈ sri_nonce_recv_key_ids info <->
               exists i r, sri_public_nonces info !! i = Some r /\ k ∈ nr_key_ids r }.

Definition quorum c (info : SignRoundInfo) : Prop :=
  cfg_threshold (fire_config c) <= Z.of_nat (size (sri_nonce_recv_key_ids info)).

Definition all_awaited (info : SignRoundInfo) : Prop :=
  forall i, is_Some (sri_public_nonces info !! i) -> i ∈ sri_sign_wait_signer_ids info.
Definition awaited_or_shared c (info : SignRoundInfo) : Prop :=
  forall i, is_Some (sri_public_nonces info !! i) ->
    i ∈ sri_sign_wait_signer_ids info \/ is_Some (fire_signature_shares c !! i).

Definition round_inv c : Prop :=
  match fire_state c with
  | CsNonceGather _ => forall message info, fire_message_nonces c !! message = Some info ->
      info_ok c message info /\ all_awaited info
  | CsSigShareRequest _ => exists info, fire_message_nonces c !! fire_message c = Some info /\
      info_ok c (fire_message c) info /\ quorum c info /\ all_awaited info
  | CsSigShareGather _ => exists info, fire_message_nonces c !! fire_message c = Some info /\
      info_ok c (fire_message c) info /\ quorum c info /\ awaited_or_shared c info
  | _ => True
  end.

Definition in_range {A} c (m : gmap Z A) : Prop := forall i, is_Some (m !! i) -> i ∈ signer_range (fire_config c).

(** The maps of key generation hold configured signers; once the public
    shares are gathered every signer has one. *)
Definition dkg_inv c : Prop :=
  in_range c (cfg_signer_public_keys (fire_config c)) /\ in_range c (fire_dkg_private_shares c) /\
  in_range c (fire_dkg_end_messages c) /\
  match fire_state c with
  | CsDkgPublicGather => forall i, i ∈ signer_range (fire_config c) ->
      i ∈ fire_dkg_wait_signer_ids c \/ is_Some (fire_dkg_public_shares c !! i)
  | CsDkgPrivateDistribute | CsDkgPrivateGather | CsDkgEndDistribute =>
      forall i, i ∈ signer_range (fire_config c) -> is_Some (fire_dkg_public_shares c !! i)
  | CsDkgEndGather =>
      (forall i, i ∈ signer_range (fire_config c) -> is_Some (fire_dkg_public_shares c !! i)) /\
      forall i, i ∈ fire_dkg_wait_signer_ids c -> i ∈ signer_range (fire_config c)
  | _ => True
  end.

Definition fire_inv c : Prop := dkg_inv c /\ round_inv c.

(** The group key is not the point at infinity when a taproot signature is
    being aggregated. *)
Definition fire_key_ok c : Prop := forall root, fire_state c = CsSigShareGather (Taproot root) ->
  sum_constant_terms (map_to_list (fire_party_polynomials c)) <> point_default.

(** The coordinator after it has recorded [m] in [gather_dkg_end]. *)
Definition record_end (m : Message) c : FireCoordinator :=
  match m with
  | MsgDkgEnd m => if bool_decide (de_signer_id m ∈ fire_dkg_wait_signer_ids c)
      then fire_set_dkg_end_messages (<[de_signer_id m := m]> (fire_dkg_end_messages c))
             (fire_set_dkg_wait_signer_ids (fire_dkg_wait_signer_ids c ∖ {[de_signer_id m]}) c)
      else c
  | _ => c
  end.

(** The failures that signers report can be checked without an index out of
    the coordinator's maps. *)
Definition reports_ok m c : Prop := fire_state c = CsDkgEndGather ->
  ~ crashed (check_failures (record_end m c) (btree_list (fire_dkg_end_messages (record_end m c)))
      (fire_malicious_dkg_signer_ids c, ∅)).
End FireInvariant.

Ltac fire_unfold := unfold fire_move_to, st_ok_or, st_catch, st_bind, st_get, st_modify, st_throw, st_ret, st_lift.

Section FireProofs.
Context `{WstsCryptoLaws}.
Implicit Types (c : FireCoordinator).

Lemma fire_gather_public_triple m :
  triple (fun c => fire_inv c /\ fire_state c = CsDkgPublicGather) (fire_gather_public_shares m)
    (fun _ c => fire_inv c /\ (fire_state c = CsDkgPublicGather \/ fire_state c = CsDkgPrivateDistribute))
    (fun _ c => fire_inv c).
Proof.
  assert (triple (fun c => fire_inv c /\ fire_state c = CsDkgPublicGather)
    (c <- st_get;; if bool_decide (fire_dkg_wait_signer_ids c = ∅) then fire_move_to CsDkgPrivateDistribute else st_ret tt)
    (fun _ c => fire_inv c /\ (fire_state c = CsDkgPublicGather \/ fire_state c = CsDkgPrivateDistribute))
    (fun _ c => fire_inv c)) as Hdone.
  { intros c [Hi Hs]. fire_unfold. case_bool_decide as He; [|auto]. rewrite Hs. cbn. split; [|auto].
    destruct Hi as [(? & ? & ? & Hd) _]. rewrite Hs in Hd. split; [|done]. split_and!; [done..|].
    cbn. intros i Hi. destruct (Hd i Hi) as [Ha|?]; [rewrite He in Ha; set_solver|done]. }
  intros c Hc. unfold fire_gather_public_shares. destruct m; try exact (Hdone c Hc).
  unfold st_bind at 1. cbn [st_get]. destruct (negb _); [by apply Hc|]. case_bool_decide as Hk; [destruct Hc; cbn; auto|].
  apply Hdone. destruct Hc as [[(? & ? & ? & Hd) _] Hs]. rewrite Hs in Hd. split; [|done].
  split; [|unfold round_inv; cbn; by rewrite Hs]. split_and!; [done..|]. cbn. rewrite Hs. intros i Hi.
  destruct (decide (i = dps_signer_id m)) as [->|Hne]; [rewrite lookup_insert_eq; eauto|rewrite lookup_insert_ne by done].
  destruct (Hd i Hi); [left; set_solver|auto].
Qed.

Lemma in_range_insert {A} c (m : gmap Z A) i x :
  in_range c (cfg_signer_public_keys (fire_config c)) -> cfg_signer_public_keys (fire_config c) !! i <> None ->
  in_range c m -> in_range c (<[i := x]> m).
Proof.
  intros Hk Hi Hm j. destruct (decide (j = i)) as [->|Hne]; [|rewrite lookup_insert_ne by done; apply Hm].
  intros _. apply Hk. by apply not_eq_None_Some.
Qed.

Lemma fire_gather_private_triple m :
  triple (fun c => fire_inv c /\ fire_state c = CsDkgPrivateGather) (fire_gather_private_shares m)
    (fun _ c => fire_inv c /\ (fire_state c = CsDkgPrivateGather \/ fire_state c = CsDkgEndDistribute))
    (fun _ c => fire_inv c).
Proof.
  assert (triple (fun c => fire_inv c /\ fire_state c = CsDkgPrivateGather)
    (c <- st_get;; if bool_decide (fire_dkg_wait_signer_ids c = ∅) then fire_move_to CsDkgEndDistribute else st_ret tt)
    (fun _ c => fire_inv c /\ (fire_state c = CsDkgPrivateGather \/ fire_state c = CsDkgEndDistribute))
    (fun _ c => fire_inv c)) as Hdone.
  { intros c [Hi Hs]. fire_unfold. case_bool_decide as He; [|auto]. rewrite Hs. cbn. split; [|auto].
    destruct Hi as [(? & ? & ? & Hd) _]. rewrite Hs in Hd. split; [|done]. by split_and!. }
  intros c Hc. unfold fire_gather_private_shares. destruct m; try exact (Hdone c Hc).
  unfold st_bind at 1. cbn [st_get]. destruct (negb _); [by apply Hc|]. case_bool_decide as Hk; [destruct Hc; cbn; auto|].
  apply Hdone. destruct Hc as [[(? & Hp & ? & Hd) _] Hs]. rewrite Hs in Hd. split; [|done].
  split; [|unfold round_inv; cbn; by rewrite Hs]. split_and!; [done| |done|cbn; by rewrite Hs].
  by apply (in_range_insert c).
Qed.

Lemma comms_of_some c (ids : list Z) : (forall i, i ∈ signer_range (fire_config c) -> is_Some (fire_dkg_public_shares c !! i)) ->
  (forall i, i ∈ ids -> i ∈ signer_range (fire_config c)) -> is_Some (comms_of (fire_dkg_public_shares c) ids).
Proof.
  intros Hp Hi. destruct (index_all_some (fire_dkg_public_shares c) ids) as (l & Hl & _); [auto|].
  unfold comms_of. rewrite Hl. by eexists.
Qed.
Lemma btree_keys_range {A} c (m : gmap Z A) i : in_range c m -> i ∈ (btree_list m).*1 -> i ∈ signer_range (fire_config c).
Proof. intros Hm ([j x] & -> & Hj)%list_elem_of_fmap. apply Hm. apply elem_of_btree_list in Hj. by eexists. Qed.

Lemma fire_dkg_end_gathered_triple :
  triple (fun c => fire_inv c /\ fire_state c = CsDkgEndGather) fire_dkg_end_gathered
    (fun _ c => fire_inv c /\ fire_state c = CsIdle /\ is_Some (fire_aggregate_public_key c)) (fun _ c => fire_inv c).
Proof.
  intros c [[(Hk & Hp & He & Hd) _] Hs]. rewrite Hs in Hd. destruct Hd as [Hd _].
  unfold fire_dkg_end_gathered. fire_unfold. cbn [fire_dkg_public_shares fire_set_party_polynomials].
  destruct (comms_of_some c (btree_list (fire_dkg_private_shares c)).*1 Hd) as [comms ->].
  { intros i. by apply btree_keys_range. }
  destruct (comms_of_some c (btree_list (fire_dkg_end_messages c)).*1 Hd) as [keys ->].
  { intros i. by apply btree_keys_range. }
  cbn. split_and!; [|done|by eexists]. by repeat split.
Qed.

(** Recording a [DkgEnd] keeps the invariant. *)
Lemma record_end_inv m c : fire_inv c -> fire_state c = CsDkgEndGather -> fire_inv (record_end m c) /\ fire_state (record_end m c) = CsDkgEndGather.
Proof.
  intros [(Hk & Hp & He & Hd) Hr] Hs. rewrite Hs in Hd. destruct Hd as [Hd Hw].
  assert (fire_inv c) as Hi by (split; [by split_and!; try done; rewrite Hs|done]).
  destruct m; try done. cbn [record_end]. case_bool_decide as Hin; [|done]. split; [|done].
  split; [|unfold round_inv; cbn; by rewrite Hs]. split_and!; [done|done| |cbn; rewrite Hs; split; [done|set_solver]].
  intros i. cbn. destruct (decide (i = de_signer_id m)) as [->|Hne]; [intros _; by apply Hw|rewrite lookup_insert_ne by done; apply He].
Qed.

Lemma fire_gather_dkg_end_triple m :
  triple (fun c => fire_inv c /\ fire_state c = CsDkgEndGather /\ reports_ok m c) (fire_gather_dkg_end m)
    (fun _ c => fire_inv c /\ (fire_state c = CsDkgEndGather \/ fire_state c = CsIdle /\ is_Some (fire_aggregate_public_key c)))
    (fun _ c => fire_inv c).
Proof.
  assert (forall c, fire_inv c -> fire_state c = CsDkgEndGather ->
    ~ crashed (check_failures c (btree_list (fire_dkg_end_messages c)) (fire_malicious_dkg_signer_ids c, ∅)) ->
    match fire_dkg_end_done c with
    | (c, Ok _) => fire_inv c /\ (fire_state c = CsDkgEndGather \/ fire_state c = CsIdle /\ is_Some (fire_aggregate_public_key c))
    | (c, Err _) => fire_inv c
    | _ => False
    end) as Hdone.
  { intros c Hi Hs Hc. unfold fire_dkg_end_done, st_bind at 1. cbn [st_get]. case_bool_decide; [|cbn; auto].
    unfold st_bind at 1, st_lift. destruct (check_failures _ _ _) as [v|e| |]; [|done|by destruct Hc..].
    assert (fire_inv (fire_set_malicious_dkg_signer_ids v.1 c)) as Hi'.
    { destruct Hi as [? Hr]. split; [done|]. unfold round_inv in *. cbn. by rewrite Hs. }
    unfold st_bind at 1, st_modify. case_bool_decide; [|exact Hi'].
    pose proof (fire_dkg_end_gathered_triple _ (conj Hi' Hs)) as Ht.
    destruct (fire_dkg_end_gathered _) as [c' []]; [destruct Ht as (? & ? & ?); auto|done..]. }
  intros c (Hi & Hs & Hr). specialize (Hr Hs). destruct (record_end_inv m c Hi Hs) as [Hi' Hs'].
  assert (fire_malicious_dkg_signer_ids (record_end m c) = fire_malicious_dkg_signer_ids c) as Hm.
  { destruct m; try done. cbn. by case_bool_decide. }
  rewrite <- Hm in Hr. specialize (Hdone _ Hi' Hs' Hr). unfold fire_gather_dkg_end.
  destruct m; try exact Hdone. unfold st_bind at 1. cbn [st_get]. destruct (negb _); [done|].
  unfold st_bind at 1. cbn [record_end] in Hdone. by case_bool_decide.
Qed.

(** Requesting nonces starts with no responses. *)
Lemma fire_request_nonces_triple t :
  triple (fun c => fire_inv c /\ fire_state c = CsNonceRequest t) (fire_request_nonces t)
    (fun _ c => fire_inv c) (fun _ c => fire_inv c).
Proof.
  intros c [[(Hk & Hp & He & Hd) _] Hs]. unfold fire_request_nonces. fire_unfold.
  cbn [fire_state fire_set_message_nonces fire_set_current_sign_iter_id]. rewrite Hs. cbn [fire_can_move_to].
  rewrite bool_decide_eq_true_2 by done. cbn. split; [by split_and!|]. unfold round_inv. cbn. intros message info. by rewrite lookup_empty.
Qed.

Lemma check_nonces_ok c m key_ids : fire_check_nonces c m = Ok (Some key_ids) ->
  nonce_ok c (nr_message m) (nr_signer_id m) m /\ key_ids = list_to_set (nr_key_ids m).
Proof.
  unfold fire_check_nonces. intros Hck.
  destruct (nr_dkg_id m =? _) eqn:H1; [|done]. destruct (nr_sign_id m =? _) eqn:H2; [|done].
  destruct (nr_sign_iter_id m =? _) eqn:H3; [|done]. cbn [negb] in Hck.
  case_bool_decide as H4; [done|]. destruct (cfg_signer_key_ids _ !! _) as [ks|] eqn:H5; [|done].
  case_bool_decide as H6; [|done]. destruct (forallb _ _) eqn:H7; [|done]. case_bool_decide as H8; [done|]. cbn in Hck. simplify_eq.
  split; [|done]. split; try done.
  - lia.
  - by apply not_eq_None_Some.
  - apply Forall_forall. intros n Hn. rewrite forallb_forall in H7. by apply H7, list_elem_of_In.
Qed.
Lemma check_nonces_never_crashes c m : ~ crashed (fire_check_nonces c m).
Proof. unfold fire_check_nonces. repeat case_match; cbn; tauto. Qed.
Lemma fire_check_shares_safe c m : ~ crashed (fire_check_shares c m).
Proof. unfold fire_check_shares. repeat case_match; cbn; tauto. Qed.

(** Collecting one more response. *)
Lemma add_nonces_ok c message info m : info_ok c message info -> nonce_ok c message (nr_signer_id m) m ->
  info_ok c message (add_nonces m (list_to_set (nr_key_ids m)) info).
Proof.
  intros [Hn Hk] Hm. split; cbn.
  - intros i r. destruct (decide (i = nr_signer_id m)) as [->|Hne];
      [rewrite lookup_insert_eq; by intros [= <-]|rewrite lookup_insert_ne by done; apply Hn].
  - intros k. rewrite elem_of_union, Hk, elem_of_list_to_set. split.
    + intros [(i & r & Hi & Hin)|Hin]; [|exists (nr_signer_id m), m; by rewrite lookup_insert_eq].
      destruct (decide (i = nr_signer_id m)) as [->|Hne]; [|exists i, r; by rewrite lookup_insert_ne].
      exists (nr_signer_id m), m. split; [by rewrite lookup_insert_eq|].
      pose proof (nok_keys _ _ _ _ (Hn _ _ Hi)) as Hkr. pose proof (nok_keys _ _ _ _ Hm) as Hkm. rewrite Hkr in Hkm.
      injection Hkm as Hkm. rewrite <- (elem_of_list_to_set (C := gset Z)), <- Hkm. by apply elem_of_list_to_set.
    + intros (i & r & Hi & Hin). destruct (decide (i = nr_signer_id m)) as [->|Hne].
      * rewrite lookup_insert_eq in Hi. simplify_eq. auto.
      * rewrite lookup_insert_ne in Hi by done. left. eauto.
Qed.
Lemma sri_default_ok c message : info_ok c message sri_default.
Proof. split; cbn; [intros i r; by rewrite lookup_empty|]. intros k. split; [set_solver|]. intros (i & r & Hi & _). by rewrite lookup_empty in Hi. Qed.

(** What [info_ok] reads of the coordinator. *)
Definition round_of c := (fire_config c, fire_current_dkg_id c, fire_current_sign_id c, fire_current_sign_iter_id c,
  fire_malicious_signer_ids c).
Lemma nonce_ok_same c c' message i r : round_of c' = round_of c -> nonce_ok c message i r -> nonce_ok c' message i r.
Proof. intros [= H1 H2 H3 H4 H5] []. split; by rewrite ?H1, ?H2, ?H3, ?H4, ?H5. Qed.
Lemma info_ok_same c c' message info : round_of c' = round_of c -> info_ok c message info -> info_ok c' message info.
Proof. intros Hc [Hn Hk]. split; [|done]. intros i r Hi. eapply nonce_ok_same; eauto. Qed.

Lemma fire_gather_nonces_triple m t :
  triple (fun c => fire_inv c /\ fire_state c = CsNonceGather t) (fire_gather_nonces m t)
    (fun _ c => fire_inv c /\ (fire_state c = CsNonceGather t \/ fire_state c = CsSigShareRequest t))
    (fun _ c => fire_inv c).
Proof.
  intros c [Hi Hs]. unfold fire_gather_nonces. destruct m; try (cbn; by auto).
  unfold st_bind at 1. cbn [st_get]. unfold st_bind at 1, st_lift. pose proof (check_nonces_never_crashes c m) as Hsafe.
  destruct (fire_check_nonces c m) as [[ks|]|e| |] eqn:Hck; [|cbn; by auto|done|by destruct Hsafe..].
  apply check_nonces_ok in Hck as [Hm ->]. destruct Hi as [(Hk & Hp & He & Hd) Hr]. unfold round_inv in Hr. rewrite Hs in Hr.
  assert (info_ok c (nr_message m) (info_of c (nr_message m)) /\ all_awaited (info_of c (nr_message m))) as [Hio Haw].
  { unfold info_of. destruct (fire_message_nonces c !! nr_message m) as [info|] eqn:Hl; [by apply Hr|].
    split; [apply sri_default_ok|]. intros i. cbn. rewrite lookup_empty. by intros []. }
  set (info := add_nonces m _ _). assert (info_ok c (nr_message m) info) as Hio' by (by apply add_nonces_ok).
  assert (all_awaited info) as Haw'.
  { intros i. cbn. destruct (decide (i = nr_signer_id m)) as [->|Hne]; [set_solver|rewrite lookup_insert_ne by done].
    intros Hi%Haw. set_solver. }
  unfold st_bind at 1, st_modify. destruct (Z.leb_spec (cfg_threshold (fire_config c)) (Z.of_nat (size (sri_nonce_recv_key_ids info)))).
  - fire_unfold. cbn [fire_set_message_nonces fire_set_message fire_state]. rewrite Hs. cbn [fire_can_move_to].
    rewrite bool_decide_eq_true_2 by done. split; [|by right]. split; [by split_and!|]. unfold round_inv. cbn.
    exists info. rewrite lookup_insert_eq. split_and!; [done|by apply (info_ok_same c)|done|done].
  - split; [|by left]. split; [split_and!; [done..|cbn; by rewrite Hs]|]. unfold round_inv. cbn. rewrite Hs.
    intros message info'. destruct (decide (message = nr_message m)) as [->|Hne].
    + rewrite lookup_insert_eq. intros [= <-]. split; [by apply (info_ok_same c)|done].
    + rewrite lookup_insert_ne by done. intros Hl. destruct (Hr _ _ Hl) as [? ?]. split; [by apply (info_ok_same c)|done].
Qed.

Lemma fire_request_sig_shares_triple t :
  triple (fun c => fire_inv c /\ fire_state c = CsSigShareRequest t) (fire_request_sig_shares t)
    (fun _ c => fire_inv c) (fun _ c => fire_inv c).
Proof.
  intros c [[(Hk & Hp & He & Hd) Hr] Hs]. unfold round_inv in Hr. rewrite Hs in Hr. destruct Hr as (info & Hl & Hio & Hq & Haw).
  unfold fire_request_sig_shares. fire_unfold. cbn [fire_set_signature_shares fire_message_nonces fire_message]. rewrite Hl.
  cbn [ok_or fire_state fire_set_signature_shares]. rewrite Hs. cbn [fire_can_move_to]. rewrite bool_decide_eq_true_2 by done.
  split; [by split_and!|]. unfold round_inv. cbn. exists info. split_and!; [done|by apply (info_ok_same c)|done|]. intros i Hi. left. by apply Haw.
Qed.

Lemma fire_aggregation_inputs_some c info : (forall i, is_Some (sri_public_nonces info !! i) -> is_Some (fire_signature_shares c !! i)) ->
  exists inputs, fire_aggregation_inputs c info = Ok inputs.
Proof.
  intros Hi. unfold fire_aggregation_inputs.
  destruct (index_all_some (fire_signature_shares c) (btree_list (sri_public_nonces info)).*1) as (l & Hl & _).
  - intros i ([j x] & -> & Hj)%list_elem_of_fmap. apply Hi. apply elem_of_btree_list in Hj. by eexists.
  - rewrite Hl. by eexists.
Qed.

(** Aggregation leaves the coordinator idle or as it was. *)
Lemma fire_aggregate_triple t info :
  triple (fun c => fire_inv c /\ fire_key_ok c /\ fire_state c = CsSigShareGather t /\
      (forall i, is_Some (sri_public_nonces info !! i) -> is_Some (fire_signature_shares c !! i)))
    (fire_aggregate t info) (fun _ c => fire_inv c /\ fire_state c = CsIdle) (fun _ c => fire_inv c).
Proof.
  intros c (Hinv & Hkey & Hs & Hsh). destruct (fire_aggregation_inputs_some c info Hsh) as [[[nonces ids] shares] Hin].
  pose proof Hinv as [(Hk & Hp & He & Hd) Hr].
  assert (forall a, fire_inv (fire_set_aggregator a c)) as Hagg.
  { intros a. split; [by split_and!|]. unfold round_inv in *. cbn. rewrite Hs in *. destruct Hr as (i & Hl & Ho & Hq & Ha).
    exists i. split_and!; try done. by apply (info_ok_same c). }
  unfold fire_aggregate, st_bind, st_get, st_modify, st_lift. rewrite Hin.
  set (a := aggregator_init _ _). pose proof (init_no_crash (fire_aggregator c) (fire_party_polynomials c)) as Hc0.
  assert (a.2 = Ok tt -> forall root, t = Taproot root ->
    ~ crashed (aggregator_sign_taproot a.1 (fire_message c) nonces shares ids root)) as Htap.
  { intros Ha root ->. by apply sign_taproot_no_crash; [|apply (Hkey root)]. }
  pose proof (sign_no_crash a.1 (fire_message c) nonces shares ids) as Hc1.
  pose proof (sign_schnorr_no_crash a.1 (fire_message c) nonces shares ids) as Hc2.
  fold a in Hc0. destruct a.2 as [[]|e| |]; cbn [map_err]; [|apply Hagg|by destruct Hc0..].
  destruct t as [| |root]; cbn [fire_set_aggregator fire_aggregator fire_message]; [clear Hc2 Htap|clear Hc1 Htap|clear Hc1 Hc2; specialize (Htap eq_refl root eq_refl)].
  - destruct (aggregator_sign _ _ _ _ _); cbn [map_err]; [|apply Hagg|by destruct Hc1..]. fire_unfold. split; [|done].
    split; [by split_and!|done].
  - destruct (aggregator_sign_schnorr _ _ _ _ _); cbn [map_err]; [|apply Hagg|by destruct Hc2..]. fire_unfold. split; [|done].
    split; [by split_and!|done].
  - destruct (aggregator_sign_taproot _ _ _ _ _ _); cbn [map_err]; [|apply Hagg|by destruct Htap..]. fire_unfold. split; [|done].
    split; [by split_and!|done].
Qed.

Lemma fire_shares_done_triple t :
  triple (fun c => fire_inv c /\ fire_key_ok c /\ fire_state c = CsSigShareGather t) (fire_shares_done t)
    (fun _ c => fire_inv c /\ (fire_state c = CsSigShareGather t \/ fire_state c = CsIdle)) (fun _ c => fire_inv c).
Proof.
  intros c (Hi & Hk & Hs). unfold fire_shares_done, st_bind at 1. cbn [st_get]. pose proof Hi as [_ Hr]. unfold round_inv in Hr.
  rewrite Hs in Hr. destruct Hr as (info & Hl & Hio & Hq & Ha). rewrite Hl. unfold st_bind at 1. cbn [st_ok_or ok_or].
  unfold st_ok_or, st_lift. cbn [ok_or]. case_bool_decide as He; [|cbn; auto].
  pose proof (fire_aggregate_triple t info c) as Ht. unfold triple in Ht. assert (forall i, is_Some (sri_public_nonces info !! i) ->
    is_Some (fire_signature_shares c !! i)) as Hsh.
  { intros i Hi'. destruct (Ha i Hi') as [Hw|?]; [rewrite He in Hw; set_solver|done]. }
  specialize (Ht (conj Hi (conj Hk (conj Hs Hsh)))). destruct (fire_aggregate t info c) as [c' []]; [destruct Ht; auto|done..].
Qed.

Lemma fire_gather_sig_shares_triple m t :
  triple (fun c => fire_inv c /\ fire_key_ok c /\ fire_state c = CsSigShareGather t) (fire_gather_sig_shares m t)
    (fun _ c => fire_inv c /\ (fire_state c = CsSigShareGather t \/ fire_state c = CsIdle)) (fun _ c => fire_inv c).
Proof.
  intros c Hc. pose proof (fire_shares_done_triple t) as Hdone. unfold fire_gather_sig_shares.
  destruct m; try exact (Hdone c Hc). unfold st_bind at 1. cbn [st_get]. unfold st_bind at 1, st_lift.
  pose proof (fire_check_shares_safe c m) as Hsafe. destruct Hc as (Hi & Hk & Hs).
  destruct (fire_check_shares c m) as [[]|e| |]; try (by destruct Hsafe); [|cbn; by auto|done]. cbn [negb].
  unfold st_bind, st_modify. apply Hdone. clear Hdone. split_and!; [|done|done].
  destruct Hi as [(Hkk & Hp & He & Hd) Hr]. split; [by split_and!|]. unfold round_inv in *. cbn. rewrite Hs in *.
  destruct Hr as (info & Hl & Hio & Hq & Ha). exists (add_shares m info). rewrite lookup_insert_eq.
  unfold info_of. cbn. rewrite Hl. cbn [default]. split; [done|].
  assert (sri_public_nonces (add_shares m info) = sri_public_nonces info /\
    sri_nonce_recv_key_ids (add_shares m info) = sri_nonce_recv_key_ids info) as [Hpn Hrk].
  { unfold add_shares. by case_bool_decide. }
  split_and!.
  - apply (info_ok_same c); [done|]. destruct Hio as [Hn Hks]. split; [by rewrite Hpn|by rewrite Hpn, Hrk].
  - unfold quorum. rewrite Hrk. exact Hq.
  - intros i. rewrite Hpn. cbn. intros Hi. destruct (decide (i = sr_signer_id m)) as [->|Hne]; [rewrite lookup_insert_eq; eauto|].
    rewrite lookup_insert_ne by done. destruct (Ha i Hi) as [Hw|?]; [|auto]. left. unfold add_shares. case_bool_decide; [cbn|done].
    set_solver.
Qed.

Lemma fire_start_public_triple s : fire_can_move_to s CsDkgPublicGather = true ->
  triple (fun c => fire_inv c /\ fire_state c = s) fire_start_public_shares (fun _ c => fire_inv c) (fun _ c => fire_inv c).
Proof.
  intros Hm c [[(Hk & Hp & He & _) _] Hs]. subst s. unfold fire_start_public_shares. fire_unfold.
  cbn [fire_set_dkg_wait_signer_ids fire_set_party_polynomials fire_set_dkg_public_shares fire_state]. rewrite Hm.
  split; [|done]. split_and!; [done..|]. cbn. intros i Hi. left. by apply elem_of_list_to_set.
Qed.

Lemma fire_start_private_triple :
  triple (fun c => fire_inv c /\ fire_state c = CsDkgPrivateDistribute) fire_start_private_shares
    (fun _ c => fire_inv c) (fun _ c => fire_inv c).
Proof.
  intros c [[(Hk & Hp & He & Hd) _] Hs]. rewrite Hs in Hd. unfold fire_start_private_shares. fire_unfold.
  cbn [fire_set_dkg_wait_signer_ids fire_state]. rewrite Hs. cbn. split; [|done]. by split_and!.
Qed.

Lemma fire_start_dkg_end_triple :
  triple (fun c => fire_inv c /\ fire_state c = CsDkgEndDistribute) fire_start_dkg_end
    (fun _ c => fire_inv c) (fun _ c => fire_inv c).
Proof.
  intros c [[(Hk & Hp & He & Hd) _] Hs]. rewrite Hs in Hd. unfold fire_start_dkg_end. fire_unfold.
  cbn [fire_set_dkg_wait_signer_ids fire_state]. rewrite Hs. cbn. split; [|done]. split_and!; [done..|]. cbn. split; [done|].
  intros i Hi%elem_of_dom. by apply Hp.
Qed.

Lemma fire_idle_triple m :
  triple (fun c => fire_inv c /\ fire_state c = CsIdle) (fire_idle m)
    (fun r c => fire_inv c /\ r <> None) (fun _ c => fire_inv c).
Proof.
  intros c [[(Hk & Hp & He & Hd) Hr] Hs]. unfold fire_idle. unfold st_bind at 1. cbn [st_get].
  destruct m; try done; (destruct (_ <=? _); [done|]).
  - unfold fire_start_dkg_round. fire_unfold.
    cbn [fire_state fire_set_current_dkg_id fire_set_dkg_wait_signer_ids fire_set_party_polynomials fire_set_dkg_public_shares].
    rewrite Hs. cbn [fire_can_move_to]. rewrite bool_decide_eq_true_2 by done.
    match goal with |- context [fire_start_public_shares ?c'] =>
      assert (fire_inv c') as Hi' by (by split; [split_and!|]);
      pose proof (fire_start_public_triple CsDkgPublicDistribute eq_refl c' (conj Hi' eq_refl)) as Ht end.
    by destruct (fire_start_public_shares _) as [c' []].
  - unfold fire_start_signing_round, st_bind, st_get, st_modify. cbn [fire_aggregate_public_key fire_set_current_sign_id fire_set_current_sign_iter_id].
    case_bool_decide. { unfold st_throw. split; [by split_and!|]. unfold round_inv. cbn. by rewrite Hs. }
    unfold fire_move_to, st_modify, st_bind, st_get. cbn [fire_state fire_set_message fire_set_current_sign_id fire_set_current_sign_iter_id].
    rewrite Hs. cbn [fire_can_move_to]. rewrite bool_decide_eq_true_2 by done. cbn [orb].
    match goal with |- context [fire_request_nonces ?t ?c'] =>
      assert (fire_inv c') as Hi' by (by split; [split_and!|]);
      pose proof (fire_request_nonces_triple t c' (conj Hi' eq_refl)) as Ht end.
    by destruct (fire_request_nonces _ _) as [c' []].
Qed.

Lemma fire_dkg_end_turn_triple m :
  triple (fun c => fire_inv c /\ fire_state c = CsDkgEndGather /\ reports_ok m c) (fire_dkg_end_turn m)
    (fun r c => fire_inv c /\ (r = None -> mid_state (fire_state c) = true)) (fun _ c => fire_inv c).
Proof.
  intros c Hc. pose proof (fire_gather_dkg_end_triple m c Hc) as Ht. unfold fire_dkg_end_turn, st_catch, st_bind, st_ret, st_get.
  destruct (fire_gather_dkg_end m c) as [c' []]; [|by destruct e|done..]. destruct Ht as [Hi' [Hs'|[Hs' [key Hkey]]]]; rewrite Hs'.
  - by rewrite bool_decide_eq_true_2.
  - rewrite bool_decide_eq_false_2, bool_decide_eq_true_2 by done. by rewrite Hkey.
Qed.

Lemma fire_sig_share_turn_triple m t :
  triple (fun c => fire_inv c /\ fire_key_ok c /\ fire_state c = CsSigShareGather t) (fire_sig_share_turn m t)
    (fun r c => fire_inv c /\ (r = None -> mid_state (fire_state c) = true)) (fun _ c => fire_inv c).
Proof.
  intros c Hc. pose proof (fire_gather_sig_shares_triple m t c Hc) as Ht. unfold fire_sig_share_turn, st_catch, st_bind, st_ret, st_get.
  destruct (fire_gather_sig_shares m t c) as [c' []]; [|by split|done..]. destruct Ht as [Hi' [Hs'|Hs']]; rewrite Hs'.
  - by rewrite bool_decide_eq_true_2.
  - by rewrite bool_decide_eq_false_2, bool_decide_eq_true_2.
Qed.

Lemma fire_turn_triple m :
  triple (fun c => fire_inv c /\ fire_key_ok c /\ reports_ok m c) (fire_turn m)
    (fun r c => fire_inv c /\ (r = None -> mid_state (fire_state c) = true)) (fun _ c => fire_inv c).
Proof.
  intros c (Hi & Hk & Hr). unfold fire_turn. unfold st_bind at 1. cbn [st_get]. destruct (fire_state c) eqn:Hs.
  - pose proof (fire_idle_triple m c (conj Hi Hs)) as Ht. destruct (fire_idle m c) as [c' []]; [|done..]. naive_solver.
  - pose proof (fire_start_public_triple CsDkgPublicDistribute eq_refl c (conj Hi Hs)) as Ht. unfold st_bind, st_ret.
    by destruct (fire_start_public_shares c) as [c' []].
  - pose proof (fire_gather_public_triple m c (conj Hi Hs)) as Ht. unfold st_bind, st_ret, st_get.
    destruct (fire_gather_public_shares m c) as [c' []]; [|done..]. destruct Ht as [? [Hs'|Hs']]; rewrite Hs'; cbn; by split.
  - pose proof (fire_start_private_triple c (conj Hi Hs)) as Ht. unfold st_bind, st_ret.
    by destruct (fire_start_private_shares c) as [c' []].
  - pose proof (fire_gather_private_triple m c (conj Hi Hs)) as Ht. unfold st_bind, st_ret, st_get.
    destruct (fire_gather_private_shares m c) as [c' []]; [|done..]. destruct Ht as [? [Hs'|Hs']]; rewrite Hs'; cbn; by split.
  - pose proof (fire_start_dkg_end_triple c (conj Hi Hs)) as Ht. unfold st_bind, st_ret.
    by destruct (fire_start_dkg_end c) as [c' []].
  - by apply fire_dkg_end_turn_triple.
  - pose proof (fire_request_nonces_triple t c (conj Hi Hs)) as Ht. unfold st_bind, st_ret.
    by destruct (fire_request_nonces t c) as [c' []].
  - pose proof (fire_gather_nonces_triple m t c (conj Hi Hs)) as Ht. unfold st_bind, st_ret, st_get.
    destruct (fire_gather_nonces m t c) as [c' []]; [|done..].
    destruct Ht as [? [Hs'|Hs']]; rewrite Hs'; [rewrite bool_decide_eq_true_2 by done|rewrite bool_decide_eq_false_2 by done]; by split.
  - pose proof (fire_request_sig_shares_triple t c (conj Hi Hs)) as Ht. unfold st_bind, st_ret.
    by destruct (fire_request_sig_shares t c) as [c' []].
  - by apply fire_sig_share_turn_triple.
Qed.

Lemma fire_mid_turn_some m c : mid_state (fire_state c) = true ->
  match (fire_turn m c).2 with Ok None => False | _ => True end.
Proof.
  unfold fire_turn. unfold st_bind at 1. cbn [st_get]. destruct (fire_state c); try done; intros _; unfold st_bind at 1.
  - by destruct (fire_start_private_shares c) as [c' []].
  - by destruct (fire_start_dkg_end c) as [c' []].
  - by destruct (fire_request_sig_shares t c) as [c' []].
Qed.

Lemma fire_process_message_triple m :
  triple (fun c => fire_inv c /\ fire_key_ok c /\ reports_ok m c) (fire_process_message m)
    (fun _ c => fire_inv c) (fun _ c => fire_inv c).
Proof.
  intros c Hc. unfold fire_process_message. cbn [fire_loop]. unfold st_bind at 1.
  pose proof (fire_turn_triple m c Hc) as Ht. destruct (fire_turn m c) as [c1 [[r|]|e| |]]; try done; [by destruct Ht|].
  destruct Ht as [Hi Hm]. specialize (Hm eq_refl). unfold st_bind at 1.
  assert (fire_key_ok c1) as Hk by (intros root Hs; by rewrite Hs in Hm).
  assert (reports_ok m c1) as Hr by (intros Hs; by rewrite Hs in Hm).
  pose proof (fire_turn_triple m c1 (conj Hi (conj Hk Hr))) as Ht. pose proof (fire_mid_turn_some m c1 Hm) as Hne.
  destruct (fire_turn m c1) as [c2 [[r|]|e| |]]; try done. by destruct Ht.
Qed.

(** The FIRE coordinator is safe against every message. In a state that
    satisfies the invariant (every collected response answers the current round
    with the keys of a configured, unmarked signer; every signer it will index
    has an entry) [process_message] returns after at most two turns of its
    loop, never panics, and leaves the invariant, whatever the message and
    whether or not it is accepted.  The two exceptions are explicit: a group
    key at infinity, and reports of failures that name entries the coordinator
    does not have. *)
Theorem fire_process_message_safe c m : fire_inv c -> fire_key_ok c -> reports_ok m c ->
  fire_inv (fire_process_message m c).1 /\ ~ crashed (fire_process_message m c).2.
Proof.
  intros Hi Hk Hr. pose proof (fire_process_message_triple m c (conj Hi (conj Hk Hr))) as Ht.
  destruct (fire_process_message m c) as [c' []]; cbn; tauto.
Qed.
End FireProofs.

(** ** Verdicts *)
Section Verdicts.
Context `{WstsCrypto}.
Implicit Types (c : FireCoordinator) (v : gset Z * gmap Z DkgFailure).

(** The share [bytes] for key [k] opens under [shared_key] to the value of the
    committed polynomial. *)
Definition share_opens (shared_key : Point) (poly : PolyCommitment) (k : Z) (bytes : list Z) : Prop :=
  exists plain e, decrypt shared_key bytes = Some plain /\ scalar_try_from plain = Some e /\
    compute_poly k poly = Some (scalar_base e).

Definition public_bad c (b : Z) : Prop := exists shares e, fire_dkg_public_shares c !! b = Some shares /\
  e ∈ dps_comms shares /\ check_public_shares e.2 (cfg_threshold (fire_config c)) = false.

(** Signer [b] sent signer [j] a share that does not open under the shared key
    that [j] proves to be theirs. *)
Definition private_bad c (j b : Z) (s : BadPrivateShare) : Prop :=
  exists kj kb public private key_ids src ks poly k bytes,
    cfg_signer_public_keys (fire_config c) !! j = Some kj /\ cfg_signer_public_keys (fire_config c) !! b = Some kb /\
    tuple_proof_verify (bps_tuple_proof s) kj kb (bps_shared_key s) = true /\
    fire_dkg_public_shares c !! b = Some public /\ fire_dkg_private_shares c !! b = Some private /\
    cfg_signer_key_ids (fire_config c) !! j = Some key_ids /\
    (src, ks) ∈ dvs_shares private /\ insert_comms (dps_comms public) ∅ !! src = Some poly /\
    k ∈ key_ids /\ ks !! k = Some bytes /\ ~ share_opens (bps_shared_key s) poly k bytes.

(** The report [f] of signer [j] convicts signer [i]: a report that holds
    convicts the accused, one that does not convicts the accuser. *)
Definition convicts c (j : Z) (f : DkgFailure) (i : Z) : Prop :=
  match f with
  | FailBadState => i = j
  | FailBadPublicShares bad => exists b, b ∈ bad /\ (i = b /\ public_bad c b \/ i = j /\ ~ public_bad c b)
  | FailBadPrivateShares bad => exists b s, bad !! b = Some s /\ (i = b /\ private_bad c j b s \/ i = j /\ ~ private_bad c j b s)
  | _ => False
  end.

(** The report [f] of [j] is returned to the caller. *)
Definition upheld c (j : Z) (f : DkgFailure) : Prop :=
  match f with
  | FailBadPublicShares bad => exists b, b ∈ bad /\ public_bad c b
  | FailBadPrivateShares bad => exists b s, bad !! b = Some s /\ private_bad c j b s
  | _ => True
  end.

Lemma or_panic_ok {E A} (o : option A) (a : A) : or_panic (E := E) o = Ok a <-> o = Some a.
Proof. destruct o; cbn; split; congruence. Qed.

Lemma key_share_bad_spec key poly ks k r : key_share_bad key poly ks k = Ok r ->
  exists bytes, ks !! k = Some bytes /\ (r = true <-> ~ share_opens key poly k bytes).
Proof.
  unfold key_share_bad, share_opens. intros (bytes & Hb%or_panic_ok & Hr)%bind_ok_inv. exists bytes. split; [done|].
  destruct (decrypt key bytes) as [plain|] eqn:Hd; [|simplify_eq; split; [|done]; naive_solver].
  destruct (scalar_try_from plain) as [e|] eqn:He; [|simplify_eq; split; [|done]; naive_solver].
  destruct (compute_poly k poly) as [p|] eqn:Hp; [|simplify_eq; split; [|done]; naive_solver].
  case_bool_decide; simplify_eq; cbn; split; naive_solver.
Qed.

Definition bad_key key poly (ks : gmap Z (list Z)) k : Prop := exists bytes, ks !! k = Some bytes /\ ~ share_opens key poly k bytes.

Lemma key_shares_bad_spec key poly ks ids r : key_shares_bad key poly ks ids = Ok r ->
  r = true <-> exists k, k ∈ ids /\ bad_key key poly ks k.
Proof.
  induction ids as [|k ids IH]; cbn [key_shares_bad]; intros Hr.
  { simplify_eq. split; [done|]. intros (k & Hk & _). set_solver. }
  apply bind_ok_inv in Hr as (b & Hb & Hr). apply key_share_bad_spec in Hb as (bytes & Hks & Hb). destruct b.
  - simplify_eq. split; [|done]. intros _. exists k. split; [left|]. exists bytes. naive_solver.
  - rewrite (IH Hr). split; intros (k' & Hk' & Hbad); [exists k'; split; [by right|done]|].
    apply elem_of_cons in Hk' as [->|Hk']; [|by exists k']. destruct Hbad as (bytes' & Hks' & Hn). simplify_eq. naive_solver.
Qed.

Lemma private_shares_bad_spec key comms ids shares : forall r0 r, private_shares_bad key comms ids shares r0 = Ok r ->
  r = true <-> r0 = true \/ exists src ks poly k, (src, ks) ∈ shares /\ comms !! src = Some poly /\ k ∈ ids /\ bad_key key poly ks k.
Proof.
  induction shares as [|[src ks] shares IH]; cbn [private_shares_bad]; intros r0 r Hr.
  { simplify_eq. split; [auto|]. intros [?|(src & ks & poly & k & Hin & _)]; [done|set_solver]. }
  apply bind_ok_inv in Hr as (poly & Hp%or_panic_ok & Hr). apply bind_ok_inv in Hr as (b & Hb%key_shares_bad_spec & Hr).
  rewrite (IH _ _ Hr), orb_true_iff, Hb. split.
  - intros [[?|(k & Hk & Hbad)]|(src' & ks' & poly' & k & Hin & Hrest)]; [by left|right..].
    + exists src, ks, poly, k. split_and!; [left|done..].
    + exists src', ks', poly', k. split; [by right|done].
  - intros [?|(src' & ks' & poly' & k & [Heq|Hin]%elem_of_cons & Hpoly & Hk & Hbad)]; [auto| |].
    + simplify_eq. left. right. by exists k.
    + right. by exists src', ks', poly', k.
Qed.

Lemma private_report_spec c j b s r : private_report_confirmed c j b s = Ok r -> r = true <-> private_bad c j b s.
Proof.
  unfold private_report_confirmed, private_bad.
  intros (kj & Hkj%or_panic_ok & (kb & Hkb%or_panic_ok & Hr)%bind_ok_inv)%bind_ok_inv.
  destruct (tuple_proof_verify _ _ _ _) eqn:Hv; cbn [negb] in Hr.
  - apply bind_ok_inv in Hr as (public & Hpub%or_panic_ok & (private & Hpriv%or_panic_ok & (ids & Hids%or_panic_ok & Hr)%bind_ok_inv)%bind_ok_inv).
    apply private_shares_bad_spec in Hr. rewrite Hr. split.
    + intros [?|(src & ks & poly & k & Hin & Hp & Hk%elem_of_elements & bytes & Hb & Hn)]; [done|].
      by exists kj, kb, public, private, ids, src, ks, poly, k, bytes.
    + intros (kj' & kb' & public' & private' & ids' & src & ks & poly & k & bytes & Hx). destruct_and!. simplify_eq.
      right. exists src, ks, poly, k. split_and!; [done|done|by apply elem_of_elements|]. by exists bytes.
  - simplify_eq. split; [done|]. intros (kj' & kb' & Hx). naive_solver.
Qed.

Lemma public_shares_bad_spec c b shares : fire_dkg_public_shares c !! b = Some shares ->
  public_shares_bad (cfg_threshold (fire_config c)) shares = true <-> public_bad c b.
Proof.
  intros Hs. unfold public_shares_bad, public_bad. rewrite existsb_exists. split.
  - intros (e & Hin & He). exists shares, e. split_and!; [done|by apply list_elem_of_In|by apply negb_true_iff].
  - intros (shares' & e & Hs' & Hin & He). simplify_eq. exists e. split; [by apply list_elem_of_In|by rewrite He].
Qed.

(** The effect of one verified report on the verdicts. *)
Definition report_effect (j : Z) (f : DkgFailure) (guilty : Z -> Prop) (up : Prop) v v' : Prop :=
  (forall i, i ∈ v'.1 <-> i ∈ v.1 \/ guilty i) /\ (up -> v'.2 = <[j := f]> v.2) /\ (~ up -> v'.2 = v.2).

Lemma judge_effect j b f (is_bad : bool) v (P : Prop) : (is_bad = true <-> P) ->
  report_effect j f (fun i => i = b /\ P \/ i = j /\ ~ P) P v (judge j b f is_bad v).
Proof.
  intros HP. unfold judge, report_effect. destruct is_bad; cbn; (split_and!; [intros i; rewrite elem_of_union, elem_of_singleton| |]; naive_solver).
Qed.

Lemma report_effect_trans j f (g g' : Z -> Prop) (up up' : Prop) v v' v'' : Decision up -> Decision up' ->
  report_effect j f g up v v' -> report_effect j f g' up' v' v'' ->
  report_effect j f (fun i => g i \/ g' i) (up \/ up') v v''.
Proof.
  intros D D' (Hg & Hu & Hn) (Hg' & Hu' & Hn'). split_and!.
  - intros i. rewrite Hg', Hg. tauto.
  - intros Hup. destruct (decide up) as [Hy|Hx], (decide up') as [Hy'|Hx']; [| | |tauto].
    + by rewrite Hu', Hu, insert_insert_eq.
    + by rewrite Hn', Hu.
    + by rewrite Hu', Hn.
  - intros Hup. rewrite Hn', Hn; tauto.
Qed.

Lemma report_effect_iff j f g g' (up up' : Prop) v v' : (forall i, g i <-> g' i) -> (up <-> up') ->
  report_effect j f g up v v' -> report_effect j f g' up' v v'.
Proof. intros Hg Hu (H1 & H2 & H3). split_and!; [intros i; by rewrite H1, Hg|tauto|tauto]. Qed.

Lemma bool_decision (b : bool) (P : Prop) : (b = true <-> P) -> Decision P.
Proof. intros HP. destruct b; [left; tauto|right; intros HX%HP; done]. Qed.

Lemma check_bad_public_spec c j f bad : forall v v', check_bad_public c j f bad v = Ok v' ->
  report_effect j f (fun i => exists b, b ∈ bad /\ (i = b /\ public_bad c b \/ i = j /\ ~ public_bad c b))
    (exists b, b ∈ bad /\ public_bad c b) v v' * Decision (exists b, b ∈ bad /\ public_bad c b).
Proof.
  induction bad as [|b bad IH]; cbn [check_bad_public]; intros v v' Hv.
  { simplify_eq. split; [|right; set_solver]. split_and!; [set_solver|set_solver|done]. }
  destruct (fire_dkg_public_shares c !! b) as [shares|] eqn:Hs; [cbn [or_panic mbind outcome_bind] in Hv|done].
  apply public_shares_bad_spec in Hs as HP. pose proof (bool_decision _ _ HP) as D.
  destruct (IH _ _ Hv) as [He D']. pose proof (judge_effect j b f _ v _ HP) as Hj. split.
  - eapply report_effect_iff; [| |eapply (report_effect_trans _ _ _ _ _ _ _ _ _ D D'); [exact Hj|exact He]].
    + intros i. setoid_rewrite elem_of_cons. naive_solver.
    + setoid_rewrite elem_of_cons. naive_solver.
  - destruct D as [Hy|Hn], D' as [Hy'|Hn']; [left; set_solver..|right; set_solver].
Qed.

Lemma check_bad_private_spec c j f bad : forall v v', check_bad_private c j f bad v = Ok v' ->
  report_effect j f (fun i => exists b s, (b, s) ∈ bad /\ (i = b /\ private_bad c j b s \/ i = j /\ ~ private_bad c j b s))
    (exists b s, (b, s) ∈ bad /\ private_bad c j b s) v v' * Decision (exists b s, (b, s) ∈ bad /\ private_bad c j b s).
Proof.
  induction bad as [|[b s] bad IH]; cbn [check_bad_private]; intros v v' Hv.
  { simplify_eq. split; [|right; set_solver]. split_and!; [set_solver|set_solver|done]. }
  destruct (private_report_confirmed c j b s) as [r|?| |] eqn:Hs; cbn [mbind outcome_bind] in Hv; try done.
  apply private_report_spec in Hs as HP. pose proof (bool_decision _ _ HP) as D.
  destruct (IH _ _ Hv) as [He D']. pose proof (judge_effect j b f _ v _ HP) as Hj. split.
  - eapply report_effect_iff; [| |eapply (report_effect_trans _ _ _ _ _ _ _ _ _ D D'); [exact Hj|exact He]].
    + intros i. setoid_rewrite elem_of_cons. naive_solver.
    + setoid_rewrite elem_of_cons. naive_solver.
  - destruct D as [Hy|Hn], D' as [Hy'|Hn']; [left; set_solver..|right; set_solver].
Qed.

Lemma check_failure_spec c j f v v' : check_failure c j f v = Ok v' ->
  report_effect j f (convicts c j f) (upheld c j f) v v' * Decision (upheld c j f).
Proof.
  destruct f as [| |bad|bad|bad|bad]; cbn [check_failure convicts upheld]; intros Hv; simplify_eq;
    try (split; [split_and!; [set_solver|done|tauto]|left; done]).
  - apply check_bad_public_spec in Hv as [He D]. split.
    + eapply report_effect_iff; [| |exact He]; [intros i|]; by setoid_rewrite elem_of_elements.
    + destruct D as [Hy|Hn]; [left|right]; by setoid_rewrite <- elem_of_elements.
  - apply check_bad_private_spec in Hv as [He D]. split.
    + eapply report_effect_iff; [| |exact He]; [intros i|]; by setoid_rewrite elem_of_map_to_list.
    + destruct D as [Hy|Hn]; [left|right]; by setoid_rewrite <- elem_of_map_to_list.
Qed.

Lemma check_failures_spec c ends : forall v v', NoDup ends.*1 -> (forall j, j ∈ ends.*1 -> v.2 !! j = None) ->
  check_failures c ends v = Ok v' ->
  (forall i, i ∈ v'.1 <-> i ∈ v.1 \/ exists j m f, (j, m) ∈ ends /\ failure_of m = Some f /\ convicts c j f i) /\
  (forall j f, v'.2 !! j = Some f <-> v.2 !! j = Some f \/ exists m, (j, m) ∈ ends /\ failure_of m = Some f /\ upheld c j f).
Proof.
  induction ends as [|[j m] ends IH]; cbn [check_failures]; intros v v' Hnd Hnone Hv.
  { simplify_eq. split; set_solver. }
  apply bind_ok_inv in Hv as (w & Hw & Hv). cbn in Hnd. apply NoDup_cons in Hnd as [Hj Hnd].
  destruct (failure_of m) as [f|] eqn:Hf.
  - apply check_failure_spec in Hw as [(Hg & Hu & Hn) D]. apply IH in Hv as [Hc Hr]; [|done|].
    2: { intros i Hi. assert (i <> j) by (by intros ->). destruct D as [HD|HD]; [rewrite Hu by done; rewrite lookup_insert_ne by done|rewrite Hn by done];
         apply Hnone; cbn; by right. }
    split.
    + intros i. rewrite Hc, Hg. setoid_rewrite elem_of_cons. split; [intros [[?|?]|?]; naive_solver|].
      intros [?|(j' & m' & f' & [Heq|Hin] & Hff & Hcv)]; [auto| |right; by exists j', m', f']. simplify_eq. auto.
    + intros i g. rewrite Hr. setoid_rewrite elem_of_cons. assert (v.2 !! j = None) as Hvj by (apply Hnone; cbn; left).
      destruct D as [HD|HD]; [rewrite Hu by done; rewrite lookup_insert_Some|rewrite Hn by done]; split.
      * intros [[[-> ->]|[? ?]]|(m' & ? & ? & ?)]; [right; exists m; auto|auto|right; exists m'; auto].
      * intros [Hi|(m' & [Heq|Hin] & Hff & Hup)]; [|simplify_eq; auto|right; by exists m'].
        left. right. split; [|done]. intros ->. congruence.
      * intros [?|(m' & ? & ? & ?)]; [auto|right; exists m'; auto].
      * intros [?|(m' & [Heq|Hin] & Hff & Hup)]; [auto|simplify_eq; tauto|right; by exists m'].
  - simplify_eq. apply IH in Hv as [Hc Hr]; [|done|intros i Hi; apply Hnone; cbn; by right]. split.
    + intros i. rewrite Hc. setoid_rewrite elem_of_cons. split; [naive_solver|].
      intros [?|(j' & m' & f' & [Heq|Hin] & Hff & Hcv)]; [auto|simplify_eq|right; by exists j', m', f'].
    + intros i g. rewrite Hr. setoid_rewrite elem_of_cons. split; [naive_solver|].
      intros [?|(m' & [Heq|Hin] & Hff & Hup)]; [auto|simplify_eq|right; by exists m'].
Qed.

(** Signer [j] has reported the failure [f]. *)
Definition reported c (j : Z) (f : DkgFailure) : Prop :=
  exists m, fire_dkg_end_messages c !! j = Some m /\ failure_of m = Some f.

Lemma check_failures_exact c v : check_failures c (btree_list (fire_dkg_end_messages c)) (fire_malicious_dkg_signer_ids c, ∅) = Ok v ->
  (forall i, i ∈ v.1 <-> i ∈ fire_malicious_dkg_signer_ids c \/ exists j f, reported c j f /\ convicts c j f i) /\
  (forall j f, v.2 !! j = Some f <-> reported c j f /\ upheld c j f).
Proof.
  unfold reported. intros Hv. apply check_failures_spec in Hv as [Hc Hr].
  - split.
    + intros i. rewrite Hc. setoid_rewrite elem_of_btree_list. naive_solver.
    + intros j f. rewrite Hr. setoid_rewrite elem_of_btree_list. cbn [snd]. rewrite lookup_empty. naive_solver.
  - unfold btree_list. rewrite merge_sort_Permutation. apply NoDup_fst_map_to_list.
  - intros j _. apply lookup_empty.
Qed.

(** Checking reports panics or gives verdicts. *)
Definition no_err {E A} (o : outcome E A) : Prop := match o with Err _ => False | _ => True end.
Lemma no_err_bind {E A B} (m : outcome E A) (k : A -> outcome E B) : no_err m -> (forall a, no_err (k a)) -> no_err (m ≫= k).
Proof. destruct m; cbn; auto. Qed.
Lemma no_err_panic {E A} (o : option A) : no_err (or_panic (E := E) o).
Proof. by destruct o. Qed.
Lemma private_report_no_err c j b s : no_err (private_report_confirmed c j b s).
Proof.
  assert (forall key poly ks ids, no_err (key_shares_bad key poly ks ids)) as Hk.
  { intros key poly ks ids. induction ids as [|k ids IH]; cbn [key_shares_bad]; [done|]. apply no_err_bind; [|by intros []].
    unfold key_share_bad. apply no_err_bind; [apply no_err_panic|]. intros. by repeat case_match. }
  assert (forall key comms ids shares r, no_err (private_shares_bad key comms ids shares r)) as Hp.
  { intros key comms ids shares. induction shares as [|[src ks] shares IH]; cbn [private_shares_bad]; [done|]. intros r.
    apply no_err_bind; [apply no_err_panic|]. intros. apply no_err_bind; [apply Hk|]. intros. apply IH. }
  unfold private_report_confirmed. do 2 (apply no_err_bind; [apply no_err_panic|intros]). destruct (negb _); [done|].
  do 3 (apply no_err_bind; [apply no_err_panic|intros]). apply Hp.
Qed.
Lemma check_failures_no_err c ends : forall v, no_err (check_failures c ends v).
Proof.
  assert (forall j f bad v, no_err (check_bad_public c j f bad v)) as Hpub.
  { intros j f bad. induction bad as [|b bad IH]; cbn [check_bad_public]; [done|]. intros v. apply no_err_bind; [apply no_err_panic|]. intros. apply IH. }
  assert (forall j f bad v, no_err (check_bad_private c j f bad v)) as Hpriv.
  { intros j f bad. induction bad as [|[b s] bad IH]; cbn [check_bad_private]; [done|]. intros v.
    apply no_err_bind; [apply private_report_no_err|]. intros. apply IH. }
  induction ends as [|[j m] ends IH]; cbn [check_failures]; [done|]. intros v. apply no_err_bind; [|intros; apply IH].
  destruct (failure_of m) as [f|]; [|done]. by destruct f; cbn [check_failure].
Qed.

Lemma dkg_end_gathered_ends c : match fire_dkg_end_gathered c with
  | (c', Ok _) => fire_malicious_dkg_signer_ids c' = fire_malicious_dkg_signer_ids c
  | (_, Err _) | (_, Diverge) => False | (_, Panic) => True end.
Proof.
  unfold fire_dkg_end_gathered. fire_unfold. destruct (comms_of _ _); [|done]. cbn [or_panic].
  destruct (comms_of _ _); [|done]. done.
Qed.

(** C21: blame after key generation is exact. When every signer has ended and
    no report leads outside the coordinator's maps, the signers marked
    malicious are the ones marked before and those convicted by a report: the
    accused where the accusation of bad public or private shares holds, the
    accuser where it does not, and a signer in a bad state. The round fails
    with exactly the failures that are upheld, and succeeds when there is
    none. *)
Theorem fire_verdicts_exact c c' r : fire_dkg_wait_signer_ids c = ∅ -> fire_dkg_end_done c = (c', r) -> ~ crashed r ->
  (forall i, i ∈ fire_malicious_dkg_signer_ids c' <->
     i ∈ fire_malicious_dkg_signer_ids c \/ exists j f, reported c j f /\ convicts c j f i) /\
  match r with
  | Ok _ => forall j f, reported c j f -> ~ upheld c j f
  | Err (CeDkgFailure fs) => fs <> ∅ /\ forall j f, fs !! j = Some f <-> reported c j f /\ upheld c j f
  | _ => False
  end.
Proof.
  intros Hw. unfold fire_dkg_end_done, st_bind at 1. cbn [st_get]. rewrite bool_decide_eq_true_2 by done.
  unfold st_bind at 1, st_lift. destruct (check_failures _ _ _) as [v|e| |] eqn:Hv.
  - apply check_failures_exact in Hv as [Hc Hf]. unfold st_bind at 1, st_modify. case_bool_decide as He.
    + pose proof (dkg_end_gathered_ends (fire_set_malicious_dkg_signer_ids v.1 c)) as Hg.
      intros Hr Hcr. rewrite Hr in Hg. destruct r; [|done|by destruct Hcr|done]. rewrite Hg. split; [done|].
      intros j f Hj Hu. assert (v.2 !! j = Some f) as Hl by (by apply Hf). by rewrite He, lookup_empty in Hl.
    + intros Hr _. unfold st_throw in Hr. simplify_eq. done.
  - intros. pose proof (check_failures_no_err c (btree_list (fire_dkg_end_messages c)) (fire_malicious_dkg_signer_ids c, ∅)) as Hn.
    by rewrite Hv in Hn.
  - intros ? Hcr. simplify_eq. by destruct Hcr.
  - intros ? Hcr. simplify_eq. by destruct Hcr.
Qed.
End Verdicts.
