(* ===== verification/WstsFireRounds.v ===== *)
(** Rounds of the FIRE coordinator.

    Source: src/wsts/src/state_machine/coordinator/fire.rs.

    What a whole round of [WstsFire] does: a report that names no known signer
    crashes the coordinator; shares are requested from a quorum only; a round
    with enough responses ends with the aggregator's signature, whoever else is
    silent. *)

From S2P Require Import Prelude Effects Types WstsNet DkgVerification WstsFrost FrostVerification WstsFire.

(** An accusation that names no known signer crashes the coordinator. *)
Section UnknownReports.
Context `{WstsCrypto}.
Implicit Types (c : FireCoordinator).

Lemma check_failures_quiet c ends v : (forall i m, (i, m) ∈ ends -> failure_of m = None) -> check_failures c ends v = Ok v.
Proof.
  induction ends as [|[i m] ends IH]; [done|]. intros Hq. cbn [check_failures]. rewrite (Hq i m) by left. cbn. apply IH.
  intros i' m' Hin. apply (Hq i'). by right.
Qed.

Lemma check_failures_panics c ends v j m : (j, m) ∈ ends -> NoDup ends.*1 ->
  (forall i m', (i, m') ∈ ends -> i <> j -> failure_of m' = None) ->
  (forall v, match failure_of m with Some f => check_failure c j f v = Panic | None => False end) ->
  check_failures c ends v = Panic.
Proof.
  induction ends as [|[i m'] ends IH]; [set_solver|]. intros Hin Hnd Hq Hp. cbn [check_failures].
  apply NoDup_cons in Hnd as [Hi Hnd]. apply elem_of_cons in Hin as [Heq|Hin].
  - injection Heq as <- <-. specialize (Hp v). destruct (failure_of m) as [f|]; [|done]. by rewrite Hp.
  - rewrite (Hq i m'); [|by left|].
    + cbn. apply IH; [done|done| |done]. intros i' m'' Hin'. apply Hq. by right.
    + intros ->. apply Hi. by apply (list_elem_of_fmap_2 fst _ _ Hin).
Qed.

(** One signer can crash the coordinator. In the last step of key
    generation, a [DkgEnd] from the last awaited signer that reports bad public
    shares of a signer the coordinator has no shares of makes
    [process_message] panic, whoever that signer is and whatever the others
    sent, as long as they report success. *)
Theorem fire_unknown_report_panics c j b :
  fire_state c = CsDkgEndGather -> fire_dkg_wait_signer_ids c = {[j]} -> fire_dkg_public_shares c !! b = None ->
  (forall i m, fire_dkg_end_messages c !! i = Some m -> i <> j -> failure_of m = None) ->
  (fire_process_message (MsgDkgEnd (mkDkgEnd (fire_current_dkg_id c) j (StatusFailure (FailBadPublicShares {[b]})))) c).2 = Panic.
Proof.
  intros Hs Hw Hb Hq. set (m := mkDkgEnd _ _ _). unfold fire_process_message. cbn [fire_loop]. unfold st_bind at 1.
  assert ((fire_turn (MsgDkgEnd m) c).2 = Panic) as Ht; [|destruct (fire_turn _ c) as [c' r]; cbn in Ht; by subst r].
  unfold fire_turn, st_bind at 1. cbn [st_get]. rewrite Hs. unfold fire_dkg_end_turn, st_bind at 1, st_catch.
  unfold st_bind at 1. unfold fire_gather_dkg_end, st_bind at 1. cbn [st_get]. rewrite Z.eqb_refl. cbn [negb].
  rewrite bool_decide_eq_true_2 by (rewrite Hw; cbn; set_solver). unfold st_bind at 1, st_modify.
  unfold fire_dkg_end_done. unfold st_bind at 1. cbn [st_get fire_dkg_wait_signer_ids fire_set_dkg_end_messages fire_set_dkg_wait_signer_ids].
  rewrite bool_decide_eq_true_2 by (rewrite Hw; cbn; set_solver). unfold st_bind at 1, st_lift.
  cbn [fire_dkg_end_messages fire_set_dkg_end_messages fire_set_dkg_wait_signer_ids].
  rewrite (check_failures_panics _ _ _ j m).
  - done.
  - apply elem_of_btree_list. cbn. by rewrite lookup_insert_eq.
  - unfold btree_list. rewrite merge_sort_Permutation. apply NoDup_fst_map_to_list.
  - intros i m' Hin%elem_of_btree_list Hne. cbn in Hin. rewrite lookup_insert_ne in Hin by done. by apply (Hq i).
  - intros v. cbn. rewrite elements_singleton. cbn. by rewrite Hb.
Qed.
End UnknownReports.

(** ** The quorum of a signing round *)
Section Quorum.
Context `{WstsCryptoLaws}.
Implicit Types (c : FireCoordinator).

Lemma framed_fire_move_to R next : framed (fun c => round_of c = R) (fire_move_to next).
Proof. intros c Hc. fire_unfold. by destruct (fire_can_move_to _ _). Qed.
#[local] Hint Resolve framed_fire_move_to : frames.

(** Only the start of a round changes its identifiers. *)
Lemma framed_gather_nonces_round R m t : framed (fun c => round_of c = R) (fire_gather_nonces m t).
Proof. unfold fire_gather_nonces. frame. Qed.

Definition sends_share_request (r : option (option Message * option OperationResult)) : option NetSignatureShareRequest :=
  match r with Some (Some (MsgSignatureShareRequest req), _) => Some req | _ => None end.

(** The request for shares is sent from [SigShareRequest] only. *)
Lemma turn_share_request c m c' r req : fire_turn m c = (c', Ok r) -> sends_share_request r = Some req ->
  exists t, fire_state c = CsSigShareRequest t /\ fire_request_sig_shares t c = (c', Ok (MsgSignatureShareRequest req)).
Proof.
  unfold fire_turn, more, result. unfold st_bind at 1. cbn [st_get]. destruct (fire_state c) eqn:Hs.
  - unfold fire_idle, more, send, fire_start_dkg_round, fire_start_public_shares, fire_start_signing_round, fire_request_nonces. fire_unfold.
    destruct m; intros; repeat (progress simplify_eq/= || case_match); done.
  - unfold fire_start_public_shares. fire_unfold. intros; repeat (progress simplify_eq/= || case_match); done.
  - unfold st_bind, st_get, st_ret. destruct (fire_gather_public_shares m c) as [? []]; intros; repeat (progress simplify_eq/= || case_match); done.
  - unfold fire_start_private_shares. fire_unfold. intros; repeat (progress simplify_eq/= || case_match); done.
  - unfold st_bind, st_get, st_ret. destruct (fire_gather_private_shares m c) as [? []]; intros; repeat (progress simplify_eq/= || case_match); done.
  - unfold fire_start_dkg_end. fire_unfold. intros; repeat (progress simplify_eq/= || case_match); done.
  - unfold fire_dkg_end_turn, more, result, st_ok_or, st_catch, st_bind, st_get, st_ret, st_lift.
    destruct (fire_gather_dkg_end m c) as [? []]; intros; repeat (progress simplify_eq/= || case_match); done.
  - unfold fire_request_nonces. fire_unfold. intros; repeat (progress simplify_eq/= || case_match); done.
  - unfold st_bind, st_get, st_ret. destruct (fire_gather_nonces m t c) as [? []]; intros; repeat (progress simplify_eq/= || case_match); done.
  - unfold st_bind at 1. destruct (fire_request_sig_shares t c) as [c1 [out|e| |]] eqn:Hq; intros; simplify_eq.
    unfold st_ret, send in *. simplify_eq/=. destruct out; simplify_eq. by exists t.
  - unfold fire_sig_share_turn, more, result, st_catch, st_bind, st_get, st_ret.
    destruct (fire_gather_sig_shares m t c) as [? []]; intros; repeat (progress simplify_eq/= || case_match); done.
Qed.

Definition share_request_state (s : CoordinatorState) : bool := match s with CsSigShareRequest _ => true | _ => false end.
Abbreviation not_requesting := (fun c => share_request_state (fire_state c) = false).
Lemma framed_move_not_requesting next : share_request_state next = false -> framed not_requesting (fire_move_to next).
Proof. intros Hn c Hc. fire_unfold. by destruct (fire_can_move_to _ _). Qed.
#[local] Hint Resolve framed_move_not_requesting : frames.

(** Handlers other than [gather_nonces] do not reach [SigShareRequest]. *)
Lemma framed_not_requesting m c c1 : (forall t, fire_state c <> CsNonceGather t) -> fire_turn m c = (c1, Ok None) ->
  share_request_state (fire_state c1) = false.
Proof.
  assert (framed not_requesting fire_start_public_shares) as H1 by (unfold fire_start_public_shares; frame).
  assert (forall t, framed not_requesting (fire_request_nonces t)) as H2 by (intros; unfold fire_request_nonces; frame).
  assert (framed not_requesting fire_dkg_end_done) as H3 by (unfold fire_dkg_end_done, fire_dkg_end_gathered; frame).
  assert (forall t, framed not_requesting (fire_shares_done t)) as H4 by (intros; unfold fire_shares_done, fire_aggregate, st_ok_or; frame).
  intros Hn Ht. pose proof (fire_mid_turn_some m c) as Hmid. rewrite Ht in Hmid. cbn [snd] in Hmid. revert Ht.
  assert (forall {A} (n : st FireCoordinator CoordinatorError A) r, framed not_requesting n -> share_request_state (fire_state c) = false ->
    n c = (c1, r) -> share_request_state (fire_state c1) = false) as Hf.
  { intros A n r Hn' Hc Hr. specialize (Hn' c Hc). by rewrite Hr in Hn'. }
  unfold fire_turn. unfold st_bind at 1. cbn [st_get]. destruct (fire_state c); try apply Hf; try done;
    try (by destruct (Hmid eq_refl)); try (by destruct (Hn t)).
  - unfold fire_idle, fire_start_dkg_round, fire_start_signing_round. frame; auto.
  - frame; auto.
  - unfold fire_gather_public_shares. frame.
  - unfold fire_gather_private_shares. frame.
  - unfold fire_dkg_end_turn, fire_gather_dkg_end, st_ok_or. frame; auto.
  - frame; auto.
  - unfold fire_sig_share_turn, fire_gather_sig_shares. frame; auto.
Qed.

Lemma requesting_state c c' m req r : fire_inv c ->
  fire_process_message m c = (c', Ok (Some (MsgSignatureShareRequest req), r)) ->
  exists c1 t c2, fire_inv c1 /\ round_of c1 = round_of c /\ fire_state c1 = CsSigShareRequest t /\
    fire_request_sig_shares t c1 = (c2, Ok (MsgSignatureShareRequest req)).
Proof.
  intros Hi. unfold fire_process_message. cbn [fire_loop]. unfold st_bind at 1.
  destruct (fire_turn m c) as [c1 [[reply|]|e| |]] eqn:Ht; intros Hp; try done.
  - unfold st_ret in Hp. simplify_eq. apply (turn_share_request c m c' _ req) in Ht as (t & Hs & Hq); [|done]. by exists c, t, c'.
  - revert Hp. unfold st_bind at 1. destruct (fire_turn m c1) as [c2 [[reply|]|e| |]] eqn:Ht2; intros Hp; try done.
    unfold st_ret in Hp. simplify_eq. apply (turn_share_request c1 m c' _ req) in Ht2 as (t & Hs & Hq); [|done].
    exists c1, t, c'. assert (exists t, fire_state c = CsNonceGather t) as [t' Hs'].
    { destruct (fire_state c) eqn:Hsc; try (by eexists); apply framed_not_requesting in Ht; try (by rewrite Hs in Ht); by rewrite Hsc. }
    unfold fire_turn, st_bind at 1 in Ht. cbn [st_get] in Ht. rewrite Hs' in Ht. unfold st_bind at 1 in Ht.
    pose proof (fire_gather_nonces_triple m t' c (conj Hi Hs')) as Htr.
    pose proof (framed_gather_nonces_round (round_of c) m t' c eq_refl) as Hro.
    destruct (fire_gather_nonces m t' c) as [c3 []]; try done. cbn in Ht, Hro. unfold st_ret in Ht. simplify_eq.
    split_and!; [apply Htr|unfold round_of; congruence|done|done].
Qed.

Lemma elem_of_btree_snd {A} (m : gmap Z A) x : x ∈ (btree_list m).*2 -> exists i, m !! i = Some x.
Proof. intros ([i y] & -> & Hin)%list_elem_of_fmap. exists i. by apply elem_of_btree_list. Qed.

(** C23: the shares of a round are requested from a quorum. Whenever the
    coordinator asks for signature shares, the request carries responses of
    distinct signers, each configured and not marked malicious, each to the
    current round and to the message that will be signed, each with valid
    nonces for exactly the keys of its signer; together they cover at least
    [threshold] keys. *)
Theorem fire_share_request_quorum c c' m req r : fire_inv c ->
  fire_process_message m c = (c', Ok (Some (MsgSignatureShareRequest req), r)) ->
  let responses := sq_nonce_responses req in
  NoDup (map nr_signer_id responses) /\
  Forall (fun nr => nonce_ok c (sq_message req) (nr_signer_id nr) nr) responses /\
  cfg_threshold (fire_config c) <= Z.of_nat (size (list_to_set (concat (map nr_key_ids responses)) : gset Z)).
Proof.
  intros Hi Hp. destruct (requesting_state c c' m req r Hi Hp) as (c1 & t & c2 & [_ Hr] & Hro & Hs & Hreq).
  unfold round_inv in Hr. rewrite Hs in Hr. destruct Hr as (info & Hl & Hio & Hq & _).
  revert Hreq. unfold fire_request_sig_shares. fire_unfold. cbn [fire_set_signature_shares fire_message_nonces fire_message].
  rewrite Hl. cbn [ok_or]. destruct (fire_can_move_to _ _); [|done]. intros [= _ <-]. cbn [sq_nonce_responses sq_message].
  change (fire_message (fire_set_signature_shares ∅ c1)) with (fire_message c1).
  apply (info_ok_same c1 c) in Hio; [|done]. destruct Hio as [Hn Hk]. split_and!.
  - replace (map nr_signer_id (btree_list (sri_public_nonces info)).*2) with (btree_list (sri_public_nonces info)).*1.
    { unfold btree_list. rewrite merge_sort_Permutation. apply NoDup_fst_map_to_list. }
    rewrite <- list_fmap_compose. apply list_fmap_ext. intros k [i nr] Hin%list_elem_of_lookup_2%elem_of_btree_list.
    cbn. symmetry. by apply (nok_signer c (fire_message c1)), Hn.
  - apply Forall_forall. intros nr [i Hnr]%elem_of_btree_snd. specialize (Hn _ _ Hnr). by rewrite (nok_signer _ _ _ _ Hn).
  - unfold quorum in Hq. injection Hro as Hcfg _ _ _ _. rewrite Hcfg in Hq. replace (list_to_set _ : gset Z) with (sri_nonce_recv_key_ids info); [done|].
    apply set_eq. intros k. rewrite Hk, elem_of_list_to_set, list_elem_of_In, in_concat. split.
    + intros (i & nr & Hnr & Hin). exists (nr_key_ids nr). split; [|by apply list_elem_of_In]. apply in_map, list_elem_of_In, list_elem_of_fmap.
      exists (i, nr). split; [done|]. by apply elem_of_btree_list.
    + intros (ks & (nr & <- & Hin)%in_map_iff & Hks). apply list_elem_of_In, elem_of_btree_snd in Hin as [i Hnr].
      exists i, nr. split; [done|]. by apply list_elem_of_In.
Qed.
End Quorum.

(** ** A signing round completes *)
Section FireRound.
Context `{WstsCryptoLaws}.
Implicit Types (c : FireCoordinator) (info : SignRoundInfo).

Lemma fire_loop_one c m c1 r : fire_turn m c = (c1, Ok (Some r)) -> fire_process_message m c = (c1, Ok r).
Proof. intros Ht. unfold fire_process_message. cbn [fire_loop]. unfold st_bind. by rewrite Ht. Qed.
Lemma fire_loop_two c m c1 c2 r : fire_turn m c = (c1, Ok None) -> fire_turn m c1 = (c2, Ok (Some r)) ->
  fire_process_message m c = (c2, Ok r).
Proof. intros Ht Ht'. unfold fire_process_message. cbn [fire_loop]. unfold st_bind. by rewrite Ht, Ht'. Qed.

(** The key identifiers of responses, and the responses added to a round. *)
Definition keys_of (ms : list NetNonceResponse) : gset Z := list_to_set (concat (map nr_key_ids ms)).
Definition add_all (ms : list NetNonceResponse) info : SignRoundInfo :=
  foldl (fun i m => add_nonces m (list_to_set (nr_key_ids m)) i) info ms.
(** [info] is collected for [message]. *)
Definition with_info message info c : FireCoordinator :=
  fire_set_message_nonces (<[message := info]> (fire_message_nonces c)) c.
(** Shares are being gathered for [message]. *)
Definition sharing t message info c : FireCoordinator :=
  fire_set_state (CsSigShareGather t) (fire_set_signature_shares ∅ (fire_set_message message (with_info message info c))).

Lemma add_all_keys ms info : sri_nonce_recv_key_ids (add_all ms info) = sri_nonce_recv_key_ids info ∪ keys_of ms.
Proof.
  revert info. induction ms as [|m ms IH]; intros info; [cbn; set_solver|]. cbn [add_all foldl]. fold (add_all ms).
  unfold add_all in IH. rewrite IH. unfold keys_of. cbn [map concat add_nonces sri_nonce_recv_key_ids]. rewrite list_to_set_app_L. set_solver.
Qed.
Lemma add_all_nonces ms info : sri_public_nonces (add_all ms info) =
  foldl (fun n m => <[nr_signer_id m := m]> n) (sri_public_nonces info) ms.
Proof. revert info. induction ms as [|m ms IH]; intros info; [done|]. cbn. apply IH. Qed.
Lemma add_all_wait ms info : sri_sign_wait_signer_ids (add_all ms info) =
  list_to_set (map nr_signer_id ms) ∪ sri_sign_wait_signer_ids info.
Proof.
  revert info. induction ms as [|m ms IH]; intros info; [cbn; set_solver|]. cbn [add_all foldl]. unfold add_all in IH. rewrite IH.
  cbn [map list_to_set add_nonces sri_sign_wait_signer_ids]. set_solver.
Qed.

(** A response the coordinator takes for [message]. *)
Definition takes c message (m : NetNonceResponse) : Prop :=
  nr_message m = message /\ exists ks, fire_check_nonces c m = Ok (Some ks).

Lemma check_nonces_same c c' m : round_of c' = round_of c -> fire_check_nonces c' m = fire_check_nonces c m.
Proof. unfold fire_check_nonces. intros [= H1 H2 H3 H4 H5]. by rewrite H1, H2, H3, H4, H5. Qed.

Lemma gather_taken c t message m : takes c message m ->
  let info := add_nonces m (list_to_set (nr_key_ids m)) (info_of c message) in
  fire_gather_nonces (MsgNonceResponse m) t c =
    if cfg_threshold (fire_config c) <=? Z.of_nat (size (sri_nonce_recv_key_ids info))
    then fire_move_to (CsSigShareRequest t) (fire_set_message message (with_info message info c))
    else (with_info message info c, Ok tt).
Proof.
  intros [<- [ks Hck]]. apply check_nonces_ok in Hck as Hk. destruct Hk as [_ ->]. cbv zeta.
  unfold fire_gather_nonces, st_bind, st_get, st_lift. rewrite Hck. unfold st_modify. fold (with_info (nr_message m)).
  set (info := add_nonces _ _ _). unfold with_info.
  by destruct (cfg_threshold (fire_config c) <=? Z.of_nat (size (sri_nonce_recv_key_ids info))).
Qed.

Lemma process_nonce_more c t message m : fire_state c = CsNonceGather t -> takes c message m ->
  let info := add_nonces m (list_to_set (nr_key_ids m)) (info_of c message) in
  Z.of_nat (size (sri_nonce_recv_key_ids info)) < cfg_threshold (fire_config c) ->
  fire_process_message (MsgNonceResponse m) c = (with_info message info c, Ok (None, None)).
Proof.
  intros Hs Hm info Hlt. apply fire_loop_one. unfold fire_turn, st_bind, st_get. rewrite Hs, (gather_taken c t message) by done. cbv zeta.
  fold info. replace (_ <=? _) with false by lia. change (fire_state (with_info message info c)) with (fire_state c).
  by rewrite Hs, bool_decide_eq_true_2.
Qed.

Lemma process_nonce_last c t message m : fire_state c = CsNonceGather t -> takes c message m ->
  let info := add_nonces m (list_to_set (nr_key_ids m)) (info_of c message) in
  cfg_threshold (fire_config c) <= Z.of_nat (size (sri_nonce_recv_key_ids info)) ->
  fire_process_message (MsgNonceResponse m) c =
    (sharing t message info c, Ok (Some (MsgSignatureShareRequest (mkSignatureShareRequest (fire_current_dkg_id c)
       (fire_current_sign_id c) (fire_current_sign_iter_id c) (btree_list (sri_public_nonces info)).*2 message t)), None)).
Proof.
  intros Hs Hm info Hle. eapply fire_loop_two.
  - unfold fire_turn, st_bind, st_get. rewrite Hs, (gather_taken c t message) by done. cbv zeta. fold info.
    replace (_ <=? _) with true by lia. fire_unfold. cbn [fire_set_message with_info fire_set_message_nonces fire_state]. rewrite Hs.
    cbn [fire_can_move_to]. rewrite bool_decide_eq_true_2 by done. cbn [fire_set_state fire_state]. by rewrite bool_decide_eq_false_2.
  - unfold fire_turn, st_bind at 1. cbn [st_get fire_state fire_set_state]. unfold st_bind, fire_request_sig_shares. fire_unfold.
    cbn [fire_set_signature_shares fire_message_nonces fire_message fire_set_state fire_set_message with_info fire_set_message_nonces].
    rewrite lookup_insert_eq. cbn [ok_or fire_state fire_can_move_to]. by rewrite bool_decide_eq_true_2.
Qed.

(** Responses below the threshold, and then the one that reaches it. *)
Lemma fire_nonces_round c t message ms m : fire_state c = CsNonceGather t -> Forall (takes c message) (ms ++ [m]) ->
  Z.of_nat (size (sri_nonce_recv_key_ids (add_all ms (info_of c message)))) < cfg_threshold (fire_config c) ->
  cfg_threshold (fire_config c) <= Z.of_nat (size (sri_nonce_recv_key_ids (add_all (ms ++ [m]) (info_of c message)))) ->
  let info := add_all (ms ++ [m]) (info_of c message) in
  fire_process_inbound_messages (map MsgNonceResponse (ms ++ [m])) c =
    (sharing t message info c, Ok ([MsgSignatureShareRequest (mkSignatureShareRequest (fire_current_dkg_id c)
       (fire_current_sign_id c) (fire_current_sign_iter_id c) (btree_list (sri_public_nonces info)).*2 message t)], [])).
Proof.
  cbv zeta. revert c. induction ms as [|m0 ms IH]; intros c Hs Htk Hlt Hle.
  - apply Forall_cons in Htk as [Hm _]. cbn [map app fire_process_inbound_messages]. unfold st_bind at 1.
    erewrite process_nonce_last by done. done.
  - cbn [app] in Htk. apply Forall_cons in Htk as [Hm Htk]. cbn [map app fire_process_inbound_messages]. unfold st_bind at 1.
    assert (Z.of_nat (size (sri_nonce_recv_key_ids (add_nonces m0 (list_to_set (nr_key_ids m0)) (info_of c message)))) <
      cfg_threshold (fire_config c)) as Hlt0.
    { eapply Z.le_lt_trans; [|exact Hlt]. rewrite add_all_keys. cbn [add_nonces sri_nonce_recv_key_ids]. apply Nat2Z.inj_le, subseteq_size.
      unfold keys_of. cbn [map concat]. rewrite list_to_set_app_L. set_solver. }
    rewrite (process_nonce_more c t message m0) by done. set (c1 := with_info _ _ c).
    assert (info_of c1 message = add_nonces m0 (list_to_set (nr_key_ids m0)) (info_of c message)) as Hinfo.
    { unfold info_of at 1, c1. cbn. by rewrite lookup_insert_eq. }
    unfold st_bind. rewrite (IH c1); [|done| |by rewrite Hinfo|by rewrite Hinfo].
    + rewrite Hinfo. cbn. unfold sharing, with_info, c1. cbn. by rewrite insert_insert_eq.
    + eapply Forall_impl; [exact Htk|]. intros m' [Hm' Hck]. split; [done|]. by rewrite (check_nonces_same c).
Qed.

(** *** Shares *)
Definition take_shares (m : NetSignatureShareResponse) c : FireCoordinator :=
  let c := fire_set_signature_shares (<[sr_signer_id m := sr_signature_shares m]> (fire_signature_shares c)) c in
  with_info (fire_message c) (add_shares m (info_of c (fire_message c))) c.

Lemma gather_share_taken c t m : fire_check_shares c m = Ok true ->
  fire_gather_sig_shares (MsgSignatureShareResponse m) t c = fire_shares_done t (take_shares m c).
Proof. intros Hck. unfold fire_gather_sig_shares, st_bind at 1, st_get. unfold st_bind at 1, st_lift. by rewrite Hck. Qed.

Lemma info_of_take_shares c m : info_of (take_shares m c) (fire_message c) = add_shares m (info_of c (fire_message c)).
Proof. unfold info_of at 1. cbn. by rewrite lookup_insert_eq. Qed.

Lemma process_share_more c t m : fire_state c = CsSigShareGather t -> fire_check_shares c m = Ok true ->
  sri_sign_wait_signer_ids (add_shares m (info_of c (fire_message c))) <> ∅ ->
  fire_process_message (MsgSignatureShareResponse m) c = (take_shares m c, Ok (None, None)).
Proof.
  intros Hs Hck Hw. apply fire_loop_one. unfold fire_turn, st_bind at 1. cbn [st_get]. rewrite Hs.
  unfold fire_sig_share_turn, st_catch, st_bind. rewrite gather_share_taken by done. unfold fire_shares_done. fire_unfold.
  cbn. rewrite lookup_insert_eq. cbn. rewrite bool_decide_eq_false_2 by done. cbn. by rewrite Hs, bool_decide_eq_true_2.
Qed.

(** What the aggregator answers for the inputs of [c] in a taproot round. *)
Definition fire_taproot_answer c (root : option (list Z)) message nonces key_ids shares : outcome AggregatorError SchnorrProof :=
  _ ← (aggregator_init (fire_aggregator c) (fire_party_polynomials c)).2;
  aggregator_sign_taproot (aggregator_init (fire_aggregator c) (fire_party_polynomials c)).1 message nonces shares key_ids root.

Lemma process_share_last c root m nonces key_ids shares p :
  fire_state c = CsSigShareGather (Taproot root) -> fire_check_shares c m = Ok true ->
  sri_sign_wait_signer_ids (add_shares m (info_of c (fire_message c))) = ∅ ->
  fire_aggregation_inputs (take_shares m c) (add_shares m (info_of c (fire_message c))) = Ok (nonces, key_ids, shares) ->
  fire_taproot_answer c root (fire_message c) nonces key_ids shares = Ok p ->
  exists c', fire_process_message (MsgSignatureShareResponse m) c = (c', Ok (None, Some (ResSignTaproot p))) /\ fire_state c' = CsIdle.
Proof.
  intros Hs Hck Hw Hin Hans. unfold fire_taproot_answer in Hans. apply bind_ok_inv in Hans as ([] & Hi & Hp).
  eexists. split.
  - apply fire_loop_one. unfold fire_turn, st_bind at 1. cbn [st_get]. rewrite Hs.
    unfold fire_sig_share_turn, st_catch, st_bind at 1. unfold st_bind at 1. rewrite gather_share_taken by done.
    unfold fire_shares_done, st_bind at 1. cbn [st_get]. unfold st_bind at 1, st_ok_or, st_lift.
    change (fire_message (take_shares m c)) with (fire_message c).
    replace (fire_message_nonces (take_shares m c) !! fire_message c) with (Some (add_shares m (info_of c (fire_message c))))
      by (cbn; by rewrite lookup_insert_eq).
    cbn [ok_or]. rewrite bool_decide_eq_true_2 by done. unfold fire_aggregate, st_bind, st_get, st_modify, st_lift. rewrite Hin.
    change (fire_aggregator (take_shares m c)) with (fire_aggregator c).
    change (fire_party_polynomials (take_shares m c)) with (fire_party_polynomials c). rewrite Hi. cbn [map_err].
    cbn [fire_aggregator fire_set_aggregator fire_message]. change (fire_message (take_shares m c)) with (fire_message c). rewrite Hp.
    cbn [map_err]. fire_unfold. cbn [fire_can_move_to fire_set_state fire_state].
    rewrite bool_decide_eq_false_2, bool_decide_eq_true_2 by done. reflexivity.
  - done.
Qed.

(** The shares of the awaited signers, in any order. *)
Lemma fire_shares_round c root ms nonces key_ids shares p :
  fire_state c = CsSigShareGather (Taproot root) -> ms <> [] -> Forall (fun m => fire_check_shares c m = Ok true) ms ->
  NoDup (map sr_signer_id ms) -> sri_sign_wait_signer_ids (info_of c (fire_message c)) = list_to_set (map sr_signer_id ms) ->
  fire_aggregation_inputs (fire_set_signature_shares
    (foldl (fun n m => <[sr_signer_id m := sr_signature_shares m]> n) (fire_signature_shares c) ms) c) (info_of c (fire_message c))
    = Ok (nonces, key_ids, shares) ->
  fire_taproot_answer c root (fire_message c) nonces key_ids shares = Ok p ->
  exists c', fire_process_inbound_messages (map MsgSignatureShareResponse ms) c = (c', Ok ([], [ResSignTaproot p])) /\
    fire_state c' = CsIdle.
Proof.
  revert c. induction ms as [|m ms IH]; intros c Hs Hne Hck Hnd Ha Hin Hans; [done|].
  apply Forall_cons in Hck as [Hm Hck]. cbn [map] in Hnd. apply NoDup_cons in Hnd as [Hni Hnd].
  assert (sri_sign_wait_signer_ids (add_shares m (info_of c (fire_message c))) = list_to_set (map sr_signer_id ms)) as Ha'.
  { unfold add_shares. rewrite Ha. cbn [map list_to_set]. rewrite bool_decide_eq_true_2 by set_solver. cbn [sri_sign_wait_signer_ids].
    clear -Hni. set_solver. }
  assert (sri_public_nonces (add_shares m (info_of c (fire_message c))) = sri_public_nonces (info_of c (fire_message c))) as Hpn.
  { unfold add_shares. by case_bool_decide. }
  cbn [map fire_process_inbound_messages]. unfold st_bind at 1. destruct ms as [|m' ms].
  - destruct (process_share_last c root m nonces key_ids shares p) as (c' & -> & Hc'); try done; [|cbn; eauto].
    unfold fire_aggregation_inputs in *. rewrite Hpn. exact Hin.
  - rewrite (process_share_more c (Taproot root) m) by (try done; rewrite Ha'; set_solver).
    edestruct (IH (take_shares m c)) as (c' & Hp & Hc'); try done.
    + change (fire_message (take_shares m c)) with (fire_message c). by rewrite info_of_take_shares.
    + change (fire_message (take_shares m c)) with (fire_message c). rewrite info_of_take_shares.
      unfold fire_aggregation_inputs in *. rewrite Hpn. exact Hin.
    + unfold st_bind. rewrite Hp. cbn. eauto.
Qed.

Lemma keys_of_perm ms ms' : ms ≡ₚ ms' -> keys_of ms = keys_of ms'.
Proof. intros Hp. unfold keys_of. apply set_eq. intros k. rewrite !elem_of_list_to_set. by rewrite Hp. Qed.

Lemma fire_start_signing_eq c message t key : fire_state c = CsIdle -> fire_aggregate_public_key c = Some key ->
  fire_start_signing_round message t c =
    let c' := fire_set_state (CsNonceGather t) (fire_set_current_sign_iter_id (wrapping_succ (fire_current_sign_iter_id c))
      (fire_set_message_nonces ∅ (fire_set_current_sign_id (wrapping_succ (fire_current_sign_id c)) (fire_set_message message c)))) in
    (c', Ok (MsgNonceRequest (mkNonceRequest (fire_current_dkg_id c) (fire_current_sign_id c') (fire_current_sign_iter_id c') message t))).
Proof.
  intros Hs Hk. unfold fire_start_signing_round, fire_request_nonces. fire_unfold. rewrite bool_decide_eq_false_2 by (by rewrite Hk).
  cbn [fire_state fire_set_current_sign_id fire_set_message]. rewrite Hs. cbn [fire_can_move_to].
  rewrite bool_decide_eq_true_2 by done. cbn [orb fire_set_state fire_state fire_set_message_nonces fire_set_current_sign_iter_id fire_can_move_to].
  by rewrite bool_decide_eq_true_2.
Qed.

Lemma strictly_sorted_NoDup (l : list Z) : StronglySorted Z.lt l -> NoDup l.
Proof. induction 1 as [|x l _ IH Hx]; constructor; [|done]. rewrite Forall_forall in Hx. intros Hin%Hx. lia. Qed.
Lemma index_all_btree {A} (m : gmap Z A) : index_all m (btree_list m).*1 = Some (btree_list m).*2.
Proof.
  apply mapM_Some, Forall2_fmap_l, Forall2_fmap_r, Forall_Forall2_diag, Forall_forall.
  intros [i x] Hin%elem_of_btree_list. done.
Qed.

(** The nonce map of a round lists the responses by signer. *)
Lemma round_responses ms rs : ms ≡ₚ rs -> StronglySorted Z.lt (map nr_signer_id rs) ->
  let M := foldl (fun n m => <[nr_signer_id m := m]> n) (∅ : gmap Z NetNonceResponse) ms in
  (btree_list M).*1 = map nr_signer_id rs /\ (btree_list M).*2 = rs.
Proof.
  intros Hp Hs M. apply strictly_sorted_NoDup in Hs as Hnd.
  assert ((btree_list M).*1 = map nr_signer_id rs) as Hkeys.
  { apply btree_list_keys; [done|]. intros i. unfold M. rewrite (foldl_insert_dom nr_signer_id id) by (by rewrite Hp). by rewrite Hp. }
  split; [done|]. pose proof (index_all_btree M) as Hb. rewrite Hkeys in Hb. unfold M in Hb at 1.
  rewrite (index_all_perm nr_signer_id id) in Hb by done. rewrite map_id in Hb. by injection Hb.
Qed.

(** C22: a signing round completes with enough signers. After
    [start_signing_round], responses to the message from distinct signers that
    pass the coordinator's checks, the last of which brings the keys covered to
    the threshold, make the coordinator request shares from those signers, in
    the order of their identifiers; their shares, in any order, make it return
    the taproot signature that the aggregator computes from nonces, keys and
    shares in that same order, and end idle. No other signer needs to answer. *)
Theorem fire_signing_completes c c0 message root key req nonce_ms last share_ms rs ss p :
  fire_state c = CsIdle -> fire_aggregate_public_key c = Some key ->
  fire_start_signing_round message (Taproot root) c = (c0, Ok req) ->
  nonce_ms ++ [last] ≡ₚ rs -> StronglySorted Z.lt (map nr_signer_id rs) -> Forall (takes c0 message) rs ->
  Z.of_nat (size (keys_of nonce_ms)) < cfg_threshold (fire_config c) <= Z.of_nat (size (keys_of (nonce_ms ++ [last]))) ->
  share_ms ≡ₚ ss -> map sr_signer_id ss = map nr_signer_id rs -> Forall (fun m => fire_check_shares c0 m = Ok true) ss ->
  fire_taproot_answer c0 root message (concat (map nr_nonces rs)) (concat (map nr_key_ids rs)) (concat (map sr_signature_shares ss)) = Ok p ->
  exists c1 c2 sreq,
    fire_process_inbound_messages (map MsgNonceResponse (nonce_ms ++ [last])) c0 = (c1, Ok ([MsgSignatureShareRequest sreq], [])) /\
    sq_nonce_responses sreq = rs /\
    fire_process_inbound_messages (map MsgSignatureShareResponse share_ms) c1 = (c2, Ok ([], [ResSignTaproot p])) /\
    fire_state c2 = CsIdle.
Proof.
  intros Hs Hk Hst Hpn Hsort Htk [Hlt Hle] Hps Hss Hcs Hans. rewrite (fire_start_signing_eq _ _ _ key) in Hst by done.
  cbv zeta in Hst. simplify_eq. match type of Hans with fire_taproot_answer ?c' _ _ _ _ _ = _ => set (d := c') in * end.
  assert (info_of d message = sri_default) as Hdef by done.
  pose proof (fire_nonces_round d (Taproot root) message nonce_ms last) as Hr. cbv zeta in Hr. rewrite Hdef, !add_all_keys in Hr.
  cbn [sri_nonce_recv_key_ids sri_default] in Hr. rewrite !(left_id_L ∅ (∪)) in Hr.
  specialize (Hr eq_refl ltac:(by rewrite Hpn) Hlt Hle). rewrite Hr.
  destruct (round_responses _ _ Hpn Hsort) as [Hkeys Hvals]. set (info := add_all (nonce_ms ++ [last]) sri_default) in *.
  assert (sri_public_nonces info = foldl (fun n m => <[nr_signer_id m := m]> n) ∅ (nonce_ms ++ [last])) as Hnon by apply add_all_nonces.
  set (c1 := sharing _ message info d).
  assert (info_of c1 (fire_message c1) = info) as Hinfo. { unfold info_of, c1. cbn. by rewrite lookup_insert_eq. }
  assert (rs <> []) as Hne. { intros ->. by apply Permutation_nil_r, app_nil in Hpn as [_ ?]. }
  destruct (fire_shares_round c1 root share_ms (concat (map nr_nonces rs)) (concat (map nr_key_ids rs))
    (concat (map sr_signature_shares ss)) p) as (c2 & Hp2 & Hc2).
  { done. } { intros ->. apply Permutation_nil_l in Hps. rewrite <- Hps in Hss. by destruct rs. } { by rewrite Hps. }
  { rewrite Hps, Hss. by apply strictly_sorted_NoDup. }
  { rewrite Hinfo. unfold info. rewrite add_all_wait. cbn [sri_sign_wait_signer_ids sri_default]. rewrite (right_id_L ∅ (∪)).
    by rewrite Hps, Hss, Hpn. }
  { rewrite Hinfo. unfold fire_aggregation_inputs. rewrite Hnon, Hkeys, Hvals. cbn. rewrite <- Hss.
    rewrite (index_all_perm sr_signer_id sr_signature_shares) by (try done; rewrite Hss; by apply strictly_sorted_NoDup). done. }
  { done. }
  exists c1, c2. eexists. split_and!; [done| |exact Hp2|done]. cbn. by rewrite Hnon, Hvals.
Qed.
End FireRound.

(** ** Concrete rounds *)
#[local] Existing Instance demo_crypto.
#[local] Existing Instance demo_laws.

(** Three signers, one key each, two needed to sign. *)
Definition fire_demo_config : Config :=
  mkConfig 3 3 2 3 7 {[0 := {[1]}; 1 := {[2]}; 2 := {[3]}]} {[0 := 10; 1 := 20; 2 := 30]}.
Definition fire_demo : FireCoordinator :=
  fire_set_party_polynomials {[0 := 5; 1 := 6; 2 := 7]} (fire_set_aggregate_public_key (Some 18) (fire_new fire_demo_config)).

Definition fire_demo_nonces (i : Z) : NetNonceResponse := mkNonceResponse 0 1 1 i [i + 1] [100 + i] [9].
Definition fire_demo_shares (i : Z) : NetSignatureShareResponse := mkSignatureShareResponse 0 1 1 i [(200 + i, [i + 1])].
Definition fire_demo_started : FireCoordinator := (fire_start_signing_round [9] (Taproot None) fire_demo).1.

(** The signer 1 stays silent. *)
Lemma fire_signing_completes_witness : exists c1 c2 sreq,
  fire_process_inbound_messages [MsgNonceResponse (fire_demo_nonces 2); MsgNonceResponse (fire_demo_nonces 0)] fire_demo_started =
    (c1, Ok ([MsgSignatureShareRequest sreq], [])) /\
  sq_nonce_responses sreq = [fire_demo_nonces 0; fire_demo_nonces 2] /\
  fire_process_inbound_messages [MsgSignatureShareResponse (fire_demo_shares 2); MsgSignatureShareResponse (fire_demo_shares 0)] c1 =
    (c2, Ok ([], [ResSignTaproot [18; 100; 102; 200; 202]])).
Proof.
  destruct (fire_signing_completes fire_demo fire_demo_started [9] None 18 (MsgNonceRequest (mkNonceRequest 0 1 1 [9] (Taproot None)))
    [fire_demo_nonces 2] (fire_demo_nonces 0) [fire_demo_shares 2; fire_demo_shares 0] [fire_demo_nonces 0; fire_demo_nonces 2]
    [fire_demo_shares 0; fire_demo_shares 2] [18; 100; 102; 200; 202]) as (c1 & c2 & sreq & Hp1 & Hr & Hp2 & _);
    [by vm_compute..|apply perm_swap| | |by vm_compute|apply perm_swap|by vm_compute|repeat constructor; by vm_compute|by vm_compute|].
  - repeat constructor.
  - repeat (apply Forall_cons; split; [split; [done|eexists; by vm_compute]|]). by apply Forall_nil.
  - exists c1, c2, sreq. split_and!; [exact Hp1|exact Hr|exact Hp2].
Defined.

Lemma fire_demo_range : in_range fire_demo (cfg_signer_public_keys fire_demo_config).
Proof.
  intros i [k Hk]. cbn in Hk.
  repeat (apply lookup_insert_Some in Hk as [[<- _]|[_ Hk]]; [apply (bool_decide_unpack _); by vm_compute|]).
  apply lookup_singleton_Some in Hk as [<- _]. apply (bool_decide_unpack _). by vm_compute.
Qed.
Lemma fire_demo_started_inv : fire_inv fire_demo_started.
Proof.
  assert (fire_inv fire_demo) as Hi.
  { split; [|done]. split_and!; [exact fire_demo_range| | |done]; intros i [x Hx]; by destruct (lookup_empty_Some i x Hx). }
  unfold fire_demo_started. rewrite (@fire_start_signing_eq demo_crypto _ _ _ 18) by done. split; [exact (proj1 Hi)|].
  intros message info Hl. by destruct (lookup_empty_Some message info Hl).
Qed.
(** After the response of signer 2. *)
Definition fire_demo_waiting : FireCoordinator := (fire_process_message (MsgNonceResponse (fire_demo_nonces 2)) fire_demo_started).1.

Lemma fire_demo_waiting_inv : fire_inv fire_demo_waiting.
Proof.
  assert (fire_inv fire_demo_started /\ fire_key_ok fire_demo_started /\ reports_ok (MsgNonceResponse (fire_demo_nonces 2)) fire_demo_started) as Hpre
    by (split_and!; [exact fire_demo_started_inv|by intros root|by intros Hs]).
  pose proof (fire_process_message_triple (MsgNonceResponse (fire_demo_nonces 2)) fire_demo_started Hpre) as Ht.
  unfold fire_demo_waiting. by destruct (fire_process_message _ _) as [c []].
Qed.

Lemma fire_process_message_safe_witness : fire_inv fire_demo_waiting /\
  ~ crashed (fire_process_message (MsgNonceResponse (fire_demo_nonces 2)) fire_demo_started).2.
Proof. apply fire_process_message_safe; [exact fire_demo_started_inv|by intros root|by intros Hs]. Defined.

Lemma fire_share_request_quorum_witness : exists req,
  (fire_process_message (MsgNonceResponse (fire_demo_nonces 0)) fire_demo_waiting).2 = Ok (Some (MsgSignatureShareRequest req), None) /\
  Forall (fun nr => nonce_ok fire_demo_waiting (sq_message req) (nr_signer_id nr) nr) (sq_nonce_responses req).
Proof.
  eexists. split; [by vm_compute|].
  refine (proj1 (proj2 (fire_share_request_quorum fire_demo_waiting
    (fire_process_message (MsgNonceResponse (fire_demo_nonces 0)) fire_demo_waiting).1 (MsgNonceResponse (fire_demo_nonces 0)) _ None _ _)));
    [exact fire_demo_waiting_inv|by vm_compute].
Defined.

(** The last step of key generation: signer 1 has ended well, signer 2 will
    accuse signer 0 of bad public shares. *)
Definition fire_demo_end (b : Z) : FireCoordinator :=
  fire_set_state CsDkgEndGather (fire_set_dkg_wait_signer_ids ∅ (fire_set_dkg_end_messages
    {[0 := mkDkgEnd 1 0 StatusSuccess; 1 := mkDkgEnd 1 1 StatusSuccess; 2 := mkDkgEnd 1 2 (StatusFailure (FailBadPublicShares {[b]}))]}
    (fire_set_dkg_public_shares {[0 := mkDkgPublicShares 1 0 [(0, 5)]; 1 := mkDkgPublicShares 1 1 [(1, 6)]; 2 := mkDkgPublicShares 1 2 [(2, 7)]]}
      (fire_set_current_dkg_id 1 (fire_new fire_demo_config))))).

(** The accusation is false: the accuser is marked, and the round succeeds. *)
Lemma fire_false_accuser_marked : fire_malicious_dkg_signer_ids (fire_dkg_end_done (fire_demo_end 0)).1 = {[2]}.
Proof. by vm_compute. Qed.
Lemma fire_verdicts_exact_witness : exists j f, reported (fire_demo_end 0) j f /\ convicts (fire_demo_end 0) j f 2.
Proof.
  destruct (proj1 (proj1 (fire_verdicts_exact (fire_demo_end 0) (fire_dkg_end_done (fire_demo_end 0)).1 (Ok tt) eq_refl
    ltac:(by vm_compute) ltac:(by intros [])) 2)) as [Hm|Hr].
  - rewrite fire_false_accuser_marked. by apply elem_of_singleton.
  - by apply not_elem_of_empty in Hm.
  - exact Hr.
Defined.

Lemma fire_unknown_report_panics_witness :
  (fire_process_message (MsgDkgEnd (mkDkgEnd 1 2 (StatusFailure (FailBadPublicShares {[7]}))))
     (fire_set_dkg_wait_signer_ids {[2]} (fire_demo_end 0))).2 = Panic.
Proof.
  refine (fire_unknown_report_panics (fire_set_dkg_wait_signer_ids {[2]} (fire_demo_end 0)) 2 7 eq_refl eq_refl _ _); [by vm_compute|].
  intros i m Hi Hne. cbn in Hi. repeat (apply lookup_insert_Some in Hi as [[_ <-]|[_ Hi]]; [done|]).
  apply lookup_singleton_Some in Hi as [<- _]. done.
Defined.
