(* ===== verification/WstsSigner.v ===== *)
(** The signer state machine of the [wsts] crate.

    Source: src/wsts/src/state_machine/signer/mod.rs,
    src/wsts/src/state_machine/mod.rs.

    The machine a signer runs through key generation and signing: it answers
    the coordinator's requests, checks what the other signers sent and reports
    failures.  The party ([v2::Party]) is reached through the class
    [PartyOps]; its definitions and theorems are in [Wsts], [WstsDkg] and
    [WstsSign].  Operations run on the signer and the random number generator.
    [HashSet]s and [HashMap]s are iterated over in the order of [elements] and
    [map_to_list].

    Theorems: the machine follows its graph and a consistent configuration
    keeps it from panicking; a signer ends key generation with success only on
    complete and checked shares; the failures it reports are the ones the
    coordinator upholds. *)

From S2P Require Import Prelude Effects Types WstsNet DkgVerification WstsFrost WstsFire.

(** ** The party *)

(** [errors::DkgError], as far as the machine tells errors apart. *)
Inductive PartyDkgError :=
| PdBadPrivateShares (party_ids : list Z)
| PdOther.

Class PartyOps `{WstsCrypto} := {
  Rng : Type;
  Party : Type;
  party_new : Z -> list Z -> Z -> Z -> Z -> Rng -> Party * Rng;
  party_reset_polys : Party -> Rng -> Party * Rng;
  party_get_poly_commitment : Party -> Rng -> option PolyCommitment * Rng;
  commitment_id : PolyCommitment -> Z;                           (* [poly.id().id.get_u32()] *)
  party_get_shares : Party -> gmap Z Scalar;
  party_party_id : Party -> Z;
  party_key_ids : Party -> list Z;
  party_num_parties : Party -> Z;
  party_gen_nonce : Party -> Rng -> PublicNonce * Party * Rng;
  party_compute_secrets : Party -> gmap Z (gmap Z Scalar) -> gmap Z PolyCommitment -> Party * option (gmap Z PartyDkgError);
  party_sign_with_tweak : Party -> list Z -> list Z -> list Z -> list PublicNonce ->
    Party * outcome AggregatorError SignatureShare;
  party_sign_schnorr : Party -> list Z -> list Z -> list Z -> list PublicNonce -> Party * outcome AggregatorError SignatureShare;
  party_sign_taproot : Party -> list Z -> list Z -> list Z -> list PublicNonce -> option (list Z) ->
    Party * outcome AggregatorError SignatureShare;
  EcdsaKey : Type;
  point_of_key : EcdsaKey -> option Point;                       (* [Point::try_from(&Compressed::from(key.to_bytes()))] *)
  scalar_mul : Scalar -> Point -> Point;
  scalar_to_bytes : Scalar -> list Z;
  EncryptionError : Type;
  encrypt : Point -> list Z -> Rng -> outcome EncryptionError (list Z) * Rng;   (* under [make_shared_secret_from_key] *)
  tuple_proof_new : Scalar -> Point -> Point -> Point -> Rng -> TupleProof * Rng }.

(** ** The machine *)
Inductive SignerMachineState :=
| SmIdle
| SmDkgPublicDistribute
| SmDkgPublicGather
| SmDkgPrivateDistribute
| SmDkgPrivateGather
| SmSignGather.
#[global] Instance SignerMachineState_eq_dec : EqDecision SignerMachineState.
Proof. solve_decision. Defined.

Section Signer.
Context `{PartyOps}.

Inductive ConfigError :=
| InsufficientKeys
| InvalidThreshold
| InvalidSignerId (i : Z)
| InvalidKeyId (i : Z).

Inductive SignerError :=
| SgConfig (e : ConfigError)
| SgInvalidNonceResponse
| SgBadStateChange (from to : SignerMachineState)
| SgEncryption (e : EncryptionError)
| SgTryFromInt
| SgAggregator (e : AggregatorError)
| SgNoPolynomialCommitment.

Record PublicKeys := mkPublicKeys {
  pks_signers : gmap Z EcdsaKey;
  pks_key_ids : gmap Z EcdsaKey;
  pks_signer_key_ids : gmap Z (gset Z) }.

Definition validate_signer_id (i n : Z) : bool := i <? n.
Definition validate_key_id (k n : Z) : bool := (0 <? k) && (k <=? n).

Definition find_invalid (ok : Z -> bool) (ids : list Z) : option Z := head (filter (fun i => ok i = false) ids).

(** [for (signer_id, key_ids) in &self.signer_key_ids] *)
Fixpoint validate_signer_key_ids (num_signers num_keys : Z) (entries : list (Z * gset Z)) : outcome SignerError unit :=
  match entries with
  | [] => Ok tt
  | (i, ks) :: entries =>
      if negb (validate_signer_id i num_signers) then Err (SgConfig (InvalidSignerId i)) else
      match find_invalid (fun k => validate_key_id k num_keys) (elements ks) with
      | Some k => Err (SgConfig (InvalidKeyId k))
      | None => validate_signer_key_ids num_signers num_keys entries
      end
  end.

Definition public_keys_validate (pk : PublicKeys) (num_signers num_keys : Z) : outcome SignerError unit :=
  match find_invalid (fun i => validate_signer_id i num_signers) (map_to_list (pks_signers pk)).*1 with
  | Some i => Err (SgConfig (InvalidSignerId i))
  | None =>
      match find_invalid (fun k => validate_key_id k num_keys) (map_to_list (pks_key_ids pk)).*1 with
      | Some k => Err (SgConfig (InvalidKeyId k))
      | None => validate_signer_key_ids num_signers num_keys (map_to_list (pks_signer_key_ids pk))
      end
  end.

Record Signer := mkSigner {
  sg_dkg_id : Z;
  sg_sign_id : Z;
  sg_sign_iter_id : Z;
  sg_threshold : Z;
  sg_dkg_threshold : Z;
  sg_total_signers : Z;
  sg_total_keys : Z;
  sg_signer : Party;
  sg_signer_id : Z;
  sg_state : SignerMachineState;
  sg_commitments : gmap Z PolyCommitment;
  sg_decrypted_shares : gmap Z (gmap Z Scalar);
  sg_decryption_keys : gmap Z (Z * Point);
  sg_invalid_private_shares : gmap Z BadPrivateShare;
  sg_public_nonces : list PublicNonce;
  sg_network_private_key : Scalar;
  sg_public_keys : PublicKeys;
  sg_dkg_public_shares : gmap Z NetDkgPublicShares;
  sg_dkg_private_shares : gmap Z NetDkgPrivateShares;
  sg_dkg_private_begin_msg : option NetDkgPrivateBegin;
  sg_dkg_end_begin_msg : option NetDkgEndBegin }.

Definition sg_set_dkg_id (v : Z) (s : Signer) : Signer :=
  mkSigner v (sg_sign_id s) (sg_sign_iter_id s) (sg_threshold s) (sg_dkg_threshold s) (sg_total_signers s) (sg_total_keys s) (sg_signer s) (sg_signer_id s) (sg_state s) (sg_commitments s) (sg_decrypted_shares s) (sg_decryption_keys s) (sg_invalid_private_shares s) (sg_public_nonces s) (sg_network_private_key s) (sg_public_keys s) (sg_dkg_public_shares s) (sg_dkg_private_shares s) (sg_dkg_private_begin_msg s) (sg_dkg_end_begin_msg s).
Definition sg_set_signer (v : Party) (s : Signer) : Signer :=
  mkSigner (sg_dkg_id s) (sg_sign_id s) (sg_sign_iter_id s) (sg_threshold s) (sg_dkg_threshold s) (sg_total_signers s) (sg_total_keys s) v (sg_signer_id s) (sg_state s) (sg_commitments s) (sg_decrypted_shares s) (sg_decryption_keys s) (sg_invalid_private_shares s) (sg_public_nonces s) (sg_network_private_key s) (sg_public_keys s) (sg_dkg_public_shares s) (sg_dkg_private_shares s) (sg_dkg_private_begin_msg s) (sg_dkg_end_begin_msg s).
Definition sg_set_state (v : SignerMachineState) (s : Signer) : Signer :=
  mkSigner (sg_dkg_id s) (sg_sign_id s) (sg_sign_iter_id s) (sg_threshold s) (sg_dkg_threshold s) (sg_total_signers s) (sg_total_keys s) (sg_signer s) (sg_signer_id s) v (sg_commitments s) (sg_decrypted_shares s) (sg_decryption_keys s) (sg_invalid_private_shares s) (sg_public_nonces s) (sg_network_private_key s) (sg_public_keys s) (sg_dkg_public_shares s) (sg_dkg_private_shares s) (sg_dkg_private_begin_msg s) (sg_dkg_end_begin_msg s).
Definition sg_set_commitments (v : gmap Z PolyCommitment) (s : Signer) : Signer :=
  mkSigner (sg_dkg_id s) (sg_sign_id s) (sg_sign_iter_id s) (sg_threshold s) (sg_dkg_threshold s) (sg_total_signers s) (sg_total_keys s) (sg_signer s) (sg_signer_id s) (sg_state s) v (sg_decrypted_shares s) (sg_decryption_keys s) (sg_invalid_private_shares s) (sg_public_nonces s) (sg_network_private_key s) (sg_public_keys s) (sg_dkg_public_shares s) (sg_dkg_private_shares s) (sg_dkg_private_begin_msg s) (sg_dkg_end_begin_msg s).
Definition sg_set_decrypted_shares (v : gmap Z (gmap Z Scalar)) (s : Signer) : Signer :=
  mkSigner (sg_dkg_id s) (sg_sign_id s) (sg_sign_iter_id s) (sg_threshold s) (sg_dkg_threshold s) (sg_total_signers s) (sg_total_keys s) (sg_signer s) (sg_signer_id s) (sg_state s) (sg_commitments s) v (sg_decryption_keys s) (sg_invalid_private_shares s) (sg_public_nonces s) (sg_network_private_key s) (sg_public_keys s) (sg_dkg_public_shares s) (sg_dkg_private_shares s) (sg_dkg_private_begin_msg s) (sg_dkg_end_begin_msg s).
Definition sg_set_decryption_keys (v : gmap Z (Z * Point)) (s : Signer) : Signer :=
  mkSigner (sg_dkg_id s) (sg_sign_id s) (sg_sign_iter_id s) (sg_threshold s) (sg_dkg_threshold s) (sg_total_signers s) (sg_total_keys s) (sg_signer s) (sg_signer_id s) (sg_state s) (sg_commitments s) (sg_decrypted_shares s) v (sg_invalid_private_shares s) (sg_public_nonces s) (sg_network_private_key s) (sg_public_keys s) (sg_dkg_public_shares s) (sg_dkg_private_shares s) (sg_dkg_private_begin_msg s) (sg_dkg_end_begin_msg s).
Definition sg_set_invalid_private_shares (v : gmap Z BadPrivateShare) (s : Signer) : Signer :=
  mkSigner (sg_dkg_id s) (sg_sign_id s) (sg_sign_iter_id s) (sg_threshold s) (sg_dkg_threshold s) (sg_total_signers s) (sg_total_keys s) (sg_signer s) (sg_signer_id s) (sg_state s) (sg_commitments s) (sg_decrypted_shares s) (sg_decryption_keys s) v (sg_public_nonces s) (sg_network_private_key s) (sg_public_keys s) (sg_dkg_public_shares s) (sg_dkg_private_shares s) (sg_dkg_private_begin_msg s) (sg_dkg_end_begin_msg s).
Definition sg_set_public_nonces (v : list PublicNonce) (s : Signer) : Signer :=
  mkSigner (sg_dkg_id s) (sg_sign_id s) (sg_sign_iter_id s) (sg_threshold s) (sg_dkg_threshold s) (sg_total_signers s) (sg_total_keys s) (sg_signer s) (sg_signer_id s) (sg_state s) (sg_commitments s) (sg_decrypted_shares s) (sg_decryption_keys s) (sg_invalid_private_shares s) v (sg_network_private_key s) (sg_public_keys s) (sg_dkg_public_shares s) (sg_dkg_private_shares s) (sg_dkg_private_begin_msg s) (sg_dkg_end_begin_msg s).
Definition sg_set_dkg_public_shares (v : gmap Z NetDkgPublicShares) (s : Signer) : Signer :=
  mkSigner (sg_dkg_id s) (sg_sign_id s) (sg_sign_iter_id s) (sg_threshold s) (sg_dkg_threshold s) (sg_total_signers s) (sg_total_keys s) (sg_signer s) (sg_signer_id s) (sg_state s) (sg_commitments s) (sg_decrypted_shares s) (sg_decryption_keys s) (sg_invalid_private_shares s) (sg_public_nonces s) (sg_network_private_key s) (sg_public_keys s) v (sg_dkg_private_shares s) (sg_dkg_private_begin_msg s) (sg_dkg_end_begin_msg s).
Definition sg_set_dkg_private_shares (v : gmap Z NetDkgPrivateShares) (s : Signer) : Signer :=
  mkSigner (sg_dkg_id s) (sg_sign_id s) (sg_sign_iter_id s) (sg_threshold s) (sg_dkg_threshold s) (sg_total_signers s) (sg_total_keys s) (sg_signer s) (sg_signer_id s) (sg_state s) (sg_commitments s) (sg_decrypted_shares s) (sg_decryption_keys s) (sg_invalid_private_shares s) (sg_public_nonces s) (sg_network_private_key s) (sg_public_keys s) (sg_dkg_public_shares s) v (sg_dkg_private_begin_msg s) (sg_dkg_end_begin_msg s).
Definition sg_set_dkg_private_begin_msg (v : option NetDkgPrivateBegin) (s : Signer) : Signer :=
  mkSigner (sg_dkg_id s) (sg_sign_id s) (sg_sign_iter_id s) (sg_threshold s) (sg_dkg_threshold s) (sg_total_signers s) (sg_total_keys s) (sg_signer s) (sg_signer_id s) (sg_state s) (sg_commitments s) (sg_decrypted_shares s) (sg_decryption_keys s) (sg_invalid_private_shares s) (sg_public_nonces s) (sg_network_private_key s) (sg_public_keys s) (sg_dkg_public_shares s) (sg_dkg_private_shares s) v (sg_dkg_end_begin_msg s).
Definition sg_set_dkg_end_begin_msg (v : option NetDkgEndBegin) (s : Signer) : Signer :=
  mkSigner (sg_dkg_id s) (sg_sign_id s) (sg_sign_iter_id s) (sg_threshold s) (sg_dkg_threshold s) (sg_total_signers s) (sg_total_keys s) (sg_signer s) (sg_signer_id s) (sg_state s) (sg_commitments s) (sg_decrypted_shares s) (sg_decryption_keys s) (sg_invalid_private_shares s) (sg_public_nonces s) (sg_network_private_key s) (sg_public_keys s) (sg_dkg_public_shares s) (sg_dkg_private_shares s) (sg_dkg_private_begin_msg s) v.

Definition signer_new (threshold dkg_threshold total_signers total_keys signer_id : Z) (key_ids : list Z)
    (network_private_key : Scalar) (public_keys : PublicKeys) (rng : Rng) : outcome SignerError (Signer * Rng) :=
  if total_keys <? total_signers then Err (SgConfig InsufficientKeys) else
  if (threshold =? 0) || (total_keys <? threshold) then Err (SgConfig InvalidThreshold) else
  if (dkg_threshold =? 0) || (dkg_threshold <? threshold) then Err (SgConfig InvalidThreshold) else
  if negb (validate_signer_id signer_id total_signers) then Err (SgConfig (InvalidSignerId signer_id)) else
  match find_invalid (fun k => validate_key_id k total_keys) key_ids with
  | Some k => Err (SgConfig (InvalidKeyId k))
  | None =>
      _ ← public_keys_validate public_keys total_signers total_keys;
      let (party, rng) := party_new signer_id key_ids total_signers total_keys threshold rng in
      Ok (mkSigner 0 1 1 threshold dkg_threshold total_signers total_keys party signer_id SmIdle ∅ ∅ ∅ ∅ []
            network_private_key public_keys ∅ ∅ None None, rng)
  end.

(** Operations on the signer and the generator. *)
Abbreviation M := (st (Signer * Rng) SignerError).
Definition sg_get : M Signer := fun s => (s, Ok s.1).
Definition sg_modify (f : Signer -> Signer) : M unit := fun s => ((f s.1, s.2), Ok tt).
Definition sg_random {A} (f : Rng -> A * Rng) : M A := fun s => let (a, r) := f s.2 in ((s.1, r), Ok a).

Definition sg_can_move_to (prev next : SignerMachineState) : bool :=
  match next with
  | SmIdle => true
  | SmDkgPublicDistribute => bool_decide (prev = SmIdle) || bool_decide (prev = SmDkgPublicGather)
                             || bool_decide (prev = SmDkgPrivateDistribute)
  | SmDkgPublicGather => bool_decide (prev = SmDkgPublicDistribute)
  | SmDkgPrivateDistribute => bool_decide (prev = SmDkgPublicGather)
  | SmDkgPrivateGather => bool_decide (prev = SmDkgPrivateDistribute)
  | SmSignGather => bool_decide (prev = SmIdle)
  end.
Definition sg_move_to (next : SignerMachineState) : M unit :=
  s <- sg_get;;
  if sg_can_move_to (sg_state s) next then sg_modify (sg_set_state next) else st_throw (SgBadStateChange (sg_state s) next).

Definition sg_reset (dkg_id : Z) : M unit :=
  sg_modify (fun s => sg_set_public_nonces [] (sg_set_invalid_private_shares ∅ (sg_set_decryption_keys ∅
    (sg_set_decrypted_shares ∅ (sg_set_commitments ∅ (sg_set_dkg_id dkg_id s))))));;;
  s <- sg_get;;
  party <- sg_random (party_reset_polys (sg_signer s));;
  sg_modify (fun s => sg_set_state SmIdle (sg_set_dkg_end_begin_msg None (sg_set_dkg_private_begin_msg None
    (sg_set_dkg_private_shares ∅ (sg_set_dkg_public_shares ∅ (sg_set_signer party s)))))).

(** [Point::try_from(&compressed).unwrap()] on an indexed key. *)
Definition key_point (keys : gmap Z EcdsaKey) (i : Z) : outcome SignerError Point :=
  key ← or_panic (keys !! i); or_panic (point_of_key key).

(** [make_bad_private_share] *)
Definition make_bad_private_share (signer_id : Z) : M BadPrivateShare :=
  s <- sg_get;;
  let a := sg_network_private_key s in
  B <- st_lift (key_point (pks_signers (sg_public_keys s)) signer_id);;
  let K := scalar_mul a B in
  proof <- sg_random (tuple_proof_new a (scalar_base a) B K);;
  st_ret (mkBadPrivateShare K proof).

(** *** Key generation *)
Definition sg_dkg_public_begin : M (list Message) :=
  s <- sg_get;;
  commitment <- sg_random (party_get_poly_commitment (sg_signer s));;
  match commitment with
  | None => st_throw SgNoPolynomialCommitment
  | Some poly =>
      sg_move_to SmDkgPublicGather;;;
      st_ret [MsgDkgPublicShares (mkDkgPublicShares (sg_dkg_id s) (sg_signer_id s) [(commitment_id poly, poly)])]
  end.

Definition sg_dkg_begin (m : NetDkgBegin) : M (list Message) :=
  sg_reset (db_dkg_id m);;;
  sg_move_to SmDkgPublicDistribute;;;
  sg_dkg_public_begin.

(** The keys of the signers [ids]. *)
Definition active_key_ids (s : Signer) (ids : list Z) : gset Z :=
  ⋃ omap (fun i => pks_signer_key_ids (sg_public_keys s) !! i) ids.

(** [for (dst_key_id, private_share) in self.signer.get_shares()] *)
Fixpoint encrypt_shares (s : Signer) (active : gset Z) (shares : list (Z * Scalar)) (out : gmap Z (list Z)) : M (gmap Z (list Z)) :=
  match shares with
  | [] => st_ret out
  | (dst, share) :: shares =>
      if negb (bool_decide (dst ∈ active)) then encrypt_shares s active shares out else
      B <- st_lift (key_point (pks_key_ids (sg_public_keys s)) dst);;
      encrypted <- sg_random (encrypt (scalar_mul (sg_network_private_key s) B) (scalar_to_bytes share));;
      bytes <- st_lift (map_err SgEncryption encrypted);;
      encrypt_shares s active shares (<[dst := bytes]> out)
  end.

Definition sg_dkg_private_begin (m : NetDkgPrivateBegin) : M (list Message) :=
  sg_modify (sg_set_dkg_private_begin_msg (Some m));;;
  sg_move_to SmDkgPrivateDistribute;;;
  s <- sg_get;;
  encrypted <- encrypt_shares s (active_key_ids s (dpb_signer_ids m)) (map_to_list (party_get_shares (sg_signer s))) ∅;;
  sg_move_to SmDkgPrivateGather;;;
  st_ret [MsgDkgPrivateShares (mkDkgPrivateShares (sg_dkg_id s) (sg_signer_id s) [(party_party_id (sg_signer s), encrypted)])].

Definition sg_dkg_end_begin (m : NetDkgEndBegin) : M (list Message) :=
  sg_modify (sg_set_dkg_end_begin_msg (Some m));;; st_ret [].

Definition sg_dkg_public_share (m : NetDkgPublicShares) : M (list Message) :=
  s <- sg_get;;
  if bool_decide (pks_signers (sg_public_keys s) !! dps_signer_id m = None) then st_ret [] else
  if negb (forallb (fun e => dps_signer_id m =? e.1) (dps_comms m)) then st_ret [] else
  sg_modify (fun s => sg_set_dkg_public_shares (<[dps_signer_id m := m]> (sg_dkg_public_shares s)) s);;;
  st_ret [].

(** [for (dst_key_id, bytes) in shares] *)
Fixpoint decrypt_shares (src_signer_id : Z) (shared_key : Point) (key_ids : gset Z) (shares : list (Z * list Z))
    (out : gmap Z Scalar) : M (gmap Z Scalar) :=
  match shares with
  | [] => st_ret out
  | (dst, bytes) :: shares =>
      if negb (bool_decide (dst ∈ key_ids)) then decrypt_shares src_signer_id shared_key key_ids shares out else
      match decrypt shared_key bytes ≫= scalar_try_from with
      | Some x => decrypt_shares src_signer_id shared_key key_ids shares (<[dst := x]> out)
      | None =>
          bad <- make_bad_private_share src_signer_id;;
          sg_modify (fun s => sg_set_invalid_private_shares (<[src_signer_id := bad]> (sg_invalid_private_shares s)) s);;;
          decrypt_shares src_signer_id shared_key key_ids shares out
      end
  end.

(** [for (src_id, shares) in &dkg_private_shares.shares] *)
Fixpoint receive_shares (src_signer_id : Z) (shared_key : Point) (key_ids : gset Z) (shares : list (Z * gmap Z (list Z))) : M unit :=
  match shares with
  | [] => st_ret tt
  | (src, ks) :: shares =>
      decrypted <- decrypt_shares src_signer_id shared_key key_ids (map_to_list ks) ∅;;
      sg_modify (fun s => sg_set_decryption_keys (<[src := (src_signer_id, shared_key)]> (sg_decryption_keys s))
        (sg_set_decrypted_shares (<[src := decrypted]> (sg_decrypted_shares s)) s));;;
      receive_shares src_signer_id shared_key key_ids shares
  end.

Definition sg_dkg_private_share (m : NetDkgPrivateShares) : M (list Message) :=
  s <- sg_get;;
  if bool_decide (pks_signers (sg_public_keys s) !! dvs_signer_id m = None) then st_ret [] else
  if negb (forallb (fun e => dvs_signer_id m =? e.1) (dvs_shares m)) then st_ret [] else
  sg_modify (fun s => sg_set_dkg_private_shares (<[dvs_signer_id m := m]> (sg_dkg_private_shares s)) s);;;
  B <- st_lift (key_point (pks_signers (sg_public_keys s)) (dvs_signer_id m));;
  receive_shares (dvs_signer_id m) (scalar_mul (sg_network_private_key s) B) (list_to_set (party_key_ids (sg_signer s))) (dvs_shares m);;;
  st_ret [].

(** *** The end of key generation *)
Definition sg_can_dkg_end (s : Signer) : bool :=
  bool_decide (sg_state s = SmDkgPrivateGather) &&
  match sg_dkg_private_begin_msg s with
  | None => false
  | Some pb =>
      forallb (fun i => bool_decide (is_Some (sg_dkg_public_shares s !! i))) (dpb_signer_ids pb) &&
      match sg_dkg_end_begin_msg s with
      | None => false
      | Some eb => forallb (fun i => bool_decide (is_Some (sg_dkg_private_shares s !! i))) (deb_signer_ids eb)
      end
  end.

Definition sg_public_shares_done (s : Signer) : bool :=
  bool_decide (sg_state s = SmDkgPublicGather) && (Z.of_nat (size (sg_commitments s)) =? party_num_parties (sg_signer s)).

(** [num_dkg_keys]: the keys of the signers, added with [saturating_add]. *)
Definition num_dkg_keys (s : Signer) (ids : list Z) : Z :=
  foldl (fun n i => match pks_signer_key_ids (sg_public_keys s) !! i with
                    | Some ks => Z.min (n + Z.of_nat (size ks)) (2 ^ 32 - 1)
                    | None => n end) 0 ids.

(** What the loop over the signers of [DkgEndBegin] collects. *)
Record ShareScan := mkScan {
  sc_commitments : gmap Z PolyCommitment;
  sc_missing_public : gset Z;
  sc_bad_public : gset Z;
  sc_missing_private : gset Z }.

Definition scan_comm (threshold signer_id : Z) (a : ShareScan) (e : Z * PolyCommitment) : ShareScan :=
  if negb (check_public_shares e.2 threshold)
  then mkScan (sc_commitments a) (sc_missing_public a) ({[signer_id]} ∪ sc_bad_public a) (sc_missing_private a)
  else mkScan (<[e.1 := e.2]> (sc_commitments a)) (sc_missing_public a) (sc_bad_public a) (sc_missing_private a).

Definition scan_public (s : Signer) (i : Z) (a : ShareScan) : ShareScan :=
  let missing := mkScan (sc_commitments a) ({[i]} ∪ sc_missing_public a) (sc_bad_public a) (sc_missing_private a) in
  match sg_dkg_public_shares s !! i with
  | Some shares => match dps_comms shares with
                   | [] => missing
                   | comms => foldl (scan_comm (sg_threshold s) i) a comms end
  | None => missing
  end.

(** Whether the shares lack one of this signer's keys. *)
Definition lacks_key (key_ids : list Z) (shares : list (Z * gmap Z (list Z))) : bool :=
  existsb (fun k => existsb (fun e => bool_decide (e.2 !! k = None)) shares) key_ids.

Definition scan_private (s : Signer) (i : Z) (a : ShareScan) : ShareScan :=
  let missing := mkScan (sc_commitments a) (sc_missing_public a) (sc_bad_public a) ({[i]} ∪ sc_missing_private a) in
  match sg_dkg_private_shares s !! i with
  | Some shares => match dvs_shares shares with
                   | [] => missing
                   | l => if lacks_key (party_key_ids (sg_signer s)) l then missing else a end
  | None => missing
  end.

Definition scan_shares (s : Signer) (ids : list Z) : ShareScan :=
  foldl (fun a i => scan_private s i (scan_public s i a)) (mkScan (sg_commitments s) ∅ ∅ ∅) ids.

(** [for party_id in party_ids] of a [BadPrivateShares] error *)
Fixpoint report_parties (ids : list Z) (bad : gmap Z BadPrivateShare) : M (gmap Z BadPrivateShare) :=
  match ids with
  | [] => st_ret bad
  | p :: ids =>
      s <- sg_get;;
      match sg_decryption_keys s !! p with
      | Some (signer_id, _) => share <- make_bad_private_share signer_id;; report_parties ids (<[signer_id := share]> bad)
      | None => report_parties ids bad
      end
  end.
Fixpoint report_errors (errors : list (Z * PartyDkgError)) (bad : gmap Z BadPrivateShare) : M (gmap Z BadPrivateShare) :=
  match errors with
  | [] => st_ret bad
  | (_, PdBadPrivateShares ids) :: errors => bad <- report_parties ids bad;; report_errors errors bad
  | (_, PdOther) :: errors => report_errors errors bad
  end.

Definition sg_end_message (s : Signer) (status : DkgStatus) : Message :=
  MsgDkgEnd (mkDkgEnd (sg_dkg_id s) (sg_signer_id s) status).

(** The signers of [DkgEndBegin] with valid identifiers. *)
Definition end_signer_ids (s : Signer) (m : NetDkgEndBegin) : gset Z :=
  list_to_set (filter (fun i => i < sg_total_signers s) (deb_signer_ids m)).

Definition sg_compute : M DkgStatus :=
  s <- sg_get;;
  if bool_decide (sg_invalid_private_shares s = ∅) then
    let (party, errors) := party_compute_secrets (sg_signer s) (sg_decrypted_shares s) (sg_commitments s) in
    sg_modify (sg_set_signer party);;;
    match errors with
    | None => st_ret StatusSuccess
    | Some errors => bad <- report_errors (map_to_list errors) ∅;; st_ret (StatusFailure (FailBadPrivateShares bad))
    end
  else st_ret (StatusFailure (FailBadPrivateShares (sg_invalid_private_shares s))).

Definition sg_status : M DkgStatus :=
  s <- sg_get;;
  if negb (sg_can_dkg_end s) then st_ret (StatusFailure FailBadState) else
  match sg_dkg_end_begin_msg s with
  | None => st_ret (StatusFailure FailBadState)
  | Some m =>
      let ids := elements (end_signer_ids s m) in
      if num_dkg_keys s ids <? sg_dkg_threshold s then st_ret (StatusFailure FailThreshold) else
      let a := scan_shares s ids in
      sg_modify (sg_set_commitments (sc_commitments a));;;
      if negb (bool_decide (sc_missing_public a = ∅)) then st_ret (StatusFailure (FailMissingPublicShares (sc_missing_public a))) else
      if negb (bool_decide (sc_bad_public a = ∅)) then st_ret (StatusFailure (FailBadPublicShares (sc_bad_public a))) else
      if negb (bool_decide (sc_missing_private a = ∅)) then st_ret (StatusFailure (FailMissingPrivateShares (sc_missing_private a))) else
      sg_compute
  end.

Definition sg_dkg_ended : M Message :=
  s <- sg_get;;
  status <- sg_status;;
  st_ret (sg_end_message s status).

(** *** Signing *)
Definition sg_nonce_request (m : NetNonceRequest) : M (list Message) :=
  s <- sg_get;;
  nonce <- (fun st => let '(nonce, party, rng) := party_gen_nonce (sg_signer st.1) st.2 in
              ((sg_set_signer party st.1, rng), Ok nonce));;
  st_ret [MsgNonceResponse (mkNonceResponse (nq_dkg_id m) (nq_sign_id m) (nq_sign_iter_id m) (sg_signer_id s)
    (party_key_ids (sg_signer s)) [nonce] (nq_message m))].

(** [signer_id_set], in the order of a [BTreeSet]. *)
Definition sorted_ids (ids : list Z) : list Z := merge_sort Z.le (elements (list_to_set ids : gset Z)).

Definition sg_request_invalid (s : Signer) (m : NetSignatureShareRequest) : bool :=
  let ids := sorted_ids (map nr_signer_id (sq_nonce_responses m)) in
  negb (Nat.eqb (length (sq_nonce_responses m)) (length ids)) || bool_decide (ids = []) ||
  match last ids with Some i => sg_total_signers s <=? i | None => false end.

Definition sg_sign (m : NetSignatureShareRequest) (signer_ids key_ids : list Z) (nonces : list PublicNonce) : M SignatureShare :=
  fun st =>
    let p := sg_signer st.1 in
    let (party, r) := match sq_signature_type m with
      | Taproot root => party_sign_taproot p (sq_message m) signer_ids key_ids nonces root
      | Schnorr => party_sign_schnorr p (sq_message m) signer_ids key_ids nonces
      | Frost => party_sign_with_tweak p (sq_message m) signer_ids key_ids nonces end in
    ((sg_set_signer party st.1, st.2), map_err SgAggregator r).

Definition sg_sign_share_request (m : NetSignatureShareRequest) : M (list Message) :=
  s <- sg_get;;
  let ids := sorted_ids (map nr_signer_id (sq_nonce_responses m)) in
  if sg_request_invalid s m then st_throw SgInvalidNonceResponse else
  let nonces := concat (map nr_nonces (sq_nonce_responses m)) in
  if negb (forallb public_nonce_is_valid nonces) then st_throw SgInvalidNonceResponse else
  if bool_decide (sg_signer_id s ∈ ids) then
    share <- sg_sign m ids (concat (map nr_key_ids (sq_nonce_responses m))) nonces;;
    st_ret [MsgSignatureShareResponse (mkSignatureShareResponse (sq_dkg_id m) (sq_sign_id m) (sq_sign_iter_id m) (sg_signer_id s) [share])]
  else st_ret [].

(** *** Messages *)
Definition sg_handle (message : Message) : M (list Message) :=
  match message with
  | MsgDkgBegin m => sg_dkg_begin m
  | MsgDkgPrivateBegin m => sg_dkg_private_begin m
  | MsgDkgEndBegin m => sg_dkg_end_begin m
  | MsgDkgPublicShares m => sg_dkg_public_share m
  | MsgDkgPrivateShares m => sg_dkg_private_share m
  | MsgSignatureShareRequest m => sg_sign_share_request m
  | MsgNonceRequest m => sg_nonce_request m
  | _ => st_ret []
  end.

Definition sg_process (message : Message) : M (list Message) :=
  out <- sg_handle message;;
  s <- sg_get;;
  if sg_can_dkg_end s then
    end_msg <- sg_dkg_ended;;
    sg_move_to SmIdle;;;
    st_ret (out ++ [end_msg])
  else st_ret out.

Fixpoint sg_process_inbound_messages (messages : list Message) : M (list Message) :=
  match messages with
  | [] => st_ret []
  | m :: messages =>
      out <- sg_process m;;
      rest <- sg_process_inbound_messages messages;;
      st_ret (out ++ rest)
  end.
End Signer.

(** ** Invariant *)

(** What the machine relies on of the party. Each law is proved of the party's
    definitions, in files that load MathComp and cannot be loaded beside this
    one: [WstsSign.tuple_proof_complete], [WstsDkg.compute_secrets_blame],
    [Wsts.encrypt_no_panic], and, for the keys that a party keeps,
    [WstsDkg.gen_nonce_key_ids], [WstsDkg.compute_secrets_key_ids] and
    [WstsDkg.sign_with_tweak_key_ids]. *)
Class PartyLaws {wc : WstsCrypto} {po : PartyOps} : Prop := {
  proof_complete a B r :
    tuple_proof_verify (tuple_proof_new a (scalar_base a) B (scalar_mul a B) r).1 (scalar_base a) B (scalar_mul a B) = true;
  secrets_blame p shares comms errs q ids i :
    (party_compute_secrets p shares comms).2 = Some errs -> errs !! q = Some (PdBadPrivateShares ids) -> i ∈ ids ->
    exists k d x poly, k ∈ party_key_ids p /\ shares !! i = Some d /\ d !! k = Some x /\ comms !! i = Some poly /\
      compute_poly k poly <> Some (scalar_base x);
  encrypt_no_crash K bytes r : ~ crashed (encrypt K bytes r).1;
  nonce_keeps_keys p r : party_key_ids (party_gen_nonce p r).1.2 = party_key_ids p;
  secrets_keep_keys p shares comms : party_key_ids (party_compute_secrets p shares comms).1 = party_key_ids p;
  tweak_keeps_keys p msg ids kids ns : party_key_ids (party_sign_with_tweak p msg ids kids ns).1 = party_key_ids p;
  schnorr_keeps_keys p msg ids kids ns : party_key_ids (party_sign_schnorr p msg ids kids ns).1 = party_key_ids p;
  taproot_keeps_keys p msg ids kids ns root : party_key_ids (party_sign_taproot p msg ids kids ns root).1 = party_key_ids p }.

Section SignerInvariant.
Context {wc : WstsCrypto} {po : PartyOps} {pl : PartyLaws}.
Implicit Types (s : Signer).

(** The key this signer shares with signer [i]. *)
Definition shared_with s i (K : Point) : Prop :=
  exists B, key_point (pks_signers (sg_public_keys s)) i = Ok B /\ K = scalar_mul (sg_network_private_key s) B.
Definition opens (K : Point) (bytes : list Z) : option Scalar := decrypt K bytes ≫= scalar_try_from.

(** [bytes] is the share for this signer's key [k] in what signer [i] sent. *)
Definition sent_share s i k (bytes : list Z) : Prop :=
  exists m src ks, sg_dkg_private_shares s !! i = Some m /\ (src, ks) ∈ dvs_shares m /\
    k ∈ party_key_ids (sg_signer s) /\ ks !! k = Some bytes.

(** A well-founded accusation of signer [b]. *)
Definition accusation_ok s b (sh : BadPrivateShare) : Prop :=
  exists B k bytes, key_point (pks_signers (sg_public_keys s)) b = Ok B /\
    bps_shared_key sh = scalar_mul (sg_network_private_key s) B /\
    tuple_proof_verify (bps_tuple_proof sh) (scalar_base (sg_network_private_key s)) B (bps_shared_key sh) = true /\
    sent_share s b k bytes /\ opens (bps_shared_key sh) bytes = None.

Definition share_from s src k x : Prop :=
  exists K bytes, shared_with s src K /\ sent_share s src k bytes /\ opens K bytes = Some x.

(** [once]: no signer sends its private shares twice in a round. *)
Variable once : Prop.

Record sg_inv s : Prop := {
  inv_keys : forall i key, pks_signers (sg_public_keys s) !! i = Some key -> is_Some (point_of_key key);
  inv_key_ids : forall i ks k, pks_signer_key_ids (sg_public_keys s) !! i = Some ks -> k ∈ ks ->
    exists key, pks_key_ids (sg_public_keys s) !! k = Some key /\ is_Some (point_of_key key);
  inv_public : forall i m, sg_dkg_public_shares s !! i = Some m -> Forall (fun e => e.1 = i) (dps_comms m);
  inv_private : forall i m, sg_dkg_private_shares s !! i = Some m -> Forall (fun e => e.1 = i) (dvs_shares m);
  inv_decryption : forall src i K, sg_decryption_keys s !! src = Some (i, K) -> src = i /\ is_Some (pks_signers (sg_public_keys s) !! i);
  inv_invalid : once -> forall b sh, sg_invalid_private_shares s !! b = Some sh -> accusation_ok s b sh;
  inv_decrypted : once -> forall src d k x, sg_decrypted_shares s !! src = Some d -> d !! k = Some x -> share_from s src k x }.

(** What the invariant reads. *)
Definition sg_view s := (sg_public_keys s, sg_network_private_key s, party_key_ids (sg_signer s), sg_dkg_public_shares s,
  sg_dkg_private_shares s, sg_decryption_keys s, sg_invalid_private_shares s, sg_decrypted_shares s).

Lemma sent_share_same s s' i k bytes : sg_view s' = sg_view s -> sent_share s i k bytes -> sent_share s' i k bytes.
Proof. unfold sent_share. intros [= _ _ H1 _ H2 _ _ _]. by rewrite H1, H2. Qed.
Lemma sg_inv_same s s' : sg_view s' = sg_view s -> sg_inv s -> sg_inv s'.
Proof.
  intros Hv []. assert (Hv' := Hv). injection Hv' as H1 H2 H3 H4 H5 H6 H7 H8. split; rewrite ?H1, ?H2, ?H3, ?H4, ?H5, ?H6, ?H7, ?H8; try done.
  - intros Ho b sh Hb. destruct (inv_invalid0 Ho b sh Hb) as (B & k & bytes & Hx). exists B, k, bytes. rewrite H1, H2. destruct_and!.
    split_and!; try done. by eapply sent_share_same.
  - intros Ho src d k x Hd Hk. destruct (inv_decrypted0 Ho src d k x Hd Hk) as (K & bytes & (B & HB & HK) & Hs & Hop). exists K, bytes.
    split_and!; [exists B; by rewrite H1, H2|by eapply sent_share_same|done].
Qed.

(** Triples on the signer alone. *)
Definition sg_triple {A} (P : Signer -> Prop) (m : st (Signer * Rng) SignerError A) (Q : A -> Signer -> Prop) (R : SignerError -> Signer -> Prop) : Prop :=
  triple (fun st => P st.1) m (fun a st => Q a st.1) (fun e st => R e st.1).

Lemma sg_triple_bind {A B} P m (k : A -> st (Signer * Rng) SignerError B) Q' Q R :
  sg_triple P m Q' R -> (forall a, sg_triple (Q' a) (k a) Q R) -> sg_triple P (st_bind m k) Q R.
Proof. apply triple_bind. Qed.
Lemma sg_triple_ret {A} P (a : A) (Q : A -> Signer -> Prop) R : (forall s, P s -> Q a s) -> sg_triple P (st_ret a) Q R.
Proof. intros HQ st Hs. by apply HQ. Qed.
Lemma sg_triple_throw {A} P e (Q : A -> Signer -> Prop) (R : SignerError -> Signer -> Prop) : (forall s, P s -> R e s) -> sg_triple P (st_throw e) Q R.
Proof. intros HQ st Hs. by apply HQ. Qed.
Lemma sg_triple_read {A} P (k : Signer -> st (Signer * Rng) SignerError A) Q R :
  (forall s, P s -> sg_triple (fun s' => s' = s) (k s) Q R) -> sg_triple P (st_bind sg_get k) Q R.
Proof. intros Hk st Hs. by apply (Hk st.1 Hs st). Qed.
Lemma sg_triple_modify P f (Q : unit -> Signer -> Prop) R : (forall s, P s -> Q tt (f s)) -> sg_triple P (sg_modify f) Q R.
Proof. intros HQ st Hs. by apply HQ. Qed.
Lemma sg_triple_random {A} P (f : Rng -> A * Rng) (Q : A -> Signer -> Prop) R : (forall s r, P s -> Q (f r).1 s) -> sg_triple P (sg_random f) Q R.
Proof. intros HQ st Hs. unfold sg_random. specialize (HQ st.1 st.2 Hs). destruct (f st.2) as [a r]. done. Qed.
Lemma sg_triple_lift {A} P (o : outcome SignerError A) (Q : A -> Signer -> Prop) (R : SignerError -> Signer -> Prop) :
  (forall s, P s -> match o with Ok a => Q a s | Err e => R e s | _ => False end) -> sg_triple P (st_lift o) Q R.
Proof. intros Ho. apply triple_lift. intros st Hs. exact (Ho st.1 Hs). Qed.
Lemma sg_triple_weaken {A} (P P' : Signer -> Prop) (m : st (Signer * Rng) SignerError A) (Q Q' : A -> Signer -> Prop) (R R' : SignerError -> Signer -> Prop) :
  (forall s, P s -> P' s) -> (forall a s, Q' a s -> Q a s) -> (forall e s, R' e s -> R e s) -> sg_triple P' m Q' R' -> sg_triple P m Q R.
Proof. intros HP HQ HR. apply triple_weaken; auto. Qed.
Lemma sg_triple_move P next (Q : unit -> Signer -> Prop) (R : SignerError -> Signer -> Prop) :
  (forall s, P s -> if sg_can_move_to (sg_state s) next then Q tt (sg_set_state next s) else R (SgBadStateChange (sg_state s) next) s) ->
  sg_triple P (sg_move_to next) Q R.
Proof.
  intros HP. apply sg_triple_read. intros s Hs. specialize (HP s Hs). destruct (sg_can_move_to (sg_state s) next);
    [apply sg_triple_modify|apply sg_triple_throw]; by intros ? ->.
Qed.

(** *** Receiving private shares *)
Definition sg_core s := (sg_public_keys s, sg_network_private_key s, party_key_ids (sg_signer s), sg_dkg_private_shares s).
Lemma sent_share_core s s' i k bytes : sg_core s' = sg_core s -> sent_share s i k bytes -> sent_share s' i k bytes.
Proof. unfold sent_share. intros [= _ _ H1 H2]. by rewrite H1, H2. Qed.
Lemma shared_with_core s s' i K : sg_core s' = sg_core s -> shared_with s i K -> shared_with s' i K.
Proof. unfold shared_with. intros [= H1 H2 _ _]. by rewrite H1, H2. Qed.
Lemma share_from_core s s' i k x : sg_core s' = sg_core s -> share_from s i k x -> share_from s' i k x.
Proof. intros Hc (K & bytes & HK & Hs & Ho). exists K, bytes. split_and!; [by eapply shared_with_core|by eapply sent_share_core|done]. Qed.
Lemma accusation_core s s' b sh : sg_core s' = sg_core s -> accusation_ok s b sh -> accusation_ok s' b sh.
Proof.
  intros Hc (B & k & bytes & Hx). exists B, k, bytes. destruct_and!. injection Hc as E1 E2 E3 E4. rewrite E1, E2.
  split_and!; try done. eapply sent_share_core; [|done]. unfold sg_core. congruence.
Qed.

Lemma key_point_ok s i : sg_inv s -> is_Some (pks_signers (sg_public_keys s) !! i) ->
  exists B, key_point (pks_signers (sg_public_keys s)) i = Ok B.
Proof. intros Hi [key Hk]. destruct (inv_keys s Hi i key Hk) as [B HB]. exists B. unfold key_point. rewrite Hk. cbn. by rewrite HB. Qed.

Lemma make_bad_triple s0 i : sg_inv s0 -> is_Some (pks_signers (sg_public_keys s0) !! i) ->
  sg_triple (fun s => s = s0) (make_bad_private_share i)
    (fun sh s => s = s0 /\ exists B, key_point (pks_signers (sg_public_keys s0)) i = Ok B /\
       bps_shared_key sh = scalar_mul (sg_network_private_key s0) B /\
       tuple_proof_verify (bps_tuple_proof sh) (scalar_base (sg_network_private_key s0)) B (bps_shared_key sh) = true)
    (fun _ _ => False).
Proof.
  intros Hi Hk. destruct (key_point_ok s0 i Hi Hk) as [B HB]. apply sg_triple_read. intros s ->.
  eapply sg_triple_bind with (Q' := fun B' s => s = s0 /\ B' = B). { apply sg_triple_lift. intros s ->. by rewrite HB. }
  intros B'. eapply sg_triple_bind with (Q' := fun p s => s = s0 /\ B' = B /\
    tuple_proof_verify p (scalar_base (sg_network_private_key s0)) B (scalar_mul (sg_network_private_key s0) B) = true).
  { apply sg_triple_random. intros s r [-> ->]. split_and!; [done|done|]. apply proof_complete. }
  intros p. apply sg_triple_ret. intros s (-> & -> & Hp). split; [done|]. by exists B.
Qed.

Lemma decrypt_shares_triple s0 i K l : shared_with s0 i K -> is_Some (pks_signers (sg_public_keys s0) !! i) ->
  (forall dst bytes, (dst, bytes) ∈ l -> dst ∈ party_key_ids (sg_signer s0) -> sent_share s0 i dst bytes) ->
  forall out, (forall k x, out !! k = Some x -> share_from s0 i k x) ->
  sg_triple (fun s => sg_inv s /\ sg_core s = sg_core s0) (decrypt_shares i K (list_to_set (party_key_ids (sg_signer s0))) l out)
    (fun out' s => (sg_inv s /\ sg_core s = sg_core s0) /\ forall k x, out' !! k = Some x -> share_from s0 i k x) (fun _ _ => False).
Proof.
  intros HK Hpk. induction l as [|[dst bytes] l IH]; intros Hsent out Hout; cbn [decrypt_shares].
  { apply sg_triple_ret. by intros s Hs. }
  case_bool_decide as Hin; cbn [negb].
  2: { apply IH; [|done]. intros d b Hdb. apply Hsent. by right. }
  apply elem_of_list_to_set in Hin. assert (sent_share s0 i dst bytes) as Hs0 by (apply Hsent; [left|done]).
  specialize (IH ltac:(intros d b Hdb; apply Hsent; by right)).
  change (decrypt K bytes ≫= scalar_try_from) with (opens K bytes). destruct (opens K bytes) as [x|] eqn:Hop.
  - apply IH. intros k y. destruct (decide (k = dst)) as [->|Hne]; [|rewrite lookup_insert_ne by done; apply Hout].
    rewrite lookup_insert_eq. intros [= <-]. by exists K, bytes.
  - eapply sg_triple_bind with (Q' := fun sh s => sg_inv s /\ sg_core s = sg_core s0 /\ accusation_ok s i sh).
    + intros st [Hi Hc]. assert (is_Some (pks_signers (sg_public_keys st.1) !! i)) as Hpk' by (injection Hc as -> _ _ _; done).
      pose proof (make_bad_triple st.1 i Hi Hpk' st eq_refl) as Ht. destruct (make_bad_private_share i st) as [st' []]; [|done..].
      destruct Ht as [-> (B & HB & Hsk & Hv)]. split_and!; [done|done|]. exists B, dst, bytes. split_and!; [done|done|done|by eapply sent_share_core|].
      destruct HK as (B' & HB' & ->). injection Hc as Hc1 Hc2 _ _. rewrite Hc1 in HB. rewrite HB' in HB. simplify_eq. by rewrite Hsk, Hc2.
    + intros sh. eapply sg_triple_bind with (Q' := fun _ s => sg_inv s /\ sg_core s = sg_core s0); [|intros []; by apply IH]. apply sg_triple_modify. intros s (Hi & Hc & Ha). split; [|done].
      destruct Hi. split; try done. cbn. intros Ho b sh'. destruct (decide (b = i)) as [->|Hne].
      * rewrite lookup_insert_eq. intros [= <-]. eapply accusation_core; [|exact Ha]. done.
      * rewrite lookup_insert_ne by done. intros Hb. eapply accusation_core; [|by eapply inv_invalid0]. done.
Qed.

Lemma receive_shares_triple s0 i K l : shared_with s0 i K -> is_Some (pks_signers (sg_public_keys s0) !! i) ->
  (exists m, sg_dkg_private_shares s0 !! i = Some m /\ forall e, e ∈ l -> e ∈ dvs_shares m /\ e.1 = i) ->
  sg_triple (fun s => sg_inv s /\ sg_core s = sg_core s0) (receive_shares i K (list_to_set (party_key_ids (sg_signer s0))) l)
    (fun _ s => sg_inv s /\ sg_core s = sg_core s0) (fun _ _ => False).
Proof.
  intros HK Hpk (m & Hm & Hl). induction l as [|[src ks] l IH]; cbn [receive_shares]; [by apply sg_triple_ret|].
  destruct (Hl (src, ks)) as [Hin Hsrc]; [left|]. cbn in Hsrc. subst src.
  eapply sg_triple_bind.
  { apply (decrypt_shares_triple s0 i K (map_to_list ks) HK Hpk).
    - intros dst bytes Hdb%elem_of_map_to_list Hk. by exists m, i, ks.
    - intros k x. by rewrite lookup_empty. }
  intros out. eapply sg_triple_bind with (Q' := fun _ s => sg_inv s /\ sg_core s = sg_core s0); [|intros []; apply IH; intros e He; apply Hl; by right].
  apply sg_triple_modify. intros s [[Hi Hc] Hout]. split; [|done]. destruct Hi. split; try done; cbn.
  - intros src i' K'. destruct (decide (src = i)) as [->|Hne]; [|rewrite lookup_insert_ne by done; apply inv_decryption0].
    rewrite lookup_insert_eq. intros [= <- <-]. split; [done|]. injection Hc as -> _ _ _. done.
  - intros Ho src d k x. destruct (decide (src = i)) as [->|Hne].
    + rewrite lookup_insert_eq. intros [= <-] Hk. eapply share_from_core; [|by apply Hout]. done.
    + rewrite lookup_insert_ne by done. intros Hd Hk. eapply share_from_core; [|by eapply inv_decrypted0]. done.
Qed.

Lemma sg_private_share_triple m :
  sg_triple (fun s => sg_inv s /\ (once -> sg_dkg_private_shares s !! dvs_signer_id m = None)) (sg_dkg_private_share m)
    (fun _ s => sg_inv s) (fun _ s => sg_inv s).
Proof.
  apply sg_triple_read. intros s [Hi Hf]. case_bool_decide as Hpk; [apply sg_triple_ret; by intros ? ->|].
  destruct (forallb _ _) eqn:Hall; cbn [negb]; [|apply sg_triple_ret; by intros ? ->].
  apply not_eq_None_Some in Hpk. set (i := dvs_signer_id m) in *.
  assert (forall e, e ∈ dvs_shares m -> e.1 = i) as Hsrc.
  { intros e He. rewrite forallb_forall in Hall. specialize (Hall e). rewrite list_elem_of_In in He. apply Hall in He. lia. }
  set (s1 := sg_set_dkg_private_shares (<[i := m]> (sg_dkg_private_shares s)) s). destruct (key_point_ok s i Hi Hpk) as [B HB].
  assert (sg_inv s1) as Hi1.
  { assert (forall j k bytes, once -> sent_share s j k bytes -> sent_share s1 j k bytes) as Hsent.
    { intros j k bytes Ho (m' & src & ks & Hm' & Hr). exists m', src, ks. split; [|done]. cbn.
      rewrite lookup_insert_ne; [done|]. intros ->. rewrite (Hf Ho) in Hm'. done. }
    destruct Hi. split; try done.
    - intros j m'. cbn. destruct (decide (j = i)) as [->|Hne]; [|rewrite lookup_insert_ne by done; apply inv_private0].
      rewrite lookup_insert_eq. intros [= <-]. apply Forall_forall. exact Hsrc.
    - intros Ho b sh Hb. destruct (inv_invalid0 Ho b sh Hb) as (B' & k & bytes & Hx). exists B', k, bytes. destruct_and!. split_and!; try done. by apply Hsent.
    - intros Ho src d k x Hd Hk. destruct (inv_decrypted0 Ho src d k x Hd Hk) as (K & bytes & HK & Hx & Hop). exists K, bytes. split_and!; try done. by apply Hsent. }
  eapply sg_triple_bind with (Q' := fun _ s' => s' = s1). { apply sg_triple_modify. by intros ? ->. }
  intros []. eapply sg_triple_bind with (Q' := fun B' s' => s' = s1 /\ B' = B). { apply sg_triple_lift. intros ? ->. by rewrite HB. }
  intros B'. eapply sg_triple_bind with (Q' := fun _ s => sg_inv s); [|intros []; by apply sg_triple_ret].
  intros st [Hst ->]. pose proof (receive_shares_triple s1 i (scalar_mul (sg_network_private_key s) B) (dvs_shares m)) as Ht.
  assert (shared_with s1 i (scalar_mul (sg_network_private_key s) B)) as HK by (by exists B).
  specialize (Ht HK Hpk ltac:(exists m; cbn; rewrite lookup_insert_eq; split; [done|]; intros e He; split; [done|by apply Hsrc]) st).
  cbv beta in Ht. rewrite Hst in Ht. specialize (Ht (conj Hi1 eq_refl)). change (sg_signer s1) with (sg_signer s) in Ht.
  destruct (receive_shares _ _ _ _ st) as [st' []]; [apply Ht|done..].
Qed.

(** *** The other handlers *)
Lemma sg_reset_triple d : sg_triple sg_inv (sg_reset d) (fun _ s => sg_inv s) (fun _ s => sg_inv s).
Proof.
  eapply sg_triple_bind with (Q' := fun _ s => sg_inv s /\ sg_decryption_keys s = ∅ /\ sg_invalid_private_shares s = ∅ /\ sg_decrypted_shares s = ∅).
  { apply sg_triple_modify. intros s []. split; [|done]. split; try done; cbn; intros; by rewrite ?lookup_empty in *. }
  intros []. apply sg_triple_read. intros s (Hs & H1' & H2' & H3'). eapply sg_triple_bind with (Q' := fun _ s' => s' = s).
  { apply sg_triple_random. by intros ? r ->. }
  intros p. apply sg_triple_modify. intros s' ->. destruct Hs. split; try done; cbn; intros; rewrite ?H2', ?H3', ?lookup_empty in *; done.
Qed.

(** Changing only what the invariant does not read. *)
Lemma sg_triple_silent f : (forall s, sg_view (f s) = sg_view s) -> forall R, sg_triple sg_inv (sg_modify f) (fun _ s => sg_inv s) R.
Proof. intros Hf R. apply sg_triple_modify. intros s Hs. eapply sg_inv_same; [apply Hf|done]. Qed.
Lemma sg_move_inv next : sg_triple sg_inv (sg_move_to next) (fun _ s => sg_inv s) (fun _ s => sg_inv s).
Proof. apply sg_triple_move. intros s Hs. destruct (sg_can_move_to _ _); [eapply sg_inv_same; [|exact Hs]; done|done]. Qed.

Lemma sg_public_begin_triple : sg_triple sg_inv sg_dkg_public_begin (fun _ s => sg_inv s) (fun _ s => sg_inv s).
Proof.
  apply sg_triple_read. intros s Hs. eapply sg_triple_bind with (Q' := fun _ s => sg_inv s). { apply sg_triple_random. by intros ? r ->. }
  intros [poly|]; [|by apply sg_triple_throw]. eapply sg_triple_bind; [apply sg_move_inv|]. intros []. by apply sg_triple_ret.
Qed.

Lemma encrypt_shares_triple s0 ids shares : sg_inv s0 -> forall out,
  sg_triple (fun s => s = s0) (encrypt_shares s0 (active_key_ids s0 ids) shares out) (fun _ s => s = s0) (fun _ s => s = s0).
Proof.
  intros Hi. induction shares as [|[dst x] shares IH]; intros out; cbn [encrypt_shares]; [by apply sg_triple_ret|].
  case_bool_decide as Hin; cbn [negb]; [|apply IH]. unfold active_key_ids in Hin.
  apply elem_of_union_list in Hin as (ks & (i & _ & Hks)%list_elem_of_omap & Hk).
  destruct (inv_key_ids s0 Hi i ks dst Hks Hk) as (key & Hkey & [B HB]).
  eapply sg_triple_bind with (Q' := fun _ s => s = s0). { apply sg_triple_lift. intros s ->. unfold key_point. rewrite Hkey. cbn. by rewrite HB. }
  intros B'. eapply sg_triple_bind with (Q' := fun r s => s = s0 /\ ~ crashed r). { apply sg_triple_random. intros s r ->. split; [done|]. apply encrypt_no_crash. }
  intros r. eapply sg_triple_bind with (Q' := fun _ s => s = s0); [|intros bytes; apply IH].
  apply sg_triple_lift. intros s [-> Hr]. destruct r; cbn; try done; by destruct Hr.
Qed.

Lemma sg_private_begin_triple m : sg_triple sg_inv (sg_dkg_private_begin m) (fun _ s => sg_inv s) (fun _ s => sg_inv s).
Proof.
  eapply sg_triple_bind; [by apply sg_triple_silent|]. intros []. eapply sg_triple_bind; [apply sg_move_inv|]. intros [].
  apply sg_triple_read. intros s Hs. eapply sg_triple_bind with (Q' := fun _ s => sg_inv s).
  { eapply sg_triple_weaken; [| | |apply (encrypt_shares_triple s _ _ Hs)]; [done|by intros ? ? ->..]. }
  intros out. eapply sg_triple_bind; [apply sg_move_inv|]. intros []. by apply sg_triple_ret.
Qed.

Lemma sg_public_share_triple m : sg_triple sg_inv (sg_dkg_public_share m) (fun _ s => sg_inv s) (fun _ s => sg_inv s).
Proof.
  apply sg_triple_read. intros s Hs. case_bool_decide; [apply sg_triple_ret; by intros ? ->|].
  destruct (forallb _ _) eqn:Hall; cbn [negb]; [|apply sg_triple_ret; by intros ? ->].
  eapply sg_triple_bind with (Q' := fun _ s => sg_inv s); [|intros []; by apply sg_triple_ret].
  apply sg_triple_modify. intros s' ->. destruct Hs. split; try done. intros i m'. cbn.
  destruct (decide (i = dps_signer_id m)) as [->|Hne]; [|rewrite lookup_insert_ne by done; apply inv_public0].
  rewrite lookup_insert_eq. intros [= <-]. apply Forall_forall. intros e He. rewrite forallb_forall in Hall. specialize (Hall e).
  rewrite list_elem_of_In in He. apply Hall in He. lia.
Qed.

Lemma sg_nonce_triple m : sg_triple sg_inv (sg_nonce_request m) (fun _ s => sg_inv s) (fun _ s => sg_inv s).
Proof.
  apply sg_triple_read. intros s Hs. eapply sg_triple_bind with (Q' := fun _ s => sg_inv s); [|intros n; by apply sg_triple_ret].
  intros [s' r] Heq. cbn in Heq. subst s'. cbn. pose proof (nonce_keeps_keys (sg_signer s) r) as Hk.
  destruct (party_gen_nonce (sg_signer s) r) as [[n p] r']. eapply sg_inv_same; [|exact Hs]. cbn in Hk. unfold sg_view. cbn. by rewrite Hk.
Qed.

(** A request for a share that the party can answer or refuse. *)
Definition sign_ok (m : Message) s : Prop :=
  match m with
  | MsgSignatureShareRequest q => forall r, ~ crashed (sg_sign q (sorted_ids (map nr_signer_id (sq_nonce_responses q)))
      (concat (map nr_key_ids (sq_nonce_responses q))) (concat (map nr_nonces (sq_nonce_responses q))) (s, r)).2
  | _ => True
  end.

Lemma sg_sign_triple q : sg_triple (fun s => sg_inv s /\ sign_ok (MsgSignatureShareRequest q) s) (sg_sign_share_request q)
  (fun _ s => sg_inv s) (fun _ s => sg_inv s).
Proof.
  apply sg_triple_read. intros s [Hs Hok]. cbv zeta. destruct (sg_request_invalid s q); [apply sg_triple_throw; by intros ? ->|].
  destruct (forallb public_nonce_is_valid _); cbn [negb]; [|apply sg_triple_throw; by intros ? ->].
  case_bool_decide; [|apply sg_triple_ret; by intros ? ->].
  eapply sg_triple_bind with (Q' := fun _ s => sg_inv s); [|intros n; by apply sg_triple_ret].
  intros [s' r] Heq. cbn in Heq. subst s'. specialize (Hok r). revert Hok. unfold sg_sign. cbn [fst snd].
  set (ids := sorted_ids _). set (kids := concat (map nr_key_ids _)). set (ns := concat (map nr_nonces _)).
  assert (forall party, party_key_ids party = party_key_ids (sg_signer s) -> sg_inv (sg_set_signer party s)) as Hset.
  { intros party Hk. eapply sg_inv_same; [|exact Hs]. unfold sg_view. cbn. by rewrite Hk. }
  destruct (sq_signature_type q) as [| |root].
  - pose proof (tweak_keeps_keys (sg_signer s) (sq_message q) ids kids ns) as Hk.
    destruct (party_sign_with_tweak _ _ _ _ _) as [party []]; cbn in *; intros Hok; try (by apply Hset); by destruct Hok.
  - pose proof (schnorr_keeps_keys (sg_signer s) (sq_message q) ids kids ns) as Hk.
    destruct (party_sign_schnorr _ _ _ _ _) as [party []]; cbn in *; intros Hok; try (by apply Hset); by destruct Hok.
  - pose proof (taproot_keeps_keys (sg_signer s) (sq_message q) ids kids ns root) as Hk.
    destruct (party_sign_taproot _ _ _ _ _ _) as [party []]; cbn in *; intros Hok; try (by apply Hset); by destruct Hok.
Qed.

(** *** The end of key generation *)
Lemma report_parties_triple s0 ids : sg_inv s0 -> forall bad,
  sg_triple (fun s => s = s0) (report_parties ids bad) (fun _ s => s = s0) (fun _ _ => False).
Proof.
  intros Hi. induction ids as [|p ids IH]; intros bad; cbn [report_parties]; [by apply sg_triple_ret|].
  apply sg_triple_read. intros s ->. destruct (sg_decryption_keys s0 !! p) as [[i K]|] eqn:Hp; [|apply IH].
  destruct (inv_decryption s0 Hi p i K Hp) as [_ Hk].
  eapply sg_triple_bind with (Q' := fun _ s => s = s0); [|intros sh; apply IH].
  eapply sg_triple_weaken; [| | |apply (make_bad_triple s0 i Hi Hk)]; [done|by intros ? ? []|done].
Qed.
Lemma report_errors_triple s0 errs : sg_inv s0 -> forall bad,
  sg_triple (fun s => s = s0) (report_errors errs bad) (fun _ s => s = s0) (fun _ _ => False).
Proof.
  intros Hi. induction errs as [|[q [ids|]] errs IH]; intros bad; cbn [report_errors]; [by apply sg_triple_ret| |apply IH].
  eapply sg_triple_bind; [by apply report_parties_triple|]. intros bad'. apply IH.
Qed.

Lemma sg_status_triple : sg_triple sg_inv sg_status (fun _ s => sg_inv s) (fun _ _ => False).
Proof.
  apply sg_triple_read. intros s Hs. destruct (sg_can_dkg_end s); cbn [negb]; [|apply sg_triple_ret; by intros ? ->].
  destruct (sg_dkg_end_begin_msg s) as [m|]; [|apply sg_triple_ret; by intros ? ->].
  destruct (_ <? _); [apply sg_triple_ret; by intros ? ->|].
  eapply sg_triple_bind with (Q' := fun _ s => sg_inv s). { apply sg_triple_modify. intros s' ->. eapply sg_inv_same; [|exact Hs]. done. }
  intros []. do 3 (destruct (negb _); [by apply sg_triple_ret|]). unfold sg_compute. clear s Hs m. apply sg_triple_read. intros s Hs.
  case_bool_decide; [|apply sg_triple_ret; by intros ? ->].
  pose proof (secrets_keep_keys (sg_signer s) (sg_decrypted_shares s) (sg_commitments s)) as Hk.
  destruct (party_compute_secrets _ _ _) as [party errs].
  eapply sg_triple_bind with (Q' := fun _ s => sg_inv s).
  { apply sg_triple_modify. intros s' ->. eapply sg_inv_same; [|exact Hs]. unfold sg_view. cbn in *. by rewrite Hk. }
  intros []. destruct errs as [errs|]; [|by apply sg_triple_ret].
  eapply sg_triple_bind with (Q' := fun _ s => sg_inv s); [|intros bad; by apply sg_triple_ret].
  intros st Hst. pose proof (report_errors_triple st.1 (map_to_list errs) Hst ∅ st eq_refl) as Ht.
  destruct (report_errors _ _ st) as [st' []]; [by rewrite Ht|done..].
Qed.

(** No private shares of a signer arrive twice in a round. *)
Definition fresh_shares (m : Message) s : Prop :=
  match m with MsgDkgPrivateShares p => sg_dkg_private_shares s !! dvs_signer_id p = None | _ => True end.

Lemma sg_triple_drop {A} (X : Signer -> Prop) (n : st (Signer * Rng) SignerError A) Q R :
  sg_triple sg_inv n Q R -> sg_triple (fun s => sg_inv s /\ X s) n Q R.
Proof. intros Hn st [Hs _]. by apply Hn. Qed.

Lemma sg_handle_triple m : sg_triple (fun s => sg_inv s /\ (once -> fresh_shares m s) /\ sign_ok m s) (sg_handle m)
  (fun _ s => sg_inv s) (fun _ s => sg_inv s).
Proof.
  destruct m; cbn [sg_handle];
    try (apply sg_triple_ret; by intros s [? _]).
  - apply sg_triple_drop. eapply sg_triple_bind; [apply sg_reset_triple|]. intros [].
    eapply sg_triple_bind; [apply sg_move_inv|]. intros []. apply sg_public_begin_triple.
  - apply sg_triple_drop. apply sg_public_share_triple.
  - apply sg_triple_drop. apply sg_private_begin_triple.
  - eapply sg_triple_weaken; [| | |apply sg_private_share_triple]; [cbn; tauto|done|done].
  - apply sg_triple_drop. eapply sg_triple_bind; [by apply sg_triple_silent|]. intros []. by apply sg_triple_ret.
  - apply sg_triple_drop. apply sg_nonce_triple.
  - eapply sg_triple_weaken; [| | |apply sg_sign_triple]; [tauto|done|done].
Qed.

Lemma sg_process_triple m : sg_triple (fun s => sg_inv s /\ (once -> fresh_shares m s) /\ sign_ok m s) (sg_process m)
  (fun _ s => sg_inv s) (fun _ s => sg_inv s).
Proof.
  eapply sg_triple_bind; [apply sg_handle_triple|]. intros out. apply sg_triple_read. intros s Hs.
  destruct (sg_can_dkg_end s); [|apply sg_triple_ret; by intros ? ->].
  eapply sg_triple_bind with (Q' := fun _ s => sg_inv s).
  - apply sg_triple_read. intros s' ->. eapply sg_triple_bind with (Q' := fun _ s => sg_inv s); [|intros r; by apply sg_triple_ret].
    eapply sg_triple_weaken; [| | |apply sg_status_triple]; [by intros ? ->|done|done].
  - intros e. eapply sg_triple_bind; [apply sg_move_inv|]. intros []. by apply sg_triple_ret.
Qed.
End SignerInvariant.
