(* ===== verification/WstsSignerDkg.v ===== *)
(** What a signer reports at the end of key generation.

    Source: src/wsts/src/state_machine/signer/mod.rs ([dkg_ended]),
    src/wsts/src/state_machine/coordinator/fire.rs ([gather_dkg_end]).

    A signer reports success only when the shares of every signer of the round
    are there and pass the checks; the failures it reports hold for a
    coordinator that saw the same messages, so that an honest signer is not
    convicted by its own report — unless another signer sends its private
    shares twice. *)

From S2P Require Import Prelude Effects Types WstsNet DkgVerification WstsFrost FrostVerification WstsFire WstsSigner.

(** ** The scan over the shares *)
Section Scan.
Context {wc : WstsCrypto} {po : PartyOps}.
Implicit Types (s : Signer) (a : ShareScan).

Definition comms_good s i (m : NetDkgPublicShares) : Prop :=
  sg_dkg_public_shares s !! i = Some m /\ dps_comms m <> [] /\ Forall (fun e => check_public_shares e.2 (sg_threshold s) = true) (dps_comms m).
Definition shares_complete s i (m : NetDkgPrivateShares) : Prop :=
  sg_dkg_private_shares s !! i = Some m /\ dvs_shares m <> [] /\
  forall k e, k ∈ party_key_ids (sg_signer s) -> e ∈ dvs_shares m -> is_Some (e.2 !! k).
Definition local_bad s i : Prop := exists m e, sg_dkg_public_shares s !! i = Some m /\ e ∈ dps_comms m /\
  check_public_shares e.2 (sg_threshold s) = false.

Lemma scan_comms_spec t i comms : forall a, let a' := foldl (scan_comm t i) a comms in
  sc_missing_public a' = sc_missing_public a /\ sc_missing_private a' = sc_missing_private a /\
  (forall j, j ∈ sc_bad_public a' <-> j ∈ sc_bad_public a \/ j = i /\ exists e, e ∈ comms /\ check_public_shares e.2 t = false) /\
  (Forall (fun e => check_public_shares e.2 t = true) comms -> sc_commitments a' = insert_comms comms (sc_commitments a)).
Proof.
  induction comms as [|e comms IH]; intros a; cbn [foldl]; [split_and!; [done|done|set_solver|done]|].
  destruct (IH (scan_comm t i a e)) as (H1 & H2 & H3 & H4). cbv zeta in *. unfold scan_comm in *.
  destruct (check_public_shares e.2 t) eqn:He; cbn [negb] in *; cbn in *; split_and!; try done.
  - intros j. rewrite H3. setoid_rewrite elem_of_cons. split; [naive_solver|]. intros [?|(-> & e' & [->|Hin] & He')]; [auto|congruence|eauto].
  - intros [_ Hall]%Forall_cons. by rewrite H4.
  - intros j. rewrite H3, elem_of_union, elem_of_singleton. setoid_rewrite elem_of_cons. naive_solver.
  - intros [? _]%Forall_cons. congruence.
Qed.

Definition scan_step s a i : ShareScan := scan_private s i (scan_public s i a).

Lemma scan_step_spec s a i : let a' := scan_step s a i in
  (forall j, j ∈ sc_bad_public a' <-> j ∈ sc_bad_public a \/ j = i /\ local_bad s i) /\
  ((sc_missing_public a' ⊆ sc_missing_public a -> i ∉ sc_missing_public a -> sc_bad_public a' = ∅ ->
     exists m, comms_good s i m /\ sc_commitments a' = insert_comms (dps_comms m) (sc_commitments a))) /\
  (sc_missing_private a' ⊆ sc_missing_private a -> i ∉ sc_missing_private a -> exists m, shares_complete s i m) /\
  sc_missing_public a ⊆ sc_missing_public a' /\ sc_missing_private a ⊆ sc_missing_private a' /\ sc_bad_public a ⊆ sc_bad_public a'.
Proof.
  cbv zeta. unfold scan_step.
  assert (forall a, let a' := scan_private s i a in sc_bad_public a' = sc_bad_public a /\ sc_missing_public a' = sc_missing_public a /\
    sc_commitments a' = sc_commitments a /\ sc_missing_private a ⊆ sc_missing_private a' /\
    (sc_missing_private a' ⊆ sc_missing_private a -> i ∉ sc_missing_private a -> exists m, shares_complete s i m)) as Hpriv.
  { clear a. intros a. unfold scan_private, shares_complete. destruct (sg_dkg_private_shares s !! i) as [m|]; cbv zeta.
    2: { split_and!; try done; [set_solver|]. intros Hsub Hn. exfalso. set_solver. }
    destruct (dvs_shares m) as [|e l] eqn:Hl. { split_and!; try done; [set_solver|]. intros Hsub Hn. exfalso. set_solver. }
    destruct (lacks_key _ _) eqn:Hlk. { split_and!; try done; [set_solver|]. intros Hsub Hn. exfalso. set_solver. }
    split_and!; try done. intros _ _. exists m. rewrite Hl. split_and!; [done|done|]. intros k e' Hk He'. apply not_eq_None_Some. intros Hnone.
    apply not_true_iff_false in Hlk. apply Hlk. apply existsb_exists. exists k. split; [by apply list_elem_of_In|].
    apply existsb_exists. exists e'. split; [by apply list_elem_of_In|]. by apply bool_decide_eq_true_2. }
  destruct (Hpriv (scan_public s i a)) as (-> & -> & -> & Hpm & Hpc). clear Hpriv.
  unfold scan_public, comms_good, local_bad in *. destruct (sg_dkg_public_shares s !! i) as [m|]; cbv zeta in *.
  2: { split_and!; try done; [cbn; naive_solver|intros Hsub Hn; cbn in *; exfalso; set_solver|set_solver]. }
  destruct (dps_comms m) as [|e l] eqn:Hl.
  { split_and!; try done; [cbn|intros Hsub Hn; cbn in *; exfalso; set_solver|set_solver].
    intros j. split; [auto|]. intros [?|(-> & m' & e & [= <-] & He & _)]; [done|]. rewrite Hl in He. set_solver. }
  rewrite <- Hl in *. destruct (scan_comms_spec (sg_threshold s) i (dps_comms m) a) as (H1 & H2 & H3 & H4). split_and!.
  - intros j. rewrite H3. split; [intros [?|(-> & e' & He')]; [auto|right; split; [done|]; by exists m, e']|].
    intros [?|(-> & m' & e' & [= <-] & He')]; [auto|right; split; [done|]; by exists e'].
  - intros _ _ Hbad. assert (Forall (fun e => check_public_shares e.2 (sg_threshold s) = true) (dps_comms m)) as Hall.
    { apply Forall_forall. intros e' He'. destruct (check_public_shares e'.2 (sg_threshold s)) eqn:Hc; [done|].
      assert (i ∈ sc_bad_public (foldl (scan_comm (sg_threshold s) i) a (dps_comms m))) as Hin; [|rewrite Hbad in Hin; set_solver].
      apply H3. right. split; [done|]. by exists e'. }
    exists m. split_and!; try done; [by rewrite Hl|by apply H4].
  - by rewrite H2 in Hpc.
  - by rewrite H1.
  - by rewrite H2 in Hpm.
  - intros j Hj. apply H3. auto.
Qed.

Lemma scan_shares_spec s ids : forall a, let a' := foldl (scan_step s) a ids in
  (forall j, j ∈ sc_bad_public a' <-> j ∈ sc_bad_public a \/ j ∈ ids /\ local_bad s j) /\
  (sc_missing_public a' = ∅ -> sc_bad_public a' = ∅ -> forall i, i ∈ ids -> exists m, comms_good s i m) /\
  (sc_missing_private a' = ∅ -> forall i, i ∈ ids -> exists m, shares_complete s i m) /\
  sc_missing_public a ⊆ sc_missing_public a' /\ sc_missing_private a ⊆ sc_missing_private a' /\ sc_bad_public a ⊆ sc_bad_public a'.
Proof.
  cbv zeta. induction ids as [|i ids IH]; intros a; cbn [foldl]; [split_and!; try done; set_solver|].
  destruct (scan_step_spec s a i) as (S1 & S2 & S3 & S4 & S5 & S6). destruct (IH (scan_step s a i)) as (I1 & I2 & I3 & I4 & I5 & I6).
  set (a1 := scan_step s a i) in *. set (a' := foldl (scan_step s) a1 ids) in *. split_and!; try (by etrans).
  - intros j. rewrite I1, S1, elem_of_cons. naive_solver.
  - intros Hm Hb j [->|Hj]%elem_of_cons; [|by apply I2]. destruct S2 as (m & Hg & _); [set_solver|set_solver|set_solver|by exists m].
  - intros Hm j [->|Hj]%elem_of_cons; [|by apply I3]. destruct S3 as (m & Hg); [set_solver|set_solver|by exists m].
Qed.

(** Commitments are stored under the signer that sent them. *)
Lemma insert_comms_other comms i p : forall base : gmap Z PolyCommitment,
  Forall (fun e => e.1 = i) comms -> p <> i -> insert_comms comms base !! p = base !! p.
Proof.
  induction comms as [|e comms IH]; intros base Hall Hp; [done|]. apply Forall_cons in Hall as [He Hall]. unfold insert_comms in *. cbn [foldl].
  rewrite IH by done. rewrite lookup_insert_ne; [done|congruence].
Qed.
Lemma insert_comms_own comms i : forall base base' : gmap Z PolyCommitment,
  Forall (fun e => e.1 = i) comms -> comms <> [] -> insert_comms comms base !! i = insert_comms comms base' !! i.
Proof.
  induction comms as [|e comms IH]; intros base base' Hall Hne; [done|]. apply Forall_cons in Hall as [He Hall]. unfold insert_comms in *. cbn [foldl].
  destruct comms as [|e' comms]; [|by apply IH]. cbn. rewrite He, !lookup_insert_eq. done.
Qed.

Lemma scan_commitments s ids : (forall i m, sg_dkg_public_shares s !! i = Some m -> Forall (fun e => e.1 = i) (dps_comms m)) ->
  forall a, let a' := foldl (scan_step s) a ids in sc_missing_public a' = ∅ -> sc_bad_public a' = ∅ ->
  forall p poly, sc_commitments a' !! p = Some poly -> sc_commitments a !! p = Some poly \/
    exists m, comms_good s p m /\ insert_comms (dps_comms m) ∅ !! p = Some poly.
Proof.
  intros Hpub. cbv zeta. induction ids as [|i ids IH]; intros a Hm Hb p poly; cbn [foldl] in *; [auto|]. intros Hp.
  destruct (scan_shares_spec s ids (scan_step s a i)) as (_ & _ & _ & I4 & _ & I6).
  destruct (scan_step_spec s a i) as (_ & S2 & _ & S4 & _ & _).
  destruct (IH (scan_step s a i) Hm Hb p poly Hp) as [Hp'|?]; [clear Hp; rename Hp' into Hp|by right]. destruct S2 as (m & Hg & Hc); [set_solver|set_solver|set_solver|].
  rewrite Hc in Hp. destruct Hg as (Hl & Hne & Hall). destruct (decide (p = i)) as [->|Hpi].
  - right. exists m. split; [done|]. rewrite <- Hp. apply insert_comms_own; [by apply Hpub|done].
  - left. by rewrite (insert_comms_other _ i) in Hp by (try done; by apply Hpub).
Qed.
End Scan.

(** ** Success *)
Section Success.
Context {wc : WstsCrypto} {po : PartyOps}.
Implicit Types (s : Signer).

Lemma scan_shares_fold s ids : scan_shares s ids = foldl (scan_step s) (mkScan (sg_commitments s) ∅ ∅ ∅) ids.
Proof. done. Qed.

(** Success is claimed on checked shares only. When [dkg_ended] reports
    success, the round had both of the coordinator's announcements, its signers
    hold at least [dkg_threshold] keys, each of them sent public shares that
    all pass the check and private shares for every key of this signer, no
    private share failed to decrypt, and the party computed its secrets from
    them. *)
Theorem signer_success_sound s r s' r' : sg_status (s, r) = ((s', r'), Ok StatusSuccess) ->
  exists m, sg_can_dkg_end s = true /\ sg_dkg_end_begin_msg s = Some m /\
    sg_dkg_threshold s <= num_dkg_keys s (elements (end_signer_ids s m)) /\
    (forall i, i ∈ end_signer_ids s m -> exists pub priv, comms_good s i pub /\ shares_complete s i priv) /\
    sg_invalid_private_shares s = ∅ /\
    party_compute_secrets (sg_signer s) (sg_decrypted_shares s) (sg_commitments s') = (sg_signer s', None).
Proof.
  unfold sg_status. unfold st_bind at 1. cbn [sg_get fst]. destruct (sg_can_dkg_end s); cbn [negb]; [|done].
  destruct (sg_dkg_end_begin_msg s) as [m|]; [|done]. cbv zeta. destruct (Z.ltb_spec (num_dkg_keys s (elements (end_signer_ids s m))) (sg_dkg_threshold s)); [done|].
  rewrite scan_shares_fold. set (a := foldl _ _ _). unfold st_bind at 1, sg_modify. cbn [fst snd].
  destruct (scan_shares_spec s (elements (end_signer_ids s m)) (mkScan (sg_commitments s) ∅ ∅ ∅)) as (_ & I2 & I3 & _). fold a in I2, I3.
  case_bool_decide as H1; cbn [negb]; [|done]. case_bool_decide as H2; cbn [negb]; [|done]. case_bool_decide as H3; cbn [negb]; [|done].
  unfold sg_compute, st_bind at 1. cbn [sg_get fst]. case_bool_decide as H4; [|done].
  destruct (party_compute_secrets _ _ _) as [party [errs|]] eqn:Hc; unfold st_bind, sg_modify; cbn [fst snd].
  { destruct (report_errors _ _ _) as [? []]; done. }
  unfold st_ret. intros [= <- <-]. exists m. split_and!; try done. intros i Hi%elem_of_elements.
  destruct (I2 H1 H2 i Hi) as [pub Hpub]. destruct (I3 H3 i Hi) as [priv Hpriv]. by exists pub, priv.
Qed.
End Success.

(** ** Failures *)
Section Reports.
Context {wc : WstsCrypto} {po : PartyOps} {pl : PartyLaws}.
Implicit Types (s : Signer) (c : FireCoordinator).

(** The coordinator has the same shares, and the keys this signer uses. *)
Record agrees s c : Prop := {
  ag_threshold : cfg_threshold (fire_config c) = sg_threshold s;
  ag_public : forall i m, sg_dkg_public_shares s !! i = Some m -> fire_dkg_public_shares c !! i = Some m;
  ag_private : forall i m, sg_dkg_private_shares s !! i = Some m -> fire_dkg_private_shares c !! i = Some m;
  ag_keys : forall i B, key_point (pks_signers (sg_public_keys s)) i = Ok B -> cfg_signer_public_keys (fire_config c) !! i = Some B;
  ag_self : cfg_signer_public_keys (fire_config c) !! sg_signer_id s = Some (scalar_base (sg_network_private_key s));
  ag_key_ids : cfg_signer_key_ids (fire_config c) !! sg_signer_id s = Some (list_to_set (party_key_ids (sg_signer s))) }.

(** Every accusation of the report [f] of [j] holds. *)
Definition report_holds c j (f : DkgFailure) : Prop :=
  match f with
  | FailBadState => False
  | FailBadPublicShares bad => forall b, b ∈ bad -> public_bad c b
  | FailBadPrivateShares bad => forall b sh, bad !! b = Some sh -> private_bad c j b sh
  | _ => True
  end.

(** A share that does not open is one the coordinator finds bad, whatever the
    commitment. *)
Lemma unopened_bad s c b sh B m src ks k bytes public poly : agrees s c ->
  key_point (pks_signers (sg_public_keys s)) b = Ok B -> bps_shared_key sh = scalar_mul (sg_network_private_key s) B ->
  tuple_proof_verify (bps_tuple_proof sh) (scalar_base (sg_network_private_key s)) B (bps_shared_key sh) = true ->
  sg_dkg_private_shares s !! b = Some m -> (src, ks) ∈ dvs_shares m -> k ∈ party_key_ids (sg_signer s) -> ks !! k = Some bytes ->
  sg_dkg_public_shares s !! b = Some public -> insert_comms (dps_comms public) ∅ !! src = Some poly ->
  ~ share_opens (bps_shared_key sh) poly k bytes -> private_bad c (sg_signer_id s) b sh.
Proof.
  intros [] HB Hsk Hv Hm Hin Hk Hks Hpub Hpoly Hno. exists (scalar_base (sg_network_private_key s)), B, public, m,
    (list_to_set (party_key_ids (sg_signer s))), src, ks, poly, k, bytes. split_and!; auto. by apply elem_of_list_to_set.
Qed.

(** The accusation carries the key shared with [b] and a proof of it. *)
Definition proven s b (sh : BadPrivateShare) : Prop :=
  exists B, key_point (pks_signers (sg_public_keys s)) b = Ok B /\ bps_shared_key sh = scalar_mul (sg_network_private_key s) B /\
    tuple_proof_verify (bps_tuple_proof sh) (scalar_base (sg_network_private_key s)) B (bps_shared_key sh) = true.

Lemma report_parties_spec once s0 ids : sg_inv once s0 -> forall bad,
  sg_triple (fun s => s = s0) (report_parties ids bad)
    (fun bad' s => s = s0 /\ forall b sh, bad' !! b = Some sh -> bad !! b = Some sh \/ b ∈ ids /\ proven s0 b sh) (fun _ _ => False).
Proof.
  intros Hi. induction ids as [|p ids IH]; intros bad; cbn [report_parties]; [apply sg_triple_ret; by auto|].
  apply sg_triple_read. intros s ->. destruct (sg_decryption_keys s0 !! p) as [[i K]|] eqn:Hp.
  - destruct (inv_decryption once s0 Hi p i K Hp) as [<- Hk].
    eapply sg_triple_bind; [apply (make_bad_triple once s0 p Hi Hk)|]. intros sh.
    intros st [Hst Hsh]. pose proof (IH (<[p := sh]> bad) st Hst) as Ht. destruct (report_parties _ _ st) as [st' []]; [|done..].
    destruct Ht as [-> Ht]. split; [done|]. intros b sh' Hb. destruct (Ht b sh' Hb) as [Hl|[Hin Hpr]].
    + destruct (decide (b = p)) as [->|Hne]; [|rewrite lookup_insert_ne in Hl by done; auto].
      rewrite lookup_insert_eq in Hl. simplify_eq. right. split; [left|exact Hsh].
    + right. split; [by right|done].
  - eapply sg_triple_weaken; [| | |apply IH]; [done| |done]. intros bad' s [-> Hb]. split; [done|]. intros b sh Hl.
    destruct (Hb b sh Hl) as [?|[? ?]]; [auto|]. right. split; [by right|done].
Qed.

Lemma report_errors_spec once s0 errs : sg_inv once s0 -> forall bad,
  sg_triple (fun s => s = s0) (report_errors errs bad)
    (fun bad' s => s = s0 /\ forall b sh, bad' !! b = Some sh -> bad !! b = Some sh \/
       (exists q ids, (q, PdBadPrivateShares ids) ∈ errs /\ b ∈ ids) /\ proven s0 b sh) (fun _ _ => False).
Proof.
  intros Hi. induction errs as [|[q [ids|]] errs IH]; intros bad; cbn [report_errors]; [apply sg_triple_ret; by auto| |].
  - eapply sg_triple_bind; [apply (report_parties_spec once s0 ids Hi)|]. intros bad1 st [Hst Hb1].
    pose proof (IH bad1 st Hst) as Ht. destruct (report_errors _ _ st) as [st' []]; [|done..]. destruct Ht as [-> Ht]. split; [done|].
    intros b sh Hb. destruct (Ht b sh Hb) as [Hl|[(q' & ids' & Hin & Hids) Hpr]].
    + destruct (Hb1 b sh Hl) as [?|[? ?]]; [auto|]. right. split; [|done]. exists q, ids. split; [left|done].
    + right. split; [|done]. exists q', ids'. split; [by right|done].
  - eapply sg_triple_weaken; [| | |apply IH]; [done| |done]. intros bad' s [-> Hb]. split; [done|]. intros b sh Hl.
    destruct (Hb b sh Hl) as [?|[(q' & ids' & Hin & Hids) Hpr]]; [auto|]. right. split; [|done]. exists q', ids'. split; [by right|done].
Qed.

(** Signers of the round with good commitments, and what they committed to. *)
Lemma committed_poly s i m : (forall i m, sg_dkg_public_shares s !! i = Some m -> Forall (fun e => e.1 = i) (dps_comms m)) ->
  comms_good s i m -> exists poly, insert_comms (dps_comms m) ∅ !! i = Some poly.
Proof.
  intros Hpub (Hl & Hne & _). specialize (Hpub i m Hl). destruct (dps_comms m) as [|e comms] eqn:Hc; [done|]. clear Hc Hl Hne.
  apply Forall_cons in Hpub as [He Hall]. unfold insert_comms. cbn [foldl]. rewrite He.
  assert (exists poly, (<[i := e.2]> (∅ : gmap Z PolyCommitment)) !! i = Some poly) as Hb by (rewrite lookup_insert_eq; eauto).
  revert Hb. generalize (<[i := e.2]> (∅ : gmap Z PolyCommitment)). induction comms as [|e' comms IH]; intros base Hb; [done|].
  apply Forall_cons in Hall as [He' Hall]. cbn [foldl]. apply IH; [done|]. rewrite He', lookup_insert_eq. eauto.
Qed.

(** The commitments in use are those of signers whose public shares are good. *)
Definition from_good s : Prop := forall p poly, sg_commitments s !! p = Some poly ->
  exists pub, comms_good s p pub /\ insert_comms (dps_comms pub) ∅ !! p = Some poly.

Lemma proven_bad s c b k bytes poly pub sh : sg_inv True s -> agrees s c -> sent_share s b k bytes -> proven s b sh -> comms_good s b pub ->
  insert_comms (dps_comms pub) ∅ !! b = Some poly -> ~ share_opens (bps_shared_key sh) poly k bytes -> private_bad c (sg_signer_id s) b sh.
Proof.
  intros Hi Hag (mb & src & ks & Hmb & Hin & Hk & Hks) (B & HB & Hsk & Hv) Hg Hpoly Hno.
  pose proof (inv_private True s Hi b mb Hmb) as Hsrc. rewrite Forall_forall in Hsrc. specialize (Hsrc _ Hin). cbn in Hsrc. subst src.
  eapply (unopened_bad s c b sh B mb b ks k bytes pub poly); try done. apply Hg.
Qed.

(** An accusation by way of the party's check of the shares. *)
Lemma blamed_bad s c errs q ids b sh : sg_inv True s -> agrees s c -> from_good s ->
  (party_compute_secrets (sg_signer s) (sg_decrypted_shares s) (sg_commitments s)).2 = Some errs ->
  errs !! q = Some (PdBadPrivateShares ids) -> b ∈ ids -> proven s b sh -> private_bad c (sg_signer_id s) b sh.
Proof.
  intros Hi Hag Hfg Hc Hq Hin Hpr. destruct (secrets_blame _ _ _ errs q ids b Hc Hq Hin) as (k & d & x & poly & Hk & Hd & Hx & Hpo & Hne).
  destruct (inv_decrypted True s Hi I b d k x Hd Hx) as (K & bytes & (B' & HB' & HK) & Hsent & Hop).
  destruct (Hfg b poly Hpo) as (pub & Hg & Hpp). eapply (proven_bad s c b k bytes poly pub); try done.
  intros (plain & e & Hd1 & Hd2 & Hd3). destruct Hpr as (B & HB & Hsk & _). rewrite HB' in HB. simplify_eq. rewrite Hsk in Hd1.
  unfold opens in Hop. rewrite Hd1 in Hop. cbn in Hop. rewrite Hd2 in Hop. by simplify_eq.
Qed.

(** An accusation by way of a share that did not open on arrival. *)
Lemma invalid_bad s c b sh : sg_inv True s -> agrees s c -> (forall i, is_Some (sg_dkg_private_shares s !! i) -> exists pub, comms_good s i pub) ->
  sg_invalid_private_shares s !! b = Some sh -> private_bad c (sg_signer_id s) b sh.
Proof.
  intros Hi Hag Hall Hb. destruct (inv_invalid True s Hi I b sh Hb) as (B & k & bytes & HB & Hsk & Hv & Hsent & Hop).
  destruct (Hall b) as [pub Hg]. { destruct Hsent as (mb & ? & ? & Hmb & _). by eexists. }
  destruct (committed_poly s b pub (inv_public True s Hi) Hg) as [poly Hpoly].
  eapply (proven_bad s c b k bytes poly pub); try done; [by exists B|].
  intros (plain & e & Hd1 & Hd2 & _). unfold opens in Hop. rewrite Hd1 in Hop. cbn in Hop. by rewrite Hd2 in Hop.
Qed.

Lemma compute_reports_hold s r c st' f : sg_inv True s -> agrees s c -> from_good s ->
  (forall i, is_Some (sg_dkg_private_shares s !! i) -> exists pub, comms_good s i pub) ->
  sg_compute (s, r) = (st', Ok (StatusFailure f)) -> report_holds c (sg_signer_id s) f.
Proof.
  intros Hi Hag Hfg Hall. unfold sg_compute, st_bind at 1. cbn [sg_get fst]. case_bool_decide as E.
  - pose proof (blamed_bad s c) as Hblame. pose proof (secrets_keep_keys (sg_signer s) (sg_decrypted_shares s) (sg_commitments s)) as Hk.
    destruct (party_compute_secrets _ _ _) as [party [errs|]]; unfold st_bind, sg_modify; cbn [fst snd] in *; [|done].
    set (s1 := sg_set_signer party s). assert (sg_inv True s1) as Hi1.
    { eapply sg_inv_same; [|exact Hi]. unfold sg_view. cbn. by rewrite Hk. }
    pose proof (report_errors_spec True s1 (map_to_list errs) Hi1 ∅ (s1, r) eq_refl) as Ht.
    destruct (report_errors _ _ (s1, r)) as [st []]; [|done..]. unfold st_ret. intros [= _ <-] b sh Hb. destruct Ht as [_ Ht].
    destruct (Ht b sh Hb) as [He|[(q & ids & Hq%elem_of_map_to_list & Hin) Hpr]]; [by rewrite lookup_empty in He|].
    by apply (Hblame errs q ids b sh).
  - unfold st_ret. intros [= _ <-] b sh Hb. by apply invalid_bad.
Qed.

Lemma agrees_same s s' c : sg_view s' = sg_view s -> sg_threshold s' = sg_threshold s -> sg_signer_id s' = sg_signer_id s -> agrees s c -> agrees s' c.
Proof. intros [= E1 E2 E3 E4 E5 _ _ _] E6 E7 []. by split; rewrite ?E1, ?E2, ?E3, ?E4, ?E5, ?E6, ?E7. Qed.

Lemma status_reports_hold s r c m st' f : sg_inv True s -> sg_can_dkg_end s = true -> sg_commitments s = ∅ -> agrees s c ->
  sg_dkg_end_begin_msg s = Some m -> (forall i, is_Some (sg_dkg_private_shares s !! i) -> i ∈ end_signer_ids s m) ->
  sg_status (s, r) = (st', Ok (StatusFailure f)) -> report_holds c (sg_signer_id s) f.
Proof.
  intros Hi Hend Hcm Hag Hm Hall. unfold sg_status. unfold st_bind at 1. cbn [sg_get fst]. rewrite Hend, Hm. cbn [negb]. cbv zeta.
  destruct (_ <? _); [unfold st_ret; by intros [= _ <-]|].
  rewrite scan_shares_fold. set (a := foldl _ _ _). unfold st_bind at 1, sg_modify. cbn [fst snd].
  destruct (scan_shares_spec s (elements (end_signer_ids s m)) (mkScan (sg_commitments s) ∅ ∅ ∅)) as (I1 & I2 & _). fold a in I1, I2.
  case_bool_decide as E1; cbn [negb]; [|unfold st_ret; by intros [= _ <-]].
  case_bool_decide as E2; cbn [negb].
  2: { unfold st_ret. intros [= _ <-] b Hb. apply I1 in Hb as [Hb|[_ (pub & e & Hp & He & Hc)]]; [set_solver|].
       exists pub, e. split_and!; [by apply (ag_public s c)|done|by rewrite (ag_threshold s c)]. }
  case_bool_decide as E3; cbn [negb]; [|unfold st_ret; by intros [= _ <-]].
  apply (compute_reports_hold (sg_set_commitments (sc_commitments a) s)).
  - eapply sg_inv_same; [|exact Hi]. done.
  - eapply agrees_same; [| | |exact Hag]; done.
  - intros p poly Hp. destruct (scan_commitments s _ (inv_public True s Hi) (mkScan (sg_commitments s) ∅ ∅ ∅) E1 E2 p poly Hp) as [Hx|?]; [|done].
    cbn in Hx. by rewrite Hcm, lookup_empty in Hx.
  - intros i Hp. apply (I2 E1 E2). by apply elem_of_elements, Hall.
Qed.

(** A report that holds convicts only signers whose shares are bad. *)
Lemma report_convicts c j f i : report_holds c j f -> convicts c j f i -> public_bad c i \/ exists sh, private_bad c j i sh.
Proof.
  destruct f as [| |bad|bad|bad|bad]; cbn; try done.
  - intros Hr (b & Hb & [[-> ?]|[_ Hn]]); [by left|]. by destruct Hn; apply Hr.
  - intros Hr (b & sh & Hb & [[-> ?]|[_ Hn]]); [right; by exists sh|]. by destruct Hn; apply Hr.
Qed.

(** The commitments are empty while a round of key generation is under way. *)
Definition uncommitted s : Prop := sg_state s <> SmIdle -> sg_commitments s = ∅.
Abbreviation Unc := (fun st : Signer * Rng => uncommitted st.1).

Lemma framed_sg_get {A} (I : Signer * Rng -> Prop) (k : Signer -> st (Signer * Rng) SignerError A) : (forall s, framed I (k s)) -> framed I (st_bind sg_get k).
Proof. intros Hk st Hst. by apply Hk. Qed.
Lemma framed_sg_random {A} (f : Rng -> A * Rng) : framed Unc (sg_random f).
Proof. intros st Hst. unfold sg_random. by destruct (f st.2). Qed.
Lemma framed_sg_modify f : (forall s, sg_commitments (f s) = sg_commitments s /\ sg_state (f s) = sg_state s) -> framed Unc (sg_modify f).
Proof. intros Hf st Hst. destruct (Hf st.1) as [E1 E2]. unfold uncommitted in *. cbn. by rewrite E1, E2. Qed.
(** Only a new round leaves [Idle]. *)
Lemma framed_sg_move next : next <> SmDkgPublicDistribute -> next <> SmSignGather -> framed Unc (sg_move_to next).
Proof.
  intros Hn Hn' st Hst. unfold sg_move_to, st_bind, sg_get. destruct (sg_can_move_to (sg_state st.1) next) eqn:Hc; [|done].
  cbn. unfold uncommitted in *. cbn. intros Hnext. apply Hst. intros Hidle. rewrite Hidle in Hc. by destruct next.
Qed.
#[local] Hint Resolve framed_sg_random : frames.
Ltac sg_frame_step :=
  match goal with
  | |- framed _ (st_bind sg_get _) => apply framed_sg_get
  | |- framed _ (sg_modify _) => apply framed_sg_modify; by intros ?
  | |- framed _ (sg_move_to _) => by apply framed_sg_move
  | |- framed _ (let (_, _) := ?x in _) => destruct x
  | |- _ => frame_step
  end.
Ltac sg_frame := repeat sg_frame_step.

Lemma framed_make_bad i : framed Unc (make_bad_private_share i).
Proof. unfold make_bad_private_share. sg_frame. Qed.
Lemma framed_receive i K ks l : framed Unc (receive_shares i K ks l).
Proof.
  assert (forall l out, framed Unc (decrypt_shares i K ks l out)) as Hd.
  { intros l'. induction l' as [|[dst bytes] l' IH]; intros out; cbn [decrypt_shares]; sg_frame; auto using framed_make_bad. }
  induction l as [|[src s] l IH]; cbn [receive_shares]; sg_frame; auto.
Qed.
Lemma framed_encrypt s act l : forall out, framed Unc (encrypt_shares s act l out).
Proof. induction l as [|[dst x] l IH]; intros out; cbn [encrypt_shares]; sg_frame; auto. Qed.

Lemma framed_sg_handle m : framed Unc (sg_handle m).
Proof.
  destruct m; cbn [sg_handle]; try (by apply framed_ret).
  - intros st Hst. unfold sg_dkg_begin, sg_reset, st_bind, sg_get, sg_modify, sg_random, sg_move_to. cbn.
    destruct (party_reset_polys _ _) as [p r']. cbn.
    assert (framed Unc sg_dkg_public_begin) as Hf by (unfold sg_dkg_public_begin; sg_frame). apply Hf. done.
  - unfold sg_dkg_public_share. sg_frame.
  - unfold sg_dkg_private_begin. sg_frame. apply framed_encrypt.
  - unfold sg_dkg_private_share. sg_frame. apply framed_receive.
  - unfold sg_dkg_end_begin. sg_frame.
  - unfold sg_nonce_request. apply framed_sg_get. intros s. apply framed_bind; [|intros; apply framed_ret].
    intros [s' r] Hst. cbn. by destruct (party_gen_nonce _ _) as [[n p] r'].
  - unfold sg_sign_share_request. sg_frame. intros [s' r] Hst. unfold sg_sign. cbn.
    destruct (sq_signature_type m) as [| |root]; [destruct (party_sign_with_tweak _ _ _ _ _)|destruct (party_sign_schnorr _ _ _ _ _)|destruct (party_sign_taproot _ _ _ _ _ _)]; done.
Qed.

Lemma uncommitted_process once m st : sg_inv once st.1 -> (once -> fresh_shares m st.1) -> sign_ok m st.1 -> Unc st -> Unc (sg_process m st).1.
Proof.
  intros Hi Hf Hok Hst. unfold sg_process. pose proof (framed_sg_handle m st Hst) as Hh.
  pose proof (sg_handle_triple once m st (conj Hi (conj Hf Hok))) as Ht. unfold st_bind at 1.
  destruct (sg_handle m st) as [st1 [out| | |]]; try done. unfold st_bind at 1. cbn [sg_get].
  destruct (sg_can_dkg_end st1.1); [|done]. unfold st_bind at 1.
  assert (match sg_dkg_ended st1 with (_, Ok _) => True | _ => False end) as He.
  { pose proof (sg_status_triple once st1 Ht) as Hs. unfold sg_dkg_ended, st_bind, sg_get, st_ret. by destruct (sg_status st1) as [? []]. }
  destruct (sg_dkg_ended st1) as [st2 [e| | |]]; try done. unfold sg_move_to, st_bind, sg_get, sg_modify. cbn. by intros [].
Qed.

(** The signers that occur: created, then processing messages. *)
Inductive sg_reachable (once : Prop) : Signer -> Prop :=
| sg_reach_new s : sg_inv once s -> sg_state s = SmIdle -> sg_reachable once s
| sg_reach_message s r m : sg_reachable once s -> (once -> fresh_shares m s) -> sign_ok m s -> sg_reachable once (sg_process m (s, r)).1.1.

Lemma sg_reachable_inv once s : sg_reachable once s -> sg_inv once s /\ uncommitted s.
Proof.
  induction 1 as [s Hi Hs|s r m Hre [Hi Hu] Hf Hok]; [split; [done|]; by intros []|].
  split; [|exact (uncommitted_process once m (s, r) Hi Hf Hok Hu)].
  pose proof (sg_process_triple once m (s, r) (conj Hi (conj Hf Hok))) as Ht. by destruct (sg_process m (s, r)) as [st []].
Qed.

(** A signer whose configuration is consistent answers every message, in every
    state it can reach; the party's own signing is the only call left open. *)
Lemma signer_safe s r m : sg_reachable False s -> sign_ok m s -> ~ crashed (sg_process m (s, r)).2.
Proof.
  intros [Hi _]%sg_reachable_inv Hok. pose proof (sg_process_triple False m (s, r) (conj Hi (conj (False_ind _) Hok))) as Ht.
  destruct (sg_process m (s, r)) as [st []]; cbn; tauto.
Qed.

(** C20: what a signer reports, the coordinator upholds. If no signer sends its
    private shares twice, the shares of every sender are part of the round and
    the coordinator has the shares this signer has, then every accusation in
    the status that [dkg_ended] returns holds for the coordinator: accused
    public shares fail the check, and accused private shares do not open under
    a shared key that the attached proof establishes, or open to a share that
    does not match the commitment. So the report convicts the accused, never
    its author. The machine is that of any party with [PartyLaws], of which
    this uses that the proofs of shared keys verify and that the private shares
    that [compute_secrets] blames do not match the commitments; both are proved
    of the party of the crate ([WstsSign.tuple_proof_complete],
    [WstsDkg.compute_secrets_blame]). *)
Theorem signer_reports_hold s r msg s1 r1 out c m st' f : sg_reachable True s -> fresh_shares msg s -> sign_ok msg s ->
  sg_handle msg (s, r) = ((s1, r1), Ok out) -> sg_can_dkg_end s1 = true -> sg_dkg_end_begin_msg s1 = Some m ->
  (forall i, is_Some (sg_dkg_private_shares s1 !! i) -> i ∈ end_signer_ids s1 m) -> agrees s1 c ->
  sg_status (s1, r1) = (st', Ok (StatusFailure f)) -> report_holds c (sg_signer_id s1) f.
Proof.
  intros [Hi Hu]%sg_reachable_inv Hf Hok Hh Hend Hm Hall Hag. pose proof (framed_sg_handle msg (s, r) Hu) as Hu1.
  pose proof (sg_handle_triple True msg (s, r) (conj Hi (conj (fun _ => Hf) Hok))) as Hi1. rewrite Hh in Hu1, Hi1. cbn in Hu1, Hi1.
  apply (status_reports_hold s1 r1 c m); try done. apply Hu1. unfold sg_can_dkg_end in Hend. apply andb_true_iff in Hend as [->%bool_decide_eq_true _]. done.
Qed.
End Reports.

(** ** Concrete rounds *)
#[local] Existing Instance demo_crypto.

(** A party is its key identifiers; a share is good when it equals the
    commitment. *)
Definition demo_bad_senders (keys : list Z) (shares : gmap Z (gmap Z Z)) (comms : gmap Z Z) : list Z :=
  map fst (filter (fun e => existsb (fun k => match e.2 !! k, comms !! e.1 with Some x, Some poly => negb (poly =? x) | _, _ => false end) keys = true)
    (map_to_list shares)).
Definition demo_party : PartyOps := {|
  Rng := Z; Party := list Z; EcdsaKey := Z; EncryptionError := unit;
  party_new _ ks _ _ _ r := (ks, r); party_reset_polys p r := (p, r);
  party_get_poly_commitment p r := (Some 5, r); commitment_id _ := 0;
  party_get_shares p := {[1 := 5; 2 := 5]}; party_party_id _ := 0; party_key_ids p := p; party_num_parties _ := 2;
  party_gen_nonce p r := (100, p, r);
  party_compute_secrets p shares comms := (p, match demo_bad_senders p shares comms with [] => None | ids => Some {[0 := PdBadPrivateShares ids]} end);
  party_sign_with_tweak p _ _ _ _ := (p, Ok (200, p)); party_sign_schnorr p _ _ _ _ := (p, Ok (200, p));
  party_sign_taproot p _ _ _ _ _ := (p, Ok (200, p));
  point_of_key k := Some k; scalar_mul a B := a * B; scalar_to_bytes x := [x];
  encrypt _ bytes r := (Ok bytes, r); tuple_proof_new _ _ _ _ r := (tt, r) |}.
#[local] Existing Instance demo_party.

Lemma demo_party_laws : PartyLaws.
Proof.
  split; try done; try (intros; by intros []). intros p shares comms errs q ids i. cbn.
  destruct (demo_bad_senders p shares comms) as [|j js] eqn:Hd; [done|]. intros [= <-].
  intros [_ [= <-]]%lookup_singleton_Some Hi. rewrite <- Hd in Hi. unfold demo_bad_senders in Hi.
  apply list_elem_of_In, in_map_iff in Hi as ([i' d] & <- & Hin). apply list_elem_of_In, list_elem_of_filter in Hin as [Hex Hin].
  apply elem_of_map_to_list in Hin. apply existsb_exists in Hex as (k & Hk & Hb). cbn in *.
  destruct (d !! k) as [x|] eqn:Hx; [|done]. destruct (comms !! i') as [poly|] eqn:Hp; [|done].
  exists k, d, x, poly. split_and!; try done; [by apply list_elem_of_In|]. intros [= ->]. by rewrite Z.eqb_refl in Hb.
Qed.
#[local] Existing Instance demo_party_laws.

Definition demo_keys : PublicKeys := mkPublicKeys {[0 := 10; 1 := 20]} {[1 := 10; 2 := 20]} {[0 := {[1]}; 1 := {[2]}]}.
Definition demo_new : outcome SignerError (Signer * Z) := signer_new 1 2 2 2 0 [1] 10 demo_keys 0.
Definition demo_signer : Signer := mkSigner 0 1 1 1 2 2 2 [1] 0 SmIdle ∅ ∅ ∅ ∅ [] 10 demo_keys ∅ ∅ None None.
Lemma demo_new_ok : demo_new = Ok (demo_signer, 0).
Proof.
  unfold demo_new, signer_new. cbn. assert (public_keys_validate demo_keys 2 2 = Ok tt) as -> by (by vm_compute). done.
Qed.

Lemma demo_signer_inv once : sg_inv once demo_signer.
Proof.
  split.
  - intros i key _. by eexists.
  - intros i ks k Hi Hk. cbn in Hi. apply lookup_insert_Some in Hi as [[_ <-]|[_ Hi]].
    + apply elem_of_singleton in Hk as ->. by exists 10.
    + apply lookup_singleton_Some in Hi as [_ <-]. apply elem_of_singleton in Hk as ->. by exists 20.
  - intros i m Hx. by destruct (lookup_empty_Some i m Hx).
  - intros i m Hx. by destruct (lookup_empty_Some i m Hx).
  - intros src i K Hx. by destruct (lookup_empty_Some src (i, K) Hx).
  - intros _ b sh Hx. by destruct (lookup_empty_Some b sh Hx).
  - intros _ src d k x Hx. by destruct (lookup_empty_Some src d Hx).
Qed.

(** Signer 1 sends [bytes] as the share of signer 0's key. *)
Definition demo_private (bytes : list Z) : Message := MsgDkgPrivateShares (mkDkgPrivateShares 1 1 [(1, {[1 := bytes]})]).
Definition demo_public : list Message := [MsgDkgPublicShares (mkDkgPublicShares 1 0 [(0, 5)]); MsgDkgPublicShares (mkDkgPublicShares 1 1 [(1, 6)])].
Definition demo_own : Message := MsgDkgPrivateShares (mkDkgPrivateShares 1 0 [(0, {[1 := [5]]})]).
Definition demo_to_end (sent : list Message) : list Message :=
  [MsgDkgBegin (mkDkgBegin 1)] ++ demo_public ++ [MsgDkgPrivateBegin (mkDkgPrivateBegin 1 [0; 1] []); demo_own] ++ sent.
Definition demo_end : Message := MsgDkgEndBegin (mkDkgEndBegin 1 [0; 1] []).

Definition demo_step (s : Signer) (m : Message) : Signer := (sg_process m (s, 0)).1.1.
Definition demo_runs (ms : list Message) : Signer := foldl demo_step demo_signer ms.

(** What the signer answers to the last message of the round. *)
Definition demo_answer (sent : list Message) : outcome SignerError (list Message) := (sg_process demo_end (demo_runs (demo_to_end sent), 0)).2.
Lemma demo_good : demo_answer [demo_private [6]] = Ok [MsgDkgEnd (mkDkgEnd 1 0 StatusSuccess)].
Proof. by vm_compute. Qed.
Lemma demo_wrong : demo_answer [demo_private [7]] = Ok [MsgDkgEnd (mkDkgEnd 1 0 (StatusFailure (FailBadPrivateShares {[1 := mkBadPrivateShare 200 tt]})))].
Proof. by vm_compute. Qed.

Fixpoint steps_ok (once : Prop) (s : Signer) (ms : list Message) : Prop :=
  match ms with
  | [] => True
  | m :: ms => (once -> fresh_shares m s) /\ sign_ok m s /\ steps_ok once (demo_step s m) ms
  end.
Lemma steps_reachable once ms : forall s, sg_reachable once s -> steps_ok once s ms -> sg_reachable once (foldl demo_step s ms).
Proof.
  induction ms as [|m ms IH]; intros s Hs Hok; [done|]. destruct Hok as (Hf & Hsg & Hok). apply IH; [|done]. by apply (sg_reach_message once s 0 m).
Qed.
Lemma demo_reachable once bytes : sg_reachable once (demo_runs (demo_to_end [demo_private bytes])).
Proof.
  apply steps_reachable; [apply sg_reach_new; [apply demo_signer_inv|done]|].
  repeat (split; [intros _; first [done|by vm_compute]|split; [done|]]). done.
Qed.

(** The signer before [dkg_ended]. *)
Definition demo_handled (sent : list Message) : Signer := (sg_handle demo_end (demo_runs (demo_to_end sent), 0)).1.1.

Lemma pair_eq {A B} (x : A * B) b : x.2 = b -> x = (x.1, b).
Proof. by destruct x; cbn; intros ->. Qed.
Lemma run_eq {A B C} (x : A * B * C) c : x.2 = c -> x = (x.1.1, x.1.2, c).
Proof. by destruct x as [[] ?]; cbn; intros ->. Qed.

Lemma signer_success_sound_witness : exists m, sg_dkg_end_begin_msg (demo_handled [demo_private [6]]) = Some m /\
  forall i, i ∈ end_signer_ids (demo_handled [demo_private [6]]) m -> exists pub priv,
    comms_good (demo_handled [demo_private [6]]) i pub /\ shares_complete (demo_handled [demo_private [6]]) i priv.
Proof.
  destruct (signer_success_sound (demo_handled [demo_private [6]]) 0 (sg_status (demo_handled [demo_private [6]], 0)).1.1
    (sg_status (demo_handled [demo_private [6]], 0)).1.2) as (m & _ & Hm & _ & Hall & _);
    [apply run_eq; by vm_compute|]. exists m. split; [exact Hm|exact Hall].
Defined.

(** The coordinator of the round, with the shares of signer 1 it has last. *)
Definition demo_coordinator (bytes : list Z) (status : DkgStatus) : FireCoordinator :=
  fire_set_state CsDkgEndGather (fire_set_dkg_end_messages {[0 := mkDkgEnd 1 0 status; 1 := mkDkgEnd 1 1 StatusSuccess]}
    (fire_set_dkg_private_shares {[0 := mkDkgPrivateShares 1 0 [(0, {[1 := [5]]})]; 1 := mkDkgPrivateShares 1 1 [(1, {[1 := bytes]})]]}
      (fire_set_dkg_public_shares {[0 := mkDkgPublicShares 1 0 [(0, 5)]; 1 := mkDkgPublicShares 1 1 [(1, 6)]]}
        (fire_set_current_dkg_id 1 (fire_new (mkConfig 2 2 1 2 7 {[0 := {[1]}; 1 := {[2]}]} {[0 := 10; 1 := 20]})))))).

Definition demo_accusation : BadPrivateShare := @mkBadPrivateShare demo_crypto 200 tt.
Definition demo_report : DkgFailure := FailBadPrivateShares {[1 := demo_accusation]}.

Lemma demo_public_shares : sg_dkg_public_shares (demo_handled [demo_private []]) = fire_dkg_public_shares (demo_coordinator [] StatusSuccess).
Proof. by vm_compute. Qed.
Lemma demo_private_shares : sg_dkg_private_shares (demo_handled [demo_private []]) = fire_dkg_private_shares (demo_coordinator [] StatusSuccess).
Proof. by vm_compute. Qed.
Lemma demo_public_keys : pks_signers (sg_public_keys (demo_handled [demo_private []])) = cfg_signer_public_keys (fire_config (demo_coordinator [] StatusSuccess)).
Proof. by vm_compute. Qed.
Lemma demo_agrees : agrees (demo_handled [demo_private []]) (demo_coordinator [] StatusSuccess).
Proof.
  split.
  - by vm_compute.
  - intros i m Hm. by rewrite demo_public_shares in Hm.
  - intros i m Hm. by rewrite demo_private_shares in Hm.
  - rewrite demo_public_keys. intros i B HB. unfold key_point in HB.
    apply bind_ok_inv in HB as (key & Hk%or_panic_ok & Hp%or_panic_ok). injection Hp as ->. exact Hk.
  - by vm_compute.
  - by vm_compute.
Qed.

(** Signer 1 sends a share that does not open: the report holds. *)
Lemma signer_reports_hold_witness : report_holds (demo_coordinator [] StatusSuccess) (sg_signer_id (demo_handled [demo_private []])) demo_report.
Proof.
  apply (signer_reports_hold (demo_runs (demo_to_end [demo_private []])) 0 demo_end (demo_handled [demo_private []])
    (sg_handle demo_end (demo_runs (demo_to_end [demo_private []]), 0)).1.2 []
    (demo_coordinator [] StatusSuccess) (mkDkgEndBegin 1 [0; 1] [])
    (sg_status (demo_handled [demo_private []], (sg_handle demo_end (demo_runs (demo_to_end [demo_private []]), 0)).1.2)).1 demo_report).
  - exact (demo_reachable True []).
  - exact I.
  - exact I.
  - apply run_eq. by vm_compute.
  - by vm_compute.
  - by vm_compute.
  - rewrite demo_private_shares. intros i [x Hx]. cbn in Hx. apply lookup_insert_Some in Hx as [[<- _]|[_ Hx]];
      [|apply lookup_singleton_Some in Hx as [<- _]]; apply (bool_decide_unpack _); by vm_compute.
  - exact demo_agrees.
  - apply pair_eq. by vm_compute.
Defined.

(** Signer 1 sends that share and then a good one. The signer still accuses it,
    and the coordinator, which has the good shares, marks the accuser. *)
Lemma resent_shares_convict_honest :
  demo_answer [demo_private []; demo_private [6]] = Ok [MsgDkgEnd (mkDkgEnd 1 0 (StatusFailure demo_report))] /\
  fire_malicious_dkg_signer_ids (fire_dkg_end_done (demo_coordinator [6] (StatusFailure demo_report))).1 = {[0]}.
Proof. split; by vm_compute. Qed.
