(* ===== verification/StacksSigning.v ===== *)
(** * Signing Stacks transactions ([signer/src/transaction_signer.rs])

    [handle_stacks_transaction_sign_request] validates a request, rebuilds the
    transaction, signs it and remembers, per bitcoin tenure, which requests it
    signed. The memory is a cache of the [lru] crate: the class [LruOps], with
    its documented behaviour as [LruLaws]. The handler mutates the cache and
    may then fail, so it returns the cache beside its outcome. *)

From stdpp Require Import strings.
From S2P Require Import Prelude Types Bitcoin SignerState Requests Sweep Validation Contracts.

Abbreviation StacksTxId := Z.

(** ** Requests *)
Record StacksTransactionSignRequest := mkSignRequest {
  ssr_aggregate_key : option PublicKey;
  ssr_contract_tx : StacksTx;
  ssr_nonce : Z;
  ssr_tx_fee : Z;
  ssr_txid : StacksTxId }.
Record StacksTransactionSignature := mkStacksSignature { sts_txid : StacksTxId; sts_signature : Z }.

Inductive StacksSignRequestId :=
| IdCompleteDeposit (outpoint : OutPoint)
| IdCompleteWithdrawal (request_id : Z)
| IdRotateKeys (k : PublicKey)
| IdSmartContract (c : SmartContract).
#[global] Instance SmartContract_eq_dec : EqDecision SmartContract.
Proof. solve_decision. Defined.
#[global] Instance StacksSignRequestId_eq_dec : EqDecision StacksSignRequestId.
Proof. solve_decision. Defined.

Definition from_sign_request (request : StacksTransactionSignRequest) : StacksSignRequestId :=
  match ssr_contract_tx request with
  | StacksContractCall (CallCompleteDeposit contract) => IdCompleteDeposit (cdv_outpoint contract)
  | StacksContractCall (CallAcceptWithdrawal contract) => IdCompleteWithdrawal (q_request_id (aw_id contract))
  | StacksContractCall (CallRejectWithdrawal contract) => IdCompleteWithdrawal (q_request_id (rj_id contract))
  | StacksContractCall (CallRotateKeys contract) => IdRotateKeys (rk_aggregate_key contract)
  | StacksSmartContract contract => IdSmartContract contract
  end.

(** A set of request ids, by its elements; [insert] keeps one copy. *)
Abbreviation IdSet := (list StacksSignRequestId).
Definition id_set_contains (i : StacksSignRequestId) (s : IdSet) : bool := bool_decide (i ∈ s).
Definition id_set_insert (i : StacksSignRequestId) (s : IdSet) : IdSet := if id_set_contains i s then s else i :: s.

(** ** The cache of the [lru] crate *)
Class LruOps (C : Type) := {
  (** [get]: the value, and the cache with the key promoted. *)
  lru_get : BlockHash -> C -> option IdSet * C;
  (** [get_or_insert_mut(k, default)], then a mutation of the value. *)
  lru_get_or_insert_mut : BlockHash -> IdSet -> (IdSet -> IdSet) -> C -> C }.
Class LruLaws (C : Type) `{LruOps C} : Prop := {
  lru_get_keeps : forall k k' c, (lru_get k (lru_get k' c).2).1 = (lru_get k c).1;
  lru_insert_get : forall k d f c, (lru_get k (lru_get_or_insert_mut k d f c)).1 = Some (f (default d (lru_get k c).1)) }.

(** ** The signer *)
Inductive SigningError :=
| StacksRequestAlreadySigned (i : StacksSignRequestId) (tip : BlockHash)
| StacksFeeLimitExceeded (fee highest : Z)
| SigningNoDkgShares
| NoVerifiedDkgShares
| ValidationSignerSet (k : PublicKey)
| SigningNoStacksChainTip
| ContractValidation (e : ContractError)
| SignerCoordinatorTxidMismatch (ours requested : StacksTxId)
| SigningClientError (n : Z).

(** The configuration, cached state, database and wallet of the signer;
    [sg_multisig_txid nonce tx fee] is the id of the transaction
    [MultisigTx::new_tx] builds with the loaded wallet at that nonce. *)
Record SigningEnv := mkSigningEnv {
  sg_contract_env : ContractEnv;
  sg_stacks_fees_max_ustx : Z;
  sg_signer_public_key : PublicKey;
  sg_context_window : Z;
  sg_state : SignerState;
  sg_latest_verified_dkg_shares : outcome SigningError (option EncryptedDkgShares);
  sg_latest_encrypted_dkg_shares : outcome SigningError (option EncryptedDkgShares);
  sg_load_wallet : outcome SigningError unit;
  sg_multisig_txid : Z -> StacksTx -> Z -> StacksTxId;
  sg_sign_stacks_tx : StacksTxId -> Z;
  sg_send_message : StacksTransactionSignature -> BlockHash -> outcome SigningError unit }.

(** [SignerSetInfo::from(EncryptedDkgShares)] *)
Definition signer_set_info_from (s : EncryptedDkgShares) : SignerSetInfo :=
  mkSignerSetInfo (ds_aggregate_key s) (shares_signer_set s) (ds_signature_share_threshold s).

Section Handler.
Context {C : Type} `{LruOps C} `{BitcoinLib}.

Definition load_signer_set_info (env : SigningEnv) (request : StacksTransactionSignRequest)
    : outcome SigningError SignerSetInfo :=
  match st_registry_signing_set_info (sg_state env) with
  | Some info => mret info
  | None =>
      verified ← sg_latest_verified_dkg_shares env;
      match verified with
      | Some info => mret (signer_set_info_from info)
      | None =>
          let is_deployment := match ssr_contract_tx request with StacksSmartContract _ => true | _ => false end in
          if is_deployment && negb (st_sbtc_contracts_deployed (sg_state env)) then
            shares ← sg_latest_encrypted_dkg_shares env;
            ok_or (option_map signer_set_info_from shares) SigningNoDkgShares
          else Err NoVerifiedDkgShares
      end
  end.

(** [assert_valid_stacks_tx_sign_request], after the check of the cache. *)
Definition assert_valid_request (env : SigningEnv) (request : StacksTransactionSignRequest) (chain_tip : BitcoinBlockRef)
    (origin : PublicKey) : outcome SigningError unit :=
  let highest_acceptable_fee := sg_stacks_fees_max_ustx env in
  if highest_acceptable_fee <? ssr_tx_fee request
  then Err (StacksFeeLimitExceeded (ssr_tx_fee request) highest_acceptable_fee) else
  signer_set_info ← load_signer_set_info env request;
  if negb (bool_decide (sg_signer_public_key env ∈ ssi_signer_set signer_set_info))
  then Err (ValidationSignerSet (ssi_aggregate_key signer_set_info)) else
  stacks_chain_tip ← ok_or (st_stacks_chain_tip (sg_state env)) SigningNoStacksChainTip;
  let req_ctx := mkReqContext chain_tip (sbr_block_hash stacks_chain_tip) (sg_context_window env) origin
    (ssi_aggregate_key signer_set_info) (ssi_signatures_required signer_set_info) (ce_deployer (sg_contract_env env)) in
  map_err ContractValidation (stacks_tx_validate (sg_contract_env env) req_ctx (ssr_contract_tx request)).

Definition assert_valid_stacks_tx_sign_request (env : SigningEnv) (request : StacksTransactionSignRequest)
    (chain_tip : BitcoinBlockRef) (origin : PublicKey) (cache : C) : C * outcome SigningError unit :=
  let request_id := from_sign_request request in
  let '(signed, cache) := lru_get (bbr_block_hash chain_tip) cache in
  let already_signed := from_option (id_set_contains request_id) false signed in
  if already_signed then (cache, Err (StacksRequestAlreadySigned request_id (bbr_block_hash chain_tip))) else
  (cache, assert_valid_request env request chain_tip origin).

Definition handle_stacks_transaction_sign_request (env : SigningEnv) (request : StacksTransactionSignRequest)
    (chain_tip : BitcoinBlockRef) (origin : PublicKey) (cache : C)
    : C * outcome SigningError StacksTransactionSignature :=
  let '(cache, validation_result) := assert_valid_stacks_tx_sign_request env request chain_tip origin cache in
  let result :=
    _ ← validation_result;
    _ ← sg_load_wallet env;
    let txid := sg_multisig_txid env (ssr_nonce request) (ssr_contract_tx request) (ssr_tx_fee request) in
    if negb (txid =? ssr_txid request) then Err (SignerCoordinatorTxidMismatch txid (ssr_txid request)) else
    let msg := mkStacksSignature txid (sg_sign_stacks_tx env txid) in
    _ ← sg_send_message env msg (bbr_block_hash chain_tip);
    mret msg in
  match result with
  | Ok msg =>
      (lru_get_or_insert_mut (bbr_block_hash chain_tip) [] (id_set_insert (from_sign_request request)) cache, Ok msg)
  | _ => (cache, result)
  end.

(** The requests of one tenure, handled one after the other, each in the state
    of the signer at that time; the outcomes in order. *)
Fixpoint handle_all (chain_tip : BitcoinBlockRef) (rs : list (SigningEnv * StacksTransactionSignRequest * PublicKey))
    (cache : C) : list (outcome SigningError StacksTransactionSignature) :=
  match rs with
  | [] => []
  | (env, request, origin) :: rs =>
      let '(cache, r) := handle_stacks_transaction_sign_request env request chain_tip origin cache in
      r :: handle_all chain_tip rs cache
  end.
End Handler.

(** ** Lemmas *)
Section HandlerLemmas.
Context {C : Type} `{LruOps C} `{!LruLaws C} `{BitcoinLib}.
Implicit Types (cache : C).

(** The ids remembered for a tenure. *)
Definition signed_ids (tip : BlockHash) cache : IdSet := default [] (lru_get tip cache).1.

Lemma handle_cases env request tip origin cache cache' r :
  handle_stacks_transaction_sign_request env request tip origin cache = (cache', r) ->
  let i := from_sign_request request in
  let signed := signed_ids (bbr_block_hash tip) in
  match r with
  | Ok msg => assert_valid_request env request tip origin = Ok tt /\ sts_txid msg = ssr_txid request /\
      (i ∉ signed cache) /\ signed cache' = i :: signed cache
  | _ => signed cache' = signed cache
  end.
Proof.
  unfold handle_stacks_transaction_sign_request, assert_valid_stacks_tx_sign_request, signed_ids.
  set (tip' := bbr_block_hash tip). set (i := from_sign_request request).
  destruct (lru_get tip' cache) as [signed c1] eqn:Hg.
  assert ((lru_get tip' c1).1 = signed) as Hk.
  { pose proof (lru_get_keeps tip' tip' cache) as Hk. rewrite Hg in Hk. done. }
  destruct (from_option (id_set_contains i) false signed) eqn:Hs; cbn [mbind outcome_bind].
  { intros [= <- <-]. by rewrite Hk. }
  assert (i ∉ default [] signed) as Hni.
  { destruct signed as [s|]; simpl in *; [|by apply not_elem_of_nil]. unfold id_set_contains in Hs. by apply bool_decide_eq_false in Hs. }
  destruct (assert_valid_request env request tip origin) as [[]| | |]; cbn [mbind outcome_bind];
    [|intros [= <- <-]; by rewrite Hk..].
  destruct (sg_load_wallet env) as [[]| | |]; cbn [mbind outcome_bind]; [|intros [= <- <-]; by rewrite Hk..].
  destruct (Z.eqb_spec (sg_multisig_txid env (ssr_nonce request) (ssr_contract_tx request) (ssr_tx_fee request))
    (ssr_txid request)) as [Htx|]; cbn [negb]; [|intros [= <- <-]; by rewrite Hk].
  destruct (sg_send_message _ _ _) as [[]| | |]; cbn [mbind outcome_bind mret outcome_ret];
    [|intros [= <- <-]; by rewrite Hk..].
  intros [= <- <-]. cbn [sts_txid]. split_and!; [done|done|done|]. rewrite lru_insert_get, Hk. cbn [default from_option id].
  unfold id_set_insert, id_set_contains. by rewrite bool_decide_false.
Qed.

Lemma handle_all_fresh tip rs : forall cache i, i ∈ signed_ids (bbr_block_hash tip) cache ->
  forall env request origin msg, from_sign_request request = i ->
  ~ ((env, request, origin, Ok msg) ∈ zip rs (handle_all tip rs cache)).
Proof.
  induction rs as [|[[env0 request0] origin0] rs IH]; intros cache i Hi env request origin msg Hr; [by apply not_elem_of_nil|].
  cbn [handle_all]. destruct (handle_stacks_transaction_sign_request env0 request0 tip origin0 cache) as [c1 r1] eqn:Hh.
  apply handle_cases in Hh. cbn [zip zip_with]. intros Hin. apply elem_of_cons in Hin as [Heq|Hin].
  - injection Heq as -> -> -> <-. destruct Hh as (_ & _ & Hni & _). by rewrite Hr in Hni.
  - revert Hin. apply (IH c1 i); [|done]. destruct r1; [|by rewrite Hh..]. destruct Hh as (_ & _ & _ & ->). by right.
Qed.
End HandlerLemmas.

(** ** Properties *)

(** C36: one signature per request and tenure. However the requests of a
    tenure arrive and whatever the signer's state at each, the requests it
    signs have pairwise distinct ids, so a deposit is signed for once and a
    withdrawal is not signed for both acceptance and rejection; and each one
    signed passed validation, with the transaction id the coordinator named
    and a fee within the configured maximum. *)
Theorem signed_once_per_tenure {C} `{LruOps C} `{!LruLaws C} `{BitcoinLib} tip rs (cache : C) :
  let signed := filter (fun x => is_ok x.2 = true) (zip rs (handle_all tip rs cache)) in
  NoDup (map (fun x => from_sign_request x.1.1.2) signed) /\
  Forall (fun x => let '((env, request, origin), r) := x in
    assert_valid_request env request tip origin = Ok tt /\ ssr_tx_fee request <= sg_stacks_fees_max_ustx env /\
    exists signature, r = Ok (mkStacksSignature (ssr_txid request) signature)) signed.
Proof.
  cbv zeta. revert cache. induction rs as [|[[env request] origin] rs IH]; intros cache; [split; constructor|].
  cbn [handle_all]. destruct (handle_stacks_transaction_sign_request env request tip origin cache) as [c1 r1] eqn:Hh.
  apply handle_cases in Hh. destruct (IH c1) as [IHn IHf]. cbn [zip zip_with].
  destruct r1 as [msg| | |]; [|rewrite filter_cons_False by done; split; [exact IHn|exact IHf]..].
  rewrite filter_cons_True by done. destruct Hh as (Hv & Htx & Hni & Hs). cbn [map]. split.
  - apply NoDup_cons. split; [|exact IHn]. intros Hin. apply list_elem_of_fmap in Hin as ([[[env' request'] origin'] r'] & Hid & Hin).
    apply list_elem_of_filter in Hin as [Hok Hin]. destruct r' as [msg'| | |]; [|done..].
    eapply (handle_all_fresh tip rs c1 (from_sign_request request)); [rewrite Hs; by left| |exact Hin]. done.
  - apply Forall_cons. split; [|exact IHf]. split_and!; [done| |].
    + unfold assert_valid_request in Hv. destruct (Z.ltb_spec (sg_stacks_fees_max_ustx env) (ssr_tx_fee request)); [done|lia].
    + exists (sts_signature msg). destruct msg; simpl in *; congruence.
Qed.

(** ** Witness: a cache of two tenures, most recently used first *)
Abbreviation DemoLru := (list (BlockHash * IdSet)).
Definition demo_find (k : BlockHash) (c : DemoLru) : option IdSet := option_map snd (List.find (fun e => e.1 =? k) c).
Definition demo_promote (k : BlockHash) (v : IdSet) (c : DemoLru) : DemoLru := (k, v) :: List.filter (fun e => negb (e.1 =? k)) c.
Definition demo_lru : LruOps DemoLru := {|
  lru_get := fun k c => match demo_find k c with Some v => (Some v, demo_promote k v c) | None => (None, c) end;
  lru_get_or_insert_mut := fun k d f c => take 2 (demo_promote k (f (default d (demo_find k c))) c) |}.
Lemma demo_find_promote k v k' c : demo_find k' (demo_promote k v c) = if k =? k' then Some v else demo_find k' c.
Proof.
  unfold demo_find, demo_promote. cbn [List.find fst]. destruct (Z.eqb_spec k k') as [->|Hk]; [done|].
  f_equal. induction c as [|[k0 v0] c IH]; [done|]. cbn [List.filter List.find fst].
  destruct (Z.eqb_spec k0 k) as [->|Hk0]; cbn [negb List.find fst].
  - destruct (Z.eqb_spec k k'); [done|exact IH].
  - destruct (k0 =? k'); [done|exact IH].
Qed.
Lemma demo_lru_laws : @LruLaws DemoLru demo_lru.
Proof.
  constructor; intros; cbn [lru_get lru_get_or_insert_mut demo_lru].
  - destruct (demo_find k' c) as [v|] eqn:Hf; [|done]. cbn [snd]. rewrite demo_find_promote.
    destruct (Z.eqb_spec k' k) as [->|]; [by rewrite Hf|]. by destruct (demo_find k c).
  - assert (forall v, demo_find k (take 2 (demo_promote k v c)) = Some v) as ->.
    { intros v. unfold demo_promote, demo_find. cbn [take List.find fst]. by rewrite Z.eqb_refl. }
    by destruct (demo_find k c).
Qed.

#[local] Existing Instance demo_bitcoin.
#[local] Existing Instance demo_lru.
#[local] Existing Instance demo_lru_laws.
(** A signer of the set, about to sign for the requests of the sample sweep. *)
Definition demo_signing_env : SigningEnv := {|
  sg_contract_env := demo_contract_env;
  sg_stacks_fees_max_ustx := 1000;
  sg_signer_public_key := 1;
  sg_context_window := 10;
  sg_state := mkSignerState signer_set_default limits_zero (Some (mkSignerSetInfo 12 {[1; 2]} 2)) true 0 true None
                (Some (mkStacksBlockRef 5 100));
  sg_latest_verified_dkg_shares := Ok None;
  sg_latest_encrypted_dkg_shares := Ok None;
  sg_load_wallet := Ok tt;
  sg_multisig_txid := fun nonce _ fee => nonce * 1000 + fee;
  sg_sign_stacks_tx := fun txid => txid + 1;
  sg_send_message := fun _ _ => Ok tt |}.
Definition demo_sign_requests : list (SigningEnv * StacksTransactionSignRequest * PublicKey) :=
  let request call nonce := mkSignRequest None (StacksContractCall call) nonce 180 (nonce * 1000 + 180) in
  let mint := default (mkCompleteDeposit (mkOutPoint 0 0) 0 [] 0 0 0 0) (head demo_mints) in
  [(demo_signing_env, request (CallCompleteDeposit mint) 1, 2);
   (demo_signing_env, request (CallCompleteDeposit mint) 2, 2);
   (demo_signing_env, request (CallRejectWithdrawal (mkRejectWithdrawal (mkQualifiedRequestId 9 0 0) 0 42)) 3, 2)].
Lemma signed_once_per_tenure_witness :
  map is_ok (handle_all (mkBitcoinBlockRef 900 77) demo_sign_requests ([] : DemoLru)) = [true; false; true] /\
  NoDup (map (fun x => from_sign_request x.1.1.2) (filter (fun x => is_ok x.2 = true)
    (zip demo_sign_requests (handle_all (mkBitcoinBlockRef 900 77) demo_sign_requests ([] : DemoLru))))).
Proof.
  split; [by vm_compute|].
  apply (signed_once_per_tenure (mkBitcoinBlockRef 900 77) demo_sign_requests ([] : DemoLru)).
Defined.
