(* ===== verification/Wallet.v ===== *)
(** * The signers' multi-sig wallet ([signer/src/stacks/wallet.rs])

    The wallet of the signer set on Stacks, the transactions it authorises and
    the collection of their signatures. A [BTreeSet] of keys is a [gset] visited
    in ascending order, the [BTreeMap] of signatures a [gmap]. The wallet's
    nonce is an atomic counter: the operations that change it return the wallet
    beside their result. Addresses, digests, transaction ids, the serialized
    size and ECDSA are those of [stacks-core] and [secp256k1]: the class
    [StacksLib], with what the code relies on in [StacksLaws]. *)

From stdpp Require Import strings.
From S2P Require Import Prelude Types Consts SignerState WstsNet Bitcoin Packaging Requests Sweep Validation Contracts StacksSigning.

Inductive NetworkKind := Mainnet | Testnet | Regtest.

(** ** Transactions *)

(** A [TransactionAuthField] of a compressed key. *)
Inductive AuthField (Signature : Type) :=
| FieldPublicKey (key : PublicKey)
| FieldSignature (s : Signature).
Arguments FieldPublicKey {_} key.
Arguments FieldSignature {_} s.

(** [OrderIndependentMultisigSpendingCondition], always with the hash mode
    [P2SH]; the [signer] is the hash of the address. *)
Record SpendingCondition (Signature : Type) := mkSpendingCondition {
  sc_signer : Z;
  sc_nonce : Z;
  sc_tx_fee : Z;
  sc_fields : list (AuthField Signature);
  sc_signatures_required : Z }.
Arguments mkSpendingCondition {_} _ _ _ _ _.
Arguments sc_signer {_} _.
Arguments sc_nonce {_} _.
Arguments sc_tx_fee {_} _.
Arguments sc_fields {_} _.
Arguments sc_signatures_required {_} _.

Inductive TransactionPayload :=
| PayloadContractCall (address : StacksAddress) (contract_name function_name : string) (function_args : list ClarityValue)
| PayloadSmartContract (name code_body : string).             (* [Some(ClarityVersion::Clarity3)] *)

(** [StacksTransaction]; the anchor mode is [Any], the post condition mode
    [Allow] and the post conditions are empty in every transaction built. *)
Record StacksTransaction (Signature : Type) := mkStacksTransaction {
  stx_mainnet : bool;                                          (* [version] and [chain_id] *)
  stx_auth : SpendingCondition Signature;
  stx_payload : TransactionPayload }.
Arguments mkStacksTransaction {_} _ _ _.
Arguments stx_mainnet {_} _.
Arguments stx_auth {_} _.
Arguments stx_payload {_} _.

Definition set_fields {S} (fields : list (AuthField S)) (c : SpendingCondition S) : SpendingCondition S :=
  mkSpendingCondition (sc_signer c) (sc_nonce c) (sc_tx_fee c) fields (sc_signatures_required c).
(** [push_signature] and [push_public_key] *)
Definition push_field {S} (f : AuthField S) (c : SpendingCondition S) : SpendingCondition S := set_fields (sc_fields c ++ [f]) c.
Definition set_auth {S} (c : SpendingCondition S) (tx : StacksTransaction S) : StacksTransaction S :=
  mkStacksTransaction (stx_mainnet tx) c (stx_payload tx).

(** The libraries. *)
Class StacksLib := {
  RecoverableSignature : Type;
  StacksPrivateKey : Type;
  secp_combine_keys : list PublicKey -> option PublicKey;      (* [secp256k1::PublicKey::combine_keys] *)
  public_key_of : StacksPrivateKey -> PublicKey;
  recover : RecoverableSignature -> Z -> option PublicKey;     (* the key a signature over a digest verifies under *)
  sign_ecdsa_recoverable : StacksPrivateKey -> Z -> RecoverableSignature;
  (** [StacksAddress::from_public_keys] with the hash mode [SerializeP2SH]. *)
  from_public_keys : bool -> Z -> list PublicKey -> option StacksAddress;
  address_bytes : StacksAddress -> Z;
  tx_txid : StacksTransaction RecoverableSignature -> StacksTxId;
  into_initial_sighash_auth : SpendingCondition RecoverableSignature -> SpendingCondition RecoverableSignature;
  make_sighash_presign : StacksTxId -> Z -> Z -> Z;
  serialized_len : StacksTransaction RecoverableSignature -> Z;
  contract_body : SmartContract -> string;                     (* the Clarity sources *)
  DUMMY_PRIVATE_KEYS : list StacksPrivateKey }.

Class StacksLaws `{StacksLib} : Prop := {
  (** The initial digest clears the fields, the nonce and the fee. *)
  initial_sighash_auth_clears : forall c c', sc_signer c = sc_signer c' -> sc_signatures_required c = sc_signatures_required c' ->
    into_initial_sighash_auth c = into_initial_sighash_auth c';
  recover_sign : forall k d, recover (sign_ecdsa_recoverable k d) d = Some (public_key_of k);
  (** [None] exactly when the keys are fewer than the threshold. *)
  from_public_keys_some : forall mainnet n keys, is_Some (from_public_keys mainnet n keys) <-> n <= zlen keys }.

Inductive WalletError :=
| InvalidWalletDefinition (signatures_required num_keys : Z)
| StacksMultiSig (signatures_required num_keys : Z)
| InvalidAggregateKey
| InvalidRecoverableSignature (digest : Z)
| UnknownPublicKey (key : PublicKey) (digest : Z).

(** A [BTreeSet] in the order it is visited. *)
Definition btree_keys (s : gset PublicKey) : list PublicKey := merge_sort Z.le (elements s).

Section Wallet.
Context `{StacksLib}.
Abbreviation Sig := RecoverableSignature.
Abbreviation Tx := (StacksTransaction RecoverableSignature).

(** [AsTxPayload] and [AsContractCall::as_contract_call] *)
Definition tx_payload (tx : StacksTx) : TransactionPayload :=
  match tx with
  | StacksContractCall (CallCompleteDeposit c) =>
      PayloadContractCall (cdv_deployer c) "sbtc-deposit" "complete-deposit-wrapper" (complete_deposit_args c)
  | StacksContractCall (CallAcceptWithdrawal c) =>
      PayloadContractCall (aw_deployer c) "sbtc-withdrawal" "accept-withdrawal-request" (accept_withdrawal_args c)
  | StacksContractCall (CallRejectWithdrawal c) =>
      PayloadContractCall (rj_deployer c) "sbtc-withdrawal" "reject-withdrawal-request" (reject_withdrawal_args c)
  | StacksContractCall (CallRotateKeys c) =>
      PayloadContractCall (rk_deployer c) "sbtc-bootstrap-signers" "rotate-keys-wrapper" (rotate_keys_args c)
  | StacksSmartContract c => PayloadSmartContract (contract_name c) (contract_body c)
  end.

Definition digest (tx : Tx) : Z :=
  let cleared_tx := set_auth (into_initial_sighash_auth (stx_auth tx)) tx in
  make_sighash_presign (tx_txid cleared_tx) (sc_tx_fee (stx_auth tx)) (sc_nonce (stx_auth tx)).

Definition sign_stacks_tx (tx : Tx) (private_key : StacksPrivateKey) : Sig := sign_ecdsa_recoverable private_key (digest tx).

Definition recover_ecdsa (s : Sig) (msg : Z) : outcome WalletError PublicKey := ok_or (recover s msg) (InvalidRecoverableSignature msg).

Definition combine_keys (keys : list PublicKey) : outcome WalletError PublicKey := ok_or (secp_combine_keys keys) InvalidAggregateKey.

(** ** The wallet *)
Record SignerWallet := mkWallet {
  wl_public_keys : gset PublicKey;
  wl_aggregate_key : PublicKey;
  wl_signatures_required : Z;
  wl_network_kind : NetworkKind;
  wl_address : StacksAddress;
  wl_nonce : Z }.

Definition is_mainnet (n : NetworkKind) : bool := match n with Mainnet => true | _ => false end.

Definition wallet_new (public_keys : list PublicKey) (signatures_required : Z) (network_kind : NetworkKind) (nonce : Z)
    : outcome WalletError SignerWallet :=
  let public_keys : gset PublicKey := list_to_set public_keys in
  let num_keys := Z.of_nat (size public_keys) in
  let invalid_threshold := num_keys <? signatures_required in
  let invalid_num_keys := (num_keys =? 0) || (MAX_KEYS <? num_keys) in
  if invalid_threshold || invalid_num_keys || (signatures_required =? 0)
  then Err (InvalidWalletDefinition signatures_required num_keys) else
  aggregate_key ← combine_keys (btree_keys public_keys);
  address ← ok_or (from_public_keys (is_mainnet network_kind) signatures_required (btree_keys public_keys))
              (StacksMultiSig signatures_required num_keys);
  mret (mkWallet public_keys aggregate_key signatures_required network_kind address nonce).

(** The fields of [SignerConfig] the wallet reads. *)
Record WalletConfig := mkWalletConfig {
  wc_network : NetworkKind;
  wc_bootstrap_signing_set : gset PublicKey;
  wc_bootstrap_signatures_required : Z }.

Definition load_boostrap_wallet (config : WalletConfig) : outcome WalletError SignerWallet :=
  wallet_new (btree_keys (wc_bootstrap_signing_set config)) (wc_bootstrap_signatures_required config) (wc_network config) 0.

Definition wallet_load (config : WalletConfig) (state : SignerState) : outcome WalletError SignerWallet :=
  match st_registry_signing_set_info state with
  | Some info => wallet_new (btree_keys (ssi_signer_set info)) (ssi_signatures_required info) (wc_network config) 0
  | None => load_boostrap_wallet config
  end.

(** [num_signers]; the conversion to [u16] panics beyond it. *)
Definition wallet_num_signers (w : SignerWallet) : outcome WalletError Z :=
  let n := Z.of_nat (size (wl_public_keys w)) in if n <=? u16_max then mret n else Panic.
Definition get_nonce (w : SignerWallet) : Z := wl_nonce w.
Definition set_nonce (value : Z) (w : SignerWallet) : SignerWallet :=
  mkWallet (wl_public_keys w) (wl_aggregate_key w) (wl_signatures_required w) (wl_network_kind w) (wl_address w) value.

(** [fetch_add] wraps around. *)
Definition as_unsigned_tx_auth (tx_fee : Z) (w : SignerWallet) : SignerWallet * SpendingCondition Sig :=
  (set_nonce ((wl_nonce w + 1) mod 2 ^ 64) w,
   mkSpendingCondition (address_bytes (wl_address w)) (wl_nonce w) tx_fee [] (wl_signatures_required w)).

(** ** Multi-sig transactions *)
Record MultisigTx := mkMultisigTx {
  mtx_tx : Tx;
  mtx_digest : Z;
  mtx_signatures : gmap PublicKey (option Sig) }.

Definition new_tx (payload : StacksTx) (tx_fee : Z) (w : SignerWallet) : SignerWallet * MultisigTx :=
  let '(w', auth) := as_unsigned_tx_auth tx_fee w in
  let tx := mkStacksTransaction (is_mainnet (wl_network_kind w)) auth (tx_payload payload) in
  (w', mkMultisigTx tx (digest tx) (gset_to_gmap None (wl_public_keys w))).

(** [num_signatures]: at most [MAX_KEYS] terms, so the sum stays in [u16]. *)
Definition num_signatures (m : MultisigTx) : Z :=
  zsum (map (fun e => match e.2 with Some _ => 1 | None => 0 end) (btree_list (mtx_signatures m))).

Definition add_signature (signature : Sig) (m : MultisigTx) : MultisigTx * outcome WalletError unit :=
  match recover_ecdsa signature (mtx_digest m) with
  | Ok public_key =>
      match mtx_signatures m !! public_key with
      | Some _ => (mkMultisigTx (mtx_tx m) (mtx_digest m) (<[public_key := Some signature]> (mtx_signatures m)), mret tt)
      | None => (m, Err (UnknownPublicKey public_key (mtx_digest m)))
      end
  | Err e => (m, Err e)
  | Panic => (m, Panic)
  | Diverge => (m, Diverge)
  end.

Definition finalize_transaction (m : MultisigTx) : Tx :=
  let push cond (e : PublicKey * option Sig) :=
    match e.2 with
    | Some sig => push_field (FieldSignature sig) cond
    | None => push_field (FieldPublicKey e.1) cond
    end in
  set_auth (foldl push (stx_auth (mtx_tx m)) (btree_list (mtx_signatures m))) (mtx_tx m).

(** The signatures of the dummy keys, added one after the other. *)
Fixpoint add_dummy_signatures (keys : list StacksPrivateKey) (m : MultisigTx) : outcome WalletError MultisigTx :=
  match keys with
  | [] => mret m
  | k :: keys =>
      let '(m', r) := add_signature (sign_stacks_tx (mtx_tx m) k) m in
      _ ← r;
      add_dummy_signatures keys m'
  end.

Definition get_full_tx_size (payload : StacksTx) (w : SignerWallet) : outcome WalletError Z :=
  let num_signers := size (wl_public_keys w) in
  let private_keys := take num_signers DUMMY_PRIVATE_KEYS in
  let public_keys := map public_key_of private_keys in
  wallet ← wallet_new public_keys (wl_signatures_required w) (wl_network_kind w) 0;
  let '(_, multisig_tx) := new_tx payload 0 wallet in
  signed ← add_dummy_signatures (take (Z.to_nat (wl_signatures_required wallet)) private_keys) multisig_tx;
  mret (serialized_len (finalize_transaction signed)).
End Wallet.
Arguments SignerWallet : clear implicits.

(** ** Lemmas *)
Lemma elem_of_btree_keys s k : k ∈ btree_keys s <-> k ∈ s.
Proof. unfold btree_keys. by rewrite merge_sort_Permutation, elem_of_elements. Qed.
Lemma btree_keys_ssorted s : ssorted (btree_keys s).
Proof.
  apply sorted_le_lt; [apply StronglySorted_merge_sort; apply _|]. unfold btree_keys. rewrite merge_sort_Permutation. apply NoDup_elements.
Qed.
Lemma zlen_btree_keys s : zlen (btree_keys s) = Z.of_nat (size s).
Proof. unfold zlen, btree_keys. by rewrite merge_sort_Permutation. Qed.

(** Counting the entries of a map through its visit in order. *)
Lemma count_btree_list {A} (f : A -> bool) (m : gmap Z A) :
  zsum (map (fun e => if f e.2 then 1 else 0) (btree_list m)) = Z.of_nat (size (filter (fun e => f e.2 = true) m)).
Proof.
  rewrite (zsum_perm _ (map (fun e => if f e.2 then 1 else 0) (map_to_list m))) by (unfold btree_list; by rewrite merge_sort_Permutation).
  induction m as [|i x m Hi IH] using map_ind.
  { by rewrite map_to_list_empty, map_filter_empty, map_size_empty. }
  rewrite (zsum_perm _ (map (fun e => if f e.2 then 1 else 0) ((i, x) :: map_to_list m))) by (by rewrite map_to_list_insert).
  cbn [map zsum foldr snd]. fold (zsum (map (fun e : Z * A => if f e.2 then 1 else 0) (map_to_list m))). rewrite IH.
  destruct (f x) eqn:Hf.
  - rewrite map_filter_insert_True by done. rewrite map_size_insert_None; [lia|]. apply map_lookup_filter_None. by left.
  - rewrite map_filter_insert_False by (cbn; congruence). rewrite delete_id by done. lia.
Qed.

Section WalletLemmas.
Context `{StacksLib}.
Abbreviation Sig := RecoverableSignature.
Abbreviation Tx := (StacksTransaction RecoverableSignature).

Lemma wallet_new_inv keys n net nonce w : wallet_new keys n net nonce = Ok w ->
  wl_public_keys w = list_to_set keys /\ wl_signatures_required w = n /\ wl_network_kind w = net /\ wl_nonce w = nonce /\
  from_public_keys (is_mainnet net) n (btree_keys (wl_public_keys w)) = Some (wl_address w) /\
  n <> 0 /\ n <= Z.of_nat (size (wl_public_keys w)) /\ 0 < Z.of_nat (size (wl_public_keys w)) <= MAX_KEYS.
Proof.
  unfold wallet_new. intros Hw. destruct (_ || _ || _) eqn:Hb in Hw; [done|]. zbool. outcome_inv.
  match goal with Hf : ok_or (from_public_keys _ _ _) _ = Ok _ |- _ => apply ok_or_ok in Hf end. cbn. split_and!; try done; lia.
Qed.

(** The signatures given one after the other; a failure leaves the
    transaction as it is. *)
Definition add_signatures (sigs : list Sig) (m : MultisigTx) : MultisigTx := foldl (fun m s => (add_signature s m).1) m sigs.

(** The keys that have signed. *)
Definition has_signature (o : option Sig) : bool := match o with Some _ => true | None => false end.
Definition signed_keys (m : MultisigTx) : gset PublicKey := dom (filter (fun e => has_signature e.2 = true) (mtx_signatures m)).

Record multisig_ok (keys : gset PublicKey) (m : MultisigTx) : Prop := {
  mo_digest : mtx_digest m = digest (mtx_tx m);
  mo_fields : sc_fields (stx_auth (mtx_tx m)) = [];
  mo_keys : dom (mtx_signatures m) = keys;
  mo_recover : forall k s, mtx_signatures m !! k = Some (Some s) -> recover s (mtx_digest m) = Some k }.

Lemma elem_of_signed_keys m k : k ∈ signed_keys m <-> exists s, mtx_signatures m !! k = Some (Some s).
Proof.
  unfold signed_keys. rewrite elem_of_dom. split.
  - intros [[s|] [Ho Hs]%map_lookup_filter_Some]; [eauto|done].
  - intros [s Hs]. exists (Some s). apply map_lookup_filter_Some. by split.
Qed.

Lemma num_signatures_size m : num_signatures m = Z.of_nat (size (signed_keys m)).
Proof.
  unfold num_signatures, signed_keys. rewrite size_dom, <- (count_btree_list has_signature).
  f_equal. apply map_ext. by intros [k [s|]].
Qed.

Lemma new_tx_ok payload fee w w' m : new_tx payload fee w = (w', m) ->
  multisig_ok (wl_public_keys w) m /\ signed_keys m = ∅.
Proof.
  unfold new_tx, as_unsigned_tx_auth. intros [= <- <-]. split; [constructor|]; cbn; [done|done|apply dom_gset_to_gmap|..].
  - intros k s [_ Hs]%lookup_gset_to_gmap_Some. done.
  - apply set_eq. intros k. rewrite elem_of_signed_keys. cbn. split; [|set_solver].
    intros [s [_ Hs]%lookup_gset_to_gmap_Some]. done.
Qed.

(** A signature counts when it recovers to a key of the wallet. *)
Definition signer_of (keys : gset PublicKey) (d : Z) (s : Sig) : gset PublicKey :=
  match recover s d with Some k => if bool_decide (k ∈ keys) then {[k]} else ∅ | None => ∅ end.

Lemma add_signature_ok keys m s : multisig_ok keys m ->
  let m' := (add_signature s m).1 in
  multisig_ok keys m' /\ mtx_tx m' = mtx_tx m /\ mtx_digest m' = mtx_digest m /\
  signed_keys m' = signed_keys m ∪ signer_of keys (mtx_digest m) s /\
  (is_ok (add_signature s m).2 = true <-> exists k, recover s (mtx_digest m) = Some k /\ k ∈ keys).
Proof.
  intros Hm. unfold add_signature, recover_ecdsa, signer_of. destruct (recover s (mtx_digest m)) as [k|] eqn:Hr; cbn [ok_or].
  2:{ cbn. split_and!; try done; [set_solver|]. split; [done|]. by intros (k & ? & _). }
  pose proof (mo_keys _ _ Hm) as Hk. destruct (mtx_signatures m !! k) as [o|] eqn:Ho; cbn.
  - assert (k ∈ keys) as Hin by (rewrite <- Hk; apply elem_of_dom; eauto). rewrite bool_decide_true by done.
    split_and!; try done; [|apply set_eq; intros k'; rewrite elem_of_union, elem_of_singleton, !elem_of_signed_keys; cbn|split; eauto].
    + constructor; cbn; [apply Hm..| |].
      * rewrite dom_insert_L, Hk. set_solver.
      * intros k' s'. destruct (decide (k' = k)) as [->|Hne]; [rewrite lookup_insert_eq; by intros [= <-]|].
        rewrite lookup_insert_ne by done. apply Hm.
    + destruct (decide (k' = k)) as [->|Hne]; [rewrite lookup_insert_eq|rewrite lookup_insert_ne by done]; naive_solver.
  - assert (k ∉ keys) as Hin by (rewrite <- Hk; by apply not_elem_of_dom). rewrite bool_decide_false by done.
    split_and!; try done; [set_solver|]. split; [done|]. intros (k' & [= <-] & ?). done.
Qed.

Lemma add_signatures_ok keys sigs : forall m, multisig_ok keys m ->
  let m' := add_signatures sigs m in
  multisig_ok keys m' /\ mtx_tx m' = mtx_tx m /\ mtx_digest m' = mtx_digest m /\
  signed_keys m' = signed_keys m ∪ ⋃ map (signer_of keys (mtx_digest m)) sigs.
Proof.
  induction sigs as [|s sigs IH]; intros m Hm; cbn; [split_and!; try done; set_solver|].
  destruct (add_signature_ok keys m s Hm) as (Hm1 & Ht1 & Hd1 & Hs1 & _).
  destruct (IH _ Hm1) as (Hm2 & Ht2 & Hd2 & Hs2). unfold add_signatures in *. cbn [foldl].
  split_and!; [done|congruence|congruence|]. rewrite Hs2, Hs1, Hd1. set_solver.
Qed.

(** *** The finalized transaction *)
Definition entry_field (e : PublicKey * option Sig) : AuthField Sig := match e.2 with Some s => FieldSignature s | None => FieldPublicKey e.1 end.
Lemma finalize_fields m : finalize_transaction m =
  set_auth (set_fields (sc_fields (stx_auth (mtx_tx m)) ++ map entry_field (btree_list (mtx_signatures m))) (stx_auth (mtx_tx m))) (mtx_tx m).
Proof.
  unfold finalize_transaction. f_equal. generalize (stx_auth (mtx_tx m)). induction (btree_list (mtx_signatures m)) as [|[k o] l IH]; intros c; cbn.
  - rewrite app_nil_r. by destruct c.
  - rewrite IH. destruct o; cbn; by rewrite <- app_assoc.
Qed.

Lemma digest_set_fields `{!StacksLaws} fields (tx : Tx) : digest (set_auth (set_fields fields (stx_auth tx)) tx) = digest tx.
Proof.
  unfold digest. cbn. f_equal. f_equal. unfold set_auth. cbn. f_equal. by apply initial_sighash_auth_clears.
Qed.

(** The check of a Stacks node on an order independent multi-sig transaction:
    the keys given, or recovered from the signatures, are those of the address,
    and enough of them signed. *)
Definition field_key (d : Z) (f : AuthField Sig) : option PublicKey := match f with FieldPublicKey k => Some k | FieldSignature s => recover s d end.
Definition is_signature (f : AuthField Sig) : bool := match f with FieldSignature _ => true | _ => false end.
Definition node_verifies (tx : Tx) : bool :=
  let auth := stx_auth tx in
  match mapM (field_key (digest tx)) (sc_fields auth) with
  | Some keys =>
      bool_decide (option_map address_bytes (from_public_keys (stx_mainnet tx) (sc_signatures_required auth) keys) = Some (sc_signer auth)) &&
      (sc_signatures_required auth <=? zlen (List.filter is_signature (sc_fields auth)))
  | None => false
  end.

Lemma fields_keys `{!StacksLaws} keys m : multisig_ok keys m ->
  mapM (field_key (mtx_digest m)) (map entry_field (btree_list (mtx_signatures m))) = Some (btree_keys keys).
Proof.
  intros Hm. apply mapM_Some_2. rewrite Forall2_fmap_l. rewrite <- (btree_list_keys (mtx_signatures m) (btree_keys keys)).
  - rewrite Forall2_fmap_r. apply Forall_Forall2_diag, Forall_forall. intros [k o] He%elem_of_btree_list. destruct o as [s|]; [|done]. cbn.
    by apply (mo_recover _ _ Hm).
  - apply btree_keys_ssorted.
  - intros i. by rewrite elem_of_btree_keys, <- (mo_keys _ _ Hm), elem_of_dom.
Qed.

Lemma fields_signatures m : zlen (List.filter is_signature (map entry_field (btree_list (mtx_signatures m)))) = num_signatures m.
Proof.
  unfold num_signatures. induction (btree_list (mtx_signatures m)) as [|[k [s|]] l IH]; [done| |]; cbn [map entry_field fst snd List.filter is_signature zsum foldr].
  - rewrite zlen_cons, IH. done.
  - rewrite IH. done.
Qed.

Lemma finalized_verifies `{!StacksLaws} keys m : multisig_ok keys m ->
  let tx := mtx_tx m in
  option_map address_bytes (from_public_keys (stx_mainnet tx) (sc_signatures_required (stx_auth tx)) (btree_keys keys)) = Some (sc_signer (stx_auth tx)) ->
  (node_verifies (finalize_transaction m) = true <-> sc_signatures_required (stx_auth tx) <= num_signatures m).
Proof.
  intros Hm. cbv zeta. intros Ha. rewrite finalize_fields, (mo_fields _ _ Hm). cbn [app]. unfold node_verifies.
  rewrite digest_set_fields, <- (mo_digest _ _ Hm). cbn [set_auth set_fields stx_auth sc_fields stx_mainnet sc_signatures_required sc_signer].
  rewrite (fields_keys _ _ Hm), fields_signatures, Ha, bool_decide_true by done. cbn [andb]. apply Z.leb_le.
Qed.

(** A wallet whose address is that of its keys, as [wallet_new] makes it. *)
Definition wallet_ok (w : SignerWallet) : Prop :=
  from_public_keys (is_mainnet (wl_network_kind w)) (wl_signatures_required w) (btree_keys (wl_public_keys w)) = Some (wl_address w).

(** What [new_tx] fills in. *)
Lemma new_tx_fields payload fee w w' m : new_tx payload fee w = (w', m) ->
  w' = set_nonce ((wl_nonce w + 1) mod 2 ^ 64) w /\
  stx_auth (mtx_tx m) = mkSpendingCondition (address_bytes (wl_address w)) (wl_nonce w) fee [] (wl_signatures_required w) /\
  stx_payload (mtx_tx m) = tx_payload payload /\ stx_mainnet (mtx_tx m) = is_mainnet (wl_network_kind w).
Proof. unfold new_tx, as_unsigned_tx_auth. by intros [= <- <-]. Qed.

Lemma signed_tx_verifies `{!StacksLaws} payload fee w w' m sigs : wallet_ok w -> new_tx payload fee w = (w', m) ->
  let m' := add_signatures sigs m in
  (node_verifies (finalize_transaction m') = true <-> wl_signatures_required w <= num_signatures m').
Proof.
  intros Hw Ht. cbv zeta. apply new_tx_ok in Ht as Hm. destruct Hm as [Hm _]. destruct (add_signatures_ok _ sigs _ Hm) as (Hm' & Htx & _ & _).
  apply new_tx_fields in Ht as (_ & Hauth & _ & Hmn).
  rewrite (finalized_verifies _ _ Hm'); rewrite Htx, Hauth; [done|]. cbn. by rewrite Hmn, Hw.
Qed.

Lemma finalized_fields m sigs : let tx := finalize_transaction (add_signatures sigs m) in
  stx_payload tx = stx_payload (mtx_tx m) /\ sc_signer (stx_auth tx) = sc_signer (stx_auth (mtx_tx m)) /\
  sc_nonce (stx_auth tx) = sc_nonce (stx_auth (mtx_tx m)) /\
  sc_tx_fee (stx_auth tx) = sc_tx_fee (stx_auth (mtx_tx m)).
Proof.
  cbv zeta. rewrite finalize_fields. cbn. assert (mtx_tx (add_signatures sigs m) = mtx_tx m) as ->; [|done].
  revert m. induction sigs as [|s sigs IH]; intros m; [done|]. cbn. unfold add_signatures in IH. rewrite IH. clear IH. unfold add_signature.
  destruct (recover_ecdsa s (mtx_digest m)); [|done..]. by destruct (_ !! _).
Qed.
End WalletLemmas.

(** ** Properties *)

(** Opening a wallet fails exactly when the definition is out of bounds or the
    keys add up to the point at infinity; with at least one signature required
    the address always exists. *)
Lemma wallet_new_ok `{StacksLib} `{!StacksLaws} keys n net nonce :
  let set : gset PublicKey := list_to_set keys in
  is_ok (wallet_new keys n net nonce) = true <->
  n <> 0 /\ n <= Z.of_nat (size set) /\ 0 < Z.of_nat (size set) <= MAX_KEYS /\ is_Some (secp_combine_keys (btree_keys set)).
Proof.
  cbv zeta. split.
  - destruct (wallet_new keys n net nonce) as [w| | |] eqn:Hw; [|done..]. intros _. apply wallet_new_inv in Hw as Hi.
    destruct Hi as (Hk & _ & _ & _ & _ & Hi). rewrite Hk in Hi. destruct Hi as (? & ? & ?). split_and!; try lia.
    unfold wallet_new in Hw. destruct (_ || _ || _) in Hw; [done|]. unfold combine_keys in Hw.
    destruct (secp_combine_keys _); [eauto|done].
  - intros (Hn & Hle & Hs & [agg Ha]). unfold wallet_new. rewrite (proj2 (Z.ltb_ge _ _)) by lia. rewrite (proj2 (Z.eqb_neq _ _)) by lia.
    rewrite (proj2 (Z.ltb_ge _ _)) by lia. rewrite (proj2 (Z.eqb_neq n _)) by lia. cbn [orb]. unfold combine_keys. rewrite Ha. cbn [ok_or mbind outcome_bind].
    destruct (proj2 (from_public_keys_some (is_mainnet net) n (btree_keys (list_to_set keys)))) as [a ->]; [rewrite zlen_btree_keys; lia|done].
Qed.

(** C16: the wallet's transactions verify once enough signers signed. Whatever
    signatures arrive for a transaction of a wallet, in whatever order and
    however often, the number counted is the number of distinct wallet keys with
    a signature that recovers over the transaction's digest; finalizing keeps the
    digest they signed; and the finalized transaction passes the check of a
    Stacks node for the wallet's address exactly when that number reaches the
    wallet's threshold. *)
Theorem multisig_tx_verifies `{StacksLib} `{!StacksLaws} keys n net nonce w payload fee sigs :
  wallet_new keys n net nonce = Ok w ->
  let '(w', m0) := new_tx payload fee w in
  let m := add_signatures sigs m0 in
  let tx := finalize_transaction m in
  wl_nonce w' = (nonce + 1) mod 2 ^ 64 /\ sc_nonce (stx_auth tx) = nonce /\ stx_payload tx = tx_payload payload /\
  digest tx = mtx_digest m0 /\
  num_signatures m = Z.of_nat (size (⋃ map (signer_of (list_to_set keys) (mtx_digest m0)) sigs)) /\
  (node_verifies tx = true <-> n <= num_signatures m).
Proof.
  intros Hw. apply wallet_new_inv in Hw as (Hk & Hn & Hnet & Hno & Ha & _). destruct (new_tx payload fee w) as [w' m0] eqn:Ht.
  pose proof (new_tx_ok _ _ _ _ _ Ht) as [Hm0 Hs0]. cbv zeta. destruct (add_signatures_ok _ sigs _ Hm0) as (Hm & Htx & Hd & Hs).
  destruct (finalized_fields m0 sigs) as (Hp & _ & Hnn & _). pose proof (new_tx_fields _ _ _ _ _ Ht) as (-> & Hauth & Hpl & _).
  rewrite Hp, Hnn, Hauth. split_and!; [cbn; by rewrite Hno|done|done| | |].
  - rewrite finalize_fields, (mo_fields _ _ Hm), digest_set_fields. by rewrite <- (mo_digest _ _ Hm).
  - by rewrite num_signatures_size, Hs, Hs0, union_empty_l_L, Hk.
  - rewrite <- Hn at 1. apply (signed_tx_verifies _ _ _ _ _ _ ltac:(unfold wallet_ok; by subst) Ht).
Qed.

(** ** Witness: signatures that carry their key and digest *)
Module DemoStacks.
Definition poly (l : list Z) : Z := foldl (fun acc x => (acc * 31 + x + 7) mod 1000003) 1 l.
Definition demo_stacks : StacksLib := {|
  RecoverableSignature := Z * Z;
  StacksPrivateKey := Z;
  secp_combine_keys := fun keys => if zsum keys =? 0 then None else Some (zsum keys);
  public_key_of := fun k => k;
  recover := fun s d => if s.2 =? d then Some s.1 else None;
  sign_ecdsa_recoverable := fun k d => (k, d);
  from_public_keys := fun mainnet n keys => if n <=? zlen keys then Some (poly (n :: keys)) else None;
  address_bytes := fun a => a;
  tx_txid := fun tx => poly [if stx_mainnet tx then 1 else 0; sc_signer (stx_auth tx); sc_nonce (stx_auth tx); sc_tx_fee (stx_auth tx);
                             zlen (sc_fields (stx_auth tx)); match stx_payload tx with PayloadContractCall a _ _ args => a + zlen args | _ => 0 end];
  into_initial_sighash_auth := fun c => mkSpendingCondition (sc_signer c) 0 0 [] (sc_signatures_required c);
  make_sighash_presign := fun txid fee nonce => poly [txid; fee; nonce];
  serialized_len := fun tx => 180 + 66 * zlen (sc_fields (stx_auth tx));
  contract_body := contract_name;
  DUMMY_PRIVATE_KEYS := seqZ 1000 128 |}.
Lemma demo_stacks_laws : @StacksLaws demo_stacks.
Proof.
  constructor; cbn.
  - by intros c c' -> ->.
  - intros k d. by rewrite Z.eqb_refl.
  - intros _ n keys. destruct (Z.leb_spec n (zlen keys)) as [Hle|Hlt]; split; intros Hx; first [done|lia|by destruct Hx|eauto].
Qed.
End DemoStacks.

(** Three keys and a threshold of two; a repeated signature and one over
    another digest do not count. *)
Lemma multisig_tx_verifies_witness :
  let lib := DemoStacks.demo_stacks in
  let payload := StacksContractCall (CallRejectWithdrawal (mkRejectWithdrawal (mkQualifiedRequestId 9 0 0) 0 42)) in
  exists w, wallet_new [30; 10; 20] 2 Testnet 5 = Ok w /\
  let m0 := (new_tx payload 180 w).2 in
  let d := mtx_digest m0 in
  let finalized sigs := finalize_transaction (add_signatures sigs m0) in
  node_verifies (finalized [(10, d); (20, d + 1); (10, d)]) = false /\
  num_signatures (add_signatures [(10, d); (20, d + 1); (10, d); (30, d)] m0) = 2 /\
  node_verifies (finalized [(10, d); (20, d + 1); (10, d); (30, d)]) = true.
Proof.
  cbv zeta. destruct (@wallet_new DemoStacks.demo_stacks [30; 10; 20] 2 Testnet 5) as [w| | |] eqn:Hw; [|by vm_compute in Hw..].
  pose proof (fun sigs => @multisig_tx_verifies DemoStacks.demo_stacks DemoStacks.demo_stacks_laws [30; 10; 20] 2 Testnet 5 w
    (StacksContractCall (CallRejectWithdrawal (mkRejectWithdrawal (mkQualifiedRequestId 9 0 0) 0 42))) 180 sigs Hw) as Hv.
  exists w. split; [done|]. vm_compute in Hw. injection Hw as <-. split_and!; [by vm_compute|by vm_compute|].
  apply Hv. by vm_compute.
Defined.
