(* ===== verification/Coordinator.v ===== *)
(** * The transaction coordinator ([signer/src/transaction_coordinator.rs])

    One tenure of the coordinator: deciding whether this signer coordinates,
    running and verifying DKG, deploying contracts, rotating keys, sweeping
    pending requests on bitcoin and answering them on Stacks; with the message
    types of [signer/src/message.rs] and the signals of
    [signer/src/context/messaging.rs].

    Effects. A tenure runs in the monad [st World TenureError]. The world keeps
    the nonce of the wallet (an atomic counter), the [is_epoch3] flag and a log of
    every interaction with the outside: queries, messages sent and received,
    transactions submitted. The database, the nodes, the network and the
    signer's shared state, which other tasks change meanwhile, are the record
    [TenureEnv]: each of its answers may depend on the whole log, so the
    theorems hold however the environment behaves.

    A signal stream is awaited under [tokio::time::timeout]: the environment
    gives the signals that arrive before the deadline, in order, and whether the
    stream then closes or the deadline passes. Gathering loops are structural
    recursions on them, so they end without fuel. *)

From Stdlib Require Import SpecFloat.
From stdpp Require Import strings.
From S2P Require Import Prelude Effects Types Consts WstsNet DkgVerification WstsFrost WstsFire WstsSigner WstsMachines.
From S2P Require Import Bitcoin SignerState Packaging Requests Sweep Validation Contracts StacksSigning Wallet.

(** ** Messages ([message.rs]) *)
Inductive WstsMessageId :=
| IdSweep (txid : Txid)
| IdDkgVerification (k : PublicKey)
| IdDkg (hash : BlockHash).
Record SignerDepositDecision := mkDepositDecision {
  sdd_txid : Txid; sdd_output_index : Z; sdd_can_accept : bool; sdd_can_sign : bool }.
Record SignerWithdrawalDecision := mkWithdrawalDecision {
  swd_request_id : Z; swd_block_hash : BlockHash; swd_txid : StacksTxId; swd_accepted : bool }.

Section Messages.
Context {wc : WstsCrypto} {sl : StacksLib}.

(** The deprecated [last_fees] stands beside the rest of the pre-sign request. *)
Inductive Payload :=
| PayDepositDecision (d : SignerDepositDecision)
| PayWithdrawalDecision (d : SignerWithdrawalDecision)
| PaySignRequest (r : StacksTransactionSignRequest)
| PaySignature (txid : StacksTxId) (signature : RecoverableSignature)
| PayWsts (id : WstsMessageId) (inner : Message)
| PayPreSignRequest (r : BitcoinPreSignRequest) (last_fees : option Fees)
| PayPreSignAck.
(** [Signed<SignerMessage>], its signature verified when it was decoded. *)
Record SignedMessage := mkSignedMessage {
  sm_bitcoin_chain_tip : BlockHash;
  sm_payload : Payload;
  sm_signer_public_key : PublicKey }.

(** ** Signals ([context/messaging.rs]); [SignalOther] is any event that no
    filter of the event loops modelled here lets through. *)
Inductive SignerSignal :=
| SignalShutdown
| SignalP2PPublish (m : SignedMessage)
| SignalMessageReceived (m : SignedMessage)
| SignalTxSignerMessage (m : SignedMessage)
| SignalTxCoordinatorMessage (m : SignedMessage)
| SignalNewRequestsHandled (tip : BitcoinBlockRef)
| SignalBitcoinBlockObserved (tip : BitcoinBlockRef)
| SignalOther.

Definition run_loop_message_filter (s : SignerSignal) : bool :=
  match s with SignalNewRequestsHandled _ | SignalShutdown => true | _ => false end.
Definition signed_message_filter (s : SignerSignal) : bool :=
  match s with SignalTxSignerMessage _ | SignalMessageReceived _ => true | _ => false end.
Definition presign_ack_filter (s : SignerSignal) : bool :=
  match s with SignalTxSignerMessage _ | SignalMessageReceived _ | SignalShutdown => true | _ => false end.
Definition to_signed_message (s : SignerSignal) : option SignedMessage :=
  match s with SignalTxSignerMessage m | SignalMessageReceived m => Some m | _ => None end.
End Messages.

#[global] Instance BitcoinBlockRef_eq_dec : EqDecision BitcoinBlockRef.
Proof. solve_decision. Defined.

(** ** Constants *)
Definition WITHDRAWAL_DUST_LIMIT : Z := 546.
Definition WITHDRAWAL_EXPIRY_BUFFER : Z := 6.
Definition REJECTION_REASON_CONFLICTING_NONCE_IN_MEMPOOL : string := "ConflictingNonceInMempool".
Definition FEE_RETRY_TARGET_BLOCKS : Z :=
  if WITHDRAWAL_EXPIRY_BUFFER <? DEPOSIT_LOCKTIME_BLOCK_BUFFER then WITHDRAWAL_EXPIRY_BUFFER else DEPOSIT_LOCKTIME_BLOCK_BUFFER.

(** ** Database records ([storage/model.rs]) *)
Record SweptDepositRequest := mkSweptDeposit {
  swd_sweep_txid : Txid;
  swd_sweep_block_hash : BlockHash;
  swd_sweep_block_height : Z;
  swd_deposit_txid : Txid;
  swd_output_index : Z;
  swd_recipient : Principal;
  swd_amount : Z }.
Definition deposit_outpoint (r : SweptDepositRequest) : OutPoint := mkOutPoint (swd_deposit_txid r) (swd_output_index r).

(** The columns read here. *)
Record SweptWithdrawalRequest := mkSweptWithdrawal {
  sww_output_index : Z;
  sww_sweep_txid : Txid;
  sww_sweep_block_hash : BlockHash;
  sww_sweep_block_height : Z;
  sww_request_id : Z;
  sww_txid : StacksTxId;
  sww_block_hash : BlockHash }.
Definition withdrawal_outpoint (r : SweptWithdrawalRequest) : OutPoint := mkOutPoint (sww_sweep_txid r) (sww_output_index r).
Definition sww_qualified_id (r : SweptWithdrawalRequest) : QualifiedRequestId :=
  mkQualifiedRequestId (sww_request_id r) (sww_txid r) (sww_block_hash r).

(** ** The libraries this component calls itself *)
Class CoordLib {wc : WstsCrypto} := {
  x_only : PublicKey -> XOnlyPublicKey;                       (* [PublicKeyXOnly::from] *)
  signature_to_vec : SchnorrProof -> list Z;                  (* [Signature::to_vec] of the proof as a taproot signature *)
  verify_with_flags : Script -> Z -> Transaction -> bool }.   (* [bitcoinconsensus::verify_with_flags] *)

Definition u32_from_be_bytes (l : list Z) : Z := foldl (fun acc b => acc * 256 + b) 0 l.

(** ** The mock transaction of DKG verification ([bitcoin/utxo.rs]) *)
Section Mock.
Context {wc : WstsCrypto} {bl : BitcoinLib} {cl : CoordLib}.
Record UnsignedMockTransaction := mkMock { mock_tx : Transaction; mock_utxo : SignerUtxo }.
Definition MOCK_AMOUNT : Z := 0.
(** [OutPoint::null()] *)
Definition null_outpoint : OutPoint := mkOutPoint 0 u32_max.
Definition mock_new (signer_public_key : XOnlyPublicKey) : UnsignedMockTransaction :=
  let utxo := mkSignerUtxo null_outpoint MOCK_AMOUNT signer_public_key in
  mkMock (mkTransaction [signer_as_tx_input utxo dummy_signature] [mkTxOut MOCK_AMOUNT (new_op_return [])]) utxo.
Definition compute_sighash (m : UnsignedMockTransaction) : outcome SweepError Z :=
  ok_or (taproot_sighash (mock_tx m) 0 [signer_as_tx_output (mock_utxo m)] KeySpend) SighashError.
(** Whether the script of the UTXO accepts the transaction with the signature
    as its witness; encoding to memory does not fail. *)
Definition verify_signature (m : UnsignedMockTransaction) (signature : SchnorrProof) : bool :=
  let input := map (fun i => mkTxIn (previous_output i) [signature_to_vec signature]) (tx_input (mock_tx m)) in
  verify_with_flags (txo_script (signer_as_tx_output (mock_utxo m))) MOCK_AMOUNT (mkTransaction input (tx_output (mock_tx m))).
End Mock.

(** ** Errors *)
Section Errors.
Context {wc : WstsCrypto} {po : PartyOps} {ml : MachineLibs}.
Inductive TenureError :=
| TeNoChainTip
| TeMissingAggregateKey (tip : BlockHash)
| TeNoDkgShares
| TeNoKeyRotationEvent
| TeNoStacksChainTip
| TeMissingSignerUtxo
| TeTypeConversion
| TeDkgVerificationFailed (k : PublicKey)
| TeCoordinatorTimeout
| TeSignatureTimeout (txid : StacksTxId)
| TeSignerShutdown
| TeUnexpectedOperationResult (r : OperationResult)
| TeBitcoinConsensus
| TeBitcoinTxMissing (txid : Txid) (block : BlockHash)
| TeOutPointMissing (o : OutPoint)
| TeVoutMissing (txid : Txid) (vout : Z)
| TeStacksTxRejection (reason : string)
| TeMachine (e : MachineError)
| TeWallet (e : WalletError)
| TeSweep (e : SweepError)
| TeContract (e : ContractError)
| TeValidation (e : ValidationError)
| TeElapsed                                                  (* the deadline of a [timeout] has passed *)
| TeClient (n : Z).
End Errors.

(** ** Choosing the coordinator *)
Section Election.
Context {wc : WstsCrypto} {po : PartyOps} {ml : MachineLibs}.

(** [% num_signers] panics on an empty set. *)
Definition coordinator_public_key (bitcoin_chain_tip : BlockHash) (signer_public_keys : gset PublicKey)
    : outcome TenureError (option PublicKey) :=
  let dig := sha256 (hash_bytes bitcoin_chain_tip) in
  let index := u32_from_be_bytes (take 4 dig) in
  let num_signers := Z.of_nat (size signer_public_keys) in
  if num_signers =? 0 then Panic else
  mret (btree_keys signer_public_keys !! Z.to_nat (index mod num_signers)).

Definition given_key_is_coordinator (pub_key : PublicKey) (tip : BlockHash) (signer_public_keys : gset PublicKey)
    : outcome TenureError bool :=
  k ← coordinator_public_key tip signer_public_keys;
  mret (bool_decide (k = Some pub_key)).
End Election.

(** ** The configuration *)
Section Coordinator.
Context {wc : WstsCrypto} {po : PartyOps} {ml : MachineLibs} {bl : BitcoinLib} {sl : StacksLib} {cl : CoordLib}.
Abbreviation StxTx := (StacksTransaction RecoverableSignature).

Record TenureConfig := mkTenureConfig {
  tc_private_key : PrivateKey;
  tc_context_window : Z;
  tc_wallet : WalletConfig;                       (* [network], [bootstrap_signing_set], [bootstrap_signatures_required] *)
  tc_deployer : StacksAddress;
  tc_stacks_fees_max_ustx : Z;
  tc_dkg_min_bitcoin_block_height : option Z;
  tc_dkg_verification_window : Z;
  tc_max_deposits_per_bitcoin_tx : Z;
  tc_fallback_fee : option f64;
  tc_bitcoin_processing_delay : Z }.
Definition tc_bootstrap_signing_set (c : TenureConfig) : gset PublicKey := wc_bootstrap_signing_set (tc_wallet c).
Definition tc_bootstrap_signatures_required (c : TenureConfig) : Z := wc_bootstrap_signatures_required (tc_wallet c).

(** [Context::coordinator_signer_set] *)
Definition coordinator_signer_set (cfg : TenureConfig) (s : SignerState) : gset PublicKey :=
  match st_registry_signing_set_info s with Some info => ssi_signer_set info | None => tc_bootstrap_signing_set cfg end.

(** [should_run_dkg], from the latest non-failed shares and the state read. *)
Definition dkg_decision (cfg : TenureConfig) (latest : option DkgSharesRow) (s : SignerState) (tip : BitcoinBlockRef) : bool :=
  match latest with
  | None => true
  | Some shares =>
      match dr_status shares with Unverified => false | _ =>
      let differs :=
        match st_registry_signing_set_info s with
        | Some info =>
            (negb (ssi_signatures_required info =? tc_bootstrap_signatures_required cfg) ||
             negb (bool_decide (ssi_signer_set info = tc_bootstrap_signing_set cfg))) &&
            (negb (dr_signature_share_threshold shares =? tc_bootstrap_signatures_required cfg) ||
             negb (bool_decide (list_to_set (dr_signer_set_public_keys shares) = tc_bootstrap_signing_set cfg)))
        | None => false
        end in
      if differs then true else
      match tc_dkg_min_bitcoin_block_height cfg with
      | Some dkg_min_height => (dr_started_at_height shares <? dkg_min_height) && (dkg_min_height <=? bbr_block_height tip)
      | None => false
      end
      end
  end.

(** Whether the latest shares need verification, and a key rotation. *)
Definition assert_rotate_key_action (cfg : TenureConfig) (last_dkg : DkgSharesRow) (current_aggregate_key : option PublicKey)
    (tip : BitcoinBlockRef) : outcome TenureError (bool * bool) :=
  let base_needs_rotate_key := negb (bool_decide (Some (dr_aggregate_key last_dkg) = current_aggregate_key)) in
  let max_verification_height := saturating_add 64 (dr_started_at_height last_dkg) (tc_dkg_verification_window cfg) in
  let past_verification_window := max_verification_height <? bbr_block_height tip in
  match dr_status last_dkg with
  | Unverified => mret (negb past_verification_window, base_needs_rotate_key && negb past_verification_window)
  | Verified => mret (base_needs_rotate_key && negb past_verification_window, base_needs_rotate_key)
  | Failed => Err (TeDkgVerificationFailed (dr_aggregate_key last_dkg))
  end.

(** The nonce after a failed submission. *)
Definition adjust_nonce (error : TenureError) (nonce : Z) : Z :=
  match error with
  | TeStacksTxRejection reason =>
      if bool_decide (reason = REJECTION_REASON_CONFLICTING_NONCE_IN_MEMPOOL) then nonce else saturating_sub nonce 1
  | _ => saturating_sub nonce 1
  end.

(** ** Authentication of WSTS messages *)
Definition check_signer_public_key (public_keys : gmap Z Point) (sender : Point) (signer_id : Z) : bool :=
  match public_keys !! signer_id with Some k => bool_decide (sender = k) | None => false end.
Definition authenticate_message (msg : Message) (public_keys : gmap Z Point) (sender : Point) (sender_is_coordinator : bool) : bool :=
  match msg with
  | MsgDkgBegin _ | MsgDkgPrivateBegin _ | MsgDkgEndBegin _ | MsgNonceRequest _ | MsgSignatureShareRequest _ => sender_is_coordinator
  | MsgDkgPublicShares m => check_signer_public_key public_keys sender (dps_signer_id m)
  | MsgDkgPrivateShares m => check_signer_public_key public_keys sender (dvs_signer_id m)
  | MsgDkgEnd m => check_signer_public_key public_keys sender (de_signer_id m)
  | MsgNonceResponse m => check_signer_public_key public_keys sender (nr_signer_id m)
  | MsgSignatureShareResponse m => check_signer_public_key public_keys sender (sr_signer_id m)
  end.

(** ** The trait [WstsCoordinator], as far as rounds are driven through it *)
Class WstsCoordinator (Coord : Type) := {
  wco_config : Coord -> Config;
  wco_process_message : Message -> Coord -> Coord * outcome MachineError (option Message * option OperationResult);
  wco_start_signing_round : list Z -> BlockHash -> SignatureType -> Coord -> Coord * outcome MachineError Message }.
#[local] Instance fire_wsts_coordinator : WstsCoordinator FireCoordinator := {|
  wco_config := fire_config;
  wco_process_message := fire_machine_process;
  wco_start_signing_round := fire_machine_start_signing_round |}.
#[local] Instance frost_wsts_coordinator : WstsCoordinator FrostCoordinator := {|
  wco_config := frost_config;
  wco_process_message := frost_machine_process;
  wco_start_signing_round := fun msg _ t => frost_machine_start_signing_round msg t |}.

(** ** The world *)
Inductive SubmitTxResponse := Acceptance (txid : StacksTxId) | Rejection (reason : string).
Inductive FeePriority := FeeLow | FeeMedium | FeeHigh.

Inductive IoEvent :=
| IoQuery                                                    (* a read of the database, a node or the shared state *)
| IoSleep
| IoSend (m : SignedMessage)
| IoReceive (m : SignedMessage)
| IoSignal                                                   (* a signal to the other tasks of the signer *)
| IoSubmit (tx : StxTx) (r : outcome Z SubmitTxResponse)
| IoBroadcast (tx : Transaction) (r : outcome Z unit)
| IoAcceptDeposits (u : UnsignedTransaction)                 (* updates of Emily, whose outcome is ignored *)
| IoAcceptWithdrawals (u : UnsignedTransaction)
| IoShutdown.
Abbreviation Trace := (list IoEvent).

Record World := mkWorld { w_log : Trace; w_nonce : Z; w_is_epoch3 : bool }.
Abbreviation M := (st World TenureError).

Inductive StreamEnd := StreamClosed | StreamElapsed.

(** An error of the database, a node or the network is its number. *)
Record TenureEnv := mkTenureEnv {
  en_is_nakamoto : Trace -> outcome Z bool;        (* [get_epoch_status], [PostNakamoto] *)
  en_state : Trace -> SignerState;
  en_signals : Trace -> list SignerSignal * StreamEnd;
  en_elapsed : Trace -> bool;                                (* the deadline passed while a message was being sent *)
  en_network_broadcast : Trace -> outcome Z unit;
  en_signal : Trace -> outcome Z unit;
  en_latest_non_failed_shares : Trace -> outcome Z (option DkgSharesRow);
  en_latest_shares : Trace -> outcome Z (option DkgSharesRow);
  en_shares : Trace -> XOnlyPublicKey -> outcome MachineError (option DkgSharesRow);
  en_contract : Trace -> ContractEnv;
  en_validation : Trace -> ValidationEnv;
  en_account_nonce : Trace -> StacksAddress -> outcome Z Z;
  en_estimate_fees : Trace -> SignerWallet -> StacksTx -> FeePriority -> outcome Z Z;
  en_submit_tx : Trace -> StxTx -> outcome Z SubmitTxResponse;
  en_broadcast_transaction : Trace -> Transaction -> outcome Z unit;
  en_estimate_fee_rate : Trace -> Z -> outcome Z f64;
  en_pending_accepted_withdrawals : Trace -> BlockHash -> BlockHash -> Z -> Z -> outcome Z (list ModelWithdrawalRequest);
  en_pending_accepted_deposits : Trace -> BitcoinBlockRef -> Z -> Z -> outcome Z (list ModelDepositRequest);
  en_swept_deposits : Trace -> BlockHash -> BlockHash -> Z -> outcome Z (list SweptDepositRequest);
  en_swept_withdrawals : Trace -> BlockHash -> BlockHash -> Z -> outcome Z (list SweptWithdrawalRequest);
  en_rejected_withdrawals : Trace -> BitcoinBlockRef -> BlockHash -> Z -> outcome Z (list ModelWithdrawalRequest) }.

Variables (cfg : TenureConfig) (env : TenureEnv).

Definition push (e : IoEvent) (w : World) : World := mkWorld (w_log w ++ [e]) (w_nonce w) (w_is_epoch3 w).
Definition emit (e : IoEvent) : M unit := st_modify (push e).
(** A query, answered from the log before it. *)
Definition ask {A} (f : Trace -> outcome TenureError A) : M A := fun w => (push IoQuery w, f (w_log w)).
Definition query {A} (f : Trace -> outcome Z A) : M A := ask (fun t => map_err TeClient (f t)).
Definition read_state : M SignerState := ask (fun t => Ok (en_state env t)).
Definition ask_contract {A} (f : ContractEnv -> outcome ContractError A) : M A := ask (fun t => map_err TeContract (f (en_contract env t))).
Definition ask_validation {A} (f : ValidationEnv -> outcome ValidationError A) : M A :=
  ask (fun t => map_err TeValidation (f (en_validation env t))).
(** [if let Err(error) = m { log }] *)
Definition ignore_error (m : M unit) : M unit := st_catch m (fun _ => Some tt).

(** The shared wallet: its nonce is in the world. *)
Definition with_wallet {A} (f : SignerWallet -> SignerWallet * A) (wallet : SignerWallet) : M A := fun w =>
  let '(wallet', a) := f (set_nonce (w_nonce w) wallet) in
  (mkWorld (w_log w) (wl_nonce wallet') (w_is_epoch3 w), Ok a).
Definition adjust_wallet_nonce (e : TenureError) : M unit :=
  st_modify (fun w => mkWorld (w_log w) (adjust_nonce e (w_nonce w)) (w_is_epoch3 w)).

(** [tokio::time::timeout(d, m).await.map_err(|_| e)?] *)
Definition timeout {A} (e : TenureError) (m : M A) : M A := fun w =>
  match m w with
  | (w', Err TeElapsed) => (w', Err e)
  | r => r
  end.
Definition elapsed : M unit := fun w => if en_elapsed env (w_log w) then (w, Err TeElapsed) else (w, Ok tt).
Definition stream_end {A} (shutdown : bool) (e : StreamEnd) : M A :=
  match e with
  | StreamClosed => (if shutdown then emit IoShutdown else st_ret tt);;; st_throw TeSignerShutdown
  | StreamElapsed => st_throw TeElapsed
  end.
(** The signals of [as_signal_stream(filter)] before the deadline. *)
Definition signal_stream (filter : SignerSignal -> bool) : M (list SignerSignal * StreamEnd) := fun w =>
  let '(signals, e) := en_signals env (w_log w) in (w, Ok (List.filter filter signals, e)).
Definition signed_message_stream : M (list SignedMessage * StreamEnd) :=
  s <- signal_stream signed_message_filter;; st_ret (omap to_signed_message s.1, s.2).

Definition my_public_key : PublicKey := public_of_private (tc_private_key cfg).

Definition send_message (payload : Payload) (tip : BlockHash) : M unit :=
  emit (IoSend (mkSignedMessage tip payload my_public_key));;;
  query (en_network_broadcast env);;;
  emit IoSignal;;;
  query (en_signal env).

(** ** Gathering *)

(** The acknowledgements of a pre-sign request. *)
Fixpoint gather_acks (threshold : Z) (target_tip : BlockHash) (acknowledged : gset PublicKey) (signals : list SignerSignal)
    (e : StreamEnd) : M unit :=
  if threshold <=? Z.of_nat (size acknowledged) then st_ret tt else
  match signals with
  | [] => stream_end false e
  | SignalShutdown :: _ => st_throw TeSignerShutdown
  | signal :: signals =>
      match to_signed_message signal with
      | Some m =>
          emit (IoReceive m);;;
          match sm_payload m with
          | PayPreSignAck =>
              if bool_decide (sm_bitcoin_chain_tip m = target_tip)
              then gather_acks threshold target_tip ({[sm_signer_public_key m]} ∪ acknowledged) signals e
              else gather_acks threshold target_tip acknowledged signals e
          | _ => gather_acks threshold target_tip acknowledged signals e
          end
      | None => gather_acks threshold target_tip acknowledged signals e
      end
  end.

(** The signatures of a Stacks transaction. *)
Fixpoint gather_signatures (txid : StacksTxId) (tip : BlockHash) (required : Z) (messages : list SignedMessage) (e : StreamEnd)
    (multi_tx : MultisigTx) : M StxTx :=
  if required <=? num_signatures multi_tx then st_ret (finalize_transaction multi_tx) else
  match messages with
  | [] => stream_end true e
  | m :: messages =>
      emit (IoReceive m);;;
      if negb (bool_decide (sm_bitcoin_chain_tip m = tip)) then gather_signatures txid tip required messages e multi_tx else
      match sm_payload m with
      | PaySignature txid' signature =>
          if txid' =? txid then gather_signatures txid tip required messages e (add_signature signature multi_tx).1
          else gather_signatures txid tip required messages e multi_tx
      | _ => gather_signatures txid tip required messages e multi_tx
      end
  end.

(** [drive_wsts_state_machine] *)
Section Drive.
Context {Coord : Type} `{!WstsCoordinator Coord}.
Variables (tip : BlockHash) (id : WstsMessageId).

Fixpoint drive (signer_set : gset PublicKey) (messages : list SignedMessage) (e : StreamEnd) (c : Coord) : M OperationResult :=
  match messages with
  | [] => stream_end true e
  | m :: messages =>
      emit (IoReceive m);;;
      if negb (bool_decide (sm_bitcoin_chain_tip m = tip)) then drive signer_set messages e c else
      match sm_payload m with
      | PayWsts _ msg =>
          sender_is_coordinator <- st_lift (given_key_is_coordinator (sm_signer_public_key m) tip signer_set);;
          if negb (authenticate_message msg (cfg_signer_public_keys (wco_config c)) (pubkey_point (sm_signer_public_key m)) sender_is_coordinator)
          then drive signer_set messages e c else
          let '(c', r) := wco_process_message msg c in
          match r with
          | Ok (outbound_message, operation_result) =>
              match outbound_message with
              | Some message => elapsed;;; send_message (PayWsts id message) tip;;; elapsed
              | None => st_ret tt
              end;;;
              match operation_result with
              | Some res => st_ret res
              | None => drive signer_set messages e c'
              end
          | Err _ => drive signer_set messages e c'
          | Panic => st_lift Panic
          | Diverge => st_lift Diverge
          end
      | _ => drive signer_set messages e c
      end
  end.

(** The coordinator signer set is read when driving starts. *)
Definition drive_wsts_state_machine (messages : list SignedMessage) (e : StreamEnd) (c : Coord) : M OperationResult :=
  s <- read_state;; drive (coordinator_signer_set cfg s) messages e c.

Definition coordinate_signing_round (c : Coord) (msg : list Z) (signature_type : SignatureType) : M SchnorrProof :=
  let '(c', outbound) := wco_start_signing_round msg tip signature_type c in
  outbound <- st_lift (map_err TeMachine outbound);;
  send_message (PayWsts id outbound) tip;;;
  s <- signed_message_stream;;
  operation_result <- timeout TeCoordinatorTimeout (drive_wsts_state_machine s.1 s.2 c');;
  match operation_result with
  | ResSignTaproot sig | ResSignSchnorr sig => st_ret sig
  | result => st_throw (TeUnexpectedOperationResult result)
  end.
End Drive.

Definition coordinate_dkg (chain_tip : BitcoinBlockRef) : M PublicKey :=
  c <- st_lift (map_err TeMachine (fire_machine_new (btree_keys (tc_bootstrap_signing_set cfg)) (tc_bootstrap_signatures_required cfg)
         (tc_private_key cfg) (bbr_block_height chain_tip)));;
  let '(c, moved) := fire_move_to CsDkgPublicDistribute c in
  st_lift (map_err (fun e => TeMachine (MeWstsCoordinator e)) moved);;;
  let '(c, outbound) := fire_start_public_shares c in
  outbound <- st_lift (map_err (fun e => TeMachine (MeWstsCoordinator e)) outbound);;
  let tip := bbr_block_hash chain_tip in
  let id := IdDkg tip in
  send_message (PayWsts id outbound) tip;;;
  s <- signed_message_stream;;
  operation_result <- timeout TeCoordinatorTimeout (drive_wsts_state_machine tip id s.1 s.2 c);;
  match operation_result with
  | ResDkg aggregate_key => st_lift (ok_or (pubkey_of_point aggregate_key) (TeMachine MeInvalidPublicKey))
  | result => st_throw (TeUnexpectedOperationResult result)
  end.

(** ** Stacks transactions *)
Definition estimate_stacks_tx_fee (wallet : SignerWallet) (tx : StacksTx) (priority : FeePriority) : M Z :=
  fee <- query (fun t => en_estimate_fees env t wallet tx priority);;
  st_ret (Z.min fee (tc_stacks_fees_max_ustx cfg)).

(** [MultisigTx::new_tx] and the request for its signatures. *)
Definition new_sign_request (aggregate_key : PublicKey) (contract_tx : StacksTx) (tx_fee : Z) (wallet : SignerWallet)
    : M (StacksTransactionSignRequest * MultisigTx) :=
  multi_tx <- with_wallet (new_tx contract_tx tx_fee) wallet;;
  let tx := mtx_tx multi_tx in
  st_ret (mkSignRequest (Some aggregate_key) contract_tx (sc_nonce (stx_auth tx)) (sc_tx_fee (stx_auth tx)) (tx_txid tx), multi_tx).

Definition sign_stacks_transaction (req : StacksTransactionSignRequest) (multi_tx : MultisigTx) (chain_tip : BlockHash)
    (wallet : SignerWallet) : M StxTx :=
  let txid := ssr_txid req in
  send_message (PaySignRequest req) chain_tip;;;
  s <- signed_message_stream;;
  timeout (TeSignatureTimeout txid) (gather_signatures txid chain_tip (wl_signatures_required wallet) s.1 s.2 multi_tx).

Definition process_sign_request (sign_request : StacksTransactionSignRequest) (chain_tip : BlockHash) (multi_tx : MultisigTx)
    (wallet : SignerWallet) : M StacksTxId :=
  tx <- sign_stacks_transaction sign_request multi_tx chain_tip wallet;;
  r <- (fun w => let r := en_submit_tx env (w_log w) tx in (push (IoSubmit tx r) w, Ok r));;
  match r with
  | Ok (Acceptance txid) => st_ret txid
  | Ok (Rejection reason) => st_throw (TeStacksTxRejection reason)
  | Err e => st_throw (TeClient e)
  | Panic => st_lift Panic
  | Diverge => st_lift Diverge
  end.

(** Failing to sign or to submit adjusts the nonce; [fatal] passes the error
    on. *)
Definition process_adjusting (fatal : bool) (sign_request : StacksTransactionSignRequest) (chain_tip : BlockHash) (multi_tx : MultisigTx)
    (wallet : SignerWallet) : M unit := fun w =>
  match process_sign_request sign_request chain_tip multi_tx wallet w with
  | (w', Ok _) => (w', Ok tt)
  | (w', Err e) => (adjust_wallet_nonce e;;; if fatal then st_throw e else st_ret tt) w'
  | (w', Panic) => (w', Panic)
  | (w', Diverge) => (w', Diverge)
  end.

(** *** Deposits *)
Definition construct_deposit_stacks_sign_request (req : SweptDepositRequest) (bitcoin_aggregate_key : PublicKey) (wallet : SignerWallet)
    : M (StacksTransactionSignRequest * MultisigTx) :=
  found <- ask_contract (fun e => ce_get_tx_info e (swd_sweep_txid req) (swd_sweep_block_hash req));;
  tx_info <- st_ok_or found (TeBitcoinTxMissing (swd_sweep_txid req) (swd_sweep_block_hash req));;
  let outpoint := deposit_outpoint req in
  assessed <- st_lift (infallible (txinfo_assess_input_fee tx_info outpoint));;
  assessed_bitcoin_fee <- st_ok_or assessed (TeOutPointMissing outpoint);;
  amount <- st_lift (sub_u (swd_amount req) assessed_bitcoin_fee);;
  let contract_call := StacksContractCall (CallCompleteDeposit (mkCompleteDeposit outpoint amount (swd_recipient req) (tc_deployer cfg)
    (swd_sweep_txid req) (swd_sweep_block_hash req) (swd_sweep_block_height req))) in
  tx_fee <- estimate_stacks_tx_fee wallet contract_call FeeHigh;;
  new_sign_request bitcoin_aggregate_key contract_call tx_fee wallet.

Definition still_at_tip (chain_tip : BitcoinBlockRef) : M bool :=
  s <- read_state;; st_ret (bool_decide (st_bitcoin_chain_tip s = Some chain_tip)).

Definition answer_deposit (chain_tip : BitcoinBlockRef) (wallet : SignerWallet) (key : PublicKey) (req : SweptDepositRequest) : M unit :=
  let outpoint := deposit_outpoint req in
  completed <- st_catch (ask_contract (fun e => ce_is_deposit_completed e (tc_deployer cfg) outpoint)) (fun _ => Some true);;
  if (completed : bool) then st_ret tt else
  r <- st_catch (r <- construct_deposit_stacks_sign_request req key wallet;; st_ret (Some r)) (fun _ => Some None);;
  match r with
  | Some (sign_request, multi_tx) => process_adjusting false sign_request (bbr_block_hash chain_tip) multi_tx wallet
  | None => st_ret tt
  end.

(** Each request while the signer's tip is still the one of the tenure; an
    error in [answer] is logged. *)
Fixpoint for_each_at_tip {A} (chain_tip : BitcoinBlockRef) (answer : A -> M unit) (l : list A) : M bool :=
  match l with
  | [] => st_ret true
  | a :: l =>
      current <- still_at_tip chain_tip;;
      if negb current then st_ret false else
      ignore_error (answer a);;;
      for_each_at_tip chain_tip answer l
  end.

Definition stacks_tip : M BlockHash :=
  s <- read_state;; tip <- st_ok_or (st_stacks_chain_tip s) TeNoStacksChainTip;; st_ret (sbr_block_hash tip).

Definition construct_and_sign_stacks_deposit_response_transactions (chain_tip : BitcoinBlockRef) (wallet : SignerWallet)
    (bitcoin_aggregate_key : PublicKey) : M unit :=
  stacks_chain_tip <- stacks_tip;;
  swept_deposits <- query (fun t => en_swept_deposits env t (bbr_block_hash chain_tip) stacks_chain_tip (tc_context_window cfg));;
  for_each_at_tip chain_tip (answer_deposit chain_tip wallet bitcoin_aggregate_key) swept_deposits;;;
  st_ret tt.

(** *** Withdrawals *)
Definition construct_withdrawal_accept_stacks_sign_request (req : SweptWithdrawalRequest) (bitcoin_aggregate_key : PublicKey)
    (wallet : SignerWallet) : M (StacksTransactionSignRequest * MultisigTx) :=
  found <- ask_contract (fun e => ce_get_tx_info e (sww_sweep_txid req) (sww_sweep_block_hash req));;
  tx_info <- st_ok_or found (TeBitcoinTxMissing (sww_sweep_txid req) (sww_sweep_block_hash req));;
  let outpoint := withdrawal_outpoint req in
  assessed <- st_lift (infallible (txinfo_assess_output_fee tx_info (Z.to_nat (op_vout outpoint))));;
  assessed_bitcoin_fee <- st_ok_or assessed (TeVoutMissing (op_txid outpoint) (op_vout outpoint));;
  let contract_call := StacksContractCall (CallAcceptWithdrawal (mkAcceptWithdrawal (sww_qualified_id req) outpoint assessed_bitcoin_fee 0
    (tc_deployer cfg) (sww_sweep_block_hash req) (sww_sweep_block_height req))) in
  tx_fee <- estimate_stacks_tx_fee wallet contract_call FeeMedium;;
  new_sign_request bitcoin_aggregate_key contract_call tx_fee wallet.

Definition construct_and_sign_withdrawal_accept (chain_tip : BitcoinBlockRef) (wallet : SignerWallet) (key : PublicKey)
    (request : SweptWithdrawalRequest) : M unit :=
  is_completed <- ask_contract (fun e => ce_is_withdrawal_completed e (tc_deployer cfg) (sww_request_id request));;
  if (is_completed : bool) then st_ret tt else
  r <- construct_withdrawal_accept_stacks_sign_request request key wallet;;
  process_adjusting false r.1 (bbr_block_hash chain_tip) r.2 wallet.

Definition construct_withdrawal_reject_stacks_sign_request (req : ModelWithdrawalRequest) (bitcoin_aggregate_key : PublicKey)
    (wallet : SignerWallet) : M (StacksTransactionSignRequest * MultisigTx) :=
  let contract_call := StacksContractCall (CallRejectWithdrawal (mkRejectWithdrawal (mw_qualified_id req) 0 (tc_deployer cfg))) in
  tx_fee <- estimate_stacks_tx_fee wallet contract_call FeeHigh;;
  new_sign_request bitcoin_aggregate_key contract_call tx_fee wallet.

Definition construct_and_sign_withdrawal_reject (chain_tip : BitcoinBlockRef) (wallet : SignerWallet) (key : PublicKey)
    (request : ModelWithdrawalRequest) : M unit :=
  is_completed <- ask_contract (fun e => ce_is_withdrawal_completed e (tc_deployer cfg) (mw_request_id request));;
  if (is_completed : bool) then st_ret tt else
  let qualified_id := mw_qualified_id request in
  withdrawal_inflight <- ask_contract (fun e => ce_is_withdrawal_inflight e qualified_id (bbr_block_hash chain_tip));;
  if (withdrawal_inflight : bool) then st_ret tt else
  withdrawal_is_active <- ask_contract (fun e => ce_is_withdrawal_active e qualified_id chain_tip WITHDRAWAL_MIN_CONFIRMATIONS);;
  if (withdrawal_is_active : bool) then st_ret tt else
  r <- construct_withdrawal_reject_stacks_sign_request request key wallet;;
  process_adjusting false r.1 (bbr_block_hash chain_tip) r.2 wallet.

Definition construct_and_sign_stacks_withdrawal_response_transactions (chain_tip : BitcoinBlockRef) (wallet : SignerWallet)
    (bitcoin_aggregate_key : PublicKey) : M unit :=
  stacks_chain_tip <- stacks_tip;;
  swept_withdrawals <- st_catch (query (fun t => en_swept_withdrawals env t (bbr_block_hash chain_tip) stacks_chain_tip (tc_context_window cfg)))
                         (fun _ => Some []);;
  rejected_withdrawals <- st_catch (query (fun t => en_rejected_withdrawals env t chain_tip stacks_chain_tip (tc_context_window cfg)))
                            (fun _ => Some []);;
  go_on <- for_each_at_tip chain_tip (construct_and_sign_withdrawal_accept chain_tip wallet bitcoin_aggregate_key) swept_withdrawals;;
  if negb go_on then st_ret tt else
  for_each_at_tip chain_tip (construct_and_sign_withdrawal_reject chain_tip wallet bitcoin_aggregate_key) rejected_withdrawals;;;
  st_ret tt.

Definition construct_and_sign_stacks_response_transactions (chain_tip : BitcoinBlockRef) (wallet : SignerWallet)
    (bitcoin_aggregate_key : PublicKey) : M unit :=
  ignore_error (construct_and_sign_stacks_deposit_response_transactions chain_tip wallet bitcoin_aggregate_key);;;
  ignore_error (construct_and_sign_stacks_withdrawal_response_transactions chain_tip wallet bitcoin_aggregate_key).

(** *** Deploying the contracts *)
Definition construct_deploy_contracts_stacks_sign_request (contract_deploy : SmartContract) (bitcoin_aggregate_key : PublicKey)
    (wallet : SignerWallet) : M (StacksTransactionSignRequest * MultisigTx) :=
  tx_fee <- estimate_stacks_tx_fee wallet (StacksSmartContract contract_deploy) FeeHigh;;
  new_sign_request bitcoin_aggregate_key (StacksSmartContract contract_deploy) tx_fee wallet.

Definition deploy_smart_contract (contract_deploy : SmartContract) (chain_tip : BlockHash) (bitcoin_aggregate_key : PublicKey)
    (wallet : SignerWallet) : M unit :=
  deployed <- ask_contract (fun e => is_deployed e contract_deploy (tc_deployer cfg));;
  if (deployed : bool) then st_ret tt else
  r <- construct_deploy_contracts_stacks_sign_request contract_deploy bitcoin_aggregate_key wallet;;
  process_adjusting true r.1 chain_tip r.2 wallet.

Fixpoint deploy_contracts (contracts : list SmartContract) (chain_tip : BlockHash) (wallet : SignerWallet) (key : PublicKey) : M unit :=
  match contracts with
  | [] => st_ret tt
  | c :: contracts => deploy_smart_contract c chain_tip key wallet;;; deploy_contracts contracts chain_tip wallet key
  end.
Definition deploy_smart_contracts (chain_tip : BlockHash) (wallet : SignerWallet) (key : PublicKey) : M unit :=
  deploy_contracts SMART_CONTRACTS chain_tip wallet key.

(** *** Rotating keys *)
Definition perform_dkg_verification (tip : BlockHash) (aggregate_key : PublicKey) : M unit :=
  let x_only_pubkey := x_only aggregate_key in
  frost_coordinator <- ask (fun t => map_err TeMachine (frost_machine_load (en_shares env t) x_only_pubkey (tc_private_key cfg)));;
  let mock_tx := mock_new x_only_pubkey in
  tap_sighash <- st_lift (map_err TeSweep (compute_sighash mock_tx));;
  signature <- coordinate_signing_round tip (IdDkgVerification aggregate_key) frost_coordinator (hash_bytes tap_sighash) (Taproot None);;
  if verify_signature mock_tx signature then st_ret tt else st_throw TeBitcoinConsensus.

Definition construct_and_sign_rotate_key_transaction (tip : BlockHash) (aggregate_key rotate_key_aggregate_key : PublicKey)
    (wallet : SignerWallet) : M StacksTxId :=
  rotate_keys_v1 <- ask_contract (fun e => rotate_keys_load e rotate_key_aggregate_key);;
  let contract_call := StacksContractCall (CallRotateKeys rotate_keys_v1) in
  tx_fee <- estimate_stacks_tx_fee wallet contract_call FeeHigh;;
  r <- new_sign_request aggregate_key contract_call tx_fee wallet;;
  process_sign_request r.1 tip r.2 wallet.

Definition check_and_submit_rotate_key_transaction (chain_tip : BitcoinBlockRef) (wallet : SignerWallet) (aggregate_key : PublicKey)
    : M (option StacksTxId) :=
  last_dkg <- query (en_latest_shares env);;
  match last_dkg with
  | None => st_ret None
  | Some last_dkg =>
      s <- read_state;;
      let current_aggregate_key := option_map ssi_aggregate_key (st_registry_signing_set_info s) in
      needs <- st_lift (assert_rotate_key_action cfg last_dkg current_aggregate_key chain_tip);;
      let '(needs_verification, needs_rotate_key) := needs in
      if negb needs_verification && negb needs_rotate_key then st_ret None else
      (if (needs_verification : bool) then perform_dkg_verification (bbr_block_hash chain_tip) (dr_aggregate_key last_dkg) else st_ret tt);;;
      if (needs_rotate_key : bool) then
        let signing_key := default aggregate_key current_aggregate_key in
        txid <- construct_and_sign_rotate_key_transaction (bbr_block_hash chain_tip) signing_key (dr_aggregate_key last_dkg) wallet;;
        st_ret (Some txid)
      else st_ret None
  end.

(** ** Bitcoin transactions *)

(** NaN becomes one; a rate out of range is clamped. *)
Definition estimate_bitcoin_tx_fee (num_blocks : Z) : M f64 :=
  fee_rate <- query (fun t => en_estimate_fee_rate env t num_blocks);;
  let fee_rate := match fee_rate with S754_nan => f64_of_Z 1 | _ => fee_rate end in
  st_ret (if fee_rate_in_range fee_rate then fee_rate else
          if SFltb fee_rate MIN_BITCOIN_FEE_RATE then MIN_BITCOIN_FEE_RATE else
          if SFltb MAX_BITCOIN_FEE_RATE fee_rate then MAX_BITCOIN_FEE_RATE else fee_rate).

Definition get_btc_state (chain_tip : BlockHash) (aggregate_key : PublicKey) : M SignerBtcState :=
  fee_rate <- estimate_bitcoin_tx_fee 1;;
  found <- ask_validation (fun e => get_signer_utxo e chain_tip);;
  utxo <- st_ok_or found TeMissingSignerUtxo;;
  last_fees <- ask_validation (fun e => assess_mempool_sweep_transaction_fees e utxo);;
  st_ret (mkSignerBtcState utxo fee_rate (x_only aggregate_key) last_fees [84; 51]).

(** *** Pending requests *)
Record GetPendingRequestsParams := mkPendingParams {
  gp_bitcoin_chain_tip : BitcoinBlockRef;
  gp_stacks_chain_tip : BlockHash;
  gp_aggregate_key : PublicKey;
  gp_sbtc_limits : SbtcLimits;
  gp_signature_threshold : Z }.

(** The votes accepted, rejected and missing, counted in [u16]. *)
Definition count_vote (acc : Z * Z * Z) (vote : SignerVote) : outcome TenureError (Z * Z * Z) :=
  let '(accepted, rejected, missing) := acc in
  match is_accepted vote with
  | Some true => n ← add_u 16 accepted 1; mret (n, rejected, missing)
  | Some false => n ← add_u 16 rejected 1; mret (accepted, n, missing)
  | None => n ← add_u 16 missing 1; mret (accepted, rejected, n)
  end.

Section Pending.
Variables (expiry_window expiry_buffer min_confirmations : Z) (params : GetPendingRequestsParams).
Definition min_bitcoin_height : Z := saturating_sub (bbr_block_height (gp_bitcoin_chain_tip params)) expiry_window.

(** The consensus rules on one request, as far as they need no votes. *)
Definition withdrawal_considered (req : ModelWithdrawalRequest) : bool :=
  let min_soft_bitcoin_height := saturating_add 64 min_bitcoin_height expiry_buffer in
  if mw_bitcoin_block_height req <? min_soft_bitcoin_height then false else
  if mw_amount req <? WITHDRAWAL_DUST_LIMIT then false else
  if per_withdrawal_cap (gp_sbtc_limits params) <? mw_amount req then false else
  let num_confirmations := saturating_sub (bbr_block_height (gp_bitcoin_chain_tip params)) (mw_bitcoin_block_height req) in
  if num_confirmations <? min_confirmations then false else true.

Fixpoint filter_withdrawals (requests : list ModelWithdrawalRequest) : M (list WithdrawalRequest) :=
  match requests with
  | [] => st_ret []
  | req :: requests =>
      if negb (withdrawal_considered req) then filter_withdrawals requests else
      votes <- ask_validation (fun e => get_withdrawal_request_signer_votes e (mw_qualified_id req) (gp_aggregate_key params));;
      counts <- st_lift (ofold count_vote (0, 0, 0) votes);;
      let '(num_votes_accepted, _, _) := counts in
      rest <- filter_withdrawals requests;;
      st_ret (if num_votes_accepted <? gp_signature_threshold params then rest else withdrawal_from_model req votes :: rest)
  end.

Definition get_eligible_pending_withdrawal_requests : M (list WithdrawalRequest) :=
  pending <- query (fun t => en_pending_accepted_withdrawals env t (bbr_block_hash (gp_bitcoin_chain_tip params)) (gp_stacks_chain_tip params)
               min_bitcoin_height (gp_signature_threshold params));;
  filter_withdrawals pending.
End Pending.

Fixpoint collect_deposits (params : GetPendingRequestsParams) (requests : list ModelDepositRequest) : M (list DepositRequest) :=
  match requests with
  | [] => st_ret []
  | req :: requests =>
      votes <- ask_validation (fun e => get_deposit_request_signer_votes e (md_outpoint req) (gp_aggregate_key params));;
      rest <- collect_deposits params requests;;
      st_ret (deposit_from_model req votes :: rest)
  end.
Definition get_eligible_pending_deposit_requests (context_window : Z) (params : GetPendingRequestsParams) : M (list DepositRequest) :=
  pending <- query (fun t => en_pending_accepted_deposits env t (gp_bitcoin_chain_tip params) context_window (gp_signature_threshold params));;
  collect_deposits params pending.

Definition get_pending_requests (bitcoin_chain_tip : BitcoinBlockRef) (stacks_chain_tip : BlockHash) (aggregate_key : PublicKey)
    (signer_public_keys : gset PublicKey) : M (option SbtcRequests) :=
  s <- read_state;;
  let sbtc_limits := st_current_limits s in
  let signature_threshold := tc_bootstrap_signatures_required cfg in
  let params := mkPendingParams bitcoin_chain_tip stacks_chain_tip aggregate_key sbtc_limits signature_threshold in
  deposits <- get_eligible_pending_deposit_requests (tc_context_window cfg) params;;
  withdrawals <- get_eligible_pending_withdrawal_requests WITHDRAWAL_BLOCKS_EXPIRY WITHDRAWAL_EXPIRY_BUFFER WITHDRAWAL_MIN_CONFIRMATIONS params;;
  if is_empty deposits && is_empty withdrawals then st_ret None else
  signer_state <- get_btc_state (bbr_block_hash bitcoin_chain_tip) aggregate_key;;
  let num_signers := Z.of_nat (size signer_public_keys) in
  if u16_max <? num_signers then st_throw TeTypeConversion else
  st_ret (Some (mkSbtcRequests deposits withdrawals signer_state signature_threshold num_signers sbtc_limits
                  (tc_max_deposits_per_bitcoin_tx cfg))).

(** *** Pre-signing *)
Definition construct_and_send_bitcoin_presign_request (tip : BlockHash) (state : SignerBtcState) (package : list UnsignedTransaction)
    : M unit :=
  if is_empty package then st_ret tt else
  let request := mkPreSign (map (fun tx => tx_request_ids_from (ut_requests tx)) package) (sb_fee_rate state) in
  send_message (PayPreSignRequest request (sb_last_fees state)) tip;;;
  s <- signal_stream presign_ack_filter;;
  timeout TeCoordinatorTimeout (gather_acks (tc_bootstrap_signatures_required cfg) tip ∅ s.1 s.2).

(** *** Signing and broadcasting *)

(** [input.iter_mut().zip(witness_data)]: inputs beyond the data keep theirs. *)
Fixpoint set_witnesses (inputs : list TxIn) (witness_data : list (list (list Z))) : list TxIn :=
  match inputs, witness_data with
  | i :: inputs, w :: witness_data => mkTxIn (previous_output i) w :: set_witnesses inputs witness_data
  | _, _ => inputs
  end.

(** A FIRE signing round for one input under the key that locks it. *)
Definition sign_input (tip : BlockHash) (txid : Txid) (key : XOnlyPublicKey) (sighash : Z) (t : SignatureType) : M SchnorrProof :=
  fire_coordinator <- ask (fun t => map_err TeMachine (fire_machine_load (en_shares env t) key (tc_private_key cfg)));;
  coordinate_signing_round tip (IdSweep txid) fire_coordinator (hash_bytes sighash) t.

Fixpoint sign_deposits (tip : BlockHash) (txid : Txid) (deposits : list (DepositRequest * Z)) : M (list (list (list Z))) :=
  match deposits with
  | [] => st_ret []
  | (deposit, sighash) :: deposits =>
      signature <- sign_input tip txid (dr_signers_public_key deposit) sighash Schnorr;;
      rest <- sign_deposits tip txid deposits;;
      st_ret (construct_witness_data deposit (signature_to_vec signature) :: rest)
  end.

Definition sign_and_broadcast (tip : BlockHash) (u : UnsignedTransaction) : M UnsignedTransaction :=
  sighashes <- st_lift (map_err TeSweep (construct_digests u));;
  let txid := compute_txid (ut_tx u) in
  signature <- sign_input tip txid (shs_signers_aggregate_key sighashes) (shs_signers sighashes) (Taproot None);;
  deposit_witness <- sign_deposits tip txid (shs_deposits sighashes);;
  let tx := mkTransaction (set_witnesses (tx_input (ut_tx u)) ([signature_to_vec signature] :: deposit_witness)) (tx_output (ut_tx u)) in
  response <- (fun w => let r := en_broadcast_transaction env (w_log w) tx in (push (IoBroadcast tx r) w, map_err TeClient r));;
  st_ret (mkUnsigned (ut_requests u) tx (ut_signer_public_key u) (ut_signer_utxo u) (ut_tx_fee u) (ut_tx_vsize u)).

Fixpoint sign_package (tip : BlockHash) (package : list UnsignedTransaction) : M unit :=
  match package with
  | [] => st_ret tt
  | u :: package =>
      u <- sign_and_broadcast tip u;;
      emit (IoAcceptDeposits u);;;
      emit (IoAcceptWithdrawals u);;;
      sign_package tip package
  end.

Definition set_fee_rate (rate : f64) (r : SbtcRequests) : SbtcRequests :=
  let s := sr_signer_state r in
  mkSbtcRequests (sr_deposits r) (sr_withdrawals r) (mkSignerBtcState (sb_utxo s) rate (sb_public_key s) (sb_last_fees s) (sb_magic_bytes s))
    (sr_accept_threshold r) (sr_num_signers r) (sr_sbtc_limits r) (sr_max_deposits_per_bitcoin_tx r).

(** The package at the market fee rate, or at a lower one when that leaves it
    empty. *)
Definition construct_package (pending : SbtcRequests) : M (SbtcRequests * list UnsignedTransaction) :=
  package <- st_lift (map_err TeSweep (construct_transactions pending));;
  if negb (is_empty package) then st_ret (pending, package) else
  retry_fee_rate <- match tc_fallback_fee cfg with
                    | Some fee => st_ret fee
                    | None => estimate_bitcoin_tx_fee FEE_RETRY_TARGET_BLOCKS
                    end;;
  if SFltb retry_fee_rate (sb_fee_rate (sr_signer_state pending)) then
    let pending := set_fee_rate retry_fee_rate pending in
    package <- st_lift (map_err TeSweep (construct_transactions pending));;
    st_ret (pending, package)
  else st_ret (pending, package).

Definition construct_and_sign_bitcoin_sbtc_transactions (chain_tip : BitcoinBlockRef) (aggregate_key : PublicKey)
    (signer_public_keys : gset PublicKey) : M unit :=
  stacks_chain_tip <- stacks_tip;;
  pending <- get_pending_requests chain_tip stacks_chain_tip aggregate_key signer_public_keys;;
  match pending with
  | None => st_ret tt
  | Some pending =>
      p <- construct_package pending;;
      construct_and_send_bitcoin_presign_request (bbr_block_hash chain_tip) (sr_signer_state p.1) p.2;;;
      sign_package (bbr_block_hash chain_tip) p.2
  end.

(** ** The tenure *)
Definition is_epoch3 : M bool := fun w =>
  if w_is_epoch3 w then (w, Ok true) else
  match query (en_is_nakamoto env) w with
  | (w', Ok true) => (mkWorld (w_log w') (w_nonce w') true, Ok true)
  | r => r
  end.

Definition is_coordinator (tip : BlockHash) : M bool :=
  s <- read_state;; st_lift (given_key_is_coordinator my_public_key tip (coordinator_signer_set cfg s)).

Definition get_signer_wallet : M SignerWallet :=
  s <- read_state;;
  wallet <- st_lift (map_err TeWallet (wallet_load (tc_wallet cfg) s));;
  nonce <- query (fun t => en_account_nonce env t (wl_address wallet));;
  st_modify (fun w => mkWorld (w_log w) nonce (w_is_epoch3 w));;;
  st_ret (set_nonce nonce wallet).

Definition should_run_dkg (tip : BitcoinBlockRef) : M bool :=
  latest <- query (en_latest_non_failed_shares env);;
  s <- read_state;;
  st_ret (dkg_decision cfg latest s tip).

(** The aggregate key of the tenure. *)
Definition tenure_aggregate_key (tip : BitcoinBlockRef) (info : option SignerSetInfo) : M PublicKey :=
  should_coordinate_dkg <- should_run_dkg tip;;
  if (should_coordinate_dkg : bool) then fun w =>
    match coordinate_dkg tip w with
    | (w', Err _) => st_ok_or (option_map ssi_aggregate_key info) (TeMissingAggregateKey (bbr_block_hash tip)) w'
    | r => r
    end
  else
    match info with
    | Some info => st_ret (ssi_aggregate_key info)
    | None =>
        shares <- query (en_latest_shares env);;
        st_ok_or (option_map dr_aggregate_key shares) TeNoDkgShares
    end.

(** The second half of [process_new_blocks], as the coordinator. *)
Definition coordinate_tenure (tip : BitcoinBlockRef) : M unit :=
  s <- read_state;;
  let info := st_registry_signing_set_info s in
  aggregate_key <- tenure_aggregate_key tip info;;
  wallet <- get_signer_wallet;;
  s <- read_state;;
  if negb (st_sbtc_contracts_deployed s) then deploy_smart_contracts (bbr_block_hash tip) wallet aggregate_key else
  rotate_key_txid <- check_and_submit_rotate_key_transaction tip wallet aggregate_key;;
  match rotate_key_txid with
  | Some _ => st_ret tt
  | None =>
      signer_public_keys <- st_ok_or (option_map ssi_signer_set info) TeNoKeyRotationEvent;;
      ignore_error (construct_and_sign_bitcoin_sbtc_transactions tip aggregate_key signer_public_keys);;;
      construct_and_sign_stacks_response_transactions tip wallet aggregate_key
  end.

Definition process_new_blocks (tip : BitcoinBlockRef) : M unit :=
  epoch3 <- is_epoch3;;
  if negb epoch3 then st_ret tt else
  coordinator <- is_coordinator (bbr_block_hash tip);;
  if negb coordinator then st_ret tt else
  (if 0 <? tc_bitcoin_processing_delay cfg then emit IoSleep else st_ret tt);;;
  s <- read_state;;
  state_chain_tip <- st_ok_or (st_bitcoin_chain_tip s) TeNoChainTip;;
  if negb (bool_decide (tip = state_chain_tip)) then st_ret tt else
  coordinate_tenure tip.

(** ** The event loop, over the signals of [as_signal_stream]; it ends when the
    stream closes. *)
Fixpoint run (signals : list SignerSignal) : M unit :=
  match signals with
  | [] => st_ret tt
  | SignalShutdown :: _ => st_ret tt
  | SignalNewRequestsHandled tip :: signals =>
      ignore_error (process_new_blocks tip);;;
      emit IoSignal;;;
      query (en_signal env);;;
      run signals
  | _ :: signals => run signals
  end.
End Coordinator.
