(* ===== verification/CoordinatorDemo.v ===== *)
(** * A concrete environment of the transaction coordinator

    Two signers with the keys 10 and 20 and both signatures required, and an
    environment that answers every request for a signature with two of them.
    The tenures below deploy the contracts, or rotate the key. *)

From Stdlib Require Import SpecFloat.
From stdpp Require Import strings.
From S2P Require Import Prelude Effects Types Consts WstsNet DkgVerification WstsFrost FrostVerification WstsFire WstsSigner WstsSignerDkg WstsMachines.
From S2P Require Import Bitcoin SignerState Packaging Requests Sweep Validation Contracts StacksSigning Wallet Coordinator.

Module DemoTenure.
#[export] Existing Instance demo_crypto.
#[export] Existing Instance demo_party.
#[export] Existing Instance demo_libs.
#[export] Existing Instance demo_bitcoin.
#[export] Existing Instance DemoStacks.demo_stacks.
#[export] Instance demo_coord : CoordLib := {|
  x_only := fun k => k;
  signature_to_vec := fun _ => [];
  verify_with_flags := fun _ _ _ => true |}.

Definition keys : gset PublicKey := {[10; 20]}.
Definition tip : BitcoinBlockRef := mkBitcoinBlockRef 900 77.
(** The hash 77 elects the second key. *)
Definition config (private_key : Z) : TenureConfig :=
  mkTenureConfig private_key 1000 (mkWalletConfig Testnet keys 2) 42 500 None 10 25 None 1.
Definition state (deployed : bool) : SignerState :=
  mkSignerState signer_set_default limits_zero (Some (mkSignerSetInfo 4 keys 2)) deployed 0 false (Some tip) (Some (mkStacksBlockRef 8 9)).
(** Verified shares of another key than the registered one. *)
Definition shares : DkgSharesRow := mkDkgSharesRow 5 5 [] [1] [] [10; 20] 2 Verified 70 800.

Definition contract : ContractEnv := {|
  ce_public_key := 20; ce_deployer := 42;
  ce_is_deposit_completed := fun _ _ => Ok false;
  ce_is_withdrawal_completed := fun _ _ => Ok false;
  ce_get_contract_source := fun _ _ => Err StacksNodeNotFound;
  ce_get_tx_info := fun _ _ => Ok None;
  ce_in_canonical_bitcoin_blockchain := fun _ _ => Ok true;
  ce_is_signer_script_pub_key := fun _ => Ok true;
  ce_get_deposit_request := fun _ _ => Ok None;
  ce_get_withdrawal_request_report := fun _ _ _ _ => Ok None;
  ce_is_withdrawal_inflight := fun _ _ => Ok false;
  ce_is_withdrawal_active := fun _ _ _ => Ok false;
  ce_get_encrypted_dkg_shares := fun k => Ok (Some (mkDkgShares k [10; 20] 2 Verified));
  ce_get_latest_encrypted_dkg_shares := Ok None;
  ce_key_rotation_exists := fun _ _ _ _ => Ok false |}.

(** The signatures of both signers for the last request. *)
Fixpoint last_request (log : list IoEvent) : option StacksTransactionSignRequest :=
  match log with
  | [] => None
  | e :: log =>
      match last_request log with
      | Some r => Some r
      | None => match e with IoSend (mkSignedMessage _ (PaySignRequest r) _) => Some r | _ => None end
      end
  end.
Definition signatures (log : list IoEvent) : list SignerSignal :=
  match last_request log, wallet_load (tc_wallet (config 20)) (state false) with
  | Some r, Ok wallet =>
      let m := (new_tx (ssr_contract_tx r) (ssr_tx_fee r) (set_nonce (ssr_nonce r) wallet)).2 in
      let signature k := SignalMessageReceived (mkSignedMessage 77 (PaySignature (ssr_txid r) (k, mtx_digest m)) k) in
      [signature 10; SignalNewRequestsHandled tip; signature 10; signature 20]
  | _, _ => []
  end.

(** The second submission is refused. *)
Definition submission (log : list IoEvent) : outcome Z SubmitTxResponse :=
  if (length (List.filter (fun e => match e with IoSubmit _ _ => true | _ => false end) log) =? 1)%nat then Ok (Rejection "FeeTooLow") else Ok (Acceptance 3).

Definition env (deployed : bool) : TenureEnv := {|
  en_is_nakamoto := fun _ => Ok true;
  en_state := fun _ => state deployed;
  en_signals := fun log => (signatures log, StreamElapsed);
  en_elapsed := fun _ => false;
  en_network_broadcast := fun _ => Ok tt;
  en_signal := fun _ => Ok tt;
  en_latest_non_failed_shares := fun _ => Ok (Some shares);
  en_latest_shares := fun _ => Ok (Some shares);
  en_shares := fun _ _ => Ok (Some shares);
  en_contract := fun _ => contract;
  en_validation := fun _ => demo_env;
  en_account_nonce := fun _ _ => Ok 6;
  en_estimate_fees := fun _ _ _ _ => Ok 800;
  en_submit_tx := fun log _ => submission log;
  en_broadcast_transaction := fun _ _ => Ok tt;
  en_estimate_fee_rate := fun _ _ => Ok (f64_of_Z 5);
  en_pending_accepted_withdrawals := fun _ _ _ _ _ => Ok [];
  en_pending_accepted_deposits := fun _ _ _ _ => Ok [];
  en_swept_deposits := fun _ _ _ _ => Ok [];
  en_swept_withdrawals := fun _ _ _ _ => Ok [];
  en_rejected_withdrawals := fun _ _ _ _ => Ok [] |}.

Definition start : World := mkWorld [] 0 false.
(** The contract names, nonces and fees of the transactions submitted. *)
Definition submitted (w : World) : list (string * Z * Z) :=
  omap (fun e => match e with
    | IoSubmit tx _ => Some (match stx_payload tx with PayloadContractCall _ name _ _ => name | PayloadSmartContract name _ => name end,
                             sc_nonce (stx_auth tx), sc_tx_fee (stx_auth tx))
    | _ => None end) (w_log w).
End DemoTenure.
