(* ===== verification/CoordinatorSafety.v ===== *)
(** * What a tenure may do ([signer/src/transaction_coordinator.rs])

    Theorems about the log a tenure of [Coordinator] leaves: who may act, what
    precedes a broadcast, which Stacks transactions are submitted and with which
    nonces, and which WSTS messages reach the state machine. *)

From Stdlib Require Import SpecFloat.
From stdpp Require Import strings.
From S2P Require Import Prelude Effects Types Consts WstsNet DkgVerification WstsFrost WstsFire WstsSigner WstsMachines.
From S2P Require Import Bitcoin SignerState Packaging Requests Sweep Validation Contracts StacksSigning Wallet Coordinator CoordinatorDemo.

(** ** Which kinds of events an operation adds to the log *)
Section Only.
Context {wc : WstsCrypto} {po : PartyOps} {ml : MachineLibs} {bl : BitcoinLib} {sl : StacksLib} {cl : CoordLib}.
Abbreviation M := (st World TenureError).

(** Which events may occur besides reads: messages, Stacks transactions,
    bitcoin transactions with the updates of Emily; and whether the nonce may
    change. *)
Record kinds := mkKinds { k_talk : bool; k_submit : bool; k_sweep : bool; k_nonce : bool }.
Definition allows (n : kinds) (e : IoEvent) : bool :=
  match e with
  | IoBroadcast _ _ | IoAcceptDeposits _ | IoAcceptWithdrawals _ => k_sweep n
  | IoSubmit _ _ => k_submit n
  | IoSend _ | IoReceive _ | IoSignal | IoShutdown => k_talk n
  | IoQuery | IoSleep => true
  end.
Definition talks (n : kinds) : Prop := k_talk n = true.
Definition spends (n : kinds) : Prop := k_nonce n = true.
Definition submits (n : kinds) : Prop := k_talk n = true /\ k_submit n = true /\ k_nonce n = true.
Definition sweeps (n : kinds) : Prop := k_talk n = true /\ k_sweep n = true.
Lemma submits_talks n : submits n -> talks n.
Proof. by intros []. Qed.
Lemma submits_spends n : submits n -> spends n.
Proof. by intros (_ & _ & ?). Qed.
Lemma sweeps_talks n : sweeps n -> talks n.
Proof. by intros []. Qed.
Definition only {A} (n : kinds) (m : M A) : Prop :=
  forall w, exists new, w_log (m w).1 = w_log w ++ new /\ Forall (fun e => allows n e = true) new /\
    (k_nonce n = false -> w_nonce (m w).1 = w_nonce w).

Lemma only_ret {A} n (a : A) : only n (st_ret a).
Proof. intros w. exists []. by rewrite app_nil_r. Qed.
Lemma only_lift {A} n (o : outcome TenureError A) : only n (st_lift o).
Proof. intros w. exists []. by rewrite app_nil_r. Qed.
Lemma only_ok_or {A} n (o : option A) e : only n (st_ok_or o e).
Proof. apply only_lift. Qed.
Lemma only_throw {A} n e : only n (st_throw (A := A) e).
Proof. intros w. exists []. by rewrite app_nil_r. Qed.
Lemma only_bind {A B} n (m : M A) (k : A -> M B) : only n m -> (forall a, only n (k a)) -> only n (st_bind m k).
Proof.
  intros Hm Hk w. unfold st_bind. specialize (Hm w). destruct (m w) as [w' []]; try done. destruct Hm as (new & Hl & Hf & Hn).
  destruct (Hk a w') as (new' & Hl' & Hf' & Hn'). exists (new ++ new'). cbn in Hl, Hn. rewrite Hl', Hl, app_assoc. split_and!; [done|by apply Forall_app|].
  intros Hs. by rewrite Hn', Hn.
Qed.
Lemma only_same {A B} n (m : M A) (m' : M B) : (forall w, (m w).1 = (m' w).1) -> only n m' -> only n m.
Proof. intros Hs Hm w. rewrite Hs. apply Hm. Qed.
Lemma only_catch {A} n (m : M A) h : only n m -> only n (st_catch m h).
Proof. apply only_same. intros w. unfold st_catch. destruct (m w) as [w' []]; try done. by destruct (h e). Qed.
Lemma only_ignore n (m : M unit) : only n m -> only n (ignore_error m).
Proof. apply only_catch. Qed.
Lemma only_timeout {A} n e (m : M A) : only n m -> only n (timeout e m).
Proof. apply only_same. intros w. unfold timeout. destruct (m w) as [w' [| e' | |]]; try done. by destruct e'. Qed.
Lemma only_emit n e : allows n e = true -> only n (emit e).
Proof. intros He w. exists [e]. split_and!; [done|by repeat constructor|done]. Qed.
Lemma only_ask {A} n (f : list IoEvent -> outcome TenureError A) : only n (ask f).
Proof. intros w. exists [IoQuery]. split_and!; [done|by repeat constructor|done]. Qed.
Lemma only_query {A} n (f : list IoEvent -> outcome Z A) : only n (query f).
Proof. apply only_ask. Qed.
Lemma only_modify_nonce n (f : World -> Z) (g : World -> bool) : spends n -> only n (st_modify (fun w => mkWorld (w_log w) (f w) (g w))).
Proof. intros Hn w. exists []. rewrite app_nil_r. split_and!; [done..|]. unfold spends in Hn. congruence. Qed.
Lemma only_with_wallet {A} n (f : SignerWallet -> SignerWallet * A) wallet : spends n -> only n (with_wallet f wallet).
Proof. intros Hn w. exists []. unfold with_wallet. destruct (f _). rewrite app_nil_r. split_and!; [done..|]. unfold spends in Hn. congruence. Qed.
End Only.

Create HintDb only.
#[global] Hint Resolve submits_talks submits_spends sweeps_talks : only.
#[global] Hint Extern 1 (talks (mkKinds _ _ _ _)) => reflexivity : only.
#[global] Hint Extern 1 (spends (mkKinds _ _ _ _)) => reflexivity : only.
#[global] Hint Resolve only_ret only_lift only_ok_or only_throw only_modify_nonce only_with_wallet : only.

Ltac only_step :=
  match goal with
  | |- forall _, _ => intro
  | |- only _ (st_bind _ _) => apply only_bind
  | |- only _ (st_catch _ _) => apply only_catch
  | |- only _ (ignore_error _) => apply only_ignore
  | |- only _ (timeout _ _) => apply only_timeout
  | |- only _ (ask _) => apply only_ask
  | |- only _ (query _) => apply only_query
  | |- only _ (emit _) => apply only_emit; solve [done | eauto with only | cbn; unfold submits, sweeps in *; tauto]
  | |- only _ (if ?b then _ else _) => destruct b
  | |- only _ (let '(_, _) := ?x in _) => destruct x
  | |- only _ (match ?x with _ => _ end) => destruct x
  | |- _ => solve [eauto with only]
  end.
Ltac only_walk := repeat only_step.

Section OnlyOps.
Context {wc : WstsCrypto} {po : PartyOps} {ml : MachineLibs} {bl : BitcoinLib} {sl : StacksLib} {cl : CoordLib}.
Variables (cfg : TenureConfig) (env : TenureEnv).

Lemma only_ask_contract {A} n (f : ContractEnv -> outcome ContractError A) : only n (ask_contract env f).
Proof. apply only_ask. Qed.
Lemma only_ask_validation {A} n (f : ValidationEnv -> outcome ValidationError A) : only n (ask_validation env f).
Proof. apply only_ask. Qed.
Lemma only_read_state n : only n (read_state env).
Proof. apply only_ask. Qed.
Lemma only_elapsed n : only n (elapsed env).
Proof. intros w. exists []. unfold elapsed. rewrite app_nil_r. by destruct (en_elapsed _ _). Qed.
Lemma only_signal_stream n f : only n (signal_stream env f).
Proof. intros w. exists []. unfold signal_stream. rewrite app_nil_r. by destruct (en_signals _ _). Qed.
Lemma only_send n payload tip : talks n -> only n (send_message cfg env payload tip).
Proof. intros Hn. unfold send_message. only_walk. Qed.
Lemma only_stream_end {A} n b e : talks n -> only n (stream_end (A := A) b e).
Proof. intros Hn. unfold stream_end. only_walk. Qed.
End OnlyOps.
#[global] Hint Resolve only_ask_contract only_ask_validation only_read_state only_elapsed only_signal_stream only_send only_stream_end : only.

Section OnlyRounds.
Context {wc : WstsCrypto} {po : PartyOps} {ml : MachineLibs} {bl : BitcoinLib} {sl : StacksLib} {cl : CoordLib}.
Variables (cfg : TenureConfig) (env : TenureEnv).

Lemma only_messages n : only n (signed_message_stream env).
Proof. unfold signed_message_stream. only_walk. Qed.
Lemma only_gather_acks n threshold tip acked signals e : talks n -> only n (gather_acks threshold tip acked signals e).
Proof.
  intros Hn. revert acked. induction signals as [|s signals IH]; intros acked; cbn [gather_acks]; [only_walk|].
  destruct (threshold <=? _); [apply only_ret|]. destruct s; cbn [to_signed_message]; only_walk; auto.
Qed.
Lemma only_gather_signatures n txid tip required messages e m : talks n -> only n (gather_signatures txid tip required messages e m).
Proof.
  intros Hn. revert m. induction messages as [|s messages IH]; intros m; cbn [gather_signatures]; only_walk; auto.
Qed.
Lemma only_drive {Coord} `{!WstsCoordinator Coord} n tip id set messages e (c : Coord) : talks n ->
  only n (drive cfg env tip id set messages e c).
Proof.
  intros Hn. revert c. induction messages as [|s messages IH]; intros c; cbn [drive]; only_walk; auto.
Qed.
Lemma only_signing_round {Coord} `{!WstsCoordinator Coord} n tip id (c : Coord) msg t : talks n ->
  only n (coordinate_signing_round cfg env tip id c msg t).
Proof. 
  intros Hn. unfold coordinate_signing_round, drive_wsts_state_machine. only_walk; eauto using only_messages, only_drive. 
Qed.
Lemma only_coordinate_dkg n tip : talks n -> only n (coordinate_dkg cfg env tip).
Proof. intros Hn. unfold coordinate_dkg, drive_wsts_state_machine. only_walk; eauto using only_messages, only_drive. Qed.
Lemma only_dkg_verification n tip k : talks n -> only n (perform_dkg_verification cfg env tip k).
Proof. intros Hn. unfold perform_dkg_verification. only_walk; eauto using only_signing_round. Qed.
Lemma only_estimate n wallet tx p : only n (estimate_stacks_tx_fee cfg env wallet tx p).
Proof. unfold estimate_stacks_tx_fee. only_walk. Qed.
Lemma only_new_sign_request n k tx fee wallet : spends n -> only n (new_sign_request k tx fee wallet).
Proof. intros Hn. unfold new_sign_request. only_walk. Qed.
Lemma only_sign_stacks n req m tip wallet : talks n -> only n (sign_stacks_transaction cfg env req m tip wallet).
Proof. intros Hn. unfold sign_stacks_transaction. only_walk; eauto using only_messages, only_gather_signatures. Qed.
Lemma only_process n req tip m wallet : submits n -> only n (process_sign_request cfg env req tip m wallet).
Proof.
  intros Hn. unfold process_sign_request. apply only_bind; [by apply only_sign_stacks, submits_talks|]. intros tx. apply only_bind.
  - intros w. eexists [_]. split_and!; [reflexivity|repeat constructor; apply Hn|done].
  - only_walk.
Qed.
Lemma only_adjusting n fatal req tip m wallet : submits n -> only n (process_adjusting cfg env fatal req tip m wallet).
Proof.
  intros Hn w. unfold process_adjusting. pose proof (only_process n req tip m wallet Hn w) as Hp.
  destruct (process_sign_request _ _ _ _ _ _ w) as [w' []]; try done. destruct Hp as (new & Hl & Hf & Hno). exists new. cbn in Hl. rewrite <- Hl.
  destruct Hn as (_ & _ & Hn). split_and!; [by destruct fatal|done|congruence].
Qed.
End OnlyRounds.
#[global] Hint Resolve only_messages only_gather_acks only_gather_signatures only_drive only_signing_round only_coordinate_dkg
  only_dkg_verification only_estimate only_new_sign_request only_sign_stacks only_process only_adjusting : only.

Section OnlyTenure.
Context {wc : WstsCrypto} {po : PartyOps} {ml : MachineLibs} {bl : BitcoinLib} {sl : StacksLib} {cl : CoordLib}.
Variables (cfg : TenureConfig) (env : TenureEnv).

Lemma only_stacks_tip n : only n (stacks_tip env).
Proof. unfold stacks_tip. only_walk. Qed.
Lemma only_still_at_tip n tip : only n (still_at_tip env tip).
Proof. unfold still_at_tip. only_walk. Qed.
Lemma only_for_each {A} n tip (answer : A -> st World TenureError unit) l : (forall a, only n (answer a)) ->
  only n (for_each_at_tip env tip answer l).
Proof. intros Ha. induction l as [|a l IH]; cbn [for_each_at_tip]; only_walk; auto using only_still_at_tip. Qed.
Lemma only_deposit_request n req k wallet : spends n -> only n (construct_deposit_stacks_sign_request cfg env req k wallet).
Proof. intros Hn. unfold construct_deposit_stacks_sign_request. only_walk. Qed.
Lemma only_accept_request n req k wallet : spends n -> only n (construct_withdrawal_accept_stacks_sign_request cfg env req k wallet).
Proof. intros Hn. unfold construct_withdrawal_accept_stacks_sign_request. only_walk. Qed.
Lemma only_reject_request n req k wallet : spends n -> only n (construct_withdrawal_reject_stacks_sign_request cfg env req k wallet).
Proof. intros Hn. unfold construct_withdrawal_reject_stacks_sign_request. only_walk. Qed.
Lemma only_answer_deposit n tip wallet k req : submits n -> only n (answer_deposit cfg env tip wallet k req).
Proof. intros Hn. unfold answer_deposit. only_walk. by apply only_deposit_request, submits_spends. Qed.
Lemma only_withdrawal_accept n tip wallet k req : submits n -> only n (construct_and_sign_withdrawal_accept cfg env tip wallet k req).
Proof. intros Hn. unfold construct_and_sign_withdrawal_accept. only_walk. by apply only_accept_request, submits_spends. Qed.
Lemma only_withdrawal_reject n tip wallet k req : submits n -> only n (construct_and_sign_withdrawal_reject cfg env tip wallet k req).
Proof. intros Hn. unfold construct_and_sign_withdrawal_reject. only_walk. by apply only_reject_request, submits_spends. Qed.
Lemma only_responses n tip wallet k : submits n -> only n (construct_and_sign_stacks_response_transactions cfg env tip wallet k).
Proof.
  intros Hn. unfold construct_and_sign_stacks_response_transactions, construct_and_sign_stacks_deposit_response_transactions,
    construct_and_sign_stacks_withdrawal_response_transactions.
  only_walk; first [apply only_stacks_tip | apply only_for_each; intros];
    auto using only_answer_deposit, only_withdrawal_accept, only_withdrawal_reject.
Qed.
Lemma only_deploy n tip wallet k : submits n -> only n (deploy_smart_contracts cfg env tip wallet k).
Proof.
  intros Hn. unfold deploy_smart_contracts. induction SMART_CONTRACTS as [|c l IH]; cbn [deploy_contracts]; [apply only_ret|].
  apply only_bind; [|done]. unfold deploy_smart_contract, construct_deploy_contracts_stacks_sign_request. only_walk.
Qed.
Lemma only_rotate_tx n tip k k' wallet : submits n -> only n (construct_and_sign_rotate_key_transaction cfg env tip k k' wallet).
Proof. intros Hn. unfold construct_and_sign_rotate_key_transaction. only_walk. Qed.
Lemma only_rotate n tip wallet k : submits n -> only n (check_and_submit_rotate_key_transaction cfg env tip wallet k).
Proof. intros Hn. unfold check_and_submit_rotate_key_transaction. only_walk; auto using only_rotate_tx. Qed.
Lemma only_fee n blocks : only n (estimate_bitcoin_tx_fee env blocks).
Proof. unfold estimate_bitcoin_tx_fee. only_walk. Qed.
Lemma only_btc_state n tip k : only n (get_btc_state env tip k).
Proof. unfold get_btc_state. only_walk; auto using only_fee. Qed.
Lemma only_filter n window buffer confirmations params l : only n (filter_withdrawals env window buffer confirmations params l).
Proof. induction l; cbn [filter_withdrawals]; only_walk; auto. Qed.
Lemma only_collect n params l : only n (collect_deposits env params l).
Proof. induction l; cbn [collect_deposits]; only_walk; auto. Qed.
Lemma only_pending n tip stip k keys : only n (get_pending_requests cfg env tip stip k keys).
Proof.
  unfold get_pending_requests, get_eligible_pending_deposit_requests, get_eligible_pending_withdrawal_requests.
  only_walk; auto using only_btc_state, only_filter, only_collect.
Qed.
Lemma only_package n pending : only n (construct_package cfg env pending).
Proof. unfold construct_package. only_walk; auto using only_fee. Qed.
Lemma only_presign n tip s package : talks n -> only n (construct_and_send_bitcoin_presign_request cfg env tip s package).
Proof. intros Hn. unfold construct_and_send_bitcoin_presign_request. only_walk. Qed.
Lemma only_sign_input n tip txid k h t : talks n -> only n (sign_input cfg env tip txid k h t).
Proof. intros Hn. unfold sign_input. only_walk. Qed.
Lemma only_sign_deposits n tip txid l : talks n -> only n (sign_deposits cfg env tip txid l).
Proof. intros Hn. induction l as [|[d h] l IH]; cbn [sign_deposits]; only_walk; auto using only_sign_input. Qed.
Lemma only_sign_package n tip package : sweeps n -> only n (sign_package cfg env tip package).
Proof.
  intros Hn. induction package as [|u package IH]; cbn [sign_package]; [apply only_ret|]. apply only_bind; [|only_walk].
  unfold sign_and_broadcast. only_walk; try (apply only_sign_input || apply only_sign_deposits; eauto with only).
  intros w. eexists [_]. split_and!; [reflexivity|repeat constructor; apply Hn|done].
Qed.
Lemma only_sbtc n tip k keys : sweeps n -> only n (construct_and_sign_bitcoin_sbtc_transactions cfg env tip k keys).
Proof.
  intros Hn. unfold construct_and_sign_bitcoin_sbtc_transactions.
  only_walk; first [apply only_stacks_tip|apply only_pending|apply only_package|apply only_presign|apply only_sign_package]; by eauto with only.
Qed.
Lemma only_epoch n : only n (is_epoch3 env).
Proof.
  intros w. unfold is_epoch3. destruct (w_is_epoch3 w); [exists []; by rewrite app_nil_r|].
  exists [IoQuery]. unfold query, ask. destruct (en_is_nakamoto env (w_log w)) as [[]| | |]; (split_and!; [done|by repeat constructor|done]).
Qed.
Lemma only_is_coordinator n tip : only n (is_coordinator cfg env tip).
Proof. unfold is_coordinator. only_walk. Qed.
Lemma only_wallet n : spends n -> only n (get_signer_wallet cfg env).
Proof. intros Hn. unfold get_signer_wallet. only_walk. Qed.
Lemma only_tenure_key n tip info : talks n -> only n (tenure_aggregate_key cfg env tip info).
Proof.
  intros Hn. unfold tenure_aggregate_key, should_run_dkg. only_walk. intros w. pose proof (only_coordinate_dkg cfg env n tip Hn w) as Hd.
  by destruct (coordinate_dkg cfg env tip w) as [w' []].
Qed.
Lemma only_tenure tip : only (mkKinds true true true true) (coordinate_tenure cfg env tip).
Proof.
  unfold coordinate_tenure. only_walk;
    first [apply only_tenure_key|apply only_wallet|apply only_deploy|apply only_rotate|apply only_sbtc|apply only_responses]; done.
Qed.
Lemma only_process_new_blocks tip : only (mkKinds true true true true) (process_new_blocks cfg env tip).
Proof. unfold process_new_blocks. only_walk; first [apply only_epoch|apply only_is_coordinator|apply only_tenure]. Qed.
End OnlyTenure.

(** ** Conditions on what precedes an event *)
Section Guarded.
Context {wc : WstsCrypto} {po : PartyOps} {ml : MachineLibs} {bl : BitcoinLib} {sl : StacksLib} {cl : CoordLib}.
Implicit Types (new pre : list IoEvent) (w : World).

(** The events since [l0] satisfy [K]. *)
Definition since (l0 : list IoEvent) (K : list IoEvent -> Prop) w : Prop := exists new, w_log w = l0 ++ new /\ K new.

Lemma since_start l0 (K : list IoEvent -> Prop) w : w_log w = l0 -> K [] -> since l0 K w.
Proof. intros Hl HK. exists []. by rewrite app_nil_r. Qed.

Lemma only_since {A} n (m : st World TenureError A) l0 (K : list IoEvent -> Prop) : only n m ->
  (forall new more, K new -> Forall (fun e => allows n e = true) more -> K (new ++ more)) -> framed (since l0 K) m.
Proof.
  intros Hm HK w (new & Hl & Hk). destruct (Hm w) as (more & Hl' & Hf & _). exists (new ++ more). rewrite Hl', Hl, app_assoc. split; [done|]. by apply HK.
Qed.
Lemma only_guarded {A} n (m : st World TenureError A) l0 G : only n m -> (forall pre e, allows n e = true -> G pre e) -> framed (since l0 (guarded G)) m.
Proof.
  intros Hm HG. apply (only_since n); [done|]. intros new more Hg Hf. apply guarded_app; [done|]. intros pre e He. rewrite Forall_forall in Hf. by apply HG, Hf.
Qed.
End Guarded.

(** ** The coordinator of a tenure *)
Section ElectionLemmas.
Context {wc : WstsCrypto} {po : PartyOps} {ml : MachineLibs}.

Lemma coordinator_panics tip : coordinator_public_key tip ∅ = Panic.
Proof. done. Qed.

(** A non-empty signer set has one coordinator for a tip, a member. *)
Lemma coordinator_exists tip (s : gset PublicKey) : s <> ∅ -> exists k, k ∈ s /\ coordinator_public_key tip s = Ok (Some k).
Proof.
  intros Hs. unfold coordinator_public_key. destruct (Z.eqb_spec (Z.of_nat (size s)) 0) as [Hz|Hz].
  { destruct Hs. apply leibniz_equiv, size_empty_inv. lia. }
  destruct (lookup_lt_is_Some_2 (btree_keys s) (Z.to_nat (u32_from_be_bytes (take 4 (sha256 (hash_bytes tip))) mod Z.of_nat (size s)))) as [k Hk].
  { pose proof (zlen_btree_keys s) as Hl. unfold zlen in Hl. apply Nat2Z.inj in Hl. rewrite Hl.
    pose proof (Z.mod_pos_bound (u32_from_be_bytes (take 4 (sha256 (hash_bytes tip)))) (Z.of_nat (size s))). lia. }
  exists k. rewrite Hk. split; [|done]. apply elem_of_btree_keys. by eapply list_elem_of_lookup_2.
Qed.

Lemma coordinator_unique tip s k k' :
  given_key_is_coordinator k tip s = Ok true -> given_key_is_coordinator k' tip s = Ok true -> k = k'.
Proof.
  unfold given_key_is_coordinator. destruct (coordinator_public_key tip s) as [o| | |]; cbn; [|done..].
  intros H1 H2. injection H1 as H1%bool_decide_eq_true. injection H2 as H2%bool_decide_eq_true. congruence.
Qed.
Lemma elected_member tip s k : given_key_is_coordinator k tip s = Ok true -> k ∈ s.
Proof.
  unfold given_key_is_coordinator, coordinator_public_key. destruct (_ =? 0); [done|]. cbn. intros H. injection H as H%bool_decide_eq_true.
  apply elem_of_btree_keys. by eapply list_elem_of_lookup_2.
Qed.
End ElectionLemmas.

Section Acting.
Context {wc : WstsCrypto} {po : PartyOps} {ml : MachineLibs} {bl : BitcoinLib} {sl : StacksLib} {cl : CoordLib}.

(** The signer read that it is the coordinator for the tip, and that the tip is
    still its own, in answers to a prefix of the log. *)
Record elected (cfg : TenureConfig) (env : TenureEnv) (tip : BitcoinBlockRef) (log : list IoEvent) : Prop := {
  el_coordinator : exists t, t `prefix_of` log /\
    given_key_is_coordinator (my_public_key cfg) (bbr_block_hash tip) (coordinator_signer_set cfg (en_state env t)) = Ok true;
  el_tip : exists t, t `prefix_of` log /\ st_bitcoin_chain_tip (en_state env t) = Some tip }.

Lemma elected_mono cfg env tip log more : elected cfg env tip log -> elected cfg env tip (log ++ more).
Proof. intros [(t & Ht & ?) (t' & Ht' & ?)]. split; [exists t|exists t']; (split; [by apply prefix_app_r|done]). Qed.

(** Reading the state: what was read, from the log before. *)
Lemma hoare_read_state {A} env P (k : SignerState -> st World TenureError A) Q R X :
  (forall s, hoare (fun v' => exists v, P v /\ v' = push IoQuery v /\ s = en_state env (w_log v)) (k s) Q R X) ->
  hoare P (s <- read_state env;; k s) Q R X.
Proof. intros Hk v Hv. apply (Hk (en_state env (w_log v)) (push IoQuery v)). by exists v. Qed.

Lemma framed_elected {A} n cfg env tip (m : st World TenureError A) : only n m -> framed (fun v => elected cfg env tip (w_log v)) m.
Proof. intros Hm v Hv. destruct (Hm v) as (more & -> & _). by apply elected_mono. Qed.

(** A tenure reads only, or coordinates, elected, after reads only. *)
Definition reads (new : list IoEvent) : Prop := Forall (fun e => allows (mkKinds false false false false) e = true) new.
Lemma reads_app new more : reads new -> Forall (fun e => allows (mkKinds false false false false) e = true) more -> reads (new ++ more).
Proof. intros. by apply Forall_app. Qed.
Definition all_outcomes {A} (P : World -> Prop) (m : st World TenureError A) (Q : World -> Prop) : Prop := hoare P m (fun _ => Q) (fun _ => Q) Q.

Lemma all_outcomes_1 {A} P (m : st World TenureError A) Q w : all_outcomes P m Q -> P w -> Q (m w).1.
Proof. intros Hm Hw. specialize (Hm w Hw). by destruct (m w) as [w' []]. Qed.

Lemma hoare_tenure cfg env tip l0 (Q : World -> Prop) :
  (forall v, since l0 reads v -> Q v) ->
  all_outcomes (fun v => since l0 reads v /\ elected cfg env tip (w_log v)) (coordinate_tenure cfg env tip) Q ->
  all_outcomes (since l0 reads) (process_new_blocks cfg env tip) Q.
Proof.
  intros HQ Ht. set (key := my_public_key cfg). unfold process_new_blocks.
  assert (forall A (m : st World TenureError A), only (mkKinds false false false false) m -> framed (since l0 reads) m) as Hr.
  { intros A m Hm. apply (only_since _ m l0 reads Hm), reads_app. }
  eapply hoare_bind with (Q' := fun _ => since l0 reads).
  { eapply hoare_weaken; [apply hoare_framed, Hr, only_epoch|..]; auto. }
  intros []; cbn [negb]; [|apply hoare_ret; auto].
  eapply hoare_bind with (Q' := fun b v => since l0 reads v /\ (b = true -> exists t, t `prefix_of` w_log v /\
    given_key_is_coordinator key (bbr_block_hash tip) (coordinator_signer_set cfg (en_state env t)) = Ok true)).
  { unfold is_coordinator. apply hoare_read_state. intros s. apply hoare_lift. intros v' (v & Hv & -> & ->).
    assert (since l0 reads (push IoQuery v)) by (apply (Hr _ (read_state env)); [apply only_read_state|done]).
    unfold key. destruct (given_key_is_coordinator _ _ _) as [[]| | |] eqn:Hg; auto; split; auto; [|done].
    intros _. exists (w_log v). split; [by apply prefix_app_r|done]. }
  intros []; cbn [negb]; [|apply hoare_ret; intros v [? _]; auto].
  eapply hoare_bind with (Q' := fun _ v => since l0 reads v /\ exists t, t `prefix_of` w_log v /\
    given_key_is_coordinator key (bbr_block_hash tip) (coordinator_signer_set cfg (en_state env t)) = Ok true).
  { intros v [Hv Hc]. destruct (Hc eq_refl) as (t & Hp & Hg). destruct (0 <? tc_bitcoin_processing_delay cfg); cbn.
    - split; [apply (Hr _ (emit IoSleep)); [by apply only_emit|done]|]. exists t. split; [by apply prefix_app_r|done].
    - split; [done|]. by exists t. }
  intros _. apply hoare_read_state. intros s.
  eapply hoare_bind with (Q' := fun state_tip v => since l0 reads v /\ (tip = state_tip -> elected cfg env tip (w_log v))).
  { apply hoare_ok_or. intros v' (v & (Hv & t & Hp & Hg) & -> & ->).
    assert (since l0 reads (push IoQuery v)) by (apply (Hr _ (read_state env)); [apply only_read_state|done]).
    destruct (st_bitcoin_chain_tip (en_state env (w_log v))) as [stip|] eqn:Hs; [|auto]. split; [done|]. intros ->. split.
    - exists t. split; [by apply prefix_app_r|done].
    - exists (w_log v). split; [by apply prefix_app_r|done]. }
  intros stip. destruct (bool_decide_reflect (tip = stip)) as [->|]; cbn [negb]; [|apply hoare_ret; intros v [? _]; auto].
  eapply hoare_weaken; [exact Ht|..]; auto. intros v [? He]. split; auto.
Qed.

Lemma since_reads_start w : since (w_log w) reads w.
Proof. apply since_start; [done|constructor]. Qed.
End Acting.

(** ** Sweeps are acknowledged *)
Section Sweeps.
Context {wc : WstsCrypto} {po : PartyOps} {ml : MachineLibs} {bl : BitcoinLib} {sl : StacksLib} {cl : CoordLib}.

(** Signer [k] acknowledged at the tip, among the events [l]. *)
Definition has_ack (tip : BlockHash) (l : list IoEvent) (k : PublicKey) : Prop :=
  exists m, IoReceive m ∈ l /\ sm_payload m = PayPreSignAck /\ sm_bitcoin_chain_tip m = tip /\ sm_signer_public_key m = k.
Definition acknowledged (tip : BlockHash) (n : Z) (l : list IoEvent) : Prop :=
  exists s : gset PublicKey, n <= Z.of_nat (size s) /\ forall k, k ∈ s -> has_ack tip l k.

Lemma has_ack_app tip l more k : has_ack tip l k -> has_ack tip (l ++ more) k.
Proof. intros (m & Hm & ?). exists m. split; [set_solver|done]. Qed.
Lemma acknowledged_app tip n l more : acknowledged tip n l -> acknowledged tip n (l ++ more).
Proof. intros (s & Hs & Hk). exists s. split; [done|]. intros k ?. by apply has_ack_app, Hk. Qed.

Lemma gather_acks_quorum n tip signals e : forall acked w l0 l,
  w_log w = l0 ++ l -> (forall k, k ∈ acked -> has_ack tip l k) ->
  match gather_acks n tip acked signals e w with
  | (w', Ok _) => exists more, w_log w' = l0 ++ l ++ more /\ acknowledged tip n (l ++ more)
  | _ => True
  end.
Proof.
  induction signals as [|s signals IH]; intros acked w l0 l Hl Hk; cbn [gather_acks];
    (destruct (Z.leb_spec n (Z.of_nat (size acked))); [exists []; rewrite !app_nil_r; split; [done|]; by exists acked|]).
  - by destruct e.
  - assert (forall m k', (k' = acked \/ (k' = {[sm_signer_public_key m]} ∪ acked /\ sm_payload m = PayPreSignAck /\ sm_bitcoin_chain_tip m = tip)) ->
      match gather_acks n tip k' signals e (push (IoReceive m) w) with
      | (w', Ok _) => exists more, w_log w' = l0 ++ l ++ more /\ acknowledged tip n (l ++ more)
      | _ => True
      end) as Hrec.
    { intros m k' Hk'. specialize (IH k' (push (IoReceive m) w) l0 (l ++ [IoReceive m])).
      destruct (gather_acks n tip k' signals e (push (IoReceive m) w)) as [w' [u| | |]]; [|done..].
      destruct IH as (more & Hm & Ha); [cbn; by rewrite Hl, app_assoc| |exists ([IoReceive m] ++ more); by rewrite !app_assoc in *].
      intros k Hin. destruct Hk' as [->|(-> & Hp & Ht)]; [by apply has_ack_app, Hk|].
      apply elem_of_union in Hin as [->%elem_of_singleton|Hin]; [|by apply has_ack_app, Hk]. exists m. split; [set_solver|done]. }
    destruct s as [|m|m|m|m|t|t|]; cbn [to_signed_message]; [done|by apply IH| | |by apply IH..].
    all: unfold st_bind at 1, emit, st_modify; cbn [fst snd].
    all: destruct (sm_payload m) eqn:Hp; try (apply Hrec; by left).
    all: destruct (bool_decide_reflect (sm_bitcoin_chain_tip m = tip)); apply Hrec; [by right|by left].
Qed.

Variables (cfg : TenureConfig) (env : TenureEnv) (tip : BlockHash).

(** The requests of the package were sent to the signers at the tip, and
    afterwards enough of them acknowledged. *)
Definition presigned (package : list UnsignedTransaction) (l : list IoEvent) : Prop :=
  exists pre post request fees,
    l = pre ++ IoSend (mkSignedMessage tip (PayPreSignRequest request fees) (my_public_key cfg)) :: post /\
    ps_request_package request = map (fun u => tx_request_ids_from (ut_requests u)) package /\
    acknowledged tip (tc_bootstrap_signatures_required cfg) post.
Lemma presigned_app package l more : presigned package l -> presigned package (l ++ more).
Proof.
  intros (pre & post & r & f & -> & Hr & Ha). exists pre, (post ++ more), r, f. rewrite <- app_assoc. split_and!; [done|done|by apply acknowledged_app].
Qed.

(** [tx] is the sweep [u] with its witnesses filled in. *)
Definition sweep_of (u : UnsignedTransaction) (tx : Transaction) : Prop :=
  map previous_output (tx_input tx) = map previous_output (tx_input (ut_tx u)) /\ tx_output tx = tx_output (ut_tx u).

Definition sweep_guard (pre : list IoEvent) (e : IoEvent) : Prop :=
  match e with
  | IoBroadcast tx _ => exists pending package u, construct_transactions pending = Ok package /\ u ∈ package /\ sweep_of u tx /\ presigned package pre
  | _ => True
  end.
Abbreviation guard_ok := (guarded sweep_guard).

Lemma sweep_guard_quiet pre n e : k_sweep n = false -> allows n e = true -> sweep_guard pre e.
Proof. intros Hn. destruct e; try done. cbn. congruence. Qed.
Lemma framed_no_sweep {A} l0 (m : st World TenureError A) : only (mkKinds true true false true) m -> framed (since l0 guard_ok) m.
Proof. intros Hm. apply (only_guarded _ m l0 _ Hm). intros pre e. by apply sweep_guard_quiet. Qed.

Lemma set_witnesses_previous inputs ws : map previous_output (set_witnesses inputs ws) = map previous_output inputs.
Proof. revert ws. induction inputs as [|i inputs IH]; intros [|w ws]; cbn; [done..|]. by rewrite IH. Qed.

Lemma presign_acknowledged l0 state package :
  hoare (since l0 guard_ok) (construct_and_send_bitcoin_presign_request cfg env tip state package)
    (fun _ => since l0 (fun new => guard_ok new /\ (package <> [] -> presigned package new)))
    (fun _ => since l0 guard_ok) (since l0 guard_ok).
Proof.
  intros w Hw. pose proof (framed_no_sweep l0 _ (only_presign cfg env _ tip state package (eq_refl : talks (mkKinds true true false true))) w Hw) as Hf.
  destruct (construct_and_send_bitcoin_presign_request cfg env tip state package w) as [w' [[]| | |]] eqn:Hp; [|done..].
  destruct Hf as (new & Hl & Hg). exists new. split; [done|]. split; [done|]. intros Hne. destruct Hw as (new0 & Hl0 & _).
  unfold construct_and_send_bitcoin_presign_request in Hp. destruct package as [|u package]; [done|]. cbn [is_empty] in Hp.
  unfold st_bind at 1 in Hp. set (req := mkPreSign _ _) in Hp. set (m := mkSignedMessage tip (PayPreSignRequest req (sb_last_fees state)) (my_public_key cfg)).
  assert (exists more, w_log (send_message cfg env (PayPreSignRequest req (sb_last_fees state)) tip w).1 = (w_log w ++ [IoSend m]) ++ more) as (more & Hs).
  { set (op := st_bind (query (en_network_broadcast env)) (fun _ => st_bind (emit IoSignal) (fun _ => query (en_signal env)))).
    assert (only (mkKinds true false false false) op) as Ho by (unfold op; only_walk).
    destruct (Ho (push (IoSend m) w)) as (more & Hm & _). by exists more. }
  destruct (send_message cfg env _ tip w) as [w1 [[]| | |]]; [|done..]. cbn [fst] in Hs. unfold st_bind, signal_stream in Hp.
  destruct (en_signals env (w_log w1)) as [sigs e]. unfold timeout in Hp.
  pose proof (gather_acks_quorum (tc_bootstrap_signatures_required cfg) tip (List.filter presign_ack_filter sigs) e ∅ w1 (w_log w ++ [IoSend m]) more Hs ltac:(set_solver)) as Hq.
  cbn [fst snd] in Hp. destruct (gather_acks _ _ _ _ _ w1) as [w2 [[]|[]| |]]; try done. injection Hp as ->.
  destruct Hq as (more' & Hl' & Ha). exists new0, (more ++ more'), req, (sb_last_fees state). split_and!; [|done|done].
  cbn [fst] in Hl. rewrite Hl, Hl0 in Hl'. rewrite <- !app_assoc in Hl'. by apply app_inv_head in Hl'.
Qed.

(** Signing the package in that state. *)
Definition sweeping (pending : SbtcRequests) (package : list UnsignedTransaction) (new : list IoEvent) : Prop := guard_ok new /\ presigned package new.

Lemma framed_sweeping {A} l0 pending package (m : st World TenureError A) : only (mkKinds true true false true) m -> framed (since l0 (sweeping pending package)) m.
Proof.
  intros Hm. apply (only_since _ m _ _ Hm). intros new more [Hg Hp] Hf. split; [|by apply presigned_app].
  apply guarded_app; [done|]. intros pre e He. rewrite Forall_forall in Hf. by eapply sweep_guard_quiet, Hf.
Qed.

Lemma sign_package_ok l0 pending package l : construct_transactions pending = Ok package -> (forall u, u ∈ l -> u ∈ package) ->
  framed (since l0 (sweeping pending package)) (sign_package cfg env tip l).
Proof.
  intros Hc. induction l as [|u l IH]; intros Hin; cbn [sign_package]; [apply framed_ret|].
  apply framed_bind; [|intros u'; apply framed_bind; [|intros _; apply framed_bind; [|intros _; apply IH; set_solver]]].
  - unfold sign_and_broadcast. apply framed_bind; [apply framed_lift|]. intros sh. apply framed_bind; [by apply framed_sweeping, only_sign_input|].
    intros sig. apply framed_bind; [by apply framed_sweeping, only_sign_deposits|]. intros wit. apply framed_bind; [|intros _; apply framed_ret].
    intros w (new & Hl & Hg & Hp). set (tx := mkTransaction _ _). exists (new ++ [IoBroadcast tx (en_broadcast_transaction env (w_log w) tx)]). cbn. rewrite Hl, app_assoc.
    split; [done|]. split; [|by apply presigned_app]. apply guarded_snoc; [done|]. exists pending, package, u. split_and!; [done|apply Hin; by left| |done].
    split; [apply set_witnesses_previous|done].
  - intros w (new & Hl & Hg & Hp). exists (new ++ [IoAcceptDeposits u']). cbn. rewrite Hl, app_assoc. split; [done|]. split; [|by apply presigned_app]. by apply guarded_snoc.
  - intros w (new & Hl & Hg & Hp). exists (new ++ [IoAcceptWithdrawals u']). cbn. rewrite Hl, app_assoc. split; [done|]. split; [|by apply presigned_app]. by apply guarded_snoc.
Qed.

Lemma package_constructed pending w w' p : construct_package cfg env pending w = (w', Ok p) -> construct_transactions p.1 = Ok p.2.
Proof.
  unfold construct_package, st_bind, st_lift, st_ret. destruct (construct_transactions pending) as [package| | |] eqn:Hc; cbn; [|done..].
  destruct (negb (is_empty package)); [by intros [= _ <-]|].
  assert (forall (rate : f64) (v v' : World), (if SFltb rate (sb_fee_rate (sr_signer_state pending)) then
      match construct_transactions (set_fee_rate rate pending) with
      | Ok package => (v, Ok (set_fee_rate rate pending, package)) | Err e => (v, Err (TeSweep e)) | Panic => (v, Panic) | Diverge => (v, Diverge) end
    else (v, Ok (pending, package))) = (v', Ok p) -> construct_transactions p.1 = Ok p.2) as Hr.
  { intros rate v v'. destruct (SFltb _ _); [|by intros [= _ <-]].
    destruct (construct_transactions (set_fee_rate rate pending)) as [package'| | |] eqn:Hc'; [by intros [= _ <-]|done..]. }
  destruct (tc_fallback_fee cfg) as [rate|]; [|destruct (estimate_bitcoin_tx_fee env _ w) as [w1 [rate| | |]]; [|done..]].
  all: intros Hp; eapply (Hr rate); rewrite <- Hp; destruct (SFltb _ _); [|done]; by destruct (construct_transactions (set_fee_rate rate pending)).
Qed.
End Sweeps.

Section SweepTenure.
Context {wc : WstsCrypto} {po : PartyOps} {ml : MachineLibs} {bl : BitcoinLib} {sl : StacksLib} {cl : CoordLib}.
Variables (cfg : TenureConfig) (env : TenureEnv).

Lemma sbtc_guarded l0 tip k keys :
  framed (since l0 (guarded (sweep_guard cfg (bbr_block_hash tip)))) (construct_and_sign_bitcoin_sbtc_transactions cfg env tip k keys).
Proof.
  unfold construct_and_sign_bitcoin_sbtc_transactions. apply framed_bind; [apply framed_no_sweep, only_stacks_tip|]. intros stip.
  apply framed_bind; [apply framed_no_sweep, only_pending|]. intros [pending|]; [|apply framed_ret].
  apply hoare_framed. eapply hoare_bind with (Q' := fun p v => since l0 (guarded (sweep_guard cfg (bbr_block_hash tip))) v /\ construct_transactions p.1 = Ok p.2).
  { intros w Hw. pose proof (framed_no_sweep cfg (bbr_block_hash tip) l0 _ (only_package cfg env _ pending) w Hw) as Hf.
    destruct (construct_package cfg env pending w) as [w' [p| | |]] eqn:Hp; [|done..]. split; [done|]. by eapply package_constructed. }
  intros p. eapply hoare_bind with (Q' := fun _ v => construct_transactions p.1 = Ok p.2 /\
    since l0 (fun new => guarded (sweep_guard cfg (bbr_block_hash tip)) new /\ (p.2 <> [] -> presigned cfg (bbr_block_hash tip) p.2 new)) v).
  { intros w [Hw Hc]. pose proof (presign_acknowledged cfg env (bbr_block_hash tip) l0 (sr_signer_state p.1) p.2 w Hw) as Hp.
    by destruct (construct_and_send_bitcoin_presign_request _ _ _ _ _ w) as [w' []]. }
  intros []. intros w [Hc (new & Hl & Hg & Hp)]. assert (since l0 (guarded (sweep_guard cfg (bbr_block_hash tip))) (sign_package cfg env (bbr_block_hash tip) p.2 w).1) as Hf.
  { destruct (decide (p.2 = [])) as [->|Hne]; [by exists new|].
    assert (since l0 (sweeping cfg (bbr_block_hash tip) p.1 p.2) w) as Hs by (exists new; split; [done|]; split; auto).
    destruct (sign_package_ok cfg env (bbr_block_hash tip) l0 p.1 p.2 p.2 Hc (fun _ Hu => Hu) w Hs) as (new' & Hl' & Hg' & _). by exists new'. }
  by destruct (sign_package cfg env (bbr_block_hash tip) p.2 w) as [w' []].
Qed.

Lemma tenure_sweeps_guarded l0 tip : framed (since l0 (guarded (sweep_guard cfg (bbr_block_hash tip)))) (coordinate_tenure cfg env tip).
Proof.
  unfold coordinate_tenure. apply framed_bind; [apply framed_no_sweep, only_read_state|]. intros s.
  apply framed_bind; [by apply framed_no_sweep, only_tenure_key|]. intros key.
  apply framed_bind; [by apply framed_no_sweep, only_wallet|]. intros wallet.
  apply framed_bind; [apply framed_no_sweep, only_read_state|]. intros s'.
  apply framed_if; [by apply framed_no_sweep, only_deploy|].
  apply framed_bind; [by apply framed_no_sweep, only_rotate|]. intros [txid|]; [apply framed_ret|].
  apply framed_bind; [apply framed_lift|]. intros keys. apply framed_bind; [apply framed_catch, sbtc_guarded|]. intros _.
  by apply framed_no_sweep, only_responses.
Qed.
End SweepTenure.

(** ** What a tenure does *)
Section TenureSafety.
Context {wc : WstsCrypto} {po : PartyOps} {ml : MachineLibs} {bl : BitcoinLib} {sl : StacksLib} {cl : CoordLib}.
Variables (cfg : TenureConfig) (env : TenureEnv) (tip : BitcoinBlockRef).

(** Beyond reading, a tenure needs the election. *)
Lemma acts_elected w :
  since (w_log w) reads (process_new_blocks cfg env tip w).1 \/
  elected cfg env tip (w_log (process_new_blocks cfg env tip w).1).
Proof.
  apply (all_outcomes_1 (since (w_log w) reads) _ (fun v => since (w_log w) reads v \/ elected cfg env tip (w_log v))); [|apply since_reads_start].
  apply hoare_tenure; [by left|].
  eapply hoare_weaken; [apply (hoare_framed (fun v => elected cfg env tip (w_log v))), (framed_elected _ cfg env tip _ (only_tenure cfg env tip))|..]; auto.
  by intros v [_ ?].
Qed.

Lemma elected_key log (set : gset PublicKey) : (forall t, coordinator_signer_set cfg (en_state env t) = set) ->
  elected cfg env tip log -> given_key_is_coordinator (my_public_key cfg) (bbr_block_hash tip) set = Ok true.
Proof. intros Hset [(t & _ & Hg) _]. by rewrite Hset in Hg. Qed.

(** Every broadcast of a tenure is guarded. *)
Lemma tenure_guarded w : since (w_log w) (guarded (sweep_guard cfg (bbr_block_hash tip))) (process_new_blocks cfg env tip w).1.
Proof.
  apply (all_outcomes_1 (since (w_log w) reads) _ (since (w_log w) (guarded (sweep_guard cfg (bbr_block_hash tip))))); [|apply since_reads_start].
  assert (forall v, since (w_log w) reads v -> since (w_log w) (guarded (sweep_guard cfg (bbr_block_hash tip))) v) as Hr.
  { intros v (new & Hl & Hf). exists new. split; [done|]. apply (guarded_app _ [] new); [apply guarded_nil|]. intros pre e He.
    unfold reads in Hf. rewrite Forall_forall in Hf. eapply (sweep_guard_quiet _ _ _ (mkKinds false false false false)); [done|by apply Hf]. }
  apply hoare_tenure; [exact Hr|]. eapply hoare_weaken; [apply hoare_framed, tenure_sweeps_guarded|..]; [intros v [? _]; auto|exact (fun _ _ H => H)..|exact (fun _ H => H)].
Qed.
End TenureSafety.

Section TenureClaims.
Context {wc : WstsCrypto} {po : PartyOps} {ml : MachineLibs} {bl : BitcoinLib} {sl : StacksLib} {cl : CoordLib}.

(** C11: whatever the database, the nodes and the network answer, when two signers
    with different keys agree on the coordinator's signer set and process the same
    bitcoin block, at most one of them acts: the other's tenure only reads (no
    message, no Stacks or bitcoin transaction), and whoever acts is a member of
    that set and saw the block as its own tip. *)
Theorem one_coordinator_acts (cfg cfg' : TenureConfig) (env env' : TenureEnv) (tip : BitcoinBlockRef) (set : gset PublicKey) w w' :
  my_public_key cfg <> my_public_key cfg' ->
  (forall t, coordinator_signer_set cfg (en_state env t) = set) ->
  (forall t, coordinator_signer_set cfg' (en_state env' t) = set) ->
  let v := (process_new_blocks cfg env tip w).1 in
  let v' := (process_new_blocks cfg' env' tip w').1 in
  (since (w_log w) reads v \/ since (w_log w') reads v') /\
  (since (w_log w) reads v \/
   my_public_key cfg ∈ set /\ exists t, t `prefix_of` w_log v /\ st_bitcoin_chain_tip (en_state env t) = Some tip).
Proof.
  intros Hne Hs Hs' v v'. destruct (acts_elected cfg env tip w) as [Hr|He]; [by auto|].
  pose proof (elected_key cfg env tip _ _ Hs He) as Hg. split.
  - destruct (acts_elected cfg' env' tip w') as [Hr|He']; [by right|]. destruct Hne.
    by eapply coordinator_unique, elected_key.
  - right. split; [by eapply elected_member|apply He].
Qed.

(** C3: however the environment behaves, a tenure broadcasts a bitcoin
    transaction only when it is one of the sweeps of a package built from pending
    requests, with the witnesses filled in; the pre-sign request that lists the
    requests of every sweep of that package had been sent at the tip of the
    tenure; and after it, and before the broadcast, at least
    [bootstrap_signatures_required] distinct signers acknowledged it at that
    tip. A tenure that does more than read was elected for the tip. *)
Theorem sweep_broadcast_acknowledged (cfg : TenureConfig) (env : TenureEnv) (tip : BitcoinBlockRef) w :
  let v := (process_new_blocks cfg env tip w).1 in
  since (w_log w) (guarded (sweep_guard cfg (bbr_block_hash tip))) v /\
  (since (w_log w) reads v \/ elected cfg env tip (w_log v)).
Proof. split; [apply tenure_guarded|apply acts_elected]. Qed.
End TenureClaims.

Section Witness.
Import DemoTenure.
(** Signer 20 deploys contracts in the tenure in which signer 10 only reads. *)
Lemma one_coordinator_acts_witness :
  let v := (process_new_blocks (config 10) (env false) tip start).1 in
  let v' := (process_new_blocks (config 20) (env false) tip start).1 in
  since [] reads v /\ (exists m, IoSend m ∈ w_log v').
Proof.
  cbv zeta. set (v' := (process_new_blocks (config 20) (env false) tip start).1).
  assert (exists m, IoSend m ∈ w_log v') as (m & Hm).
  { assert (existsb (fun e => match e with IoSend _ => true | _ => false end) (w_log v') = true) as He by (by vm_compute).
    apply existsb_exists in He as (e & Hin%list_elem_of_In & He). destruct e; try done. eauto. }
  split; [|by exists m].
  destruct (one_coordinator_acts (config 10) (config 20) (env false) (env false) tip keys
    start start ltac:(done) ltac:(done) ltac:(done)) as [[Hr|(new & Hl & Hr)] _]; [done|].
  change (w_log v' = new) in Hl. rewrite Hl in Hm. unfold reads in Hr. rewrite Forall_forall in Hr. by specialize (Hr _ Hm).
Defined.
End Witness.
