(* ===== verification/CoordinatorPending.v ===== *)
(** * The requests a coordinator sweeps ([signer/src/transaction_coordinator.rs])

    The withdrawals that the coordinator selects satisfy the checks that every
    signer makes of a pre-sign request ([signer/src/bitcoin/validation.rs]), for
    as long as the expiry buffer grants. *)

From Stdlib Require Import SpecFloat.
From stdpp Require Import strings.
From S2P Require Import Prelude Effects Types Consts WstsNet DkgVerification WstsFrost WstsFire WstsSigner WstsMachines.
From S2P Require Import Bitcoin SignerState Packaging Requests Sweep Validation Contracts StacksSigning Wallet Coordinator CoordinatorDemo CoordinatorSafety.

(** ** Votes *)
Definition accepting (votes : list SignerVote) : Z := zlen (List.filter (fun v => bool_decide (is_accepted v = Some true)) votes).

Section Votes.
Context {wc : WstsCrypto} {po : PartyOps} {ml : MachineLibs}.
Lemma counted_votes votes r : ofold (E := TenureError) count_vote (0, 0, 0) votes = Ok r -> r.1.1 = accepting votes.
Proof.
  intros Hr. refine (ofold_ind (fun done s => s.1.1 = accepting done) count_vote _ votes [] (0, 0, 0) r eq_refl Hr).
  clear. intros done [[a r] m] v s' Hs. unfold accepting in *. rewrite List.filter_app, zlen_app, <- Hs. cbn [List.filter count_vote fst].
  destruct (is_accepted v) as [[]|]; unfold add_u; (destruct (_ <? _); [|done]); cbn [mbind outcome_bind mret outcome_ret]; intros [= <-];
    case_bool_decide; try done; change (zlen (@nil SignerVote)) with 0; change (zlen [v]) with 1; cbn [fst]; lia.
Qed.
End Votes.

Section Pending.
Context {wc : WstsCrypto} {po : PartyOps} {ml : MachineLibs} {bl : BitcoinLib} {sl : StacksLib} {cl : CoordLib}.
Variables (cfg : TenureConfig) (env : TenureEnv).

(** The rule for a withdrawal of the database, with the votes read. *)
Record eligible (tip_height cap threshold : Z) (m : ModelWithdrawalRequest) (votes : list SignerVote) : Prop := {
  eg_fresh : tip_height - mw_bitcoin_block_height m <= WITHDRAWAL_BLOCKS_EXPIRY - WITHDRAWAL_EXPIRY_BUFFER;
  eg_final : WITHDRAWAL_MIN_CONFIRMATIONS <= tip_height - mw_bitcoin_block_height m;
  eg_dust : WITHDRAWAL_DUST_LIMIT <= mw_amount m;
  eg_cap : mw_amount m <= cap;
  eg_votes : threshold <= accepting votes }.

Lemma considered_spec params m : 0 <= bbr_block_height (gp_bitcoin_chain_tip params) < 2 ^ 64 ->
  withdrawal_considered WITHDRAWAL_BLOCKS_EXPIRY WITHDRAWAL_EXPIRY_BUFFER WITHDRAWAL_MIN_CONFIRMATIONS params m = true ->
  let waited := bbr_block_height (gp_bitcoin_chain_tip params) - mw_bitcoin_block_height m in
  waited <= WITHDRAWAL_BLOCKS_EXPIRY - WITHDRAWAL_EXPIRY_BUFFER /\ WITHDRAWAL_MIN_CONFIRMATIONS <= waited /\
  WITHDRAWAL_DUST_LIMIT <= mw_amount m <= per_withdrawal_cap (gp_sbtc_limits params).
Proof.
  intros Ht. unfold withdrawal_considered, min_bitcoin_height, saturating_add, saturating_sub. set (h := bbr_block_height _) in *.
  unfold WITHDRAWAL_BLOCKS_EXPIRY, WITHDRAWAL_EXPIRY_BUFFER, WITHDRAWAL_MIN_CONFIRMATIONS.
  repeat (match goal with |- context [?a <? ?b] => destruct (Z.ltb_spec a b) end; [done|]). intros _. cbv zeta. lia.
Qed.

Lemma only_prefix {A} n (m : st World TenureError A) w w' r : only n m -> m w = (w', r) -> w_log w `prefix_of` w_log w'.
Proof. intros Hm Hw. destruct (Hm w) as (q & Hq & _). rewrite Hw in Hq. cbn in Hq. rewrite Hq. by apply prefix_app_r. Qed.

(** The votes that selected a request were read before. *)
Definition selected (params : GetPendingRequestsParams) (log : list IoEvent) (m : ModelWithdrawalRequest) (r : WithdrawalRequest) : Prop :=
  exists t votes, t `prefix_of` log /\ get_withdrawal_request_signer_votes (en_validation env t) (mw_qualified_id m) (gp_aggregate_key params) = Ok votes /\
    r = withdrawal_from_model m votes /\
    eligible (bbr_block_height (gp_bitcoin_chain_tip params)) (per_withdrawal_cap (gp_sbtc_limits params)) (gp_signature_threshold params) m votes.

Lemma selected_mono params log log' m r : log `prefix_of` log' -> selected params log m r -> selected params log' m r.
Proof. intros Hl (t & votes & Ht & ?). exists t, votes. split; [by etrans|done]. Qed.

Lemma filter_selected params : 0 <= bbr_block_height (gp_bitcoin_chain_tip params) < 2 ^ 64 -> forall l w w' rs r,
  filter_withdrawals env WITHDRAWAL_BLOCKS_EXPIRY WITHDRAWAL_EXPIRY_BUFFER WITHDRAWAL_MIN_CONFIRMATIONS params l w = (w', Ok rs) -> r ∈ rs ->
  exists m, m ∈ l /\ selected params (w_log w') m r.
Proof.
  intros Ht. induction l as [|m l IH]; intros w w' rs r; cbn [filter_withdrawals]; [intros [= _ <-] Hr; by apply not_elem_of_nil in Hr|].
  assert (forall v, filter_withdrawals env WITHDRAWAL_BLOCKS_EXPIRY WITHDRAWAL_EXPIRY_BUFFER WITHDRAWAL_MIN_CONFIRMATIONS params l v = (w', Ok rs) -> r ∈ rs ->
    exists m', m' ∈ m :: l /\ selected params (w_log w') m' r) as Hskip.
  { intros v Hv Hr. destruct (IH _ _ _ _ Hv Hr) as (m' & ? & ?). exists m'. split; [by right|done]. }
  destruct (withdrawal_considered _ _ _ params m) eqn:Hc; cbn [negb]; [|apply Hskip].
  intros Hf Hr. apply st_bind_ok in Hf as (w1 & votes & Hvotes & Hf). unfold ask_validation, ask in Hvotes.
  destruct (get_withdrawal_request_signer_votes _ _ _) as [vs| | |] eqn:Hv; cbn in Hvotes; [|done..]. injection Hvotes as <- <-.
  apply st_bind_ok in Hf as (w2 & counts & Hcount & Hf). unfold st_lift in Hcount.
  destruct (ofold count_vote (0, 0, 0) vs) as [c| | |] eqn:Hn; [|done..]. injection Hcount as <- <-. apply counted_votes in Hn.
  destruct c as [[accepted x] y]. cbn [fst] in Hn. apply st_bind_ok in Hf as (w3 & rest & Hrest & Hf). injection Hf as <- <-.
  destruct (Z.ltb_spec accepted (gp_signature_threshold params)).
  { destruct (IH _ _ _ _ Hrest Hr) as (m' & ? & ?). exists m'. split; [by right|done]. }
  apply elem_of_cons in Hr as [->|Hr]; [|destruct (IH _ _ _ _ Hrest Hr) as (m' & ? & ?); exists m'; split; [by right|done]].
  exists m. split; [by left|]. exists (w_log w), vs. apply considered_spec in Hc as (? & ? & ? & ?); [|done]. split_and!; [|done|done|split; [done..|lia]].
  etrans; [|eapply (only_prefix (mkKinds false false false false)); [apply only_filter|exact Hrest]]. by apply prefix_app_r.
Qed.

(** The selection of a tenure. *)
Lemma pending_selected tip stip key keys w w' pending r : 0 <= bbr_block_height tip < 2 ^ 64 ->
  get_pending_requests cfg env tip stip key keys w = (w', Ok (Some pending)) -> r ∈ sr_withdrawals pending ->
  exists m, selected (mkPendingParams tip stip key (sr_sbtc_limits pending) (tc_bootstrap_signatures_required cfg)) (w_log w') m r /\
    exists t l, t `prefix_of` w_log w' /\ m ∈ l /\
      en_pending_accepted_withdrawals env t (bbr_block_hash tip) stip (saturating_sub (bbr_block_height tip) WITHDRAWAL_BLOCKS_EXPIRY)
        (tc_bootstrap_signatures_required cfg) = Ok l.
Proof.
  intros Ht Hp Hr. unfold get_pending_requests in Hp. apply st_bind_ok in Hp as (w1 & s & _ & Hp).
  set (params := mkPendingParams tip stip key (st_current_limits s) (tc_bootstrap_signatures_required cfg)) in *.
  apply st_bind_ok in Hp as (w2 & deposits & _ & Hp). apply st_bind_ok in Hp as (w3 & withdrawals & Hw & Hp).
  assert (w_log w3 `prefix_of` w_log w' /\ sr_withdrawals pending = withdrawals /\ sr_sbtc_limits pending = st_current_limits s) as (Hl & Hws & Hlim).
  { destruct (is_empty deposits && is_empty withdrawals); [by injection Hp|]. apply st_bind_ok in Hp as (w4 & st & Hst & Hp).
    destruct (u16_max <? _); [done|]. injection Hp as <- <-. split; [|done].
    eapply (only_prefix (mkKinds false false false false)); [apply only_btc_state|exact Hst]. }
  rewrite Hws in Hr. rewrite Hlim. unfold get_eligible_pending_withdrawal_requests in Hw. apply st_bind_ok in Hw as (w4 & l & Hq & Hw).
  unfold query, ask in Hq. destruct (en_pending_accepted_withdrawals _ _ _ _ _ _) as [l'| | |] eqn:Hdb; cbn in Hq; [|done..]. injection Hq as <- <-.
  destruct (filter_selected params Ht l' _ _ _ r Hw Hr) as (m & Hm & Hs). exists m. split; [by eapply selected_mono|].
  exists (w_log w2), l'. split_and!; [|done|done]. etrans; [|exact Hl].
  etrans; [|eapply (only_prefix (mkKinds false false false false)); [apply only_filter|exact Hw]]. by apply prefix_app_r.
Qed.
End Pending.

(** ** Agreement with the signers *)
Section Agreement.
Context {wc : WstsCrypto} {po : PartyOps} {ml : MachineLibs} {bl : BitcoinLib} {sl : StacksLib} {cl : CoordLib}.

(** What is left of a signer's check: the fee. *)
Definition fee_check (r : WithdrawalRequestReport) (tx : Transaction) (output_index : nat) (tx_fee : Z) : outcome Empty_set WithdrawalValidationResult :=
  assessed ← assess_output_fee tx output_index tx_fee;
  mret match assessed with
       | None => WithdrawalUnknown
       | Some assessed_fee => if wrep_max_fee r <? assessed_fee then WFeeTooHigh else WithdrawalOk
       end.

(** A signer's report on the same request, which it accepted. *)
Record report_of (m : ModelWithdrawalRequest) (r : WithdrawalRequestReport) : Prop := {
  ro_id : wrep_id r = mw_qualified_id m;
  ro_status : wrep_status r = WithdrawalConfirmed;
  ro_accepted : wrep_is_accepted r = Some true;
  ro_amount : wrep_amount r = mw_amount m;
  ro_recipient : wrep_recipient r = mw_recipient m;
  ro_height : wrep_bitcoin_block_height r = mw_bitcoin_block_height m }.

Lemma eligible_validates tip_height cap threshold m votes r h limits i tx fee :
  eligible tip_height cap threshold m votes -> report_of m r -> minimal_non_dust (mw_recipient m) <= WITHDRAWAL_DUST_LIMIT ->
  tip_height <= h <= tip_height + WITHDRAWAL_EXPIRY_BUFFER -> cap <= per_withdrawal_cap limits ->
  validate_withdrawal r h i tx fee limits = fee_check r tx i fee.
Proof.
  intros [Hf Hc Hd Hcap _] [_ Hs Ha Hm Hr Hh] Hdust Hh' Hl. unfold validate_withdrawal, fee_check. rewrite Hs, Ha, Hm, Hr, Hh.
  unfold saturating_sub, WITHDRAWAL_BLOCKS_EXPIRY, WITHDRAWAL_MIN_CONFIRMATIONS, WITHDRAWAL_EXPIRY_BUFFER in *.
  repeat (match goal with |- context [if ?a <? ?b then _ else _] => destruct (Z.ltb_spec a b); [lia|] end).
  destruct (assess_output_fee tx i fee) as [[a|]| | |]; cbn; try done. by destruct (_ <? _).
Qed.

(** C15: every withdrawal that the coordinator puts into a sweep comes from the
    database's list of accepted withdrawals and had at least
    [bootstrap_signatures_required] accepting votes; and at the block of the
    tenure and for the [WITHDRAWAL_EXPIRY_BUFFER] blocks after it, each signer
    that holds a confirmed report of it, accepted it, and has at least the
    coordinator's withdrawal cap, finds nothing to object to but the fee: its
    checks of the amount, dust, confirmations and expiry all pass. The
    recipient is a standard output script, as the recipients of the registry's
    events are, so that the coordinator's dust limit, one for all scripts, is
    not below the script's own ([DustLaw]). *)
Theorem swept_withdrawals_validate `{!DustLaw} (cfg : TenureConfig) (env : TenureEnv) tip stip key keys w w' pending req :
  0 <= bbr_block_height tip < 2 ^ 64 ->
  get_pending_requests cfg env tip stip key keys w = (w', Ok (Some pending)) ->
  req ∈ sr_withdrawals pending ->
  exists m votes, req = withdrawal_from_model m votes /\ tc_bootstrap_signatures_required cfg <= accepting votes /\
    (exists t l, t `prefix_of` w_log w' /\ m ∈ l /\
      en_pending_accepted_withdrawals env t (bbr_block_hash tip) stip (saturating_sub (bbr_block_height tip) WITHDRAWAL_BLOCKS_EXPIRY)
        (tc_bootstrap_signatures_required cfg) = Ok l) /\
    forall r h limits i tx fee, report_of m r -> is_Some (standard_dust (mw_recipient m)) ->
      bbr_block_height tip <= h <= bbr_block_height tip + WITHDRAWAL_EXPIRY_BUFFER ->
      per_withdrawal_cap (sr_sbtc_limits pending) <= per_withdrawal_cap limits ->
      validate_withdrawal r h i tx fee limits = fee_check r tx i fee.
Proof.
  intros Ht Hp Hr. destruct (pending_selected cfg env tip stip key keys w w' pending req Ht Hp Hr) as (m & (t & votes & _ & _ & -> & He) & Hdb).
  exists m, votes. split_and!; [done|apply He|done|]. intros r h limits i tx fee Hm [d Hd] Hh Hl.
  eapply eligible_validates; try done. rewrite (minimal_non_dust_standard _ _ Hd). apply (standard_dust_range _ _ Hd).
Qed.
End Agreement.

(** A withdrawal of block 890 to a taproot address, with two votes, swept at
    block 900. *)
Section Witness.
Import DemoTenure.
Definition demo_withdrawal : ModelWithdrawalRequest := mkModelWithdrawal 1 2 3 (witness_program_script 1 (replicate 32 7)) 20000 20000 [] 890.
Definition withdrawing : TenureEnv := let e := env true in {|
  en_is_nakamoto := en_is_nakamoto e; en_state := fun _ => update_current_limits demo_limits (state true); en_signals := en_signals e;
  en_elapsed := en_elapsed e; en_network_broadcast := en_network_broadcast e; en_signal := en_signal e;
  en_latest_non_failed_shares := en_latest_non_failed_shares e; en_latest_shares := en_latest_shares e; en_shares := en_shares e;
  en_contract := en_contract e; en_validation := en_validation e; en_account_nonce := en_account_nonce e; en_estimate_fees := en_estimate_fees e;
  en_submit_tx := en_submit_tx e; en_broadcast_transaction := en_broadcast_transaction e; en_estimate_fee_rate := en_estimate_fee_rate e;
  en_pending_accepted_withdrawals := fun _ _ _ _ _ => Ok [demo_withdrawal];
  en_pending_accepted_deposits := en_pending_accepted_deposits e; en_swept_deposits := en_swept_deposits e;
  en_swept_withdrawals := en_swept_withdrawals e; en_rejected_withdrawals := en_rejected_withdrawals e |}.

Lemma swept_withdrawals_validate_witness : exists w' pending,
  get_pending_requests (config 20) withdrawing tip 8 4 keys start = (w', Ok (Some pending)) /\
  sr_withdrawals pending = [withdrawal_from_model demo_withdrawal demo_votes] /\
  exists m votes, withdrawal_from_model demo_withdrawal demo_votes = withdrawal_from_model m votes /\ 2 <= accepting votes /\
    forall r h limits i tx fee, report_of m r -> 900 <= h <= 900 + WITHDRAWAL_EXPIRY_BUFFER ->
      per_withdrawal_cap (sr_sbtc_limits pending) <= per_withdrawal_cap limits ->
      validate_withdrawal r h i tx fee limits = fee_check r tx i fee.
Proof.
  assert (match (get_pending_requests (config 20) withdrawing tip 8 4 keys start).2 with Ok (Some p) => sr_withdrawals p | _ => [] end
    = [withdrawal_from_model demo_withdrawal demo_votes]) as Hw by (by vm_compute).
  destruct (get_pending_requests (config 20) withdrawing tip 8 4 keys start) as [w' [[pending|]| | |]] eqn:Hp; [|discriminate Hw..].
  cbn [snd] in Hw. exists w', pending.
  split_and!; [done|done|]. pose proof demo_dust as Hdust.
  destruct (swept_withdrawals_validate (config 20) withdrawing tip 8 4 keys start w' pending (withdrawal_from_model demo_withdrawal demo_votes))
    as (m & votes & H1 & H2 & _ & H3).
  - cbn. lia.
  - done.
  - rewrite Hw. by left.
  - exists m, votes. split_and!; [done|done|]. intros r h limits i tx fee Hm Hh Hl. apply H3; try done.
    injection H1 as _ _ _ _ _ Hs _. rewrite <- Hs. by eexists.
Defined.
End Witness.
