(* ===== verification/CoordinatorStacks.v ===== *)
(** * The Stacks transactions of a tenure ([signer/src/transaction_coordinator.rs])

    Every transaction a tenure submits carries enough signatures and a nonce
    without gap or repetition; a key rotation is submitted only for verified
    shares and ends the tenure. *)

From Stdlib Require Import SpecFloat.
From stdpp Require Import strings.
From S2P Require Import Prelude Effects Types Consts WstsNet DkgVerification WstsFrost WstsFire WstsSigner WstsMachines.
From S2P Require Import Bitcoin SignerState Packaging Requests Sweep Validation Contracts StacksSigning Wallet Coordinator CoordinatorDemo CoordinatorSafety.

(** ** Gathered signatures *)
Section Gathered.
Context {wc : WstsCrypto} {po : PartyOps} {ml : MachineLibs} {bl : BitcoinLib} {sl : StacksLib} {cl : CoordLib}.

Lemma gather_signatures_enough txid tip required messages e : forall m w w' tx,
  gather_signatures txid tip required messages e m w = (w', Ok tx) ->
  exists sigs, tx = finalize_transaction (add_signatures sigs m) /\ required <= num_signatures (add_signatures sigs m).
Proof.
  induction messages as [|msg messages IH]; intros m w w' tx; cbn [gather_signatures];
    (destruct (Z.leb_spec required (num_signatures m)); [intros [= _ <-]; by exists []|]).
  - by destruct e.
  - unfold st_bind at 1, emit, st_modify. cbn [fst snd]. destruct (negb _); [apply IH|]. destruct (sm_payload msg); try apply IH.
    destruct (txid0 =? txid); [|apply IH]. intros (sigs & ? & ?)%IH. by exists (signature :: sigs).
Qed.

(** The error is never a rejection of the transaction. *)
Definition rejection (e : TenureError) : bool := match e with TeStacksTxRejection _ => true | _ => false end.
Lemma gather_signatures_error txid tip required messages e : forall m w w' err,
  gather_signatures txid tip required messages e m w = (w', Err err) -> rejection err = false.
Proof.
  induction messages as [|msg messages IH]; intros m w w' err; cbn [gather_signatures]; (destruct (required <=? num_signatures m); [done|]).
  - destruct e; by intros [= _ <-].
  - unfold st_bind at 1, emit, st_modify. cbn [fst snd]. destruct (negb _); [apply IH|]. destruct (sm_payload msg); try apply IH.
    destruct (txid0 =? txid); apply IH.
Qed.

Lemma query_error {A} (f : list IoEvent -> outcome Z A) w w' err : query f w = (w', Err err) -> rejection err = false.
Proof. unfold query, ask. destruct (f (w_log w)); cbn; try done. by intros [= _ <-]. Qed.

Variables (cfg : TenureConfig) (env : TenureEnv).

Lemma send_message_cases payload tip w w' r : send_message cfg env payload tip w = (w', r) ->
  (exists more, w_log w' = w_log w ++ IoSend (mkSignedMessage tip payload (my_public_key cfg)) :: more) /\
  (forall err, r = Err err -> rejection err = false).
Proof.
  intros Hs. split.
  - set (op := st_bind (query (en_network_broadcast env)) (fun _ => st_bind (emit IoSignal) (fun _ => query (en_signal env)))).
    assert (only (mkKinds true false false false) op) as Ho by (unfold op; only_walk).
    destruct (Ho (push (IoSend (mkSignedMessage tip payload (my_public_key cfg))) w)) as (more & Hm & _). exists more.
    change (send_message cfg env payload tip w) with (op (push (IoSend (mkSignedMessage tip payload (my_public_key cfg))) w)) in Hs.
    rewrite Hs in Hm. cbn in Hm. by rewrite Hm, <- app_assoc.
  - intros err ->. unfold send_message, st_bind at 1, emit, st_modify in Hs. cbn [fst snd] in Hs. unfold st_bind at 1 in Hs.
    destruct (query (en_network_broadcast env) _) as [w1 [[]| | |]] eqn:Hq; try done; [|injection Hs as <- <-; by eapply query_error].
    unfold st_bind, emit, st_modify in Hs. by eapply query_error.
Qed.

(** Signing: the request was sent, and on success enough signatures came. *)
Lemma sign_stacks_cases req m tip wallet w w' r : sign_stacks_transaction cfg env req m tip wallet w = (w', r) ->
  (exists more, w_log w' = w_log w ++ IoSend (mkSignedMessage tip (PaySignRequest req) (my_public_key cfg)) :: more /\
     Forall (fun e => allows (mkKinds true false false false) e = true) more) /\
  match r with
  | Ok tx => exists sigs, tx = finalize_transaction (add_signatures sigs m) /\ wl_signatures_required wallet <= num_signatures (add_signatures sigs m)
  | Err err => rejection err = false
  | _ => True
  end.
Proof.
  intros Hs. pose proof (only_sign_stacks cfg env (mkKinds true false false false) req m tip wallet eq_refl w) as (new & Hl & Hf & _).
  rewrite Hs in Hl. cbn in Hl. unfold sign_stacks_transaction, st_bind at 1 in Hs.
  destruct (send_message cfg env (PaySignRequest req) tip w) as [w1 r1] eqn:Hsend. pose proof (send_message_cases _ _ _ _ _ Hsend) as [(more & Hm) He].
  assert (exists more', w_log w' = w_log w1 ++ more') as (more' & Hm').
  { destruct r1; [|injection Hs as <- <-; exists []; by rewrite app_nil_r..].
    assert (only (mkKinds true false false false) (s <- signed_message_stream env;; timeout (TeSignatureTimeout (ssr_txid req))
      (gather_signatures (ssr_txid req) tip (wl_signatures_required wallet) s.1 s.2 m))) as Ho by only_walk.
    destruct (Ho w1) as (more' & Hm' & _). exists more'. by rewrite Hs in Hm'. }
  split.
  - exists (more ++ more'). split; [rewrite Hm', Hm, <- app_assoc; done|].
    rewrite Hm', Hm, <- app_assoc in Hl. apply app_inv_head in Hl. cbn in Hl. rewrite <- Hl in Hf. by inversion Hf.
  - destruct r1 as [[]|err1| |]; [|injection Hs as <- <-; first [done|by apply He]..].
    unfold signed_message_stream, signal_stream, st_bind, st_ret in Hs. destruct (en_signals env (w_log w1)) as [sigs e]. unfold timeout in Hs. cbn [fst snd] in Hs.
    destruct (gather_signatures _ _ _ _ _ m w1) as [w2 r2] eqn:Hg. destruct r2 as [tx|err| |]; [|destruct err; injection Hs as <- <-; try done|injection Hs as <- <-; done..].
    + injection Hs as <- <-. by eapply gather_signatures_enough.
    + by eapply gather_signatures_error in Hg.
Qed.
End Gathered.

(** ** Submissions and nonces *)
Section Submissions.
Context {wc : WstsCrypto} {po : PartyOps} {ml : MachineLibs} {bl : BitcoinLib} {sl : StacksLib} {cl : CoordLib} {sw : StacksLaws}.

(** The nonce of a submission is used up when the node accepts it, or has a
    transaction with that nonce in its mempool. *)
Definition uses_nonce (e : IoEvent) : bool :=
  match e with
  | IoSubmit _ (Ok (Acceptance _)) => true
  | IoSubmit _ (Ok (Rejection reason)) => bool_decide (reason = REJECTION_REASON_CONFLICTING_NONCE_IN_MEMPOOL)
  | _ => false
  end.
Definition uses (l : list IoEvent) : Z := zlen (List.filter uses_nonce l).
Lemma uses_app l k : uses (l ++ k) = uses l + uses k.
Proof. unfold uses. by rewrite List.filter_app, zlen_app. Qed.
Lemma uses_nonneg l : 0 <= uses l.
Proof. apply zlen_nonneg. Qed.
Lemma uses_le l : uses l <= zlen l.
Proof.
  unfold uses. induction l as [|e l IH]; [done|]. cbn [List.filter]. destruct (uses_nonce e); rewrite ?zlen_cons; lia.
Qed.
Lemma uses_none n l : k_submit n = false -> Forall (fun e => allows n e = true) l -> uses l = 0.
Proof.
  intros Hn. induction 1 as [|e l He _ IH]; [done|]. unfold uses in *. cbn [List.filter]. destruct e; try done. cbn in He. congruence.
Qed.

Variables (cfg : TenureConfig) (env : TenureEnv) (tip : BlockHash) (wallet : SignerWallet) (kind : StacksTx -> Prop).
Variables (l0 : list IoEvent) (n0 : Z).
Hypothesis Hwallet : wallet_ok wallet.
Hypothesis Hn0 : 0 <= n0.

(** A submission of a transaction whose signatures were asked for before. *)
Definition asked_for (pre : list IoEvent) (tx : StacksTransaction RecoverableSignature) : Prop :=
  exists req, kind (ssr_contract_tx req) /\
    IoSend (mkSignedMessage tip (PaySignRequest req) (my_public_key cfg)) ∈ pre /\
    stx_payload tx = tx_payload (ssr_contract_tx req) /\ sc_nonce (stx_auth tx) = ssr_nonce req /\ sc_tx_fee (stx_auth tx) = ssr_tx_fee req /\
    ssr_tx_fee req <= tc_stacks_fees_max_ustx cfg.
Definition submit_guard (pre : list IoEvent) (e : IoEvent) : Prop :=
  match e with
  | IoSubmit tx _ => node_verifies tx = true /\ sc_signer (stx_auth tx) = address_bytes (wl_address wallet) /\ asked_for pre tx /\ (n0 + zlen pre + 1 < 2 ^ 64 -> sc_nonce (stx_auth tx) = n0 + uses pre)
  | _ => True
  end.
Definition submitted_ok (w : World) : Prop := since l0 (guarded submit_guard) w.
(** Between transactions the nonce counts those used. *)
Definition between (w : World) : Prop :=
  exists new, w_log w = l0 ++ new /\ guarded submit_guard new /\ (n0 + zlen new + 1 < 2 ^ 64 -> w_nonce w = n0 + uses new).
(** A transaction was made from the wallet, with the request for its
    signatures. *)
Definition made (nonce : Z) (r : StacksTransactionSignRequest * MultisigTx) : Prop :=
  exists payload fee w' key, kind payload /\ fee <= tc_stacks_fees_max_ustx cfg /\ new_tx payload fee (set_nonce nonce wallet) = (w', r.2) /\
    r.1 = mkSignRequest (Some key) payload nonce fee (tx_txid (mtx_tx r.2)).
Definition pending (r : StacksTransactionSignRequest * MultisigTx) (w : World) : Prop :=
  exists new nonce, w_log w = l0 ++ new /\ guarded submit_guard new /\ made nonce r /\
    (n0 + zlen new + 1 < 2 ^ 64 -> w_nonce w = n0 + uses new + 1 /\ nonce = n0 + uses new).

Lemma between_submitted w : between w -> submitted_ok w.
Proof. intros (new & Hl & Hg & _). by exists new. Qed.
Lemma submit_guard_quiet n pre e : k_submit n = false -> allows n e = true -> submit_guard pre e.
Proof. intros Hn. destruct e; try done. cbn. congruence. Qed.
Lemma guarded_quiet n new more : k_submit n = false -> guarded submit_guard new -> Forall (fun e => allows n e = true) more -> guarded submit_guard (new ++ more).
Proof. intros Hn Hg Hf. apply guarded_app; [done|]. intros pre e He. rewrite Forall_forall in Hf. by eapply submit_guard_quiet, Hf. Qed.

Definition keeps {A} (m : st World TenureError A) : Prop := hoare between m (fun _ => between) (fun _ => between) submitted_ok.
Lemma keeps_bind {A B} (m : st World TenureError A) (k : A -> st World TenureError B) : keeps m -> (forall a, keeps (k a)) -> keeps (st_bind m k).
Proof. intros Hm Hk. eapply hoare_bind; [exact Hm|]. apply Hk. Qed.
Lemma keeps_quiet {A} (m : st World TenureError A) : only (mkKinds true false true false) m -> keeps m.
Proof.
  intros Hm w (new & Hl & Hg & Hn). destruct (Hm w) as (more & Hl' & Hf & Hno). specialize (Hno eq_refl).
  assert (between (m w).1) as Hb.
  { exists (new ++ more). rewrite Hl', Hl, app_assoc. split_and!; [done|by apply (guarded_quiet (mkKinds true false true false))|].
    rewrite zlen_app, uses_app, (uses_none (mkKinds true false true false) more eq_refl Hf), Hno. pose proof (zlen_nonneg more). intros Hb. rewrite Hn by lia. lia. }
  destruct (m w) as [w' []]; try done; by apply between_submitted.
Qed.
Lemma keeps_ret {A} (a : A) : keeps (st_ret a).
Proof. apply keeps_quiet, only_ret. Qed.
Lemma keeps_ignore (m : st World TenureError unit) : keeps m -> keeps (ignore_error m).
Proof. intros Hm. by apply hoare_catch. Qed.

(** *** Making and processing a request *)
Lemma new_sign_request_made key payload fee : kind payload -> fee <= tc_stacks_fees_max_ustx cfg ->
  hoare between (new_sign_request key payload fee wallet) pending (fun _ => between) submitted_ok.
Proof.
  intros Hk Hfee w (new & Hl & Hg & Hn). unfold new_sign_request, with_wallet, st_bind, st_ret.
  destruct (new_tx payload fee (set_nonce (w_nonce w) wallet)) as [wl m] eqn:Ht. pose proof (new_tx_fields _ _ _ _ _ Ht) as (-> & Hauth & _).
  exists new, (w_nonce w). cbn [w_log w_nonce fst snd]. split_and!; [done|done| |].
  - exists payload, fee, (set_nonce ((wl_nonce (set_nonce (w_nonce w) wallet) + 1) mod 2 ^ 64) (set_nonce (w_nonce w) wallet)), key.
    cbn [fst snd]. rewrite Hauth. split_and!; try done.
  - intros Hb. rewrite Hn by done. pose proof (uses_le new). pose proof (uses_nonneg new). cbn. rewrite Z.mod_small by lia. done.
Qed.

(** A signed transaction that is not submitted yet. *)
Definition signed (tx : StacksTransaction RecoverableSignature) (w : World) : Prop :=
  exists new, w_log w = l0 ++ new /\ guarded submit_guard new /\ node_verifies tx = true /\ sc_signer (stx_auth tx) = address_bytes (wl_address wallet) /\
    asked_for new tx /\ (n0 + zlen new + 1 < 2 ^ 64 -> w_nonce w = n0 + uses new + 1 /\ sc_nonce (stx_auth tx) = n0 + uses new).
(** The nonce taken has to be given back. *)
Definition taken (w : World) : Prop :=
  exists new, w_log w = l0 ++ new /\ guarded submit_guard new /\ (n0 + zlen new + 1 < 2 ^ 64 -> w_nonce w = n0 + uses new + 1).

Lemma sign_stacks_signed r :
  hoare (pending r) (sign_stacks_transaction cfg env r.1 r.2 tip wallet) signed (fun e w => rejection e = false /\ taken w) submitted_ok.
Proof.
  intros w (new & nonce & Hl & Hg & (payload & fee & w1 & key & Hk & Hfee & Ht & Hr) & Hn).
  destruct (sign_stacks_transaction cfg env r.1 r.2 tip wallet w) as [w2 s] eqn:Hs.
  pose proof (only_sign_stacks cfg env (mkKinds true false false false) r.1 r.2 tip wallet eq_refl w) as (_ & _ & _ & Hnon). rewrite Hs in Hnon. specialize (Hnon eq_refl). cbn in Hnon.
  pose proof (sign_stacks_cases cfg env _ _ _ _ _ _ _ Hs) as [(more & Hlog & Hf) Hres].
  set (sent := IoSend (mkSignedMessage tip (PaySignRequest r.1) (my_public_key cfg)) :: more).
  assert (Forall (fun e => allows (mkKinds true false false false) e = true) sent) as Hf' by by constructor.
  set (new2 := new ++ sent). assert (w_log w2 = l0 ++ new2) as Hl2 by (unfold new2, sent; by rewrite Hlog, Hl, app_assoc).
  assert (guarded submit_guard new2) as Hg2 by by apply (guarded_quiet (mkKinds true false false false)).
  assert (n0 + zlen new2 + 1 < 2 ^ 64 -> w_nonce w2 = n0 + uses new2 + 1 /\ nonce = n0 + uses new2) as Hn2.
  { unfold new2. rewrite uses_app, zlen_app, (uses_none (mkKinds true false false false) _ eq_refl Hf'), Z.add_0_r, Hnon. pose proof (zlen_nonneg sent). intros ?. apply Hn. lia. }
  destruct s as [tx|err| |]; [|split; [done|]; exists new2; split_and!; [done|done|intros Hb; by apply Hn2]|by exists new2..].
  destruct Hres as (sigs & -> & Henough). destruct (finalized_fields r.2 sigs) as (Hp & Hsi & Hno & Hfe).
  pose proof (new_tx_fields _ _ _ _ _ Ht) as (_ & Hauth & Hpl & _). rewrite Hauth in Hsi, Hno, Hfe. cbn [sc_signer sc_nonce sc_tx_fee wl_nonce wl_address set_nonce] in Hsi, Hno, Hfe.
  exists new2. split_and!; [done|done|by apply (signed_tx_verifies _ _ (set_nonce nonce wallet) _ _ sigs Hwallet Ht)|done| |by rewrite Hno].
  exists r.1. rewrite Hr. cbn [ssr_contract_tx ssr_nonce ssr_tx_fee]. split_and!; try done; [unfold new2, sent; rewrite Hr; set_solver|]. by rewrite <- Hpl.
Qed.

Lemma adjusted e w : taken w -> rejection e = false -> between (adjust_wallet_nonce e w).1.
Proof.
  intros (new & Hl & Hg & Hn) He. exists new. cbn. split_and!; [done|done|]. intros Hb. rewrite (Hn Hb). pose proof (uses_nonneg new).
  unfold adjust_nonce, saturating_sub. destruct e; cbn in *; try done; lia.
Qed.

(** The submission itself, and what becomes of the nonce. *)
Lemma submit_between tx w : signed tx w -> let res := en_submit_tx env (w_log w) tx in let w' := push (IoSubmit tx res) w in
  match res with
  | Ok (Acceptance _) => between w'
  | Ok (Rejection reason) => between (adjust_wallet_nonce (TeStacksTxRejection reason) w').1
  | Err err => between (adjust_wallet_nonce (TeClient err) w').1
  | _ => submitted_ok w'
  end.
Proof.
  intros (new & Hl & Hg & Hver & Hsi & Hask & Hn) res w'. set (new' := new ++ [IoSubmit tx res]).
  assert (guarded submit_guard new') as Hg' by (apply guarded_snoc; [done|]; split_and!; [done|done|done|intros Hb; by apply Hn]).
  assert (w_log w' = l0 ++ new') as Hl' by (cbn; unfold new'; by rewrite Hl, app_assoc).
  assert (uses new' = uses new + (if uses_nonce (IoSubmit tx res) then 1 else 0)) as Hu.
  { unfold new'. rewrite uses_app. unfold uses at 2. cbn [List.filter]. by destruct (uses_nonce _). }
  assert (n0 + zlen new' + 1 < 2 ^ 64 -> w_nonce w' = n0 + uses new + 1) as Hn'.
  { unfold new'. rewrite zlen_app. change (zlen [IoSubmit tx res]) with 1. intros Hb. cbn [w_nonce w' push]. apply Hn. lia. }
  pose proof (uses_nonneg new). destruct res as [[txid|reason]|err| |]; cbn [uses_nonce] in Hu; [| | |by exists new'..].
  all: exists new'; split_and!; [done|done|]; rewrite Hu; intros Hb; cbn [adjust_wallet_nonce st_modify fst w_nonce]; rewrite (Hn' Hb);
    unfold adjust_nonce, saturating_sub; try case_bool_decide; lia.
Qed.

Lemma process_adjusting_keeps fatal r :
  hoare (pending r) (process_adjusting cfg env fatal r.1 tip r.2 wallet) (fun _ => between) (fun _ => between) submitted_ok.
Proof.
  intros w Hp. unfold process_adjusting, process_sign_request, st_bind. pose proof (sign_stacks_signed r w Hp) as Hs.
  destruct (sign_stacks_transaction cfg env r.1 r.2 tip wallet w) as [w2 [tx|err| |]]; [| |done..].
  - apply submit_between in Hs. cbv zeta in Hs. destruct (en_submit_tx env (w_log w2) tx) as [[txid|reason]|err| |]; [done| | |done..]; by destruct fatal.
  - destruct Hs as [He Ht]. pose proof (adjusted err w2 Ht He). by destruct fatal.
Qed.
End Submissions.

(** *** The operations that submit *)
Section Operations.
Context {wc : WstsCrypto} {po : PartyOps} {ml : MachineLibs} {bl : BitcoinLib} {sl : StacksLib} {cl : CoordLib} {sw : StacksLaws}.
Variables (cfg : TenureConfig) (env : TenureEnv) (wallet : SignerWallet) (l0 : list IoEvent) (n0 : Z).
Hypothesis Hwallet : wallet_ok wallet.
Hypothesis Hn0 : 0 <= n0.

Section Kind.
Variables (tip : BlockHash) (kind : StacksTx -> Prop).
Abbreviation keepsk := (keeps cfg tip wallet kind l0 n0).
Abbreviation betweenk := (between cfg tip wallet kind l0 n0).
Abbreviation submittedk := (submitted_ok cfg tip wallet kind l0 n0).
Definition makes (m : st World TenureError (StacksTransactionSignRequest * MultisigTx)) : Prop :=
  hoare betweenk m (pending cfg tip wallet kind l0 n0) (fun _ => betweenk) submittedk.
Lemma makes_bind {A} (m : st World TenureError A) k : keepsk m -> (forall a, makes (k a)) -> makes (st_bind m k).
Proof. intros Hm Hk. eapply hoare_bind; [exact Hm|]. apply Hk. Qed.
Lemma makes_estimate key payload priority : kind payload ->
  makes (fee <- estimate_stacks_tx_fee cfg env wallet payload priority;; new_sign_request key payload fee wallet).
Proof.
  intros Hk. eapply hoare_bind with (Q' := fun fee w => betweenk w /\ fee <= tc_stacks_fees_max_ustx cfg).
  - intros w Hw. pose proof (keeps_quiet cfg tip wallet kind l0 n0 _ (only_estimate cfg env _ wallet payload priority) w Hw) as Hf.
    unfold estimate_stacks_tx_fee, query, ask, st_bind, st_ret in *. destruct (en_estimate_fees _ _ _ _ _); cbn in *; try done. split; [done|lia].
  - intros fee. intros w [Hw Hfee]. by apply new_sign_request_made.
Qed.
Lemma keeps_made fatal m : makes m -> keepsk (r <- m;; process_adjusting cfg env fatal r.1 tip r.2 wallet).
Proof. intros Hm. eapply hoare_bind; [exact Hm|]. intros r. by apply process_adjusting_keeps. Qed.
Lemma process_submitted r w : pending cfg tip wallet kind l0 n0 r w -> submittedk (process_sign_request cfg env r.1 tip r.2 wallet w).1.
Proof.
  intros Hp. pose proof (process_adjusting_keeps cfg env tip wallet kind l0 n0 Hwallet Hn0 true r w Hp) as Hk. unfold process_adjusting in Hk.
  destruct (process_sign_request cfg env r.1 tip r.2 wallet w) as [w' [| e | |]]; cbn in *; [by apply between_submitted| |done..].
  apply between_submitted in Hk as (new & Hl & Hg). by exists new.
Qed.
End Kind.

(** Responses: calls that complete a deposit or a withdrawal. *)
Definition is_response (tx : StacksTx) : Prop :=
  match tx with StacksContractCall (CallRotateKeys _) | StacksSmartContract _ => False | _ => True end.
Definition is_deployment (tx : StacksTx) : Prop := match tx with StacksSmartContract _ => True | _ => False end.

Variables (tip : BitcoinBlockRef).
Abbreviation keepsr := (keeps cfg (bbr_block_hash tip) wallet is_response l0 n0).

Lemma keeps_for_each {A} (answer : A -> st World TenureError unit) l : (forall a, keepsr (answer a)) -> keepsr (for_each_at_tip env tip answer l).
Proof.
  intros Ha. induction l as [|a l IH]; cbn [for_each_at_tip]; [apply keeps_ret|].
  apply keeps_bind; [apply keeps_quiet, only_still_at_tip|]. intros []; cbn [negb]; [|apply keeps_ret].
  apply keeps_bind; [by apply keeps_ignore|]. by intros _.
Qed.

Lemma makes_deposit key req : makes (bbr_block_hash tip) is_response (construct_deposit_stacks_sign_request cfg env req key wallet).
Proof. unfold construct_deposit_stacks_sign_request. do 5 (apply makes_bind; [apply keeps_quiet; only_walk|]; intros ?). by apply makes_estimate. Qed.
Lemma makes_accept key req : makes (bbr_block_hash tip) is_response (construct_withdrawal_accept_stacks_sign_request cfg env req key wallet).
Proof. unfold construct_withdrawal_accept_stacks_sign_request. do 4 (apply makes_bind; [apply keeps_quiet; only_walk|]; intros ?). by apply makes_estimate. Qed.
Lemma makes_reject key req : makes (bbr_block_hash tip) is_response (construct_withdrawal_reject_stacks_sign_request cfg env req key wallet).
Proof. by apply makes_estimate. Qed.

Lemma keeps_answer_deposit key req : keepsr (answer_deposit cfg env tip wallet key req).
Proof.
  unfold answer_deposit. apply keeps_bind; [apply keeps_quiet; only_walk|]. intros []; [apply keeps_ret|].
  eapply hoare_bind with (Q' := fun o w => match o with Some r => pending cfg (bbr_block_hash tip) wallet is_response l0 n0 r w
                                          | None => between cfg (bbr_block_hash tip) wallet is_response l0 n0 w end).
  - apply hoare_catch. eapply hoare_bind; [apply makes_deposit|]. intros r. by apply hoare_ret.
  - intros [[req' m]|]; [|apply keeps_ret]. apply (process_adjusting_keeps cfg env _ wallet is_response l0 n0 Hwallet Hn0 false (req', m)).
Qed.
Lemma keeps_accept key req : keepsr (construct_and_sign_withdrawal_accept cfg env tip wallet key req).
Proof.
  unfold construct_and_sign_withdrawal_accept. apply keeps_bind; [apply keeps_quiet; only_walk|]. intros []; [apply keeps_ret|].
  apply keeps_made, makes_accept.
Qed.
Lemma keeps_reject key req : keepsr (construct_and_sign_withdrawal_reject cfg env tip wallet key req).
Proof.
  unfold construct_and_sign_withdrawal_reject.
  do 3 (apply keeps_bind; [apply keeps_quiet; only_walk|]; intros []; [apply keeps_ret|]). apply keeps_made, makes_reject.
Qed.
Lemma keeps_responses key : keepsr (construct_and_sign_stacks_response_transactions cfg env tip wallet key).
Proof.
  unfold construct_and_sign_stacks_response_transactions, construct_and_sign_stacks_deposit_response_transactions,
    construct_and_sign_stacks_withdrawal_response_transactions.
  apply keeps_bind; [apply keeps_ignore|intros _; apply keeps_ignore].
  - do 2 (apply keeps_bind; [apply keeps_quiet; only_walk; apply only_stacks_tip|]; intros ?).
    apply keeps_bind; [apply keeps_for_each, keeps_answer_deposit|]. intros _. apply keeps_ret.
  - do 3 (apply keeps_bind; [apply keeps_quiet; only_walk; apply only_stacks_tip|]; intros ?).
    apply keeps_bind; [apply keeps_for_each, keeps_accept|]. intros []; cbn [negb]; [|apply keeps_ret].
    apply keeps_bind; [apply keeps_for_each, keeps_reject|]. intros _. apply keeps_ret.
Qed.
Lemma keeps_deploy key : keeps cfg (bbr_block_hash tip) wallet is_deployment l0 n0 (deploy_smart_contracts cfg env (bbr_block_hash tip) wallet key).
Proof.
  unfold deploy_smart_contracts. induction SMART_CONTRACTS as [|c l IH]; cbn [deploy_contracts]; [apply keeps_ret|].
  apply keeps_bind; [|by intros _]. unfold deploy_smart_contract. apply keeps_bind; [apply keeps_quiet; only_walk|]. intros []; [apply keeps_ret|].
  apply keeps_made. by apply makes_estimate.
Qed.
End Operations.

(** ** Key rotation *)
Section Rotation.
Context {wc : WstsCrypto} {po : PartyOps} {ml : MachineLibs} {bl : BitcoinLib} {sl : StacksLib} {cl : CoordLib} {sw : StacksLaws}.
Variables (cfg : TenureConfig) (env : TenureEnv).

(** Reads and messages only, and the nonce kept. *)
Definition quietly (w w' : World) : Prop :=
  exists q, w_log w' = w_log w ++ q /\ Forall (fun e => allows (mkKinds true false false false) e = true) q /\ w_nonce w' = w_nonce w.
Lemma quietly_refl w : quietly w w.
Proof. exists []. by rewrite app_nil_r. Qed.
Lemma quietly_trans w1 w2 w3 : quietly w1 w2 -> quietly w2 w3 -> quietly w1 w3.
Proof.
  intros (q & Hl & Hf & Hn) (q' & Hl' & Hf' & Hn'). exists (q ++ q'). rewrite Hl', Hl, app_assoc. split_and!; [done|by apply Forall_app|congruence].
Qed.
Lemma only_quietly {A} (m : st World TenureError A) w w' r : only (mkKinds true false false false) m -> m w = (w', r) -> quietly w w'.
Proof. intros Hm Hr. destruct (Hm w) as (q & Hl & Hf & Hn). rewrite Hr in *. exists q. cbn in *. auto. Qed.
Lemma quietly_prefix w w' t : quietly w w' -> t `prefix_of` w_log w -> t `prefix_of` w_log w'.
Proof. intros (q & -> & _) Ht. by apply prefix_app_r. Qed.

(** The latest DKG shares call for a rotation to their key: they have not
    failed, the registry has another key, and this tenure has checked them in a
    signing round with all signers, or they are verified and their verification
    window is over. *)
Record rotation_for (shares : DkgSharesRow) (tip : BitcoinBlockRef) (log : list IoEvent) (c : RotateKeysV1) : Prop := {
  rf_latest : exists t, t `prefix_of` log /\ en_latest_shares env t = Ok (Some shares);
  rf_call : exists t, t `prefix_of` log /\ rotate_keys_load (en_contract env t) (dr_aggregate_key shares) = Ok c;
  rf_differs : exists t, t `prefix_of` log /\
    option_map ssi_aggregate_key (st_registry_signing_set_info (en_state env t)) <> Some (dr_aggregate_key shares);
  rf_verified :
    (dr_status shares <> Failed /\
      exists w1 w2, perform_dkg_verification cfg env (bbr_block_hash tip) (dr_aggregate_key shares) w1 = (w2, Ok tt) /\ w_log w2 `prefix_of` log) \/
    (dr_status shares = Verified /\ saturating_add 64 (dr_started_at_height shares) (tc_dkg_verification_window cfg) < bbr_block_height tip) }.
Definition rotation_justified tip log c : Prop := exists shares, rotation_for shares tip log c.

Lemma rotation_justified_mono tip log more c : rotation_justified tip log c -> rotation_justified tip (log ++ more) c.
Proof.
  intros (shares & [(t1 & H1 & ?) (t2 & H2 & ?) (t3 & H3 & ?) Hv]). exists shares.
  split; [exists t1|exists t2|exists t3|]; try (split; [by apply prefix_app_r|done]).
  destruct Hv as [(? & w1 & w2 & ? & ?)|Hv]; [|by right]. left. split; [done|]. exists w1, w2. split; [done|]. by apply prefix_app_r.
Qed.

(** Submitting a rotation: quiet up to the request for its signatures. *)
Definition submit_rotation (tip : BitcoinBlockRef) (wallet : SignerWallet) (c : RotateKeysV1) (key : PublicKey) (fee : Z) : st World TenureError StacksTxId :=
  r <- new_sign_request key (StacksContractCall (CallRotateKeys c)) fee wallet;;
  process_sign_request cfg env r.1 (bbr_block_hash tip) r.2 wallet.

Lemma query_ok {A} (f : list IoEvent -> outcome Z A) w w' a : query f w = (w', Ok a) -> f (w_log w) = Ok a /\ w' = push IoQuery w.
Proof. unfold query, ask. destruct (f (w_log w)) eqn:Hf; cbn; try done. by intros [= <- <-]. Qed.
Lemma ask_contract_ok {A} (f : ContractEnv -> outcome ContractError A) w w' a : ask_contract env f w = (w', Ok a) ->
  f (en_contract env (w_log w)) = Ok a /\ w' = push IoQuery w.
Proof. unfold ask_contract, ask. destruct (f _) eqn:Hf; cbn; try done. by intros [= <- <-]. Qed.
Lemma quietly_query w : quietly w (push IoQuery w).
Proof. exists [IoQuery]. split_and!; [done|by repeat constructor|done]. Qed.

(** A rotation transaction is built from what was read and then submitted, or
    nothing is submitted. *)
Lemma rotate_tx_cases tip wallet key shares w w' r :
  construct_and_sign_rotate_key_transaction cfg env (bbr_block_hash tip) key (dr_aggregate_key shares) wallet w = (w', r) ->
  (quietly w w' /\ is_ok r = false) \/
  exists w1 c fee, quietly w w1 /\ fee <= tc_stacks_fees_max_ustx cfg /\ submit_rotation tip wallet c key fee w1 = (w', r) /\
    exists t, t `prefix_of` w_log w1 /\ rotate_keys_load (en_contract env t) (dr_aggregate_key shares) = Ok c.
Proof.
  unfold construct_and_sign_rotate_key_transaction, st_bind at 1. destruct (ask_contract env _ w) as [w1 r1] eqn:Hq.
  pose proof (only_quietly _ _ _ _ (only_ask_contract env _ _) Hq) as Hw1. destruct r1 as [c| | |]; [|intros [= <- <-]; by left..].
  apply ask_contract_ok in Hq as [Hc ->]. unfold st_bind at 1. destruct (estimate_stacks_tx_fee cfg env wallet _ FeeHigh (push IoQuery w)) as [w2 r2] eqn:He.
  pose proof (only_quietly _ _ _ _ (only_estimate cfg env _ _ _ _) He) as Hw2. pose proof (quietly_trans _ _ _ Hw1 Hw2) as Hw.
  destruct r2 as [fee| | |]; [|intros [= <- <-]; by left..]. intros Hr. right. exists w2, c, fee. split_and!; [done| |done|].
  - unfold estimate_stacks_tx_fee, st_bind, query, ask, st_ret in He. destruct (en_estimate_fees _ _ _ _ _); cbn in He; try done. injection He as _ <-. lia.
  - exists (w_log w). split; [|done]. by apply (quietly_prefix w).
Qed.

Lemma rotate_cases tip wallet key w w' r : check_and_submit_rotate_key_transaction cfg env tip wallet key w = (w', r) ->
  (quietly w w' /\ forall txid, r <> Ok (Some txid)) \/
  exists w1 c k fee r', quietly w w1 /\ fee <= tc_stacks_fees_max_ustx cfg /\ submit_rotation tip wallet c k fee w1 = (w', r') /\ r <> Ok None /\
    rotation_justified tip (w_log w1) c.
Proof.
  unfold check_and_submit_rotate_key_transaction, st_bind at 1. destruct (query (en_latest_shares env) w) as [w1 r1] eqn:Hq.
  pose proof (only_quietly _ _ _ _ (only_query _ _) Hq) as Hw1. destruct r1 as [o| | |]; [|intros [= <- <-]; by left..].
  apply query_ok in Hq as [Hlatest ->]. destruct o as [shares|]; [|intros [= <- <-]; by left].
  unfold st_bind at 1, read_state, ask. set (w2 := push IoQuery (push IoQuery w)). assert (quietly w w2) as Hw2 by (eapply quietly_trans; apply quietly_query).
  set (current := option_map ssi_aggregate_key _). unfold st_bind at 1, st_lift.
  destruct (assert_rotate_key_action cfg shares current tip) as [[ver rot]| | |] eqn:Ha; [|intros [= <- <-]; by left..].
  destruct (negb ver && negb rot) eqn:Hneed; [intros [= <- <-]; by left|]. unfold st_bind at 1.
  destruct ((if ver then perform_dkg_verification cfg env (bbr_block_hash tip) (dr_aggregate_key shares) else st_ret tt) w2) as [w3 r3] eqn:Hv.
  assert (quietly w2 w3) as Hw3 by (eapply only_quietly; [|exact Hv]; only_walk).
  pose proof (quietly_trans _ _ _ Hw2 Hw3) as Hw. destruct r3 as [[]| | |]; [|intros [= <- <-]; by left..].
  destruct rot; [|intros [= <- <-]; by left]. unfold st_bind at 1.
  destruct (construct_and_sign_rotate_key_transaction _ _ _ _ _ _ w3) as [w4 r4] eqn:Hr.
  apply rotate_tx_cases in Hr as [[Hq4 Hno]|(w5 & c & fee & Hq5 & Hfee & Hsub & t & Ht & Hload)].
  { intros Heq. left. assert (w4 = w' /\ is_ok r = false) as [-> Hr] by (destruct r4; try done; by injection Heq as <- <-). split; [by eapply quietly_trans|by intros txid ->]. }
  intros Heq. right. exists w5, c, (default key current), fee, r4. assert (w4 = w' /\ r <> Ok None) as [-> Hr] by (destruct r4; by injection Heq as <- <-).
  split_and!; [by eapply quietly_trans|done|done|done|]. exists shares.
  assert (dr_status shares <> Failed /\ current <> Some (dr_aggregate_key shares) /\
    (ver = true \/ dr_status shares = Verified /\ saturating_add 64 (dr_started_at_height shares) (tc_dkg_verification_window cfg) < bbr_block_height tip)) as (Hs & Hd & Hver).
  { unfold assert_rotate_key_action in Ha. destruct (dr_status shares); [| |done]; injection Ha as Hv1 Hr1; split_and!; try done.
    all: destruct (bool_decide_reflect (Some (dr_aggregate_key shares) = current)) as [He|He]; cbn in *; try done; try congruence.
    all: destruct (Z.ltb_spec (saturating_add 64 (dr_started_at_height shares) (tc_dkg_verification_window cfg)) (bbr_block_height tip)); cbn in *; subst; try done; auto. }
  assert (forall t', t' `prefix_of` w_log w3 -> t' `prefix_of` w_log w5) as Hp5 by (intros t'; by apply quietly_prefix). split.
  - exists (w_log w). split; [apply Hp5; by apply (quietly_prefix w)|done].
  - by exists t.
  - exists (w_log (push IoQuery w)). split; [|done]. apply Hp5, (quietly_prefix w2); [done|]. by apply prefix_app_r.
  - destruct Hver as [->|Hver]; [|by right]. left. split; [done|]. exists w2, w3. split; [done|]. by apply Hp5.
Qed.
End Rotation.

(** ** The tenure after the wallet is loaded *)
Section Tenure.
Context {wc : WstsCrypto} {po : PartyOps} {ml : MachineLibs} {bl : BitcoinLib} {sl : StacksLib} {cl : CoordLib} {sw : StacksLaws}.
Variables (cfg : TenureConfig) (env : TenureEnv) (tip : BitcoinBlockRef).
Hypothesis account_nonce_nonneg : forall t a n, en_account_nonce env t a = Ok n -> 0 <= n.
Abbreviation hash := (bbr_block_hash tip).

Definition with_wallet_loaded (info : option SignerSetInfo) (wallet : SignerWallet) (key : PublicKey) (s : SignerState) : st World TenureError unit :=
  if negb (st_sbtc_contracts_deployed s) then deploy_smart_contracts cfg env hash wallet key else
  rotate_key_txid <- check_and_submit_rotate_key_transaction cfg env tip wallet key;;
  match rotate_key_txid with
  | Some _ => st_ret tt
  | None =>
      signer_public_keys <- st_ok_or (option_map ssi_signer_set info) TeNoKeyRotationEvent;;
      ignore_error (construct_and_sign_bitcoin_sbtc_transactions cfg env tip key signer_public_keys);;;
      construct_and_sign_stacks_response_transactions cfg env tip wallet key
  end.

Lemma only_tail info wallet key s : only (mkKinds true true true true) (with_wallet_loaded info wallet key s).
Proof. unfold with_wallet_loaded. only_walk; first [apply only_deploy|apply only_rotate|apply only_sbtc|apply only_responses]; done. Qed.

(** No Stacks transaction among the events. *)
Abbreviation unsubmitted := (Forall (fun e => allows (mkKinds true false true false) e = true)).

Lemma load_wallet_ok c s w : wallet_load c s = Ok w -> wallet_ok w.
Proof.
  unfold wallet_load, load_boostrap_wallet. destruct (st_registry_signing_set_info s); intros Hw; apply wallet_new_inv in Hw as (_ & Hn & Hk & _ & Ha & _);
    unfold wallet_ok; by rewrite Hn, Hk.
Qed.

Lemma get_wallet_cases w w' wallet : get_signer_wallet cfg env w = (w', Ok wallet) ->
  wallet_ok wallet /\ exists t, t `prefix_of` w_log w' /\ en_account_nonce env t (wl_address wallet) = Ok (w_nonce w').
Proof.
  unfold get_signer_wallet, st_bind at 1, read_state, ask. unfold st_bind at 1, st_lift.
  destruct (wallet_load (tc_wallet cfg) (en_state env (w_log w))) as [wl| | |] eqn:Hl; cbn [map_err]; [|done..].
  unfold st_bind at 1. destruct (query _ (push IoQuery w)) as [w1 [nonce| | |]] eqn:Hq; [|done..]. apply query_ok in Hq as [Hq ->].
  intros [= <- <-]. split; [by apply load_wallet_ok in Hl|]. exists (w_log (push IoQuery w)). split; [cbn; by apply prefix_app_r|done].
Qed.

Lemma coordinate_cases w w' r : coordinate_tenure cfg env tip w = (w', r) ->
  (exists q, w_log w' = w_log w ++ q /\ unsubmitted q) \/
  exists w1 q info wallet key s, with_wallet_loaded info wallet key s w1 = (w', r) /\ w_log w1 = w_log w ++ q /\ unsubmitted q /\ wallet_ok wallet /\
    exists t, t `prefix_of` w_log w1 /\ en_account_nonce env t (wl_address wallet) = Ok (w_nonce w1).
Proof.
  assert (forall A (m : st World TenureError A) v v' o, only (mkKinds true false false true) m -> m v = (v', o) ->
    (exists q, w_log v = w_log w ++ q /\ unsubmitted q) -> exists q, w_log v' = w_log w ++ q /\ unsubmitted q) as Hstep.
  { intros A m v v' o Hm Hv (q & Hl & Hf). destruct (Hm v) as (q' & Hl' & Hf' & _). rewrite Hv in Hl'. exists (q ++ q'). cbn in Hl'. rewrite Hl', Hl, app_assoc.
    split; [done|]. apply Forall_app. split; [done|]. eapply Forall_impl; [exact Hf'|]. intros []; done. }
  unfold coordinate_tenure, st_bind at 1, read_state, ask. set (w1 := push IoQuery w).
  assert (exists q, w_log w1 = w_log w ++ q /\ unsubmitted q) as H1 by (exists [IoQuery]; split; [done|by repeat constructor]).
  unfold st_bind at 1. destruct (tenure_aggregate_key cfg env tip _ w1) as [w2 r2] eqn:H2.
  apply (Hstep _ _ _ _ _ (only_tenure_key cfg env (mkKinds true false false true) tip _ eq_refl)) in H2 as Hq2; [|done].
  destruct r2 as [key| | |]; [|intros [= <- <-]; by left..]. unfold st_bind at 1. destruct (get_signer_wallet cfg env w2) as [w3 r3] eqn:H3.
  apply (Hstep _ _ _ _ _ (only_wallet cfg env (mkKinds true false false true) eq_refl)) in H3 as Hq3; [|done].
  destruct r3 as [wallet| | |]; [|intros [= <- <-]; by left..]. apply get_wallet_cases in H3 as (Hok & t & Ht & Hn).
  intros Hr. right. destruct Hq3 as (q & Hl & Hf). exists (push IoQuery w3), (q ++ [IoQuery]).
  exists (st_registry_signing_set_info (en_state env (w_log w))), wallet, key, (en_state env (w_log w3)).
  split_and!; [exact Hr|cbn; by rewrite Hl, app_assoc|apply Forall_app; split; [done|by repeat constructor]|done|].
  exists t. split; [cbn; by apply prefix_app_r|done].
Qed.

Lemma between_start wallet kind w : between cfg hash wallet kind (w_log w) (w_nonce w) w.
Proof. exists []. rewrite app_nil_r. split_and!; [done|apply guarded_nil|]. intros _. change (uses []) with 0. lia. Qed.

Lemma submitted_weaken wallet (kind kind' : StacksTx -> Prop) l0 n0 w : (forall tx, kind tx -> kind' tx) -> submitted_ok cfg hash wallet kind l0 n0 w -> submitted_ok cfg hash wallet kind' l0 n0 w.
Proof.
  intros Hk (new & Hl & Hg). exists new. split; [done|]. eapply guarded_impl; [exact Hg|]. intros pre []; try done.
  intros (Hv & Hsi & (req & Hreq & ?) & Hn). split_and!; [done|done|exists req; split; [by apply Hk|done]|done].
Qed.

(** *** Submissions *)
Lemma between_quietly wallet kind l0 n0 w w' : quietly w w' -> between cfg hash wallet kind l0 n0 w -> between cfg hash wallet kind l0 n0 w'.
Proof.
  intros (q & Hl & Hf & Hn) (new & Hl' & Hg & Hu). exists (new ++ q). rewrite Hl, Hl', app_assoc, Hn.
  split_and!; [done|by apply (guarded_quiet cfg hash wallet kind n0 (mkKinds true false false false))|].
  rewrite zlen_app, uses_app, (uses_none (mkKinds true false false false) q eq_refl Hf). pose proof (zlen_nonneg q). intros ?. rewrite Hu; lia.
Qed.

Lemma rotation_submitted wallet c k fee l0 n0 w : wallet_ok wallet -> 0 <= n0 -> fee <= tc_stacks_fees_max_ustx cfg ->
  let kind tx := tx = StacksContractCall (CallRotateKeys c) in
  between cfg hash wallet kind l0 n0 w -> submitted_ok cfg hash wallet kind l0 n0 (submit_rotation cfg env tip wallet c k fee w).1.
Proof.
  intros Hw Hn Hfee kind Hb. unfold submit_rotation, st_bind.
  pose proof (new_sign_request_made cfg hash wallet kind l0 n0 Hn k (StacksContractCall (CallRotateKeys c)) fee eq_refl Hfee w Hb) as Hm.
  destruct (new_sign_request _ _ _ _ w) as [w2 [r| | |]]; [|by apply between_submitted|done..]. by apply process_submitted.
Qed.

Lemma responses_keep info wallet key l0 n0 : wallet_ok wallet -> 0 <= n0 ->
  keeps cfg hash wallet is_response l0 n0
    (signer_public_keys <- st_ok_or (option_map ssi_signer_set info) TeNoKeyRotationEvent;;
     ignore_error (construct_and_sign_bitcoin_sbtc_transactions cfg env tip key signer_public_keys);;;
     construct_and_sign_stacks_response_transactions cfg env tip wallet key).
Proof.
  intros Hw Hn. apply keeps_bind; [apply keeps_quiet; only_walk|]. intros keys. apply keeps_bind; [|intros _; by apply keeps_responses].
  by apply keeps_ignore, keeps_quiet, only_sbtc.
Qed.

Lemma tail_submitted info wallet key s l0 n0 w : wallet_ok wallet -> 0 <= n0 -> (forall kind, between cfg hash wallet kind l0 n0 w) ->
  submitted_ok cfg hash wallet (fun _ => True) l0 n0 (with_wallet_loaded info wallet key s w).1.
Proof.
  intros Hw Hn Hb. unfold with_wallet_loaded. destruct (negb _).
  { apply (submitted_weaken wallet is_deployment); [done|]. pose proof (keeps_deploy cfg env wallet l0 n0 Hw Hn tip key w (Hb _)) as Hk.
    destruct (deploy_smart_contracts _ _ _ _ _ w) as [w' []]; try done; by apply between_submitted. }
  unfold st_bind at 1. destruct (check_and_submit_rotate_key_transaction cfg env tip wallet key w) as [w2 r2] eqn:Hr.
  apply rotate_cases in Hr as [[Hq Hno]|(w1 & c & k & fee & r' & Hq & Hfee & Hsub & Hnone & _)].
  - assert (between cfg hash wallet is_response l0 n0 w2) as Hb' by (by eapply between_quietly).
    apply (submitted_weaken wallet is_response); [done|]. destruct r2 as [[txid|]| | |]; [by destruct (Hno txid)| |by apply between_submitted..].
    pose proof (responses_keep info wallet key l0 n0 Hw Hn w2 Hb') as Hk.
    match goal with |- submitted_ok _ _ _ _ _ _ ?x.1 => destruct x as [w' []] end; try done; by apply between_submitted.
  - pose proof (rotation_submitted wallet c k fee l0 n0 w1 Hw Hn Hfee ltac:(by eapply between_quietly)) as Hs.
    rewrite Hsub in Hs. apply (submitted_weaken wallet (fun tx => tx = StacksContractCall (CallRotateKeys c))); [done|].
    destruct r2 as [[txid|]| | |]; done.
Qed.

(** *** Rotations *)
Definition is_rotation (e : IoEvent) : bool :=
  match e with
  | IoSubmit tx _ => match stx_payload tx with PayloadContractCall _ name _ _ => bool_decide (name = "sbtc-bootstrap-signers"%string) | _ => false end
  | _ => false
  end.
Definition no_rotation (l : list IoEvent) : Prop := Forall (fun e => is_rotation e = false) l.
(** Nothing follows a rotation, and it is justified by what was read before. *)
Definition rotation_guard (before : list IoEvent) (pre : list IoEvent) (e : IoEvent) : Prop :=
  no_rotation pre /\ match e with
  | IoSubmit tx _ => is_rotation e = true -> exists c, stx_payload tx = tx_payload (StacksContractCall (CallRotateKeys c)) /\
      rotation_justified cfg env tip (before ++ pre) c
  | _ => True
  end.

Lemma no_rotation_guarded before new : no_rotation new -> guarded (rotation_guard before) new.
Proof.
  intros Hn pre e post ->. apply Forall_app in Hn as [Hpre He]. split; [done|]. inversion He as [|? ? He' _]. destruct e; try done. congruence.
Qed.
Lemma unsubmitted_no_rotation n l : k_submit n = false -> Forall (fun e => allows n e = true) l -> no_rotation l.
Proof. intros Hn Hf. eapply Forall_impl; [exact Hf|]. intros []; try done. cbn. congruence. Qed.
Lemma submitted_no_rotation wallet kind n0 new : (forall tx, kind tx -> is_response tx \/ is_deployment tx) -> guarded (submit_guard cfg hash wallet kind n0) new -> no_rotation new.
Proof.
  intros Hk Hg. apply Forall_forall. intros e (pre & post & _ & He)%(guarded_elem _ _ _ Hg). destruct e as [| | | | |tx r| | | |]; try done.
  destruct He as (_ & _ & (req & Hreq & _ & Hp & _) & _). cbn. rewrite Hp. destruct (Hk _ Hreq) as [Hr|Hr]; destruct (ssr_contract_tx req) as [[]|]; by cbn in *.
Qed.

(** The log of one request: messages, then at most one submission. *)
Lemma process_log req h m wallet w w' r : process_sign_request cfg env req h m wallet w = (w', r) ->
  exists talk, Forall (fun e => allows (mkKinds true false false false) e = true) talk /\
    (w_log w' = w_log w ++ talk \/ exists tx res, w_log w' = w_log w ++ talk ++ [IoSubmit tx res]).
Proof.
  unfold process_sign_request, st_bind. destruct (sign_stacks_transaction cfg env req m h wallet w) as [w1 r1] eqn:Hs.
  destruct (only_sign_stacks cfg env (mkKinds true false false false) req m h wallet eq_refl w) as (talk & Hl & Hf & _). rewrite Hs in Hl. cbn in Hl.
  destruct r1 as [tx| | |]; [|intros [= <- <-]; exists talk; auto..]. intros Hr. exists talk. split; [done|]. right.
  exists tx, (en_submit_tx env (w_log w1) tx). assert (w' = push (IoSubmit tx (en_submit_tx env (w_log w1) tx)) w1) as ->.
  { destruct (en_submit_tx env (w_log w1) tx) as [[]| | |]; by injection Hr as <- <-. }
  cbn. by rewrite Hl, app_assoc.
Qed.

Lemma rotation_guarded before wallet c k fee w w' r : wallet_ok wallet -> 0 <= w_nonce w -> fee <= tc_stacks_fees_max_ustx cfg ->
  submit_rotation cfg env tip wallet c k fee w = (w', r) -> rotation_justified cfg env tip (w_log w) c ->
  since before no_rotation w -> since before (guarded (rotation_guard before)) w'.
Proof.
  intros Hw Hn Hfee Hs Hj (new & Hl & Hnr). set (kind tx := tx = StacksContractCall (CallRotateKeys c)).
  pose proof (rotation_submitted wallet c k fee (w_log w) (w_nonce w) w Hw Hn Hfee (between_start wallet kind w)) as (more & Hl' & Hg). rewrite Hs in Hl'. cbn in Hl'.
  exists (new ++ more). split; [by rewrite Hl', Hl, app_assoc|].
  assert (exists talk, Forall (fun e => allows (mkKinds true false false false) e = true) talk /\ (more = talk \/ exists tx res, more = talk ++ [IoSubmit tx res])) as (talk & Hf & Hmore).
  { unfold submit_rotation, st_bind, new_sign_request, with_wallet in Hs. unfold st_bind in Hs. destruct (new_tx _ _ _) as [wl m] in Hs.
    apply process_log in Hs as (talk & Hf & Hs). cbn [w_log] in Hs. exists talk. split; [done|].
    destruct Hs as [Hs|(tx & res & Hs)]; rewrite Hl' in Hs; apply app_inv_head in Hs; eauto. }
  assert (no_rotation (new ++ talk)) as Hnt by (apply Forall_app; split; [done|]; by apply (unsubmitted_no_rotation (mkKinds true false false false))).
  destruct Hmore as [->|(tx & res & ->)]; [by apply no_rotation_guarded|]. rewrite app_assoc. apply guarded_snoc; [by apply no_rotation_guarded|].
  split; [done|]. intros _. exists c. specialize (Hg talk (IoSubmit tx res) [] eq_refl) as (_ & _ & (req & Hreq & _ & Hp & _) & _). rewrite Hreq in Hp. split; [done|].
  rewrite app_assoc, <- Hl. by apply rotation_justified_mono.
Qed.

Lemma tail_rotations before info wallet key s w : wallet_ok wallet -> 0 <= w_nonce w -> since before no_rotation w ->
  since before (guarded (rotation_guard before)) (with_wallet_loaded info wallet key s w).1.
Proof.
  intros Hw Hn Hs. assert (forall w', since before no_rotation w' -> since before (guarded (rotation_guard before)) w') as Hguard.
  { intros w' (new & Hl & Hnr). exists new. split; [done|]. by apply no_rotation_guarded. }
  assert (forall kind (w1 w' : World), (forall tx, kind tx -> is_response tx \/ is_deployment tx) -> since before no_rotation w1 ->
    submitted_ok cfg hash wallet kind (w_log w1) (w_nonce w1) w' -> since before no_rotation w') as Hsub.
  { intros kind w1 w' Hk (new & Hl & Hnr) (more & Hl' & Hg). exists (new ++ more). split; [by rewrite Hl', Hl, app_assoc|].
    apply Forall_app. split; [done|]. by eapply submitted_no_rotation. }
  unfold with_wallet_loaded. destruct (negb _).
  { apply Hguard, (Hsub is_deployment w); [auto|done|].
    pose proof (keeps_deploy cfg env wallet (w_log w) (w_nonce w) Hw Hn tip key w (between_start _ _ w)) as Hk.
    destruct (deploy_smart_contracts _ _ _ _ _ w) as [w' []]; try done; by apply between_submitted. }
  unfold st_bind at 1. destruct (check_and_submit_rotate_key_transaction cfg env tip wallet key w) as [w2 r2] eqn:Hr.
  assert (forall w1, quietly w w1 -> since before no_rotation w1 /\ w_nonce w1 = w_nonce w) as Hquiet.
  { intros w1 (q & Hl & Hf & Hnn). destruct Hs as (new & Hl' & Hnr). split; [|done]. exists (new ++ q). split; [by rewrite Hl, Hl', app_assoc|].
    apply Forall_app. split; [done|]. by apply (unsubmitted_no_rotation (mkKinds true false false false)). }
  apply rotate_cases in Hr as [[Hq Hno]|(w1 & c & k & fee & r' & Hq & Hfee & Hsub' & Hnone & Hj)]; apply Hquiet in Hq as [Hs2 Hn2].
  - destruct r2 as [[txid|]| | |]; [by destruct (Hno txid)| |by apply Hguard..]. apply Hguard, (Hsub is_response w2); [auto|done|].
    pose proof (responses_keep info wallet key (w_log w2) (w_nonce w2) Hw ltac:(lia) w2 (between_start _ _ w2)) as Hk.
    match goal with |- submitted_ok _ _ _ _ _ _ ?x.1 => destruct x as [w' []] end; try done; by apply between_submitted.
  - pose proof (rotation_guarded before wallet c k fee w1 w2 r' Hw ltac:(lia) Hfee Hsub' Hj Hs2) as Hg. by destruct r2 as [[txid|]| | |].
Qed.

(** *** The whole tenure *)
Lemma reads_unsubmitted new : reads new -> unsubmitted new.
Proof. intros Hr. eapply Forall_impl; [exact Hr|]. by intros []. Qed.
Lemma unsubmitted_between wallet kind l0 w : since l0 unsubmitted w -> between cfg hash wallet kind l0 (w_nonce w) w.
Proof.
  intros (new & Hl & Hf). exists new. split_and!; [done| |].
  - apply (guarded_quiet cfg hash wallet kind (w_nonce w) (mkKinds true false true false) []); [done|apply guarded_nil|done].
  - intros _. rewrite (uses_none (mkKinds true false true false) new eq_refl Hf). lia.
Qed.

(** The nonce was read from the node for the address of the wallet. *)
Definition node_nonce (wallet : SignerWallet) (log : list IoEvent) (n : Z) : Prop :=
  wallet_ok wallet /\ exists t, t `prefix_of` log /\ en_account_nonce env t (wl_address wallet) = Ok n.
Definition tenure_submitted (l0 : list IoEvent) (w : World) : Prop :=
  since l0 unsubmitted w \/ exists wallet n0, node_nonce wallet (w_log w) n0 /\ submitted_ok cfg hash wallet (fun _ => True) l0 n0 w.

Lemma coordinated_since l0 w : since l0 unsubmitted w ->
  let v := (coordinate_tenure cfg env tip w).1 in
  since l0 unsubmitted v \/
  exists w1 info wallet key s, v = (with_wallet_loaded info wallet key s w1).1 /\ since l0 unsubmitted w1 /\ wallet_ok wallet /\ 0 <= w_nonce w1 /\
    node_nonce wallet (w_log w1) (w_nonce w1).
Proof.
  intros (new & Hl & Hf) v. unfold v. destruct (coordinate_tenure cfg env tip w) as [w' r] eqn:Hc.
  assert (forall q u, w_log u = w_log w ++ q -> unsubmitted q -> since l0 unsubmitted u) as Hs.
  { intros q u Hu Hq. exists (new ++ q). rewrite Hu, Hl, app_assoc. split; [done|]. by apply Forall_app. }
  apply coordinate_cases in Hc as [(q & Hu & Hq)|(w1 & q & info & wallet & key & s & Hw & Hu & Hq & Hok & t & Ht & Hn)]; [left; by eapply Hs|].
  right. exists w1, info, wallet, key, s. rewrite Hw. split_and!; [done|by eapply Hs|done|by eapply account_nonce_nonneg|by split; eauto].
Qed.

Lemma tenure_outcome l0 (Q : World -> Prop) w : w_log w = l0 -> (forall v, since l0 unsubmitted v -> Q v) ->
  (forall v info wallet key s, since l0 unsubmitted v -> wallet_ok wallet -> 0 <= w_nonce v -> node_nonce wallet (w_log v) (w_nonce v) ->
     Q (with_wallet_loaded info wallet key s v).1) ->
  Q (process_new_blocks cfg env tip w).1.
Proof.
  intros <- Hq Ht. apply (all_outcomes_1 (since (w_log w) reads) _ Q); [|apply since_reads_start].
  assert (forall v, since (w_log w) reads v -> since (w_log w) unsubmitted v) as Hr by (intros v (new & Hl & Hf); exists new; split; [done|by apply reads_unsubmitted]).
  apply hoare_tenure; [auto|]. intros v [Hv _].
  assert (Q (coordinate_tenure cfg env tip v).1) as HQ.
  { destruct (coordinated_since (w_log w) v (Hr v Hv)) as [Hs|(w1 & info & wallet & key & s & -> & ? & ? & ? & ?)]; [by apply Hq|by apply Ht]. }
  by destruct (coordinate_tenure cfg env tip v) as [w' []].
Qed.

Lemma tenure_is_submitted w : tenure_submitted (w_log w) (process_new_blocks cfg env tip w).1.
Proof.
  apply (tenure_outcome (w_log w)); [done|by left|]. intros v info wallet key s Hs Hw Hn (_ & t & Ht & Hr). right. exists wallet, (w_nonce v).
  pose proof (tail_submitted info wallet key s (w_log w) (w_nonce v) v Hw Hn (fun kind => unsubmitted_between wallet kind _ _ Hs)) as Hsub. split; [|done].
  split; [done|]. exists t. split; [|done]. destruct (only_tail info wallet key s v) as (q & Hq & _). rewrite Hq. by apply prefix_app_r.
Qed.

Lemma tenure_rotations w : since (w_log w) (guarded (rotation_guard (w_log w))) (process_new_blocks cfg env tip w).1.
Proof.
  assert (forall v, since (w_log w) unsubmitted v -> since (w_log w) no_rotation v) as Hu.
  { intros v (new & Hl & Hf). exists new. split; [done|]. by apply (unsubmitted_no_rotation (mkKinds true false true false)). }
  apply (tenure_outcome (w_log w)); [done| |].
  - intros v Hs. destruct (Hu v Hs) as (new & Hl & Hf). exists new. split; [done|]. by apply no_rotation_guarded.
  - intros v info wallet key s Hs Hw Hn _. apply tail_rotations; auto.
Qed.
End Tenure.

Section StacksClaims.
Context {wc : WstsCrypto} {po : PartyOps} {ml : MachineLibs} {bl : BitcoinLib} {sl : StacksLib} {cl : CoordLib} {sw : StacksLaws}.

(** C9: however the environment behaves, a tenure that submits Stacks
    transactions read the account nonce [n0] of its wallet's address from the
    node; each transaction it submits spends from that address and passes the
    node's check of an order-independent multi-signature; the request for signatures that
    describes it (same payload, nonce and fee) was sent to the signers at the tip
    before; the fee is at most [stacks_fees_max_ustx]; and the nonce is [n0]
    plus the number of nonces used up before (accepted submissions and
    conflicts in the mempool), so that no nonce is skipped or used twice,
    unless the 64-bit counter saturates. *)
Theorem tenure_submissions (cfg : TenureConfig) (env : TenureEnv) (tip : BitcoinBlockRef) w :
  (forall t a n, en_account_nonce env t a = Ok n -> 0 <= n) ->
  tenure_submitted cfg env tip (w_log w) (process_new_blocks cfg env tip w).1.
Proof. intros Hn. by apply tenure_is_submitted. Qed.

(** C12: however the environment behaves, a tenure submits a key rotation only
    for the latest DKG shares, loaded from the database, of a key other than the
    registered one, and only when a signing round with that key has succeeded in
    this tenure or the shares are already verified with the verification window
    past; and the rotation is the last event of the tenure: no sweep, message or
    other transaction follows it. *)
Theorem rotation_ends_tenure (cfg : TenureConfig) (env : TenureEnv) (tip : BitcoinBlockRef) w :
  (forall t a n, en_account_nonce env t a = Ok n -> 0 <= n) ->
  since (w_log w) (guarded (rotation_guard cfg env tip (w_log w))) (process_new_blocks cfg env tip w).1.
Proof. intros Hn. by apply tenure_rotations. Qed.
End StacksClaims.

(** ** Witnesses: the demo tenures *)
Section Witnesses.
Import DemoTenure.
#[local] Existing Instance DemoStacks.demo_stacks_laws.

Lemma tenure_submissions_witness :
  let v := (process_new_blocks (config 20) (env false) tip start).1 in
  submitted v = [("sbtc-registry"%string, 6, 500); ("sbtc-token"%string, 7, 500)] /\
  exists wallet n0, node_nonce (env false) wallet (w_log v) n0 /\ submitted_ok (config 20) 77 wallet (fun _ => True) [] n0 v.
Proof.
  cbv zeta. split; [by vm_compute|].
  destruct (tenure_submissions (config 20) (env false) tip start ltac:(by intros t a n [= <-])) as [(new & Hl & Hf)|H]; [|exact H].
  exfalso.
  assert (existsb (fun e => negb (allows (mkKinds true false true false) e)) (w_log (process_new_blocks (config 20) (env false) tip start).1) = true) as He by (by vm_compute).
  rewrite Hl in He. apply existsb_exists in He as (e & Hin%list_elem_of_In & He). rewrite Forall_forall in Hf. by rewrite (Hf e Hin) in He.
Defined.

Lemma rotation_ends_tenure_witness :
  let v := (process_new_blocks (config 20) (env true) tip start).1 in
  submitted v = [("sbtc-bootstrap-signers"%string, 6, 500)] /\
  since [] (guarded (rotation_guard (config 20) (env true) tip [])) v.
Proof. split; [by vm_compute|]. apply (rotation_ends_tenure (config 20) (env true) tip start). by intros t a n [= <-]. Defined.
End Witnesses.
