(* ===== verification/TxSigner.v ===== *)
(** * The transaction signer ([signer/src/transaction_signer.rs])

    The event loop that answers the coordinator: it validates pre-sign requests
    and remembers the sighashes it will sign, signs Stacks transactions
    ([StacksSigning]), takes part in DKG and in signing rounds, and marks DKG
    shares as verified.

    The state of the loop is the record [TxSigner]; its log lists what the loop
    received, sent and wrote. As for the coordinator, every answer of the
    database, the network, the clock and the random generator may depend on
    the whole log. The two caches of state machines are those of the [lru]
    crate, the class [LruCache]. *)

From Stdlib Require Import SpecFloat.
From stdpp Require Import strings.
From S2P Require Import Prelude Effects Types Consts WstsNet DkgVerification WstsFrost FrostVerification WstsFire WstsSigner WstsMachines.
From S2P Require Import Bitcoin SignerState Packaging Requests Sweep Validation Contracts StacksSigning Wallet Coordinator.

(** ** Identifiers and reports *)
(** [StateMachineId] ([wsts_state_machine.rs]) *)
Inductive StateMachineId :=
| MachDkg (tip : BitcoinBlockRef)
| MachBitcoinSign (sighash : Z)
| MachDkgVerification (key : XOnlyPublicKey) (tip : BitcoinBlockRef).
#[global] Instance StateMachineId_eq_dec : EqDecision StateMachineId.
Proof. solve_decision. Defined.

#[global] Instance DkgSharesStatus_eq_dec : EqDecision DkgSharesStatus.
Proof. solve_decision. Defined.

Inductive ChainTipStatus := Canonical | NonCanonical.
Record MsgChainTipReport := mkReport {
  mr_sender_is_coordinator : bool;
  mr_chain_tip_status : ChainTipStatus;
  mr_chain_tip : BitcoinBlockRef }.
Definition is_from_canonical_coordinator (r : MsgChainTipReport) : bool :=
  match mr_chain_tip_status r with Canonical => mr_sender_is_coordinator r | NonCanonical => false end.

Record AcceptedSigHash := mkAcceptedSigHash { as_sighash : Z; as_public_key : XOnlyPublicKey }.

(** ** The cache of the [lru] crate, as far as the loop uses it *)
Class LruCache (C K V : Type) := {
  cache_get : K -> C -> option V * C;                        (* [get] and [get_mut], which promote the key *)
  cache_set : K -> V -> C -> C;                              (* a write through the reference of [get_mut] *)
  cache_put : K -> V -> C -> C;
  cache_pop : K -> C -> C;
  cache_contains : K -> C -> bool }.

(** [TapSighash::from_slice] *)
Class SighashLib := { sighash_from_slice : list Z -> option Z }.

Section TxSigner.
Context {wc : WstsCrypto} {po : PartyOps} {ml : MachineLibs} {bl : BitcoinLib} {sl : StacksLib} {cl : CoordLib} {hl : SighashLib}.
#[local] Instance verification_ops : FrostOps FrostCoordinator := frost_ops pubkey_of_point.
Context {WC DC RC : Type} `{!LruCache WC StateMachineId SignerStateMachine} `{!LruCache DC StateMachineId (StateMachine FrostCoordinator)} `{!LruOps RC}.

(** ** State, errors and environment *)
Inductive SignerLoopError :=
| SeNoChainTip
| SeInvalidPresignRequest (tip : BlockHash)
| SeNoDkgShares
| SeNoVerifiedDkgShares
| SeDkgHasAlreadyRun
| SeSigHashConversion
| SeInvalidSigHash (h : Z)
| SeUnknownSigHash (h : Z)
| SeAggregateKeyMismatch (actual expected : XOnlyPublicKey)
| SeDkgVerificationFailed (k : XOnlyPublicKey)
| SeDkgVerificationWindowElapsed (k : PublicKey)
| SeMissingStateMachine (i : StateMachineId)
| SeUnexpectedStateMachineId (i : StateMachineId)
| SeMissingPublicKey
| SePublicKeyMismatch (wsts sender : PublicKey)
| SeMissingDkgShares (k : XOnlyPublicKey)
| SeDkgVerification (e : VerificationError)
| SeDkgVerificationEnded (k : XOnlyPublicKey) (s : State)
| SeInvalidSigningOperation
| SeMachine (e : MachineError)
| SeValidation (e : ValidationError)
| SeSweep (e : SweepError)
| SeSigning (e : SigningError)
| SeTenure (e : TenureError)
| SeClient (n : Z).

Inductive SignerIo :=
| SioQuery                                                   (* a read of the database, the state, the clock or random bytes *)
| SioSleep
| SioReceive (m : SignedMessage)
| SioSend (m : SignedMessage)
| SioSignal
| SioSendSignature (m : StacksTransactionSignature) (tip : BlockHash)   (* the send of [StacksSigning], which succeeded *)
| SioWriteSighashes (rows : list BitcoinTxSigHash)
| SioWriteWithdrawalOutputs (rows : list BitcoinWithdrawalOutput)
| SioWriteShares (row : DkgSharesRow)
| SioVerifyShares (k : XOnlyPublicKey)
| SioRevokeShares (k : XOnlyPublicKey).
Abbreviation SLog := (list SignerIo).

Record TxSigner := mkTxSigner {
  ts_wsts_state_machines : WC;
  ts_last_presign_block : option BlockHash;
  ts_dkg_verification_state_machines : DC;
  ts_stacks_sign_request : RC;
  ts_log : SLog }.
Abbreviation S_ := (st TxSigner SignerLoopError).

Record SignerEnv := mkSignerEnv {
  se_state : SLog -> SignerState;
  se_latest_shares : SLog -> outcome Z (option DkgSharesRow);
  se_latest_non_failed_shares : SLog -> outcome Z (option DkgSharesRow);
  se_latest_verified_shares : SLog -> outcome Z (option DkgSharesRow);
  se_shares : SLog -> XOnlyPublicKey -> outcome MachineError (option DkgSharesRow);
  se_will_sign : SLog -> Z -> outcome Z (option (bool * XOnlyPublicKey));
  se_validation : SLog -> ValidationEnv;
  se_signing : SLog -> SigningEnv;
  se_write : SLog -> outcome Z unit;                           (* the outcome of the write logged last *)
  se_network_broadcast : SLog -> outcome Z unit;
  se_signal : SLog -> outcome Z unit;
  se_rng : SLog -> Rng;
  se_now : SLog -> Z }.

Variables (cfg : TenureConfig) (dkg_begin_pause : option Z) (env : SignerEnv).

Definition set_log (l : SLog) (w : TxSigner) : TxSigner :=
  mkTxSigner (ts_wsts_state_machines w) (ts_last_presign_block w) (ts_dkg_verification_state_machines w) (ts_stacks_sign_request w) l.
Definition record (e : SignerIo) (w : TxSigner) : TxSigner := set_log (ts_log w ++ [e]) w.
Definition log_event (e : SignerIo) : S_ unit := st_modify (record e).
Definition sask {A} (f : SLog -> outcome SignerLoopError A) : S_ A := fun w => (record SioQuery w, f (ts_log w)).
Definition squery {A} (f : SLog -> outcome Z A) : S_ A := sask (fun t => map_err SeClient (f t)).
Definition sstate : S_ SignerState := sask (fun t => Ok (se_state env t)).
Definition swrite (e : SignerIo) : S_ unit := log_event e;;; squery (se_write env).

Definition with_wsts {A} (f : WC -> A * WC) : S_ A := fun w =>
  let (a, c) := f (ts_wsts_state_machines w) in
  (mkTxSigner c (ts_last_presign_block w) (ts_dkg_verification_state_machines w) (ts_stacks_sign_request w) (ts_log w), Ok a).
Definition with_verification {A} (f : DC -> A * DC) : S_ A := fun w =>
  let (a, c) := f (ts_dkg_verification_state_machines w) in
  (mkTxSigner (ts_wsts_state_machines w) (ts_last_presign_block w) c (ts_stacks_sign_request w) (ts_log w), Ok a).
Definition set_last_presign_block (tip : BlockHash) : S_ unit := st_modify (fun w =>
  mkTxSigner (ts_wsts_state_machines w) (Some tip) (ts_dkg_verification_state_machines w) (ts_stacks_sign_request w) (ts_log w)).
Definition update {C} (f : C -> C) : C -> unit * C := fun c => (tt, f c).

Definition signer_public_key_of : PublicKey := public_of_private (tc_private_key cfg).

Definition ts_send_message (payload : Payload) (tip : BlockHash) : S_ unit :=
  log_event (SioSend (mkSignedMessage tip payload signer_public_key_of));;;
  squery (se_network_broadcast env);;;
  log_event SioSignal;;;
  squery (se_signal env).

(** ** Checks *)
Definition inspect_msg_chain_tip (msg_sender : PublicKey) (msg_bitcoin_chain_tip : BlockHash) : S_ MsgChainTipReport :=
  s <- sstate;;
  chain_tip <- st_ok_or (st_bitcoin_chain_tip s) SeNoChainTip;;
  s <- sstate;;
  sender_is_coordinator <- st_lift (map_err SeTenure
    (given_key_is_coordinator msg_sender (bbr_block_hash chain_tip) (coordinator_signer_set cfg s)));;
  let status := if msg_bitcoin_chain_tip =? bbr_block_hash chain_tip then Canonical else NonCanonical in
  st_ret (mkReport sender_is_coordinator status chain_tip).

Definition assert_allow_dkg_begin (tip : BitcoinBlockRef) : S_ unit :=
  latest <- squery (se_latest_non_failed_shares env);;
  s <- sstate;;
  if negb (dkg_decision cfg latest s tip) then st_throw SeDkgHasAlreadyRun else st_ret tt.

Definition validate_bitcoin_sign_request (msg : list Z) : S_ AcceptedSigHash :=
  sighash <- st_ok_or (sighash_from_slice msg) SeSigHashConversion;;
  found <- squery (fun t => se_will_sign env t sighash);;
  match found with
  | Some (true, public_key) => st_ret (mkAcceptedSigHash sighash public_key)
  | Some (false, _) => st_throw (SeInvalidSigHash sighash)
  | None => st_throw (SeUnknownSigHash sighash)
  end.

Definition validate_dkg_verification_message (new_key : XOnlyPublicKey) (message : option (list Z)) (tip : BitcoinBlockRef) : S_ unit :=
  latest <- squery (se_latest_shares env);;
  latest_shares <- st_ok_or latest SeNoDkgShares;;
  let latest_key := x_only (dr_aggregate_key latest_shares) in
  if negb (bool_decide (new_key = latest_key)) then st_throw (SeAggregateKeyMismatch latest_key new_key) else
  if bool_decide (dr_status latest_shares = Failed) then st_throw (SeDkgVerificationFailed latest_key) else
  let max_verification_height := saturating_add 64 (dr_started_at_height latest_shares) (tc_dkg_verification_window cfg) in
  if max_verification_height <? bbr_block_height tip then st_throw (SeDkgVerificationWindowElapsed (dr_aggregate_key latest_shares)) else
  match message with
  | None => st_ret tt
  | Some message =>
      tap_sighash <- st_lift (map_err SeSweep (compute_sighash (mock_new new_key)));;
      if negb (bool_decide (hash_bytes tap_sighash = message)) then st_throw (SeInvalidSigHash tap_sighash) else st_ret tt
  end.

(** [SignerStateMachine::get_signer_public_key] *)
Definition get_signer_public_key (m : SignerStateMachine) (signer_id : Z) : option PublicKey :=
  pubkey_of_ecdsa <$> pks_signers (sg_public_keys (ssm_inner m)) !! signer_id.

Definition ts_validate_sender (id : StateMachineId) (signer_id : Z) (sender_public_key : PublicKey) : S_ unit :=
  found <- with_wsts (cache_get id);;
  state_machine <- st_ok_or found (SeMissingStateMachine id);;
  wsts_public_key <- st_ok_or (get_signer_public_key state_machine signer_id) SeMissingPublicKey;;
  if negb (wsts_public_key =? sender_public_key) then st_throw (SePublicKeyMismatch wsts_public_key sender_public_key) else st_ret tt.

(** ** DKG shares and their verification *)
Definition store_dkg_shares (id : StateMachineId) : S_ unit :=
  found <- with_wsts (cache_get id);;
  state_machine <- st_ok_or found (SeMissingStateMachine id);;
  match id with
  | MachDkg _ =>
      row <- st_lift (map_err SeMachine (get_encrypted_dkg_shares state_machine));;
      swrite (SioWriteShares row)
  | _ => st_throw (SeUnexpectedStateMachineId id)
  end.

Definition create_dkg_verification_state_machine (aggregate_key : XOnlyPublicKey) : S_ (StateMachine FrostCoordinator) :=
  found <- sask (fun t => map_err SeMachine (se_shares env t aggregate_key));;
  st_ok_or found (SeMissingDkgShares aggregate_key);;;
  coordinator <- sask (fun t => map_err SeMachine (frost_machine_load (se_shares env t) aggregate_key (tc_private_key cfg)));;
  now <- sask (fun t => Ok (se_now env t));;
  st_ret (state_machine_new coordinator aggregate_key None now).

Definition is_end_state (s : State) : bool :=
  match s with StSuccess _ | StError | StExpired => true | StIdle | StSigning => false end.

Definition assert_dkg_verification_state_machine_state (id : StateMachineId) : S_ unit :=
  match id with
  | MachDkgVerification aggregate_key _ =>
      found <- with_verification (cache_get id);;
      state_machine <- st_ok_or found (SeMissingStateMachine id);;
      if is_end_state (sm_state state_machine) then
        with_wsts (update (cache_pop id));;;
        st_throw (SeDkgVerificationEnded aggregate_key (sm_state state_machine))
      else st_ret tt
  | _ => st_throw (SeUnexpectedStateMachineId id)
  end.

Definition ensure_dkg_verification_state_machine (aggregate_key : XOnlyPublicKey) (tip : BitcoinBlockRef) : S_ StateMachineId :=
  let id := MachDkgVerification aggregate_key tip in
  known <- with_verification (fun c => (cache_contains id c, c));;
  (if negb known then
     coordinator <- create_dkg_verification_state_machine aggregate_key;;
     with_verification (update (cache_put id coordinator))
   else assert_dkg_verification_state_machine_state id);;;
  st_ret id.

(** The end of a verification round: the signature must spend the mock
    transaction. *)
Definition verification_ended (id : StateMachineId) (aggregate_key : XOnlyPublicKey) (s : State) : S_ unit :=
  match s with
  | StSuccess signature =>
      with_wsts (update (cache_pop id));;;
      with_verification (update (cache_pop id));;;
      if verify_signature (mock_new aggregate_key) signature
      then swrite (SioVerifyShares aggregate_key)
      else swrite (SioRevokeShares aggregate_key)
  | StError | StExpired =>
      with_verification (update (cache_pop id));;;
      with_wsts (update (cache_pop id));;;
      st_throw (SeDkgVerificationFailed aggregate_key)
  | StIdle | StSigning => st_ret tt
  end.

Definition process_dkg_verification_message (id : StateMachineId) (sender : PublicKey) (signer_id : option Z) (msg : Message) : S_ unit :=
  match id with
  | MachDkgVerification aggregate_key _ =>
      found <- with_verification (cache_get id);;
      state_machine <- st_ok_or found (SeMissingStateMachine id);;
      match signer_id with
      | Some signer_id => st_lift (map_err SeDkgVerification (validate_sender state_machine signer_id sender))
      | None => st_ret tt
      end;;;
      now <- sask (fun t => Ok (se_now env t));;
      let '(state_machine, r) := process_message now sender msg state_machine in
      with_verification (update (cache_set id state_machine));;;
      st_lift (map_err SeDkgVerification r);;;
      verification_ended id aggregate_key (sm_state state_machine)
  | _ => st_throw (SeUnexpectedStateMachineId id)
  end.

(** ** Processing messages in the state machines *)
Definition wsts_process (id : StateMachineId) (msg : Message) : S_ (list Message) :=
  found <- with_wsts (cache_get id);;
  state_machine <- st_ok_or found (SeMissingStateMachine id);;
  rng <- sask (fun t => Ok (se_rng env t));;
  let '(state_machine, r) := ssm_process msg rng state_machine in
  with_wsts (update (cache_set id state_machine));;;
  st_lift (map_err SeMachine r).

Definition is_dkg_verification (id : StateMachineId) (tip : BlockHash) : bool :=
  match id with MachDkgVerification _ chain_tip => bbr_block_hash chain_tip =? tip | _ => false end.

(** Our own messages, which the machines expect to read as well. *)
Fixpoint process_own (id : StateMachineId) (sender : PublicKey) (signer_id : option Z) (verification : bool) (outbound : list Message) : S_ unit :=
  match outbound with
  | [] => st_ret tt
  | m :: outbound =>
      wsts_process id m;;;
      (if verification then process_dkg_verification_message id sender signer_id m else st_ret tt);;;
      process_own id sender signer_id verification outbound
  end.

Definition dkg_succeeded (m : Message) : bool :=
  match m with MsgDkgEnd e => match de_status e with StatusSuccess => true | StatusFailure _ => false end | _ => false end.

Fixpoint publish (id : StateMachineId) (wsts_id : WstsMessageId) (tip : BlockHash) (outbound : list Message) : S_ unit :=
  match outbound with
  | [] => st_ret tt
  | m :: outbound =>
      (if dkg_succeeded m then store_dkg_shares id;;; with_wsts (update (cache_pop id)) else st_ret tt);;;
      ts_send_message (PayWsts wsts_id m) tip;;;
      publish id wsts_id tip outbound
  end.

Definition relay_message (id : StateMachineId) (wsts_id : WstsMessageId) (sender : PublicKey) (signer_id : option Z) (msg : Message)
    (tip : BlockHash) : S_ unit :=
  match signer_id with Some signer_id => ts_validate_sender id signer_id sender | None => st_ret tt end;;;
  outbound_messages <- wsts_process id msg;;
  let verification := is_dkg_verification id tip in
  (if verification then process_dkg_verification_message id sender None msg else st_ret tt);;;
  process_own id sender signer_id verification outbound_messages;;;
  publish id wsts_id tip outbound_messages.

(** ** WSTS messages *)
Definition handle_dkg_begin (id : WstsMessageId) (msg : Message) (sender : PublicKey) (chain_tip : BitcoinBlockRef) : S_ unit :=
  assert_allow_dkg_begin chain_tip;;;
  state_machine <- st_lift (map_err SeMachine (ssm_new (btree_keys (tc_bootstrap_signing_set cfg)) (tc_bootstrap_signatures_required cfg)
    (bbr_block_hash chain_tip) (bbr_block_height chain_tip) (tc_private_key cfg)));;
  let state_machine_id := MachDkg chain_tip in
  with_wsts (update (cache_put state_machine_id state_machine));;;
  match dkg_begin_pause with Some _ => log_event SioSleep | None => st_ret tt end;;;
  relay_message state_machine_id id sender None msg (bbr_block_hash chain_tip).

Definition handle_nonce_request (id : WstsMessageId) (request : NetNonceRequest) (sender : PublicKey) (chain_tip : BitcoinBlockRef) : S_ unit :=
  let load_and_relay state_machine_id aggregate_key :=
    state_machine <- sask (fun t => map_err SeMachine (ssm_load (se_shares env t) aggregate_key (tc_private_key cfg)));;
    with_wsts (update (cache_put state_machine_id state_machine));;;
    relay_message state_machine_id id sender None (MsgNonceRequest request) (bbr_block_hash chain_tip) in
  match id with
  | IdDkg _ => st_ret tt
  | IdSweep _ =>
      accepted_sighash <- validate_bitcoin_sign_request (nq_message request);;
      load_and_relay (MachBitcoinSign (as_sighash accepted_sighash)) (as_public_key accepted_sighash)
  | IdDkgVerification key =>
      let new_key := x_only key in
      validate_dkg_verification_message new_key (Some (nq_message request)) chain_tip;;;
      state_machine_id <- ensure_dkg_verification_state_machine new_key chain_tip;;
      load_and_relay state_machine_id new_key
  end.

(** The machine of a sweep is dropped after its share, whatever the outcome. *)
Definition handle_signature_share_request (id : WstsMessageId) (request : NetSignatureShareRequest) (sender : PublicKey)
    (chain_tip : BitcoinBlockRef) : S_ unit :=
  let relay state_machine_id :=
    relay_message state_machine_id id sender None (MsgSignatureShareRequest request) (bbr_block_hash chain_tip) in
  match id with
  | IdDkg _ => st_ret tt
  | IdSweep _ =>
      accepted_sighash <- validate_bitcoin_sign_request (sq_message request);;
      let state_machine_id := MachBitcoinSign (as_sighash accepted_sighash) in
      fun w =>
        let '(w', response) := relay state_machine_id w in
        match response with
        | Panic | Diverge => (w', response)
        | _ => (with_wsts (update (cache_pop state_machine_id));;; st_lift response) w'
        end
  | IdDkgVerification key =>
      let new_key := x_only key in
      validate_dkg_verification_message new_key (Some (sq_message request)) chain_tip;;;
      let state_machine_id := MachDkgVerification new_key chain_tip in
      assert_dkg_verification_state_machine_state state_machine_id;;;
      relay state_machine_id
  end.

Definition handle_wsts_message (id : WstsMessageId) (inner : Message) (msg_public_key : PublicKey) (report : MsgChainTipReport) : S_ unit :=
  let chain_tip := mr_chain_tip report in
  let dkg_id := MachDkg chain_tip in
  let hash := bbr_block_hash chain_tip in
  match inner with
  | MsgDkgBegin _ => if negb (is_from_canonical_coordinator report) then st_ret tt else handle_dkg_begin id inner msg_public_key chain_tip
  | MsgDkgPrivateBegin _ | MsgDkgEndBegin _ =>
      if negb (is_from_canonical_coordinator report) then st_ret tt else relay_message dkg_id id msg_public_key None inner hash
  | MsgDkgPublicShares request => relay_message dkg_id id msg_public_key (Some (dps_signer_id request)) inner hash
  | MsgDkgPrivateShares request => relay_message dkg_id id msg_public_key (Some (dvs_signer_id request)) inner hash
  | MsgDkgEnd _ => st_ret tt
  | MsgNonceRequest request =>
      if negb (is_from_canonical_coordinator report) then st_ret tt else handle_nonce_request id request msg_public_key chain_tip
  | MsgSignatureShareRequest request =>
      if negb (is_from_canonical_coordinator report) then st_ret tt else handle_signature_share_request id request msg_public_key chain_tip
  | MsgNonceResponse request =>
      match id with
      | IdDkg _ => st_throw SeInvalidSigningOperation
      | IdSweep _ => st_ret tt
      | IdDkgVerification key =>
          let new_key := x_only key in
          validate_dkg_verification_message new_key (Some (nr_message request)) chain_tip;;;
          state_machine_id <- ensure_dkg_verification_state_machine new_key chain_tip;;
          process_dkg_verification_message state_machine_id msg_public_key (Some (nr_signer_id request)) inner
      end
  | MsgSignatureShareResponse request =>
      match id with
      | IdDkg _ => st_throw SeInvalidSigningOperation
      | IdSweep _ => st_ret tt
      | IdDkgVerification key =>
          let new_key := x_only key in
          validate_dkg_verification_message new_key None chain_tip;;;
          let state_machine_id := MachDkgVerification new_key chain_tip in
          assert_dkg_verification_state_machine_state state_machine_id;;;
          process_dkg_verification_message state_machine_id msg_public_key (Some (sr_signer_id request)) inner
      end
  end.

(** ** Pre-sign requests *)
Definition presign_aggregate_key : S_ PublicKey :=
  s <- sstate;;
  aggregate_key <- st_ok_or (option_map ssi_aggregate_key (st_registry_signing_set_info s)) SeNoDkgShares;;
  dkg_shares <- sask (fun t => map_err SeMachine (se_shares env t (x_only aggregate_key)));;
  match option_map dr_status dkg_shares with
  | Some Verified => st_ret aggregate_key
  | _ =>
      latest <- squery (se_latest_verified_shares env);;
      row <- st_ok_or latest SeNoVerifiedDkgShares;;
      st_ret (dr_aggregate_key row)
  end.

Definition handle_bitcoin_pre_sign_request (request : BitcoinPreSignRequest) (chain_tip : BitcoinBlockRef) : S_ unit :=
  let hash := bbr_block_hash chain_tip in
  w <- st_get;;
  if bool_decide (ts_last_presign_block w = Some hash) then st_throw (SeInvalidPresignRequest hash) else
  set_last_presign_block hash;;;
  aggregate_key <- presign_aggregate_key;;
  let btc_ctx := mkTxContext hash (bbr_block_height chain_tip) signer_public_key_of aggregate_key in
  sighashes <- sask (fun t => map_err SeValidation (construct_package_sighashes request (se_validation env t) btc_ctx));;
  deposits_sighashes <- st_lift (infallible (collect to_input_rows sighashes));;
  withdrawals_outputs <- st_lift (infallible (collect to_withdrawal_rows sighashes));;
  swrite (SioWriteSighashes (concat deposits_sighashes));;;
  swrite (SioWriteWithdrawalOutputs (concat withdrawals_outputs));;;
  ts_send_message PayPreSignAck hash.

(** ** Stacks transactions, by the handler of [StacksSigning] *)
Definition sign_stacks_request (request : StacksTransactionSignRequest) (chain_tip : BitcoinBlockRef) (origin : PublicKey) : S_ unit := fun w =>
  let '(c, r) := handle_stacks_transaction_sign_request (se_signing env (ts_log w)) request chain_tip origin (ts_stacks_sign_request w) in
  let w := record SioQuery (mkTxSigner (ts_wsts_state_machines w) (ts_last_presign_block w) (ts_dkg_verification_state_machines w) c (ts_log w)) in
  match r with
  | Ok m => (record (SioSendSignature m (bbr_block_hash chain_tip)) w, Ok tt)
  | Err e => (w, Err (SeSigning e))
  | Panic => (w, Panic)
  | Diverge => (w, Diverge)
  end.

(** ** The loop *)
Definition handle_signer_message (msg : SignedMessage) : S_ unit :=
  report <- inspect_msg_chain_tip (sm_signer_public_key msg) (sm_bitcoin_chain_tip msg);;
  match sm_payload msg, mr_sender_is_coordinator report, mr_chain_tip_status report with
  | PaySignRequest request, true, Canonical => sign_stacks_request request (mr_chain_tip report) (sm_signer_public_key msg)
  | PayWsts id inner, _, Canonical => handle_wsts_message id inner (sm_signer_public_key msg) report
  | PayPreSignRequest request _, true, Canonical => handle_bitcoin_pre_sign_request request (mr_chain_tip report)
  | _, _, _ => st_ret tt
  end.

Definition ts_message_filter (s : SignerSignal) : bool :=
  match s with
  | SignalMessageReceived m =>
      match sm_payload m with
      | PayDepositDecision _ | PayWithdrawalDecision _ | PaySignature _ _ | PayPreSignAck => false
      | _ => true
      end
  | SignalShutdown | SignalTxCoordinatorMessage _ => true
  | _ => false
  end.

(** The signals of the stream, in order, until it closes or the signer shuts
    down; an error is logged. *)
Fixpoint ts_loop (signals : list SignerSignal) : S_ unit :=
  match signals with
  | [] => st_ret tt
  | SignalShutdown :: _ => st_ret tt
  | (SignalTxCoordinatorMessage m | SignalMessageReceived m) :: signals =>
      log_event (SioReceive m);;;
      st_catch (handle_signer_message m) (fun _ => Some tt);;;
      ts_loop signals
  | _ :: signals => ts_loop signals
  end.

Definition ts_run (signals : list SignerSignal) : S_ unit :=
  log_event SioSignal;;;
  squery (se_signal env);;;
  ts_loop (List.filter ts_message_filter signals).
End TxSigner.
