(* ===== verification/TxSignerSafety.v ===== *)
(** * What the transaction signer answers ([signer/src/transaction_signer.rs])

    A signer gives out nonces and signature shares only for messages that it
    has validated, in answer to the coordinator of its own chain tip. *)

From Stdlib Require Import SpecFloat.
From stdpp Require Import strings.
From S2P Require Import Prelude Effects Types Consts WstsNet DkgVerification WstsFrost FrostVerification WstsFire WstsSigner WstsSignerDkg WstsMachines.
From S2P Require Import Bitcoin SignerState Packaging Requests Sweep Validation Contracts StacksSigning Wallet Coordinator CoordinatorDemo CoordinatorSafety TxSigner.

(** ** The answers of the WSTS signer machine *)
Section Answers.
Context {wc : WstsCrypto} {po : PartyOps}.

(** [out] may answer [msg]. *)
Definition answers (msg out : Message) : Prop :=
  match out with
  | MsgSignatureShareResponse _ => exists r, msg = MsgSignatureShareRequest r
  | MsgNonceResponse n => exists r, msg = MsgNonceRequest r /\ nr_message n = nq_message r
  | _ => True
  end.

Definition yields {A} (P : A -> Prop) (m : st (WstsSigner.Signer * Rng) SignerError A) : Prop := forall s s' a, m s = (s', Ok a) -> P a.
Lemma yields_bind {A B} (P : B -> Prop) (m : st (WstsSigner.Signer * Rng) SignerError A) k : (forall a, yields P (k a)) -> yields P (st_bind m k).
Proof. intros Hk s s' b (s1 & a & _ & Hb)%st_bind_ok. by eapply Hk. Qed.
Lemma yields_ret {A} (P : A -> Prop) a : P a -> yields P (st_ret a).
Proof. by intros Ha s s' b [= _ <-]. Qed.
Lemma yields_throw {A} (P : A -> Prop) e : yields P (st_throw e).
Proof. by intros s s' b. Qed.

Ltac yields_walk :=
  repeat match goal with
  | |- yields _ (st_bind _ _) => apply yields_bind; intros ?
  | |- yields _ (st_ret _) => apply yields_ret
  | |- yields _ (st_throw _) => apply yields_throw
  | |- yields _ (if ?b then _ else _) => destruct b
  | |- yields _ (match ?x with _ => _ end) => destruct x
  end.

Lemma sg_handle_answers msg : yields (Forall (answers msg)) (sg_handle msg).
Proof.
  destruct msg; cbn [sg_handle]; unfold sg_dkg_begin, sg_dkg_public_begin, sg_dkg_private_begin, sg_dkg_end_begin, sg_dkg_public_share,
    sg_dkg_private_share, sg_sign_share_request, sg_nonce_request; yields_walk; repeat constructor; cbn; eauto.
Qed.

Lemma sg_ended_answers msg : yields (answers msg) sg_dkg_ended.
Proof. unfold sg_dkg_ended. yields_walk. done. Qed.

Lemma sg_process_answers msg : yields (Forall (answers msg)) (sg_process msg).
Proof.
  intros s s' out (s1 & out1 & H1%sg_handle_answers & H2)%st_bind_ok. apply st_bind_ok in H2 as (s2 & s3 & _ & H2).
  destruct (sg_can_dkg_end s3); [|by injection H2 as _ <-]. apply st_bind_ok in H2 as (s4 & e & He%(sg_ended_answers msg) & H2).
  apply st_bind_ok in H2 as (s5 & ? & _ & H2). injection H2 as _ <-. apply Forall_app. by repeat constructor.
Qed.

Context {ml : MachineLibs}.
Lemma ssm_process_answers msg rng m m' out : ssm_process msg rng m = (m', Ok out) -> Forall (answers msg) out.
Proof.
  unfold ssm_process. cbv zeta. set (r := match msg with MsgDkgBegin _ => _ | _ => rng end).
  destruct (sg_process msg (ssm_inner m, r)) as [[s r1] [o| | |]] eqn:Hp; cbn [map_err]; [|done..]. intros [= _ <-]. by eapply sg_process_answers.
Qed.
End Answers.

(** ** The events of an operation *)
Section Emits.
Context {wc : WstsCrypto} {po : PartyOps} {ml : MachineLibs} {bl : BitcoinLib} {sl : StacksLib} {cl : CoordLib} {hl : SighashLib}.
Context {WC DC RC : Type} `{!LruCache WC StateMachineId SignerStateMachine} `{!LruCache DC StateMachineId (StateMachine FrostCoordinator)} `{!LruOps RC}.
Abbreviation W := (TxSigner (WC := WC) (DC := DC) (RC := RC)).
Abbreviation S_ := (st W SignerLoopError).
Implicit Types (P Q : SignerIo -> Prop) (w : W).

Definition emits {A} P (m : S_ A) : Prop := forall w, exists new, ts_log (m w).1 = ts_log w ++ new /\ Forall P new.

Lemma emits_still {A} P (m : S_ A) : (forall w, ts_log (m w).1 = ts_log w) -> emits P m.
Proof. intros Hm w. exists []. by rewrite app_nil_r. Qed.
Lemma emits_ret {A} P (a : A) : emits P (st_ret a).
Proof. by apply emits_still. Qed.
Lemma emits_lift {A} P (o : outcome SignerLoopError A) : emits P (st_lift o).
Proof. by apply emits_still. Qed.
Lemma emits_ok_or {A} P (o : option A) e : emits P (st_ok_or o e).
Proof. by apply emits_still. Qed.
Lemma emits_throw {A} P e : emits P (st_throw (A := A) e).
Proof. by apply emits_still. Qed.
Lemma emits_get P : emits P st_get.
Proof. by apply emits_still. Qed.
Lemma emits_wsts {A} P (f : WC -> A * WC) : emits P (with_wsts f).
Proof. apply emits_still. intros w. unfold with_wsts. by destruct (f _). Qed.
Lemma emits_verification {A} P (f : DC -> A * DC) : emits P (with_verification f).
Proof. apply emits_still. intros w. unfold with_verification. by destruct (f _). Qed.
Lemma emits_presign P tip : emits P (set_last_presign_block tip).
Proof. by apply emits_still. Qed.
Lemma emits_bind {A B} P (m : S_ A) (k : A -> S_ B) : emits P m -> (forall a, emits P (k a)) -> emits P (st_bind m k).
Proof.
  intros Hm Hk w. unfold st_bind. specialize (Hm w). destruct (m w) as [w' []]; try done. destruct Hm as (new & Hl & Hf).
  destruct (Hk a w') as (new' & Hl' & Hf'). exists (new ++ new'). cbn in Hl. rewrite Hl', Hl, app_assoc. split; [done|by apply Forall_app].
Qed.
Lemma emits_catch {A} P (m : S_ A) h : emits P m -> emits P (st_catch m h).
Proof.
  intros Hm w. specialize (Hm w). unfold st_catch. destruct (m w) as [w' [| e | |]]; try done. by destruct (h e).
Qed.
Lemma emits_log P e : P e -> emits P (log_event e).
Proof. intros He w. exists [e]. split; [done|by repeat constructor]. Qed.
Lemma emits_ask {A} P (f : list SignerIo -> outcome SignerLoopError A) : P SioQuery -> emits P (sask f).
Proof. intros Hq w. exists [SioQuery]. split; [done|by repeat constructor]. Qed.
Lemma emits_query {A} P (f : list SignerIo -> outcome Z A) : P SioQuery -> emits P (squery f).
Proof. apply emits_ask. Qed.
Lemma emits_impl {A} P Q (m : S_ A) : (forall e, P e -> Q e) -> emits P m -> emits Q m.
Proof. intros Hi Hm w. destruct (Hm w) as (new & Hl & Hf). exists new. split; [done|]. eapply Forall_impl; [exact Hf|done]. Qed.
(** The result matters too. *)
Lemma emits_bind_yields {A B} P (Y : A -> Prop) (m : S_ A) (k : A -> S_ B) : emits P m -> (forall w w' a, m w = (w', Ok a) -> Y a) ->
  (forall a, Y a -> emits P (k a)) -> emits P (st_bind m k).
Proof.
  intros Hm HY Hk w. unfold st_bind. pose proof (Hm w) as Hw. destruct (m w) as [w' [a| | |]] eqn:He; try done. destruct Hw as (new & Hl & Hf).
  destruct (Hk a (HY _ _ _ He) w') as (new' & Hl' & Hf'). exists (new ++ new'). cbn in Hl. rewrite Hl', Hl, app_assoc. split; [done|by apply Forall_app].
Qed.
End Emits.

Create HintDb emits.
#[global] Hint Resolve emits_ret emits_lift emits_ok_or emits_throw emits_get emits_wsts emits_verification emits_presign : emits.
Ltac emits_step :=
  match goal with
  | |- forall _, _ => intro
  | |- emits _ (st_bind _ _) => apply emits_bind
  | |- emits _ (st_catch _ _) => apply emits_catch
  | |- emits _ (sask _) => apply emits_ask; solve [auto with emits]
  | |- emits _ (squery _) => apply emits_query; solve [auto with emits]
  | |- emits _ (sstate _) => apply emits_ask; solve [auto with emits]
  | |- emits _ (log_event _) => apply emits_log; solve [auto with emits]
  | |- emits _ (if ?b then _ else _) => destruct b eqn:?
  | |- emits _ (let '(_, _) := ?x in _) => destruct x eqn:?
  | |- emits _ (match ?x with _ => _ end) => destruct x eqn:?
  | |- _ => solve [eauto with emits]
  end.
Ltac emits_walk := repeat emits_step.

(** ** The guard *)
Section Guard.
Context {wc : WstsCrypto} {po : PartyOps} {ml : MachineLibs} {bl : BitcoinLib} {sl : StacksLib} {cl : CoordLib} {hl : SighashLib}.
Variables (cfg : TenureConfig) (env : SignerEnv).
Implicit Types (log : list SignerIo).

(** The message being handled. *)
Definition current log (m : SignedMessage) : Prop :=
  exists before after, log = before ++ SioReceive m :: after /\ Forall (fun e => forall m', e <> SioReceive m') after.

(** Its sender is the coordinator for the signer's own tip, which it names. *)
Definition from_coordinator log (tip : BitcoinBlockRef) (m : SignedMessage) : Prop :=
  sm_bitcoin_chain_tip m = bbr_block_hash tip /\
  (exists t, t `prefix_of` log /\ st_bitcoin_chain_tip (se_state env t) = Some tip) /\
  exists t, t `prefix_of` log /\
    given_key_is_coordinator (sm_signer_public_key m) (bbr_block_hash tip) (coordinator_signer_set cfg (se_state env t)) = Ok true.

(** The bytes to sign: a sighash that the database says will be signed, or the
    sighash of the mock transaction for the latest DKG shares. *)
Definition validated log (tip : BitcoinBlockRef) (id : WstsMessageId) (message : list Z) : Prop :=
  match id with
  | IdDkg _ => False
  | IdSweep _ => exists t h k, t `prefix_of` log /\ sighash_from_slice message = Some h /\ se_will_sign env t h = Ok (Some (true, k))
  | IdDkgVerification key => exists t row h, t `prefix_of` log /\ se_latest_shares env t = Ok (Some row) /\
      x_only (dr_aggregate_key row) = x_only key /\ dr_status row <> Failed /\
      bbr_block_height tip <= saturating_add 64 (dr_started_at_height row) (tc_dkg_verification_window cfg) /\
      compute_sighash (mock_new (x_only key)) = Ok h /\ hash_bytes h = message
  end.

(** The coordinator asks, in the message being handled, for something that was
    validated. *)
Definition requested log (id : WstsMessageId) (inner : Message) (message : list Z) : Prop :=
  exists m tip, current log m /\ from_coordinator log tip m /\ sm_payload m = PayWsts id inner /\ validated log tip id message.

(** The package of a pre-sign request was validated and its rows are stored. *)
Definition presign_stored log : Prop :=
  exists m tip request fees t key data rows outputs, current log m /\ from_coordinator log tip m /\ sm_payload m = PayPreSignRequest request fees /\
    t `prefix_of` log /\
    construct_package_sighashes request (se_validation env t) (mkTxContext (bbr_block_hash tip) (bbr_block_height tip) (signer_public_key_of cfg) key) = Ok data /\
    collect to_input_rows data = Ok rows /\ collect to_withdrawal_rows data = Ok outputs /\
    SioWriteSighashes (concat rows) ∈ log /\ SioWriteWithdrawalOutputs (concat outputs) ∈ log.

(** The rows are those of a package that the signer rebuilt and checked. *)
Definition presign_built log (rows : list BitcoinTxSigHash) : Prop :=
  exists m tip request fees t key data rows', current log m /\ from_coordinator log tip m /\ sm_payload m = PayPreSignRequest request fees /\
    t `prefix_of` log /\
    construct_package_sighashes request (se_validation env t) (mkTxContext (bbr_block_hash tip) (bbr_block_height tip) (signer_public_key_of cfg) key) = Ok data /\
    collect to_input_rows data = Ok rows' /\ rows = concat rows'.

(** A signature for a Stacks transaction that was checked. *)
Definition stacks_signed log (s : StacksTransactionSignature) : Prop :=
  exists m tip request t, current log m /\ from_coordinator log tip m /\ sm_payload m = PaySignRequest request /\ sts_txid s = ssr_txid request /\
    t `prefix_of` log /\ assert_valid_request (se_signing env t) request tip (sm_signer_public_key m) = Ok tt.

Definition signer_guard log (e : SignerIo) : Prop :=
  match e with
  | SioSend m =>
      match sm_payload m with
      | PayWsts id (MsgSignatureShareResponse _) => exists request, requested log id (MsgSignatureShareRequest request) (sq_message request)
      | PayWsts id (MsgNonceResponse n) => exists request, requested log id (MsgNonceRequest request) (nq_message request) /\ nr_message n = nq_message request
      | PayPreSignAck => presign_stored log
      | PayWsts _ _ => True
      | _ => False
      end
  | SioSendSignature s _ => stacks_signed log s
  | SioWriteSighashes rows => presign_built log rows
  | SioVerifyShares k => exists signature, verify_signature (mock_new k) signature = true
  | SioRevokeShares k => exists signature, verify_signature (mock_new k) signature = false
  | SioWriteShares row => exists m, get_encrypted_dkg_shares m = Ok row
  | _ => True
  end.

(** Events that need no request. *)
Definition plain (e : SignerIo) : Prop :=
  match e with
  | SioQuery | SioSleep | SioSignal => True
  | SioVerifyShares k => exists signature, verify_signature (mock_new k) signature = true
  | SioRevokeShares k => exists signature, verify_signature (mock_new k) signature = false
  | SioWriteShares row => exists m, get_encrypted_dkg_shares m = Ok row
  | _ => False
  end.
(** Events in answer to [msg]. *)
Definition relayed (id : WstsMessageId) (msg : Message) (e : SignerIo) : Prop :=
  plain e \/ exists tip o, e = SioSend (mkSignedMessage tip (PayWsts id o) (signer_public_key_of cfg)) /\ answers msg o.

Lemma current_snoc log m e : current log m -> (forall m', e <> SioReceive m') -> current (log ++ [e]) m.
Proof.
  intros (a & b & -> & Hb) He. exists a, (b ++ [e]). split; [by rewrite <- app_assoc|]. apply Forall_app. by repeat constructor.
Qed.
Lemma from_coordinator_app log more tip m : from_coordinator log tip m -> from_coordinator (log ++ more) tip m.
Proof. intros (Hm & (t & Ht & ?) & (t' & Ht' & ?)). split_and!; [done|exists t|exists t']; (split; [by apply prefix_app_r|done]). Qed.
Lemma validated_app log more tip id message : validated log tip id message -> validated (log ++ more) tip id message.
Proof.
  destruct id; cbn; [|intros (t & row & h & Ht & ?)|done].
  - intros (t & h & k & Ht & ?). exists t, h, k. split; [by apply prefix_app_r|done].
  - exists t, row, h. split; [by apply prefix_app_r|done].
Qed.
Lemma plain_not_receive e : plain e -> forall m, e <> SioReceive m.
Proof. by intros He m ->. Qed.
Lemma plain_guard log e : plain e -> signer_guard log e.
Proof. by destruct e. Qed.
Lemma relayed_not_receive id msg e : relayed id msg e -> forall m, e <> SioReceive m.
Proof. intros [He|(tip & o & -> & _)] m; [by apply plain_not_receive|done]. Qed.
(** Answers to the other messages are free. *)
Definition asks_nothing (msg : Message) : bool :=
  match msg with MsgNonceRequest _ | MsgSignatureShareRequest _ => false | _ => true end.
Lemma relayed_free log id msg e : asks_nothing msg = true -> relayed id msg e -> signer_guard log e.
Proof.
  intros Hm [He|(tip & o & -> & Ho)]; [by apply plain_guard|]. cbn. destruct o; try done; [destruct Ho as (r & -> & _)|destruct Ho as (r & ->)]; done.
Qed.
Lemma relayed_nonce log id request e : requested log id (MsgNonceRequest request) (nq_message request) -> relayed id (MsgNonceRequest request) e -> signer_guard log e.
Proof.
  intros Hr [He|(tip & o & -> & Ho)]; [by apply plain_guard|]. cbn. destruct o; try done; [|by destruct Ho as (r & [=])].
  destruct Ho as (r & [= <-] & Hn). by exists request.
Qed.
Lemma relayed_share log id request e : requested log id (MsgSignatureShareRequest request) (sq_message request) ->
  relayed id (MsgSignatureShareRequest request) e -> signer_guard log e.
Proof.
  intros Hr [He|(tip & o & -> & Ho)]; [by apply plain_guard|]. cbn. destruct o; try done; [by destruct Ho as (r & [=] & _)|]. by exists request.
Qed.
End Guard.

(** ** The operations *)
Section Operations.
Context {wc : WstsCrypto} {po : PartyOps} {ml : MachineLibs} {bl : BitcoinLib} {sl : StacksLib} {cl : CoordLib} {hl : SighashLib}.
Context {WC DC RC : Type} `{!LruCache WC StateMachineId SignerStateMachine} `{!LruCache DC StateMachineId (StateMachine FrostCoordinator)} `{!LruOps RC}.
Variables (cfg : TenureConfig) (dkg_begin_pause : option Z) (env : SignerEnv).
Abbreviation W := (TxSigner (WC := WC) (DC := DC) (RC := RC)).
Abbreviation S_ := (st W SignerLoopError).

#[local] Hint Extern 1 (plain _) => exact I : emits.

Lemma emits_write e : plain e -> emits plain (swrite env e : S_ unit).
Proof. intros He. unfold swrite. apply emits_bind; [by apply emits_log|]. intros _. by apply emits_query. Qed.
Lemma emits_allow_dkg tip : emits plain (assert_allow_dkg_begin cfg env tip : S_ unit).
Proof. unfold assert_allow_dkg_begin. emits_walk. Qed.
Lemma emits_inspect sender tip : emits plain (inspect_msg_chain_tip cfg env sender tip : S_ _).
Proof. unfold inspect_msg_chain_tip. emits_walk. Qed.
Lemma emits_validate_sign msg : emits plain (validate_bitcoin_sign_request env msg : S_ _).
Proof. unfold validate_bitcoin_sign_request. emits_walk. Qed.
Lemma emits_validate_verification key message tip : emits plain (validate_dkg_verification_message cfg env key message tip : S_ _).
Proof. unfold validate_dkg_verification_message. emits_walk. Qed.
Lemma emits_sender id i k : emits plain (ts_validate_sender id i k : S_ _).
Proof. unfold ts_validate_sender. emits_walk. Qed.
Lemma emits_assert_state id : emits plain (assert_dkg_verification_state_machine_state id : S_ _).
Proof. unfold assert_dkg_verification_state_machine_state. emits_walk. Qed.
Lemma emits_ensure key tip : emits plain (ensure_dkg_verification_state_machine cfg env key tip : S_ _).
Proof. unfold ensure_dkg_verification_state_machine, create_dkg_verification_state_machine. emits_walk. apply emits_assert_state. Qed.
Lemma emits_ended id key s : emits plain (verification_ended env id key s : S_ _).
Proof. unfold verification_ended. emits_walk; apply emits_write; cbn; eauto. Qed.
Lemma emits_verification_message id sender i msg : emits plain (process_dkg_verification_message env id sender i msg : S_ _).
Proof. unfold process_dkg_verification_message. emits_walk. apply emits_ended. Qed.
Lemma emits_wsts_process id msg : emits plain (wsts_process env id msg : S_ _).
Proof. unfold wsts_process. emits_walk. Qed.
Lemma wsts_process_answers id msg (w w' : W) out : wsts_process env id msg w = (w', Ok out) -> Forall (answers msg) out.
Proof.
  intros (w1 & o & _ & H)%st_bind_ok. apply st_bind_ok in H as (w2 & m & _ & H). apply st_bind_ok in H as (w3 & rng & _ & H).
  destruct (ssm_process msg rng m) as [m' r] eqn:Hp. apply st_bind_ok in H as (w4 & u & _ & H). unfold st_lift in H.
  destruct r as [out'| | |]; cbn in H; [|done..]. injection H as _ <-. by eapply ssm_process_answers.
Qed.
Lemma emits_own id sender i b out : emits plain (process_own env id sender i b out : S_ _).
Proof.
  induction out as [|m out IH]; cbn [process_own]; [apply emits_ret|]. apply emits_bind; [apply emits_wsts_process|]. intros _. apply emits_bind; [|done].
  destruct b; [apply emits_verification_message|apply emits_ret].
Qed.
Lemma emits_store id : emits plain (store_dkg_shares env id : S_ _).
Proof.
  unfold store_dkg_shares. apply emits_bind; [apply emits_wsts|]. intros found. apply emits_bind; [apply emits_ok_or|]. intros m.
  destruct id; try apply emits_throw. apply (emits_bind_yields _ (fun row => get_encrypted_dkg_shares m = Ok row)); [apply emits_lift| |].
  - intros w w' row. unfold st_lift. destruct (get_encrypted_dkg_shares m) as [row'| | |]; cbn; [|done..]. by intros [= _ <-].
  - intros row Hrow. apply emits_write. by exists m.
Qed.
Lemma emits_send id msg m tip : answers msg m -> emits (relayed cfg id msg) (ts_send_message cfg env (PayWsts id m) tip : S_ _).
Proof.
  intros Hm. unfold ts_send_message. apply emits_bind; [apply emits_log; right; eauto|]. intros _.
  apply (emits_impl plain); [by left|]. emits_walk.
Qed.
Lemma emits_publish id wsts_id msg tip out : Forall (answers msg) out -> emits (relayed cfg wsts_id msg) (publish cfg env id wsts_id tip out : S_ _).
Proof.
  induction 1 as [|m out Hm _ IH]; cbn [publish]; [apply emits_ret|]. apply emits_bind.
  - apply (emits_impl plain); [by left|]. destruct (dkg_succeeded m); [|apply emits_ret]. apply emits_bind; [apply emits_store|]. intros _. apply emits_wsts.
  - intros _. apply emits_bind; [by apply emits_send|done].
Qed.
Lemma emits_relay id wsts_id sender i msg tip : emits (relayed cfg wsts_id msg) (relay_message cfg env id wsts_id sender i msg tip : S_ _).
Proof.
  unfold relay_message. apply emits_bind.
  { apply (emits_impl plain); [by left|]. destruct i; [apply emits_sender|apply emits_ret]. }
  intros _. apply (emits_bind_yields _ (Forall (answers msg))).
  - apply (emits_impl plain); [by left|]. apply emits_wsts_process.
  - apply wsts_process_answers.
  - intros out Hout. apply emits_bind.
    { apply (emits_impl plain); [by left|]. destruct (is_dkg_verification _ _); [apply emits_verification_message|apply emits_ret]. }
    intros _. apply emits_bind; [|intros _; by apply emits_publish]. apply (emits_impl plain); [by left|]. apply emits_own.
Qed.
Lemma emits_dkg_begin id msg sender tip : emits (relayed cfg id msg) (handle_dkg_begin cfg dkg_begin_pause env id msg sender tip : S_ _).
Proof.
  unfold handle_dkg_begin. apply emits_bind; [apply (emits_impl plain); [by left|apply emits_allow_dkg]|]. intros _.
  apply emits_bind; [apply emits_lift|]. intros m. apply emits_bind; [apply emits_wsts|]. intros _. apply emits_bind; [|intros _; apply emits_relay].
  destruct dkg_begin_pause; [apply emits_log; by left|apply emits_ret].
Qed.
End Operations.

(** ** Handlers keep the log guarded *)
Section Handlers.
Context {wc : WstsCrypto} {po : PartyOps} {ml : MachineLibs} {bl : BitcoinLib} {sl : StacksLib} {cl : CoordLib} {hl : SighashLib}.
Context {WC DC RC : Type} `{!LruCache WC StateMachineId SignerStateMachine} `{!LruCache DC StateMachineId (StateMachine FrostCoordinator)}
  `{!LruOps RC} `{!LruLaws RC}.
Variables (cfg : TenureConfig) (dkg_begin_pause : option Z) (env : SignerEnv) (l0 : list SignerIo).
Abbreviation W := (TxSigner (WC := WC) (DC := DC) (RC := RC)).
Abbreviation S_ := (st W SignerLoopError).
Implicit Types (K : list SignerIo -> Prop) (w : W).

(** The events since [l0] are guarded. *)
Definition inv w : Prop := exists new, ts_log w = l0 ++ new /\ guarded (fun pre => signer_guard cfg env (l0 ++ pre)) new.
Definition safe {A} K (m : S_ A) (K' : A -> list SignerIo -> Prop) : Prop :=
  hoare (fun w => inv w /\ K (ts_log w)) m (fun a w => inv w /\ K' a (ts_log w)) (fun _ => inv) inv.
(** Conditions that other events than receptions keep. *)
Definition stable K : Prop := forall log e, K log -> (forall m, e <> SioReceive m) -> K (log ++ [e]).

Lemma stable_app K log new : stable K -> K log -> Forall (fun e => forall m, e <> SioReceive m) new -> K (log ++ new).
Proof.
  intros Hs Hk Hf. revert log Hk. induction Hf as [|e new He _ IH]; intros log Hk; [by rewrite app_nil_r|].
  change (e :: new) with ([e] ++ new). rewrite app_assoc. apply IH. by apply Hs.
Qed.

Lemma emits_inv {A} P K (m : S_ A) : emits P m -> stable K -> (forall e, P e -> forall m', e <> SioReceive m') ->
  (forall log e, K log -> P e -> signer_guard cfg env log e) -> forall w, inv w -> K (ts_log w) -> inv (m w).1 /\ K (ts_log (m w).1).
Proof.
  intros Hm Hs Hr HG w (new & Hl & Hg) Hk. destruct (Hm w) as (more & Hl' & Hf). rewrite Hl'. split.
  - exists (new ++ more). rewrite Hl', Hl, app_assoc. split; [done|]. clear Hl'.
    assert (forall pre rest, more = pre ++ rest -> guarded (fun p => signer_guard cfg env (l0 ++ p)) (new ++ pre)) as Hall.
    { intros pre. induction pre as [|e pre IH] using rev_ind; intros rest Heq; [by rewrite app_nil_r|]. rewrite app_assoc.
      subst more. rewrite <- app_assoc in Hf. apply Forall_app in Hf as [Hpre He]. apply Forall_app in He as [He _]. rewrite Forall_singleton in He.
      apply guarded_snoc; [apply (IH ([e] ++ rest)); by rewrite app_assoc|]. rewrite app_assoc, <- Hl. apply HG; [|done].
      apply (stable_app K); [done|done|]. eapply Forall_impl; [exact Hpre|done]. }
    apply (Hall more []). by rewrite app_nil_r.
  - apply (stable_app K); [done|done|]. eapply Forall_impl; [exact Hf|done].
Qed.

Lemma safe_emits {A} P K (m : S_ A) : emits P m -> stable K -> (forall e, P e -> forall m', e <> SioReceive m') ->
  (forall log e, K log -> P e -> signer_guard cfg env log e) -> safe K m (fun _ => K).
Proof. intros Hm Hs Hr HG w [Hi Hk]. destruct (emits_inv P K m Hm Hs Hr HG w Hi Hk). by destruct (m w) as [w' []]. Qed.
Lemma safe_plain {A} K (m : S_ A) : emits plain m -> stable K -> safe K m (fun _ => K).
Proof. intros Hm Hs. apply (safe_emits plain); [done|done|apply plain_not_receive|]. intros log e _. apply plain_guard. Qed.
Lemma safe_learn {A} K (m : S_ A) (K' : A -> list SignerIo -> Prop) : emits plain m -> stable K ->
  (forall w w' a, K (ts_log w) -> m w = (w', Ok a) -> K' a (ts_log w')) -> safe K m (fun a log => K log /\ K' a log).
Proof.
  intros Hm Hs HK w [Hi Hk]. pose proof (safe_plain K m Hm Hs w (conj Hi Hk)) as Hp.
  destruct (m w) as [w' [a| | |]] eqn:He; [|done..]. destruct Hp as [Hi' Hk']. split_and!; [exact Hi'|exact Hk'|]. exact (HK _ _ _ Hk He).
Qed.
Lemma safe_seq {A B} K (K' : A -> list SignerIo -> Prop) (K'' : B -> list SignerIo -> Prop) (m : S_ A) (k : A -> S_ B) : safe K m K' -> (forall a, safe (K' a) (k a) K'') -> safe K (st_bind m k) K''.
Proof. intros Hm Hk. eapply hoare_bind; [exact Hm|]. apply Hk. Qed.
Lemma safe_relay K id wsts_id sender i msg tip : stable K -> (forall log e, K log -> relayed cfg wsts_id msg e -> signer_guard cfg env log e) ->
  safe K (relay_message cfg env id wsts_id sender i msg tip) (fun _ => K).
Proof. intros Hs HG. apply (safe_emits (relayed cfg wsts_id msg)); [apply emits_relay|done|intros e; apply relayed_not_receive|done]. Qed.
Lemma safe_done {A} K (m : S_ A) (K' : A -> list SignerIo -> Prop) : safe K m K' -> safe K m (fun _ _ => True).
Proof. intros Hm w Hw. specialize (Hm w Hw). destruct (m w) as [w' []]; try done. by destruct Hm. Qed.

Lemma stable_true : stable (fun _ => True).
Proof. done. Qed.
Lemma stable_and K K' : stable K -> stable K' -> stable (fun log => K log /\ K' log).
Proof. intros H H' log e [? ?] He. split; auto. Qed.
Lemma stable_current m : stable (fun log => current log m).
Proof. intros log e. apply current_snoc. Qed.
Lemma stable_coordinator tip m : stable (fun log => from_coordinator cfg env log tip m).
Proof. intros log e H _. by apply from_coordinator_app. Qed.
Lemma stable_validated tip id message : stable (fun log => validated cfg env log tip id message).
Proof. intros log e H _. by apply validated_app. Qed.

(** What each check establishes. *)
Lemma squery_ok {A} (f : list SignerIo -> outcome Z A) w w' a : squery f w = (w', Ok a) -> f (ts_log w) = Ok a /\ ts_log w' = ts_log w ++ [SioQuery].
Proof. unfold squery, sask. destruct (f (ts_log w)) as [x| | |]; cbn; [|done..]. by intros [= <- <-]. Qed.

Lemma validate_sign_learns w w' msg tip txid acc : validate_bitcoin_sign_request env msg w = (w', Ok acc) ->
  validated cfg env (ts_log w') tip (IdSweep txid) msg.
Proof.
  intros (w1 & h & H1 & H)%st_bind_ok. apply st_bind_ok in H as (w2 & found & [Hf Hl]%squery_ok & H).
  unfold st_ok_or, st_lift in H1. destruct (sighash_from_slice msg) as [h'|] eqn:Hs; cbn in H1; [|done]. injection H1 as <- <-.
  destruct found as [[[] k]|]; [|done..]. injection H as <- <-. exists (ts_log w), h', k. rewrite Hl. split_and!; [by apply prefix_app_r|done..].
Qed.

Lemma validate_verification_learns w w' message tip key u : validate_dkg_verification_message cfg env (x_only key) (Some message) tip w = (w', Ok u) ->
  validated cfg env (ts_log w') tip (IdDkgVerification key) message.
Proof.
  intros (w1 & o & [Hq Hl]%squery_ok & H)%st_bind_ok. apply st_bind_ok in H as (w2 & row & H2 & H). destruct o as [row'|]; [|done].
  injection H2 as <- <-. cbv zeta in H. destruct (bool_decide_reflect (x_only key = x_only (dr_aggregate_key row'))) as [Hk|]; cbn [negb] in H; [|done].
  destruct (bool_decide_reflect (dr_status row' = Failed)) as [|Hs]; [done|].
  destruct (Z.ltb_spec (saturating_add 64 (dr_started_at_height row') (tc_dkg_verification_window cfg)) (bbr_block_height tip)); [done|].
  apply st_bind_ok in H as (w3 & h & H3 & H). unfold st_lift in H3. destruct (compute_sighash (mock_new (x_only key))) as [h'| | |] eqn:Hc; cbn in H3; [|done..].
  injection H3 as <- <-. destruct (bool_decide_reflect (hash_bytes h' = message)) as [Hm|]; cbn [negb] in H; [|done]. injection H as <- <-.
  exists (ts_log w), row', h'. rewrite Hl. split_and!; [by apply prefix_app_r|done..].
Qed.

Lemma inspect_learns w w' m report : inspect_msg_chain_tip cfg env (sm_signer_public_key m) (sm_bitcoin_chain_tip m) w = (w', Ok report) ->
  is_from_canonical_coordinator report = true -> from_coordinator cfg env (ts_log w') (mr_chain_tip report) m.
Proof.
  intros (w1 & s & H1 & H)%st_bind_ok Hc. injection H1 as <- <-. apply st_bind_ok in H as (w2 & tip & H2 & H). unfold st_ok_or, st_lift in H2.
  destruct (st_bitcoin_chain_tip (se_state env (ts_log w))) as [tip'|] eqn:Ht; cbn in H2; [|done]. injection H2 as <- <-.
  apply st_bind_ok in H as (w3 & s & H3 & H). injection H3 as <- <-. apply st_bind_ok in H as (w4 & b & H4 & H). unfold st_lift in H4.
  destruct (given_key_is_coordinator _ _ _) as [b'| | |] eqn:Hg; cbn in H4; [|done..]. injection H4 as <- <-. injection H as <- <-.
  unfold is_from_canonical_coordinator in Hc. cbn in Hc. destruct (Z.eqb_spec (sm_bitcoin_chain_tip m) (bbr_block_hash tip')) as [Hm|]; [|done].
  subst b'. split_and!; [done|exists (ts_log w); split; [cbn; by do 2 apply prefix_app_r|done]|]. eexists. split; [|exact Hg]. cbn. by apply prefix_app_r.
Qed.
End Handlers.

(** *** The handlers *)
Section HandlerSafety.
Context {wc : WstsCrypto} {po : PartyOps} {ml : MachineLibs} {bl : BitcoinLib} {sl : StacksLib} {cl : CoordLib} {hl : SighashLib}.
Context {WC DC RC : Type} `{!LruCache WC StateMachineId SignerStateMachine} `{!LruCache DC StateMachineId (StateMachine FrostCoordinator)}
  `{!LruOps RC} `{!LruLaws RC}.
Variables (cfg : TenureConfig) (dkg_begin_pause : option Z) (env : SignerEnv) (l0 : list SignerIo).
Abbreviation W := (TxSigner (WC := WC) (DC := DC) (RC := RC)).
Abbreviation S_ := (st W SignerLoopError).
Abbreviation safe := (safe cfg env l0).
Abbreviation asked := (fun m tip log => current log m /\ from_coordinator cfg env log tip m).
Abbreviation nothing := (fun _ (_ : list SignerIo) => True).
Implicit Types (m : SignedMessage) (tip : BitcoinBlockRef).

Lemma stable_asked m tip : stable (asked m tip).
Proof. apply stable_and; [apply stable_current|apply stable_coordinator]. Qed.
Lemma stable_requested m tip id message : stable (fun log => asked m tip log /\ validated cfg env log tip id message).
Proof. apply stable_and; [apply stable_asked|apply stable_validated]. Qed.

Lemma safe_pop {A} (r : outcome SignerLoopError A) id K : stable K -> safe K (with_wsts (update (cache_pop id));;; st_lift r : S_ A) (fun _ => K).
Proof. intros Hs. apply safe_plain; [|done]. apply emits_bind; [apply emits_wsts|]. intros _. apply emits_lift. Qed.

(** A relay of a request that was validated. *)
Lemma safe_nonce_relay m tip id request machine sender : sm_payload m = PayWsts id (MsgNonceRequest request) ->
  safe (fun log => asked m tip log /\ validated cfg env log tip id (nq_message request))
    (relay_message cfg env machine id sender None (MsgNonceRequest request) (bbr_block_hash tip) : S_ unit) nothing.
Proof.
  intros Hm. eapply safe_done, safe_relay; [apply stable_requested|]. intros log e [[Hc Hf] Hv]. apply relayed_nonce. by exists m, tip.
Qed.
Lemma safe_share_relay m tip id request machine sender : sm_payload m = PayWsts id (MsgSignatureShareRequest request) ->
  safe (fun log => asked m tip log /\ validated cfg env log tip id (sq_message request))
    (relay_message cfg env machine id sender None (MsgSignatureShareRequest request) (bbr_block_hash tip) : S_ unit) nothing.
Proof.
  intros Hm. eapply safe_done, safe_relay; [apply stable_requested|]. intros log e [[Hc Hf] Hv]. apply relayed_share. by exists m, tip.
Qed.

Lemma safe_nonce_request m tip id request sender : sm_payload m = PayWsts id (MsgNonceRequest request) ->
  safe (asked m tip) (handle_nonce_request cfg env id request sender tip : S_ unit) nothing.
Proof.
  intros Hm. unfold handle_nonce_request.
  assert (forall machine key, safe (fun log => asked m tip log /\ validated cfg env log tip id (nq_message request))
    (state_machine <- sask (fun t => map_err SeMachine (ssm_load (se_shares env t) key (tc_private_key cfg)));;
     with_wsts (update (cache_put machine state_machine));;;
     relay_message cfg env machine id sender None (MsgNonceRequest request) (bbr_block_hash tip) : S_ unit) nothing) as Hload.
  { intros machine key. eapply safe_seq; [apply safe_plain; [by apply emits_ask|apply stable_requested]|]. intros sm.
    eapply safe_seq; [apply safe_plain; [apply emits_wsts|apply stable_requested]|]. intros []. by apply safe_nonce_relay. }
  destruct id as [txid|key|h]; [| |eapply safe_done, safe_plain; [apply emits_ret|apply stable_asked]].
  - eapply safe_seq; [apply (safe_learn cfg env l0 _ _ (fun _ log => validated cfg env log tip (IdSweep txid) (nq_message request))); [apply emits_validate_sign|apply stable_asked|]|intros acc; apply Hload].
    intros w w' acc _. apply validate_sign_learns.
  - eapply safe_seq; [apply (safe_learn cfg env l0 _ _ (fun _ log => validated cfg env log tip (IdDkgVerification key) (nq_message request))); [apply emits_validate_verification|apply stable_asked|]|].
    { intros w w' u _. apply validate_verification_learns. }
    intros u. eapply safe_seq; [apply safe_plain; [apply emits_ensure|apply stable_requested]|]. intros machine. apply Hload.
Qed.

Lemma safe_share_request m tip id request sender : sm_payload m = PayWsts id (MsgSignatureShareRequest request) ->
  safe (asked m tip) (handle_signature_share_request cfg env id request sender tip : S_ unit) nothing.
Proof.
  intros Hm. unfold handle_signature_share_request.
  destruct id as [txid|key|h]; [| |eapply safe_done, safe_plain; [apply emits_ret|apply stable_asked]].
  - eapply safe_seq; [apply (safe_learn cfg env l0 _ _ (fun _ log => validated cfg env log tip (IdSweep txid) (sq_message request))); [apply emits_validate_sign|apply stable_asked|]|]; [intros w w' acc _; apply validate_sign_learns|].
    intros acc w Hw. pose proof (safe_share_relay m tip (IdSweep txid) request (MachBitcoinSign (as_sighash acc)) sender Hm w Hw) as Hr.
    destruct (relay_message _ _ _ _ _ _ _ _ w) as [w' r]. destruct r as [u|e| |]; [destruct Hr as [Hr _]| |done..].
    all: match goal with |- context [st_lift ?r] => pose proof (safe_pop r (MachBitcoinSign (as_sighash acc)) (fun _ => True) stable_true w' (conj Hr I)) as Hp end.
    all: exact Hp.
  - eapply safe_seq; [apply (safe_learn cfg env l0 _ _ (fun _ log => validated cfg env log tip (IdDkgVerification key) (sq_message request))); [apply emits_validate_verification|apply stable_asked|]|].
    { intros w w' u _. apply validate_verification_learns. }
    intros u. eapply safe_seq; [apply safe_plain; [apply emits_assert_state|apply stable_requested]|]. intros []. by apply safe_share_relay.
Qed.

(** The message being handled, and its sender if it is the coordinator. *)
Abbreviation handling := (fun m report log => current log m /\ (is_from_canonical_coordinator report = true -> from_coordinator cfg env log (mr_chain_tip report) m)).
Lemma stable_handling m report : stable (handling m report).
Proof. intros log e [Hc Hf] He. split; [by apply current_snoc|]. intros Hr. by apply from_coordinator_app, Hf. Qed.

Lemma safe_wsts_message m id inner report : sm_payload m = PayWsts id inner ->
  safe (handling m report) (handle_wsts_message cfg dkg_begin_pause env id inner (sm_signer_public_key m) report : S_ unit) nothing.
Proof.
  intros Hm. unfold handle_wsts_message.
  assert (forall A (x : S_ A), emits plain x -> safe (handling m report) x nothing) as Hplain.
  { intros A x Hx. eapply safe_done, safe_plain; [done|apply stable_handling]. }
  assert (asks_nothing inner = true -> forall x : S_ unit, emits (relayed cfg id inner) x -> safe (handling m report) x nothing) as Hfree.
  { intros Hn x Hx. eapply safe_done, (safe_emits cfg env l0 (relayed cfg id inner)); [done|apply stable_handling|intros e; apply relayed_not_receive|].
    intros log e _. by apply relayed_free. }
  assert (forall x : S_ unit, safe (asked m (mr_chain_tip report)) x nothing ->
    safe (handling m report) (if negb (is_from_canonical_coordinator report) then st_ret tt else x) nothing) as Hask.
  { intros x Hx. destruct (negb (is_from_canonical_coordinator report)) eqn:Hr; [apply Hplain, emits_ret|]. apply negb_false_iff in Hr.
    intros w [Hi [Hc Hf]]. apply Hx. split_and!; [done|done|]. by apply Hf. }
  destruct inner; try (apply Hfree; [done|]; try destruct (negb _); first [apply emits_ret|apply emits_dkg_begin|apply emits_relay]).
  - apply Hask. by apply safe_nonce_request.
  - destruct id; [apply Hplain, emits_ret| |apply Hplain, emits_throw]. apply Hplain, emits_bind; [apply emits_validate_verification|]. intros _.
    apply emits_bind; [apply emits_ensure|]. intros machine. apply emits_verification_message.
  - apply Hask. by apply safe_share_request.
  - destruct id; [apply Hplain, emits_ret| |apply Hplain, emits_throw]. apply Hplain, emits_bind; [apply emits_validate_verification|]. intros _.
    apply emits_bind; [apply emits_assert_state|]. intros []. apply emits_verification_message.
Qed.

(** A write. *)
Lemma safe_write K e : stable K -> (forall m, e <> SioReceive m) -> (forall log, K log -> signer_guard cfg env log e) ->
  safe K (swrite env e : S_ unit) (fun _ log => K log /\ e ∈ log).
Proof.
  intros Hs Hr HG w Hw. pose proof (safe_emits cfg env l0 (fun e' => e' = e \/ e' = SioQuery) K (swrite env e : S_ unit)) as Hp.
  assert (safe K (swrite env e : S_ unit) (fun _ => K)) as Hk.
  { apply Hp; [|done|by intros e' [->| ->]|by intros log e' Hlog [->| ->]; [apply HG|]]. unfold swrite. apply emits_bind; [apply emits_log; by left|]. intros _. apply emits_query. by right. }
  specialize (Hk w Hw). unfold swrite, st_bind, log_event, st_modify in *. destruct (squery (se_write env) (record e w)) as [w' [u| | |]] eqn:Hq; [|done..].
  destruct Hk as [? ?]. split_and!; [done|done|]. apply squery_ok in Hq as [_ Hl]. rewrite Hl. cbn. set_solver.
Qed.

Lemma stable_written e : stable (fun log => e ∈ log).
Proof. intros log e' He _. set_solver. Qed.
Lemma stable_const (Q : Prop) : stable (fun _ => Q).
Proof. by intros log e. Qed.

Lemma safe_presign m tip request fees : sm_payload m = PayPreSignRequest request fees ->
  safe (asked m tip) (handle_bitcoin_pre_sign_request cfg env request tip : S_ unit) nothing.
Proof.
  intros Hm. unfold handle_bitcoin_pre_sign_request. cbv zeta. eapply safe_seq; [apply safe_plain; [apply emits_get|apply stable_asked]|]. intros v.
  destruct (bool_decide _); [eapply safe_done, safe_plain; [apply emits_throw|apply stable_asked]|].
  eapply safe_seq; [apply safe_plain; [apply emits_presign|apply stable_asked]|]. intros [].
  eapply safe_seq; [apply safe_plain; [|apply stable_asked]|].
  { unfold presign_aggregate_key. repeat first [apply emits_bind; [|intros ?] | by apply emits_ask | by apply emits_query | apply emits_ok_or | apply emits_ret]. 
    destruct (option_map dr_status _) as [[]|]; repeat first [apply emits_bind; [|intros ?] | by apply emits_query | apply emits_ok_or | apply emits_ret]. }
  intros key. set (ctx := mkTxContext _ _ _ key).
  set (built := fun data log => exists t, t `prefix_of` log /\ construct_package_sighashes request (se_validation env t) ctx = Ok data).
  assert (forall data, stable (built data)) as Hb.
  { intros data log e (t & Ht & ?) _. exists t. split; [by apply prefix_app_r|done]. }
  eapply safe_seq; [apply (safe_learn cfg env l0 (asked m tip) _ built); [by apply emits_ask|apply stable_asked|]|].
  { intros w w' data _ Hs. unfold sask in Hs. exists (ts_log w).
    destruct (construct_package_sighashes _ _ _) as [d| | |] eqn:Hd; cbn in Hs; [|done..]. injection Hs as <- <-. split; [cbn; by apply prefix_app_r|done]. }
  intros data. assert (stable (fun log => asked m tip log /\ built data log)) as Hst by (apply stable_and; [apply stable_asked|apply Hb]).
  eapply safe_seq; [apply (safe_learn cfg env l0 _ _ (fun rows _ => collect to_input_rows data = Ok rows)); [apply emits_lift|exact Hst|]|].
  { intros w w' rows _. unfold st_lift, infallible. destruct (collect to_input_rows data); cbn; by intros [= _ <-]. }
  intros rows. eapply safe_seq; [apply (safe_learn cfg env l0 _ _ (fun outs _ => collect to_withdrawal_rows data = Ok outs)); [apply emits_lift|repeat first [exact Hst | apply stable_const | apply stable_written | apply stable_and]|]|].
  { intros w w' outs _. unfold st_lift, infallible. destruct (collect to_withdrawal_rows data); cbn; by intros [= _ <-]. }
  intros outs. eapply safe_seq; [apply safe_write; [repeat first [exact Hst | apply stable_const | apply stable_written | apply stable_and]|done|]|].
  { intros log [[[[Hc Hf] (t & Ht & Hd)] Hrows] _]. by exists m, tip, request, fees, t, key, data, rows. }
  intros [].
  eapply safe_seq; [apply safe_write; [repeat first [exact Hst | apply stable_const | apply stable_written | apply stable_and]|done|done]|]. intros [].
  eapply safe_done, (safe_emits cfg env l0 (fun e => plain e \/ e = SioSend (mkSignedMessage (bbr_block_hash tip) PayPreSignAck (signer_public_key_of cfg)))).
  - unfold ts_send_message. apply emits_bind; [apply emits_log; by right|]. intros _. apply (emits_impl plain); [by left|].
    repeat first [apply emits_bind; [|intros ?] | by apply emits_query | by apply emits_log].
  - repeat first [exact Hst | apply stable_const | apply stable_written | apply stable_and].
  - intros e [He| ->] m'; [by apply plain_not_receive|done].
  - intros log e (((([[Hc Hf] (t & Ht & Hd)] & Hrows) & Houts) & Hw1) & Hw2) [He| ->]; [by apply plain_guard|].
    exists m, tip, request, fees, t, key, data, rows, outs. done.
Qed.

Lemma safe_stacks m tip request : sm_payload m = PaySignRequest request ->
  safe (asked m tip) (sign_stacks_request env request tip (sm_signer_public_key m) : S_ unit) nothing.
Proof.
  intros Hm w [(new & Hl & Hg) [Hc Hf]]. unfold sign_stacks_request.
  destruct (handle_stacks_transaction_sign_request _ request tip _ (ts_stacks_sign_request w)) as [c r] eqn:Hh. apply handle_cases in Hh.
  assert (guarded (fun pre => signer_guard cfg env (l0 ++ pre)) (new ++ [SioQuery])) as Hq by (by apply guarded_snoc).
  assert (forall w' : W, ts_log w' = ts_log w ++ [SioQuery] -> inv cfg env l0 w') as Hinv.
  { intros w' Hw'. exists (new ++ [SioQuery]). by rewrite Hw', Hl, app_assoc. }
  destruct r as [s| | |]; [|by apply Hinv..]. destruct Hh as (Hv & Htx & _). split; [|done].
  exists ((new ++ [SioQuery]) ++ [SioSendSignature s (bbr_block_hash tip)]). cbn. split; [by rewrite Hl, !app_assoc|]. apply guarded_snoc; [done|].
  exists m, tip, request, (ts_log w). rewrite !app_assoc, <- Hl. split_and!; [by apply current_snoc|by apply from_coordinator_app|done|done|by apply prefix_app_r|done].
Qed.

Lemma safe_message m : safe (fun log => current log m) (handle_signer_message cfg dkg_begin_pause env m : S_ unit) nothing.
Proof.
  unfold handle_signer_message. eapply safe_seq; [apply (safe_learn cfg env l0 (fun log => current log m) _
    (fun report log => is_from_canonical_coordinator report = true -> from_coordinator cfg env log (mr_chain_tip report) m)); [apply emits_inspect|apply stable_current|]|].
  { intros w w' report _. apply inspect_learns. }
  intros report. cbv beta. assert (forall x : S_ unit, mr_sender_is_coordinator report = true -> mr_chain_tip_status report = Canonical ->
    safe (asked m (mr_chain_tip report)) x nothing -> safe (handling m report) x nothing) as Hask.
  { intros x H1 H2 Hx w [Hi [Hc Hf]]. apply Hx. split_and!; [done|done|]. apply Hf. unfold is_from_canonical_coordinator. by rewrite H1, H2. }
  assert (safe (handling m report) (st_ret tt : S_ unit) nothing) as Hret by (eapply safe_done, safe_plain; [apply emits_ret|apply stable_handling]).
  destruct (sm_payload m) eqn:Hm, (mr_sender_is_coordinator report) eqn:H1, (mr_chain_tip_status report) eqn:H2;
    first [exact Hret | apply Hask; [done|done|]; by apply safe_stacks | by apply safe_wsts_message | apply Hask; [done|done|]; by eapply safe_presign].
Qed.

Lemma loop_inv signals : framed (inv cfg env l0) (ts_loop cfg dkg_begin_pause env signals : S_ unit).
Proof.
  assert (forall m signals, framed (inv cfg env l0) (ts_loop cfg dkg_begin_pause env signals : S_ unit) -> framed (inv cfg env l0)
    (log_event (SioReceive m);;; st_catch (handle_signer_message cfg dkg_begin_pause env m) (fun _ => Some tt);;; ts_loop cfg dkg_begin_pause env signals : S_ unit)) as Hstep.
  { intros m rest IH w (new & Hl & Hg). unfold st_bind at 1, log_event, st_modify.
    assert (inv cfg env l0 (record (SioReceive m) w)) as Hi by (exists (new ++ [SioReceive m]); split; [cbn; by rewrite Hl, app_assoc|by apply guarded_snoc]).
    assert (current (ts_log (record (SioReceive m) w)) m) as Hc by (exists (ts_log w), []; done).
    pose proof (safe_message m (record (SioReceive m) w) (conj Hi Hc)) as Hh. unfold st_bind, st_catch.
    destruct (handle_signer_message _ _ _ m _) as [w' []]; [apply IH, Hh|apply IH, Hh|exact Hh..]. }
  induction signals as [|s signals IH]; cbn [ts_loop]; [apply framed_ret|]. destruct s; try apply IH; [apply framed_ret|by apply Hstep..].
Qed.
End HandlerSafety.

(** ** Properties *)
Section SignerClaims.
Context {wc : WstsCrypto} {po : PartyOps} {ml : MachineLibs} {bl : BitcoinLib} {sl : StacksLib} {cl : CoordLib} {hl : SighashLib}.
Context {WC DC RC : Type} `{!LruCache WC StateMachineId SignerStateMachine} `{!LruCache DC StateMachineId (StateMachine FrostCoordinator)}
  `{!LruOps RC} `{!LruLaws RC}.
Variables (cfg : TenureConfig) (dkg_begin_pause : option Z) (env : SignerEnv).
Abbreviation W := (TxSigner (WC := WC) (DC := DC) (RC := RC)).

Lemma run_guarded signals (w : W) : inv cfg env (ts_log w) (ts_run cfg dkg_begin_pause env signals w).1.
Proof.
  assert (framed (inv cfg env (ts_log w)) (ts_run cfg dkg_begin_pause env signals : st W SignerLoopError unit)) as Hf.
  { assert (forall e, e = SioSignal \/ e = SioQuery -> forall l (v : W), inv cfg env l v -> inv cfg env l (record e v)) as Hr.
    { intros e He l v (new & Hl & Hg). exists (new ++ [e]). cbn. rewrite Hl, app_assoc. split; [done|]. apply guarded_snoc; [done|]. by destruct He as [->| ->]. }
    unfold ts_run. apply framed_bind; [apply framed_modify; auto|]. intros []. apply framed_bind; [intros v Hv; apply Hr; auto|]. intros []. apply loop_inv. }
  apply Hf. exists []. rewrite app_nil_r. split; [done|apply guarded_nil].
Qed.

(** What the store of sighashes answers: rows that were written to it. *)
Definition sighash_table : Prop := forall t h k, se_will_sign env t h = Ok (Some (true, k)) ->
  exists rows row, SioWriteSighashes rows ∈ t /\ row ∈ rows /\ ts_sighash row = h /\ ts_aggregate_key row = k /\ ts_will_sign row = true.

Lemma written_rows l0 new rows t : guarded (fun pre => signer_guard cfg env (l0 ++ pre)) new -> l0 = [] -> t `prefix_of` new -> SioWriteSighashes rows ∈ t ->
  exists before, before `prefix_of` t /\ presign_built cfg env before rows.
Proof.
  intros Hg -> [more ->] (a & b & ->)%list_elem_of_split. exists a. split; [by apply prefix_app_r|].
  apply (Hg a (SioWriteSighashes rows) (b ++ more)). by rewrite <- app_assoc.
Qed.
End SignerClaims.

Section SignerTheorems.
Context {wc : WstsCrypto} {po : PartyOps} {ml : MachineLibs} {bl : BitcoinLib} {sl : StacksLib} {cl : CoordLib} {hl : SighashLib}.
Context {WC DC RC : Type} `{!LruCache WC StateMachineId SignerStateMachine} `{!LruCache DC StateMachineId (StateMachine FrostCoordinator)}
  `{!LruOps RC} `{!LruLaws RC}.

(** C4: however the network, the database and the other tasks behave, and for
    every sequence of signals, a signer acts only on what it has checked. It
    sends nonces and signature shares only in answer to a request, which it is
    handling, of the coordinator for its own chain tip, and only for bytes
    that it validated: a sighash marked as to be signed, or the mock
    transaction of the latest shares, not failed and within the verification
    window. It acknowledges a pre-sign request only after it issued the writes of
    the rows of the rebuilt package, signs a Stacks transaction only when all its
    checks passed, and marks shares as verified or failed only by the mock
    transaction's signature. *)
Theorem signer_acts_on_validated (cfg : TenureConfig) (pause : option Z) (env : SignerEnv) signals (w : TxSigner (WC := WC) (DC := DC) (RC := RC)) :
  exists new, ts_log (ts_run cfg pause env signals w).1 = ts_log w ++ new /\
    guarded (fun pre => signer_guard cfg env (ts_log w ++ pre)) new.
Proof. apply run_guarded. Qed.

(** C5: from the start of a signer, every signature share that it sends for a
    sweep is for the sighash of a row marked [will_sign] of a package that it
    rebuilt and validated itself, in a pre-sign request of a coordinator that it
    handled before; provided the table of sighashes holds only rows that this
    signer wrote. *)
Theorem sweep_shares_validated (cfg : TenureConfig) (pause : option Z) (env : SignerEnv) signals (w : TxSigner (WC := WC) (DC := DC) (RC := RC)) pre post txid r tip me :
  sighash_table env -> ts_log w = [] ->
  ts_log (ts_run cfg pause env signals w).1 = pre ++ SioSend (mkSignedMessage tip (PayWsts (IdSweep txid) (MsgSignatureShareResponse r)) me) :: post ->
  exists request before rows row,
    requested cfg env pre (IdSweep txid) (MsgSignatureShareRequest request) (sq_message request) /\
    before `prefix_of` pre /\ presign_built cfg env before rows /\ row ∈ rows /\ ts_will_sign row = true /\
    sighash_from_slice (sq_message request) = Some (ts_sighash row).
Proof.
  intros Ht Hw Hl. destruct (run_guarded cfg pause env signals w) as (new & Hn & Hg). rewrite Hw in Hn, Hg. rewrite Hl in Hn. cbn in Hn. subst new.
  pose proof (Hg pre _ post eq_refl) as (request & m & tp & Hcur & Hfrom & Hp & t & h & k & Hpre & Hs & Hsign).
  destruct (Ht t h k Hsign) as (rows & row & Hin & Hrow & <- & _ & Hwill).
  destruct (written_rows cfg env [] _ rows t Hg eq_refl ltac:(by apply prefix_app_r) Hin) as (before & Hb & Hbuilt).
  exists request, before, rows, row. split_and!; [|by etrans|done..]. exists m, tp. split_and!; [done|done|done|]. by exists t, (ts_sighash row), k.
Qed.
End SignerTheorems.

(** ** Witnesses *)
Module DemoSigner.
Import DemoTenure.
#[export] Instance demo_sighash : SighashLib := {| sighash_from_slice := fun l => match l with [h] => Some h | _ => None end |}.

(** A cache as a list of its entries, the last used first; it is never full. *)
Section Assoc.
Context {K V : Type} `{EqDecision K}.
Definition assoc_get (k : K) (c : list (K * V)) : option V := snd <$> head (filter (fun e => e.1 = k) c).
Definition assoc_pop (k : K) (c : list (K * V)) : list (K * V) := filter (fun e => e.1 <> k) c.
Definition assoc_cache : LruCache (list (K * V)) K V := {|
  cache_get := fun k c => match assoc_get k c with Some v => (Some v, (k, v) :: assoc_pop k c) | None => (None, c) end;
  cache_set := fun k v c => (k, v) :: assoc_pop k c;
  cache_put := fun k v c => (k, v) :: assoc_pop k c;
  cache_pop := assoc_pop;
  cache_contains := fun k c => match assoc_get k c with Some _ => true | None => false end |}.
End Assoc.
#[export] Instance wsts_cache : LruCache (list (StateMachineId * SignerStateMachine)) StateMachineId SignerStateMachine := assoc_cache.
#[export] Instance verification_cache : LruCache (list (StateMachineId * StateMachine FrostCoordinator)) StateMachineId (StateMachine FrostCoordinator) := assoc_cache.
#[export] Existing Instance demo_lru.
#[export] Existing Instance demo_lru_laws.

(** Key 10 coordinates the block 8. *)
Definition block : BitcoinBlockRef := mkBitcoinBlockRef 110 8.
Definition row : DkgSharesRow := mkDkgSharesRow 5 5 [] [1] [] [10; 20] 2 Verified 70 100.
(** The table of sighashes, read from what was written. *)
Definition table (log : list SignerIo) : list BitcoinTxSigHash := concat (omap (fun e => match e with SioWriteSighashes rows => Some rows | _ => None end) log).
Definition will_sign (log : list SignerIo) (h : Z) : outcome Z (option (bool * XOnlyPublicKey)) :=
  Ok ((fun r => (ts_will_sign r, ts_aggregate_key r)) <$> head (filter (fun r => ts_sighash r = h) (table log))).
Definition signing : SigningEnv := mkSigningEnv contract 500 20 1000 (state true) (Ok None) (Ok None) (Ok tt) (fun _ _ _ => 0) (fun _ => 0) (fun _ _ => Ok tt).
Definition senv : SignerEnv := {|
  se_state := fun _ => let '(mkSignerState a b c d e f g h) := state true in mkSignerState a b c d e f (Some block) h;
  se_latest_shares := fun _ => Ok (Some row); se_latest_non_failed_shares := fun _ => Ok (Some row); se_latest_verified_shares := fun _ => Ok (Some row);
  se_shares := fun _ _ => Ok (Some row);
  se_will_sign := will_sign; se_validation := fun _ => demo_env; se_signing := fun _ => signing;
  se_write := fun _ => Ok tt; se_network_broadcast := fun _ => Ok tt; se_signal := fun _ => Ok tt; se_rng := fun _ => 0; se_now := fun _ => 0 |}.

Lemma demo_table : sighash_table senv.
Proof.
  intros t h k. cbn. unfold will_sign. destruct (head _) as [r|] eqn:Hh; [|done]. intros [= Hw Hk]. apply head_Some_elem_of, list_elem_of_filter in Hh as [Hs Hin].
  unfold table in Hin. apply list_elem_of_In, in_concat in Hin as (rows & Hrows & Hr). apply list_elem_of_In, list_elem_of_omap in Hrows as (e & He & Heq).
  destruct e; try done. injection Heq as ->. exists rows, r. by apply list_elem_of_In in Hr.
Qed.

(** The coordinator's messages: a pre-sign request, sent twice, and a signing
    round for the signers' input. *)
Definition message (p : Payload) : SignerSignal := SignalMessageReceived (mkSignedMessage 8 p 10).
Definition sighash : Z := match construct_package_sighashes demo_presign demo_env (mkTxContext 8 110 20 4) with
  | Ok data => match collect to_input_rows data with Ok rows => match concat rows with r :: _ => ts_sighash r | [] => 0 end | _ => 0 end | _ => 0 end.
Definition round : list SignerSignal :=
  [message (PayPreSignRequest demo_presign None); message (PayPreSignRequest demo_presign None);
   message (PayWsts (IdSweep 3) (MsgNonceRequest (mkNonceRequest 0 1 0 [sighash] (Taproot None))));
   message (PayWsts (IdSweep 3) (MsgSignatureShareRequest (mkSignatureShareRequest 0 1 0 [mkNonceResponse 0 1 0 0 [1] [100] [sighash]; mkNonceResponse 0 1 0 1 [2] [100] [sighash]] [sighash] (Taproot None))))].
Definition loop_start : TxSigner := mkTxSigner (WC := list (StateMachineId * SignerStateMachine)) (DC := list (StateMachineId * StateMachine FrostCoordinator)) (RC := DemoLru) [] None [] [] [].
Definition result := ts_run (config 20) None senv round loop_start.
Definition sends (f : Payload -> bool) (log : list SignerIo) : bool := existsb (fun e => match e with SioSend m => f (sm_payload m) | _ => false end) log.
Definition is_ack (p : Payload) : bool := match p with PayPreSignAck => true | _ => false end.
Definition is_nonce (p : Payload) : bool := match p with PayWsts _ (MsgNonceResponse _) => true | _ => false end.
Definition is_share (p : Payload) : bool := match p with PayWsts (IdSweep _) (MsgSignatureShareResponse _) => true | _ => false end.

Lemma share_split log : sends is_share log = true ->
  exists pre post txid r tip me, log = pre ++ SioSend (mkSignedMessage tip (PayWsts (IdSweep txid) (MsgSignatureShareResponse r)) me) :: post.
Proof.
  intros (e & Hin & He)%existsb_exists. apply in_split in Hin as (pre & post & ->). destruct e as [| | |m| | | | | | |]; try done.
  destruct m as [tip p me]. destruct p as [| | | |id msg| |]; try done. destruct id; try done. destruct msg; try done. by repeat eexists.
Qed.
End DemoSigner.

Section SignerWitnesses.
Import DemoTenure DemoSigner.

(** In the example's round the signer acknowledges the package and sends its
    nonces and its share. *)
Lemma signer_acts_on_validated_witness :
  sends is_ack (ts_log result.1) && sends is_nonce (ts_log result.1) && sends is_share (ts_log result.1) = true /\
  exists new, ts_log result.1 = [] ++ new /\ guarded (fun pre => signer_guard (config 20) senv ([] ++ pre)) new.
Proof. split; [vm_compute; reflexivity|]. exact (signer_acts_on_validated (config 20) None senv round loop_start). Defined.

Lemma sweep_shares_validated_witness :
  exists pre post txid r tip me,
    ts_log result.1 = pre ++ SioSend (mkSignedMessage tip (PayWsts (IdSweep txid) (MsgSignatureShareResponse r)) me) :: post /\
    exists request before rows row,
      requested (config 20) senv pre (IdSweep txid) (MsgSignatureShareRequest request) (sq_message request) /\
      before `prefix_of` pre /\ presign_built (config 20) senv before rows /\ row ∈ rows /\ ts_will_sign row = true /\
      sighash_from_slice (sq_message request) = Some (ts_sighash row).
Proof.
  destruct (share_split (ts_log result.1)) as (pre & post & txid & r & tip & me & H); [vm_compute; reflexivity|].
  exists pre, post, txid, r, tip, me. split; [exact H|].
  exact (sweep_shares_validated (config 20) None senv round loop_start pre post txid r tip me demo_table eq_refl H).
Defined.
End SignerWitnesses.
