(* ===== verification/Node.v ===== *)
(** * The world of the block observer and the request decider

    Two event loops of the signer share the database and the cached
    [SignerState]: the block observer ([BlockObserver]) and the request decider
    ([RequestDecider]). They are operations on a [World], which holds the
    database rows that they write, the cached state, the pending writes of an
    open database transaction, and what they sent. An environment answers the
    clients and the queries, depending on the time (the number of calls so
    far), may fail every call, with or without its effect, and lets the other tasks change the database and
    the state at every call ([ne_others]). *)

From Stdlib Require Import SpecFloat.
From stdpp Require Import strings.
From S2P Require Import Prelude Effects Types Consts WstsNet WstsMachines.
From S2P Require Import Bitcoin SignerState Requests Sweep Validation Deposits Contracts StacksSigning Wallet Coordinator.

(** ** Rows ([storage/model.rs]) *)
Record BitcoinBlock := mkBitcoinBlock { bb_block_hash : BlockHash; bb_block_height : Z; bb_parent_hash : BlockHash }.
Record BitcoinTxRef := mkBitcoinTxRef { btr_txid : Txid; btr_block_hash : BlockHash }.
#[global] Instance BitcoinTxRef_eq_dec : EqDecision BitcoinTxRef.
Proof. solve_decision. Defined.
Record DepositSigner := mkDepositSigner {
  dsg_txid : Txid; dsg_output_index : Z; dsg_signer_pub_key : PublicKey; dsg_can_accept : bool; dsg_can_sign : bool }.
Record WithdrawalSigner := mkWithdrawalSigner {
  wsg_request_id : Z; wsg_txid : StacksTxId; wsg_block_hash : BlockHash; wsg_signer_pub_key : PublicKey; wsg_is_accepted : bool }.

(** ** Answers of bitcoin-core ([bitcoin/rpc.rs]) and of the Stacks node *)
Record BitcoinBlockHeader := mkBlockHeader { bh_hash : BlockHash; bh_height : Z; bh_time : Z; bh_previous_block_hash : BlockHash }.
Record BitcoinBlockInfo := mkBlockInfo {
  bi_block_hash : BlockHash; bi_height : Z; bi_time : Z; bi_median_time : option Z; bi_previous_block_hash : BlockHash;
  bi_transactions : list BitcoinTxInfo }.
Record OutPointSummary := mkOutPointSummary { os_block_hash : BlockHash; os_is_coinbase : bool }.
Definition block_from_info (b : BitcoinBlockInfo) : BitcoinBlock := mkBitcoinBlock (bi_block_hash b) (bi_height b) (bi_previous_block_hash b).
Definition block_ref_from (b : BitcoinBlock) : BitcoinBlockRef := mkBitcoinBlockRef (bb_block_height b) (bb_block_hash b).

Inductive StacksEpochStatus :=
| PreNakamoto (reported_bitcoin_height nakamoto_start_height : Z)
| PostNakamoto (nakamoto_start_height : Z).
Definition nakamoto_start_height (s : StacksEpochStatus) : Z :=
  match s with PreNakamoto _ h => h | PostNakamoto h => h end.

(** [impl From<model::DepositSigner> for SignerDepositDecision] and its twin. *)
Definition deposit_decision_from (d : DepositSigner) : SignerDepositDecision :=
  mkDepositDecision (dsg_txid d) (dsg_output_index d) (dsg_can_accept d) (dsg_can_sign d).
Definition withdrawal_decision_from (d : WithdrawalSigner) : SignerWithdrawalDecision :=
  mkWithdrawalDecision (wsg_request_id d) (wsg_block_hash d) (wsg_txid d) (wsg_is_accepted d).

(** ** The database: the tables that the two loops write, and the withdrawal
    requests, which other tasks write

    A write is an [INSERT .. ON CONFLICT DO NOTHING]: a row whose primary key
    is taken is dropped, and one that breaks a foreign key of the schema
    ([migrations/]) fails. *)
Record Db := mkDb {
  db_blocks : gmap BlockHash BitcoinBlock;
  db_transactions : list BitcoinTxRef;
  db_prevouts : list TxPrevout;
  db_outputs : list TxOutput;
  db_withdrawal_outputs : list WithdrawalTxOutput;
  db_deposits : list ModelDepositRequest;
  db_deposit_signers : list DepositSigner;
  db_withdrawal_signers : list WithdrawalSigner;
  db_withdrawals : list ModelWithdrawalRequest }.
Definition db_empty : Db := mkDb ∅ [] [] [] [] [] [] [] [].

Definition insert_row {R K} `{EqDecision K} (key : R -> K) (rows : list R) (r : R) : list R :=
  if existsb (fun x => bool_decide (key x = key r)) rows then rows else rows ++ [r].

Inductive DbWrite :=
| WBlock (b : BitcoinBlock)
| WTransactions (rows : list BitcoinTxRef)
| WPrevout (r : TxPrevout)
| WOutput (r : TxOutput)
| WWithdrawalOutput (r : WithdrawalTxOutput)
| WDeposits (rows : list ModelDepositRequest)
| WDepositSigner (r : DepositSigner)
| WWithdrawalSigner (r : WithdrawalSigner).

Definition apply_write (d : Db) (op : DbWrite) : Db :=
  let '(mkDb a b c e f g h i j) := d in
  match op with
  | WBlock r => mkDb (match a !! bb_block_hash r with Some _ => a | None => <[bb_block_hash r := r]> a end) b c e f g h i j
  | WTransactions rows => mkDb a (foldl (insert_row id) b rows) c e f g h i j
  | WPrevout r => mkDb a b (insert_row (fun x => (tp_txid x, tp_prevout_txid x, tp_prevout_output_index x)) c r) e f g h i j
  | WOutput r => mkDb a b c (insert_row (fun x => (to_txid x, to_output_index x)) e r) f g h i j
  | WWithdrawalOutput r => mkDb a b c e (insert_row (fun x => (wo_txid x, wo_output_index x)) f r) g h i j
  | WDeposits rows => mkDb a b c e f (foldl (insert_row md_outpoint) g rows) h i j
  | WDepositSigner r => mkDb a b c e f g (insert_row (fun x => (dsg_txid x, dsg_output_index x, dsg_signer_pub_key x)) h r) i j
  | WWithdrawalSigner r =>
      mkDb a b c e f g h (insert_row (fun x => (wsg_request_id x, wsg_block_hash x, wsg_signer_pub_key x)) i r) j
  end.
Definition is_known (h : BlockHash) (d : Db) : bool := match db_blocks d !! h with Some _ => true | None => false end.
Definition has_deposit (o : OutPoint) (d : Db) : bool := existsb (fun r => bool_decide (md_outpoint r = o)) (db_deposits d).
Definition mw_key (r : ModelWithdrawalRequest) : Z * BlockHash := (mw_request_id r, mw_block_hash r).
Definition has_withdrawal (k : Z * BlockHash) (d : Db) : bool := existsb (fun r => bool_decide (mw_key r = k)) (db_withdrawals d).
Definition has_output (k : Txid * Z) (d : Db) : bool := existsb (fun r => bool_decide ((to_txid r, to_output_index r) = k)) (db_outputs d).
(** The foreign keys of the row. *)
Definition references (d : Db) (op : DbWrite) : bool :=
  match op with
  | WTransactions rows => forallb (fun r => is_known (btr_block_hash r) d) rows
  | WWithdrawalOutput r => has_output (wo_txid r, wo_output_index r) d
  | WDepositSigner r => has_deposit (mkOutPoint (dsg_txid r) (dsg_output_index r)) d
  | WWithdrawalSigner r => has_withdrawal (wsg_request_id r, wsg_block_hash r) d
  | _ => true
  end.

(** ** What the loops call in other crates *)
Class NodeLib := {
  is_coinbase : Transaction -> bool;                           (* [Transaction::is_coinbase] *)
  taproot_script_hash : Script -> Z;                           (* [TaprootScriptHash::from(&ScriptBuf)] *)
  Address : Type;
  address_from_script : Script -> option Address }.            (* [Address::from_script] on the signer's network *)

Section World.
Context {wc : WstsCrypto} {sl : StacksLib} {bl : BitcoinLib} {dl : DepositLib} {nl : NodeLib}.

Inductive NodeError :=
| NeClient (code : Z)
| NeForeignKey
| NeContract (e : ContractError)
| NeBitcoinTxCoinbase (txid : Txid)
| NeBitcoinTxMissingData (txid : Txid)
| NeBitcoinTxInvalidData (txid : Txid)
| NeBitcoinTxMissingFields (txid : Txid)
| NeDepositError (e : DepositError)
| NeSweep (e : SweepError)
| NeBitcoinCoreUnknownBlockHeader (h : BlockHash)
| NeBitcoinCoreMissingBlock (h : BlockHash)
| NeUnknownBitcoinChainTip (h : BlockHash)
| NeUnknownBitcoinBlock (h : BlockHash)
| NeNoChainTip
| NeNoStacksChainTip
| NeWithdrawalBitcoinAddressFromScript (request_id : Z) (h : BlockHash)
| NeDepositBitcoinAddressFromScript (o : OutPoint).

(** What a loop sends, and its other writes to the database. *)
Inductive NodeEvent :=
| NSignal (s : SignerSignal)
| NSend (m : SignedMessage)
| NSetCanonical (h : BlockHash)
| NRevokeShares (k : PublicKey)
| NSleep.

Record World := mkWorld {
  w_time : nat;
  w_state : SignerState;
  w_db : Db;
  w_tx : option (list DbWrite);                                (* the writes of the open transaction *)
  w_log : list NodeEvent }.
Abbreviation M := (st World NodeError).

Record NodeConfig := mkNodeConfig {
  nc_is_mainnet : bool;
  nc_deployer : StacksAddress;
  nc_bootstrap_aggregate_key : option PublicKey;
  nc_dkg_verification_window : Z;
  nc_public_key : PublicKey;                                   (* the key of [signer_private_key] *)
  nc_requests_processing_delay : Z;
  nc_context_window : Z;
  nc_deposit_decisions_retry_window : Z;
  nc_withdrawal_decisions_retry_window : Z;
  nc_blocklist_checker : bool }.                               (* is a blocklist client configured *)

(** Queries read the database; clients do not. *)
Record NodeEnv := mkNodeEnv {
  ne_others : nat -> SignerState * Db -> SignerState * Db;
  ne_db_error : nat -> option Z;
  ne_db_effect : nat -> bool;                                  (* does a failing call take effect, with the reply lost *)
  ne_script_pubkeys : nat -> Db -> list Script;
  ne_withdrawn_total : nat -> Db -> BlockHash -> Z -> Z;
  ne_stacks_chain_tip : nat -> Db -> BlockHash -> option StacksBlockRef;
  ne_latest_shares : nat -> Db -> option DkgSharesRow;
  ne_deposit_decisions : nat -> Db -> BlockHash -> Z -> PublicKey -> list DepositSigner;
  ne_withdrawal_decisions : nat -> Db -> BlockHash -> Z -> PublicKey -> list WithdrawalSigner;
  ne_pending_deposits : nat -> Db -> BlockHash -> Z -> PublicKey -> list ModelDepositRequest;
  ne_pending_withdrawals : nat -> Db -> BlockHash -> BlockHash -> Z -> PublicKey -> list ModelWithdrawalRequest;
  ne_can_sign : nat -> Db -> Txid -> Z -> PublicKey -> option bool;
  ne_header : nat -> BlockHash -> outcome Z (option BitcoinBlockHeader);
  ne_block : nat -> BlockHash -> outcome Z (option BitcoinBlockInfo);
  ne_utxo_info : nat -> OutPoint -> outcome Z (option OutPointSummary);
  ne_tx_info : nat -> Txid -> BlockHash -> outcome Z (option BitcoinTxInfo);
  ne_emily_deposits : nat -> outcome Z (list CreateDepositRequest);
  ne_emily_deposit : nat -> Txid -> Z -> outcome Z (option CreateDepositRequest);
  ne_emily_limits : nat -> outcome Z SbtcLimits;
  ne_epoch_status : nat -> outcome Z StacksEpochStatus;
  ne_tenure_consensus_hash : nat -> outcome Z Z;
  ne_update_ancestors : nat -> Z -> outcome Z unit;            (* [update_db_with_unknown_ancestors] *)
  ne_total_supply : nat -> StacksAddress -> outcome Z Z;
  ne_contracts : nat -> ContractEnv;
  ne_signer_set_info : nat -> StacksAddress -> outcome Z (option SignerSetInfo);
  ne_can_accept : nat -> Address -> outcome Z bool;            (* [BlocklistChecker::can_accept] *)
  ne_signal : nat -> outcome Z unit;
  ne_broadcast : nat -> outcome Z unit;
  ne_shutdown : nat -> bool }.

Variables (env : NodeEnv).

(** ** Calls: the other tasks run first *)
Definition with_db (d : Db) (w : World) : World := mkWorld (w_time w) (w_state w) d (w_tx w) (w_log w).
Definition set_tx (t : option (list DbWrite)) (w : World) : World := mkWorld (w_time w) (w_state w) (w_db w) t (w_log w).
Definition tick (w : World) : World :=
  let '(s, d) := ne_others env (w_time w) (w_state w, w_db w) in mkWorld (S (w_time w)) s d (w_tx w) (w_log w).

Definition call {A} (f : nat -> outcome Z A) : M A := fun w => (tick w, map_err NeClient (f (w_time w))).
Definition emit_event (e : NodeEvent) : M unit :=
  st_modify (fun w => mkWorld (w_time w) (w_state w) (w_db w) (w_tx w) (w_log w ++ [e])).
Definition signal (s : SignerSignal) : M unit := emit_event (NSignal s);;; call (ne_signal env).

Definition state_read {A} (f : SignerState -> A) : M A := fun w => (tick w, Ok (f (w_state (tick w)))).
Definition state_write (f : SignerState -> SignerState) : M unit := fun w =>
  let w := tick w in (mkWorld (w_time w) (f (w_state w)) (w_db w) (w_tx w) (w_log w), Ok tt).

(** A query sees the pending writes of the open transaction. *)
Definition view (w : World) : Db := foldl apply_write (w_db w) (default [] (w_tx w)).
Definition db_call {A} (f : World -> World * A) : M A := fun w =>
  match ne_db_error env (w_time w) with
  | Some code => (if ne_db_effect env (w_time w) then (f (tick w)).1 else tick w, Err (NeClient code))
  | None => let (w', a) := f (tick w) in (w', Ok a)
  end.
Definition db_query {A} (f : nat -> Db -> A) : M A := db_call (fun w => (w, f (w_time w) (view w))).
Definition perform (op : DbWrite) (w : World) : World :=
  match w_tx w with
  | None => with_db (apply_write (w_db w) op) w
  | Some ops => set_tx (Some (ops ++ [op])) w
  end.
Definition db_write (op : DbWrite) : M unit :=
  valid <- db_call (fun w => if references (view w) op then (perform op w, true) else (w, false));;
  if negb valid then st_throw NeForeignKey else st_ret tt.
Definition db_other (e : NodeEvent) : M unit := emit_event e;;; db_call (fun w => (w, tt)).

(** [begin_transaction], the body, [commit]; when the body fails the
    transaction is dropped and rolled back; a commit that fails may have taken
    effect. *)
Definition transaction {A} (body : M A) : M A := fun w =>
  match db_call (fun w => (set_tx (Some []) w, tt)) w with
  | (w, Ok _) =>
      match (a <- body;;
             db_call (fun w => (set_tx None (with_db (view w) w), tt));;;
             st_ret a) w with
      | (w, Ok a) => (w, Ok a)
      | (w, r) => (set_tx None w, r)
      end
  | (w, Err e) => (set_tx None w, Err e)
  | (w, Panic) => (w, Panic)
  | (w, Diverge) => (w, Diverge)
  end.

(** A call whose error is logged and dropped. *)
Definition logged {A} (m : M A) : M (option A) := st_catch (a <- m;; st_ret (Some a)) (fun _ => Some None).
Fixpoint for_each {A} (f : A -> M unit) (l : list A) : M unit :=
  match l with
  | [] => st_ret tt
  | a :: l => f a;;; for_each f l
  end.
End World.
