(* ===== verification/BlockObserver.v ===== *)
(** * The block observer ([signer/src/block_observer.rs])

    For every bitcoin block hash of the stream the observer writes the missing
    blocks with their sBTC transactions, updates the cached signer state, loads
    and validates the deposit requests of Emily, and announces the new chain
    tip to the other event loops. *)

From Stdlib Require Import SpecFloat.
From stdpp Require Import strings.
From S2P Require Import Prelude Effects Types Consts WstsNet WstsMachines.
From S2P Require Import Bitcoin SignerState Requests Sweep Validation Deposits Contracts StacksSigning Wallet Coordinator Node.

#[global] Instance SbtcLimits_eq_dec : EqDecision SbtcLimits.
Proof. solve_decision. Defined.

Section BlockObserver.
Context {wc : WstsCrypto} {sl : StacksLib} {bl : BitcoinLib} {dl : DepositLib} {nl : NodeLib} {cl : CoordLib}.
Abbreviation M := (st World NodeError).
Variables (cfg : NodeConfig) (env : NodeEnv).

(** ** Deposits *)
Record FullDeposit := mkFullDeposit { dp_tx_info : BitcoinTxInfo; dp_info : DepositInfo; dp_block_hash : BlockHash }.

(** [BitcoinTxInfo::validate] *)
Definition input_disordered (p : BitcoinTxVin * TxIn) : bool :=
  negb (bool_decide (vin_txid p.1 = Some (op_txid (previous_output p.2)))) ||
  negb (bool_decide (vin_vout p.1 = Some (op_vout (previous_output p.2)))).
Definition tx_info_validate (info : BitcoinTxInfo) : outcome NodeError unit :=
  let txid := compute_txid (ti_tx info) in
  if negb (zlen (ti_vin info) =? zlen (tx_input (ti_tx info))) then Err (NeBitcoinTxMissingData txid) else
  if existsb input_disordered (zip (ti_vin info) (tx_input (ti_tx info))) then Err (NeBitcoinTxInvalidData txid) else
  if (match ti_fee info with None => true | Some _ => false end) ||
     existsb (fun x => match vin_prevout x with None => true | Some _ => false end) (ti_vin info)
  then Err (NeBitcoinTxMissingFields txid) else Ok tt.

(** [impl From<Deposit> for DepositRequest]: the scripts go through a
    [BTreeSet]. *)
Definition sender_scripts (info : BitcoinTxInfo) : list Script :=
  sort_by_key (fun s => [s]) (remove_dups (omap (fun vin => option_map vp_script_pubkey (vin_prevout vin)) (ti_vin info))).
Definition deposit_request_from (d : FullDeposit) : ModelDepositRequest :=
  let info := dp_info d in
  mkModelDeposit (op_txid (dinfo_outpoint info)) (op_vout (dinfo_outpoint info)) (dinfo_deposit_script info)
    (taproot_script_hash (dinfo_reclaim_script info)) (principal_serialize (dinfo_recipient info)) (dinfo_amount info) (dinfo_max_fee info)
    (to_consensus_u32 (dinfo_lock_time info)) (dinfo_signers_public_key info) (sender_scripts (dp_tx_info d)).

(** [DepositRequestValidator::validate] *)
Definition validate (r : CreateDepositRequest) : M (option FullDeposit) :=
  found <- call env (fun t => ne_utxo_info env t (cd_outpoint r));;
  match found with
  | None => st_ret None
  | Some response =>
      if os_is_coinbase response then st_throw (NeBitcoinTxCoinbase (op_txid (cd_outpoint r))) else
      let block_hash := os_block_hash response in
      found <- call env (fun t => ne_tx_info env t (op_txid (cd_outpoint r)) block_hash);;
      match found with
      | None => st_ret None
      | Some tx_info =>
          st_lift (tx_info_validate tx_info);;;
          info <- st_lift (map_err NeDepositError (validate_tx r (ti_tx tx_info) (nc_is_mainnet cfg)));;
          st_ret (Some (mkFullDeposit tx_info info block_hash))
      end
  end.

(** ** Blocks *)
Definition set_start_height : M unit :=
  known <- state_read env st_is_sbtc_bitcoin_start_height_set;;
  if known then st_ret tt else
  status <- call env (ne_epoch_status env);;
  state_write env (set_sbtc_bitcoin_start_height (nakamoto_start_height status)).

(** The [while] loop of [next_headers_to_process], which bitcoin-core's
    headers end; [fuel] bounds the number of its rounds. *)
Fixpoint fetch_headers (fuel : nat) (start_height : Z) (block_hash : BlockHash) (headers : list BitcoinBlockHeader)
    : M (list BitcoinBlockHeader) :=
  match fuel with
  | O => st_lift Diverge
  | S fuel =>
      known <- db_query env (fun _ => is_known block_hash);;
      if known then st_ret headers else
      found <- call env (fun t => ne_header env t block_hash);;
      header <- st_ok_or found (NeBitcoinCoreUnknownBlockHeader block_hash);;
      if bh_height header <? start_height then st_ret headers else
      let headers := header :: headers in
      if bh_height header =? start_height then st_ret headers else
      fetch_headers fuel start_height (bh_previous_block_hash header) headers
  end.
Variable fuel : nat.
Definition next_headers_to_process (block_hash : BlockHash) : M (list BitcoinBlockHeader) :=
  set_start_height;;;
  start_height <- state_read env st_sbtc_bitcoin_start_height;;
  fetch_headers fuel start_height block_hash [].

(** *** [extract_sbtc_transactions] *)
Definition spent_to_signers (scripts : gset Script) (info : BitcoinTxInfo) : bool :=
  existsb (fun out => bool_decide (txo_script out ∈ scripts)) (tx_output (ti_tx info)).
Definition spent_by_signers (scripts : gset Script) (info : BitcoinTxInfo) : bool :=
  existsb (fun p => bool_decide (vp_script_pubkey p ∈ scripts)) (omap vin_prevout (ti_vin info)).

Fixpoint extract_txs (block_hash : BlockHash) (scripts : gset Script) (txs : list BitcoinTxInfo) (sbtc_txs : list BitcoinTxRef)
    : M (list BitcoinTxRef) :=
  match txs with
  | [] => st_ret sbtc_txs
  | tx_info :: txs =>
      if is_coinbase (ti_tx tx_info) then extract_txs block_hash scripts txs sbtc_txs else
      st_lift (tx_info_validate tx_info);;;
      if negb (spent_to_signers scripts tx_info) && negb (spent_by_signers scripts tx_info)
      then extract_txs block_hash scripts txs sbtc_txs else
      let sbtc_txs := sbtc_txs ++ [mkBitcoinTxRef (compute_txid (ti_tx tx_info)) block_hash] in
      for_each (fun prevout => db_write env (WPrevout prevout)) (to_inputs tx_info scripts);;;
      outputs <- st_lift (map_err NeSweep (to_outputs tx_info scripts));;
      for_each (fun output => db_write env (WOutput output)) outputs.1;;;
      for_each (fun output => db_write env (WWithdrawalOutput output)) outputs.2;;;
      extract_txs block_hash scripts txs sbtc_txs
  end.
Definition extract_pass (block_hash : BlockHash) (txs : list BitcoinTxInfo) : M unit :=
  known <- db_query env (ne_script_pubkeys env);;
  let bootstrap := option_map (fun k => signers_script_pubkey (x_only k)) (nc_bootstrap_aggregate_key cfg) in
  let scripts : gset Script := list_to_set (known ++ option_list bootstrap) in
  sbtc_txs <- extract_txs block_hash scripts txs [];;
  db_write env (WTransactions sbtc_txs).
Definition extract_sbtc_transactions (block_hash : BlockHash) (txs : list BitcoinTxInfo) : M unit :=
  extract_pass block_hash txs;;;
  extract_pass block_hash txs.

Definition process_bitcoin_block (header : BitcoinBlockHeader) : M unit :=
  found <- call env (fun t => ne_block env t (bh_hash header));;
  block <- st_ok_or found (NeBitcoinCoreMissingBlock (bh_hash header));;
  transaction env
    (db_write env (WBlock (block_from_info block));;;
     extract_sbtc_transactions (bh_hash header) (bi_transactions block)).

Definition process_bitcoin_blocks_until (block_hash : BlockHash) : M unit :=
  block_headers <- next_headers_to_process block_hash;;
  for_each process_bitcoin_block block_headers.

Definition process_bitcoin_chain_tip (chain_tip : BlockHash) : M unit :=
  process_bitcoin_blocks_until chain_tip;;;
  known <- db_query env (fun _ => is_known chain_tip);;
  if negb known then st_throw (NeUnknownBitcoinChainTip chain_tip) else
  db_other env (NSetCanonical chain_tip).

(** ** Deposit requests *)
Fixpoint load_each (requests : list CreateDepositRequest) (deposit_requests : list ModelDepositRequest) (deposit_request_txs : list BitcoinTxRef)
    : M (list ModelDepositRequest * list BitcoinTxRef) :=
  match requests with
  | [] => st_ret (deposit_requests, deposit_request_txs)
  | request :: requests =>
      deposit <- logged (validate request);;
      match deposit with
      | Some (Some deposit) =>
          process_bitcoin_blocks_until (dp_block_hash deposit);;;
          let tx := mkBitcoinTxRef (compute_txid (ti_tx (dp_tx_info deposit))) (dp_block_hash deposit) in
          load_each requests (deposit_requests ++ [deposit_request_from deposit]) (deposit_request_txs ++ [tx])
      | _ => load_each requests deposit_requests deposit_request_txs
      end
  end.
Definition load_requests (requests : list CreateDepositRequest) : M unit :=
  loaded <- load_each requests [] [];;
  db_write env (WTransactions loaded.2);;;
  db_write env (WDeposits loaded.1).
Definition load_latest_deposit_requests : M unit :=
  requests <- call env (ne_emily_deposits env);;
  load_requests requests.

(** ** The cached signer state *)
(** [Amount::checked_sub] *)
Definition amount_checked_sub (a b : Z) : option Z := if b <=? a then Some (a - b) else None.
Definition process_stacks_blocks : M unit :=
  consensus_hash <- call env (ne_tenure_consensus_hash env);;
  call env (fun t => ne_update_ancestors env t consensus_hash).

Definition update_sbtc_limits (chain_tip : BlockHash) : M unit :=
  limits <- call env (ne_emily_limits env);;
  sbtc_deployed <- state_read env st_sbtc_contracts_deployed;;
  max_mintable <-
    (if total_cap_exists limits && sbtc_deployed then
       sbtc_supply <- call env (fun t => ne_total_supply env t (nc_deployer cfg));;
       st_ret (default 0 (amount_checked_sub (total_cap limits) sbtc_supply))
     else st_ret MAX_MONEY);;
  let rolling_limits := rolling_withdrawal_limits limits in
  withdrawn_total <- db_query env (fun t d => ne_withdrawn_total env t d chain_tip (rolling_blocks rolling_limits));;
  let limits := mkSbtcLimits (Some (total_cap limits)) (Some (per_deposit_minimum limits)) (Some (per_deposit_cap limits))
    (Some (per_withdrawal_cap limits)) (Some (rolling_blocks rolling_limits)) (Some (rolling_cap rolling_limits))
    (Some withdrawn_total) (Some max_mintable) in
  current <- state_read env st_current_limits;;
  if bool_decide (limits = current) then st_ret tt else state_write env (update_current_limits limits).

Fixpoint contracts_deployed (contracts : list SmartContract) : M bool :=
  match contracts with
  | [] => st_ret true
  | contract :: contracts =>
      deployed <- (fun w => (tick env w, map_err NeContract (is_deployed (ne_contracts env (w_time w)) contract (nc_deployer cfg))));;
      if negb deployed then st_ret false else contracts_deployed contracts
  end.
Definition are_sbtc_contracts_deployed : M bool :=
  known <- state_read env st_sbtc_contracts_deployed;;
  if known then st_ret true else
  deployed <- contracts_deployed SMART_CONTRACTS;;
  if negb deployed then st_ret false else
  state_write env set_sbtc_contracts_deployed;;;
  st_ret true.
Definition get_signer_set_info : M (option SignerSetInfo) :=
  deployed <- are_sbtc_contracts_deployed;;
  if negb deployed then st_ret None else
  call env (fun t => ne_signer_set_info env t (nc_deployer cfg)).
Definition set_signer_set_info : M unit :=
  info <- get_signer_set_info;;
  match info with Some info => state_write env (update_registry_signer_set_info info) | None => st_ret tt end.

Definition observer_set_bitcoin_chain_tip (chain_tip : BlockHash) : M BitcoinBlockRef :=
  found <- db_query env (fun _ d => db_blocks d !! chain_tip);;
  block <- st_ok_or found (NeUnknownBitcoinBlock chain_tip);;
  let chain_tip := block_ref_from block in
  state_write env (set_bitcoin_chain_tip chain_tip);;;
  st_ret chain_tip.
Definition observer_set_stacks_chain_tip (chain_tip : BlockHash) : M unit :=
  found <- db_query env (fun t d => ne_stacks_chain_tip env t d chain_tip);;
  chain_tip <- st_ok_or found NeNoStacksChainTip;;
  state_write env (set_stacks_chain_tip chain_tip).
Definition update_signer_state (chain_tip : BlockHash) : M BitcoinBlockRef :=
  update_sbtc_limits chain_tip;;;
  set_signer_set_info;;;
  observer_set_stacks_chain_tip chain_tip;;;
  observer_set_bitcoin_chain_tip chain_tip.

Definition check_pending_dkg_shares (chain_tip : BlockHash) : M unit :=
  last_dkg <- db_query env (ne_latest_shares env);;
  match last_dkg with
  | Some shares =>
      match dr_status shares with
      | Unverified =>
          found <- db_query env (fun _ d => db_blocks d !! chain_tip);;
          block <- st_ok_or found NeNoChainTip;;
          let max_verification_height := saturating_add 64 (dr_started_at_height shares) (nc_dkg_verification_window cfg) in
          if max_verification_height <? bb_block_height block then db_other env (NRevokeShares (dr_aggregate_key shares)) else st_ret tt
      | _ => st_ret tt
      end
  | None => st_ret tt
  end.

(** ** The loop, on the polls of the stream of block hashes *)
Inductive Poll :=
| PollBlock (h : BlockHash)
| PollError                                                    (* a block hash that could not be decoded *)
| PollNothing.                                                 (* a timeout, or the stream has ended *)

Definition observe_block (block_hash : BlockHash) : M unit :=
  logged (process_bitcoin_chain_tip block_hash);;;
  logged process_stacks_blocks;;;
  checked <- logged (check_pending_dkg_shares block_hash);;
  match checked with None => st_ret tt | Some _ =>
  updated <- logged (update_signer_state block_hash);;
  match updated with None => st_ret tt | Some chain_tip =>
  logged load_latest_deposit_requests;;;
  signal env (SignalBitcoinBlockObserved chain_tip)
  end end.

Fixpoint observer_run (polls : list Poll) : M unit :=
  match polls with
  | [] => st_ret tt
  | poll :: polls =>
      shutdown <- call env (fun t => Ok (ne_shutdown env t));;
      if (shutdown : bool) then st_ret tt else
      match poll with
      | PollBlock block_hash => observe_block block_hash;;; observer_run polls
      | PollError | PollNothing => observer_run polls
      end
  end.
End BlockObserver.
