(* ===== verification/RequestDecider.v ===== *)
(** * The request decider ([signer/src/request_decider.rs])

    At every new chain tip the signer decides on the deposit and withdrawal
    requests that it has not decided on, stores its decisions and sends them to
    its peers; it stores the decisions that it receives from them. *)

From Stdlib Require Import SpecFloat.
From stdpp Require Import strings.
From S2P Require Import Prelude Effects Types Consts WstsNet WstsMachines.
From S2P Require Import Bitcoin SignerState Requests Sweep Validation Deposits Contracts StacksSigning Wallet Coordinator Node BlockObserver.

Section RequestDecider.
Context {wc : WstsCrypto} {sl : StacksLib} {bl : BitcoinLib} {dl : DepositLib} {nl : NodeLib} {cl : CoordLib}.
Abbreviation M := (st World NodeError).
Variables (cfg : NodeConfig) (env : NodeEnv) (fuel : nat).

Definition rd_send_message (payload : Payload) (chain_tip : BlockHash) : M unit :=
  emit_event (NSend (mkSignedMessage chain_tip payload (nc_public_key cfg)));;;
  call env (ne_broadcast env).

(** ** Decisions of this signer *)
Definition can_accept_withdrawal_request (req : ModelWithdrawalRequest) : M bool :=
  if negb (nc_blocklist_checker cfg) then st_ret true else
  receiver_address <- st_ok_or (address_from_script (mw_recipient req))
    (NeWithdrawalBitcoinAddressFromScript (mw_request_id req) (mw_block_hash req));;
  call env (fun t => ne_can_accept env t receiver_address).

(** Every address is looked up; the first error counts. *)
Fixpoint lookup_all (addresses : list Address) : M (list (outcome Z bool)) :=
  match addresses with
  | [] => st_ret []
  | address :: addresses =>
      response <- (fun w => (tick env w, Ok (ne_can_accept env (w_time w) address)));;
      responses <- lookup_all addresses;;
      st_ret (response :: responses)
  end.
Definition can_accept_deposit_request (req : ModelDepositRequest) : M bool :=
  if negb (nc_blocklist_checker cfg) then st_ret true else
  addresses <- st_lift (collect (fun script => ok_or (address_from_script script) (NeDepositBitcoinAddressFromScript (md_outpoint req)))
    (md_sender_script_pub_keys req));;
  responses <- lookup_all addresses;;
  responses <- st_lift (map_err NeClient (collect id responses));;
  st_ret (forallb id responses).

Definition handle_pending_deposit_request (request : ModelDepositRequest) (chain_tip : BlockHash) : M unit :=
  let key := nc_public_key cfg in
  can_sign <- db_query env (fun t d => default false (ne_can_sign env t d (md_txid request) (md_output_index request) key));;
  can_accept <- can_accept_deposit_request request;;
  let msg := mkDepositDecision (md_txid request) (md_output_index request) can_accept can_sign in
  let signer_decision := mkDepositSigner (md_txid request) (md_output_index request) key can_accept can_sign in
  db_write env (WDepositSigner signer_decision);;;
  rd_send_message (PayDepositDecision msg) chain_tip;;;
  signal env SignalOther.

Definition handle_pending_withdrawal_request (request : ModelWithdrawalRequest) (chain_tip : BlockHash) : M unit :=
  is_accepted <- can_accept_withdrawal_request request;;
  let msg := mkWithdrawalDecision (mw_request_id request) (mw_block_hash request) (mw_txid request) is_accepted in
  let signer_decision :=
    mkWithdrawalSigner (mw_request_id request) (mw_txid request) (mw_block_hash request) (nc_public_key cfg) is_accepted in
  db_write env (WWithdrawalSigner signer_decision);;;
  rd_send_message (PayWithdrawalDecision msg) chain_tip;;;
  signal env SignalOther.

(** ** Decisions sent again *)
Definition handle_deposit_decisions_to_retry (decisions : list DepositSigner) (chain_tip : BlockHash) : M unit :=
  for_each (fun d => logged (rd_send_message (PayDepositDecision (deposit_decision_from d)) chain_tip);;; st_ret tt) decisions.
Definition handle_withdrawal_decisions_to_retry (decisions : list WithdrawalSigner) (chain_tip : BlockHash) : M unit :=
  for_each (fun d => logged (rd_send_message (PayWithdrawalDecision (withdrawal_decision_from d)) chain_tip);;; st_ret tt) decisions.

Definition handle_new_requests (block_ref : BitcoinBlockRef) : M unit :=
  (if 0 <? nc_requests_processing_delay cfg then emit_event NSleep else st_ret tt);;;
  let tip := bbr_block_hash block_ref in
  let key := nc_public_key cfg in
  found <- state_read env st_stacks_chain_tip;;
  stacks_chain_tip <- st_ok_or found NeNoStacksChainTip;;
  deposit_decisions <- db_query env (fun t d => ne_deposit_decisions env t d tip (nc_deposit_decisions_retry_window cfg) key);;
  logged (handle_deposit_decisions_to_retry deposit_decisions tip);;;
  deposit_requests <- db_query env (fun t d => ne_pending_deposits env t d tip (nc_context_window cfg) key);;
  for_each (fun r => logged (handle_pending_deposit_request r tip);;; st_ret tt) deposit_requests;;;
  withdrawal_decisions <- db_query env (fun t d => ne_withdrawal_decisions env t d tip (nc_withdrawal_decisions_retry_window cfg) key);;
  logged (handle_withdrawal_decisions_to_retry withdrawal_decisions tip);;;
  withdraw_requests <- db_query env (fun t d =>
    ne_pending_withdrawals env t d tip (sbr_block_hash stacks_chain_tip) (nc_context_window cfg) key);;
  for_each (fun r => logged (handle_pending_withdrawal_request r tip);;; st_ret tt) withdraw_requests.

(** ** Decisions of the peers *)
Definition persist_received_deposit_decision (decision : SignerDepositDecision) (signer_pub_key : PublicKey) : M unit :=
  let outpoint := mkOutPoint (sdd_txid decision) (sdd_output_index decision) in
  let signer_decision := mkDepositSigner (sdd_txid decision) (sdd_output_index decision) signer_pub_key
    (sdd_can_accept decision) (sdd_can_sign decision) in
  exists_ <- db_query env (fun _ => has_deposit outpoint);;
  (if negb exists_ then
     deposit_request <- call env (fun t => ne_emily_deposit env t (sdd_txid decision) (sdd_output_index decision));;
     match deposit_request with
     | Some request => load_requests cfg env fuel [request]
     | None => st_ret tt
     end
   else st_ret tt);;;
  exists_ <- db_query env (fun _ => has_deposit outpoint);;
  if negb exists_ then st_ret tt else
  db_write env (WDepositSigner signer_decision);;;
  signal env SignalOther.
Definition persist_received_withdraw_decision (decision : SignerWithdrawalDecision) (signer_pub_key : PublicKey) : M unit :=
  db_write env (WWithdrawalSigner (mkWithdrawalSigner (swd_request_id decision) (swd_txid decision) (swd_block_hash decision)
    signer_pub_key (swd_accepted decision)));;;
  signal env SignalOther.

Definition rd_handle_signer_message (msg : SignedMessage) : M unit :=
  match sm_payload msg with
  | PayDepositDecision decision => persist_received_deposit_decision decision (sm_signer_public_key msg)
  | PayWithdrawalDecision decision => persist_received_withdraw_decision decision (sm_signer_public_key msg)
  | _ => st_ret tt
  end.

(** ** The loop *)
Definition rd_message_filter (s : SignerSignal) : bool :=
  match s with SignalShutdown | SignalMessageReceived _ | SignalBitcoinBlockObserved _ => true | _ => false end.

Fixpoint rd_loop (signals : list SignerSignal) : M unit :=
  match signals with
  | [] => st_ret tt
  | SignalShutdown :: _ => st_ret tt
  | SignalMessageReceived msg :: signals =>
      logged (rd_handle_signer_message msg);;;
      rd_loop signals
  | SignalBitcoinBlockObserved chain_tip :: signals =>
      logged (handle_new_requests chain_tip);;;
      signalled <- logged (signal env (SignalNewRequestsHandled chain_tip));;
      match signalled with Some _ => rd_loop signals | None => st_ret tt end
  | _ :: signals => rd_loop signals
  end.
Definition rd_run (signals : list SignerSignal) : M unit :=
  signal env SignalOther;;;
  rd_loop (List.filter rd_message_filter signals).
End RequestDecider.
