(* ===== verification/NodeSafety.v ===== *)
(** * What the block observer and the request decider keep true

    The two loops and the other tasks share the database. The invariant: the
    blocks of the database have no gaps, its deposit requests are validated,
    and its votes were cast by the signers that they name. A loop keeps it if
    the other tasks do ([env_laws]); each loop is one of the others' other
    tasks. *)

From Stdlib Require Import SpecFloat.
From stdpp Require Import strings.
From S2P Require Import Prelude Effects Types Consts WstsNet WstsMachines.
From S2P Require Import Bitcoin SignerState Requests Sweep Validation Deposits Contracts StacksSigning Wallet Coordinator Node BlockObserver RequestDecider.

(** ** Rows of a table *)
Section Rows.
Context {R K : Type} `{EqDecision K} (key : R -> K).
Lemma insert_row_inv rows r x : x ∈ insert_row key rows r -> x ∈ rows \/ x = r.
Proof. unfold insert_row. destruct (existsb _ _); set_solver. Qed.
Lemma insert_row_old rows r x : x ∈ rows -> x ∈ insert_row key rows r.
Proof. unfold insert_row. destruct (existsb _ _); set_solver. Qed.
Lemma insert_rows_inv new : forall rows x, x ∈ foldl (insert_row key) rows new -> x ∈ rows \/ x ∈ new.
Proof.
  induction new as [|r new IH]; intros rows x Hx; [by left|]. apply IH in Hx as [Hx|Hx]; [|set_solver].
  apply insert_row_inv in Hx. set_solver.
Qed.
Lemma insert_rows_old new : forall rows x, x ∈ rows -> x ∈ foldl (insert_row key) rows new.
Proof. induction new as [|r new IH]; intros rows x Hx; [done|]. by apply IH, insert_row_old. Qed.
Lemma insert_rows_new new : Inj (=) (=) key -> forall rows x, x ∈ new -> x ∈ foldl (insert_row key) rows new.
Proof.
  intros Hk. induction new as [|r new IH]; intros rows x Hx; [by apply not_elem_of_nil in Hx|]. cbn [foldl].
  apply elem_of_cons in Hx as [->|Hx]; [|by apply IH]. apply insert_rows_old. unfold insert_row. destruct (existsb _ _) eqn:He; [|set_solver].
  apply existsb_exists in He as (y & Hy & Heq%bool_decide_eq_true). apply Hk in Heq as ->. by apply list_elem_of_In.
Qed.
Lemma insert_row_nodup rows r : NoDup (key <$> rows) -> NoDup (key <$> insert_row key rows r).
Proof.
  intros Hn. unfold insert_row. destruct (existsb _ _) eqn:He; [done|]. rewrite fmap_app. apply NoDup_app. split_and!; [done| |apply NoDup_singleton].
  intros k (x & -> & Hx)%list_elem_of_fmap Hk%list_elem_of_singleton. apply not_true_iff_false in He. apply He, existsb_exists.
  exists x. split; [by apply list_elem_of_In|by apply bool_decide_eq_true].
Qed.
Lemma insert_rows_nodup new : forall rows, NoDup (key <$> rows) -> NoDup (key <$> foldl (insert_row key) rows new).
Proof. induction new as [|r new IH]; intros rows Hn; [done|]. by apply IH, insert_row_nodup. Qed.
Lemma keyed_row rows k : existsb (fun x => bool_decide (key x = k)) rows = true -> exists x, x ∈ rows /\ key x = k.
Proof. intros (x & Hx & Hk%bool_decide_eq_true)%existsb_exists. exists x. split; [by apply list_elem_of_In|done]. Qed.
Lemma keyed_unique rows x y : NoDup (key <$> rows) -> x ∈ rows -> y ∈ rows -> key x = key y -> x = y.
Proof.
  intros Hn [i Hi]%list_elem_of_lookup [j Hj]%list_elem_of_lookup Hk. enough (i = j) as -> by congruence.
  eapply (NoDup_lookup (key <$> rows)); [done|by rewrite list_lookup_fmap, Hi|]. by rewrite list_lookup_fmap, Hj, Hk.
Qed.
End Rows.

Section Invariant.
Context {wc : WstsCrypto} {sl : StacksLib} {bl : BitcoinLib} {dl : DepositLib} {nl : NodeLib} {cl : CoordLib}.
Abbreviation M := (st World NodeError).
Variables (cfg : NodeConfig) (env : NodeEnv).
(** The bitcoin blocks: a block hash determines its header. *)
Variables (start : Z) (height : BlockHash -> Z) (parent : BlockHash -> BlockHash) (txs_of : BlockHash -> list BitcoinTxInfo).
(** Scripts of the signers that the database returns throughout. *)
Variable own : gset Script.
(** The messages that are received. *)
Variable received : SignedMessage -> Prop.

(** ** The invariant of the database *)
Definition known (h : BlockHash) (d : Db) : Prop := is_Some (db_blocks d !! h).
Definition rooted (h : BlockHash) (d : Db) : Prop := height h < start \/ known h d.
(** A block above the start height has its parent beside it. *)
Record block_ok (d : Db) (b : BitcoinBlock) : Prop := {
  bo_height : bb_block_height b = height (bb_block_hash b);
  bo_parent : bb_parent_hash b = parent (bb_block_hash b);
  bo_gapless : height (bb_block_hash b) <= start \/ known (parent (bb_block_hash b)) d }.
(** A confirmed deposit, as bitcoin-core reported it, that passed validation. *)
Definition deposit_ok (d : Db) (r : ModelDepositRequest) : Prop :=
  exists request summary info dinfo t t',
    ne_utxo_info env t (cd_outpoint request) = Ok (Some summary) /\ os_is_coinbase summary = false /\
    ne_tx_info env t' (op_txid (cd_outpoint request)) (os_block_hash summary) = Ok (Some info) /\
    tx_info_validate info = Ok tt /\ validate_tx request (ti_tx info) (nc_is_mainnet cfg) = Ok dinfo /\
    rooted (os_block_hash summary) d /\ r = deposit_request_from (mkFullDeposit info dinfo (os_block_hash summary)).

(** The transaction pays the signers, or spends what was theirs. *)
Definition relevant (scripts : gset Script) (info : BitcoinTxInfo) : Prop :=
  is_coinbase (ti_tx info) = false /\ (spent_to_signers scripts info = true \/ spent_by_signers scripts info = true).
Definition recorded (h : BlockHash) (refs : list BitcoinTxRef) : Prop :=
  forall info, info ∈ txs_of h -> relevant own info -> mkBitcoinTxRef (compute_txid (ti_tx info)) h ∈ refs.
(** A block comes with the signers' transactions in it. *)
Definition sweeps_ok (d : Db) : Prop := forall h, known h d -> recorded h (db_transactions d).

(** Decisions of this signer, on the rows of the database that the vote names. *)
Definition unblocked (script : Script) : Prop :=
  nc_blocklist_checker cfg = true -> exists address t, address_from_script script = Some address /\ ne_can_accept env t address = Ok true.
Definition requested (d : Db) (r : DepositSigner) (q : ModelDepositRequest) : Prop :=
  q ∈ db_deposits d /\ md_outpoint q = mkOutPoint (dsg_txid r) (dsg_output_index r).
Definition withdrawal_requested (d : Db) (r : WithdrawalSigner) (q : ModelWithdrawalRequest) : Prop :=
  q ∈ db_withdrawals d /\ mw_key q = (wsg_request_id r, wsg_block_hash r).
Definition deposit_decided (r : DepositSigner) (q : ModelDepositRequest) : Prop :=
  (dsg_can_accept r = true -> Forall unblocked (md_sender_script_pub_keys q)) /\
  (dsg_can_sign r = true -> exists t d, ne_can_sign env t d (dsg_txid r) (dsg_output_index r) (nc_public_key cfg) = Some true).
Definition withdrawal_decided (r : WithdrawalSigner) (q : ModelWithdrawalRequest) : Prop :=
  mw_txid q = wsg_txid r /\ (wsg_is_accepted r = true -> unblocked (mw_recipient q)).
(** A vote is this signer's decision, or was received from the signer. *)
Definition deposit_vote (d : Db) (r : DepositSigner) : Prop :=
  (dsg_signer_pub_key r = nc_public_key cfg /\ exists q, requested d r q /\ deposit_decided r q) \/
  exists m, received m /\ sm_signer_public_key m = dsg_signer_pub_key r /\ sm_payload m = PayDepositDecision (deposit_decision_from r).
Definition withdrawal_vote (d : Db) (r : WithdrawalSigner) : Prop :=
  (wsg_signer_pub_key r = nc_public_key cfg /\ exists q, withdrawal_requested d r q /\ withdrawal_decided r q) \/
  exists m, received m /\ sm_signer_public_key m = wsg_signer_pub_key r /\ sm_payload m = PayWithdrawalDecision (withdrawal_decision_from r).

Record db_ok (d : Db) : Prop := {
  ok_blocks : forall h b, db_blocks d !! h = Some b -> bb_block_hash b = h /\ block_ok d b;
  ok_deposits : forall r, r ∈ db_deposits d -> deposit_ok d r;
  ok_deposit_keys : NoDup (md_outpoint <$> db_deposits d);
  ok_withdrawal_keys : NoDup (mw_key <$> db_withdrawals d);
  ok_deposit_votes : forall r, r ∈ db_deposit_signers d -> deposit_vote d r /\ exists q, requested d r q;
  ok_withdrawal_votes : forall r, r ∈ db_withdrawal_signers d -> withdrawal_vote d r /\ exists q, withdrawal_requested d r q }.
Definition state_ok (s : SignerState) : Prop := st_is_sbtc_bitcoin_start_height_set s = true -> st_sbtc_bitcoin_start_height s = start.

(** The start height is set once. *)
Definition start_kept (s s' : SignerState) : Prop :=
  st_is_sbtc_bitcoin_start_height_set s = true -> st_is_sbtc_bitcoin_start_height_set s' = true.

(** Rows are never deleted. *)
Record db_grows (d d' : Db) : Prop := {
  gr_blocks : db_blocks d ⊆ db_blocks d';
  gr_transactions : forall r, r ∈ db_transactions d -> r ∈ db_transactions d';
  gr_deposits : forall r, r ∈ db_deposits d -> r ∈ db_deposits d';
  gr_withdrawals : forall r, r ∈ db_withdrawals d -> r ∈ db_withdrawals d' }.
#[export] Instance db_grows_preorder : PreOrder db_grows.
Proof. split; [by constructor|]. intros d1 d2 d3 [] []. constructor; [by etrans|auto..]. Qed.

Lemma known_grows h d d' : db_grows d d' -> known h d -> known h d'.
Proof. intros [Hb _ _ _] [b Hk]. exists b. by eapply lookup_weaken. Qed.
Lemma rooted_grows h d d' : db_grows d d' -> rooted h d -> rooted h d'.
Proof. intros Hg [|]; [by left|right; by eapply known_grows]. Qed.
Lemma block_grows d d' b : db_grows d d' -> block_ok d b -> block_ok d' b.
Proof. intros Hg [? ? [|]]; constructor; try done; [by left|right; by eapply known_grows]. Qed.
Lemma deposit_grows d d' r : db_grows d d' -> deposit_ok d r -> deposit_ok d' r.
Proof.
  intros Hg (q & s & i & di & t & t' & ? & ? & ? & ? & ? & Hr & ->). exists q, s, i, di, t, t'. split_and!; try done. by eapply rooted_grows.
Qed.
Lemma requested_grows d d' r q : db_grows d d' -> requested d r q -> requested d' r q.
Proof. intros Hg [Hq Ho]. split; [by apply (gr_deposits _ _ Hg)|done]. Qed.
Lemma withdrawal_requested_grows d d' r q : db_grows d d' -> withdrawal_requested d r q -> withdrawal_requested d' r q.
Proof. intros Hg [Hq Ho]. split; [by apply (gr_withdrawals _ _ Hg)|done]. Qed.
Lemma vote_grows d d' r : db_grows d d' -> deposit_vote d r -> deposit_vote d' r.
Proof. intros Hg [[Hk (q & Hq & Hv)]|Hm]; [left|by right]. split; [done|]. exists q. split; [by eapply requested_grows|done]. Qed.
Lemma withdrawal_vote_grows d d' r : db_grows d d' -> withdrawal_vote d r -> withdrawal_vote d' r.
Proof. intros Hg [[Hk (q & Hq & Hv)]|Hm]; [left|by right]. split; [done|]. exists q. split; [by eapply withdrawal_requested_grows|done]. Qed.
Definition deposit_row_ok (d : Db) (r : DepositSigner) : Prop := deposit_vote d r /\ exists q, requested d r q.
Definition withdrawal_row_ok (d : Db) (r : WithdrawalSigner) : Prop := withdrawal_vote d r /\ exists q, withdrawal_requested d r q.
Lemma deposit_row_grows d d' r : db_grows d d' -> deposit_row_ok d r -> deposit_row_ok d' r.
Proof. intros Hg [Hv [q Hq]]. split; [by eapply vote_grows|]. exists q. by eapply requested_grows. Qed.
Lemma withdrawal_row_grows d d' r : db_grows d d' -> withdrawal_row_ok d r -> withdrawal_row_ok d' r.
Proof. intros Hg [Hv [q Hq]]. split; [by eapply withdrawal_vote_grows|]. exists q. by eapply withdrawal_requested_grows. Qed.

(** *** Writes *)
Definition write_ok (d : Db) (op : DbWrite) : Prop :=
  match op with
  | WBlock b => block_ok d b
  | WDeposits rows => Forall (deposit_ok d) rows
  | WDepositSigner r => deposit_row_ok d r
  | WWithdrawalSigner r => withdrawal_row_ok d r
  | _ => True
  end.
Lemma write_grows d op : db_grows d (apply_write d op).
Proof.
  destruct d as [a b c e f g h i j], op as [r| | | | | | |]; constructor; cbn; intros; try done; try by apply insert_rows_old.
  destruct (a !! bb_block_hash r) eqn:Ha; [done|by apply insert_subseteq].
Qed.
Lemma write_ok_grows d d' op : db_grows d d' -> write_ok d op -> write_ok d' op.
Proof.
  intros Hg. destruct op; cbn; try done; [by apply block_grows| |by apply deposit_row_grows|by apply withdrawal_row_grows].
  intros Hr. eapply Forall_impl; [exact Hr|]. intros r. by apply deposit_grows.
Qed.
Lemma write_keeps d op : db_ok d -> write_ok d op -> db_ok (apply_write d op).
Proof.
  intros [Hb Hd Hdk Hwk Hv Hw] Hop. pose proof (write_grows d op) as Hg. constructor.
  - intros h b Hl. assert ((db_blocks d !! h = Some b) \/ (bb_block_hash b = h /\ op = WBlock b)) as [Hold|[Hh ->]].
    { destruct d as [bs ? ? ? ? ? ? ? ?], op as [x| | | | | | |]; cbn in Hl |- *; try (by left). destruct (bs !! bb_block_hash x); [by left|].
      apply lookup_insert_Some in Hl as [[<- <-]|[_ Hl]]; [by right|by left]. }
    + destruct (Hb h b Hold) as [Hh Hok]. split; [done|by eapply block_grows].
    + split; [done|]. by eapply block_grows.
  - intros r Hr. eapply deposit_grows; [exact Hg|]. destruct d, op; cbn in *; try by apply Hd. apply insert_rows_inv in Hr as [Hr|Hr]; [by apply Hd|].
    by eapply Forall_forall in Hop.
  - destruct d, op; cbn in *; try done. by apply insert_rows_nodup.
  - by destruct d, op.
  - intros r Hr. apply (deposit_row_grows _ _ _ Hg).
    destruct d, op; cbn in Hr; try (by apply Hv). apply insert_row_inv in Hr as [Hr| ->]; [by apply Hv|done].
  - intros r Hr. apply (withdrawal_row_grows _ _ _ Hg).
    destruct d, op; cbn in *; try (by apply Hw). apply insert_row_inv in Hr as [Hr| ->]; [by apply Hw|done].
Qed.
Lemma writes_keep ops : forall d, db_ok d -> Forall (write_ok d) ops -> db_ok (foldl apply_write d ops) /\ db_grows d (foldl apply_write d ops).
Proof.
  induction ops as [|op ops IH]; intros d Hd Ho; [done|]. apply Forall_cons in Ho as [Hop Ho]. cbn [foldl].
  pose proof (write_grows d op) as Hg. destruct (IH (apply_write d op)) as [? ?]; [by apply write_keeps| |split; [done|by etrans]].
  eapply Forall_impl; [exact Ho|]. intros x. by apply write_ok_grows.
Qed.

Definition not_block (op : DbWrite) : Prop := match op with WBlock _ => False | _ => True end.
Lemma write_blocks d op : not_block op -> db_blocks (apply_write d op) = db_blocks d.
Proof. by destruct d, op. Qed.
Lemma writes_blocks ops : forall d, Forall not_block ops -> db_blocks (foldl apply_write d ops) = db_blocks d.
Proof. induction ops as [|op ops IH]; intros d Ho; [done|]. apply Forall_cons in Ho as [Hop Ho]. cbn [foldl]. by rewrite IH, write_blocks. Qed.
Lemma sweeps_grow d d' : db_blocks d' = db_blocks d -> db_grows d d' -> sweeps_ok d -> sweeps_ok d'.
Proof. intros Hb Hg Hs h Hk info Hi Hr. apply (gr_transactions _ _ Hg). apply Hs; [|done..]. unfold known in *. by rewrite <- Hb. Qed.

(** ** The laws of the environment: bitcoin-core's headers, the start height,
    the queries, and the other tasks *)
Record env_laws : Prop := {
  el_header : forall t h hd, ne_header env t h = Ok (Some hd) ->
    bh_hash hd = h /\ bh_height hd = height h /\ bh_previous_block_hash hd = parent h;
  el_block : forall t h b, ne_block env t h = Ok (Some b) ->
    bi_block_hash b = h /\ bi_height b = height h /\ bi_previous_block_hash b = parent h /\ bi_transactions b = txs_of h;
  el_scripts : forall t d, own ⊆ (list_to_set (ne_script_pubkeys env t d) : gset Script);
  el_height : forall h, start < height h -> height (parent h) = height h - 1;
  el_start : forall t s, ne_epoch_status env t = Ok s -> nakamoto_start_height s = start;
  el_pending : forall t d tip window k r, r ∈ ne_pending_deposits env t d tip window k -> r ∈ db_deposits d;
  el_pending_withdrawals : forall t d tip stacks_tip window k r,
    r ∈ ne_pending_withdrawals env t d tip stacks_tip window k -> r ∈ db_withdrawals d;
  el_deposit_decisions : forall t d tip window k r, r ∈ ne_deposit_decisions env t d tip window k ->
    r ∈ db_deposit_signers d /\ dsg_signer_pub_key r = k;
  el_withdrawal_decisions : forall t d tip window k r, r ∈ ne_withdrawal_decisions env t d tip window k ->
    r ∈ db_withdrawal_signers d /\ wsg_signer_pub_key r = k;
  el_others : forall t s d, state_ok s -> db_ok d -> sweeps_ok d ->
    state_ok (ne_others env t (s, d)).1 /\ start_kept s (ne_others env t (s, d)).1 /\
    db_ok (ne_others env t (s, d)).2 /\ sweeps_ok (ne_others env t (s, d)).2 /\ db_grows d (ne_others env t (s, d)).2 }.

(** ** The invariant of the world *)
Definition sent_ok (d : Db) (p : Payload) : Prop :=
  match p with
  | PayDepositDecision v => exists r, v = deposit_decision_from r /\ dsg_signer_pub_key r = nc_public_key cfg /\ deposit_row_ok d r
  | PayWithdrawalDecision v => exists r, v = withdrawal_decision_from r /\ wsg_signer_pub_key r = nc_public_key cfg /\ withdrawal_row_ok d r
  | _ => False
  end.
Definition event_ok (d : Db) (e : NodeEvent) : Prop :=
  match e with
  | NSignal (SignalBitcoinBlockObserved tip) => known (bbr_block_hash tip) d /\ bbr_block_height tip = height (bbr_block_hash tip)
  | NSetCanonical h => known h d
  | NSend m => sm_signer_public_key m = nc_public_key cfg /\ sent_ok d (sm_payload m)
  | _ => True
  end.
Record inv (w : World) : Prop := {
  inv_state : state_ok (w_state w);
  inv_db : db_ok (w_db w);
  inv_sweeps : sweeps_ok (w_db w);
  inv_tx : Forall (write_ok (w_db w)) (default [] (w_tx w));
  inv_log : Forall (event_ok (w_db w)) (w_log w) }.
Record evolves (w w' : World) : Prop := {
  ev_start : start_kept (w_state w) (w_state w');
  ev_db : db_grows (w_db w) (w_db w');
  ev_tx : match w_tx w, w_tx w' with None, None => True | Some ops, Some ops' => exists more, ops' = ops ++ more /\ Forall not_block more | _, _ => False end }.
#[export] Instance evolves_preorder : PreOrder evolves.
Proof.
  split; [intros w; constructor; [by intros ?|done|destruct (w_tx w); [exists []; by rewrite app_nil_r|done]]|]. intros w1 w2 w3 [S1 H1 T1] [S2 H2 T2]. constructor; [unfold start_kept in *; auto|by etrans|].
  destruct (w_tx w1), (w_tx w2), (w_tx w3); try done. destruct T1 as (m1 & -> & ?), T2 as (m2 & -> & ?). exists (m1 ++ m2). rewrite app_assoc. split; [done|by apply Forall_app].
Qed.
Lemma sent_grows d d' p : db_grows d d' -> sent_ok d p -> sent_ok d' p.
Proof.
  intros Hg. destruct p; cbn; try done; intros (r & ? & ? & ?); exists r; split_and!; try done; [by eapply deposit_row_grows|by eapply withdrawal_row_grows].
Qed.
Lemma event_grows d d' e : db_grows d d' -> event_ok d e -> event_ok d' e.
Proof.
  intros Hg. destruct e as [s|m|h|k|]; cbn; try done; [| |by apply known_grows].
  - destruct s; try done. intros [? ?]. split; [by eapply known_grows|done].
  - intros [? Hs]. split; [done|by eapply sent_grows].
Qed.
Lemma view_ok w : inv w -> db_ok (view w) /\ db_grows (w_db w) (view w).
Proof. intros [_ Hd _ Ht _]. by apply writes_keep. Qed.

(** *** Specifications: an operation keeps the invariant, however it ends *)
Definition safe {A} (K : World -> Prop) (m : M A) (Q : A -> World -> Prop) : Prop :=
  forall w, inv w -> K w -> inv (m w).1 /\ evolves w (m w).1 /\ forall a, (m w).2 = Ok a -> Q a (m w).1.
Definition stable (K : World -> Prop) : Prop := forall w w', evolves w w' -> K w -> K w'.

Lemma spec_bind {A B} K (m : M A) (k : A -> M B) Q Q' : stable K -> safe K m Q' -> (forall a, safe (fun w => K w /\ Q' a w) (k a) Q) -> safe K (st_bind m k) Q.
Proof.
  intros Hs Hm Hk w Hi Hw. destruct (Hm w Hi Hw) as (Hi1 & He1 & H1). unfold st_bind. destruct (m w) as [w1 [a| | |]]; cbn [fst snd] in *; [|done..].
  destruct (Hk a w1 Hi1) as (Hi2 & He2 & H2); [by split; [eapply Hs|apply H1]|]. split_and!; [done|by etrans|done].
Qed.
Lemma spec_seq {A B} K (m : M A) (k : M B) Q : stable K -> safe K m (fun _ _ => True) -> safe K k Q -> safe K (st_bind m (fun _ => k)) Q.
Proof. intros Hs Hm Hk. eapply spec_bind; [done..|]. intros a w Hi [Hw _]. by apply Hk. Qed.
Lemma spec_ret {A} K (a : A) (Q : A -> World -> Prop) : (forall w, inv w -> K w -> Q a w) -> safe K (st_ret a) Q.
Proof. intros HQ w Hi Hw. split_and!; [done..|]. intros ? [= <-]. by apply HQ. Qed.
Lemma spec_lift {A} K (o : outcome NodeError A) (Q : A -> World -> Prop) : (forall w a, K w -> o = Ok a -> Q a w) -> safe K (st_lift o) Q.
Proof. intros HQ w Hi Hw. split_and!; [done..|]. intros a Ha. by apply HQ. Qed.
Lemma spec_throw {A} K e (Q : A -> World -> Prop) : safe K (st_throw e) Q.
Proof. intros w Hi Hw. by split_and!. Qed.
Lemma spec_weaken {A} (K K' : World -> Prop) (m : M A) (Q Q' : A -> World -> Prop) :
  safe K' m Q' -> (forall w, K w -> K' w) -> (forall a w, Q' a w -> Q a w) -> safe K m Q.
Proof. intros Hm HK HQ w Hi Hw. destruct (Hm w Hi (HK w Hw)) as (? & ? & ?). split_and!; auto. Qed.
Lemma spec_if {A} K (b : bool) (m m' : M A) Q : (b = true -> safe K m Q) -> (b = false -> safe K m' Q) -> safe K (if b then m else m') Q.
Proof. destruct b; auto. Qed.
Lemma spec_logged {A} K (m : M A) Q : safe K m Q -> safe K (logged m) (fun o w => match o with Some a => Q a w | None => True end).
Proof.
  intros Hm w Hi Hw. destruct (Hm w Hi Hw) as (Hi1 & He1 & H1). unfold logged, st_catch, st_bind, st_ret. destruct (m w) as [w1 [a| | |]]; cbn [fst snd] in *.
  - split_and!; [done..|]. intros ? [= <-]. by apply H1.
  - split_and!; [done..|]. by intros ? [= <-].
  - by split_and!.
  - by split_and!.
Qed.

Hypothesis laws : env_laws.

Lemma tick_inv w : inv w -> inv (tick env w) /\ evolves w (tick env w).
Proof.
  intros [Hs Hd Hw Ht Hl]. pose proof (el_others laws (w_time w) (w_state w) (w_db w) Hs Hd Hw) as (Hs' & Hk & Hd' & Hw' & Hg). unfold tick.
  destruct (ne_others env (w_time w) (w_state w, w_db w)) as [s d]. cbn in *. split; constructor; cbn; try done.
  - eapply Forall_impl; [exact Ht|]. intros op. by apply write_ok_grows.
  - eapply Forall_impl; [exact Hl|]. intros e. by apply event_grows.
  - destruct (w_tx w); [exists []; by rewrite app_nil_r|done].
Qed.

(** *** The calls *)
Lemma spec_tick {A} K (r : World -> outcome NodeError A) (Q : A -> World -> Prop) : (forall w a, r w = Ok a -> Q a (tick env w)) ->
  safe K (fun w => (tick env w, r w)) Q.
Proof. intros HQ w Hi Hw. destruct (tick_inv w Hi). split_and!; [done..|]. intros a Ha. by apply HQ. Qed.
Lemma spec_call {A} K (f : nat -> outcome Z A) : safe K (call env f) (fun a _ => exists t, f t = Ok a).
Proof. apply spec_tick. intros w a Ha. exists (w_time w). by destruct (f (w_time w)); [injection Ha as ->|..]. Qed.
Lemma spec_state_read {A} K (f : SignerState -> A) : safe K (state_read env f) (fun a w => a = f (w_state w)).
Proof. intros w Hi Hw. destruct (tick_inv w Hi) as [Ht He]. split_and!; [done..|]. by intros a [= <-]. Qed.
Lemma spec_state_write K f : (forall s, state_ok s -> state_ok (f s) /\ start_kept s (f s)) ->
  safe K (state_write env f) (fun _ w => exists s, w_state w = f s).
Proof.
  intros Hf w Hi Hw. unfold state_write. destruct (tick_inv w Hi) as [[Hs] [Hk]]. destruct (Hf _ Hs). cbn [fst snd].
  split_and!; [by constructor|constructor; cbn; [unfold start_kept in *; auto|done..]|]. intros _ _. by eexists.
Qed.
Lemma spec_db_call {A} K (f : World -> World * A) (Q : A -> World -> Prop) :
  stable K -> (forall w, inv w -> K w -> inv (f w).1 /\ evolves w (f w).1 /\ Q (f w).2 (f w).1) -> safe K (db_call env f) Q.
Proof.
  intros Hs Hf w Hi Hw. destruct (tick_inv w Hi) as [Hi1 He1]. unfold db_call. destruct (Hf (tick env w)) as (Hi2 & He2 & HQ); [done|by eapply Hs|].
  destruct (ne_db_error env (w_time w)) as [code|]; [destruct (ne_db_effect env (w_time w))|]; cbn [fst snd].
  - split_and!; [done|by etrans|done].
  - by split_and!.
  - destruct (f (tick env w)) as [w' a]. cbn [fst snd] in *. split_and!; [done|by etrans|]. by intros ? [= <-].
Qed.
Lemma spec_query {A} K (f : nat -> Db -> A) : stable K -> safe K (db_query env f) (fun a w => inv w /\ exists t, a = f t (view w)).
Proof. intros Hs. apply spec_db_call; [done|]. intros w Hi Hw. split_and!; [done..|]. by exists (w_time w). Qed.

Definition wrote (op : DbWrite) (w : World) : Prop :=
  match w_tx w with None => exists d, w_db w = apply_write d op | Some ops => op ∈ ops end.
Lemma perform_ok op w : inv w -> not_block op -> write_ok (w_db w) op -> inv (perform op w) /\ evolves w (perform op w) /\ wrote op (perform op w).
Proof.
  intros [H1 H2 H5 H3 H4] Hn Hop. unfold perform, wrote.
  destruct (w_tx w) as [ops|] eqn:Ht; cbn [fst snd set_tx with_db w_tx w_db w_state w_log].
  - split_and!; [constructor; cbn in *; try done; apply Forall_app; by repeat constructor| |set_solver].
    constructor; cbn; [by intros ?|done|]. rewrite Ht. exists [op]. by repeat constructor.
  - pose proof (write_grows (w_db w) op) as Hg. rewrite Ht. split_and!; [|constructor; cbn; [by intros ?|done|by rewrite Ht]|by exists (w_db w)].
    constructor; cbn; [done|by apply write_keeps|eapply sweeps_grow; [by apply write_blocks|done..]|by rewrite Ht|]. eapply Forall_impl; [exact H4|]. intros e. by apply event_grows.
Qed.
(** A write is performed only if its foreign keys are there. *)
Lemma spec_write K op : stable K -> not_block op -> (forall w, inv w -> K w -> references (view w) op = true -> write_ok (w_db w) op) ->
  safe K (db_write env op) (fun _ w => wrote op w).
Proof.
  intros Hs Hn Hop. eapply (spec_bind _ _ _ _ (fun (valid : bool) w => valid = true -> wrote op w)); [done|apply spec_db_call; [done|]|].
  - intros w Hi Hw. destruct (references (view w) op) eqn:Hr; [|by split_and!]. cbn [fst snd].
    destruct (perform_ok op w Hi Hn (Hop w Hi Hw Hr)) as (? & ? & ?). by split_and!.
  - intros valid. apply spec_if; intros Hv; [apply spec_throw|]. apply negb_false_iff in Hv as ->. apply spec_ret. intros w _ [_ Hw]. by apply Hw.
Qed.
Lemma spec_emit K e : (forall w, K w -> event_ok (w_db w) e) -> safe K (emit_event e) (fun _ _ => True).
Proof.
  intros He w [H1 H2 H5 H3 H4] Hw. split_and!; [|constructor; cbn; [by intros ?|done|destruct (w_tx w); [exists []; by rewrite app_nil_r|done]]|done]. constructor; cbn; try done. apply Forall_app. split; [done|]. by repeat constructor; apply He.
Qed.
Lemma spec_signal K s : stable K -> (forall w, K w -> event_ok (w_db w) (NSignal s)) -> safe K (signal env s) (fun _ _ => True).
Proof. intros Hs He. apply spec_seq; [done|by apply spec_emit|]. eapply spec_weaken; [apply (spec_call K)|done|done]. Qed.
Lemma spec_db_other K e : stable K -> (forall w, K w -> event_ok (w_db w) e) -> safe K (db_other env e) (fun _ _ => True).
Proof. intros Hs He. apply spec_seq; [done|by apply spec_emit|]. apply spec_db_call; [done|]. by intros w Hi Hw. Qed.

(** *** Database transactions *)
Definition monotone (P : Db -> Prop) : Prop := forall d d', db_grows d d' -> P d -> P d'.
Definition top (w : World) : Prop := w_tx w = None.
Definition within (b : BitcoinBlock) (P : Db -> Prop) (w : World) : Prop := P (w_db w) /\ exists ops, w_tx w = Some (WBlock b :: ops) /\ Forall not_block ops.
Definition outside (P : Db -> Prop) (w : World) : Prop := P (w_db w) /\ top w.
Lemma stable_within b P : monotone P -> stable (within b P).
Proof.
  intros HP w w' [_ Hg Ht] [Hw (ops & Ho & Hn)]. split; [by eapply HP|]. rewrite Ho in Ht. destruct (w_tx w'); [|done]. destruct Ht as (more & -> & Hm).
  exists (ops ++ more). split; [done|by apply Forall_app].
Qed.
Lemma stable_outside P : monotone P -> stable (outside P).
Proof. intros HP w w' [_ Hg Ht] [Hw Ho]. split; [by eapply HP|]. unfold top in *. rewrite Ho in Ht. by destruct (w_tx w'). Qed.
Lemma stable_top : stable top.
Proof. intros w w' [_ _ Ht] Ho. unfold top in *. rewrite Ho in Ht. by destruct (w_tx w'). Qed.
Lemma evolves_top w w' : top w -> start_kept (w_state w) (w_state w') -> db_grows (w_db w) (w_db w') -> evolves w (set_tx None w').
Proof. intros Ht Hs Hg. constructor; [done..|]. unfold top in Ht. by rewrite Ht. Qed.
Lemma inv_drop w : inv w -> inv (set_tx None w).
Proof. intros [? ? ? ? ?]. by constructor. Qed.
Lemma inv_begin w b : inv w -> block_ok (w_db w) b -> inv (set_tx (Some [WBlock b]) w).
Proof. intros [? ? ? ? ?] Hb. constructor; cbn; try done. by apply Forall_singleton. Qed.
Lemma inv_commit w : inv w -> sweeps_ok (view w) -> inv (set_tx None (with_db (view w) w)).
Proof.
  intros Hi Hs. destruct (view_ok w Hi) as [Hv Hg]. destruct Hi as [? ? ? ? Hl]. constructor; cbn; try done.
  eapply Forall_impl; [exact Hl|]. intros e. by apply event_grows.
Qed.

(** What every state inside of a transaction is for the state before it. *)
Record reaches (w w' : World) : Prop := {
  re_inv : inv w';
  re_start : start_kept (w_state w) (w_state w');
  re_db : db_grows (w_db w) (w_db w') }.
Lemma reaches_trans w w' w'' : reaches w w' -> reaches w' w'' -> reaches w w''.
Proof. intros [? ? ?] [? ? ?]. constructor; [done|unfold start_kept in *; auto|by etrans]. Qed.
Lemma reaches_evolves w w' : inv w' -> evolves w w' -> reaches w w'.
Proof. intros Hi [? ? ?]. by constructor. Qed.
Lemma reaches_tx t w : inv (set_tx t w) -> reaches w (set_tx t w).
Proof. intros Hi. by constructor; [|intros ?|]. Qed.
Lemma rolled_back w w' : top w -> reaches w w' -> inv (set_tx None w') /\ evolves w (set_tx None w').
Proof. intros Ht [? ? ?]. split; [by apply inv_drop|by apply evolves_top]. Qed.

Lemma tick_tx w : w_tx (tick env w) = w_tx w.
Proof. unfold tick. by destruct (ne_others env (w_time w) (w_state w, w_db w)). Qed.
Lemma write_first_block b w r : inv w -> w_tx w = Some [] -> block_ok (w_db (tick env w)) b -> db_write env (WBlock b) w = r ->
  reaches w r.1 /\ (r.2 = Ok tt -> r.1 = set_tx (Some [WBlock b]) (tick env w)).
Proof.
  intros Hi Ht Hb Hr. destruct (tick_inv w Hi) as [Hi1 He1]. pose proof (reaches_evolves _ _ Hi1 He1) as Hr1.
  assert (reaches w (set_tx (Some [WBlock b]) (tick env w))) as Hr2 by (eapply reaches_trans; [exact Hr1|apply reaches_tx; by apply inv_begin]).
  assert (perform (WBlock b) (tick env w) = set_tx (Some [WBlock b]) (tick env w)) as Hp by (unfold perform; by rewrite tick_tx, Ht).
  revert Hr. unfold db_write, st_bind, db_call. cbn [references]. rewrite Hp.
  destruct (ne_db_error env (w_time w)); [destruct (ne_db_effect env (w_time w))|]; intros <-; by split.
Qed.
(** The commit, after which the writes are in the database, or are not. *)
Lemma commit_cases w w3 r : top w -> reaches w w3 -> sweeps_ok (view (tick env w3)) ->
  db_call env (fun w => (set_tx None (with_db (view w) w), tt)) w3 = r ->
  inv (set_tx None r.1) /\ evolves w (set_tx None r.1) /\ (r.2 = Ok tt -> r.1 = set_tx None (with_db (view (tick env w3)) (tick env w3))).
Proof.
  intros Ht Hr Hs. destruct (tick_inv w3 (re_inv _ _ Hr)) as [Hi4 He4]. assert (reaches w (tick env w3)) as Hr4 by (eapply reaches_trans; [exact Hr|by apply reaches_evolves]).
  destruct (rolled_back w _ Ht Hr4) as [Hb1 Hb2]. destruct (view_ok _ Hi4) as [_ Hg]. pose proof (inv_commit _ Hi4 Hs) as Hc.
  assert (evolves w (set_tx None (with_db (view (tick env w3)) (tick env w3)))) as Hce by (apply evolves_top; [done|apply Hr4|cbn; etrans; [apply Hr4|done]]).
  unfold db_call. destruct (ne_db_error env (w_time w3)); [destruct (ne_db_effect env (w_time w3))|]; intros <-; by split_and!.
Qed.

(** A transaction that begins with a block: if it succeeds, the block and
    what the rest wrote are in the database. *)
Lemma spec_transaction {A} P b (rest : M A) Q : monotone P -> (forall d, P d -> block_ok d b) -> (forall a, stable (Q a)) ->
  (forall a w, inv w -> within b P w -> Q a w -> sweeps_ok (view w)) -> safe (within b P) rest Q ->
  safe (outside P) (transaction env (db_write env (WBlock b);;; rest)) (fun a w => exists w1, inv w1 /\ within b P w1 /\ w_db w = view w1).
Proof.
  intros HP Hbk HQ Hsw Hb w Hi [Hw Ht]. destruct (tick_inv w Hi) as [Hi1 He1]. pose proof (reaches_evolves _ _ Hi1 He1) as Hr1.
  enough (forall r, transaction env (db_write env (WBlock b);;; rest) w = r -> inv r.1 /\ evolves w r.1 /\ forall a, r.2 = Ok a ->
    exists w1, inv w1 /\ within b P w1 /\ w_db r.1 = view w1) by auto.
  intros r Hr. unfold transaction, db_call at 1 in Hr. destruct (ne_db_error env (w_time w)).
  { destruct (rolled_back w _ Ht Hr1). destruct (ne_db_effect env (w_time w)); subst r; by split_and!. }
  set (w0 := set_tx (Some []) (tick env w)) in Hr. assert (reaches w w0) as Hr0.
  { eapply reaches_trans; [exact Hr1|]. apply reaches_tx. destruct Hi1. by constructor. }
  unfold st_bind at 1 2 in Hr. destruct (tick_inv w0 (re_inv _ _ Hr0)) as [Hi2 He2].
  assert (P (w_db (tick env w0))) as HP2 by (eapply HP; [etrans; [apply Hr0|apply He2]|done]).
  destruct (write_first_block b w0 _ (re_inv _ _ Hr0) eq_refl (Hbk _ HP2) eq_refl) as [Hr2 Hok].
  destruct (db_write env (WBlock b) w0) as [w2 r2]. cbn [fst snd] in *. pose proof (reaches_trans _ _ _ Hr0 Hr2) as Hr2'.
  destruct (rolled_back w _ Ht Hr2') as [Hd1 Hd2]. destruct r2 as [[]| | |]; [|subst r; by split_and!..]. specialize (Hok eq_refl).
  assert (within b P w2) as Hw2 by (rewrite Hok; split; [done|by exists []]).
  destruct (Hb w2 (re_inv _ _ Hr2') Hw2) as (Hi3 & He3 & H3). assert (within b P (rest w2).1) as Hw3 by (by eapply stable_within).
  destruct (rest w2) as [w3 r3]. cbn [fst snd] in *. assert (reaches w w3) as Hr3 by (eapply reaches_trans; [exact Hr2'|by apply reaches_evolves]).
  destruct (rolled_back w _ Ht Hr3) as [Hb1 Hb2]. destruct r3 as [a| | |]; [|subst r; by split_and!..]. destruct (tick_inv w3 Hi3) as [Hi4 He4].
  assert (within b P (tick env w3)) as Hw4 by (by eapply stable_within).
  assert (sweeps_ok (view (tick env w3))) as Hs by (eapply (Hsw a); [done..|]; eapply HQ; [exact He4|by apply H3]).
  destruct (commit_cases w w3 _ Ht Hr3 Hs eq_refl) as (Hc1 & Hc2 & Hc3). unfold st_bind in Hr. destruct (db_call env _ w3) as [w5 [[]| | |]]; subst r; cbn [fst snd] in *.
  - rewrite (Hc3 eq_refl) in *. split_and!; [done..|]. intros a' _. by exists (tick env w3).
  - by split_and!.
  - by split_and!.
  - by split_and!.
Qed.

Lemma spec_keep {A} K (m : M A) Q : stable K -> safe K m Q -> safe K m (fun a w => K w /\ Q a w).
Proof. intros Hs Hm w Hi Hw. destruct (Hm w Hi Hw) as (? & He & ?). split_and!; [done..|]. intros a Ha. split; [by eapply Hs|auto]. Qed.
Lemma spec_drop {A} K F (m : M A) Q : safe K m Q -> safe (fun w => K w /\ F w) m Q.
Proof. intros Hm w Hi [Hw _]. by apply Hm. Qed.
Lemma spec_true {A} K (m : M A) Q : safe K m Q -> safe K m (fun _ _ => True).
Proof. intros Hm. by eapply spec_weaken. Qed.
Lemma spec_ok_or {A} K (o : option A) e : safe K (st_ok_or o e) (fun a _ => o = Some a).
Proof. apply spec_lift. intros w a _. destruct o; [by intros [= ->]|done]. Qed.
(** A step whose result only matters through a fact that does not depend on
    the world. *)
Lemma spec_step {A B} K (m : M A) (k : A -> M B) Q (F : A -> Prop) :
  stable K -> safe K m (fun a _ => F a) -> (forall a, F a -> safe K (k a) Q) -> safe K (st_bind m k) Q.
Proof. intros Hs Hm Hk. eapply spec_bind; [done..|]. intros a w Hi [Hw Ha]. by apply Hk. Qed.
Lemma spec_for_each {A} K (f : A -> M unit) l : stable K -> (forall a, a ∈ l -> safe K (f a) (fun _ _ => True)) -> safe K (for_each f l) (fun _ _ => True).
Proof.
  intros Hs. induction l as [|a l IH]; intros Hf; [by apply spec_ret|]. apply spec_seq; [done|apply Hf; set_solver|]. apply IH. set_solver.
Qed.

(** ** Blocks *)
Definition started (w : World) : Prop := st_is_sbtc_bitcoin_start_height_set (w_state w) = true.
Lemma stable_started : stable started.
Proof. intros w w' [Hs _ _]. apply Hs. Qed.
Lemma spec_set_start_height K : stable K -> safe K (set_start_height env) (fun _ w => started w).
Proof.
  intros Hs. eapply spec_bind; [done|apply spec_state_read|]. intros b. apply spec_if; intros ->.
  - apply spec_ret. intros w _ [_ Hb]. unfold started. by rewrite <- Hb.
  - apply spec_drop. eapply spec_step; [done|apply spec_call|]. intros s [t Ht%(el_start laws)].
    eapply spec_weaken; [apply (spec_state_write K)|done|].
    + intros [] _. split; [intros _; exact Ht|by intros _].
    + intros _ w [[] Hw]. unfold started. by rewrite Hw.
Qed.

(** The headers from the first missing block to [target]. *)
Fixpoint consecutive (h : BlockHash) (headers : list BitcoinBlockHeader) : Prop :=
  match headers with [] => True | hd :: headers => parent (bh_hash hd) = h /\ consecutive (bh_hash hd) headers end.
Definition linked (target : BlockHash) (headers : list BitcoinBlockHeader) (d : Db) : Prop :=
  match headers with
  | [] => rooted target d
  | hd :: rest =>
      (height (bh_hash hd) <= start \/ known (parent (bh_hash hd)) d) /\ consecutive (bh_hash hd) rest /\
      bh_hash <$> last headers = Some target
  end.
Lemma linked_monotone target headers : monotone (linked target headers).
Proof.
  intros d d' Hg. destruct headers as [|hd rest]; cbn; [by apply rooted_grows|]. intros ([|] & ? & ?); split_and!; try done; [by left|].
  right. by eapply known_grows.
Qed.

Lemma spec_fetch_headers target fuel : forall h headers,
  match headers with
  | [] => h = target
  | hd :: rest => parent (bh_hash hd) = h /\ start < height (bh_hash hd) /\ consecutive (bh_hash hd) rest /\ bh_hash <$> last headers = Some target
  end -> safe top (fetch_headers env fuel start h headers) (fun hs w => linked target hs (w_db w)).
Proof.
  induction fuel as [|fuel IH]; intros h headers Hh; cbn [fetch_headers]; [by apply spec_lift|].
  eapply spec_bind; [apply stable_top|apply spec_query, stable_top|]. intros b. apply spec_if; intros ->.
  { apply spec_ret. intros w _ (Ht & _ & t & Hk). unfold view in Hk. rewrite Ht in Hk. cbn in Hk. unfold is_known in Hk.
    assert (known h (w_db w)) as Hkn by (unfold known; destruct (db_blocks (w_db w) !! h); done).
    destruct headers as [|hd rest]; [subst h; by right|]. destruct Hh as (<- & _ & ? & ?). split_and!; [by right|done..]. }
  apply spec_drop. eapply spec_step; [apply stable_top|apply spec_call|].
  intros found [t Hf]. eapply spec_step; [apply stable_top|apply spec_ok_or|]. intros hd ->. destruct (el_header laws _ _ _ Hf) as (Hhash & Hhd & Hprev).
  rewrite Hhd. apply spec_if; intros Hlt.
  { apply spec_ret. intros w _ Ht. destruct headers as [|c rest]; [subst h; left; lia|]. exfalso. destruct Hh as (<- & Hc & _).
    pose proof (el_height laws _ Hc). lia. }
  assert (height (bh_hash hd) = height h) as Heq by (by rewrite Hhash).
  assert (consecutive (bh_hash hd) headers /\ bh_hash <$> last (hd :: headers) = Some target) as [Hc Hl].
  { destruct headers as [|c rest]; [split; [done|cbn; by rewrite Hhash, Hh]|]. destruct Hh as (<- & _ & ? & Hl). cbn [consecutive]. split_and!; [by rewrite Hhash|done|exact Hl]. }
  cbv zeta. apply spec_if; intros Hat.
  - apply spec_ret. intros w _ Ht. cbn [linked]. split_and!; [left; lia|done..].
  - rewrite Hprev, <- Hhash. apply IH. split_and!; [done|lia|done..].
Qed.

Variable fuel : nat.
Lemma spec_next_headers target : safe top (next_headers_to_process env fuel target) (fun hs w => linked target hs (w_db w)).
Proof.
  eapply spec_bind; [apply stable_top|apply spec_set_start_height, stable_top|]. intros u.
  intros w Hi [Ht Hst]. destruct (spec_state_read top st_sbtc_bitcoin_start_height w Hi Ht) as (Hi1 & He1 & _).
  unfold st_bind, state_read in *. cbn [fst snd] in *.
  assert (st_sbtc_bitcoin_start_height (w_state (tick env w)) = start) as -> by (apply Hi1, (ev_start _ _ He1), Hst).
  destruct (spec_fetch_headers target fuel target [] eq_refl (tick env w) Hi1) as (Hi2 & He2 & H2); [by eapply stable_top|].
  split_and!; [done|by etrans|done].
Qed.

(** The extraction writes no block and no request. *)
Lemma spec_write_other K op : stable K -> not_block op -> (forall d, write_ok d op) -> safe K (db_write env op) (fun _ _ => True).
Proof. intros Hs Hn Hop. eapply spec_true, spec_write; auto. Qed.
Lemma relevant_more s s' info : s ⊆ s' -> relevant s info -> relevant s' info.
Proof.
  intros Hs [Hc Hr]. split; [done|]. destruct Hr as [Hr|Hr]; [left|right]; apply existsb_exists in Hr as (x & Hx & Hin%bool_decide_eq_true);
    apply existsb_exists; exists x; (split; [done|apply bool_decide_eq_true; set_solver]).
Qed.
Lemma spec_extract_txs K hash scripts txs : stable K -> forall acc,
  safe K (extract_txs env hash scripts txs acc) (fun refs _ => acc ⊆ refs /\ forall info, info ∈ txs -> relevant scripts info ->
    mkBitcoinTxRef (compute_txid (ti_tx info)) hash ∈ refs).
Proof.
  intros Hs. induction txs as [|i txs IH]; intros acc; cbn [extract_txs]; [apply spec_ret; intros _ _ _; split; [done|set_solver]|].
  assert (~ relevant scripts i -> safe K (extract_txs env hash scripts txs acc) (fun refs _ => acc ⊆ refs /\ forall info, info ∈ i :: txs ->
    relevant scripts info -> mkBitcoinTxRef (compute_txid (ti_tx info)) hash ∈ refs)) as Hskip.
  { intros Hn. eapply spec_weaken; [apply IH|done|]. intros refs _ [? Hall]. split; [done|]. intros info [->|]%elem_of_cons ?; [done|auto]. }
  apply spec_if; intros Hc; [apply Hskip; intros [? _]; congruence|]. apply spec_seq; [done|by apply spec_lift|].
  apply spec_if; intros Hn; [apply andb_prop in Hn as [H1%negb_true_iff H2%negb_true_iff]; apply Hskip; intros [_ [?|?]]; congruence|]. cbv zeta.
  apply spec_seq; [done|apply spec_for_each; [done|]; intros; by apply spec_write_other|].
  eapply spec_step; [done|apply (spec_lift _ _ (fun _ _ => True)); done|]. intros outputs _.
  apply spec_seq; [done|apply spec_for_each; [done|]; intros; by apply spec_write_other|].
  apply spec_seq; [done|apply spec_for_each; [done|]; intros; by apply spec_write_other|].
  eapply spec_weaken; [apply IH|done|]. intros refs _ [Hacc Hall]. split; [set_solver|]. intros info [->|]%elem_of_cons Hr; [set_solver|auto].
Qed.

Definition pending (op : DbWrite) (w : World) : Prop := exists ops, w_tx w = Some ops /\ op ∈ ops.
Definition pending_refs (h : BlockHash) (w : World) : Prop := exists refs, pending (WTransactions refs) w /\ recorded h refs.
Lemma stable_refs h : stable (pending_refs h).
Proof.
  intros w w' [_ _ Ht] (refs & (ops & Ho & Hin) & Hr). exists refs. split; [|done]. rewrite Ho in Ht. destruct (w_tx w') as [ops'|] eqn:Hw; [|done]. exists ops'.
  split; [done|]. destruct Ht as (more & -> & _). set_solver.
Qed.
Lemma spec_extract_pass b P hash : monotone P -> safe (within b P) (extract_pass cfg env hash (txs_of hash)) (fun _ w => pending_refs hash w).
Proof.
  intros HP. pose proof (stable_within b P HP) as Hs.
  eapply (spec_step _ _ _ _ (fun l => own ⊆ (list_to_set l : gset Script))); [done|eapply spec_weaken; [by apply spec_query|done|]|].
  { intros l w [_ [t ->]]. apply (el_scripts laws). }
  intros l Hl. cbv zeta. eapply spec_step; [done|by apply spec_extract_txs|]. intros refs [_ Hall].
  eapply spec_weaken; [apply spec_keep; [exact Hs|by apply spec_write]|done|]. intros _ w [[_ (ops & Ho & _)] Hw]. unfold wrote in Hw. rewrite Ho in Hw.
  exists refs. split; [by eexists|]. intros info Hin Hr. apply Hall; [done|]. eapply relevant_more; [|exact Hr]. set_solver.
Qed.
Lemma spec_extract b P hash : monotone P -> safe (within b P) (extract_sbtc_transactions cfg env hash (txs_of hash)) (fun _ w => pending_refs hash w).
Proof. intros HP. apply spec_seq; [by apply stable_within|by eapply spec_true, spec_extract_pass|by apply spec_extract_pass]. Qed.

(** What a transaction that begins with a block leaves. *)
Lemma block_known d b : known (bb_block_hash b) (apply_write d (WBlock b)).
Proof.
  destruct d as [a ? ? ? ? ? ? ?]. unfold known. cbn. destruct (a !! bb_block_hash b) as [x|] eqn:Ha; [by exists x|]. rewrite lookup_insert_eq. by eexists.
Qed.
Lemma block_known_inv d b h : known h (apply_write d (WBlock b)) -> known h d \/ h = bb_block_hash b.
Proof.
  destruct d as [a ? ? ? ? ? ? ?]. unfold known. cbn. destruct (a !! bb_block_hash b) as [x|] eqn:Ha; [by left|].
  intros [y [[? ?]|[? ?]]%lookup_insert_Some]; [by right|left; by exists y].
Qed.
Lemma writes_grow ops : forall d, db_grows d (foldl apply_write d ops).
Proof. induction ops as [|op ops IH]; intros d; [done|]. cbn [foldl]. etrans; [apply write_grows|apply IH]. Qed.
Lemma writes_refs refs ops : WTransactions refs ∈ ops -> forall d r, r ∈ refs -> r ∈ db_transactions (foldl apply_write d ops).
Proof.
  intros (pre & post & ->)%list_elem_of_split d r Hr. rewrite foldl_app. cbn [foldl]. apply (gr_transactions _ _ (writes_grow post _)).
  destruct (foldl apply_write d pre) as [? txs ? ? ? ? ? ?]. cbn. apply insert_rows_new; [by intros ??|done].
Qed.
Lemma view_block w b ops : w_tx w = Some (WBlock b :: ops) -> view w = foldl apply_write (apply_write (w_db w) (WBlock b)) ops.
Proof. unfold view. by intros ->. Qed.
Lemma within_known b P w : within b P w -> known (bb_block_hash b) (view w).
Proof. intros [_ (ops & Ho & _)]. rewrite (view_block _ _ _ Ho). apply (known_grows _ (apply_write (w_db w) (WBlock b))); [apply writes_grow|apply block_known]. Qed.
Lemma within_sweeps b P w : inv w -> within b P w -> pending_refs (bb_block_hash b) w -> sweeps_ok (view w).
Proof.
  intros Hi [_ (ops & Ho & Hn)] (refs & (ops' & Ho' & Hin) & Hr) h Hk. rewrite Ho in Ho'. injection Ho' as <-. apply elem_of_cons in Hin as [?|Hin]; [done|].
  rewrite (view_block _ _ _ Ho) in *. unfold known in Hk. rewrite writes_blocks in Hk by done. intros info Hinfo Hrel.
  apply block_known_inv in Hk as [Hk| ->]; [|by eapply writes_refs; [|apply Hr]].
  apply (gr_transactions _ _ (writes_grow ops _)), (gr_transactions _ _ (write_grows _ _)). by apply (inv_sweeps _ Hi).
Qed.

Definition parent_known (h : BlockHash) (d : Db) : Prop := height h <= start \/ known (parent h) d.
Lemma parent_known_monotone h : monotone (parent_known h).
Proof. intros d d' Hg [|]; [by left|right; by eapply known_grows]. Qed.

Lemma spec_process_block hd : safe (outside (parent_known (bh_hash hd))) (process_bitcoin_block cfg env hd) (fun _ w => known (bh_hash hd) (w_db w)).
Proof.
  pose proof (parent_known_monotone (bh_hash hd)) as HP. pose proof (stable_outside _ HP) as Hs.
  eapply spec_step; [done|apply spec_call|]. intros found [t Hf]. eapply spec_step; [done|apply spec_ok_or|]. intros block ->.
  destruct (el_block laws _ _ _ Hf) as (Hh & Hhe & Hpa & ->). set (b := block_from_info block). assert (bb_block_hash b = bh_hash hd) as Hb by done.
  eapply spec_weaken; [apply (spec_transaction (parent_known (bh_hash hd)) b _ (fun _ => pending_refs (bh_hash hd)))|done|].
  - done.
  - intros d Hd. constructor; cbn; rewrite ?Hh; [done|done|exact Hd].
  - intros _. apply stable_refs.
  - intros _ w Hi Hw Hr. rewrite <- Hb in Hr. by eapply within_sweeps.
  - by apply spec_extract.
  - intros u w (w1 & _ & Hw & ->). rewrite <- Hb. by eapply within_known.
Qed.

Lemma spec_process_blocks target headers : safe (outside (linked target headers)) (for_each (process_bitcoin_block cfg env) headers) (fun _ w => rooted target (w_db w)).
Proof.
  induction headers as [|hd rest IH]; [apply spec_ret; by intros w _ [? _]|]. cbn [for_each].
  eapply spec_bind; [apply stable_outside, linked_monotone|eapply spec_weaken; [apply spec_process_block| |intros a w H; exact H]|].
  - intros w [[? _] ?]. by split.
  - intros u. eapply spec_weaken; [exact IH| |done]. intros w [[(_ & Hc & Hl) Ht] Hk]. split; [|done].
    destruct rest as [|c rest]; cbn in Hl |- *; [injection Hl as <-; by right|]. destruct Hc as [Hp Hc]. split_and!; [by rewrite Hp; right|done..].
Qed.

Lemma spec_blocks_until h : safe top (process_bitcoin_blocks_until cfg env fuel h) (fun _ w => rooted h (w_db w)).
Proof.
  eapply spec_bind; [apply stable_top|apply spec_next_headers|]. intros hs. eapply spec_weaken; [apply (spec_process_blocks h)| |done].
  by intros w [? ?].
Qed.

Lemma view_top w : top w -> view w = w_db w.
Proof. unfold view, top. by intros ->. Qed.
Lemma spec_chain_tip h : safe top (process_bitcoin_chain_tip cfg env fuel h) (fun _ _ => True).
Proof.
  apply spec_seq; [apply stable_top|eapply spec_true, spec_blocks_until|]. eapply spec_bind; [apply stable_top|apply spec_query, stable_top|].
  intros b. apply spec_if; intros Hb; [apply spec_throw|]. destruct b; [|done].
  eapply spec_weaken; [apply (spec_db_other (outside (known h)))| |done].
  - apply stable_outside. intros d d'. apply known_grows.
  - by intros w [? _].
  - intros w (Ht & _ & t & Hk). rewrite view_top in Hk by done. split; [|done]. unfold is_known in Hk. unfold known. by destruct (db_blocks (w_db w) !! h).
Qed.

(** ** Deposit requests *)
Definition confirmed (p : FullDeposit) : Prop :=
  exists request summary t t',
    ne_utxo_info env t (cd_outpoint request) = Ok (Some summary) /\ os_is_coinbase summary = false /\
    ne_tx_info env t' (op_txid (cd_outpoint request)) (os_block_hash summary) = Ok (Some (dp_tx_info p)) /\
    tx_info_validate (dp_tx_info p) = Ok tt /\ validate_tx request (ti_tx (dp_tx_info p)) (nc_is_mainnet cfg) = Ok (dp_info p) /\
    dp_block_hash p = os_block_hash summary.
Lemma spec_validate K r : stable K -> safe K (validate cfg env r) (fun o _ => match o with Some p => confirmed p | None => True end).
Proof.
  intros Hs. eapply spec_step; [done|apply spec_call|]. intros [summary|] [t Hu]; [|by apply spec_ret]. apply spec_if; intros Hc; [apply spec_throw|].
  cbv zeta. eapply spec_step; [done|apply spec_call|]. intros [info|] [t' Hi]; [|by apply spec_ret].
  eapply spec_step; [done|apply (spec_lift _ _ (fun a _ => tx_info_validate info = Ok a)); by intros|]. intros [] Hv.
  eapply spec_step; [done|apply (spec_lift _ _ (fun a _ => validate_tx r (ti_tx info) (nc_is_mainnet cfg) = Ok a))|].
  { intros w a _. by destruct (validate_tx r (ti_tx info) (nc_is_mainnet cfg)) as [x| | |]; [intros [= ->]|..]. }
  intros dinfo Hd. apply spec_ret. intros w _ _. by exists r, summary, t, t'.
Qed.
Definition loaded (rows : list ModelDepositRequest) (d : Db) : Prop := Forall (deposit_ok d) rows.
Lemma loaded_monotone rows : monotone (loaded rows).
Proof. intros d d' Hg Hr. eapply Forall_impl; [exact Hr|]. intros r. by apply deposit_grows. Qed.
Lemma spec_load_each requests : forall rows refs,
  safe (outside (loaded rows)) (load_each cfg env fuel requests rows refs) (fun r w => loaded r.1 (w_db w)).
Proof.
  induction requests as [|request requests IH]; intros rows refs; cbn [load_each]; [apply spec_ret; by intros w _ [? _]|].
  pose proof (stable_outside _ (loaded_monotone rows)) as Hs.
  eapply spec_step; [done|eapply spec_weaken; [apply spec_logged, spec_validate, Hs|done|intros a w H; exact H]|].
  intros [[p|]|] Hp; [|apply IH..]. cbn in Hp. eapply spec_bind; [done|eapply spec_weaken; [apply spec_blocks_until|by intros w [_ ?]|intros a w H; exact H]|].
  intros u. cbv zeta. eapply spec_weaken; [apply IH| |done]. intros w [[Hl Ht] Hr]. split; [|done]. apply Forall_app. split; [done|]. repeat constructor.
  destruct p as [info dinfo hash]. destruct Hp as (q & s & t & t' & ? & ? & ? & ? & ? & He). cbn in *. subst hash. by exists q, s, info, dinfo, t, t'.
Qed.
Lemma spec_load_requests requests : safe top (load_requests cfg env fuel requests) (fun _ _ => True).
Proof.
  eapply spec_bind; [apply stable_top|eapply spec_weaken; [apply (spec_load_each requests [] [])| |intros a w H; exact H]|].
  { intros w Ht. split; [constructor|done]. }
  intros [rows refs]. cbn [fst snd]. eapply (spec_weaken _ (outside (loaded rows))); [|by intros w [? ?]; split|intros a w H; exact H].
  pose proof (stable_outside _ (loaded_monotone rows)) as Hs. apply spec_seq; [done|by apply spec_write_other|].
  eapply spec_true, spec_write; [done..|]. by intros w _ [? _].
Qed.

(** ** The cached state *)
Lemma spec_state_update K f : (forall s, st_is_sbtc_bitcoin_start_height_set (f s) = st_is_sbtc_bitcoin_start_height_set s /\
  st_sbtc_bitcoin_start_height (f s) = st_sbtc_bitcoin_start_height s) -> safe K (state_write env f) (fun _ _ => True).
Proof.
  intros Hf. eapply spec_true, spec_state_write. intros s Hs. destruct (Hf s) as [H1 H2]. unfold state_ok, start_kept in *. by rewrite H1, H2.
Qed.
Ltac quick := first [eapply spec_true, spec_call|eapply spec_true, spec_state_read|eapply spec_true, spec_query; assumption|
  apply spec_state_update; by intros []|eapply spec_true, spec_ok_or].
Lemma spec_limits K h : stable K -> safe K (update_sbtc_limits cfg env h) (fun _ _ => True).
Proof.
  intros Hs. unfold update_sbtc_limits. eapply spec_step; [done|quick|]. intros limits _. eapply spec_step; [done|quick|]. intros deployed _.
  eapply spec_step; [done| |].
  { apply (spec_if _ _ _ _ (fun _ _ => True)); intros _; [|by apply spec_ret]. eapply spec_step; [done|quick|]. intros. by apply spec_ret. }
  intros mintable _. cbv zeta. eapply spec_step; [done|quick|]. intros total _. eapply spec_step; [done|quick|]. intros current _.
  apply spec_if; intros _; [by apply spec_ret|quick].
Qed.
Lemma spec_contracts_deployed K cs : stable K -> safe K (contracts_deployed cfg env cs) (fun _ _ => True).
Proof.
  intros Hs. induction cs as [|c cs IH]; [by apply spec_ret|]. eapply spec_step; [done|by apply (spec_tick _ _ (fun _ _ => True))|].
  intros b _. apply spec_if; intros _; [by apply spec_ret|done].
Qed.
Lemma spec_signer_set_info K : stable K -> safe K (set_signer_set_info cfg env) (fun _ _ => True).
Proof.
  intros Hs. unfold set_signer_set_info, get_signer_set_info, are_sbtc_contracts_deployed. eapply spec_step; [done| |].
  - eapply spec_step; [done| |intros b _; apply (spec_if _ _ _ _ (fun _ _ => True)); intros _; [by apply spec_ret|quick]].
    eapply spec_step; [done|quick|]. intros b _. apply (spec_if _ _ _ _ (fun _ _ => True)); intros _; [by apply spec_ret|].
    eapply spec_step; [done|by apply spec_contracts_deployed|]. intros b' _. apply spec_if; intros _; [by apply spec_ret|].
    apply spec_seq; [done|quick|by apply spec_ret].
  - intros [info|] _; [quick|by apply spec_ret].
Qed.
Definition tip_known (tip : BitcoinBlockRef) (d : Db) : Prop := event_ok d (NSignal (SignalBitcoinBlockObserved tip)).
Lemma tip_known_monotone tip : monotone (tip_known tip).
Proof. intros d d' Hg. by apply event_grows. Qed.
Lemma spec_update_state h : safe top (update_signer_state cfg env h) (fun tip w => tip_known tip (w_db w)).
Proof.
  pose proof stable_top as Hs. apply spec_seq; [done|by apply spec_limits|]. apply spec_seq; [done|by apply spec_signer_set_info|].
  apply spec_seq; [done| |].
  { eapply spec_step; [done|quick|]. intros found _. eapply spec_step; [done|quick|]. intros tip _. quick. }
  pose (P := fun (found : option BitcoinBlock) d => match found with Some b => tip_known (block_ref_from b) d | None => True end).
  eapply (spec_bind _ _ _ _ (fun found w => P found (w_db w))); [done|eapply spec_weaken; [apply spec_keep, spec_query; done|done|]|].
  { intros found w (Ht & Hi & t & ->). rewrite view_top by done. unfold P. destruct (db_blocks (w_db w) !! h) as [b|] eqn:Hb; [|done].
    destruct (ok_blocks _ (inv_db _ Hi) h b Hb) as [Hh [Hhe _ _]]. split; cbn; [|done]. rewrite Hh. by exists b. }
  intros found. eapply (spec_weaken _ (outside (P found))); [|by intros w [? ?]; split|intros a w H; exact H].
  assert (monotone (P found)) as HP by (destruct found; [apply tip_known_monotone|by intros ??]). pose proof (stable_outside _ HP) as HPs.
  eapply spec_step; [done|apply spec_ok_or|]. intros b ->. cbv zeta. apply spec_seq; [done|quick|]. apply spec_ret. by intros w _ [? _].
Qed.

Lemma spec_check_shares K h : stable K -> safe K (check_pending_dkg_shares cfg env h) (fun _ _ => True).
Proof.
  intros Hs. eapply spec_step; [done|quick|]. intros [shares|] _; [|by apply spec_ret]. destruct (dr_status shares); [|by apply spec_ret..].
  eapply spec_step; [done|quick|]. intros found _. eapply spec_step; [done|quick|]. intros b _. cbv zeta.
  apply spec_if; intros _; [by apply spec_db_other|by apply spec_ret].
Qed.
Lemma spec_stacks_blocks K : stable K -> safe K (process_stacks_blocks env) (fun _ _ => True).
Proof. intros Hs. eapply spec_step; [done|quick|]. intros h _. quick. Qed.

(** ** The observer *)
Lemma spec_observe_block h : safe top (observe_block cfg env fuel h) (fun _ _ => True).
Proof.
  pose proof stable_top as Hs. apply spec_seq; [done|eapply spec_true, spec_logged, spec_chain_tip|].
  apply spec_seq; [done|eapply spec_true, spec_logged, spec_stacks_blocks, Hs|].
  eapply spec_step; [done|eapply spec_true, spec_logged, spec_check_shares, Hs|]. intros [u|] _; [|by apply spec_ret].
  eapply spec_bind; [done|apply spec_logged, spec_update_state|]. intros [tip|]; [|by apply spec_ret].
  eapply (spec_weaken _ (outside (tip_known tip))); [|by intros w [? ?]; split|intros a w H; exact H].
  pose proof (stable_outside _ (tip_known_monotone tip)) as Ho. apply spec_seq; [done| |].
  - eapply spec_true, spec_logged. eapply (spec_weaken _ top); [|by intros w [_ ?]|intros a w H; exact H].
    eapply spec_step; [done|quick|]. intros requests _. apply spec_load_requests.
  - apply spec_signal; [done|]. by intros w [? _].
Qed.
Lemma spec_observer polls : safe top (observer_run cfg env fuel polls) (fun _ _ => True).
Proof.
  pose proof stable_top as Hs. induction polls as [|poll polls IH]; [by apply spec_ret|]. eapply spec_step; [done|quick|]. intros shutdown _.
  apply spec_if; intros _; [by apply spec_ret|]. destruct poll; [|done..]. apply spec_seq; [done|apply spec_observe_block|done].
Qed.

(** ** The decider *)
Lemma spec_send K p tip : stable K -> (forall w, K w -> sent_ok (w_db w) p) -> safe K (rd_send_message cfg env p tip) (fun _ _ => True).
Proof. intros Hs Hp. apply spec_seq; [done|apply spec_emit; intros w Hw; split; [done|by apply Hp]|quick]. Qed.

Lemma spec_lookup_all K addresses : stable K ->
  safe K (lookup_all env addresses) (fun rs _ => Forall2 (fun a r => exists t, r = ne_can_accept env t a) addresses rs).
Proof.
  intros Hs. induction addresses as [|a addresses IH]; [apply spec_ret; by intros|]. cbn [lookup_all].
  eapply spec_step; [done|apply (spec_tick _ _ (fun r _ => exists t, r = ne_can_accept env t a))|].
  { intros w r [= <-]. by eexists. }
  intros r Hr. eapply spec_step; [done|exact IH|]. intros rs Hrs. apply spec_ret. intros _ _ _. by constructor.
Qed.
Lemma spec_accept_deposit K r : stable K ->
  safe K (can_accept_deposit_request cfg env r) (fun b _ => b = true -> Forall unblocked (md_sender_script_pub_keys r)).
Proof.
  intros Hs. apply spec_if; intros Hn.
  { apply spec_ret. intros _ _ _ _. apply Forall_forall. intros s _. unfold unblocked. destruct (nc_blocklist_checker cfg); done. }
  set (parse := fun script => ok_or (address_from_script script) (NeDepositBitcoinAddressFromScript (md_outpoint r))).
  eapply spec_step; [done|by apply (spec_lift _ _ (fun a _ => collect parse (md_sender_script_pub_keys r) = Ok a))|]. intros addresses Ha%collect_inv.
  eapply spec_step; [done|by apply spec_lookup_all|]. intros rs Hrs.
  eapply spec_step; [done|apply (spec_lift _ _ (fun bs _ => collect id rs = Ok bs))|].
  { intros w bs _. by destruct (collect id rs) as [x| | |]; [intros [= ->]|..]. }
  intros bs Hbs%collect_inv. apply spec_ret. intros _ _ _ Hall. clear Hn Hs. revert rs bs Hrs Hbs Hall.
  induction Ha as [|s a scripts addresses Hsa Ha IH]; intros rs bs Hrs Hbs Hall; [done|].
  inversion Hrs as [|? o ? rs' [t ->] Hrs']; subst. inversion Hbs as [|? b ? bs' Hb Hbs']; subst. cbn in Hall. apply andb_prop in Hall as [Hb1 Hall].
  constructor; [|by eapply IH]. intros _. exists a, t. unfold parse in Hsa. destruct (address_from_script s); cbn in Hsa, Hb, Hb1; [|done].
  injection Hsa as ->. split; [done|]. by rewrite Hb, Hb1.
Qed.
Lemma spec_accept_withdrawal K r : stable K -> safe K (can_accept_withdrawal_request cfg env r) (fun b _ => b = true -> unblocked (mw_recipient r)).
Proof.
  intros Hs. apply spec_if; intros Hn; [apply spec_ret; intros _ _ _ _; unfold unblocked; by destruct (nc_blocklist_checker cfg)|].
  eapply spec_step; [done|apply spec_ok_or|]. intros a Ha. eapply spec_weaken; [apply (spec_call K)|done|]. intros b w [t Ht] ->. by exists a, t.
Qed.

Definition stored (r : ModelDepositRequest) (d : Db) : Prop := r ∈ db_deposits d.
Lemma stored_monotone r : monotone (stored r).
Proof. intros d d' Hg. apply (gr_deposits _ _ Hg). Qed.
Definition withdrawal_stored (r : ModelWithdrawalRequest) (d : Db) : Prop := r ∈ db_withdrawals d.
Lemma withdrawal_stored_monotone r : monotone (withdrawal_stored r).
Proof. intros d d' Hg. apply (gr_withdrawals _ _ Hg). Qed.
Lemma spec_pending_deposit r tip : safe (outside (stored r)) (handle_pending_deposit_request cfg env r tip) (fun _ _ => True).
Proof.
  pose proof (stable_outside _ (stored_monotone r)) as Hs. unfold handle_pending_deposit_request. cbv zeta.
  eapply (spec_step _ _ _ _ (fun b => b = true -> exists t d, ne_can_sign env t d (md_txid r) (md_output_index r) (nc_public_key cfg) = Some true));
    [done|eapply spec_weaken; [by apply spec_query|done|]|].
  { intros b w [_ [t ->]] Hb. exists t, (view w). by destruct (ne_can_sign env t (view w) _ _ _) as [[]|]. }
  intros can_sign Hsign. eapply spec_step; [done|by apply spec_accept_deposit|]. intros can_accept Hacc.
  set (row := mkDepositSigner (md_txid r) (md_output_index r) (nc_public_key cfg) can_accept can_sign).
  assert (forall w, outside (stored r) w -> deposit_row_ok (w_db w) row) as Hv.
  { intros w [Hr _]. assert (requested (w_db w) row r) as Hq by (split; [exact Hr|by destruct r]). split; [left; split; [done|]|]; by exists r. }
  apply spec_seq; [done|eapply spec_true, spec_write; [done..|]; intros w _ Hw _; by apply Hv|].
  apply spec_seq; [done|apply spec_send; [done|]; intros w Hw; exists row; by split_and!; [..|apply Hv]|by apply spec_signal].
Qed.
Lemma spec_pending_withdrawal r tip : safe (outside (withdrawal_stored r)) (handle_pending_withdrawal_request cfg env r tip) (fun _ _ => True).
Proof.
  pose proof (stable_outside _ (withdrawal_stored_monotone r)) as Hs.
  eapply spec_step; [done|by apply spec_accept_withdrawal|]. intros accepted Hacc. cbv zeta.
  set (row := mkWithdrawalSigner (mw_request_id r) (mw_txid r) (mw_block_hash r) (nc_public_key cfg) accepted).
  assert (forall w, outside (withdrawal_stored r) w -> withdrawal_row_ok (w_db w) row) as Hv.
  { intros w [Hr _]. assert (withdrawal_requested (w_db w) row r) as Hq by done. split; [left; split; [done|]|]; by exists r. }
  apply spec_seq; [done|eapply spec_true, spec_write; [done..|]; intros w _ Hw _; by apply Hv|].
  apply spec_seq; [done|apply spec_send; [done|]; intros w Hw; exists row; by split_and!; [..|apply Hv]|by apply spec_signal].
Qed.

(** Steps on every row of a query, whose errors are logged. *)
Lemma spec_each {A} K (f : A -> M unit) l : stable K -> (forall a, a ∈ l -> safe K (f a) (fun _ _ => True)) ->
  safe K (for_each (fun a => logged (f a);;; st_ret tt) l) (fun _ _ => True).
Proof. intros Hs Hf. apply spec_for_each; [done|]. intros a Ha. apply spec_seq; [done|by eapply spec_true, spec_logged, Hf|by apply spec_ret]. Qed.
(** A query at the top reads the database itself. *)
Lemma spec_query_top {A} (f : nat -> Db -> A) : safe top (db_query env f) (fun a w => db_ok (w_db w) /\ exists t, a = f t (w_db w)).
Proof.
  eapply spec_weaken; [apply (spec_keep top), spec_query; apply stable_top|done|]. intros a w (Ht & [_ Hd _ _ _] & t & ->). rewrite view_top by done. eauto.
Qed.

(** A step on each row of a query, if what the rows have in the database
    lasts. *)
Lemma spec_rows {A B} (P : A -> Db -> Prop) (query : nat -> Db -> list A) (f : list A -> M B) (rest : M unit) :
  (forall a, monotone (P a)) -> (forall t d a, db_ok d -> a ∈ query t d -> P a d) ->
  (forall l, safe (outside (fun d => Forall (fun a => P a d) l)) (f l) (fun _ _ => True)) -> safe top rest (fun _ _ => True) ->
  safe top (st_bind (db_query env query) (fun l => f l;;; rest)) (fun _ _ => True).
Proof.
  intros HP Hq Hf Hrest. pose proof stable_top as Hs.
  eapply (spec_bind _ _ _ _ (fun l w => Forall (fun a => P a (w_db w)) l)); [done|eapply spec_weaken; [apply spec_query_top|done|]|].
  { intros l w [Hd [t ->]]. apply Forall_forall. intros a. by apply Hq. }
  intros l. assert (monotone (fun d => Forall (fun a => P a d) l)) as Hm.
  { intros d d' Hg Hall. eapply Forall_impl; [exact Hall|]. intros a. by apply HP. }
  eapply (spec_weaken _ (outside (fun d => Forall (fun a => P a d) l))); [|by intros w [? ?]; split|intros a w H; exact H].
  apply spec_seq; [by apply stable_outside|apply Hf|]. eapply spec_weaken; [exact Hrest|by intros w [_ ?]|done].
Qed.
Lemma spec_each_row {A} (P : A -> Db -> Prop) (f : A -> M unit) l : (forall a, monotone (P a)) -> (forall a, safe (outside (P a)) (f a) (fun _ _ => True)) ->
  safe (outside (fun d => Forall (fun a => P a d) l)) (for_each (fun a => logged (f a);;; st_ret tt) l) (fun _ _ => True).
Proof.
  intros HP Hf. apply spec_each.
  - apply stable_outside. intros d d' Hg Hall. eapply Forall_impl; [exact Hall|]. intros a. by apply HP.
  - intros a Ha. eapply spec_weaken; [apply Hf| |done]. intros w [Hall Ht]. split; [|done]. by eapply Forall_forall in Hall.
Qed.
Lemma spec_retry {A} (to : A -> Payload) tip l :
  safe (outside (fun d => Forall (fun a => sent_ok d (to a)) l)) (logged (for_each (fun a => logged (rd_send_message cfg env (to a) tip);;; st_ret tt) l)) (fun _ _ => True).
Proof.
  assert (forall a, monotone (fun d => sent_ok d (to a))) as Hm by (intros a d d'; apply sent_grows).
  eapply spec_true, spec_logged, spec_each_row; [done|]. intros a. apply spec_send; [by apply stable_outside|]. by intros w [? _].
Qed.

Lemma spec_new_requests tip : safe top (handle_new_requests cfg env tip) (fun _ _ => True).
Proof.
  pose proof stable_top as Hs. apply spec_seq; [done|apply spec_if; intros _; [by apply spec_emit|by apply spec_ret]|]. cbv zeta.
  eapply spec_step; [done|quick|]. intros found _. eapply spec_step; [done|quick|]. intros stacks_tip _.
  apply (spec_rows (fun r d => sent_ok d (PayDepositDecision (deposit_decision_from r)))); [intros r d d'; apply sent_grows| |intros l; apply spec_retry|].
  { intros t d r Hd [Hr Hk]%(el_deposit_decisions laws). exists r. split_and!; [done..|]. by apply (ok_deposit_votes _ Hd). }
  apply (spec_rows stored); [apply stored_monotone|intros t d r _; apply (el_pending laws)|intros l; apply spec_each_row; [apply stored_monotone|]|].
  { intros r. apply spec_pending_deposit. }
  apply (spec_rows (fun r d => sent_ok d (PayWithdrawalDecision (withdrawal_decision_from r)))); [intros r d d'; apply sent_grows| |intros l; apply spec_retry|].
  { intros t d r Hd [Hr Hk]%(el_withdrawal_decisions laws). exists r. split_and!; [done..|]. by apply (ok_withdrawal_votes _ Hd). }
  eapply (spec_bind _ _ _ _ (fun l w => Forall (fun r => withdrawal_stored r (w_db w)) l)); [done|eapply spec_weaken; [apply spec_query_top|done|]|].
  { intros l w [Hd [t ->]]. apply Forall_forall. intros r. apply (el_pending_withdrawals laws). }
  intros l. eapply (spec_weaken _ (outside (fun d => Forall (fun r => withdrawal_stored r d) l))); [|by intros w [? ?]; split|intros a w H; exact H].
  apply spec_each_row; [apply withdrawal_stored_monotone|]. intros r. apply spec_pending_withdrawal.
Qed.

(** The foreign keys of a vote that is written at the top. *)
Lemma deposit_reference w r : top w -> references (view w) (WDepositSigner r) = true -> exists q, requested (w_db w) r q.
Proof. intros Ht. rewrite view_top by done. intros (q & ? & ?)%(keyed_row md_outpoint). by exists q. Qed.
Lemma withdrawal_reference w r : top w -> references (view w) (WWithdrawalSigner r) = true -> exists q, withdrawal_requested (w_db w) r q.
Proof. intros Ht. rewrite view_top by done. intros (q & ? & ?)%(keyed_row mw_key). by exists q. Qed.
Lemma spec_persist_deposit m decision : received m -> sm_payload m = PayDepositDecision decision ->
  safe top (persist_received_deposit_decision cfg env fuel decision (sm_signer_public_key m)) (fun _ _ => True).
Proof.
  intros Hm Hp. pose proof stable_top as Hs. unfold persist_received_deposit_decision. cbv zeta.
  set (row := mkDepositSigner _ _ _ _ _). eapply spec_step; [done|quick|]. intros b _. apply spec_seq; [done| |].
  { apply spec_if; intros _; [|by apply spec_ret]. eapply spec_step; [done|quick|]. intros [q|] _; [apply spec_load_requests|by apply spec_ret]. }
  eapply spec_step; [done|quick|]. intros b' _. apply spec_if; intros Hb; [by apply spec_ret|].
  apply spec_seq; [done| |by apply spec_signal]. eapply spec_true, spec_write; [done..|]. intros w _ Ht Hr. split; [|by apply deposit_reference].
  right. exists m. split_and!; [done..|]. rewrite Hp. by destruct decision.
Qed.
Lemma spec_persist_withdrawal m decision : received m -> sm_payload m = PayWithdrawalDecision decision ->
  safe top (persist_received_withdraw_decision env decision (sm_signer_public_key m)) (fun _ _ => True).
Proof.
  intros Hm Hp. pose proof stable_top as Hs. apply spec_seq; [done| |by apply spec_signal]. eapply spec_true, spec_write; [done..|].
  intros w _ Ht Hr. split; [|by apply withdrawal_reference]. right. exists m. split_and!; [done..|]. rewrite Hp. by destruct decision.
Qed.
Lemma spec_decider signals : (forall m, SignalMessageReceived m ∈ signals -> received m) -> safe top (rd_run cfg env fuel signals) (fun _ _ => True).
Proof.
  intros Hr. pose proof stable_top as Hs. apply spec_seq; [done|by apply spec_signal|].
  assert (forall m, SignalMessageReceived m ∈ List.filter rd_message_filter signals -> received m) as Hf.
  { intros m Hm. apply Hr. apply list_elem_of_In in Hm. apply list_elem_of_In. by apply List.filter_In in Hm as [? _]. }
  revert Hf. generalize (List.filter rd_message_filter signals). clear signals Hr. intros signals. induction signals as [|s signals IH]; intros Hr; [by apply spec_ret|].
  assert (safe top (rd_loop cfg env fuel signals) (fun _ _ => True)) as Hrest by (apply IH; set_solver).
  destruct s as [|m|m|m|m|t|t|]; cbn [rd_loop]; try exact Hrest; [by apply spec_ret| |].
  - apply spec_seq; [done| |done]. assert (received m) as Hm by (apply Hr; set_solver). eapply spec_true, spec_logged. unfold rd_handle_signer_message.
    destruct (sm_payload m) eqn:Hp; [by apply spec_persist_deposit|by apply spec_persist_withdrawal|by apply spec_ret..].
  - apply spec_seq; [done|eapply spec_true, spec_logged, spec_new_requests|]. eapply spec_step; [done|eapply spec_true, spec_logged, spec_signal; done|].
    intros [u|] _; [done|by apply spec_ret].
Qed.

(** *** Ancestors *)
Inductive ancestors_known (d : Db) : BlockHash -> Prop :=
| AncestorsStart h : known h d -> height h <= start -> ancestors_known d h
| AncestorsStep h : known h d -> ancestors_known d (parent h) -> ancestors_known d h.
Lemma known_ancestors d h : db_ok d -> known h d -> ancestors_known d h.
Proof.
  intros Hd. remember (Z.to_nat (height h - start)) as n eqn:Hn. revert h Hn. induction n as [|n IH]; intros h Hn Hk.
  - apply AncestorsStart; [done|lia].
  - destruct (Hk) as [b Hb]. destruct (ok_blocks _ Hd h b Hb) as [Hh [_ _ Hg]]. rewrite Hh in Hg. destruct Hg as [Hg|Hg]; [by apply AncestorsStart|].
    destruct (Z.le_gt_cases (height h) start) as [|Hlt]; [by apply AncestorsStart|]. apply AncestorsStep; [done|]. apply IH; [|done].
    rewrite (el_height laws h Hlt). lia.
Qed.

End Invariant.

(** ** Properties *)
Section Properties.
Context {wc : WstsCrypto} {sl : StacksLib} {bl : BitcoinLib} {dl : DepositLib} {nl : NodeLib} {cl : CoordLib}.
Variables (cfg : NodeConfig) (env : NodeEnv) (start : Z) (height : BlockHash -> Z) (parent : BlockHash -> BlockHash).
Variables (txs_of : BlockHash -> list BitcoinTxInfo) (own : gset Script) (received : SignedMessage -> Prop) (fuel : nat).
Abbreviation laws_hold := (env_laws cfg env start height parent txs_of own received).
Abbreviation database_ok := (db_ok cfg env start height parent received).

(** A task starts outside of a transaction, with nothing sent. *)
Record ready (w : World) : Prop := {
  rd_state : state_ok start (w_state w);
  rd_db : database_ok (w_db w);
  rd_sweeps : sweeps_ok txs_of own (w_db w);
  rd_tx : w_tx w = None;
  rd_log : w_log w = [] }.
Lemma ready_inv w : ready w -> inv cfg env start height parent txs_of own received w.
Proof. intros [? ? ? Ht Hl]. constructor; [done..|by rewrite Ht|by rewrite Hl]. Qed.

Lemma fetch_headers_ends (Hl : laws_hold) (Hh : forall t h, ne_header env t h <> Diverge) n : forall h acc w,
  (Z.to_nat (height h - start) < n)%nat -> (fetch_headers env n start h acc w).2 <> Diverge.
Proof.
  induction n as [|n IH]; intros h acc w Hn; [lia|]. cbn [fetch_headers]. unfold st_bind at 1, db_query, db_call.
  destruct (ne_db_error env (w_time w)); [done|]. destruct (is_known h (view (tick env w))); [done|]. unfold st_bind at 1, call.
  destruct (ne_header env _ h) as [[hd|]| | |] eqn:Hf; cbn [map_err]; try done; [|by apply Hh in Hf].
  destruct (el_header _ _ _ _ _ _ _ _ Hl _ _ _ Hf) as (_ & Hhe & Hpr). unfold st_bind, st_ok_or, st_lift, ok_or. rewrite Hhe, Hpr.
  destruct (Z.ltb_spec (height h) start); [done|]. destruct (Z.eqb_spec (height h) start); [done|]. apply IH.
  rewrite (el_height _ _ _ _ _ _ _ _ Hl) by lia. lia.
Qed.
Lemma state_read_ok {A} (f : SignerState -> A) w : state_read env f w = (tick env w, Ok (f (w_state (tick env w)))).
Proof. done. Qed.

(** C31: the search for missing headers ends. If bitcoin-core's headers lead
    down one height at a time, as many rounds as there are heights between the
    block and the start height, and one more, are enough: the loop of
    [next_headers_to_process] ends, with the missing headers or an error. *)
Theorem headers_loop_ends h w : laws_hold -> ready w ->
  (forall t h, ne_header env t h <> Diverge) -> (forall t, ne_epoch_status env t <> Diverge) -> (Z.to_nat (height h - start) < fuel)%nat ->
  (next_headers_to_process env fuel h w).2 <> Diverge.
Proof.
  intros Hl Hw Hh He Hf. destruct (spec_set_start_height _ _ _ _ _ _ _ _ Hl top stable_top w (ready_inv w Hw) (rd_tx w Hw)) as (Hi & _ & Hst).
  unfold next_headers_to_process, st_bind at 1. destruct (set_start_height env w) as [w1 r1] eqn:Hr. cbn [fst snd] in *.
  destruct r1 as [[]| | |]; [|done..|].
  - destruct (tick_inv _ _ _ _ _ _ _ _ Hl w1 Hi) as [Hi' He']. unfold st_bind. rewrite state_read_ok.
    rewrite (inv_state _ _ _ _ _ _ _ _ _ Hi') by (exact (ev_start _ _ He' (Hst tt eq_refl))). by apply fetch_headers_ends.
  - exfalso. revert Hr. unfold set_start_height, st_bind at 1. rewrite state_read_ok. destruct (st_is_sbtc_bitcoin_start_height_set _); [done|].
    unfold st_bind, call. destruct (ne_epoch_status env _) eqn:Hs; cbn [map_err]; try done. by apply He in Hs.
Qed.

(** C6: the block observer keeps the database consistent, whatever fails and
    however the other tasks interleave. A block in the table has its parent
    beside it down to the start height, and the transactions in it that pay
    the signers or spend what was theirs are recorded; the tip of every
    [BitcoinBlockObserved] signal is in the table with all its ancestors. *)
Theorem observer_keeps_database polls w : laws_hold -> ready w ->
  let w' := (observer_run cfg env fuel polls w).1 in
  database_ok (w_db w') /\ sweeps_ok txs_of own (w_db w') /\ db_grows (w_db w) (w_db w') /\
  forall tip, NSignal (SignalBitcoinBlockObserved tip) ∈ w_log w' -> ancestors_known start height parent (w_db w') (bbr_block_hash tip).
Proof.
  intros Hl Hw w'. destruct (spec_observer _ _ _ _ _ _ _ _ Hl fuel polls w (ready_inv w Hw) (rd_tx w Hw)) as (Hi & He & _).
  split_and!; [apply Hi|apply Hi|apply He|]. intros tip Htip. eapply known_ancestors; [exact Hl|apply Hi|].
  pose proof (inv_log _ _ _ _ _ _ _ _ _ Hi) as Hlog. rewrite Forall_forall in Hlog. by destruct (Hlog _ Htip).
Qed.

Lemma sender_scripts_elem info s :
  s ∈ sender_scripts info <-> exists vin p, vin ∈ ti_vin info /\ vin_prevout vin = Some p /\ s = vp_script_pubkey p.
Proof.
  unfold sender_scripts. rewrite sort_by_key_perm, elem_of_remove_dups, list_elem_of_omap. split.
  - intros (vin & Hv & (p & Hp & ->)%fmap_Some). by exists vin, p.
  - intros (vin & p & Hv & Hp & ->). exists vin. split; [done|]. by rewrite Hp.
Qed.

(** C7: every deposit request that the observer leaves in the database is
    backed by bitcoin. The transaction was reported confirmed by bitcoin-core,
    in a block that the database has unless it is older than the start height;
    the output pays the recorded amount to the script tree of the recorded
    deposit script and a reclaim script, whose hash is recorded; the deposit
    script names the recorded signers' key, recipient and maximal fee; the
    reclaim script starts with the recorded lock time, 16 bits of blocks, and
    [OP_CSV], and the user's script that follows is short and has no
    [OP_SUCCESS]; the recorded senders are the scripts that the transaction
    spends. *)
Theorem loaded_deposits_backed `{!DepositLaws} polls w r : laws_hold -> ready w ->
  let d := w_db (observer_run cfg env fuel polls w).1 in
  r ∈ db_deposits d ->
  exists t info hash recipient reclaim blocks user,
    ne_tx_info env t (md_txid r) hash = Ok (Some info) /\ compute_txid (ti_tx info) = md_txid r /\
    (height hash < start \/ ancestors_known start height parent d hash) /\
    tx_output (ti_tx info) !! Z.to_nat (md_output_index r) = Some (mkTxOut (md_amount r) (deposit_script_pubkey (md_spend_script r) reclaim)) /\
    md_spend_script r = deposit_script (mkDepositInputs (md_signers_public_key r) recipient (md_max_fee r)) /\
    md_recipient r = principal_serialize recipient /\ issuer_is_mainnet recipient = nc_is_mainnet cfg /\
    md_reclaim_script_hash r = taproot_script_hash reclaim /\
    in_u 16 blocks /\ md_lock_time r = to_consensus_u32 (LockBlocks blocks) /\ reclaim = push_int blocks ++ OP_CSV :: user /\
    zlen user <= MAX_RECLAIM_SCRIPT_LENGTH /\ has_op_success user = false /\
    forall s, s ∈ md_sender_script_pub_keys r <-> exists vin p, vin ∈ ti_vin info /\ vin_prevout vin = Some p /\ s = vp_script_pubkey p.
Proof.
  intros Hl Hw d Hr. destruct (spec_observer _ _ _ _ _ _ _ _ Hl fuel polls w (ready_inv w Hw) (rd_tx w Hw)) as (Hi & _ & _).
  pose proof (inv_db _ _ _ _ _ _ _ _ _ Hi) as Hd. destruct (ok_deposits _ _ _ _ _ _ _ Hd r Hr) as (q & s & info & di & t & t' & _ & _ & Hti & _ & Hv & Hroot & ->).
  destruct (validate_tx_sound q (ti_tx info) _ di Hv) as (Htx & Ho & Hds & Hrs & Hout & Hdep & Hnet & b & user & Hb & Hlock & Hre & Hlen & Hop).
  exists t', info, (os_block_hash s), (dinfo_recipient di), (cd_reclaim_script q), b, user. cbn. rewrite Ho, Hds, Hrs, Hlock.
  split_and!; try done; [|intros x; apply sender_scripts_elem]. destruct Hroot as [|Hk]; [by left|right]. by eapply known_ancestors.
Qed.

(** A vote on a request of the database: the signer's decision on that very
    request, or the content of a message that was received from the signer. *)
Definition authentic_deposit_vote (d : Db) (r : DepositSigner) : Prop :=
  (exists q, requested d r q) /\
  ((dsg_signer_pub_key r = nc_public_key cfg /\ forall q, requested d r q -> deposit_decided cfg env r q) \/
   exists m, received m /\ sm_signer_public_key m = dsg_signer_pub_key r /\ sm_payload m = PayDepositDecision (deposit_decision_from r)).
Definition authentic_withdrawal_vote (d : Db) (r : WithdrawalSigner) : Prop :=
  (exists q, withdrawal_requested d r q) /\
  ((wsg_signer_pub_key r = nc_public_key cfg /\ forall q, withdrawal_requested d r q -> withdrawal_decided cfg env r q) \/
   exists m, received m /\ sm_signer_public_key m = wsg_signer_pub_key r /\ sm_payload m = PayWithdrawalDecision (withdrawal_decision_from r)).
Definition authentic_decision (d : Db) (p : Payload) : Prop :=
  match p with
  | PayDepositDecision v => exists r, v = deposit_decision_from r /\ dsg_signer_pub_key r = nc_public_key cfg /\ authentic_deposit_vote d r
  | PayWithdrawalDecision v => exists r, v = withdrawal_decision_from r /\ wsg_signer_pub_key r = nc_public_key cfg /\ authentic_withdrawal_vote d r
  | _ => False
  end.
Lemma deposit_row_authentic d r : database_ok d -> deposit_row_ok cfg env received d r -> authentic_deposit_vote d r.
Proof.
  intros Hd [Hv Hq]. split; [done|]. destruct Hv as [[Hk (q & Hin & Hdec)]|Hm]; [left|by right]. split; [done|]. intros q' Hin'.
  enough (q' = q) as -> by done. destruct Hin, Hin'. eapply (keyed_unique md_outpoint); [apply (ok_deposit_keys _ _ _ _ _ _ _ Hd)|done..|congruence].
Qed.
Lemma withdrawal_row_authentic d r : database_ok d -> withdrawal_row_ok cfg env received d r -> authentic_withdrawal_vote d r.
Proof.
  intros Hd [Hv Hq]. split; [done|]. destruct Hv as [[Hk (q & Hin & Hdec)]|Hm]; [left|by right]. split; [done|]. intros q' Hin'.
  enough (q' = q) as -> by done. destruct Hin, Hin'. eapply (keyed_unique mw_key); [apply (ok_withdrawal_keys _ _ _ _ _ _ _ Hd)|done..|congruence].
Qed.

(** C8: votes are authentic. After any sequence of signals, every vote in the
    database is on a request in the database, and it is this signer's own
    decision on that request, or the content of a message that was received
    from the signer whose vote it is. Its own decision to accept means that,
    if a blocklist client is configured, the client passed the address of
    every sender script of the deposit request, or of the recipient of the
    withdrawal request; a vote that it can sign means that the database said
    so. And every decision that this signer sends is such a vote under its own
    key. *)
Theorem decider_votes_authentic signals w : laws_hold -> ready w -> (forall m, SignalMessageReceived m ∈ signals -> received m) ->
  let w' := (rd_run cfg env fuel signals w).1 in
  (forall r, r ∈ db_deposit_signers (w_db w') -> authentic_deposit_vote (w_db w') r) /\
  (forall r, r ∈ db_withdrawal_signers (w_db w') -> authentic_withdrawal_vote (w_db w') r) /\
  (forall m, NSend m ∈ w_log w' -> sm_signer_public_key m = nc_public_key cfg /\ authentic_decision (w_db w') (sm_payload m)).
Proof.
  intros Hl Hw Hr w'. destruct (spec_decider _ _ _ _ _ _ _ _ Hl fuel signals Hr w (ready_inv w Hw) (rd_tx w Hw)) as (Hi & _ & _).
  pose proof (inv_db _ _ _ _ _ _ _ _ _ Hi) as Hd. pose proof (inv_log _ _ _ _ _ _ _ _ _ Hi) as Hlog. split_and!.
  - intros r Hin. by apply deposit_row_authentic, (ok_deposit_votes _ _ _ _ _ _ _ Hd).
  - intros r Hin. by apply withdrawal_row_authentic, (ok_withdrawal_votes _ _ _ _ _ _ _ Hd).
  - intros m Hm. rewrite Forall_forall in Hlog. destruct (Hlog _ Hm) as [Hk Hs]. split; [done|].
    destruct (sm_payload m); try done; destruct Hs as (r & ? & ? & ?); exists r; split_and!; try done; [by apply deposit_row_authentic|by apply withdrawal_row_authentic].
Qed.
End Properties.
