(* ===== verification/NodeDemo.v ===== *)
(** * A concrete environment of the block observer and the request decider

    A chain whose block 8, at height 110, holds a sweep of the signers and a
    deposit; the start height is 109. Emily knows the deposit, and the signer
    20 receives the vote of the signer 10 for it, and decides on a withdrawal
    request. *)

From Stdlib Require Import SpecFloat.
From stdpp Require Import strings.
From S2P Require Import Prelude Effects Types Consts WstsNet DkgVerification WstsFrost FrostVerification WstsFire WstsSigner WstsSignerDkg WstsMachines.
From S2P Require Import Bitcoin SignerState Packaging Requests Sweep Validation Deposits Contracts StacksSigning Wallet Coordinator CoordinatorDemo.
From S2P Require Import Node BlockObserver RequestDecider NodeSafety.

Module DemoNode.
Import DemoTenure.
#[export] Existing Instance demo_deposit_lib.
#[export] Existing Instance demo_deposit_laws.
#[export] Instance demo_node : NodeLib := {|
  is_coinbase := fun tx => bool_decide (tx_input tx = []) && bool_decide (tx_output tx = []);
  taproot_script_hash := zsum; Address := Z; address_from_script := fun s => Some (zsum s) |}.

Definition start : Z := 109.
Definition height (h : BlockHash) : Z := h + 102.
Definition parent (h : BlockHash) : BlockHash := h - 1.
Definition own : gset Script := {[signers_script_pubkey 11]}.
Definition info_of (tx : Transaction) : BitcoinTxInfo :=
  mkTxInfo (Some 5000) tx (map (fun i => mkVin (Some (op_txid (previous_output i))) (Some (op_vout (previous_output i)))
    (Some (mkVinPrevout 500000 (signers_script_pubkey 11)))) (tx_input tx)).
Definition txs_of (h : BlockHash) : list BitcoinTxInfo := if h =? 8 then [info_of (ut_tx demo_unsigned); info_of demo_deposit_tx] else [].

Definition node_config : NodeConfig := mkNodeConfig true 42 None 10 20 1 100 5 5 true.
Definition undecided (k : PublicKey) (d : Db) (r : ModelDepositRequest) : bool :=
  negb (existsb (fun v => bool_decide (mkOutPoint (dsg_txid v) (dsg_output_index v) = md_outpoint r) && (dsg_signer_pub_key v =? k)) (db_deposit_signers d)).
Definition node_env : NodeEnv := {|
  ne_others := fun _ w => w; ne_db_error := fun _ => None; ne_db_effect := fun _ => false;
  ne_script_pubkeys := fun _ _ => [signers_script_pubkey 11];
  ne_withdrawn_total := fun _ _ _ _ => 0; ne_stacks_chain_tip := fun _ _ _ => Some (mkStacksBlockRef 8 9); ne_latest_shares := fun _ _ => None;
  ne_deposit_decisions := fun _ d _ _ k => List.filter (fun v => dsg_signer_pub_key v =? k) (db_deposit_signers d);
  ne_withdrawal_decisions := fun _ d _ _ k => List.filter (fun v => wsg_signer_pub_key v =? k) (db_withdrawal_signers d);
  ne_pending_deposits := fun _ d _ _ k => List.filter (undecided k d) (db_deposits d);
  ne_pending_withdrawals := fun _ d _ _ _ _ => db_withdrawals d;
  ne_can_sign := fun _ _ _ _ _ => Some true;
  ne_header := fun _ h => Ok (Some (mkBlockHeader h (height h) 0 (parent h)));
  ne_block := fun _ h => Ok (Some (mkBlockInfo h (height h) 0 None (parent h) (txs_of h)));
  ne_utxo_info := fun _ o => Ok (Some (mkOutPointSummary 8 false));
  ne_tx_info := fun _ _ _ => Ok (Some (info_of demo_deposit_tx));
  ne_emily_deposits := fun _ => Ok [demo_create]; ne_emily_deposit := fun _ _ _ => Ok (Some demo_create);
  ne_emily_limits := fun _ => Ok limits_zero; ne_epoch_status := fun _ => Ok (PostNakamoto start);
  ne_tenure_consensus_hash := fun _ => Ok 0; ne_update_ancestors := fun _ _ => Ok tt; ne_total_supply := fun _ _ => Ok 0;
  ne_contracts := fun _ => contract; ne_signer_set_info := fun _ _ => Ok None;
  ne_can_accept := fun _ a => Ok (negb (a =? 999)); ne_signal := fun _ => Ok tt; ne_broadcast := fun _ => Ok tt; ne_shutdown := fun _ => false |}.
Definition empty_world : World := mkWorld 0 signer_state_default db_empty None [].

(** The other signer's vote, and a new chain tip. *)
Definition vote : SignerDepositDecision := mkDepositDecision (compute_txid demo_deposit_tx) 0 true true.
Definition vote_message : SignedMessage := mkSignedMessage 8 (PayDepositDecision vote) 10.
Definition votes : list SignerSignal := [SignalMessageReceived vote_message; SignalBitcoinBlockObserved (mkBitcoinBlockRef 110 8)].
Definition polls : list Poll := [PollError; PollBlock 8; PollNothing].
Definition fuel : nat := 5.
Definition received (m : SignedMessage) : Prop := m = vote_message.

Lemma node_laws : env_laws node_config node_env start height parent txs_of own received.
Proof.
  constructor; cbn.
  - by intros t h hd [= <-].
  - by intros t h b [= <-].
  - intros t d. unfold own. set_solver.
  - intros h _. unfold height, parent. lia.
  - by intros t s [= <-].
  - intros t d tip window k r Hr. apply list_elem_of_In in Hr. apply list_elem_of_In. by apply List.filter_In in Hr as [? _].
  - done.
  - intros t d tip window k r Hr. apply list_elem_of_In in Hr. apply List.filter_In in Hr as [Hr Hk]. split; [by apply list_elem_of_In|by apply Z.eqb_eq].
  - intros t d tip window k r Hr. apply list_elem_of_In in Hr. apply List.filter_In in Hr as [Hr Hk]. split; [by apply list_elem_of_In|by apply Z.eqb_eq].
  - intros t s d Hs Hd Hw. by split_and!; [| intros ?| | |].
Qed.
Lemma empty_ready : ready node_config node_env start height parent txs_of own received empty_world.
Proof. constructor; cbn; try done; [constructor; cbn; try set_solver; constructor|]. intros h [b Hb]. done. Qed.
Definition observed : World := (observer_run node_config node_env fuel polls empty_world).1.
(** The decider starts with the state that the observer left, and on a
    database with a withdrawal request only, so that the vote makes it load the
    deposit. *)
Definition demo_withdrawals : Db := mkDb ∅ [] [] [] [] [] [] [] [mkModelWithdrawal 3 0 8 [1; 2] 30000 1000 [] 110].
Definition decider_world : World := mkWorld 0 (w_state observed) demo_withdrawals None [].
Definition decided : World := (rd_run node_config node_env fuel votes decider_world).1.
Definition announces (h : BlockHash) (log : list NodeEvent) : bool :=
  existsb (fun e => match e with NSignal (SignalBitcoinBlockObserved tip) => bbr_block_hash tip =? h | _ => false end) log.
Lemma announced h log : announces h log = true -> exists tip, NSignal (SignalBitcoinBlockObserved tip) ∈ log /\ bbr_block_hash tip = h.
Proof.
  intros (e & He & Hh)%existsb_exists. destruct e as [s|m|x|k|]; try done. destruct s as [|m|m|m|m|t|t|]; try done. exists t.
  split; [by apply list_elem_of_In|by apply Z.eqb_eq].
Qed.
Lemma decider_ready : ready node_config node_env start height parent txs_of own received decider_world.
Proof.
  constructor; cbn; [|constructor; cbn; try set_solver; [constructor|apply NoDup_singleton]|by intros h [b Hb]|done..].
  intros _. change (st_sbtc_bitcoin_start_height (w_state observed) = 109). vm_compute. reflexivity.
Qed.
End DemoNode.

Section Witnesses.
Import DemoTenure DemoNode.

Lemma headers_loop_ends_witness :
  match (next_headers_to_process node_env fuel 8 empty_world).2 with Ok headers => map bh_hash headers | _ => [] end = [7; 8] /\
  (next_headers_to_process node_env fuel 8 empty_world).2 <> Diverge.
Proof.
  split; [vm_compute; reflexivity|].
  apply (headers_loop_ends node_config node_env start height parent txs_of own received fuel 8 empty_world node_laws empty_ready); [done..|].
  unfold height, start, fuel. lia.
Defined.

Lemma observer_keeps_database_witness :
  announces 8 (w_log observed) = true /\ sweeps_ok txs_of own (w_db observed) /\ ancestors_known start height parent (w_db observed) 8.
Proof.
  assert (announces 8 (w_log observed) = true) as Hlog by (vm_compute; reflexivity).
  destruct (observer_keeps_database node_config node_env start height parent txs_of own received fuel polls empty_world node_laws empty_ready)
    as (_ & Hs & _ & Ht).
  split; [exact Hlog|]. split; [exact Hs|]. destruct (announced 8 _ Hlog) as (tip & Hin & <-). apply Ht. exact Hin.
Defined.

Lemma loaded_deposits_backed_witness : exists r, r ∈ db_deposits (w_db observed) /\ md_amount r = 250000 /\
  exists t info hash recipient reclaim blocks user,
    ne_tx_info node_env t (md_txid r) hash = Ok (Some info) /\ compute_txid (ti_tx info) = md_txid r /\
    (height hash < start \/ ancestors_known start height parent (w_db observed) hash) /\
    tx_output (ti_tx info) !! Z.to_nat (md_output_index r) = Some (mkTxOut (md_amount r) (deposit_script_pubkey (md_spend_script r) reclaim)) /\
    md_spend_script r = deposit_script (mkDepositInputs (md_signers_public_key r) recipient (md_max_fee r)) /\
    md_recipient r = principal_serialize recipient /\ issuer_is_mainnet recipient = nc_is_mainnet node_config /\
    md_reclaim_script_hash r = taproot_script_hash reclaim /\
    in_u 16 blocks /\ md_lock_time r = to_consensus_u32 (LockBlocks blocks) /\ reclaim = push_int blocks ++ OP_CSV :: user /\
    zlen user <= MAX_RECLAIM_SCRIPT_LENGTH /\ has_op_success user = false /\
    forall s, s ∈ md_sender_script_pub_keys r <-> exists vin p, vin ∈ ti_vin info /\ vin_prevout vin = Some p /\ s = vp_script_pubkey p.
Proof.
  assert (map md_amount (db_deposits (w_db observed)) = [250000]) as Hd by (vm_compute; reflexivity).
  destruct (db_deposits (w_db observed)) as [|r rs] eqn:Hr; [done|]. exists r. split; [left|]. split; [by injection Hd|].
  apply (loaded_deposits_backed node_config node_env start height parent txs_of own received fuel polls empty_world r node_laws empty_ready).
  change (r ∈ db_deposits (w_db observed)). rewrite Hr. left.
Defined.

Lemma decider_votes_authentic_witness :
  map dsg_signer_pub_key (db_deposit_signers (w_db decided)) = [10; 20] /\
  map wsg_is_accepted (db_withdrawal_signers (w_db decided)) = [true] /\
  (forall r, r ∈ db_deposit_signers (w_db decided) -> authentic_deposit_vote node_config node_env received (w_db decided) r) /\
  (forall r, r ∈ db_withdrawal_signers (w_db decided) -> authentic_withdrawal_vote node_config node_env received (w_db decided) r) /\
  (forall m, NSend m ∈ w_log decided -> sm_signer_public_key m = nc_public_key node_config /\
    authentic_decision node_config node_env received (w_db decided) (sm_payload m)).
Proof.
  split; [vm_compute; reflexivity|]. split; [vm_compute; reflexivity|].
  apply (decider_votes_authentic node_config node_env start height parent txs_of own received fuel votes decider_world node_laws decider_ready).
  intros m Hm. unfold votes in Hm. apply elem_of_cons in Hm as [[= ->]|Hm]; [done|]. apply elem_of_cons in Hm as [?|Hm]; [done|]. by apply not_elem_of_nil in Hm.
Defined.
End Witnesses.
