(* ===== verification/SbtcEvents.v ===== *)
(** Events that the sBTC registry prints, and how they are read.

    Source: src/sbtc/src/events.rs. The tuples that the registry prints are those of
    src/contracts/contracts/sbtc-registry.clar.

    Scripts and public keys belong to other crates and are the class [EventLib].
    Theorems: what the registry prints for a contract call of the signers is read back
    with the same outpoint, amounts and sweep; other values are refused, never
    misread. *)

From Stdlib Require Import Ascii String.
From stdpp Require Import strings.
From S2P Require Import Prelude Effects Types Consts Bitcoin SignerState Packaging Requests Sweep Validation Contracts.

(** [PublicKey], [ScriptBuf] and [WitnessProgram] of the bitcoin crates. *)
Class EventLib := {
  new_p2pkh : list Z -> Script;
  new_p2sh : list Z -> Script;
  (** [WitnessProgram::new] and [ScriptBuf::new_witness_program], by the witness version *)
  witness_script : Z -> list Z -> option Script;
  pk_from_slice : list Z -> option PublicKey;
  (** the keys that a [PublicKey] can be *)
  pk_valid : PublicKey -> Prop }.

Record TxInfo := mkTxInfo { txi_txid : Z; txi_block_id : Z }.

Inductive EventError :=
| ClarityIntConversion
| ClaritySliceConversion
| ClarityStringConversion
| ClarityHashByteLength (n : nat)
| ClarityPublicKeyConversion
| ClarityUnexpectedEventTopic (topic : string)
| ClarityUnexpectedValue (v : ClarityValue) (info : TxInfo)
| InvalidWitnessProgram
| TupleEventField (field : string) (info : TxInfo)
| UnhandledRecipient (version hashbytes : list Z).

Record CompletedDepositEvent := mkCompletedDeposit {
  ced_txid : Z;
  ced_block_id : Z;
  ced_amount : Z;
  ced_outpoint : OutPoint;
  ced_sweep_block_hash : BlockHash;
  ced_sweep_block_height : Z;
  ced_sweep_txid : Txid }.
Record WithdrawalCreateEvent := mkWithdrawalCreate {
  wce_txid : Z;
  wce_block_id : Z;
  wce_request_id : Z;
  wce_amount : Z;
  wce_sender : Principal;
  wce_recipient : Script;
  wce_max_fee : Z;
  wce_block_height : Z }.
Record WithdrawalAcceptEvent := mkWithdrawalAccept {
  wae_txid : Z;
  wae_block_id : Z;
  wae_request_id : Z;
  wae_signer_bitmap : Z;
  wae_outpoint : OutPoint;
  wae_fee : Z;
  wae_sweep_block_hash : BlockHash;
  wae_sweep_block_height : Z;
  wae_sweep_txid : Txid }.
Record WithdrawalRejectEvent := mkWithdrawalReject {
  wre_txid : Z;
  wre_block_id : Z;
  wre_request_id : Z;
  wre_signer_bitmap : Z }.
Record KeyRotationEvent := mkKeyRotation {
  kre_txid : Z;
  kre_block_id : Z;
  kre_new_keys : list PublicKey;
  kre_new_address : Principal;
  kre_new_aggregate_pubkey : PublicKey;
  kre_new_signature_threshold : Z }.
Inductive RegistryEvent :=
| EvCompletedDeposit (e : CompletedDepositEvent)
| EvWithdrawalAccept (e : WithdrawalAcceptEvent)
| EvWithdrawalReject (e : WithdrawalRejectEvent)
| EvWithdrawalCreate (e : WithdrawalCreateEvent)
| EvKeyRotation (e : KeyRotationEvent).

(** ** [String::from_utf8] *)

(** A well-formed sequence: the ranges of the bytes of each length. *)
Definition within (lo hi b : Z) : bool := (lo <=? b) && (b <=? hi).
Definition continuation : Z -> bool := within 128 191.
Fixpoint utf8_valid (l : list Z) : bool :=
  match l with
  | [] => true
  | a :: l =>
      if within 0 127 a then utf8_valid l else
      match l with
      | [] => false
      | b :: l =>
          if within 194 223 a then continuation b && utf8_valid l else
          match l with
          | [] => false
          | c :: l =>
              let second :=
                if a =? 224 then within 160 191 b else if a =? 237 then within 128 159 b else within 225 239 a && continuation b in
              if within 224 239 a then second && continuation c && utf8_valid l else
              match l with
              | [] => false
              | d :: l =>
                  let second := if a =? 240 then within 144 191 b else if a =? 244 then within 128 143 b else continuation b in
                  within 240 244 a && second && continuation c && continuation d && utf8_valid l
              end
          end
      end
  end.
Definition byte_ascii (b : Z) : ascii := ascii_of_nat (Z.to_nat b).
Definition from_utf8 (l : list Z) : option string := if utf8_valid l then Some (String.string_of_list_ascii (map byte_ascii l)) else None.

(** ** [RawTupleData] *)
Abbreviation data_map := (list (string * ClarityValue)).
(** [BTreeMap::remove] *)
Fixpoint map_remove (field : string) (m : data_map) : option ClarityValue * data_map :=
  match m with
  | [] => (None, [])
  | (f, v) :: m =>
      if bool_decide (f = field) then (Some v, m)
      else let '(o, m') := map_remove field m in (o, (f, v) :: m')
  end.
(** [uN::try_from] of a [u128] *)
Definition int_try_from (w x : Z) : outcome EventError Z := if (0 <=? x) && (x <? 2 ^ w) then Ok x else Err ClarityIntConversion.
(** The integer whose bytes, least significant first, are given. *)
Fixpoint le_value (bytes : list Z) : Z := match bytes with [] => 0 | b :: bytes => b + 256 * le_value bytes end.
(** [<[u8; 32]>::try_from(..)] and [from_le_bytes] *)
Definition hash_from_buff (bytes : list Z) : outcome EventError Z :=
  if (length bytes =? 32)%nat then Ok (le_value bytes) else Err (ClarityHashByteLength (length bytes)).

Section Events.
Context `{EventLib} (info : TxInfo).
Abbreviation read := (st data_map EventError).

Definition remove_with {A} (f : ClarityValue -> option (outcome EventError A)) (field : string) : read A := fun m =>
  let '(o, m') := map_remove field m in
  match o with
  | Some v => match f v with Some r => (m', r) | None => (m', Err (TupleEventField field info)) end
  | None => (m', Err (TupleEventField field info))
  end.
Definition remove_u128 : string -> read Z := remove_with (fun v => match v with CvUInt n => Some (Ok n) | _ => None end).
Definition remove_buff : string -> read (list Z) := remove_with (fun v => match v with CvBuffer b => Some (Ok b) | _ => None end).
Definition remove_principal : string -> read Principal := remove_with (fun v => match v with CvPrincipal p => Some (Ok p) | _ => None end).
Definition remove_string : string -> read string :=
  remove_with (fun v => match v with CvString ascii => Some (ok_or (from_utf8 ascii) ClarityStringConversion) | _ => None end).
Definition remove_tuple : string -> read data_map := remove_with (fun v => match v with CvTuple m => Some (Ok m) | _ => None end).
Definition remove_list : string -> read (list ClarityValue) := remove_with (fun v => match v with CvList l => Some (Ok l) | _ => None end).
Definition remove_hash (field : string) : read Z := b <- remove_buff field;; st_lift (hash_from_buff b).

Definition completed_deposit : read RegistryEvent :=
  amount <- remove_u128 "amount";;
  vout <- remove_u128 "output-index";;
  txid <- remove_hash "bitcoin-txid";;
  sweep_txid <- remove_hash "sweep-txid";;
  sweep_block_hash <- remove_hash "burn-hash";;
  sweep_block_height <- remove_u128 "burn-height";;
  amount <- st_lift (int_try_from 64 amount);;
  vout <- st_lift (int_try_from 32 vout);;
  sweep_block_height <- st_lift (int_try_from 64 sweep_block_height);;
  st_ret (EvCompletedDeposit (mkCompletedDeposit (txi_txid info) (txi_block_id info) amount (mkOutPoint txid vout) sweep_block_hash sweep_block_height sweep_txid)).

(** The script of a version and its hash: P2PKH, P2SH (three versions), P2WPKH, P2WSH
    and P2TR. *)
Definition recipient_script (version hash_bytes : list Z) : outcome EventError Script :=
  if bool_decide (version = [0]) then
    if (length hash_bytes =? 20)%nat then Ok (new_p2pkh hash_bytes) else Err ClaritySliceConversion
  else if bool_decide (version = [1] \/ version = [2] \/ version = [3]) then
    if (length hash_bytes =? 20)%nat then Ok (new_p2sh hash_bytes) else Err ClaritySliceConversion
  else if bool_decide (version = [4]) && (length hash_bytes =? 20)%nat then ok_or (witness_script 0 hash_bytes) InvalidWitnessProgram
  else if bool_decide (version = [5]) && (length hash_bytes =? 32)%nat then ok_or (witness_script 0 hash_bytes) InvalidWitnessProgram
  else if bool_decide (version = [6]) && (length hash_bytes =? 32)%nat then ok_or (witness_script 1 hash_bytes) InvalidWitnessProgram
  else Err (UnhandledRecipient version hash_bytes).
Definition try_into_script_pub_key : read Script :=
  version <- remove_buff "version";;
  hash_bytes <- remove_buff "hashbytes";;
  st_lift (recipient_script version hash_bytes).

Definition withdrawal_create : read RegistryEvent :=
  request_id <- remove_u128 "request-id";;
  amount <- remove_u128 "amount";;
  max_fee <- remove_u128 "max-fee";;
  block_height <- remove_u128 "block-height";;
  sender <- remove_principal "sender";;
  recipient <- remove_tuple "recipient";;
  request_id <- st_lift (int_try_from 64 request_id);;
  amount <- st_lift (int_try_from 64 amount);;
  max_fee <- st_lift (int_try_from 64 max_fee);;
  block_height <- st_lift (int_try_from 64 block_height);;
  recipient <- st_lift (try_into_script_pub_key recipient).2;;
  st_ret (EvWithdrawalCreate (mkWithdrawalCreate (txi_txid info) (txi_block_id info) request_id amount sender recipient max_fee block_height)).

Definition withdrawal_accept : read RegistryEvent :=
  request_id <- remove_u128 "request-id";;
  bitmap <- remove_u128 "signer-bitmap";;
  fee <- remove_u128 "fee";;
  vout <- remove_u128 "output-index";;
  txid <- remove_hash "bitcoin-txid";;
  sweep_txid <- remove_hash "sweep-txid";;
  sweep_block_hash <- remove_hash "burn-hash";;
  sweep_block_height <- remove_u128 "burn-height";;
  request_id <- st_lift (int_try_from 64 request_id);;
  vout <- st_lift (int_try_from 32 vout);;
  fee <- st_lift (int_try_from 64 fee);;
  sweep_block_height <- st_lift (int_try_from 64 sweep_block_height);;
  st_ret (EvWithdrawalAccept (mkWithdrawalAccept (txi_txid info) (txi_block_id info) request_id bitmap (mkOutPoint txid vout) fee sweep_block_hash
    sweep_block_height sweep_txid)).

Definition withdrawal_reject : read RegistryEvent :=
  request_id <- remove_u128 "request-id";;
  bitmap <- remove_u128 "signer-bitmap";;
  request_id <- st_lift (int_try_from 64 request_id);;
  st_ret (EvWithdrawalReject (mkWithdrawalReject (txi_txid info) (txi_block_id info) request_id bitmap)).

Definition public_key (v : ClarityValue) : outcome EventError PublicKey :=
  match v with
  | CvBuffer b => ok_or (pk_from_slice b) ClarityPublicKeyConversion
  | _ => Err (ClarityUnexpectedValue v info)
  end.
Fixpoint public_keys (vs : list ClarityValue) : outcome EventError (list PublicKey) :=
  match vs with
  | [] => Ok []
  | v :: vs => k ← public_key v; ks ← public_keys vs; Ok (k :: ks)
  end.
Definition key_rotation : read RegistryEvent :=
  values <- remove_list "new-keys";;
  new_keys <- st_lift (public_keys values);;
  new_address <- remove_principal "new-address";;
  new_aggregate_pubkey <- remove_buff "new-aggregate-pubkey";;
  new_signature_threshold <- remove_u128 "new-signature-threshold";;
  new_aggregate_pubkey <- st_lift (ok_or (pk_from_slice new_aggregate_pubkey) ClarityPublicKeyConversion);;
  new_signature_threshold <- st_lift (int_try_from 16 new_signature_threshold);;
  st_ret (EvKeyRotation (mkKeyRotation (txi_txid info) (txi_block_id info) new_keys new_address new_aggregate_pubkey new_signature_threshold)).

(** [RegistryEvent::try_new] *)
Definition event_of_topic (topic : string) : read RegistryEvent :=
  if bool_decide (topic = "completed-deposit") then completed_deposit
  else if bool_decide (topic = "withdrawal-accept") then withdrawal_accept
  else if bool_decide (topic = "withdrawal-create") then withdrawal_create
  else if bool_decide (topic = "withdrawal-reject") then withdrawal_reject
  else if bool_decide (topic = "key-rotation") then key_rotation
  else st_throw (ClarityUnexpectedEventTopic topic).
Definition try_new (value : ClarityValue) : outcome EventError RegistryEvent :=
  match value with
  | CvTuple m => (topic <- remove_string "topic";; event_of_topic topic) m
  | _ => ([], Err (ClarityUnexpectedValue value info))
  end.2.
End Events.

(** ** What the registry prints *)

(** The bytes of a literal of a contract. *)
Definition ascii_bytes (s : string) : list Z := map (fun c => Z.of_nat (nat_of_ascii c)) (String.list_ascii_of_string s).
(** [(print {...})] of [complete-deposit], [complete-withdrawal-accept],
    [complete-withdrawal-reject] and [rotate-keys], on the arguments that the signers'
    contract calls pass on to the registry; the registry computes the address of the
    new signers itself. *)
Definition registry_print (new_address : Principal) (c : ContractCall) : option ClarityValue :=
  match c with
  | CallCompleteDeposit c =>
      match complete_deposit_args c with
      | [txid; vout_index; amount; recipient; burn_hash; burn_height; sweep_txid] =>
          Some (CvTuple [("topic"%string, CvString (ascii_bytes "completed-deposit")); ("bitcoin-txid"%string, txid); ("output-index"%string, vout_index);
            ("amount"%string, amount); ("burn-hash"%string, burn_hash); ("burn-height"%string, burn_height); ("sweep-txid"%string, sweep_txid)])
      | _ => None
      end
  | CallAcceptWithdrawal c =>
      match accept_withdrawal_args c with
      | [request_id; bitcoin_txid; signer_bitmap; output_index; fee; burn_hash; burn_height; sweep_txid] =>
          Some (CvTuple [("topic"%string, CvString (ascii_bytes "withdrawal-accept")); ("request-id"%string, request_id); ("bitcoin-txid"%string, bitcoin_txid);
            ("signer-bitmap"%string, signer_bitmap); ("output-index"%string, output_index); ("fee"%string, fee); ("burn-hash"%string, burn_hash);
            ("burn-height"%string, burn_height); ("sweep-txid"%string, sweep_txid)])
      | _ => None
      end
  | CallRejectWithdrawal c =>
      match reject_withdrawal_args c with
      | [request_id; signer_bitmap] =>
          Some (CvTuple [("topic"%string, CvString (ascii_bytes "withdrawal-reject")); ("request-id"%string, request_id); ("signer-bitmap"%string, signer_bitmap)])
      | _ => None
      end
  | CallRotateKeys c =>
      match rotate_keys_args c with
      | [new_keys; new_aggregate_pubkey; new_signature_threshold] =>
          Some (CvTuple [("topic"%string, CvString (ascii_bytes "key-rotation")); ("new-keys"%string, new_keys); ("new-address"%string, CvPrincipal new_address);
            ("new-aggregate-pubkey"%string, new_aggregate_pubkey); ("new-signature-threshold"%string, new_signature_threshold)])
      | _ => None
      end
  end.
(** The event that reports a call. *)
Definition reported (info : TxInfo) (new_address : Principal) (c : ContractCall) : RegistryEvent :=
  match c with
  | CallCompleteDeposit c => EvCompletedDeposit (mkCompletedDeposit (txi_txid info) (txi_block_id info) (cdv_amount c) (cdv_outpoint c)
      (cdv_sweep_block_hash c) (cdv_sweep_block_height c) (cdv_sweep_txid c))
  | CallAcceptWithdrawal c => EvWithdrawalAccept (mkWithdrawalAccept (txi_txid info) (txi_block_id info) (q_request_id (aw_id c)) 0 (aw_outpoint c)
      (aw_tx_fee c) (aw_sweep_block_hash c) (aw_sweep_block_height c) (op_txid (aw_outpoint c)))
  | CallRejectWithdrawal c => EvWithdrawalReject (mkWithdrawalReject (txi_txid info) (txi_block_id info) (q_request_id (rj_id c)) 0)
  | CallRotateKeys c => EvKeyRotation (mkKeyRotation (txi_txid info) (txi_block_id info) (merge_sort Z.le (elements (rk_new_keys c))) new_address
      (rk_aggregate_key c) (rk_signatures_required c))
  end.
(** The fields of a call at their widths. *)
Definition call_in_range `{EventLib} (c : ContractCall) : Prop :=
  match c with
  | CallCompleteDeposit c => in_u 64 (cdv_amount c) /\ in_u 32 (op_vout (cdv_outpoint c)) /\ in_u 256 (op_txid (cdv_outpoint c)) /\
      in_u 256 (cdv_sweep_txid c) /\ in_u 256 (cdv_sweep_block_hash c) /\ in_u 64 (cdv_sweep_block_height c)
  | CallAcceptWithdrawal c => in_u 64 (q_request_id (aw_id c)) /\ in_u 32 (op_vout (aw_outpoint c)) /\ in_u 256 (op_txid (aw_outpoint c)) /\
      in_u 64 (aw_tx_fee c) /\ in_u 256 (aw_sweep_block_hash c) /\ in_u 64 (aw_sweep_block_height c)
  | CallRejectWithdrawal c => in_u 64 (q_request_id (rj_id c))
  | CallRotateKeys c => in_u 16 (rk_signatures_required c) /\ pk_valid (rk_aggregate_key c) /\ (forall k, k ∈ rk_new_keys c -> pk_valid k)
  end.
(** [PublicKey::from_slice] inverts [PublicKey::serialize]. *)
Class EventLaws `{EventLib} : Prop := pk_from_serialize k : pk_valid k -> pk_from_slice (pk_serialize k) = Some k.

Lemma le_value_bytes n : forall x, 0 <= x -> le_value (hash_le_bytes n x) = x mod 256 ^ Z.of_nat n.
Proof.
  induction n as [|n IH]; intros x Hx; cbn [hash_le_bytes le_value]; [change (256 ^ Z.of_nat 0) with 1; by rewrite Z.mod_1_r|].
  rewrite IH by (apply Z.div_pos; lia). rewrite Nat2Z.inj_succ, Z.pow_succ_r by lia. rewrite Z.rem_mul_r; [lia|lia|]. apply Z.pow_pos_nonneg; lia.
Qed.
Lemma length_hash_le_bytes n : forall x, length (hash_le_bytes n x) = n.
Proof. induction n as [|n IH]; intros x; cbn [hash_le_bytes length]; [done|]. by rewrite IH. Qed.
(** A hash is read back from the bytes of [to_le_bytes]. *)
Lemma hash_roundtrip x : in_u 256 x -> hash_from_buff (to_le_bytes x) = Ok x.
Proof.
  intros [Hlo Hhi]. unfold hash_from_buff, to_le_bytes. rewrite length_hash_le_bytes. change (32 =? 32)%nat with true. cbn iota. rewrite le_value_bytes by done.
  rewrite Z.mod_small; [done|]. split; [done|]. by change (256 ^ Z.of_nat 32) with (2 ^ 256).
Qed.
Lemma int_try_from_ok w x : in_u w x -> int_try_from w x = Ok x.
Proof. intros [Hlo Hhi]. unfold int_try_from. apply Z.leb_le in Hlo. apply Z.ltb_lt in Hhi. by rewrite Hlo, Hhi. Qed.
Lemma public_keys_serialized `{EventLaws} info ks : Forall pk_valid ks -> public_keys info (map (fun k => CvBuffer (pk_serialize k)) ks) = Ok ks.
Proof. induction 1 as [|k ks Hk _ IH]; cbn [map public_keys public_key]; [done|]. rewrite pk_from_serialize by done. oreduce. by rewrite IH. Qed.

(** Reading the fields of a printed tuple, with the conversions of the fields as
    hypotheses. *)
Ltac hash_read x := match goal with H : in_u 256 x |- _ => let E := fresh "E" in
  pose proof (hash_roundtrip x H) as E; revert E; generalize (to_le_bytes x); intros ? E; clear H end.
Ltac int_read := repeat match goal with H : in_u ?w ?x |- _ => apply int_try_from_ok in H end.
Ltac event_step := cbv -[hash_from_buff int_try_from public_keys pk_from_slice];
  repeat match goal with E : ?l = Ok _ |- context [?l] => rewrite E | E : ?l = Some _ |- context [?l] => rewrite E end.
Ltac event_read := int_read; repeat (event_step; try reflexivity).

Lemma registry_print_read `{EventLaws} info new_address c : call_in_range c -> exists v,
  registry_print new_address c = Some v /\ try_new info v = Ok (reported info new_address c).
Proof.
  destruct c as [c|c|c|c]; cbn [call_in_range]; intros Hr; (eexists; split; [unfold registry_print; reflexivity|]).
  - destruct c as [[txid vout] amount rec dep stx sbh sbt]. unfold reported. cbn [cdv_outpoint op_txid op_vout cdv_amount cdv_sweep_txid cdv_sweep_block_hash cdv_sweep_block_height cdv_recipient] in *.
    destruct Hr as (? & ? & ? & ? & ? & ?). hash_read txid. hash_read stx. hash_read sbh. event_read.
  - destruct c as [[rid rt rh] [txid vout] fee bm dep sbh sbt]. unfold reported. cbn [aw_id q_request_id aw_outpoint op_txid op_vout aw_tx_fee aw_sweep_block_hash aw_sweep_block_height] in *.
    destruct Hr as (? & ? & ? & ? & ? & ?). hash_read txid. hash_read sbh. event_read.
  - destruct c as [[rid rt rh] bm dep]. cbn [rj_id q_request_id] in *. event_read.
  - destruct c as [keys agg dep req]. cbn [rk_new_keys rk_aggregate_key rk_signatures_required] in *. destruct Hr as (Ht & Ha & Hk).
    assert (Forall pk_valid (merge_sort Z.le (elements keys))) as Hs.
    { apply Forall_forall. intros k Hin. apply Hk. rewrite merge_sort_Permutation in Hin. by apply elem_of_elements. }
    apply (public_keys_serialized info) in Hs. apply pk_from_serialize in Ha. unfold reported. cbn [rk_new_keys rk_aggregate_key rk_signatures_required].
    revert Hs Ha. generalize (pk_serialize agg) (merge_sort Z.le (elements keys)). intros b ks.
    generalize (map (fun k => CvBuffer (pk_serialize k)) ks). intros vs Hs Ha. event_read.
Qed.

(** C35: What the signers' contract calls cause is reported faithfully: the event that the
    registry prints for a call is read back as an event with the outpoint, the
    amounts, the request id and the sweep transaction and block of the call (for a key
    rotation its keys and threshold). *)
Theorem registry_events_report_calls `{EventLaws} info new_address c : call_in_range c -> exists v,
  registry_print new_address c = Some v /\ try_new info v = Ok (reported info new_address c).
Proof. intros Hr. by apply registry_print_read. Qed.

(** ** The types of the fields *)

(** A Clarity value as the node prints it: an unsigned integer has 128 bits, a buffer
    is made of bytes. *)
Definition field_ok (v : ClarityValue) : Prop :=
  match v with
  | CvUInt n => in_u 128 n
  | CvBuffer b => Forall (in_u 8) b
  | _ => True
  end.
Definition fields_ok (m : data_map) : Prop := Forall (fun p => field_ok p.2) m.
Definition value_ok (v : ClarityValue) : Prop := match v with CvTuple m => fields_ok m | _ => True end.
(** The fields of an event at the widths of its struct. *)
Definition event_typed (e : RegistryEvent) : Prop :=
  match e with
  | EvCompletedDeposit e => in_u 64 (ced_amount e) /\ in_u 256 (op_txid (ced_outpoint e)) /\ in_u 32 (op_vout (ced_outpoint e)) /\
      in_u 256 (ced_sweep_block_hash e) /\ in_u 64 (ced_sweep_block_height e) /\ in_u 256 (ced_sweep_txid e)
  | EvWithdrawalAccept e => in_u 64 (wae_request_id e) /\ in_u 128 (wae_signer_bitmap e) /\ in_u 256 (op_txid (wae_outpoint e)) /\
      in_u 32 (op_vout (wae_outpoint e)) /\ in_u 64 (wae_fee e) /\ in_u 256 (wae_sweep_block_hash e) /\ in_u 64 (wae_sweep_block_height e) /\
      in_u 256 (wae_sweep_txid e)
  | EvWithdrawalReject e => in_u 64 (wre_request_id e) /\ in_u 128 (wre_signer_bitmap e)
  | EvWithdrawalCreate e => in_u 64 (wce_request_id e) /\ in_u 64 (wce_amount e) /\ in_u 64 (wce_max_fee e) /\ in_u 64 (wce_block_height e)
  | EvKeyRotation e => in_u 16 (kre_new_signature_threshold e)
  end.

(** Reading from well-typed fields: no panic, and [Q] of what is read. *)
Definition reads {A} (m : st data_map EventError A) (Q : A -> Prop) : Prop :=
  triple fields_ok m (fun a s => Q a /\ fields_ok s) (fun _ _ => True).

Lemma map_remove_ok field m : fields_ok m ->
  fields_ok (map_remove field m).2 /\ match (map_remove field m).1 with Some v => field_ok v | None => True end.
Proof.
  intros Hm. induction Hm as [|[f v] m Hv Hm IH]; cbn [map_remove]; [split; [constructor|done]|]. case_bool_decide; [done|].
  destruct (map_remove field m) as [o m']. destruct IH as [IH1 IH2]. split; [by constructor|done].
Qed.
Lemma reads_remove_with {A} info (f : ClarityValue -> option (outcome EventError A)) field (Q : A -> Prop) :
  (forall v, field_ok v -> match f v with Some (Ok a) => Q a | Some (Err _) | None => True | _ => False end) -> reads (remove_with info f field) Q.
Proof.
  intros Hf m Hm. unfold remove_with. destruct (map_remove_ok field m Hm) as [Hm' Hv]. destruct (map_remove field m) as [[v|] m']; cbn in *; [|done].
  specialize (Hf v Hv). by destruct (f v) as [[]|].
Qed.
Lemma reads_u128 info field : reads (remove_u128 info field) (in_u 128).
Proof. apply reads_remove_with. by intros []. Qed.
Lemma reads_buff info field : reads (remove_buff info field) (Forall (in_u 8)).
Proof. apply reads_remove_with. by intros []. Qed.
Lemma reads_principal info field : reads (remove_principal info field) (fun _ => True).
Proof. apply reads_remove_with. by intros []. Qed.
Lemma reads_tuple info field : reads (remove_tuple info field) (fun _ => True).
Proof. apply reads_remove_with. by intros []. Qed.
Lemma reads_list info field : reads (remove_list info field) (fun _ => True).
Proof. apply reads_remove_with. by intros []. Qed.
Lemma reads_string info field : reads (remove_string info field) (fun _ => True).
Proof. apply reads_remove_with. intros [] Hv; try done. by destruct (from_utf8 ascii). Qed.
Lemma reads_bind {A B} (m : st data_map EventError A) (k : A -> st data_map EventError B) Q Q' :
  reads m Q' -> (forall a, Q' a -> reads (k a) Q) -> reads (st_bind m k) Q.
Proof. intros Hm Hk. eapply triple_bind; [exact Hm|]. intros a s [Ha Hs]. by apply Hk. Qed.
Lemma reads_ret {A} (a : A) (Q : A -> Prop) : Q a -> reads (st_ret a) Q.
Proof. intros Ha. by apply triple_ret. Qed.
Lemma reads_lift {A} (o : outcome EventError A) (Q : A -> Prop) : match o with Ok a => Q a | Err _ => True | _ => False end -> reads (st_lift o) Q.
Proof. intros Ho. apply triple_lift. intros s Hs. by destruct o. Qed.
Lemma reads_int w x : 0 <= w -> reads (st_lift (int_try_from w x)) (in_u w).
Proof.
  intros Hw. apply reads_lift. unfold int_try_from. destruct (0 <=? x) eqn:E1; [|done]. destruct (x <? 2 ^ w) eqn:E2; [|done].
  cbn. apply Z.leb_le in E1. apply Z.ltb_lt in E2. by split.
Qed.
Lemma le_value_range bytes : Forall (in_u 8) bytes -> 0 <= le_value bytes < 256 ^ Z.of_nat (length bytes).
Proof.
  induction 1 as [|b bytes [H1 H2] _ IH]; cbn [le_value length]; [done|]. rewrite Nat2Z.inj_succ, Z.pow_succ_r by lia.
  change (2 ^ 8) with 256 in H2. nia.
Qed.
Lemma reads_hash info field : reads (remove_hash info field) (in_u 256).
Proof.
  eapply reads_bind; [apply reads_buff|]. intros b Hb. apply reads_lift. unfold hash_from_buff. destruct (Nat.eqb_spec (length b) 32) as [E|]; [|done].
  apply le_value_range in Hb. rewrite E in Hb. by change (256 ^ Z.of_nat 32) with (2 ^ 256) in Hb.
Qed.
Lemma public_keys_total `{EventLib} info vs : match public_keys info vs with Ok _ | Err _ => True | _ => False end.
Proof.
  induction vs as [|v vs IH]; cbn [public_keys]; [done|]. destruct v; cbn [public_key]; try done. destruct (pk_from_slice data); [|done]. oreduce.
  by destruct (public_keys info vs).
Qed.
(** The layout of the scripts that the bitcoin crate makes. *)
Class ScriptLaws `{EventLib} : Prop := {
  new_p2pkh_layout : forall h, length h = 20%nat -> new_p2pkh h = p2pkh_script h;
  new_p2sh_layout : forall h, length h = 20%nat -> new_p2sh h = p2sh_script h;
  witness_script_layout : forall v h s, witness_script v h = Some s -> s = witness_program_script v h }.
(** The recipients that the registry's events name are standard scripts. *)
Lemma recipient_script_standard `{ScriptLaws} version hash_bytes s : recipient_script version hash_bytes = Ok s -> is_Some (standard_dust s).
Proof.
  assert (forall v d, standard_dust (witness_program_script v hash_bytes) = Some d ->
    ok_or (witness_script v hash_bytes) InvalidWitnessProgram = Ok s -> is_Some (standard_dust s)) as Hw.
  { intros v d Hd Hs. destruct (witness_script v hash_bytes) as [s'|] eqn:Hw; [|done]. injection Hs as <-.
    rewrite (witness_script_layout _ _ _ Hw), Hd. by eexists. }
  unfold recipient_script.
  destruct (Nat.eqb_spec (length hash_bytes) 20) as [H20|], (Nat.eqb_spec (length hash_bytes) 32) as [H32|]; [lia|..];
    repeat (case_bool_decide; cbn [andb]); try done; try congruence.
  - intros [= <-]. rewrite new_p2pkh_layout, standard_p2pkh by done. by eexists.
  - intros [= <-]. rewrite new_p2sh_layout, standard_p2sh by done. by eexists.
  - by eapply Hw, standard_witness_20.
  - eapply Hw, standard_witness_32; auto.
  - eapply Hw, standard_witness_32; auto.
Qed.
Lemma recipient_script_total `{EventLib} version hash_bytes : match recipient_script version hash_bytes with Ok _ | Err _ => True | _ => False end.
Proof. unfold recipient_script. repeat (case_bool_decide; cbn [andb]); repeat case_match; try done; by destruct (witness_script _ _). Qed.
Lemma remove_buff_total info field m : match (remove_buff info field m).2 with Ok _ | Err _ => True | _ => False end.
Proof. unfold remove_buff, remove_with. destruct (map_remove field m) as [[[]|] m']; done. Qed.
Lemma script_total `{EventLib} info m : match (try_into_script_pub_key info m).2 with Ok _ | Err _ => True | _ => False end.
Proof.
  unfold try_into_script_pub_key, st_bind. pose proof (remove_buff_total info "version" m) as Hv. destruct (remove_buff info "version" m) as [m' []]; cbn in *; try done.
  pose proof (remove_buff_total info "hashbytes" m') as Hh. destruct (remove_buff info "hashbytes" m') as [m'' []]; cbn in *; try done. apply recipient_script_total.
Qed.
Create HintDb event_reads.
#[export] Hint Resolve reads_u128 reads_buff reads_principal reads_tuple reads_list reads_string reads_hash : event_reads.
#[export] Hint Extern 1 (reads (st_lift (int_try_from _ _)) _) => apply reads_int; lia : event_reads.
Ltac reads_walk := repeat match goal with
  | |- reads (st_bind _ _) _ => eapply reads_bind; [solve [eauto with event_reads]|intros]
  | |- reads (st_ret _) _ => apply reads_ret; cbn; tauto
  end.
Lemma reads_event `{EventLib} info topic : reads (event_of_topic info topic) event_typed.
Proof.
  unfold event_of_topic. repeat case_bool_decide.
  - unfold completed_deposit. reads_walk.
  - unfold withdrawal_accept. reads_walk.
  - unfold withdrawal_create. reads_walk. eapply (reads_bind _ _ _ (fun _ => True)); [apply reads_lift; pose proof (script_total info a4)|intros; reads_walk].
    by destruct (try_into_script_pub_key _ _).2.
  - unfold withdrawal_reject. reads_walk.
  - unfold key_rotation. reads_walk. eapply (reads_bind _ _ _ (fun _ => True)); [apply reads_lift; pose proof (public_keys_total info a)|intros; reads_walk].
    { by destruct (public_keys info a). }
    eapply (reads_bind _ _ _ (fun _ => True)); [apply reads_lift|intros; reads_walk]. by destruct (pk_from_slice _).
  - by apply triple_throw.
Qed.

(** C39: Whatever the node prints, reading it as an event of the registry neither panics
    nor yields a field outside its type: amounts, fees, heights and request ids fit in
    64 bits, output indices in 32, thresholds in 16, and hashes have 32 bytes. *)
Theorem registry_event_typed `{EventLib} info v : value_ok v ->
  match try_new info v with Ok e => event_typed e | Err _ => True | _ => False end.
Proof.
  intros Hv. destruct v; cbn [try_new snd]; try done.
  assert (reads (topic <- remove_string info "topic";; event_of_topic info topic) event_typed) as Hr.
  { eapply reads_bind; [apply reads_string|]. intros topic _. apply reads_event. }
  specialize (Hr _ Hv). cbn beta in Hr. unfold try_new. destruct (st_bind _ _ _) as [s []]; cbn [snd] in *; [by destruct Hr|done..].
Qed.

(** ** Witnesses *)

Definition demo_lib : EventLib := {|
  new_p2pkh := p2pkh_script;
  new_p2sh := p2sh_script;
  witness_script v h := Some (witness_program_script v h);
  pk_from_slice b := Some (le_value (rev b));
  pk_valid := in_u 264 |}.
Lemma demo_script_laws : @ScriptLaws demo_lib.
Proof. constructor; try done. by intros v h s [= <-]. Qed.
Lemma event_demo_laws : @EventLaws demo_lib.
Proof.
  intros k [H1 H2]. cbn [pk_from_slice demo_lib]. unfold pk_serialize. rewrite rev_involutive, le_value_bytes by done.
  rewrite Z.mod_small; [done|]. by change (256 ^ Z.of_nat 33) with (2 ^ 264).
Qed.
Definition demo_tx : TxInfo := mkTxInfo 71 72.
Definition demo_deposit : CompleteDepositV1 := mkCompleteDeposit (mkOutPoint 3 1) 90000 [] 4 5 6 800000.
Lemma registry_events_report_calls_witness : exists v, registry_print [] (CallCompleteDeposit demo_deposit) = Some v /\
  @try_new demo_lib demo_tx v = Ok (EvCompletedDeposit (mkCompletedDeposit 71 72 90000 (mkOutPoint 3 1) 6 800000 5)).
Proof. apply (@registry_events_report_calls demo_lib event_demo_laws demo_tx [] (CallCompleteDeposit demo_deposit)). cbn. repeat split; vm_compute; congruence. Defined.
Lemma registry_event_typed_witness :
  match @try_new demo_lib demo_tx (CvTuple [("topic"%string, CvString (ascii_bytes "withdrawal-reject")); ("request-id"%string, CvUInt 7);
    ("signer-bitmap"%string, CvUInt 1)]) with Ok e => event_typed e | Err _ => True | _ => False end.
Proof. apply (@registry_event_typed demo_lib). repeat constructor; vm_compute; congruence. Defined.
