(* ===== verification/EmilyEntries.v ===== *)
(** Entries of the Emily API's tables: statuses, events, deposits and
    withdrawals with their histories, and the updates that extend them.

    Source: src/emily/handler/src/database/entries/{mod,deposit,withdrawal}.rs,
    api/models/{common/mod,chainstate}.rs, api/models/{deposit,withdrawal}/requests.rs.

    Identifiers, hashes and scripts of the API are texts and stay [string]s.
    Theorems: validation means that the indexed columns show the last event of
    the history; synchronising, updating and reorganising keep entries valid and
    their histories in chronological order. *)

From stdpp Require Import strings.
From S2P Require Import Prelude Types.

(** ** API models *)
Inductive DepositStatus := DsPending | DsAccepted | DsConfirmed | DsFailed | DsRbf.
#[global] Instance DepositStatus_eq_dec : EqDecision DepositStatus.
Proof. solve_decision. Defined.
Inductive WithdrawalStatus := WsPending | WsAccepted | WsConfirmed | WsFailed.
#[global] Instance WithdrawalStatus_eq_dec : EqDecision WithdrawalStatus.
Proof. solve_decision. Defined.

(** [DepositStatus::iter()], [WithdrawalStatus::iter()] *)
Definition deposit_statuses : list DepositStatus := [DsPending; DsAccepted; DsConfirmed; DsFailed; DsRbf].
Definition withdrawal_statuses : list WithdrawalStatus := [WsPending; WsAccepted; WsConfirmed; WsFailed].

Record Fulfillment := mkFulfillment {
  fu_bitcoin_txid : string;
  fu_bitcoin_tx_index : Z;
  fu_stacks_txid : string;
  fu_bitcoin_block_hash : string;
  fu_bitcoin_block_height : Z;
  fu_btc_fee : Z }.
#[global] Instance Fulfillment_eq_dec : EqDecision Fulfillment.
Proof. solve_decision. Defined.

Record Chainstate := mkChainstate {
  ch_stacks_block_hash : string;
  ch_stacks_block_height : Z;
  ch_bitcoin_block_height : option Z }.
#[global] Instance Chainstate_eq_dec : EqDecision Chainstate.
Proof. solve_decision. Defined.

Record ExpectedFulfillmentInfo := mkExpected {
  ef_bitcoin_block_height : option Z;
  ef_bitcoin_txid : option string }.
#[global] Instance ExpectedFulfillmentInfo_eq_dec : EqDecision ExpectedFulfillmentInfo.
Proof. solve_decision. Defined.

(** ** Keys *)
Record DepositEntryKey := mkDepositKey { dk_bitcoin_txid : string; dk_bitcoin_tx_output_index : Z }.
#[global] Instance DepositEntryKey_eq_dec : EqDecision DepositEntryKey.
Proof. solve_decision. Defined.
#[global] Program Instance DepositEntryKey_countable : Countable DepositEntryKey :=
  inj_countable' (fun k => (dk_bitcoin_txid k, dk_bitcoin_tx_output_index k)) (fun p => mkDepositKey p.1 p.2) _.
Next Obligation. by intros []. Qed.

Record WithdrawalEntryKey := mkWithdrawalKey { wk_request_id : Z; wk_stacks_block_hash : string }.
#[global] Instance WithdrawalEntryKey_eq_dec : EqDecision WithdrawalEntryKey.
Proof. solve_decision. Defined.
#[global] Program Instance WithdrawalEntryKey_countable : Countable WithdrawalEntryKey :=
  inj_countable' (fun k => (wk_request_id k, wk_stacks_block_hash k)) (fun p => mkWithdrawalKey p.1 p.2) _.
Next Obligation. by intros []. Qed.

(** [ValidationError] *)
Inductive ValidationError :=
| VeWithdrawalMissingFulfillment (request_id : Z)
| VeDepositMissingFulfillment (txid : string) (vout : Z)
| VeIncompleteWithdrawalLimitConfig
| VeInvalidReplacedByTxStatus (status : DepositStatus) (txid : string) (vout : Z)
| VeDepositMissingReplacementTx (txid : string) (vout : Z)
| VeWithdrawalFulfillmentNotConfirmed (status : WithdrawalStatus) (request_id : Z)
| VeDepositFulfillmentNotConfirmed (status : DepositStatus) (txid : string) (vout : Z).
#[global] Instance ValidationError_eq_dec : EqDecision ValidationError.
Proof. solve_decision. Defined.

(** ** Errors: the variants of [common::error::Error] that these parts return *)
Inductive EmilyError :=
| EeNotFound
| EeForbidden
| EeConflict
| EeInternalServer
| EeBadRequest (message : string)                      (* [HttpRequest(BAD_REQUEST, ..)] *)
| EeValidation (e : ValidationError)                   (* the same, with the text of [e] *)
| EeDeserialization (message : string)
| EeDynamo                                             (* [AwsSdkDynamoDb*]: a request that failed *)
| EeInvalidDepositEntry (reason : string) (key : DepositEntryKey)
| EeInvalidWithdrawalEntry (reason : string) (key : WithdrawalEntryKey)
| EeDepositOutputMismatch (entry update : DepositEntryKey)
| EeWithdrawalRequestIdMismatch (key : WithdrawalEntryKey) (request_id : Z)
| EeItemUpdate (reason : string)                       (* [Inconsistency::ItemUpdate] *)
| EeChainstates (conflicting : list Chainstate)        (* [Inconsistency::Chainstates] *)
| EeVersionConflict
| EeReorganizing (chaintip : Chainstate)
| EeTooManyInternalRetries
| EeMissingAttributesDeposit (key : DepositEntryKey)
| EeMissingAttributesWithdrawal (key : WithdrawalEntryKey)
| EeTooManyWithdrawalEntries (request_id : Z)
| EeTooManyThrottleEntries (hash : string).
#[global] Instance EmilyError_eq_dec : EqDecision EmilyError.
Proof. solve_decision. Defined.

(** ** Statuses of events *)
Inductive DepositStatusEntry :=
| DepositPending
| DepositAccepted
| DepositConfirmed (f : Fulfillment)
| DepositFailed
| DepositRbf (txid : string).
#[global] Instance DepositStatusEntry_eq_dec : EqDecision DepositStatusEntry.
Proof. solve_decision. Defined.
Inductive WithdrawalStatusEntry :=
| WithdrawalPending
| WithdrawalAccepted
| WithdrawalConfirmed (f : Fulfillment)
| WithdrawalFailed.
#[global] Instance WithdrawalStatusEntry_eq_dec : EqDecision WithdrawalStatusEntry.
Proof. solve_decision. Defined.

Definition deposit_status_from (s : DepositStatusEntry) : DepositStatus :=
  match s with
  | DepositPending => DsPending
  | DepositAccepted => DsAccepted
  | DepositConfirmed _ => DsConfirmed
  | DepositFailed => DsFailed
  | DepositRbf _ => DsRbf
  end.
Definition withdrawal_status_from (s : WithdrawalStatusEntry) : WithdrawalStatus :=
  match s with
  | WithdrawalPending => WsPending
  | WithdrawalAccepted => WsAccepted
  | WithdrawalConfirmed _ => WsConfirmed
  | WithdrawalFailed => WsFailed
  end.

(** ** Events *)

(** What both kinds of event have: the Stacks block that they are tied to, and
    the texts for an event that may not follow. *)
Class BlockEvent (E : Type) := {
  ev_height : E -> Z;
  ev_hash : E -> string;
  ev_earlier : string;
  ev_conflicts : string;
  #[global] ev_eq_dec :: EqDecision E }.

Record DepositEvent := mkDepositEvent {
  dv_status : DepositStatusEntry;
  dv_message : string;
  dv_stacks_block_height : Z;
  dv_stacks_block_hash : string }.
#[global] Instance DepositEvent_eq_dec : EqDecision DepositEvent.
Proof. solve_decision. Defined.
#[global] Instance deposit_event_block : BlockEvent DepositEvent :=
  {| ev_height := dv_stacks_block_height; ev_hash := dv_stacks_block_hash;
     ev_earlier := "Attempting to update a deposit with a block height earlier than it should be";
     ev_conflicts := "Attempting to update a deposit with a block height and hash that conflicts with its current history" |}.

Record WithdrawalEvent := mkWithdrawalEvent {
  wv_status : WithdrawalStatusEntry;
  wv_message : string;
  wv_stacks_block_height : Z;
  wv_stacks_block_hash : string;
  wv_expected_fulfillment_info : ExpectedFulfillmentInfo }.
#[global] Instance WithdrawalEvent_eq_dec : EqDecision WithdrawalEvent.
Proof. solve_decision. Defined.
#[global] Instance withdrawal_event_block : BlockEvent WithdrawalEvent :=
  {| ev_height := wv_stacks_block_height; ev_hash := wv_stacks_block_hash;
     ev_earlier := "Attempting to update a withdrawal with a block height earlier than it should be";
     ev_conflicts := "Attempting to update a withdrawal with a block height and hash that conflicts with the current history" |}.

(** [ensure_following_event_is_valid] *)
Definition ensure_following_event_is_valid `{BlockEvent E} (last next : E) : outcome EmilyError unit :=
  if ev_height next <? ev_height last then Err (EeItemUpdate (ev_earlier (E := E))) else
  if (ev_height last =? ev_height next) && negb (bool_decide (ev_hash last = ev_hash next))
  then Err (EeItemUpdate (ev_conflicts (E := E))) else Ok tt.

(** What [reorganize_around] retains of a history. *)
Definition survives_reorg `{BlockEvent E} (c : Chainstate) (e : E) : bool :=
  (ev_height e <? ch_stacks_block_height c) ||
  ((ch_stacks_block_height c =? ev_height e) && bool_decide (ch_stacks_block_hash c = ev_hash e)).

(** [is_unnecessary]: among the latest events, down to the first one below the
    height of the update, one equals the update. *)
Fixpoint take_while {A} (p : A -> bool) (l : list A) : list A :=
  match l with
  | [] => []
  | x :: l => if p x then x :: take_while p l else []
  end.
Definition in_recent_history `{BlockEvent E} (history : list E) (event : E) : bool :=
  existsb (fun e => bool_decide (e = event)) (take_while (fun e => ev_height event <=? ev_height e) (reverse history)).

(** ** Deposits *)
Record DepositParametersEntry := mkDepositParameters { dpm_max_fee : Z; dpm_lock_time : Z }.
#[global] Instance DepositParametersEntry_eq_dec : EqDecision DepositParametersEntry.
Proof. solve_decision. Defined.

Record DepositEntry := mkDepositEntry {
  de_key : DepositEntryKey;
  de_version : Z;
  de_recipient : string;
  de_amount : Z;
  de_parameters : DepositParametersEntry;
  de_status : DepositStatus;
  de_reclaim_script : string;
  de_deposit_script : string;
  de_last_update_height : Z;
  de_last_update_block_hash : string;
  de_fulfillment : option Fulfillment;
  de_history : list DepositEvent;
  de_reclaim_pubkeys_hash : option string;
  de_replaced_by_tx : option string }.
#[global] Instance DepositEntry_eq_dec : EqDecision DepositEntry.
Proof. solve_decision. Defined.

Definition de_set_history (v : list DepositEvent) (e : DepositEntry) : DepositEntry :=
  mkDepositEntry (de_key e) (de_version e) (de_recipient e) (de_amount e) (de_parameters e) (de_status e) (de_reclaim_script e)
    (de_deposit_script e) (de_last_update_height e) (de_last_update_block_hash e) (de_fulfillment e) v (de_reclaim_pubkeys_hash e)
    (de_replaced_by_tx e).
Definition de_set_version (v : Z) (e : DepositEntry) : DepositEntry :=
  mkDepositEntry (de_key e) v (de_recipient e) (de_amount e) (de_parameters e) (de_status e) (de_reclaim_script e)
    (de_deposit_script e) (de_last_update_height e) (de_last_update_block_hash e) (de_fulfillment e) (de_history e)
    (de_reclaim_pubkeys_hash e) (de_replaced_by_tx e).

Definition deposit_latest_event (e : DepositEntry) : outcome EmilyError DepositEvent :=
  ok_or (last (de_history e)) (EeInvalidDepositEntry "Deposit entry must always have at least one event but did not" (de_key e)).

Definition deposit_validate (e : DepositEntry) : outcome EmilyError unit :=
  latest ← deposit_latest_event e;
  if negb (bool_decide (de_last_update_block_hash e = dv_stacks_block_hash latest))
  then Err (EeInvalidDepositEntry "last update block hash is inconsistent between history and top level data" (de_key e)) else
  if negb (de_last_update_height e =? dv_stacks_block_height latest)
  then Err (EeInvalidDepositEntry "last update block height is inconsistent between history and top level data" (de_key e)) else
  if negb (bool_decide (de_status e = deposit_status_from (dv_status latest)))
  then Err (EeInvalidDepositEntry "most recent status is inconsistent between history and top level data" (de_key e)) else
  Ok tt.

Definition fulfillment_of (s : DepositStatusEntry) : option Fulfillment :=
  match s with DepositConfirmed f => Some f | _ => None end.
Definition replacement_of (s : DepositStatusEntry) : option string :=
  match s with DepositRbf t => Some t | _ => None end.

Definition deposit_synchronize_with_history (e : DepositEntry) : outcome EmilyError DepositEntry :=
  latest ← deposit_latest_event e;
  let status := deposit_status_from (dv_status latest) in
  Ok (mkDepositEntry (de_key e) (de_version e) (de_recipient e) (de_amount e) (de_parameters e) status (de_reclaim_script e)
        (de_deposit_script e) (dv_stacks_block_height latest) (dv_stacks_block_hash latest)
        (if bool_decide (status = DsConfirmed) then fulfillment_of (dv_status latest) else None) (de_history e)
        (de_reclaim_pubkeys_hash e)
        (if bool_decide (status = DsRbf) then replacement_of (dv_status latest) else None)).

Definition deposit_reorganize_around (c : Chainstate) (e : DepositEntry) : outcome EmilyError DepositEntry :=
  let history := List.filter (survives_reorg c) (de_history e) in
  let history := match history with
    | [] => [mkDepositEvent DepositPending "Reprocessing deposit status after reorg." (ch_stacks_block_height c) (ch_stacks_block_hash c)]
    | _ => history
    end in
  deposit_synchronize_with_history (de_set_history history e).

(** [Deposit::try_from(entry)] *)
Record Deposit := mkDeposit {
  dp_bitcoin_txid : string;
  dp_bitcoin_tx_output_index : Z;
  dp_recipient : string;
  dp_amount : Z;
  dp_last_update_height : Z;
  dp_last_update_block_hash : string;
  dp_status : DepositStatus;
  dp_status_message : string;
  dp_max_fee : Z;
  dp_lock_time : Z;
  dp_reclaim_script : string;
  dp_deposit_script : string;
  dp_fulfillment : option Fulfillment;
  dp_replaced_by_tx : option string }.
Definition deposit_try_from (e : DepositEntry) : outcome EmilyError Deposit :=
  _ ← deposit_validate e;
  latest ← deposit_latest_event e;
  Ok (mkDeposit (dk_bitcoin_txid (de_key e)) (dk_bitcoin_tx_output_index (de_key e)) (de_recipient e) (de_amount e)
        (de_last_update_height e) (de_last_update_block_hash e) (deposit_status_from (dv_status latest)) (dv_message latest)
        (dpm_max_fee (de_parameters e)) (dpm_lock_time (de_parameters e)) (de_reclaim_script e) (de_deposit_script e)
        (fulfillment_of (dv_status latest)) (replacement_of (dv_status latest))).

Record ValidatedDepositUpdate := mkValidatedDepositUpdate { vdu_key : DepositEntryKey; vdu_event : DepositEvent }.
Definition deposit_is_unnecessary (u : ValidatedDepositUpdate) (e : DepositEntry) : bool :=
  in_recent_history (de_history e) (vdu_event u).

Record DepositUpdatePackage := mkDepositUpdatePackage { dup_key : DepositEntryKey; dup_version : Z; dup_event : DepositEvent }.
Definition deposit_package_try_from (e : DepositEntry) (u : ValidatedDepositUpdate) : outcome EmilyError DepositUpdatePackage :=
  if negb (bool_decide (vdu_key u = de_key e)) then Err (EeDepositOutputMismatch (de_key e) (vdu_key u)) else
  latest ← deposit_latest_event e;
  _ ← ensure_following_event_is_valid latest (vdu_event u);
  Ok (mkDepositUpdatePackage (de_key e) (de_version e) (vdu_event u)).

(** The update expression of [update_deposit]. *)
Definition deposit_apply (p : DepositUpdatePackage) (e : DepositEntry) : DepositEntry :=
  mkDepositEntry (de_key e) (de_version e + 1) (de_recipient e) (de_amount e) (de_parameters e)
    (deposit_status_from (dv_status (dup_event p))) (de_reclaim_script e) (de_deposit_script e)
    (dv_stacks_block_height (dup_event p)) (dv_stacks_block_hash (dup_event p)) (de_fulfillment e)
    (de_history e ++ [dup_event p]) (de_reclaim_pubkeys_hash e) (de_replaced_by_tx e).

(** ** Withdrawals *)
Record WithdrawalEntry := mkWithdrawalEntry {
  we_key : WithdrawalEntryKey;
  we_stacks_block_height : Z;
  we_version : Z;
  we_recipient : string;
  we_sender : string;
  we_amount : Z;
  we_max_fee : Z;                                        (* [WithdrawalParametersEntry] *)
  we_status : WithdrawalStatus;
  we_last_update_height : Z;
  we_last_update_block_hash : string;
  we_txid : string;
  we_history : list WithdrawalEvent }.
#[global] Instance WithdrawalEntry_eq_dec : EqDecision WithdrawalEntry.
Proof. solve_decision. Defined.

Definition we_set_history (v : list WithdrawalEvent) (e : WithdrawalEntry) : WithdrawalEntry :=
  mkWithdrawalEntry (we_key e) (we_stacks_block_height e) (we_version e) (we_recipient e) (we_sender e) (we_amount e) (we_max_fee e)
    (we_status e) (we_last_update_height e) (we_last_update_block_hash e) (we_txid e) v.
Definition we_set_version (v : Z) (e : WithdrawalEntry) : WithdrawalEntry :=
  mkWithdrawalEntry (we_key e) (we_stacks_block_height e) v (we_recipient e) (we_sender e) (we_amount e) (we_max_fee e)
    (we_status e) (we_last_update_height e) (we_last_update_block_hash e) (we_txid e) (we_history e).

Definition withdrawal_latest_event (e : WithdrawalEntry) : outcome EmilyError WithdrawalEvent :=
  ok_or (last (we_history e))
    (EeInvalidWithdrawalEntry "Withdrawal entry must always have at least one event, but did not" (we_key e)).

Definition withdrawal_validate (e : WithdrawalEntry) : outcome EmilyError unit :=
  latest ← withdrawal_latest_event e;
  if negb (bool_decide (we_last_update_block_hash e = wv_stacks_block_hash latest))
  then Err (EeInvalidWithdrawalEntry "last update block hash is inconsistent between history and top level data" (we_key e)) else
  if negb (we_last_update_height e =? wv_stacks_block_height latest)
  then Err (EeInvalidWithdrawalEntry "last update block height is inconsistent between history and top level data" (we_key e)) else
  if negb (bool_decide (we_status e = withdrawal_status_from (wv_status latest)))
  then Err (EeInvalidWithdrawalEntry "most recent status is inconsistent between history and top level data" (we_key e)) else
  Ok tt.

Definition withdrawal_synchronize_with_history (e : WithdrawalEntry) : outcome EmilyError WithdrawalEntry :=
  latest ← withdrawal_latest_event e;
  Ok (mkWithdrawalEntry (we_key e) (we_stacks_block_height e) (we_version e) (we_recipient e) (we_sender e) (we_amount e) (we_max_fee e)
        (withdrawal_status_from (wv_status latest)) (wv_stacks_block_height latest) (wv_stacks_block_hash latest) (we_txid e)
        (we_history e)).

Definition withdrawal_reorganize_around (c : Chainstate) (e : WithdrawalEntry) : outcome EmilyError WithdrawalEntry :=
  let history := List.filter (survives_reorg c) (we_history e) in
  let history := match history with
    | [] => [mkWithdrawalEvent WithdrawalPending "Reprocessing withdrawal status after reorg." (ch_stacks_block_height c)
               (ch_stacks_block_hash c) (mkExpected None None)]
    | _ => history
    end in
  withdrawal_synchronize_with_history (we_set_history history e).

(** [Withdrawal::try_from(entry)] *)
Record Withdrawal := mkWithdrawal {
  wd_request_id : Z;
  wd_stacks_block_hash : string;
  wd_stacks_block_height : Z;
  wd_recipient : string;
  wd_sender : string;
  wd_amount : Z;
  wd_last_update_height : Z;
  wd_last_update_block_hash : string;
  wd_status : WithdrawalStatus;
  wd_status_message : string;
  wd_max_fee : Z;
  wd_txid : string;
  wd_fulfillment : option Fulfillment;
  wd_expected_fulfillment_info : ExpectedFulfillmentInfo }.
Definition withdrawal_try_from (e : WithdrawalEntry) : outcome EmilyError Withdrawal :=
  _ ← withdrawal_validate e;
  latest ← withdrawal_latest_event e;
  Ok (mkWithdrawal (wk_request_id (we_key e)) (wk_stacks_block_hash (we_key e)) (we_stacks_block_height e) (we_recipient e)
        (we_sender e) (we_amount e) (we_last_update_height e) (we_last_update_block_hash e)
        (withdrawal_status_from (wv_status latest)) (wv_message latest) (we_max_fee e) (we_txid e)
        (match wv_status latest with WithdrawalConfirmed f => Some f | _ => None end) (wv_expected_fulfillment_info latest)).

Record ValidatedWithdrawalUpdate := mkValidatedWithdrawalUpdate { vwu_request_id : Z; vwu_event : WithdrawalEvent }.
Definition withdrawal_is_unnecessary (u : ValidatedWithdrawalUpdate) (e : WithdrawalEntry) : bool :=
  in_recent_history (we_history e) (vwu_event u).

Record WithdrawalUpdatePackage := mkWithdrawalUpdatePackage { wup_key : WithdrawalEntryKey; wup_version : Z; wup_event : WithdrawalEvent }.
Definition set_expected (i : ExpectedFulfillmentInfo) (e : WithdrawalEvent) : WithdrawalEvent :=
  mkWithdrawalEvent (wv_status e) (wv_message e) (wv_stacks_block_height e) (wv_stacks_block_hash e) i.
Definition option_or {A} (a b : option A) : option A := match a with Some _ => a | None => b end.
Definition withdrawal_package_try_from (e : WithdrawalEntry) (u : ValidatedWithdrawalUpdate) : outcome EmilyError WithdrawalUpdatePackage :=
  if negb (vwu_request_id u =? wk_request_id (we_key e)) then Err (EeWithdrawalRequestIdMismatch (we_key e) (vwu_request_id u)) else
  latest ← withdrawal_latest_event e;
  _ ← ensure_following_event_is_valid latest (vwu_event u);
  let old := wv_expected_fulfillment_info latest in
  let new := wv_expected_fulfillment_info (vwu_event u) in
  Ok (mkWithdrawalUpdatePackage (we_key e) (we_version e)
        (set_expected (mkExpected (ef_bitcoin_block_height old) (option_or (ef_bitcoin_txid new) (ef_bitcoin_txid old))) (vwu_event u))).

(** The update expression of [update_withdrawal]. *)
Definition withdrawal_apply (p : WithdrawalUpdatePackage) (e : WithdrawalEntry) : WithdrawalEntry :=
  mkWithdrawalEntry (we_key e) (we_stacks_block_height e) (we_version e + 1) (we_recipient e) (we_sender e) (we_amount e) (we_max_fee e)
    (withdrawal_status_from (wv_status (wup_event p))) (wv_stacks_block_height (wup_event p)) (wv_stacks_block_hash (wup_event p))
    (we_txid e) (we_history e ++ [wup_event p]).

(** ** Histories *)
Section History.
Context `{BlockEvent E}.
Implicit Types (a b : E) (l : list E).

(** [b] may follow [a]: it is tied to a later block, or to the same one. *)
Definition may_follow a b : Prop := ev_height a < ev_height b \/ (ev_height a = ev_height b /\ ev_hash a = ev_hash b).
Definition chronological l : Prop := StronglySorted may_follow l.

#[global] Instance may_follow_trans : Transitive may_follow.
Proof. unfold may_follow. intros a b c [Hab|[Hab Hh]] [Hbc|[Hbc Hh']]; [left; lia..|]. right. split; [lia|congruence]. Qed.

Lemma ensure_following_iff a b : ensure_following_event_is_valid a b = Ok tt <-> may_follow a b.
Proof.
  unfold ensure_following_event_is_valid, may_follow. zcase; [split; [done|lia]|]. destruct (Z.eqb_spec (ev_height a) (ev_height b)); cbn [andb].
  - case_bool_decide; cbn [negb]; split; try done; try (intros; by right); lia || naive_solver lia.
  - split; [intros _; left; lia|done].
Qed.
Lemma ensure_following_ok a b u : ensure_following_event_is_valid a b = Ok u -> may_follow a b.
Proof. destruct u. apply ensure_following_iff. Qed.

Lemma chronological_snoc l a b : chronological l -> last l = Some a -> may_follow a b -> chronological (l ++ [b]).
Proof.
  intros Hl Hlast Hab. apply last_Some in Hlast as [k ->]. unfold chronological in *. apply StronglySorted_app. split_and!; [|done|by repeat constructor].
  intros x y Hx ->%list_elem_of_singleton. apply elem_of_app in Hx as [Hx| ->%list_elem_of_singleton]; [|done].
  apply StronglySorted_app in Hl as [Hl _]. transitivity a; [|done]. apply Hl; [done|left].
Qed.
Lemma chronological_filter p l : chronological l -> chronological (List.filter p l).
Proof.
  intros Hl. apply (StronglySorted_sublist _ _ l); [|done]. clear Hl. induction l as [|a l IH]; cbn; [done|].
  destruct (p a); by constructor.
Qed.

Lemma survives_iff c a : survives_reorg c a = true <->
  ev_height a < ch_stacks_block_height c \/ (ev_height a = ch_stacks_block_height c /\ ev_hash a = ch_stacks_block_hash c).
Proof.
  unfold survives_reorg. rewrite orb_true_iff, andb_true_iff, Z.ltb_lt, Z.eqb_eq, bool_decide_eq_true. naive_solver.
Qed.
(** What comes before a surviving event survives. *)
Lemma survives_before c a b : may_follow a b -> survives_reorg c b = true -> survives_reorg c a = true.
Proof. rewrite !survives_iff. unfold may_follow. intros [Hab|[Hab Hh]] [Hb|[Hb Hh']]; [left; lia..|]. right. split; [lia|congruence]. Qed.

(** A history that ends below the tip, or in its block, is kept whole. *)
Lemma filter_survives_all c l : chronological l -> (forall a, last l = Some a -> survives_reorg c a = true) -> List.filter (survives_reorg c) l = l.
Proof.
  intros Hl Hlast. destruct (last l) as [z|] eqn:Hz; [|by apply last_None in Hz as ->]. specialize (Hlast z eq_refl).
  apply last_Some in Hz as [k ->]. unfold chronological in Hl. apply StronglySorted_app in Hl as [Hk _].
  assert (forall a, a ∈ k ++ [z] -> survives_reorg c a = true) as Hall.
  { intros a [Ha| ->%list_elem_of_singleton]%elem_of_app; [|done]. apply (survives_before c a z); [apply Hk; [done|left]|done]. }
  generalize (k ++ [z]) Hall. clear. intros l Hall. induction l as [|a l IH]; cbn; [done|]. rewrite Hall by left. f_equal. apply IH. intros b Hb. apply Hall. by right.
Qed.
(** The survivors of a chronological history are its beginning. *)
Lemma filter_survives_prefix c l : chronological l -> List.filter (survives_reorg c) l `prefix_of` l.
Proof.
  induction l as [|a l IH]; intros Hl; cbn; [done|]. apply StronglySorted_cons in Hl as [Ha Hl]. destruct (survives_reorg c a) eqn:Hs.
  - apply prefix_cons. by apply IH.
  - assert (List.filter (survives_reorg c) l = []) as ->; [|apply prefix_nil]. rewrite Forall_forall in Ha. clear IH Hl.
    induction l as [|b l IH]; cbn; [done|]. destruct (survives_reorg c b) eqn:Hb; [|apply IH; intros x Hx; apply Ha; by right].
    exfalso. rewrite (survives_before c a b) in Hs; [done|apply Ha; left|done].
Qed.
End History.
#[global] Hint Resolve chronological_filter : core.

(** ** Valid entries *)
Definition deposit_shows (e : DepositEntry) (v : DepositEvent) : Prop :=
  de_last_update_block_hash e = dv_stacks_block_hash v /\ de_last_update_height e = dv_stacks_block_height v /\
  de_status e = deposit_status_from (dv_status v).
Definition withdrawal_shows (e : WithdrawalEntry) (v : WithdrawalEvent) : Prop :=
  we_last_update_block_hash e = wv_stacks_block_hash v /\ we_last_update_height e = wv_stacks_block_height v /\
  we_status e = withdrawal_status_from (wv_status v).

Lemma deposit_validate_iff e : deposit_validate e = Ok tt <-> exists v, last (de_history e) = Some v /\ deposit_shows e v.
Proof.
  unfold deposit_validate, deposit_latest_event, deposit_shows. destruct (last (de_history e)) as [v|]; oreduce; [|split; [done|by intros (? & ? & _)]].
  repeat (case_bool_decide; cbn [negb]); destruct (Z.eqb_spec (de_last_update_height e) (dv_stacks_block_height v)); cbn [negb]; split; try done; naive_solver.
Qed.
Lemma withdrawal_validate_iff e : withdrawal_validate e = Ok tt <-> exists v, last (we_history e) = Some v /\ withdrawal_shows e v.
Proof.
  unfold withdrawal_validate, withdrawal_latest_event, withdrawal_shows. destruct (last (we_history e)) as [v|]; oreduce; [|split; [done|by intros (? & ? & _)]].
  repeat (case_bool_decide; cbn [negb]); destruct (Z.eqb_spec (we_last_update_height e) (wv_stacks_block_height v)); cbn [negb]; split; try done; naive_solver.
Qed.

(** What the tables hold: entries that pass [validate], with a chronological
    history. *)
Definition deposit_ok (e : DepositEntry) : Prop := deposit_validate e = Ok tt /\ chronological (de_history e).
Definition withdrawal_ok (e : WithdrawalEntry) : Prop := withdrawal_validate e = Ok tt /\ chronological (we_history e).

Lemma deposit_apply_ok e u p : deposit_ok e -> deposit_package_try_from e u = Ok p -> deposit_ok (deposit_apply p e) /\ dup_event p = vdu_event u /\
  dup_key p = de_key e /\ dup_version p = de_version e /\ vdu_key u = de_key e.
Proof.
  intros [_ Hc]. unfold deposit_package_try_from, deposit_latest_event. case_bool_decide as Hk; cbn [negb]; [|done].
  intros (v & Hv%ok_or_ok & (x & Hf%ensure_following_ok & [= <-])%bind_ok_inv)%bind_ok_inv. cbn. split_and!; try done. split.
  - apply deposit_validate_iff. exists (vdu_event u). cbn. by rewrite last_snoc.
  - by apply (chronological_snoc _ v).
Qed.
Lemma withdrawal_apply_ok e u p : withdrawal_ok e -> withdrawal_package_try_from e u = Ok p -> withdrawal_ok (withdrawal_apply p e) /\
  wup_key p = we_key e /\ wup_version p = we_version e /\ wv_status (wup_event p) = wv_status (vwu_event u) /\ vwu_request_id u = wk_request_id (we_key e).
Proof.
  intros [_ Hc]. unfold withdrawal_package_try_from, withdrawal_latest_event. zcase; cbn [negb]; [|done].
  intros (v & Hv%ok_or_ok & (x & Hf%ensure_following_ok & [= <-])%bind_ok_inv)%bind_ok_inv. cbn. split_and!; try done. split.
  - apply withdrawal_validate_iff. exists (set_expected (mkExpected (ef_bitcoin_block_height (wv_expected_fulfillment_info v))
      (option_or (ef_bitcoin_txid (wv_expected_fulfillment_info (vwu_event u))) (ef_bitcoin_txid (wv_expected_fulfillment_info v)))) (vwu_event u)).
    cbn. by rewrite last_snoc.
  - by apply (chronological_snoc _ v).
Qed.

(** The event of an entry that lost its whole history. *)
Definition reorg_deposit_event (c : Chainstate) : DepositEvent :=
  mkDepositEvent DepositPending "Reprocessing deposit status after reorg." (ch_stacks_block_height c) (ch_stacks_block_hash c).
Definition reorg_withdrawal_event (c : Chainstate) : WithdrawalEvent :=
  mkWithdrawalEvent WithdrawalPending "Reprocessing withdrawal status after reorg." (ch_stacks_block_height c) (ch_stacks_block_hash c) (mkExpected None None).

Definition or_else {A} (l : list A) (a : A) : list A := match l with [] => [a] | _ => l end.
Lemma or_else_last {A} l (a : A) : is_Some (last (or_else l a)).
Proof. destruct l as [|x l]; [by eexists|]. cbn [or_else]. apply last_is_Some. done. Qed.

Lemma deposit_reorganize_spec c e : chronological (de_history e) -> exists e', deposit_reorganize_around c e = Ok e' /\ deposit_ok e' /\
  de_key e' = de_key e /\ de_version e' = de_version e /\ de_history e' = or_else (List.filter (survives_reorg c) (de_history e)) (reorg_deposit_event c).
Proof.
  intros Hc. unfold deposit_reorganize_around. cbv zeta. fold (reorg_deposit_event c).
  change (match List.filter (survives_reorg c) (de_history e) with [] => [reorg_deposit_event c] | d :: l => List.filter (survives_reorg c) (de_history e) end)
    with (or_else (List.filter (survives_reorg c) (de_history e)) (reorg_deposit_event c)).
  set (h := or_else _ _). assert (chronological h) as Hh. { unfold h. destruct (List.filter _ _) eqn:Hf; [by repeat constructor|]. cbn. rewrite <- Hf. auto. }
  destruct (or_else_last (List.filter (survives_reorg c) (de_history e)) (reorg_deposit_event c)) as [v Hv]. fold h in Hv.
  unfold deposit_synchronize_with_history, deposit_latest_event. cbn [de_set_history de_history]. rewrite Hv. oreduce. eexists. split; [done|].
  split_and!; try done. split; [|done]. apply deposit_validate_iff. by exists v.
Qed.
Lemma withdrawal_reorganize_spec c e : chronological (we_history e) -> exists e', withdrawal_reorganize_around c e = Ok e' /\ withdrawal_ok e' /\
  we_key e' = we_key e /\ we_version e' = we_version e /\ we_history e' = or_else (List.filter (survives_reorg c) (we_history e)) (reorg_withdrawal_event c).
Proof.
  intros Hc. unfold withdrawal_reorganize_around. cbv zeta. fold (reorg_withdrawal_event c).
  change (match List.filter (survives_reorg c) (we_history e) with [] => [reorg_withdrawal_event c] | d :: l => List.filter (survives_reorg c) (we_history e) end)
    with (or_else (List.filter (survives_reorg c) (we_history e)) (reorg_withdrawal_event c)).
  set (h := or_else _ _). assert (chronological h) as Hh. { unfold h. destruct (List.filter _ _) eqn:Hf; [by repeat constructor|]. cbn. rewrite <- Hf. auto. }
  destruct (or_else_last (List.filter (survives_reorg c) (we_history e)) (reorg_withdrawal_event c)) as [v Hv]. fold h in Hv.
  unfold withdrawal_synchronize_with_history, withdrawal_latest_event. cbn [we_set_history we_history]. rewrite Hv. oreduce. eexists. split; [done|].
  split_and!; try done. split; [|done]. apply withdrawal_validate_iff. by exists v.
Qed.

(** ** Updates of requests *)
Record DepositUpdate := mkDepositUpdate {
  du_bitcoin_txid : string;
  du_bitcoin_tx_output_index : Z;
  du_status : DepositStatus;
  du_status_message : string;
  du_fulfillment : option Fulfillment;
  du_replaced_by_tx : option string }.

Definition try_into_validated_deposit_update (u : DepositUpdate) (c : Chainstate) : outcome ValidationError ValidatedDepositUpdate :=
  let key := mkDepositKey (du_bitcoin_txid u) (du_bitcoin_tx_output_index u) in
  if negb (bool_decide (du_status u = DsRbf)) && bool_decide (is_Some (du_replaced_by_tx u))
  then Err (VeInvalidReplacedByTxStatus (du_status u) (du_bitcoin_txid u) (du_bitcoin_tx_output_index u)) else
  if negb (bool_decide (du_status u = DsConfirmed)) && bool_decide (is_Some (du_fulfillment u))
  then Err (VeDepositFulfillmentNotConfirmed (du_status u) (du_bitcoin_txid u) (du_bitcoin_tx_output_index u)) else
  status_entry ← match du_status u with
    | DsConfirmed =>
        f ← ok_or (du_fulfillment u) (VeDepositMissingFulfillment (du_bitcoin_txid u) (du_bitcoin_tx_output_index u));
        Ok (DepositConfirmed f)
    | DsAccepted => Ok DepositAccepted
    | DsPending => Ok DepositPending
    | DsFailed => Ok DepositFailed
    | DsRbf =>
        t ← ok_or (du_replaced_by_tx u) (VeDepositMissingReplacementTx (du_bitcoin_txid u) (du_bitcoin_tx_output_index u));
        Ok (DepositRbf t)
    end;
  Ok (mkValidatedDepositUpdate key
        (mkDepositEvent status_entry (du_status_message u) (ch_stacks_block_height c) (ch_stacks_block_hash c))).

Record WithdrawalUpdate := mkWithdrawalUpdate {
  wu_request_id : Z;
  wu_status : WithdrawalStatus;
  wu_status_message : string;
  wu_fulfillment : option Fulfillment;
  wu_expected_fulfillment_info : option ExpectedFulfillmentInfo }.

Definition try_into_validated_withdrawal_update (u : WithdrawalUpdate) (c : Chainstate) : outcome ValidationError ValidatedWithdrawalUpdate :=
  if negb (bool_decide (wu_status u = WsConfirmed)) && bool_decide (is_Some (wu_fulfillment u))
  then Err (VeWithdrawalFulfillmentNotConfirmed (wu_status u) (wu_request_id u)) else
  status_entry ← match wu_status u with
    | WsConfirmed => f ← ok_or (wu_fulfillment u) (VeWithdrawalMissingFulfillment (wu_request_id u)); Ok (WithdrawalConfirmed f)
    | WsAccepted => Ok WithdrawalAccepted
    | WsPending => Ok WithdrawalPending
    | WsFailed => Ok WithdrawalFailed
    end;
  Ok (mkValidatedWithdrawalUpdate (wu_request_id u)
        (mkWithdrawalEvent status_entry (wu_status_message u) (ch_stacks_block_height c) (ch_stacks_block_hash c)
           (default (mkExpected None None) (wu_expected_fulfillment_info u)))).

(** [into_validated_update_request]: the updates with their positions, sorted by
    the height of their events, the invalid ones last. *)
Definition update_order {V} (height : V -> Z) (x : Z * outcome ValidationError V) : okey :=
  [[match x.2 with Ok v => height v | _ => u64_max end]].
Definition deposits_into_validated (us : list DepositUpdate) (c : Chainstate) : list (Z * outcome ValidationError ValidatedDepositUpdate) :=
  sort_by_key (update_order (fun v => dv_stacks_block_height (vdu_event v)))
    (map (fun x => (x.1, try_into_validated_deposit_update x.2 c)) (enumerate us)).
Definition withdrawals_into_validated (us : list WithdrawalUpdate) (c : Chainstate) : list (Z * outcome ValidationError ValidatedWithdrawalUpdate) :=
  sort_by_key (update_order (fun v => wv_stacks_block_height (vwu_event v)))
    (map (fun x => (x.1, try_into_validated_withdrawal_update x.2 c)) (enumerate us)).

(** *** A valid update carries what its status needs, and nothing else *)
Lemma deposit_update_valid_iff u c v : try_into_validated_deposit_update u c = Ok v <->
  vdu_key v = mkDepositKey (du_bitcoin_txid u) (du_bitcoin_tx_output_index u) /\
  dv_message (vdu_event v) = du_status_message u /\ dv_stacks_block_height (vdu_event v) = ch_stacks_block_height c /\
  dv_stacks_block_hash (vdu_event v) = ch_stacks_block_hash c /\
  deposit_status_from (dv_status (vdu_event v)) = du_status u /\
  fulfillment_of (dv_status (vdu_event v)) = du_fulfillment u /\
  replacement_of (dv_status (vdu_event v)) = du_replaced_by_tx u.
Proof.
  destruct u as [t i s m f r], v as [k [s' m' h h']]. unfold try_into_validated_deposit_update. cbn.
  split.
  - destruct s, f, r; cbn; intros [=]; subst; naive_solver.
  - intros (-> & -> & -> & -> & Hs & Hf & Hr). destruct s', s; cbn in *; try done; subst; done.
Qed.
Lemma withdrawal_update_valid u c v : try_into_validated_withdrawal_update u c = Ok v ->
  vwu_request_id v = wu_request_id u /\ withdrawal_status_from (wv_status (vwu_event v)) = wu_status u /\
  wv_stacks_block_height (vwu_event v) = ch_stacks_block_height c /\ wv_stacks_block_hash (vwu_event v) = ch_stacks_block_hash c.
Proof.
  destruct u as [i s m f r]. unfold try_into_validated_withdrawal_update. cbn. destruct s, f; cbn; intros [= <-]; done.
Qed.
