(* ===== verification/EmilyStore.v ===== *)
(** Emily's tables and the requests that reach them.

    Source: src/emily/handler/src/database/entries/{chainstate,limits,throttle}.rs
    and the requests built in database/entries/mod.rs and database/accessors.rs.

    DynamoDB is not part of the repository: it is the class [Dynamo], a store that
    answers requests and that other instances of the API write to as well. What
    the accessors rely on is stated twice. [DynamoLaws] is the documented
    behaviour with other clients at work: a conditional write acts on the current
    item in one step, an eventually consistent read returns an item that the table
    has had, and any request may fail. [QuietLaws] is no promise of the service: it
    describes the runs in which no request fails, nobody else writes and every read
    happens to be current; only the theorems of [EmilyQuiet], and those of
    [EmilyNewBlock], are about such runs. [Memory] is an implementation of both. *)

From stdpp Require Import strings.
From S2P Require Import Prelude Effects Types EmilyEntries.

(** ** Chain state *)
Record ChainstateEntryKey := mkChainstateKey { ck_hash : string; ck_height : Z }.
#[global] Instance ChainstateEntryKey_eq_dec : EqDecision ChainstateEntryKey.
Proof. solve_decision. Defined.
#[global] Program Instance ChainstateEntryKey_countable : Countable ChainstateEntryKey :=
  inj_countable' (fun k => (ck_hash k, ck_height k)) (fun p => mkChainstateKey p.1 p.2) _.
Next Obligation. by intros []. Qed.

Record ChainstateEntry := mkChainstateEntry { ce_key : ChainstateEntryKey; ce_bitcoin_height : option Z }.
#[global] Instance ChainstateEntry_eq_dec : EqDecision ChainstateEntry.
Proof. solve_decision. Defined.
Definition chainstate_from (e : ChainstateEntry) : Chainstate :=
  mkChainstate (ck_hash (ce_key e)) (ck_height (ce_key e)) (ce_bitcoin_height e).
Definition chainstate_entry_from (c : Chainstate) : ChainstateEntry :=
  mkChainstateEntry (mkChainstateKey (ch_stacks_block_hash c) (ch_stacks_block_height c)) (ch_bitcoin_block_height c).

Inductive ApiStatus := Stable (tip : ChainstateEntry) | Reorg (tip : ChainstateEntry).
#[global] Instance ApiStatus_eq_dec : EqDecision ApiStatus.
Proof. solve_decision. Defined.
Record ApiStateEntry := mkApiState { as_version : Z; as_api_status : ApiStatus }.
#[global] Instance ApiStateEntry_eq_dec : EqDecision ApiStateEntry.
Proof. solve_decision. Defined.
Definition api_state_default : ApiStateEntry := mkApiState 0 (Stable (mkChainstateEntry (mkChainstateKey "" 0) None)).
Definition chaintip (a : ApiStateEntry) : ChainstateEntry :=
  match as_api_status a with Stable tip => tip | Reorg tip => tip end.
Definition error_if_reorganizing (a : ApiStateEntry) : outcome EmilyError unit :=
  match as_api_status a with Reorg tip => Err (EeReorganizing (chainstate_from tip)) | Stable _ => Ok tt end.
Definition with_status (st : ApiStatus) (a : ApiStateEntry) : ApiStateEntry := mkApiState (as_version a) st.

(** An item of the index by Bitcoin height. *)
Record ChainstateByBitcoinHeightEntry := mkByBitcoin { cb_bitcoin_block_height : Z; cb_stacks_block_height : Z; cb_hash : string }.
#[global] Instance ChainstateByBitcoinHeightEntry_eq_dec : EqDecision ChainstateByBitcoinHeightEntry.
Proof. solve_decision. Defined.
Definition by_bitcoin (e : ChainstateEntry) : option ChainstateByBitcoinHeightEntry :=
  h ← ce_bitcoin_height e; Some (mkByBitcoin h (ck_height (ce_key e)) (ck_hash (ce_key e))).

(** ** Limits and throttle keys *)
Record AccountLimits := mkAccountLimits {
  al_peg_cap : option Z;
  al_per_deposit_minimum : option Z;
  al_per_deposit_cap : option Z;
  al_per_withdrawal_cap : option Z;
  al_rolling_withdrawal_blocks : option Z;
  al_rolling_withdrawal_cap : option Z;
  al_throttle_mode_initiator : option string }.
#[global] Instance AccountLimits_eq_dec : EqDecision AccountLimits.
Proof. solve_decision. Defined.
Record LimitEntryKey := mkLimitKey { lk_account : string; lk_timestamp : Z }.
#[global] Instance LimitEntryKey_eq_dec : EqDecision LimitEntryKey.
Proof. solve_decision. Defined.
#[global] Program Instance LimitEntryKey_countable : Countable LimitEntryKey :=
  inj_countable' (fun k => (lk_account k, lk_timestamp k)) (fun p => mkLimitKey p.1 p.2) _.
Next Obligation. by intros []. Qed.

(** The columns of a limit entry are those of [AccountLimits]. *)
Record LimitEntry := mkLimitEntry { le_key : LimitEntryKey; le_limits : AccountLimits }.
#[global] Instance LimitEntry_eq_dec : EqDecision LimitEntry.
Proof. solve_decision. Defined.

Record ThrottleKeyEntryKey := mkThrottleKeyKey { tk_hash : string; tk_created_at : Z }.
#[global] Instance ThrottleKeyEntryKey_eq_dec : EqDecision ThrottleKeyEntryKey.
Proof. solve_decision. Defined.
#[global] Program Instance ThrottleKeyEntryKey_countable : Countable ThrottleKeyEntryKey :=
  inj_countable' (fun k => (tk_hash k, tk_created_at k)) (fun p => mkThrottleKeyKey p.1 p.2) _.
Next Obligation. by intros []. Qed.
Record ThrottleKeyEntry := mkThrottleKey { te_key : ThrottleKeyEntryKey; te_is_active : bool; te_name : string }.
#[global] Instance ThrottleKeyEntry_eq_dec : EqDecision ThrottleKeyEntry.
Proof. solve_decision. Defined.
Definition set_active (b : bool) (e : ThrottleKeyEntry) : ThrottleKeyEntry := mkThrottleKey (te_key e) b (te_name e).

(** ** Items of the status indexes *)
Record DepositInfoEntry := mkDepositInfoEntry {
  dif_status : DepositStatus;
  dif_last_update_height : Z;
  dif_primary_index_key : DepositEntryKey;
  dif_recipient : string;
  dif_amount : Z;
  dif_reclaim_script : string;
  dif_deposit_script : string;
  dif_last_update_block_hash : string }.
Definition deposit_info (e : DepositEntry) : DepositInfoEntry :=
  mkDepositInfoEntry (de_status e) (de_last_update_height e) (de_key e) (de_recipient e) (de_amount e) (de_reclaim_script e)
    (de_deposit_script e) (de_last_update_block_hash e).
Record WithdrawalInfoEntry := mkWithdrawalInfoEntry {
  wif_status : WithdrawalStatus;
  wif_last_update_height : Z;
  wif_primary_index_key : WithdrawalEntryKey;
  wif_stacks_block_height : Z;
  wif_recipient : string;
  wif_sender : string;
  wif_amount : Z;
  wif_last_update_block_hash : string;
  wif_txid : string }.
Definition withdrawal_info (e : WithdrawalEntry) : WithdrawalInfoEntry :=
  mkWithdrawalInfoEntry (we_status e) (we_last_update_height e) (we_key e) (we_stacks_block_height e) (we_recipient e) (we_sender e)
    (we_amount e) (we_last_update_block_hash e) (we_txid e).

(** ** Tables *)
Record Tables := mkTables {
  tb_deposits : gmap DepositEntryKey DepositEntry;
  tb_withdrawals : gmap WithdrawalEntryKey WithdrawalEntry;
  tb_chainstates : gmap ChainstateEntryKey ChainstateEntry;
  tb_api_state : option ApiStateEntry;
  tb_limits : gmap LimitEntryKey LimitEntry;
  tb_throttle : gmap ThrottleKeyEntryKey ThrottleKeyEntry }.
Definition on_deposits f (t : Tables) : Tables :=
  mkTables (f (tb_deposits t)) (tb_withdrawals t) (tb_chainstates t) (tb_api_state t) (tb_limits t) (tb_throttle t).
Definition on_withdrawals f (t : Tables) : Tables :=
  mkTables (tb_deposits t) (f (tb_withdrawals t)) (tb_chainstates t) (tb_api_state t) (tb_limits t) (tb_throttle t).
Definition on_chainstates f (t : Tables) : Tables :=
  mkTables (tb_deposits t) (tb_withdrawals t) (f (tb_chainstates t)) (tb_api_state t) (tb_limits t) (tb_throttle t).
Definition set_api (a : ApiStateEntry) (t : Tables) : Tables :=
  mkTables (tb_deposits t) (tb_withdrawals t) (tb_chainstates t) (Some a) (tb_limits t) (tb_throttle t).
Definition on_limits f (t : Tables) : Tables :=
  mkTables (tb_deposits t) (tb_withdrawals t) (tb_chainstates t) (tb_api_state t) (f (tb_limits t)) (tb_throttle t).
Definition on_throttle f (t : Tables) : Tables :=
  mkTables (tb_deposits t) (tb_withdrawals t) (tb_chainstates t) (tb_api_state t) (tb_limits t) (f (tb_throttle t)).
Definition put_deposit (e : DepositEntry) : Tables -> Tables := on_deposits <[de_key e := e]>.
Definition put_withdrawal (e : WithdrawalEntry) : Tables -> Tables := on_withdrawals <[we_key e := e]>.

(** ** Requests *)

(** The queries of the accessors: by partition key, in the status indexes also
    from a height on. *)
Inductive query : Type -> Type :=
| QDepositsOfTransaction (txid : string) : query DepositEntry
| QDepositsWithStatus (s : DepositStatus) (minimum_height : option Z) : query DepositInfoEntry
| QWithdrawals (request_id : Z) : query WithdrawalEntry
| QWithdrawalsWithStatus (s : WithdrawalStatus) (minimum_height : option Z) : query WithdrawalInfoEntry
| QChainstates (height : Z) : query ChainstateEntry
| QChainstatesOfBitcoinBlock (height : Z) : query ChainstateByBitcoinHeightEntry
| QLimits (account : string) : query LimitEntry
| QThrottleKeys (hash : string) : query ThrottleKeyEntry.

(** A request, by the type of its answer; [Token] is the type of the keys at which
    a query resumes. *)
Inductive request (Token : Type) : Type -> Type :=
| GetDeposit (k : DepositEntryKey) : request Token (option DepositEntry)
| GetApiState : request Token (option ApiStateEntry)
| Query {E} (q : query E) (start : option Token) (limit : option Z) : request Token (list E * option Token)
| ScanLimits (start : option Token) : request Token (list LimitEntry * option Token)
| PutDeposit (e : DepositEntry) : request Token unit
| PutDepositIf (e : DepositEntry) (expected_version : Z) : request Token unit
| UpdateDeposit (p : DepositUpdatePackage) : request Token (option DepositEntry)
| PutWithdrawal (e : WithdrawalEntry) : request Token unit
| PutWithdrawalIf (e : WithdrawalEntry) (expected_version : Z) : request Token unit
| UpdateWithdrawal (p : WithdrawalUpdatePackage) : request Token (option WithdrawalEntry)
| PutApiState (a : ApiStateEntry) : request Token unit
| PutApiStateIf (a : ApiStateEntry) (expected_version : Z) : request Token unit
| PutChainstate (e : ChainstateEntry) : request Token unit
| DeleteChainstate (k : ChainstateEntryKey) : request Token unit
| PutLimit (e : LimitEntry) : request Token unit
| PutThrottleKey (e : ThrottleKeyEntry) : request Token unit
| SetThrottleKeyActive (k : ThrottleKeyEntryKey) (b : bool) : request Token unit.
Arguments GetDeposit {_} _. Arguments GetApiState {_}. Arguments Query {_ _} _ _ _. Arguments ScanLimits {_} _.
Arguments PutDeposit {_} _. Arguments PutDepositIf {_} _ _. Arguments UpdateDeposit {_} _.
Arguments PutWithdrawal {_} _. Arguments PutWithdrawalIf {_} _ _. Arguments UpdateWithdrawal {_} _.
Arguments PutApiState {_} _. Arguments PutApiStateIf {_} _ _. Arguments PutChainstate {_} _. Arguments DeleteChainstate {_} _.
Arguments PutLimit {_} _. Arguments PutThrottleKey {_} _. Arguments SetThrottleKeyActive {_} _ _.

(** The service: a store of items that answers requests. *)
Class Dynamo := {
  Store : Type;
  Token : Type;
  send : forall {A}, request Token A -> st Store EmilyError A }.

(** *** What requests do, by the documentation of DynamoDB *)

(** The items with a given partition key (and a sort key from the minimum on). *)
Definition values `{Countable K} {V} (m : gmap K V) : list V := (map_to_list m).*2.
Definition at_least (minimum : option Z) (h : Z) : bool := match minimum with Some m => m <=? h | None => true end.
Definition matches {E} (q : query E) (t : Tables) : list E :=
  match q in query E return list E with
  | QDepositsOfTransaction txid => List.filter (fun e => bool_decide (dk_bitcoin_txid (de_key e) = txid)) (values (tb_deposits t))
  | QDepositsWithStatus s m =>
      map deposit_info (List.filter (fun e => bool_decide (de_status e = s) && at_least m (de_last_update_height e)) (values (tb_deposits t)))
  | QWithdrawals id => List.filter (fun e => wk_request_id (we_key e) =? id) (values (tb_withdrawals t))
  | QWithdrawalsWithStatus s m =>
      map withdrawal_info (List.filter (fun e => bool_decide (we_status e = s) && at_least m (we_last_update_height e)) (values (tb_withdrawals t)))
  | QChainstates h => List.filter (fun e => ck_height (ce_key e) =? h) (values (tb_chainstates t))
  | QChainstatesOfBitcoinBlock h => omap by_bitcoin (List.filter (fun e => bool_decide (ce_bitcoin_height e = Some h)) (values (tb_chainstates t)))
  | QLimits a => List.filter (fun e => bool_decide (lk_account (le_key e) = a)) (values (tb_limits t))
  | QThrottleKeys h => List.filter (fun e => bool_decide (tk_hash (te_key e) = h)) (values (tb_throttle t))
  end.

(** A put whose condition is [attribute_exists(Version) AND Version = :expected]. *)
Definition version_is {E} (version : E -> Z) (o : option E) (expected : Z) : bool :=
  match o with Some e => version e =? expected | None => false end.
Definition conditional {A} (b : bool) (a : A) (t' t : Tables) : outcome EmilyError A * Tables :=
  if b then (Ok a, t') else (Err EeVersionConflict, t).

(** Writes act on the current contents in one step; [None]: a read. *)
Definition write {Tok A} (r : request Tok A) : option (Tables -> outcome EmilyError A * Tables) :=
  match r in request _ A return option (Tables -> outcome EmilyError A * Tables) with
  | PutDeposit e => Some (fun t => (Ok tt, put_deposit e t))
  | PutDepositIf e v => Some (fun t => conditional (version_is de_version (tb_deposits t !! de_key e) v) tt (put_deposit e t) t)
  | UpdateDeposit p => Some (fun t =>
      match tb_deposits t !! dup_key p with
      | Some e => conditional (de_version e =? dup_version p) (Some (deposit_apply p e)) (put_deposit (deposit_apply p e) t) t
      | None => (Err EeVersionConflict, t)
      end)
  | PutWithdrawal e => Some (fun t => (Ok tt, put_withdrawal e t))
  | PutWithdrawalIf e v => Some (fun t => conditional (version_is we_version (tb_withdrawals t !! we_key e) v) tt (put_withdrawal e t) t)
  | UpdateWithdrawal p => Some (fun t =>
      match tb_withdrawals t !! wup_key p with
      | Some e => conditional (we_version e =? wup_version p) (Some (withdrawal_apply p e)) (put_withdrawal (withdrawal_apply p e) t) t
      | None => (Err EeVersionConflict, t)
      end)
  | PutApiState a => Some (fun t => (Ok tt, set_api a t))
  | PutApiStateIf a v => Some (fun t => conditional (version_is as_version (tb_api_state t) v) tt (set_api a t) t)
  | PutChainstate e => Some (fun t => (Ok tt, on_chainstates <[ce_key e := e]> t))
  | DeleteChainstate k => Some (fun t => (Ok tt, on_chainstates (delete k) t))
  | PutLimit e => Some (fun t => (Ok tt, on_limits <[le_key e := e]> t))
  | PutThrottleKey e => Some (fun t => (Ok tt, on_throttle <[te_key e := e]> t))
  | SetThrottleKeyActive k b => Some (fun t => (Ok tt, on_throttle (alter (set_active b) k) t))
  | _ => None
  end.

(** Eventually consistent reads: each item of the answer was in its table in one of
    the contents [seen]. *)
Definition answers {Tok A} (seen : Tables -> Prop) (r : request Tok A) : A -> Prop :=
  match r in request _ A return A -> Prop with
  | GetDeposit k => fun a => exists t, seen t /\ a = tb_deposits t !! k
  | GetApiState => fun a => exists t, seen t /\ a = tb_api_state t
  | Query q _ _ => fun a => forall e, e ∈ a.1 -> exists t, seen t /\ e ∈ matches q t
  | ScanLimits _ => fun a => forall e, e ∈ a.1 -> exists t, seen t /\ e ∈ values (tb_limits t)
  | _ => fun _ => True
  end.

(** The service with other clients: [others] is what they may do to the tables
    between two requests; [now] are the tables, [seen] those there have been. *)
Class DynamoLaws `{Dynamo} (others : relation Tables) := {
  others_preorder :: PreOrder others;
  now : Store -> Tables;
  seen : Store -> Tables -> Prop;
  seen_now s : seen s (now s);
  seen_mono {A} (r : request Token A) s u : seen s u -> seen (send r s).1 u;
  send_law {A} (r : request Token A) s : exists t,
    others (now s) t /\
    (forall u, seen (send r s).1 u -> seen s u \/ (others (now s) u /\ others u t) \/ u = now (send r s).1) /\
    match write r with
    | None => now (send r s).1 = t /\
        ((send r s).2 = Err EeDynamo \/ exists a, (send r s).2 = Ok a /\ answers (seen (send r s).1) r a)
    | Some w => w t = ((send r s).2, now (send r s).1) \/
        ((send r s).2 = Err EeDynamo /\ (now (send r s).1 = t \/ now (send r s).1 = (w t).2))
    end }.

(** Queries over items of bounded size: those of one partition fit one page. *)
Definition one_page {E} (q : query E) : bool :=
  match q with
  | QWithdrawals _ | QChainstates _ | QChainstatesOfBitcoinBlock _ | QLimits _ | QThrottleKeys _ => true
  | _ => false
  end.
Definition up_to {A} (limit : option Z) (l : list A) : list A := match limit with Some n => take (Z.to_nat n) l | None => l end.

(** A quiet run: one client, no failing request, and every read and every query of
    an index answers from the current contents. This is not what DynamoDB promises
    for the eventually consistent reads of the accessors ([DynamoLaws] is); it
    describes the runs in which the copies keep up, and what the handlers do in them.
    The pages of a query are cut from [cursor], the matching items from the resumption
    key on, in descending order of the sort key; a page that is not the last one has
    an item. *)
Class QuietLaws `{Dynamo} := {
  contents : Store -> Tables;
  cursor : forall {E}, Tables -> query E -> option Token -> list E;
  cursor_matches {E} t (q : query E) : cursor t q None ≡ₚ matches q t;
  cursor_descending t a : StronglySorted (fun e e' => lk_timestamp (le_key e') <= lk_timestamp (le_key e)) (cursor t (QLimits a) None);
  scan_cursor : Tables -> option Token -> list LimitEntry;
  scan_cursor_all t : scan_cursor t None ≡ₚ values (tb_limits t);
  quiet_write {A} (r : request Token A) s w : write r = Some w -> w (contents s) = ((send r s).2, contents (send r s).1);
  quiet_get_deposit k s : (send (GetDeposit k) s).2 = Ok (tb_deposits (contents s) !! k) /\ contents (send (GetDeposit k) s).1 = contents s;
  quiet_get_api_state s : (send GetApiState s).2 = Ok (tb_api_state (contents s)) /\ contents (send GetApiState s).1 = contents s;
  quiet_query {E} (q : query E) start limit s : (forall n, limit = Some n -> 1 <= n) -> exists page next,
    (send (Query q start limit) s).2 = Ok (page, next) /\ contents (send (Query q start limit) s).1 = contents s /\
    cursor (contents s) q start = page ++ (match next with Some k => cursor (contents s) q (Some k) | None => [] end) /\
    (next <> None -> page <> []) /\
    (one_page q = true -> start = None -> page = up_to limit (cursor (contents s) q None));
  quiet_scan start s : exists page next,
    (send (ScanLimits start) s).2 = Ok (page, next) /\ contents (send (ScanLimits start) s).1 = contents s /\
    scan_cursor (contents s) start = page ++ (match next with Some k => scan_cursor (contents s) (Some k) | None => [] end) /\
    (next <> None -> page <> []) }.

(** ** An implementation in memory *)
Module Memory.
Record state := mkState { current : Tables; past : list Tables }.
Definition newest_first (l : list LimitEntry) : list LimitEntry := sort_by_key (fun e => [[- lk_timestamp (le_key e)]]) l.
Definition ordered {E} (q : query E) : list E -> list E :=
  match q in query E return list E -> list E with QLimits _ => newest_first | _ => fun l => l end.
Definition rest {E} (l : list E) (start : option nat) : list E := drop (default 0%nat start) l.
(** A page of the items of [l] from [start] on. *)
Definition page {E} (l : list E) (start : option nat) (limit : option Z) : list E * option nat :=
  let here := rest l start in
  match limit with
  | None => (here, None)
  | Some n => let n := Nat.max 1 (Z.to_nat n) in
      (take n here, if (n <? length here)%nat then Some (default 0%nat start + n)%nat else None)
  end.

Definition read {A} (r : request nat A) (t : Tables) : outcome EmilyError A :=
  match r in request _ A return outcome EmilyError A with
  | GetDeposit k => Ok (tb_deposits t !! k)
  | GetApiState => Ok (tb_api_state t)
  | Query q start limit => Ok (page (ordered q (matches q t)) start limit)
  | ScanLimits start => Ok (page (values (tb_limits t)) start None)
  | _ => Err EeDynamo
  end.
Definition respond {A} (r : request nat A) (m : state) : state * outcome EmilyError A :=
  match write r with
  | Some w => let '(o, t) := w (current m) in (mkState t (current m :: past m), o)
  | None => (m, read r (current m))
  end.
#[global] Instance memory : Dynamo := {| Store := state; Token := nat; send A := respond (A := A) |}.

Lemma ordered_perm {E} (q : query E) l : ordered q l ≡ₚ l.
Proof. destruct q; cbn; try done. apply sort_by_key_perm. Qed.
Lemma page_rest {E} (l : list E) start limit :
  rest l start = (page l start limit).1 ++ (match (page l start limit).2 with Some k => rest l (Some k) | None => [] end) /\
  ((page l start limit).2 <> None -> (page l start limit).1 <> []).
Proof.
  unfold page. destruct limit as [n|]; cbn [fst snd]; [|by rewrite app_nil_r]. set (k := Nat.max 1 (Z.to_nat n)).
  destruct (Nat.ltb_spec k (length (rest l start))) as [Hk|Hk]; cbn.
  - split; [|intros _]; unfold rest; cbn.
    + by rewrite <- drop_drop, take_drop.
    + intros Hnil%(f_equal length). rewrite length_take in Hnil. cbn in Hnil. unfold rest in Hk. lia.
  - split; [|done]. rewrite app_nil_r. symmetry. apply take_ge. lia.
Qed.

Lemma rest_elem {E} (l : list E) start e : e ∈ rest l start -> e ∈ l.
Proof. unfold rest. intros Hr. rewrite <- (take_drop (default 0%nat start) l). apply elem_of_app. by right. Qed.
Lemma page_elem {E} (l : list E) start limit e : e ∈ (page l start limit).1 -> e ∈ l.
Proof. intros He. apply (rest_elem l start). rewrite (proj1 (page_rest l start limit)). apply elem_of_app. by left. Qed.

Definition was (m : state) (u : Tables) : Prop := u = current m \/ u ∈ past m.
Lemma respond_was {A} (r : request nat A) m u : was m u -> was (respond r m).1 u.
Proof.
  unfold respond, was. destruct (write r) as [w|]; [|done]. destruct (w (current m)); cbn. intros [-> |Hu]; right; [left|by right].
Qed.
Lemma respond_new {A} (r : request nat A) m u : was (respond r m).1 u -> was m u \/ (current m = u /\ u = current m) \/ u = current (respond r m).1.
Proof.
  unfold respond, was. destruct (write r) as [w|]; [|by left]. destruct (w (current m)); cbn.
  intros [-> |[-> |Hu]%elem_of_cons]; [right; by right|by left; left|left; by right].
Qed.
Lemma respond_read {A} (r : request nat A) m : write r = None ->
  (respond r m).1 = m /\ exists a, (respond r m).2 = Ok a /\ answers (was m) r a.
Proof.
  intros Hw. unfold respond. rewrite Hw. cbn. split; [done|]. destruct r; try done; eexists; (split; [reflexivity|]); cbn.
  - exists (current m). split; [by left|done].
  - exists (current m). split; [by left|done].
  - intros e He. exists (current m). split; [by left|]. rewrite <- (ordered_perm q). by apply page_elem in He.
  - intros e He. exists (current m). split; [by left|]. by apply rest_elem in He.
Qed.
Lemma respond_write {A} (r : request nat A) m w : write r = Some w -> w (current m) = ((respond r m).2, current (respond r m).1).
Proof. intros Hw. unfold respond. rewrite Hw. by destruct (w (current m)). Qed.

#[global] Program Instance memory_laws : DynamoLaws eq := {| now := current; seen := was |}.
Next Obligation. intros m. by left. Qed.
Next Obligation. intros A r m u. apply respond_was. Qed.
Next Obligation.
  intros A r m. exists (current m). split; [done|]. split; [apply respond_new|].
  destruct (write r) as [w|] eqn:Hw; [left; by apply (respond_write (A := A))|].
  destruct (respond_read (A := A) r m Hw) as [Hm Ha]. split; [exact (f_equal current Hm)|].
  right. destruct Ha as (a & Ho & Ha). exists a. split; [exact Ho|]. cbn. by rewrite Hm.
Qed.

#[global] Program Instance memory_quiet : QuietLaws :=
  {| contents := current; cursor E t q start := rest (ordered q (matches q t)) start;
     scan_cursor t start := rest (values (tb_limits t)) start |}.
Next Obligation. intros. apply ordered_perm. Qed.
Next Obligation.
  intros t a. cbn [ordered]. unfold rest. cbn [default drop]. generalize (matches (QLimits a) t). intros l.
  unfold newest_first. eapply StronglySorted_impl; [|apply sort_by_key_sorted]. intros x y. cbn.
  unfold key_le, okey_le. cbn. destruct (Z.compare_spec (- lk_timestamp (le_key x)) (- lk_timestamp (le_key y))); intros; try done; lia.
Qed.
Next Obligation. done. Qed.
Next Obligation. intros A r m w. apply respond_write. Qed.
Next Obligation. done. Qed.
Next Obligation. done. Qed.
Next Obligation.
  intros E q start limit m Hl. exists (page (ordered q (matches q (current m))) start limit).1, (page (ordered q (matches q (current m))) start limit).2.
  split; [by rewrite <- surjective_pairing|]. split; [done|]. split; [apply page_rest|]. split; [apply page_rest|].
  intros _ ->. unfold page, up_to. destruct limit as [n|]; [|done]. cbn. specialize (Hl n eq_refl). f_equal. lia.
Qed.
Next Obligation.
  intros start m. exists (page (values (tb_limits (current m))) start None).1, (page (values (tb_limits (current m))) start None).2.
  split; [by rewrite <- surjective_pairing|]. split; [done|]. split; apply (page_rest _ start None).
Qed.
End Memory.
