(* ===== verification/EmilyAccessors.v ===== *)
(** Accessors of Emily's database.

    Source: src/emily/handler/src/database/accessors.rs.

    Every accessor is a sequence of requests to the service ([send]); a loop over
    the pages of a query takes the number of pages it may read as fuel. *)

From stdpp Require Import strings.
From S2P Require Import Prelude Effects Types EmilyEntries EmilyStore.

Definition GLOBAL_CAP_ACCOUNT : string := "GLOBAL".

(** The hash functions of the throttle keys: the salt of a name is read from the
    hexadecimal SHA-256 of the name. *)
Class ThrottleHash := {
  Salt : Type;
  sha256_hex : string -> string;
  salt_from_b64 : string -> option Salt;
  hash_password : string -> Salt -> option string }.

(** [map_err] on a stateful call. *)
Definition st_map_err {S E A} (f : E -> E) (m : st S E A) : st S E A := fun s =>
  match m s with (s', Err e) => (s', Err (f e)) | r => r end.
(** A call whose result is matched on, its error included. *)
Definition st_result {S E A} (m : st S E A) : st S E (A + E) := fun s =>
  match m s with
  | (s', Ok a) => (s', Ok (inl a))
  | (s', Err e) => (s', Ok (inr e))
  | (s', Panic) => (s', Panic)
  | (s', Diverge) => (s', Diverge)
  end.
Fixpoint st_map {S E A B} (f : A -> st S E B) (l : list A) : st S E (list B) :=
  match l with
  | [] => st_ret []
  | a :: l => b <- f a;; bs <- st_map f l;; st_ret (b :: bs)
  end.

Section Accessors.
Context `{Dynamo}.
Abbreviation db := (st Store EmilyError).

(** A version conflict is retried, every other result returned. *)
Definition on_conflict {A} (m retry : db A) : db A :=
  r <- st_result m;;
  match r with
  | inl a => st_ret a
  | inr EeVersionConflict => retry
  | inr e => st_throw e
  end.

(** ** Generics *)
Fixpoint query_all {E} (pages : nat) (q : query E) (start : option Token) : db (list E) :=
  match pages with
  | O => st_lift Diverge
  | S pages =>
      page <- send (Query q start None);;
      match page.2 with
      | None => st_ret page.1
      | Some next => items <- query_all pages q (Some next);; st_ret (page.1 ++ items)
      end
  end.
(** [LimitTablePrimaryIndex::get_all_entries] *)
Fixpoint get_all_limit_entries (pages : nat) (start : option Token) : db (list LimitEntry) :=
  match pages with
  | O => st_lift Diverge
  | S pages =>
      page <- send (ScanLimits start);;
      match page.2 with
      | None => st_ret page.1
      | Some next => items <- get_all_limit_entries pages (Some next);; st_ret (page.1 ++ items)
      end
  end.

(** ** Deposits *)
Definition add_deposit_entry (e : DepositEntry) : db unit := send (PutDeposit e).
(** [put_entry_with_version]: the stored entry has the next version. *)
Definition set_deposit_entry (e : DepositEntry) : db unit := send (PutDepositIf (de_set_version (de_version e + 1) e) (de_version e)).
Definition get_deposit_entry (k : DepositEntryKey) : db DepositEntry :=
  item <- send (GetDeposit k);; st_ok_or item EeNotFound.
Definition get_deposit_entries (s : DepositStatus) (next : option Token) (page_size : option Z) : db (list DepositInfoEntry * option Token) :=
  send (Query (QDepositsWithStatus s None) next page_size).
Definition get_deposit_entries_for_transaction (txid : string) (next : option Token) (page_size : option Z) : db (list DepositEntry * option Token) :=
  send (Query (QDepositsOfTransaction txid) next page_size).
Definition get_all_deposit_entries_modified_from_height_with_status (pages : nat) (s : DepositStatus) (minimum_height : Z) : db (list DepositInfoEntry) :=
  query_all pages (QDepositsWithStatus s (Some minimum_height)) None.
Definition get_all_deposit_entries_modified_from_height (pages : nat) (minimum_height : Z) : db (list DepositInfoEntry) :=
  all <- st_map (fun s => get_all_deposit_entries_modified_from_height_with_status pages s minimum_height) deposit_statuses;;
  st_ret (concat all).

Definition update_deposit (p : DepositUpdatePackage) : db DepositEntry :=
  attributes <- send (UpdateDeposit p);; st_ok_or attributes (EeMissingAttributesDeposit (dup_key p)).

(** The body of the retry loop decides from the entry that was read: [None] when
    the entry is to be returned as it is, else the package to send. *)
Definition deposit_decision (u : ValidatedDepositUpdate) (is_trusted_key : bool) (e : DepositEntry) : outcome EmilyError (option DepositUpdatePackage) :=
  if deposit_is_unnecessary u e then Ok None else
  if bool_decide (dv_status (vdu_event u) = DepositAccepted) && bool_decide (de_status e = DsAccepted) then Ok None else
  let is_valid_untrusted_status_update := bool_decide (dv_status (vdu_event u) = DepositAccepted) && bool_decide (de_status e = DsPending) in
  if negb is_trusted_key && negb is_valid_untrusted_status_update then Err EeForbidden else
  p ← deposit_package_try_from e u; Ok (Some p).
Fixpoint pull_and_update_deposit_with_retry (u : ValidatedDepositUpdate) (retries : nat) (is_trusted_key : bool) : db DepositEntry :=
  match retries with
  | O => st_throw EeVersionConflict
  | S retries =>
      deposit_entry <- get_deposit_entry (vdu_key u);;
      decision <- st_lift (deposit_decision u is_trusted_key deposit_entry);;
      match decision with
      | None => st_ret deposit_entry
      | Some update_package =>
          on_conflict (update_deposit update_package) (pull_and_update_deposit_with_retry u retries is_trusted_key)
      end
  end.

(** ** Chain state *)
Definition get_chainstate_entry_at_height (height : Z) : db ChainstateEntry :=
  page <- send (Query (QChainstates height) None None);;
  match page.1 with
  | [] => st_throw EeNotFound
  | [single_entry] => st_ret single_entry
  | entries => st_throw (EeChainstates (map chainstate_from entries))
  end.
Definition get_api_state : db ApiStateEntry :=
  item <- send GetApiState;;
  match item with
  | Some a => st_ret a
  | None => send (PutApiState api_state_default);;; st_ret api_state_default
  end.
Definition set_api_state (a : ApiStateEntry) : db unit := send (PutApiStateIf (mkApiState (as_version a + 1) (as_api_status a)) (as_version a)).

Definition add_chainstate_entry (e : ChainstateEntry) : db unit :=
  api_state <- get_api_state;;
  let height := ck_height (ce_key e) in
  if match as_api_status api_state with Reorg tip => negb (bool_decide (ce_key tip = ce_key e)) | Stable _ => false end
  then st_throw (EeItemUpdate "Attempting to update chainstate during a reorg") else
  let behind := ck_height (ce_key (chaintip api_state)) <? height in
  let add : db unit :=
    let chaintip := chaintip api_state in
    let blocks_higher_than_current_tip := height - ck_height (ce_key chaintip) in
    if (blocks_higher_than_current_tip =? 1) || (ck_height (ce_key chaintip) =? 0) then
      send (PutChainstate e);;; set_api_state (with_status (Stable e) api_state)
    else if 1 <? blocks_higher_than_current_tip then
      send (PutChainstate e);;; set_api_state (with_status (Stable e) api_state)
    else st_throw (EeChainstates [chainstate_from chaintip]) in
  current <- st_result (get_chainstate_entry_at_height height);;
  match (match current with
         | inl existing => if negb (bool_decide (ce_key existing = ce_key e)) then inr (EeChainstates [chainstate_from existing]) else inl tt
         | inr err => inr err
         end) with
  | inr EeNotFound => add
  | inl _ => if behind then set_api_state (with_status (Stable e) api_state) else st_ret tt
  | inr (EeChainstates chainstates) =>
      if behind then st_map (fun c => send (DeleteChainstate (ce_key (chainstate_entry_from c)))) chainstates;;; add
      else st_throw (EeChainstates chainstates)
  | inr err => st_throw err
  end.
Fixpoint add_chainstate_entry_with_retry (e : ChainstateEntry) (retries : nat) : db unit :=
  match retries with
  | O => st_throw EeTooManyInternalRetries
  | S retries => on_conflict (add_chainstate_entry e) (add_chainstate_entry_with_retry e retries)
  end.

(** ** Withdrawals *)
Definition add_withdrawal_entry (e : WithdrawalEntry) : db unit := send (PutWithdrawal e).
Definition set_withdrawal_entry (e : WithdrawalEntry) : db unit :=
  send (PutWithdrawalIf (we_set_version (we_version e + 1) e) (we_version e)).
Definition is_in_canonical_chain (w : WithdrawalEntry) : db bool :=
  canonical <- get_chainstate_entry_at_height (we_stacks_block_height w);;
  st_ret (bool_decide (ck_hash (ce_key canonical) = wk_stacks_block_hash (we_key w))).
Definition get_withdrawal_entry (key : Z) : db WithdrawalEntry :=
  let num_to_retrieve_if_multiple := 3 in
  page <- send (Query (QWithdrawals key) None (Some num_to_retrieve_if_multiple));;
  match page.1 with
  | [] => st_throw EeNotFound
  | [withdrawal] => st_ret withdrawal
  | withdrawals =>
      marked <- st_map (fun w => b <- st_map_err (fun _ => EeInternalServer) (is_in_canonical_chain w);; st_ret (w, b)) withdrawals;;
      match (List.filter snd marked).*1 with
      | [w] => st_ret w
      | [] => st_throw EeNotFound
      | _ => st_throw (EeTooManyWithdrawalEntries key)
      end
  end.
Definition get_withdrawal_entries (s : WithdrawalStatus) (next : option Token) (page_size : option Z) : db (list WithdrawalInfoEntry * option Token) :=
  send (Query (QWithdrawalsWithStatus s None) next page_size).
Definition get_all_withdrawal_entries_modified_from_height_with_status (pages : nat) (s : WithdrawalStatus) (minimum_height : Z) : db (list WithdrawalInfoEntry) :=
  query_all pages (QWithdrawalsWithStatus s (Some minimum_height)) None.
Definition get_all_withdrawal_entries_modified_from_height (pages : nat) (minimum_height : Z) : db (list WithdrawalInfoEntry) :=
  all <- st_map (fun s => get_all_withdrawal_entries_modified_from_height_with_status pages s minimum_height) withdrawal_statuses;;
  st_ret (concat all).
Definition update_withdrawal (p : WithdrawalUpdatePackage) : db WithdrawalEntry :=
  attributes <- send (UpdateWithdrawal p);; st_ok_or attributes (EeMissingAttributesWithdrawal (wup_key p)).
Definition withdrawal_decision (u : ValidatedWithdrawalUpdate) (is_trusted_key : bool) (e : WithdrawalEntry) : outcome EmilyError (option WithdrawalUpdatePackage) :=
  if withdrawal_is_unnecessary u e then Ok None else
  if bool_decide (wv_status (vwu_event u) = WithdrawalAccepted) && bool_decide (we_status e = WsAccepted) then Ok None else
  let is_valid_untrusted_status_update := bool_decide (wv_status (vwu_event u) = WithdrawalAccepted) && bool_decide (we_status e = WsPending) in
  if negb is_trusted_key && negb is_valid_untrusted_status_update then Err EeForbidden else
  p ← withdrawal_package_try_from e u; Ok (Some p).
Fixpoint pull_and_update_withdrawal_with_retry (u : ValidatedWithdrawalUpdate) (retries : nat) (is_trusted_key : bool) : db WithdrawalEntry :=
  match retries with
  | O => st_throw EeVersionConflict
  | S retries =>
      entry <- get_withdrawal_entry (vwu_request_id u);;
      decision <- st_lift (withdrawal_decision u is_trusted_key entry);;
      match decision with
      | None => st_ret entry
      | Some update_package =>
          on_conflict (update_withdrawal update_package) (pull_and_update_withdrawal_with_retry u retries is_trusted_key)
      end
  end.

(** ** Limits *)
Definition oldest (es : list ChainstateByBitcoinHeightEntry) : option Z :=
  match es with
  | [] => None
  | e :: es => Some (foldr Z.min (cb_stacks_block_height e) (map cb_stacks_block_height es))
  end.
Definition get_oldest_stacks_block_for_bitcoin_block (bitcoin_height : Z) : db Z :=
  page <- send (Query (QChainstatesOfBitcoinBlock bitcoin_height) None None);;
  st_ok_or (oldest page.1) EeNotFound.
Fixpoint first_stacks_block (heights : list Z) : db Z :=
  match heights with
  | [] => st_throw EeNotFound
  | h :: heights =>
      r <- st_result (get_oldest_stacks_block_for_bitcoin_block h);;
      match r with inl stacks_height => st_ret stacks_height | inr _ => first_stacks_block heights end
  end.
Definition get_oldest_stacks_block_in_range (start last : Z) : db Z :=
  if negb (start <=? last) then st_lift Panic else
  stop <- st_lift (add_u 64 last 1);;
  first_stacks_block (seqZ start (stop - start)).

Definition calculate_sbtc_left_for_withdrawals (pages : nat) (rolling_withdrawal_blocks rolling_withdrawal_cap : option Z) : db (option Z) :=
  match rolling_withdrawal_blocks, rolling_withdrawal_cap with
  | Some blocks, Some cap =>
      api_state <- get_api_state;;
      bitcoin_tip <- st_ok_or (ce_bitcoin_height (chaintip api_state)) EeNotFound;;
      let bitcoin_end_block := (bitcoin_tip ∸ (blocks ∸ 1))%rust in
      minimum_stacks_height_in_window <- get_oldest_stacks_block_in_range bitcoin_end_block bitcoin_tip;;
      let all_statuses_except_failed := List.filter (fun s => negb (bool_decide (s = WsFailed))) withdrawal_statuses in
      withdrawals <- st_map (fun s => get_all_withdrawal_entries_modified_from_height_with_status pages s minimum_stacks_height_in_window) all_statuses_except_failed;;
      let total_withdrawn := foldl (fun total w => (total ∔ wif_amount w)%rust) 0 (concat withdrawals) in
      st_ret (Some (cap ∸ total_withdrawn)%rust)
  | _, _ => st_ret None
  end.

(** [LimitEntry::is_empty] *)
Definition limit_is_empty (l : AccountLimits) : bool :=
  negb (bool_decide (is_Some (al_peg_cap l))) && negb (bool_decide (is_Some (al_per_deposit_cap l))) &&
  negb (bool_decide (is_Some (al_per_withdrawal_cap l))).

Record Limits := mkLimits {
  li_available_to_withdraw : option Z;
  li_global : AccountLimits;                      (* the other fields of [Limits] but the caps of the accounts *)
  li_account_caps : gmap string AccountLimits }.

(** The latest entries: the global one and those of the accounts. *)
Definition latest_limits (global : LimitEntry) (all : list LimitEntry) : LimitEntry * gmap string LimitEntry :=
  foldl (fun '(global, by_account) e =>
    let account := lk_account (le_key e) in
    if bool_decide (account = GLOBAL_CAP_ACCOUNT) then
      (if lk_timestamp (le_key global) <? lk_timestamp (le_key e) then e else global, by_account)
    else match by_account !! account with
    | Some existing =>
        (global, if lk_timestamp (le_key existing) <? lk_timestamp (le_key e) then <[account := e]> by_account else by_account)
    | None => (global, <[account := e]> by_account)
    end) (global, ∅) all.

Definition get_limits (pages : nat) (default_limits : AccountLimits) : db Limits :=
  all_entries <- get_all_limit_entries pages None;;
  let '(global_cap, limit_by_account) := latest_limits (mkLimitEntry (mkLimitKey GLOBAL_CAP_ACCOUNT 0) default_limits) all_entries in
  available <- st_result (calculate_sbtc_left_for_withdrawals pages (al_rolling_withdrawal_blocks (le_limits global_cap))
                            (al_rolling_withdrawal_cap (le_limits global_cap)));;
  st_ret (mkLimits (match available with inl o => o | inr _ => None end) (le_limits global_cap)
            (filter (fun kv => limit_is_empty kv.2 = false) (le_limits <$> limit_by_account))).

Definition get_limit_for_account (account : string) : db LimitEntry :=
  page <- send (Query (QLimits account) None (Some 1));;
  st_ok_or (last (sort_by_key (fun e => [[lk_timestamp (le_key e)]]) page.1)) EeNotFound.
Definition set_limit_for_account (limit : LimitEntry) : db unit := send (PutLimit limit).

(** ** Throttle keys *)
Definition get_throttle_key (hash : string) : db ThrottleKeyEntry :=
  page <- send (Query (QThrottleKeys hash) None None);;
  match page.1 with
  | [] => st_throw EeNotFound
  | [e] => st_ret e
  | _ => st_throw (EeTooManyThrottleEntries hash)
  end.
Definition add_throttle_key (e : ThrottleKeyEntry) : db unit :=
  r <- st_result (get_throttle_key (tk_hash (te_key e)));;
  match r with
  | inl _ => st_throw EeConflict
  | inr _ => send (PutThrottleKey e)
  end.
Definition set_throttle_key_activity (hash : string) (is_active : bool) : db unit :=
  e <- get_throttle_key hash;;
  send (SetThrottleKeyActive (mkThrottleKeyKey hash (tk_created_at (te_key e))) is_active).
Definition activate_throttle_key (hash : string) : db unit := set_throttle_key_activity hash true.
Definition deactivate_throttle_key (hash : string) : db unit := set_throttle_key_activity hash false.

Inductive KeyVerificationResult := Eligible (name : string) | Revoked.
Definition name_to_salt `{ThrottleHash} (name : string) : outcome EmilyError Salt := ok_or (salt_from_b64 (sha256_hex name)) EeInternalServer.
Definition verify_throttle_key `{ThrottleHash} (name secret : string) : db KeyVerificationResult :=
  salt <- st_lift (name_to_salt name);;
  hash <- st_ok_or (hash_password secret salt) EeInternalServer;;
  key <- get_throttle_key hash;;
  st_ret (if negb (te_is_active key) then Revoked else Eligible (te_name key)).
End Accessors.
