(* ===== verification/EmilyHandlers.v ===== *)
(** Handlers of the Emily API.

    Source: src/emily/handler/src/api/handlers/{deposit,withdrawal,internal,chainstate,limits,throttle,new_block}.rs
    and common/error.rs.

    A handler is a sequence of database accesses that ends in a status code with a
    body, or in an error. Texts are represented by the values they show. *)

From Stdlib Require Import Ascii.
From stdpp Require Import strings.
From S2P Require Import Prelude Effects Types Consts Bitcoin Requests Validation Deposits EmilyEntries EmilyStore EmilyAccessors.

(** ** Errors *)
Definition into_production_error (e : EmilyError) : EmilyError :=
  match e with
  | EeDepositOutputMismatch _ _ | EeForbidden | EeNotFound | EeConflict | EeTooManyInternalRetries | EeItemUpdate _ | EeChainstates _
  | EeWithdrawalRequestIdMismatch _ _ | EeMissingAttributesDeposit _ | EeMissingAttributesWithdrawal _ | EeTooManyWithdrawalEntries _
  | EeBadRequest _ | EeValidation _ => e
  | _ => EeInternalServer
  end.
Definition status_code (e : EmilyError) : Z :=
  match e with
  | EeBadRequest _ | EeValidation _ | EeDeserialization _ => 400
  | EeForbidden => 403
  | EeNotFound => 404
  | EeConflict => 409
  | _ => 500
  end.

(** ** Requests and responses *)
Record CreateDepositRequestBody := mkCreateDepositBody {
  cdb_bitcoin_txid : string;
  cdb_bitcoin_tx_output_index : Z;
  cdb_reclaim_script : string;
  cdb_deposit_script : string;
  cdb_transaction_hex : string }.
Record CreateWithdrawalRequestBody := mkCreateWithdrawalBody {
  cwb_request_id : Z;
  cwb_stacks_block_hash : string;
  cwb_stacks_block_height : Z;
  cwb_recipient : string;
  cwb_sender : string;
  cwb_amount : Z;
  cwb_max_fee : Z;
  cwb_txid : string }.
(** The text of an error in a response shows a validation error or an API error. *)
Record DepositWithStatus := mkDepositWithStatus { dws_deposit : option Deposit; dws_error : option (ValidationError + EmilyError); dws_status : Z }.
Record WithdrawalWithStatus := mkWithdrawalWithStatus {
  wws_withdrawal : option Withdrawal; wws_error : option (ValidationError + EmilyError); wws_status : Z }.

(** Decoding and hashing of the other crates. *)
Class EmilyLib `{DepositLib} := {
  txid_from_str : string -> option Z;
  script_from_hex : string -> option Script;
  transaction_from_hex : string -> option Transaction;
  deposit_error_text : DepositError -> string;
  hex_encode : list Z -> string;
  hex_decode : string -> option (list Z);
  sha256 : list Z -> list Z }.

(** ** Reclaim scripts of a wallet *)
Section ReclaimPubkeys.
Context `{BitcoinLib} `{EmilyLib}.
Definition OP_CHECKSIGADD : Z := 186.
Definition OP_NUMEQUAL : Z := 156.
Definition OP_PUSHBYTES_32 : Z := 32.

Definition sorted_sha256 (pubkeys : list (list Z)) : string := hex_encode (sha256 (concat (sort_by_key (fun k => [k]) pubkeys))).

(** The loop over the keys of the multi-signature script, with the number of bytes
    as fuel. *)
Fixpoint multisig_pubkeys (fuel : nat) (data : list Z) (pubkeys : list (list Z)) : outcome Empty_set (option (list (list Z))) :=
  match fuel with
  | O => Diverge
  | S fuel =>
      match data with
      | [] => Ok (Some pubkeys)
      | opcode :: data =>
          if opcode =? OP_PUSHBYTES_32 then
            let pubkey_bytes := take 32 data in
            if (length pubkey_bytes =? 32)%nat then multisig_pubkeys fuel (drop 32 data) (pubkeys ++ [pubkey_bytes]) else Ok None
          else if (opcode =? OP_CHECKSIG) || (opcode =? OP_CHECKSIGADD) then multisig_pubkeys fuel data pubkeys
          else if (OP_PUSHNUM_1 <=? opcode) && (opcode <=? OP_PUSHNUM_16) then Ok (Some pubkeys)
          else Ok None
      end
  end.

(** [middle @ ..] between a first and a last byte *)
Definition between (first : list Z) (final : Z) (l : list Z) : option (list Z) :=
  let inner := drop (length first) l in
  match last inner with
  | Some z => if bool_decide (take (length first) l = first) && (z =? final) then Some (take (length inner - 1) inner) else None
  | None => None
  end.
Definition extract_reclaim_pubkeys_hash (reclaim_script : Script) : outcome Empty_set (option string) :=
  match reclaim_parse reclaim_script with
  | Ok reclaim =>
      let s := ri_script reclaim in
      map_ok (fmap sorted_sha256)
        (match between [OP_DROP; OP_PUSHBYTES_32] OP_CHECKSIG s with
         | Some pubkey => Ok (if (length pubkey =? 32)%nat then Some [pubkey] else None)
         | None =>
             match between [OP_DROP] OP_NUMEQUAL s with
             | Some keys_data => multisig_pubkeys (S (length keys_data)) keys_data []
             | None => Ok None
             end
         end)
  | _ => Ok None
  end.

(** [str::split('-')] *)
Fixpoint split_dash (s : string) : list string :=
  match s with
  | EmptyString => [EmptyString]
  | String c s =>
      if Ascii.eqb c "-"%char then EmptyString :: split_dash s
      else match split_dash s with
      | [] => [String c EmptyString]
      | w :: ws => String c w :: ws
      end
  end.
Definition invalid_pubkey : EmilyError := EeBadRequest "invalid pubkey".
Definition validate_reclaim_pubkeys (reclaim_pubkeys : string) : outcome EmilyError (list (list Z)) :=
  ofold (fun keys s =>
    bytes ← ok_or (hex_decode s) invalid_pubkey;
    if (length bytes =? 32)%nat then Ok (keys ++ [bytes]) else Err invalid_pubkey) [] (split_dash reclaim_pubkeys).
End ReclaimPubkeys.

(** ** Deposits *)
Section Handlers.
Context `{BitcoinLib} `{EmilyLib} `{Dynamo}.
Abbreviation db := (st Store EmilyError).

(** [CreateDepositRequestBody::validate] *)
Definition parse_with_custom_error {A} (o : option A) (error_msg : string) : outcome EmilyError A := ok_or o (EeBadRequest error_msg).
Definition validate_body (b : CreateDepositRequestBody) (is_mainnet : bool) : outcome EmilyError DepositInfo :=
  txid ← parse_with_custom_error (txid_from_str (cdb_bitcoin_txid b)) "invalid bitcoin txid";
  reclaim ← parse_with_custom_error (script_from_hex (cdb_reclaim_script b)) "invalid reclaim script";
  deposit ← parse_with_custom_error (script_from_hex (cdb_deposit_script b)) "invalid deposit script";
  tx ← parse_with_custom_error (transaction_from_hex (cdb_transaction_hex b)) "invalid transaction hex";
  _ ← ok_or (tx_output tx !! Z.to_nat (cdb_bitcoin_tx_output_index b)) (EeBadRequest "invalid bitcoin output index");
  map_err (fun e => EeBadRequest (deposit_error_text e))
    (validate_tx (mkCreateDeposit (mkOutPoint txid (cdb_bitcoin_tx_output_index b)) reclaim deposit) tx is_mainnet).

Definition get_deposit (txid : string) (index : Z) : db (Z * Deposit) :=
  e <- get_deposit_entry (mkDepositKey txid index);;
  d <- st_lift (deposit_try_from e);;
  st_ret (200, d).
Definition get_deposits_for_transaction (txid : string) (next : option Token) (page_size : option Z) : db (Z * (list Deposit * option Token)) :=
  page <- get_deposit_entries_for_transaction txid next page_size;;
  ds <- st_map (fun e => st_lift (deposit_try_from e)) page.1;;
  st_ret (200, (ds, page.2)).

Definition new_deposit_entry (b : CreateDepositRequestBody) (info : DepositInfo) (reclaim_pubkeys_hash : option string) (tip : ChainstateEntry) : DepositEntry :=
  let hash := ck_hash (ce_key tip) in
  let height := ck_height (ce_key tip) in
  mkDepositEntry (mkDepositKey (cdb_bitcoin_txid b) (cdb_bitcoin_tx_output_index b)) 0
    (hex_encode (principal_serialize (dinfo_recipient info))) (dinfo_amount info)
    (mkDepositParameters (dinfo_max_fee info) (to_consensus_u32 (dinfo_lock_time info))) DsPending (cdb_reclaim_script b) (cdb_deposit_script b)
    height hash None [mkDepositEvent DepositPending "Just received deposit" height hash] reclaim_pubkeys_hash None.
Definition create_deposit (b : CreateDepositRequestBody) (is_mainnet : bool) : db (Z * Deposit) :=
  api_state <- get_api_state;;
  st_lift (error_if_reorganizing api_state);;;
  info <- st_lift (validate_body b is_mainnet);;
  entry <- st_result (get_deposit_entry (mkDepositKey (cdb_bitcoin_txid b) (cdb_bitcoin_tx_output_index b)));;
  match entry with
  | inl e => d <- st_lift (deposit_try_from e);; st_ret (200, d)
  | inr EeNotFound =>
      reclaim_pubkeys_hash <- st_lift (infallible (extract_reclaim_pubkeys_hash (dinfo_reclaim_script info)));;
      let e := new_deposit_entry b info reclaim_pubkeys_hash (chaintip api_state) in
      st_lift (deposit_validate e);;;
      add_deposit_entry e;;;
      d <- st_lift (deposit_try_from e);;
      st_ret (201, d)
  | inr err => st_throw err
  end.

Definition update_deposit_item (is_from_trusted_source : bool) (x : Z * outcome ValidationError ValidatedDepositUpdate) : db (Z * DepositWithStatus) :=
  match x.2 with
  | Ok u =>
      r <- st_result (pull_and_update_deposit_with_retry u 15 is_from_trusted_source);;
      match r with
      | inl e => d <- st_lift (deposit_try_from e);; st_ret (x.1, mkDepositWithStatus (Some d) None 200)
      | inr EeNotFound => st_ret (x.1, mkDepositWithStatus None (Some (inr EeNotFound)) 404)
      | inr EeForbidden => st_ret (x.1, mkDepositWithStatus None (Some (inr EeForbidden)) 403)
      | inr err => st_ret (x.1, mkDepositWithStatus None (Some (inr (into_production_error err))) 500)
      end
  | Err error => st_ret (x.1, mkDepositWithStatus None (Some (inl error)) 400)
  | Panic => st_lift Panic
  | Diverge => st_lift Diverge
  end.
Definition by_index {A} (l : list (Z * A)) : list A := (sort_by_key (fun x => [[x.1]]) l).*2.
Definition update_deposits (api_state : ApiStateEntry) (body : list DepositUpdate) (is_from_trusted_source : bool) : db (Z * list DepositWithStatus) :=
  let validated_request := deposits_into_validated body (chainstate_from (chaintip api_state)) in
  updated_deposits <- st_map (update_deposit_item is_from_trusted_source) validated_request;;
  st_ret (200, by_index updated_deposits).
Definition update_deposits_signer (body : list DepositUpdate) : db (Z * list DepositWithStatus) :=
  api_state <- get_api_state;;
  st_lift (error_if_reorganizing api_state);;;
  update_deposits api_state body false.
Definition update_deposits_sidecar (body : list DepositUpdate) : db (Z * list DepositWithStatus) :=
  api_state <- get_api_state;;
  st_lift (error_if_reorganizing api_state);;;
  update_deposits api_state body true.

(** ** Withdrawals *)
Definition get_withdrawal (id : Z) : db (Z * Withdrawal) :=
  e <- get_withdrawal_entry id;;
  w <- st_lift (withdrawal_try_from e);;
  st_ret (200, w).
Definition new_withdrawal_entry (b : CreateWithdrawalRequestBody) (bitcoin_block_height : option Z) : WithdrawalEntry :=
  let hash := cwb_stacks_block_hash b in
  let height := cwb_stacks_block_height b in
  mkWithdrawalEntry (mkWithdrawalKey (cwb_request_id b) hash) height 0 (cwb_recipient b) (cwb_sender b) (cwb_amount b) (cwb_max_fee b)
    WsPending height hash (cwb_txid b)
    [mkWithdrawalEvent WithdrawalPending "Just received withdrawal" height hash (mkExpected bitcoin_block_height None)].
Definition create_withdrawal (b : CreateWithdrawalRequestBody) : db (Z * Withdrawal) :=
  api_state <- get_api_state;;
  st_lift (error_if_reorganizing api_state);;;
  chainstate <- st_result (get_chainstate_entry_at_height (cwb_stacks_block_height b));;
  bitcoin_block_height <- match (match chainstate with inl c => ce_bitcoin_height c | inr _ => None end) with
    | Some height =>
        h <- st_lift (h ← add_u 64 height WITHDRAWAL_MIN_CONFIRMATIONS; add_u 64 h 1);;
        st_ret (Some h)
    | None => st_ret None
    end;;
  let e := new_withdrawal_entry b bitcoin_block_height in
  st_lift (withdrawal_validate e);;;
  add_withdrawal_entry e;;;
  w <- st_lift (withdrawal_try_from e);;
  st_ret (201, w).

Definition update_withdrawal_item (is_from_trusted_source : bool) (x : Z * outcome ValidationError ValidatedWithdrawalUpdate) : db (Z * WithdrawalWithStatus) :=
  match x.2 with
  | Ok u =>
      r <- st_result (pull_and_update_withdrawal_with_retry u 15 is_from_trusted_source);;
      match r with
      | inl e => w <- st_lift (withdrawal_try_from e);; st_ret (x.1, mkWithdrawalWithStatus (Some w) None 200)
      | inr EeNotFound => st_ret (x.1, mkWithdrawalWithStatus None (Some (inr EeNotFound)) 404)
      | inr EeForbidden => st_ret (x.1, mkWithdrawalWithStatus None (Some (inr EeForbidden)) 403)
      | inr err => st_ret (x.1, mkWithdrawalWithStatus None (Some (inr (into_production_error err))) 500)
      end
  | Err error => st_ret (x.1, mkWithdrawalWithStatus None (Some (inl error)) 400)
  | Panic => st_lift Panic
  | Diverge => st_lift Diverge
  end.
Definition update_withdrawals (api_state : ApiStateEntry) (body : list WithdrawalUpdate) (is_from_trusted_source : bool) : db (Z * list WithdrawalWithStatus) :=
  let validated_request := withdrawals_into_validated body (chainstate_from (chaintip api_state)) in
  updated_withdrawals <- st_map (update_withdrawal_item is_from_trusted_source) validated_request;;
  st_ret (200, by_index updated_withdrawals).
Definition update_withdrawals_signer (body : list WithdrawalUpdate) : db (Z * list WithdrawalWithStatus) :=
  api_state <- get_api_state;;
  st_lift (error_if_reorganizing api_state);;;
  update_withdrawals api_state body false.
Definition update_withdrawals_sidecar (body : list WithdrawalUpdate) : db (Z * list WithdrawalWithStatus) :=
  api_state <- get_api_state;;
  st_lift (error_if_reorganizing api_state);;;
  update_withdrawals api_state body true.

(** ** Reorganisations *)
Definition MAX_SET_API_STATE_ATTEMPTS_DURING_REORG : nat := 20.
Definition ENTRY_UPDATE_RETRIES : nat := 4.
Definition NO_REORG_DEPTH : Z := 6.

Fixpoint set_api_state_attempts (attempts : nat) (new_status : ApiStatus) : db (option ApiStateEntry) :=
  match attempts with
  | O => st_throw EeInternalServer
  | S attempts =>
      original <- get_api_state;;
      let attempt := on_conflict (set_api_state (with_status new_status original);;; st_ret (Some (with_status new_status original)))
                       (set_api_state_attempts attempts new_status) in
      match new_status, as_api_status original with
      | Reorg _, Stable _ | Stable _, Reorg _ => attempt
      | Stable new_tip, Stable old_tip => if bool_decide (new_tip = old_tip) then st_ret None else attempt
      | Reorg new_tip, Reorg current_tip =>
          if bool_decide (ce_key new_tip = ce_key current_tip) then st_ret None
          else st_throw (EeItemUpdate "Trying to reorg with new chaintip while the API is already reorganizing")
      end
  end.
Definition set_api_state_status (new_status : ApiStatus) : db (option ApiStateEntry) :=
  set_api_state_attempts MAX_SET_API_STATE_ATTEMPTS_DURING_REORG new_status.

(** The attempts to reorganise one entry; after the last one the entry is left as it
    is. *)
Fixpoint reorganize_deposit (attempts : nat) (tip : Chainstate) (k : DepositEntryKey) : db unit :=
  match attempts with
  | O => st_ret tt
  | S attempts =>
      e <- get_deposit_entry k;;
      e <- st_lift (deposit_reorganize_around tip e);;
      on_conflict (set_deposit_entry e) (reorganize_deposit attempts tip k)
  end.
Fixpoint reorganize_withdrawal (attempts : nat) (tip : Chainstate) (request_id : Z) : db unit :=
  match attempts with
  | O => st_ret tt
  | S attempts =>
      e <- get_withdrawal_entry request_id;;
      e <- st_lift (withdrawal_reorganize_around tip e);;
      on_conflict (set_withdrawal_entry e) (reorganize_withdrawal attempts tip request_id)
  end.
Definition execute_reorg_handler (pages : nat) (canonical_tip : Chainstate) : db unit :=
  claimed <- set_api_state_status (Reorg (chainstate_entry_from canonical_tip));;
  match claimed with
  | None => st_ret tt
  | Some _ =>
      all_deposits <- get_all_deposit_entries_modified_from_height pages (ch_stacks_block_height canonical_tip);;
      st_map (fun d => reorganize_deposit ENTRY_UPDATE_RETRIES canonical_tip (dif_primary_index_key d)) all_deposits;;;
      all_withdrawals <- get_all_withdrawal_entries_modified_from_height pages (ch_stacks_block_height canonical_tip);;
      st_map (fun w => reorganize_withdrawal ENTRY_UPDATE_RETRIES canonical_tip (wk_request_id (wif_primary_index_key w))) all_withdrawals;;;
      set_api_state_status (Stable (chainstate_entry_from canonical_tip));;;
      st_ret tt
  end.

(** ** Chain state *)
Definition add_chainstate_entry_or_reorg (pages : nat) (c : Chainstate) : db unit :=
  api_state <- get_api_state;;
  if (match ce_bitcoin_height (chaintip api_state), ch_bitcoin_block_height c with
      | Some current, Some new => new <? (current ∸ NO_REORG_DEPTH)%rust
      | _, _ => false
      end) then st_ret tt else
  r <- st_result (add_chainstate_entry_with_retry (chainstate_entry_from c) 15);;
  match r with
  | inl _ => st_ret tt
  | inr (EeChainstates _) => execute_reorg_handler pages c
  | inr e => st_throw e
  end.
Definition set_chainstate (pages : nat) (body : Chainstate) : db (Z * Chainstate) :=
  add_chainstate_entry_or_reorg pages body;;; st_ret (201, body).
Definition get_chain_tip : db (Z * Chainstate) :=
  api_state <- get_api_state;; st_ret (200, chainstate_from (chaintip api_state)).
Definition get_chainstate_at_height (height : Z) : db (Z * Chainstate) :=
  c <- get_chainstate_entry_at_height height;; st_ret (200, chainstate_from c).

(** ** Limits *)
Definition limits_validate (l : AccountLimits) : outcome ValidationError unit :=
  match al_rolling_withdrawal_blocks l, al_rolling_withdrawal_cap l with
  | Some _, None | None, Some _ => Err VeIncompleteWithdrawalLimitConfig
  | _, _ => Ok tt
  end.
(** [from_account_limit] at the time [now], in seconds. *)
Definition from_account_limit (account : string) (now : Z) (l : AccountLimits) : LimitEntry := mkLimitEntry (mkLimitKey account now) l.
(** [now account]: the reading of the clock for the entry of [account]. *)
Definition set_limits (pages : nat) (default_limits : AccountLimits) (now : string -> Z) (limits : Limits) : db (Z * Limits) :=
  st_lift (map_err EeValidation (limits_validate (li_global limits)));;;
  set_limit_for_account (from_account_limit GLOBAL_CAP_ACCOUNT (now GLOBAL_CAP_ACCOUNT) (li_global limits));;;
  st_map (fun kv => set_limit_for_account (from_account_limit kv.1 (now kv.1) kv.2)) (map_to_list (li_account_caps limits));;;
  global_limits <- get_limits pages default_limits;;
  st_ret (201, global_limits).
Definition get_limits_for_account (account : string) : db (Z * AccountLimits) :=
  e <- get_limit_for_account account;; st_ret (200, le_limits e).
Definition set_limits_for_account (account : string) (now : Z) (l : AccountLimits) : db (Z * AccountLimits) :=
  set_limit_for_account (from_account_limit account now l);;; st_ret (200, l).

(** ** Throttling *)
Definition THROTTLE_MODE_ROLLING_WINDOW : Z := 18.
Definition THROTTLE_MODE_ROLLING_CAP : Z := 200000000.
Definition THROTTLE_MODE_PER_WITHDRAWAL_CAP : Z := 150000000.
Definition map_or {A B} (d : B) (f : A -> B) (o : option A) : B := match o with Some a => f a | None => d end.
Definition throttled (initiator : string) (l : AccountLimits) : AccountLimits :=
  mkAccountLimits (al_peg_cap l) (al_per_deposit_minimum l) (al_per_deposit_cap l)
    (Some (map_or THROTTLE_MODE_PER_WITHDRAWAL_CAP (fun curr => Z.min curr THROTTLE_MODE_PER_WITHDRAWAL_CAP) (al_per_withdrawal_cap l)))
    (Some (map_or THROTTLE_MODE_ROLLING_WINDOW (fun curr => Z.max curr THROTTLE_MODE_ROLLING_WINDOW) (al_rolling_withdrawal_blocks l)))
    (Some (map_or THROTTLE_MODE_ROLLING_CAP (fun curr => Z.min curr THROTTLE_MODE_ROLLING_CAP) (al_rolling_withdrawal_cap l)))
    (Some initiator).
Definition calculate_throttle_mode_limits (pages : nat) (default_limits : AccountLimits) (initiator : string) : db Limits :=
  limits <- get_limits pages default_limits;;
  st_ret (mkLimits (li_available_to_withdraw limits) (throttled initiator (li_global limits)) (li_account_caps limits)).

Definition start_throttle `{ThrottleHash} (pages : nat) (default_limits : AccountLimits) (now : string -> Z) (name secret : string) : db (Z * Limits) :=
  verification_result <- verify_throttle_key name secret;;
  match verification_result with
  | Revoked => st_throw EeForbidden
  | Eligible initiator =>
      new_limits <- calculate_throttle_mode_limits pages default_limits initiator;;
      res <- st_result (set_limits pages default_limits now new_limits);;
      match res with
      | inl _ => st_ret (200, new_limits)
      | inr _ => st_throw EeInternalServer
      end
  end.
Definition throttle_hash_error : EmilyError :=
  EeDeserialization "Error hashing the secret. Usually happens due to failed conversion of name into salt".
Definition add_throttle_key_handler `{ThrottleHash} (now : Z) (name secret : string) : db (Z * unit) :=
  salt <- st_lift (name_to_salt name);;
  hash <- st_ok_or (hash_password secret salt) throttle_hash_error;;
  add_throttle_key (mkThrottleKey (mkThrottleKeyKey hash now) true name);;;
  st_ret (201, tt).
Definition deactivate_throttle_key_handler (hash : string) : db (Z * unit) := deactivate_throttle_key hash;;; st_ret (204, tt).
Definition activate_throttle_key_handler (hash : string) : db (Z * unit) := activate_throttle_key hash;;; st_ret (204, tt).
End Handlers.
