(* ===== verification/EmilySafety.v ===== *)
(** The Emily API among its other instances: what every handler keeps, however its
    requests interleave with those of other clients and whichever of them fail.

    The argument is rely and guarantee. [fair] is what a well-behaved client may do
    to the tables in one step: an entry stays as it is or gets a higher version, and
    valid tables stay valid. If the other clients are fair then so is every write of
    the handlers that update, reorganise or extend the chain: a conditional write
    goes through only on the entry that was read, because along fair steps a version
    identifies the entry that has it ([sound]). *)

From stdpp Require Import strings.
From S2P Require Import Prelude Effects Types Bitcoin Deposits EmilyEntries EmilyStore EmilyAccessors EmilyHandlers.

(** ** Fair steps *)
Definition deposits_ok (t : Tables) : Prop := map_Forall (fun k e => de_key e = k /\ deposit_ok e) (tb_deposits t).
Definition withdrawals_ok (t : Tables) : Prop := map_Forall (fun k e => we_key e = k /\ withdrawal_ok e) (tb_withdrawals t).
(** What the tables hold is valid, under its own key, with a chronological history. *)
Definition tables_ok (t : Tables) : Prop := deposits_ok t /\ withdrawals_ok t.

Definition entry_grows {K E} `{Countable K} (version : E -> Z) (m m' : gmap K E) : Prop :=
  forall k e, m !! k = Some e -> exists e', m' !! k = Some e' /\ (e' = e \/ version e < version e').
Definition grows (t t' : Tables) : Prop :=
  entry_grows de_version (tb_deposits t) (tb_deposits t') /\ entry_grows we_version (tb_withdrawals t) (tb_withdrawals t').
Definition fair (t t' : Tables) : Prop := grows t t' /\ (tables_ok t -> tables_ok t').

#[global] Instance entry_grows_preorder {K E} `{Countable K} (version : E -> Z) : PreOrder (entry_grows (K := K) version).
Proof.
  split.
  - intros m k e Hk. exists e. by split; [|left].
  - intros m1 m2 m3 H12 H23 k e Hk. apply H12 in Hk as (e2 & Hk2 & H2). apply H23 in Hk2 as (e3 & Hk3 & H3). exists e3. split; [done|].
    destruct H2 as [-> |H2], H3 as [-> |H3]; [by left|by right|by right|right; lia].
Qed.
#[global] Instance grows_preorder : PreOrder grows.
Proof. split; [by intros t|]. intros t1 t2 t3 [? ?] [? ?]. split; by etrans. Qed.
#[global] Instance fair_preorder : PreOrder fair.
Proof. split; [by intros t|]. intros t1 t2 t3 [H12 Ho12] [H23 Ho23]. split; [by etrans|auto]. Qed.

Lemma entry_grows_insert {K E} `{Countable K} (version : E -> Z) (m : gmap K E) k e :
  (forall e0, m !! k = Some e0 -> e = e0 \/ version e0 < version e) -> entry_grows version m (<[k := e]> m).
Proof.
  intros Hk k' e' Hk'. destruct (decide (k = k')) as [<- |Hne]; [|rewrite lookup_insert_ne by done; exists e'; by split; [|left]].
  exists e. rewrite lookup_insert_eq. split; [done|auto].
Qed.
(** Storing an entry that is new, or a successor of the one that was there. *)
Lemma put_deposit_fair e t : deposit_ok e -> (forall e0, tb_deposits t !! de_key e = Some e0 -> e = e0 \/ de_version e0 < de_version e) -> fair t (put_deposit e t).
Proof.
  intros He Hv. split.
  - split; [by apply entry_grows_insert|]. cbn. done.
  - intros [Hd Hw]. split; [|done]. unfold deposits_ok. cbn. by apply map_Forall_insert_2.
Qed.
Lemma put_withdrawal_fair e t : withdrawal_ok e -> (forall e0, tb_withdrawals t !! we_key e = Some e0 -> e = e0 \/ we_version e0 < we_version e) ->
  fair t (put_withdrawal e t).
Proof.
  intros He Hv. split.
  - split; [|by apply entry_grows_insert]. cbn. done.
  - intros [Hd Hw]. split; [done|]. unfold withdrawals_ok. cbn. by apply map_Forall_insert_2.
Qed.
(** The other tables are free. *)
Lemma fair_other t t' : tb_deposits t' = tb_deposits t -> tb_withdrawals t' = tb_withdrawals t -> fair t t'.
Proof. intros Hd Hw. unfold fair, grows, tables_ok, deposits_ok, withdrawals_ok. rewrite Hd, Hw. split; [by split|done]. Qed.

Class FairClients (others : relation Tables) : Prop := others_fair t t' : others t t' -> fair t t'.

(** ** Runs among fair clients *)
Section Runs.
Context `{L : DynamoLaws others} `{!FairClients others}.

(** Everything the store has had is valid and has only grown since. *)
Definition sound (s : Store) : Prop := forall u, seen s u -> tables_ok u /\ grows u (now s).
Definition later (s s' : Store) : Prop := forall u, seen s u -> seen s' u.
#[global] Instance later_preorder : PreOrder later.
Proof. split; [by intros s u|]. intros s1 s2 s3 H12 H23 u Hu. auto. Qed.

(** [m] keeps the store sound, whatever its outcome; a value has [Q]. *)
Definition runs {A} (m : st Store EmilyError A) (s : Store) (Q : A -> Store -> Prop) : Prop :=
  sound s -> later s (m s).1 /\ sound (m s).1 /\ match (m s).2 with Ok a => Q a (m s).1 | _ => True end.

Lemma runs_sound {A} (m : st Store EmilyError A) s (Q : A -> Store -> Prop) : (sound s -> runs m s Q) -> runs m s Q.
Proof. intros Hm Hs. by apply Hm. Qed.
Lemma runs_ret {A} (a : A) s (Q : A -> Store -> Prop) : (sound s -> Q a s) -> runs (st_ret a) s Q.
Proof. intros HQ Hs. split; [done|]. split; [done|]. by apply HQ. Qed.
Lemma runs_throw {A} e s (Q : A -> Store -> Prop) : runs (st_throw e) s Q.
Proof. by intros Hs. Qed.
Lemma runs_lift {A} (o : outcome EmilyError A) s (Q : A -> Store -> Prop) : (sound s -> forall a, o = Ok a -> Q a s) -> runs (st_lift o) s Q.
Proof. intros HQ Hs. split; [done|]. split; [done|]. cbn. destruct o; auto. Qed.
Lemma runs_ok_or {A} (o : option A) e s (Q : A -> Store -> Prop) : (sound s -> forall a, o = Some a -> Q a s) -> runs (st_ok_or o e) s Q.
Proof. intros HQ. apply runs_lift. intros Hs a Ha%ok_or_ok. auto. Qed.
Lemma runs_bind {A B} (m : st Store EmilyError A) (k : A -> st Store EmilyError B) s (Q' : A -> Store -> Prop) (Q : B -> Store -> Prop) :
  runs m s Q' -> (forall a s', later s s' -> Q' a s' -> runs (k a) s' Q) -> runs (st_bind m k) s Q.
Proof.
  intros Hm Hk Hs. unfold st_bind. destruct (Hm Hs) as (Hl & Hs' & HQ). destruct (m s) as [s' []]; cbn in *; try done.
  destruct (Hk a s' Hl HQ Hs') as (Hl' & Hs'' & HQ'). split; [by etrans|done].
Qed.
Lemma runs_weaken {A} (m : st Store EmilyError A) s (Q Q' : A -> Store -> Prop) : runs m s Q' -> (forall a s', Q' a s' -> Q a s') -> runs m s Q.
Proof. intros Hm HQ Hs. destruct (Hm Hs) as (Hl & Hs' & HQ'). split; [done|]. split; [done|]. destruct ((m s).2); auto. Qed.
Lemma runs_result {A} (m : st Store EmilyError A) s (Q : A -> Store -> Prop) : runs m s Q -> runs (st_result m) s (fun r s' => match r with inl a => Q a s' | inr _ => True end).
Proof. intros Hm Hs. destruct (Hm Hs) as (Hl & Hs' & HQ). unfold st_result. destruct (m s) as [s' []]; cbn in *; done. Qed.
Lemma runs_map_err {A} f (m : st Store EmilyError A) s (Q : A -> Store -> Prop) : runs m s Q -> runs (st_map_err f m) s Q.
Proof. intros Hm Hs. destruct (Hm Hs) as (Hl & Hs' & HQ). unfold st_map_err. destruct (m s) as [s' []]; cbn in *; done. Qed.
Lemma runs_on_conflict {A} (m retry : st Store EmilyError A) s (Q : A -> Store -> Prop) :
  runs m s Q -> (forall s', later s s' -> runs retry s' Q) -> runs (on_conflict m retry) s Q.
Proof.
  intros Hm Hr. unfold on_conflict. apply (runs_bind _ _ _ _ _ (runs_result _ _ _ Hm)). intros [a|e] s' Hl HQ; [by apply runs_ret|].
  destruct e; try apply runs_throw. by apply Hr.
Qed.
Lemma runs_map {A B} (f : A -> st Store EmilyError B) l s (Q : A -> B -> Prop) :
  (forall a s', a ∈ l -> later s s' -> runs (f a) s' (fun b _ => Q a b)) -> runs (st_map f l) s (fun bs _ => Forall2 Q l bs).
Proof.
  revert s. induction l as [|a l IH]; intros s Hf; cbn; [apply runs_ret; intros; constructor|].
  eapply runs_bind; [apply Hf; [left|done]|]. intros b s1 H1 Hb. eapply runs_bind; [apply IH|].
  - intros a' s' Ha Hl. apply Hf; [by right|by etrans].
  - intros bs s2 H2 Hbs. apply runs_ret. intros _. by constructor.
Qed.

(** *** Requests *)
Lemma runs_read {A} (r : request Token A) s : write r = None -> runs (send r) s (fun a s' => answers (seen s') r a).
Proof.
  intros Hw Hs. destruct (send_law r s) as (t & Ht & Hseen & Hlaw). rewrite Hw in Hlaw. destruct Hlaw as [Hnow Ho].
  assert (fair (now s) t) as [Hg Hok] by by apply others_fair. split; [intros u; apply seen_mono|]. split.
  - intros u Hu. rewrite Hnow in *. destruct (Hseen u Hu) as [Hu'|[[H1 H2]| ->]].
    + destruct (Hs u Hu'). split; [done|by etrans].
    + apply others_fair in H1 as [H1 Hok1], H2 as [H2 _]. split; [apply Hok1, Hs, seen_now|done].
    + split; [apply Hok, Hs, seen_now|done].
  - destruct Ho as [-> |(a & -> & Ha)]; done.
Qed.
(** A write that is fair on every content that the store may have by now; it
    answers from one of them. *)
Definition wrote {A} (w : Tables -> outcome EmilyError A * Tables) (s : Store) (a : A) (s' : Store) : Prop :=
  exists t, tables_ok t /\ (forall u, seen s u -> grows u t) /\ w t = (Ok a, now s').
Lemma runs_write {A} (r : request Token A) w s : write r = Some w ->
  (forall t, tables_ok t -> (forall u, seen s u -> grows u t) -> fair t (w t).2) -> runs (send r) s (wrote w s).
Proof.
  intros Hw Hfair Hs. destruct (send_law r s) as (t & Ht & Hseen & Hlaw). rewrite Hw in Hlaw.
  assert (fair (now s) t) as [Hg Hok] by by apply others_fair.
  assert (tables_ok t) as Hokt by (apply Hok, Hs, seen_now).
  assert (forall u, seen s u -> grows u t) as Hgt by (intros u Hu; etrans; [by apply Hs|done]).
  assert (fair t (now (send r s).1)) as [Hg' Hok'].
  { destruct Hlaw as [Hlaw|[_ [-> | ->]]]; [|done|by apply Hfair].
    replace (now (send r s).1) with (w t).2 by by rewrite Hlaw. by apply Hfair. }
  split; [intros u; apply seen_mono|]. split.
  - intros u Hu. destruct (Hseen u Hu) as [Hu'|[[H1 H2]| ->]].
    + destruct (Hs u Hu'). split; [done|]. etrans; [by apply Hgt|done].
    + apply others_fair in H1 as [H1 Hok1], H2 as [H2 _]. split; [apply Hok1, Hs, seen_now|by etrans].
    + split; [auto|done].
  - destruct Hlaw as [Hlaw|[-> _]]; [|done]. destruct ((send r s).2) as [a|e| |]; try done. by exists t.
Qed.
(** Writes to the tables that hold no requests. *)
Lemma runs_other {A} (r : request Token A) w s : write r = Some w ->
  (forall t, tb_deposits (w t).2 = tb_deposits t /\ tb_withdrawals (w t).2 = tb_withdrawals t) -> runs (send r) s (fun _ _ => True).
Proof.
  intros Hw Hf. eapply runs_weaken; [apply (runs_write r w); [done|]|done]. intros t _ _. apply fair_other; apply Hf.
Qed.

(** *** What is known of an entry that was read *)
Definition known_deposit (e : DepositEntry) (s : Store) : Prop := exists u, seen s u /\ tb_deposits u !! de_key e = Some e.
Definition known_withdrawal (e : WithdrawalEntry) (s : Store) : Prop := exists u, seen s u /\ tb_withdrawals u !! we_key e = Some e.
Lemma known_deposit_later e s s' : later s s' -> known_deposit e s -> known_deposit e s'.
Proof. intros Hl (u & Hu & He). exists u. auto. Qed.
Lemma known_withdrawal_later e s s' : later s s' -> known_withdrawal e s -> known_withdrawal e s'.
Proof. intros Hl (u & Hu & He). exists u. auto. Qed.
Lemma known_deposit_ok e s : sound s -> known_deposit e s -> deposit_ok e.
Proof. intros Hs (u & Hu & He). destruct (Hs u Hu) as [[Hok _] _]. by apply Hok in He as []. Qed.
Lemma known_withdrawal_ok e s : sound s -> known_withdrawal e s -> withdrawal_ok e.
Proof. intros Hs (u & Hu & He). destruct (Hs u Hu) as [[_ Hok] _]. by apply Hok in He as []. Qed.

(** A version identifies the entry that has it. *)
Lemma deposit_version_identifies e e' s t : known_deposit e s -> (forall u, seen s u -> grows u t) ->
  tb_deposits t !! de_key e = Some e' -> de_version e' = de_version e -> e' = e.
Proof.
  intros (u & Hu & He) Hg He' Hv. destruct (Hg u Hu) as [Hd _]. apply Hd in He as (e'' & He'' & [-> |Hlt]); simplify_eq; [done|lia].
Qed.
Lemma withdrawal_version_identifies e e' s t : known_withdrawal e s -> (forall u, seen s u -> grows u t) ->
  tb_withdrawals t !! we_key e = Some e' -> we_version e' = we_version e -> e' = e.
Proof.
  intros (u & Hu & He) Hg He' Hv. destruct (Hg u Hu) as [_ Hd]. apply Hd in He as (e'' & He'' & [-> |Hlt]); simplify_eq; [done|lia].
Qed.

(** *** Reads *)
Lemma runs_get_deposit k s : runs (get_deposit_entry k) s (fun e s' => known_deposit e s' /\ de_key e = k).
Proof.
  eapply runs_bind; [by apply runs_read|]. intros a s1 _ (u & Hu & Ha). apply runs_ok_or. intros Hs e ->.
  destruct (Hs u Hu) as [[Hok _] _]. destruct (Hok k e) as [Hk _]; [done|]. split; [|done]. exists u. by rewrite Hk.
Qed.
Lemma runs_get_chainstate h s : runs (get_chainstate_entry_at_height h) s (fun _ _ => True).
Proof.
  eapply runs_bind; [by apply runs_read|]. intros [es o] s1 _ _. cbn. destruct es as [|e [|]]; [apply runs_throw|by apply runs_ret|apply runs_throw].
Qed.
Lemma runs_get_api_state s : runs get_api_state s (fun _ _ => True).
Proof.
  eapply runs_bind; [by apply runs_read|]. intros [a|] s1 _ _; [by apply runs_ret|].
  eapply runs_bind; [by eapply runs_other|]. intros _ s2 _ _. by apply runs_ret.
Qed.
Lemma values_elem `{Countable K} {V} (m : gmap K V) v : v ∈ values m <-> exists k, m !! k = Some v.
Proof.
  unfold values. rewrite list_elem_of_fmap. split.
  - intros ([k v'] & -> & Hk%elem_of_map_to_list). by exists k.
  - intros [k Hk]. exists (k, v). split; [done|]. by apply elem_of_map_to_list.
Qed.
Lemma filter_elem {A} (p : A -> bool) l x : x ∈ List.filter p l <-> x ∈ l /\ p x = true.
Proof. rewrite !list_elem_of_In. apply filter_In. Qed.
Lemma runs_get_withdrawal id s : runs (get_withdrawal_entry id) s (fun e s' => known_withdrawal e s' /\ wk_request_id (we_key e) = id).
Proof.
  eapply runs_bind; [by apply runs_read|]. intros [es o] s1 H1 Ha. cbn in Ha. cbn [fst].
  assert (sound s1 -> forall e, e ∈ es -> known_withdrawal e s1 /\ wk_request_id (we_key e) = id) as Hes.
  { intros Hs e (u & Hu & [(k & Hk)%values_elem Hid]%filter_elem)%Ha. destruct (Hs u Hu) as [[_ Hok] _]. destruct (Hok k e Hk) as [<- _].
    split; [by exists u|]. by apply Z.eqb_eq in Hid. }
  destruct es as [|e [|e' es]]; [apply runs_throw|apply runs_ret; intros Hs; apply Hes; [done|left]|].
  apply runs_sound. intros Hs1. specialize (Hes Hs1). set (l := e :: e' :: es) in *.
  eapply runs_bind.
  - apply (runs_map _ _ _ (fun w b => b.1 = w)). intros w s2 _ _. eapply runs_bind; [apply runs_map_err; unfold is_in_canonical_chain|].
    + eapply runs_bind; [apply runs_get_chainstate|]. intros c s3 _ _. by apply (runs_ret _ _ (fun _ _ => True)).
    + intros b s3 _ _. by apply runs_ret.
  - intros marked s2 H2 Hm. destruct ((List.filter snd marked).*1) as [|w [|]] eqn:Hf; try apply runs_throw.
    apply runs_ret. intros _. assert (w ∈ l) as Hw.
    { assert (w ∈ (List.filter snd marked).*1) as Hw by (rewrite Hf; left). apply list_elem_of_fmap in Hw as ([w' b] & -> & [Hb _]%filter_elem).
      apply list_elem_of_lookup in Hb as [i Hi]. destruct (Forall2_lookup_r _ _ _ _ _ Hm Hi) as (w & Hw & <-). by apply list_elem_of_lookup_2 in Hw. }
    destruct (Hes w Hw) as [Hk Hid]. split; [|done]. by apply (known_withdrawal_later w s1).
Qed.

(** *** Conditional writes *)
Lemma runs_update_deposit p e u s : known_deposit e s -> deposit_package_try_from e u = Ok p ->
  runs (update_deposit p) s (fun e' s' => e' = deposit_apply p e /\ known_deposit e' s').
Proof.
  intros Hk Hp. apply runs_sound. intros Hs. pose proof (known_deposit_ok _ _ Hs Hk) as Hok.
  destruct (deposit_apply_ok e u p Hok Hp) as (Hok' & _ & Hkey & Hv & _).
  eapply runs_bind; [eapply runs_write; [done|]|].
  - intros t Ht Hg. cbn. rewrite Hkey. destruct (tb_deposits t !! de_key e) as [e'|] eqn:He'; [|done]. unfold conditional.
    destruct (Z.eqb_spec (de_version e') (dup_version p)) as [Hve|]; [|done]. cbn. rewrite Hv in Hve.
    rewrite (deposit_version_identifies e e' s t Hk Hg He' Hve) in *. apply put_deposit_fair; [done|]. cbn. intros e0 He0. simplify_eq. right. lia.
  - intros a s' Hl (t & Ht & Hg & Hw). apply runs_ok_or. intros _ e1 ->. cbn in Hw. rewrite Hkey in Hw.
    destruct (tb_deposits t !! de_key e) as [e'|] eqn:He'; [|done]. unfold conditional in Hw.
    destruct (Z.eqb_spec (de_version e') (dup_version p)) as [Hve|]; [|done]. rewrite Hv in Hve.
    rewrite (deposit_version_identifies e e' s t Hk Hg He' Hve) in *. injection Hw as <- Hnow. split; [done|]. exists (now s'). split; [apply seen_now|].
    rewrite <- Hnow. cbn. by rewrite lookup_insert_eq.
Qed.
Lemma runs_update_withdrawal p e u s : known_withdrawal e s -> withdrawal_package_try_from e u = Ok p ->
  runs (update_withdrawal p) s (fun e' s' => e' = withdrawal_apply p e /\ known_withdrawal e' s').
Proof.
  intros Hk Hp. apply runs_sound. intros Hs. pose proof (known_withdrawal_ok _ _ Hs Hk) as Hok.
  destruct (withdrawal_apply_ok e u p Hok Hp) as (Hok' & Hkey & Hv & _).
  eapply runs_bind; [eapply runs_write; [done|]|].
  - intros t Ht Hg. cbn. rewrite Hkey. destruct (tb_withdrawals t !! we_key e) as [e'|] eqn:He'; [|done]. unfold conditional.
    destruct (Z.eqb_spec (we_version e') (wup_version p)) as [Hve|]; [|done]. cbn. rewrite Hv in Hve.
    rewrite (withdrawal_version_identifies e e' s t Hk Hg He' Hve) in *. apply put_withdrawal_fair; [done|]. cbn. intros e0 He0. simplify_eq. right. lia.
  - intros a s' Hl (t & Ht & Hg & Hw). apply runs_ok_or. intros _ e1 ->. cbn in Hw. rewrite Hkey in Hw.
    destruct (tb_withdrawals t !! we_key e) as [e'|] eqn:He'; [|done]. unfold conditional in Hw.
    destruct (Z.eqb_spec (we_version e') (wup_version p)) as [Hve|]; [|done]. rewrite Hv in Hve.
    rewrite (withdrawal_version_identifies e e' s t Hk Hg He' Hve) in *. injection Hw as <- Hnow. split; [done|]. exists (now s').
    split; [apply seen_now|]. rewrite <- Hnow. cbn. by rewrite lookup_insert_eq.
Qed.
Lemma runs_set_deposit e s : deposit_ok e -> runs (set_deposit_entry e) s (fun _ _ => True).
Proof.
  intros He. eapply runs_weaken; [eapply runs_write; [done|]|done]. intros t _ _. cbn. unfold conditional, version_is. cbn.
  destruct (tb_deposits t !! de_key e) as [e'|] eqn:He'; [|done]. zcase; [|done]. cbn. apply put_deposit_fair; [exact He|]. cbn.
  intros x Hx. simplify_eq. right. lia.
Qed.
Lemma runs_set_withdrawal e s : withdrawal_ok e -> runs (set_withdrawal_entry e) s (fun _ _ => True).
Proof.
  intros He. eapply runs_weaken; [eapply runs_write; [done|]|done]. intros t _ _. cbn. unfold conditional, version_is. cbn.
  destruct (tb_withdrawals t !! we_key e) as [e'|] eqn:He'; [|done]. zcase; [|done]. cbn. apply put_withdrawal_fair; [exact He|]. cbn.
  intros x Hx. simplify_eq. right. lia.
Qed.
Lemma runs_set_api_state a s : runs (set_api_state a) s (fun _ _ => True).
Proof.
  eapply runs_other; [done|]. intros t. cbn. unfold conditional. by destruct (version_is _ _ _).
Qed.

(** *** Operations of which only soundness matters *)
Definition safe {A} (m : st Store EmilyError A) : Prop := forall s, runs m s (fun _ _ => True).
Lemma safe_of {A} (m : st Store EmilyError A) (Q : A -> Store -> Prop) : (forall s, runs m s Q) -> safe m.
Proof. intros Hm s. by eapply runs_weaken. Qed.
Lemma safe_ret {A} (a : A) : safe (st_ret a).
Proof. intros s. by apply runs_ret. Qed.
Lemma safe_throw {A} e : safe (st_throw (A := A) e).
Proof. intros s. apply runs_throw. Qed.
Lemma safe_lift {A} (o : outcome EmilyError A) : safe (st_lift o).
Proof. intros s. by apply runs_lift. Qed.
Lemma safe_ok_or {A} (o : option A) e : safe (st_ok_or o e).
Proof. intros s. by apply runs_ok_or. Qed.
Lemma safe_bind {A B} (m : st Store EmilyError A) (k : A -> st Store EmilyError B) : safe m -> (forall a, safe (k a)) -> safe (st_bind m k).
Proof. intros Hm Hk s. eapply runs_bind; [apply Hm|]. intros a s' _ _. apply Hk. Qed.
Lemma safe_result {A} (m : st Store EmilyError A) : safe m -> safe (st_result m).
Proof. intros Hm s. eapply runs_weaken; [apply runs_result, Hm|done]. Qed.
Lemma safe_on_conflict {A} (m retry : st Store EmilyError A) : safe m -> safe retry -> safe (on_conflict m retry).
Proof. intros Hm Hr s. apply runs_on_conflict; [apply Hm|]. intros s' _. apply Hr. Qed.
Lemma safe_map {A B} (f : A -> st Store EmilyError B) l : (forall a, safe (f a)) -> safe (st_map f l).
Proof.
  intros Hf. induction l as [|a l IH]; cbn; [apply safe_ret|]. apply safe_bind; [done|]. intros b. apply safe_bind; [done|]. intros bs. apply safe_ret.
Qed.
Lemma safe_read {A} (r : request Token A) : write r = None -> safe (send r).
Proof. intros Hw. eapply safe_of. intros s. by apply runs_read. Qed.
Lemma safe_other {A} (r : request Token A) w : write r = Some w ->
  (forall t, tb_deposits (w t).2 = tb_deposits t /\ tb_withdrawals (w t).2 = tb_withdrawals t) -> safe (send r).
Proof. intros Hw Hf s. by eapply runs_other. Qed.
End Runs.

Create HintDb safe.
#[global] Hint Resolve safe_ret safe_throw safe_lift safe_ok_or : safe.
(** Operations are safe by walking through their binds. *)
Ltac safe_step :=
  match goal with
  | |- forall _, _ => intro
  | |- safe (st_bind _ _) => apply safe_bind
  | |- safe (st_result _) => apply safe_result
  | |- safe (on_conflict _ _) => apply safe_on_conflict
  | |- safe (st_map _ _) => apply safe_map
  | |- safe (send _) => apply safe_read; reflexivity
  | |- safe (send _) => eapply safe_other; [reflexivity|by intros t]
  | |- safe (if _ then _ else _) => case_match
  | |- safe (let '(_, _) := ?x in _) => destruct x
  | |- safe (match ?x with _ => _ end) => destruct x
  | |- _ => solve [eauto with safe]
  end.
Ltac safely := repeat safe_step.

Section Safety.
Context `{L : DynamoLaws others} `{!FairClients others}.

Lemma safe_get_deposit k : safe (get_deposit_entry k).
Proof. eapply safe_of. intros s. apply runs_get_deposit. Qed.
Lemma safe_get_withdrawal i : safe (get_withdrawal_entry i).
Proof. eapply safe_of. intros s. apply runs_get_withdrawal. Qed.
Lemma safe_get_chainstate h : safe (get_chainstate_entry_at_height h).
Proof. intros s. apply runs_get_chainstate. Qed.
Lemma safe_get_api_state : safe get_api_state.
Proof. intros s. apply runs_get_api_state. Qed.
Lemma safe_set_api_state a : safe (set_api_state a).
Proof. intros s. apply runs_set_api_state. Qed.
#[local] Hint Resolve safe_get_deposit safe_get_withdrawal safe_get_chainstate safe_get_api_state safe_set_api_state : safe.

(** The retry loops. *)
Lemma deposit_decision_package u trusted e p : deposit_decision u trusted e = Ok (Some p) -> deposit_package_try_from e u = Ok p.
Proof. unfold deposit_decision. repeat (case_match; [done|]). intros (q & Hq & [= ->])%bind_ok_inv. done. Qed.
Lemma withdrawal_decision_package u trusted e p : withdrawal_decision u trusted e = Ok (Some p) -> withdrawal_package_try_from e u = Ok p.
Proof. unfold withdrawal_decision. repeat (case_match; [done|]). intros (q & Hq & [= ->])%bind_ok_inv. done. Qed.
Lemma runs_pull_deposit u trusted n s : runs (pull_and_update_deposit_with_retry u n trusted) s known_deposit.
Proof.
  revert s. induction n as [|n IH]; intros s; cbn [pull_and_update_deposit_with_retry]; [apply runs_throw|].
  eapply runs_bind; [apply runs_get_deposit|]. intros e s1 _ [Hk _].
  eapply runs_bind; [apply (runs_lift _ _ (fun d s => deposit_decision u trusted e = Ok d /\ known_deposit e s)); naive_solver|].
  intros [p|] s2 _ [Hd Hk2]; [|by apply runs_ret]. apply runs_on_conflict; [|done].
  eapply runs_weaken; [eapply runs_update_deposit; [done|by eapply deposit_decision_package]|]. by intros e' s' [_ ?].
Qed.
Lemma runs_pull_withdrawal u trusted n s : runs (pull_and_update_withdrawal_with_retry u n trusted) s known_withdrawal.
Proof.
  revert s. induction n as [|n IH]; intros s; cbn [pull_and_update_withdrawal_with_retry]; [apply runs_throw|].
  eapply runs_bind; [apply runs_get_withdrawal|]. intros e s1 _ [Hk _].
  eapply runs_bind; [apply (runs_lift _ _ (fun d s => withdrawal_decision u trusted e = Ok d /\ known_withdrawal e s)); naive_solver|].
  intros [p|] s2 _ [Hd Hk2]; [|by apply runs_ret]. apply runs_on_conflict; [|done].
  eapply runs_weaken; [eapply runs_update_withdrawal; [done|by eapply withdrawal_decision_package]|]. by intros e' s' [_ ?].
Qed.
Lemma safe_pull_deposit u n trusted : safe (pull_and_update_deposit_with_retry u n trusted).
Proof. eapply safe_of. intros s. apply runs_pull_deposit. Qed.
Lemma safe_pull_withdrawal u n trusted : safe (pull_and_update_withdrawal_with_retry u n trusted).
Proof. eapply safe_of. intros s. apply runs_pull_withdrawal. Qed.
#[local] Hint Resolve safe_pull_deposit safe_pull_withdrawal : safe.

Lemma safe_reorganize_deposit n c k : safe (reorganize_deposit n c k).
Proof.
  induction n as [|n IH]; cbn; [safely|]. intros s. eapply runs_bind; [apply runs_get_deposit|]. intros e s1 _ [Hk _].
  apply runs_sound. intros Hs. pose proof (known_deposit_ok _ _ Hs Hk) as [_ Hc].
  destruct (deposit_reorganize_spec c e Hc) as (e' & He' & Hok & _). rewrite He'.
  eapply runs_bind; [apply (runs_lift _ _ (fun x _ => x = e')); naive_solver|]. intros ? s2 _ ->.
  apply runs_on_conflict; [by apply runs_set_deposit|]. intros s' _. apply IH.
Qed.
Lemma safe_reorganize_withdrawal n c k : safe (reorganize_withdrawal n c k).
Proof.
  induction n as [|n IH]; cbn; [safely|]. intros s. eapply runs_bind; [apply runs_get_withdrawal|]. intros e s1 _ [Hk _].
  apply runs_sound. intros Hs. pose proof (known_withdrawal_ok _ _ Hs Hk) as [_ Hc].
  destruct (withdrawal_reorganize_spec c e Hc) as (e' & He' & Hok & _). rewrite He'.
  eapply runs_bind; [apply (runs_lift _ _ (fun x _ => x = e')); naive_solver|]. intros ? s2 _ ->.
  apply runs_on_conflict; [by apply runs_set_withdrawal|]. intros s' _. apply IH.
Qed.
Lemma safe_set_api_state_attempts n new : safe (set_api_state_attempts n new).
Proof. induction n as [|n IH]; cbn; safely. Qed.
Lemma safe_query_all {E} n (q : query E) start : safe (query_all n q start).
Proof. revert start. induction n as [|n IH]; intros start; cbn; safely. Qed.
Lemma safe_all_limits n start : safe (get_all_limit_entries n start).
Proof. revert start. induction n as [|n IH]; intros start; cbn; safely. Qed.
Lemma safe_add_chainstate e : safe (add_chainstate_entry e).
Proof. unfold add_chainstate_entry. safely. Qed.
#[local] Hint Resolve safe_reorganize_deposit safe_reorganize_withdrawal safe_set_api_state_attempts safe_query_all safe_all_limits safe_add_chainstate : safe.
Lemma safe_add_chainstate_retry e n : safe (add_chainstate_entry_with_retry e n).
Proof. induction n as [|n IH]; cbn; safely. Qed.
Lemma safe_first_block hs : safe (first_stacks_block hs).
Proof. induction hs as [|h hs IH]; cbn; [safely|]. unfold get_oldest_stacks_block_for_bitcoin_block. safely. Qed.
#[local] Hint Resolve safe_add_chainstate_retry safe_first_block : safe.
Lemma safe_execute_reorg pages c : safe (execute_reorg_handler pages c).
Proof.
  unfold execute_reorg_handler, set_api_state_status, get_all_deposit_entries_modified_from_height, get_all_withdrawal_entries_modified_from_height,
    get_all_deposit_entries_modified_from_height_with_status, get_all_withdrawal_entries_modified_from_height_with_status. safely.
Qed.
Lemma safe_get_limits pages d : safe (get_limits pages d).
Proof.
  unfold get_limits, calculate_sbtc_left_for_withdrawals, get_oldest_stacks_block_in_range,
    get_all_withdrawal_entries_modified_from_height_with_status. safely.
Qed.
Lemma safe_get_throttle_key h : safe (get_throttle_key h).
Proof. unfold get_throttle_key. safely. Qed.
#[local] Hint Resolve safe_execute_reorg safe_get_limits safe_get_throttle_key : safe.
Lemma safe_set_limits pages d n l : safe (set_limits pages d n l).
Proof. unfold set_limits, set_limit_for_account. safely. Qed.
#[local] Hint Resolve safe_set_limits : safe.

(** ** The operations that read and update

    The operations that create entries are not among them: [create_deposit],
    [create_withdrawal] and the webhook [new_block] (which creates withdrawals) put
    their entry unconditionally, so a second creation overwrites the first
    ([EmilyQuiet.create_withdrawal_resets]). What the webhook does to deposits is in
    [EmilyWebhook]. *)
Inductive operation :=
| GetDepositOp (txid : string) (index : Z)
| GetWithdrawalOp (id : Z)
| UpdateDepositsOp (from_sidecar : bool) (body : list DepositUpdate)
| UpdateWithdrawalsOp (from_sidecar : bool) (body : list WithdrawalUpdate)
| SetChainstateOp (c : Chainstate)
| GetChainTipOp
| GetLimitsOp
| SetLimitsOp (now : string -> Z) (l : Limits)
| SetLimitsForAccountOp (account : string) (now : Z) (l : AccountLimits)
| StartThrottleOp (now : string -> Z) (name secret : string)
| AddThrottleKeyOp (now : Z) (name secret : string)
| SetThrottleKeyActiveOp (hash : string) (b : bool).
(** The handler of an operation, its reply dropped. *)
Definition serve `{ThrottleHash} (pages : nat) (default_limits : AccountLimits) (op : operation) : st Store EmilyError unit :=
  match op with
  | GetDepositOp txid index => get_deposit txid index;;; st_ret tt
  | GetWithdrawalOp i => get_withdrawal i;;; st_ret tt
  | UpdateDepositsOp b body => (if b then update_deposits_sidecar body else update_deposits_signer body);;; st_ret tt
  | UpdateWithdrawalsOp b body => (if b then update_withdrawals_sidecar body else update_withdrawals_signer body);;; st_ret tt
  | SetChainstateOp c => set_chainstate pages c;;; st_ret tt
  | GetChainTipOp => get_chain_tip;;; st_ret tt
  | GetLimitsOp => get_limits pages default_limits;;; st_ret tt
  | SetLimitsOp n l => set_limits pages default_limits n l;;; st_ret tt
  | SetLimitsForAccountOp a n l => set_limits_for_account a n l;;; st_ret tt
  | StartThrottleOp n name secret => start_throttle pages default_limits n name secret;;; st_ret tt
  | AddThrottleKeyOp n name secret => add_throttle_key_handler n name secret;;; st_ret tt
  | SetThrottleKeyActiveOp h b => (if b then activate_throttle_key_handler h else deactivate_throttle_key_handler h);;; st_ret tt
  end.
(** A sequence of operations, each to its end. *)
Fixpoint serve_all `{ThrottleHash} (pages : nat) (default_limits : AccountLimits) (ops : list operation) (s : Store) : Store :=
  match ops with
  | [] => s
  | op :: ops => serve_all pages default_limits ops (serve pages default_limits op s).1
  end.

Lemma safe_update_deposit_item b x : safe (update_deposit_item b x).
Proof. unfold update_deposit_item. safely. Qed.
Lemma safe_update_withdrawal_item b x : safe (update_withdrawal_item b x).
Proof. unfold update_withdrawal_item. safely. Qed.
#[local] Hint Resolve safe_update_deposit_item safe_update_withdrawal_item : safe.
Lemma safe_serve `{ThrottleHash} pages d op : safe (serve pages d op).
Proof.
  destruct op; cbn; unfold get_deposit, get_withdrawal, update_deposits_sidecar, update_deposits_signer, update_deposits, update_withdrawals_sidecar,
    update_withdrawals_signer, update_withdrawals, set_chainstate, add_chainstate_entry_or_reorg, get_chain_tip, set_limits_for_account, set_limit_for_account,
    start_throttle, verify_throttle_key, calculate_throttle_mode_limits, add_throttle_key_handler, add_throttle_key, activate_throttle_key_handler,
    deactivate_throttle_key_handler, activate_throttle_key, deactivate_throttle_key, set_throttle_key_activity; safely.
Qed.
Lemma serve_all_sound `{ThrottleHash} pages d ops s : sound s -> later s (serve_all pages d ops s) /\ sound (serve_all pages d ops s).
Proof.
  revert s. induction ops as [|op ops IH]; intros s Hs; cbn; [by split|]. destruct (safe_serve pages d op s Hs) as (Hl & Hs' & _).
  destruct (IH _ Hs') as [Hl' Hs'']. split; [by etrans|done].
Qed.
End Safety.


(** ** Updates are atomic *)
Section Atomic.
Context `{L : DynamoLaws others} `{!FairClients others}.

(** The atomic update that the retry loop stands for. *)
Definition deposit_updated (u : ValidatedDepositUpdate) (trusted : bool) (t : Tables) (e : DepositEntry) (t' : Tables) : Prop :=
  exists e0 p, tb_deposits t !! vdu_key u = Some e0 /\ deposit_decision u trusted e0 = Ok (Some p) /\
    e = deposit_apply p e0 /\ t' = put_deposit e t.

(** A single request: the tables it left, and its outcome. *)
Lemma update_deposit_atomic p e u s : sound s -> known_deposit e s -> deposit_package_try_from e u = Ok p ->
  exists t, others (now s) t /\
    match (update_deposit p s).2 with
    | Ok e' => tb_deposits t !! de_key e = Some e /\ e' = deposit_apply p e /\ now (update_deposit p s).1 = put_deposit e' t
    | Err EeVersionConflict => now (update_deposit p s).1 = t
    | Err EeDynamo => now (update_deposit p s).1 = t \/
        (tb_deposits t !! de_key e = Some e /\ now (update_deposit p s).1 = put_deposit (deposit_apply p e) t)
    | _ => False
    end.
Proof.
  intros Hs Hk Hp. pose proof (known_deposit_ok _ _ Hs Hk) as Hok. destruct (deposit_apply_ok e u p Hok Hp) as (_ & _ & Hkey & Hv & _).
  destruct (send_law (UpdateDeposit p) s) as (t & Ht & _ & Hlaw). cbn [write] in Hlaw. exists t. split; [done|].
  assert (forall v, seen s v -> grows v t) as Hg by (intros v Hv'; etrans; [by apply Hs|by apply others_fair]).
  unfold update_deposit, st_bind. destruct (send (UpdateDeposit p) s) as [s' o]. cbn [fst snd] in Hlaw. rewrite Hkey in Hlaw.
  destruct (tb_deposits t !! de_key e) as [e'|] eqn:He'; [unfold conditional in Hlaw; destruct (Z.eqb_spec (de_version e') (dup_version p)) as [Hve|]|].
  - rewrite Hv in Hve. rewrite (deposit_version_identifies e e' s t Hk Hg He' Hve) in *.
    destruct Hlaw as [[= <- Hnow]|[-> Hlaw]]; cbn; [by rewrite <- Hnow|]. destruct Hlaw; auto.
  - destruct Hlaw as [[= <- Hnow]|[-> Hlaw]]; cbn; [by rewrite <- Hnow|]. destruct Hlaw; auto.
  - destruct Hlaw as [[= <- Hnow]|[-> Hlaw]]; cbn; [by rewrite <- Hnow|]. destruct Hlaw; auto.
Qed.
Lemma read_others {A} (r : request Token A) s : write r = None -> others (now s) (now (send r s).1) /\
  match (send r s).2 with Panic | Diverge => False | Err e => e = EeDynamo | Ok _ => True end.
Proof.
  intros Hw. destruct (send_law r s) as (t & Ht & _ & Hlaw). rewrite Hw in Hlaw. destruct Hlaw as [-> [-> |(a & -> & _)]]; done.
Qed.
Lemma get_deposit_others k s : others (now s) (now (get_deposit_entry k s).1) /\
  match (get_deposit_entry k s).2 with Panic | Diverge => False | _ => True end.
Proof.
  destruct (read_others (GetDeposit k) s eq_refl) as [Hr Ho]. unfold get_deposit_entry, st_bind. destruct (send (GetDeposit k) s) as [s' [a|e| |]]; cbn in *; try done.
  split; [done|]. by destruct a.
Qed.


Definition update_outcome (u : ValidatedDepositUpdate) (trusted : bool) (s s' : Store) (o : outcome EmilyError DepositEntry) : Prop :=
  match o with
  | Ok e => (exists t, others (now s) t /\ deposit_updated u trusted t e (now s')) \/
            (others (now s) (now s') /\ known_deposit e s' /\ de_key e = vdu_key u /\ deposit_decision u trusted e = Ok None)
  | Err e => others (now s) (now s') \/ (e = EeDynamo /\ exists t e', others (now s) t /\ deposit_updated u trusted t e' (now s'))
  | _ => False
  end.
Lemma update_outcome_before u trusted s s1 s' o : others (now s) (now s1) -> update_outcome u trusted s1 s' o -> update_outcome u trusted s s' o.
Proof.
  intros H1. destruct o as [e|e| |]; cbn; try done.
  - intros [(t & Ht & Hu)|(Ht & Hu)]; [left; exists t; split; [by etrans|done]|right; split; [by etrans|done]].
  - intros [Ht|(-> & t & e' & Ht & Hu)]; [left; by etrans|right; split; [done|]; exists t, e'; split; [by etrans|done]].
Qed.
Lemma pull_deposit_outcome u trusted n s : sound s ->
  update_outcome u trusted s (pull_and_update_deposit_with_retry u n trusted s).1 (pull_and_update_deposit_with_retry u n trusted s).2.
Proof.
  revert s. induction n as [|n IH]; intros s Hs; cbn [pull_and_update_deposit_with_retry]; [by left|].
  destruct (get_deposit_others (vdu_key u) s) as [H1 Hg]. destruct (runs_get_deposit (vdu_key u) s Hs) as (_ & Hs1 & HQ).
  unfold st_bind at 1 3. destruct (get_deposit_entry (vdu_key u) s) as [s1 [e|e| |]]; cbn [fst snd] in *; try done; [|by left].
  destruct HQ as [Hk Hkey]. unfold st_bind, st_lift. destruct (deposit_decision u trusted e) as [[p|]|err| |] eqn:Hd; cbn [fst snd].
  2: { right. done. } 2: { by left. } 2,3: exfalso; revert Hd; unfold deposit_decision, deposit_package_try_from, deposit_latest_event,
    ensure_following_event_is_valid, ok_or; repeat case_match; cbn; repeat case_match; done.
  apply (update_outcome_before _ _ _ s1); [done|]. pose proof (deposit_decision_package _ _ _ _ Hd) as Hp.
  destruct (update_deposit_atomic p e u s1 Hs1 Hk Hp) as (t & Ht & Hu). destruct (runs_update_deposit p e u s1 Hk Hp Hs1) as (_ & Hs2 & _).
  unfold on_conflict, st_bind, st_result. destruct (update_deposit p s1) as [s2 [e'|err| |]]; cbn [fst snd] in *; try done.
  - destruct Hu as (He & -> & Hnow). left. exists t. split; [done|]. exists e, p. by rewrite <- Hkey.
  - destruct err; try done; cbn.
    + destruct Hu as [<- |(He & Hnow)]; [by left|]. right. split; [done|]. exists t, (deposit_apply p e). split; [done|]. exists e, p. by rewrite <- Hkey.
    + apply (update_outcome_before _ _ _ s2); [by rewrite Hu|]. by apply IH.
Qed.
End Atomic.

(** C34: The retry loop of a deposit update is linearizable. Among fair clients, on
    stale reads, version conflicts and failing requests, it ends after at most
    [retries] rounds; a returned entry is the result of one atomic step that
    validated the update against the entry that was current in that step and stored
    its successor, or an entry that needed no update, and then nothing was written.
    On an error nothing was written either, unless the service failed after it
    executed the update. *)
Theorem deposit_update_linearizable `{L : DynamoLaws others} `{!FairClients others} u retries trusted s : sound s ->
  let '(s', o) := pull_and_update_deposit_with_retry u retries trusted s in
  match o with
  | Ok e => (exists t, others (now s) t /\ deposit_updated u trusted t e (now s')) \/
            (others (now s) (now s') /\ known_deposit e s' /\ de_key e = vdu_key u /\ deposit_decision u trusted e = Ok None)
  | Err e => others (now s) (now s') \/ (e = EeDynamo /\ exists t e', others (now s) t /\ deposit_updated u trusted t e' (now s'))
  | _ => False
  end.
Proof.
  intros Hs. pose proof (pull_deposit_outcome u trusted retries s Hs) as Ho.
  by destruct (pull_and_update_deposit_with_retry u retries trusted s).
Qed.

(** ** Runs that change the tables by given steps only *)
Section Via.
Context `{L : DynamoLaws others} `{!FairClients others}.
Variable step : relation Tables.
Hypothesis others_step : forall t t', others t t' -> step t t'.

Definition via {A} (m : st Store EmilyError A) : Prop := forall s, sound s -> rtc step (now s) (now (m s).1).
Lemma via_bind {A B} (m : st Store EmilyError A) (k : A -> st Store EmilyError B) : safe m -> via m -> (forall a, via (k a)) -> via (st_bind m k).
Proof.
  intros Hsafe Hm Hk s Hs. destruct (Hsafe s Hs) as (_ & Hs' & _). specialize (Hm s Hs). unfold st_bind.
  destruct (m s) as [s' []]; cbn in *; try done. etrans; [done|]. by apply Hk.
Qed.
Lemma via_pure {A} (m : st Store EmilyError A) : (forall s, (m s).1 = s) -> via m.
Proof. intros Hm s _. by rewrite Hm. Qed.
Lemma via_result {A} (m : st Store EmilyError A) : via m -> via (st_result m).
Proof. intros Hm s Hs. specialize (Hm s Hs). unfold st_result. by destruct (m s) as [s' []]. Qed.
Lemma via_on_conflict {A} (m retry : st Store EmilyError A) : safe m -> via m -> via retry -> via (on_conflict m retry).
Proof.
  intros Hs Hm Hr. apply via_bind; [by apply safe_result|by apply via_result|]. intros [a|[]]; try exact Hr; by apply via_pure.
Qed.
Lemma via_map {A B} (f : A -> st Store EmilyError B) l : (forall a, safe (f a)) -> (forall a, a ∈ l -> via (f a)) -> via (st_map f l).
Proof.
  intros Hs. induction l as [|a l IH]; intros Hf; cbn; [by apply via_pure|]. apply via_bind; [done|apply Hf; left|]. intros b.
  apply via_bind; [by apply safe_map|apply IH; intros; apply Hf; by right|]. intros bs. by apply via_pure.
Qed.
Lemma via_read {A} (r : request Token A) : write r = None -> via (send r).
Proof. intros Hr s _. apply rtc_once, others_step. by destruct (read_others r s Hr). Qed.
(** A write whose effect on every content is a step. *)
Lemma via_write {A} (r : request Token A) w : write r = Some w -> (forall t, tables_ok t -> rtc step t (w t).2) -> via (send r).
Proof.
  intros Hr Hw s Hs. destruct (send_law r s) as (t & Ht & _ & Hlaw). rewrite Hr in Hlaw. eapply rtc_l; [by apply others_step|].
  assert (tables_ok t) as Hok by (apply others_fair in Ht; apply Ht, Hs, seen_now).
  destruct Hlaw as [Hlaw|[_ [-> | ->]]]; [|done|by apply Hw]. apply (f_equal snd) in Hlaw. cbn in Hlaw. rewrite <- Hlaw. by apply Hw.
Qed.
End Via.

(** ** What a signer may change *)
Section Signer.
Context `{L : DynamoLaws others} `{!FairClients others}.

(** One pending deposit becomes accepted. *)
Definition accepts (t t' : Tables) : Prop := exists k e e' v,
  tb_deposits t !! k = Some e /\ de_status e = DsPending /\ de_status e' = DsAccepted /\
  dv_status v = DepositAccepted /\ de_history e' = de_history e ++ [v] /\ de_amount e' = de_amount e /\ de_recipient e' = de_recipient e /\
  t' = on_deposits <[k := e']> t.
(** The initial API state is stored. *)
Definition initializes (t t' : Tables) : Prop := t' = set_api api_state_default t.
Definition signer_step (t t' : Tables) : Prop := others t t' \/ accepts t t' \/ initializes t t'.
Abbreviation via := (via signer_step).

Lemma via_get_api_state : via get_api_state.
Proof.
  apply via_bind; [by apply safe_read|apply via_read; [by left|done]|]. intros [a|]; [by apply via_pure|].
  apply via_bind; [by eapply safe_other| |intros; by apply via_pure]. eapply via_write; [by left|done|]. intros t _. apply rtc_once. right. by right.
Qed.

Lemma untrusted_decision u e p : deposit_ok e -> deposit_decision u false e = Ok (Some p) ->
  de_status e = DsPending /\ dv_status (dup_event p) = DepositAccepted.
Proof.
  intros Hok Hd. pose proof (deposit_decision_package _ _ _ _ Hd) as Hp. destruct (deposit_apply_ok e u p Hok Hp) as (_ & -> & _).
  revert Hd. unfold deposit_decision. repeat (case_match; [done|]). cbn [negb andb] in *.
  match goal with H : negb _ = false |- _ => apply negb_false_iff, andb_true_iff in H as [Ha%bool_decide_eq_true Hp']; apply bool_decide_eq_true in Hp' end.
  done.
Qed.
Lemma deposit_updated_accepts u t e t' : tables_ok t -> deposit_updated u false t e t' -> accepts t t'.
Proof.
  intros [Hok _] (e0 & p & He0 & Hd & -> & ->). destruct (Hok _ _ He0) as [Hk Hok0]. destruct (untrusted_decision u e0 p Hok0 Hd) as [Hs Ha].
  exists (vdu_key u), e0, (deposit_apply p e0), (dup_event p). split_and!; try done; cbn; [by rewrite Ha|]. unfold put_deposit. cbn. by rewrite Hk.
Qed.
Lemma via_pull_deposit u n : via (pull_and_update_deposit_with_retry u n false).
Proof.
  intros s Hs. pose proof (pull_deposit_outcome u false n s Hs) as Ho. unfold update_outcome in Ho.
  assert (forall t, others (now s) t -> tables_ok t) as Hok.
  { intros t Ht%others_fair. apply Ht, Hs, seen_now. }
  destruct ((pull_and_update_deposit_with_retry u n false s).2) as [e|e| |]; try done.
  - destruct Ho as [(t & Ht & Hu)|[Ht _]]; [|by apply rtc_once; left]. eapply rtc_l; [by left|]. apply rtc_once. right. left. by eapply deposit_updated_accepts; [apply Hok|].
  - destruct Ho as [Ht|(_ & t & e' & Ht & Hu)]; [by apply rtc_once; left|]. eapply rtc_l; [by left|]. apply rtc_once. right. left. by eapply deposit_updated_accepts; [apply Hok|].
Qed.
Lemma via_update_deposit_item x : via (update_deposit_item false x).
Proof.
  unfold update_deposit_item. destruct x.2 as [u|e| |]; try by apply via_pure. apply via_bind; [apply safe_result, safe_pull_deposit|apply via_result, via_pull_deposit|].
  intros [e|err]; [|destruct err; by apply via_pure]. apply via_bind; [apply safe_lift|by apply via_pure|]. intros d. by apply via_pure.
Qed.
End Signer.

(** C28: The endpoint for signers only moves deposits from pending to accepted. Whatever
    the request, every change it makes to the tables, alone or among other fair
    clients, is to append an [Accepted] event to the history of one deposit that is
    pending at that moment, or to store the initial API state. *)
Theorem signer_updates_only_accept `{L : DynamoLaws others} `{!FairClients others} body s : sound s ->
  rtc (signer_step (others := others)) (now s) (now (update_deposits_signer body s).1).
Proof.
  revert s. change (via (signer_step (others := others)) (update_deposits_signer body)). unfold update_deposits_signer. apply via_bind; [apply safe_get_api_state|apply via_get_api_state|].
  intros a. apply via_bind; [apply safe_lift|by apply via_pure|]. intros _. unfold update_deposits. apply via_bind; [apply safe_map, safe_update_deposit_item| |].
  - apply via_map; [apply safe_update_deposit_item|intros; apply via_update_deposit_item].
  - intros l. by apply via_pure.
Qed.

(** ** Replies *)
Lemma deposit_try_from_ok e : deposit_ok e -> exists d, deposit_try_from e = Ok d /\
  mkDepositKey (dp_bitcoin_txid d) (dp_bitcoin_tx_output_index d) = de_key e /\ dp_status d = de_status e.
Proof.
  intros [Hv _]. pose proof Hv as (v & Hl & Hs)%deposit_validate_iff. unfold deposit_try_from. rewrite Hv. oreduce.
  unfold deposit_latest_event. rewrite Hl. oreduce. eexists. split; [done|]. cbn. split; [by destruct (de_key e)|].
  by destruct Hs as (_ & _ & ->).
Qed.

Section Replies.
Context `{L : DynamoLaws others} `{!FairClients others}.

(** The answer to one update. *)
Definition answers_update (u : DepositUpdate) (tip : Chainstate) (r : DepositWithStatus) : Prop :=
  match try_into_validated_deposit_update u tip with
  | Ok v =>
      (exists d, r = mkDepositWithStatus (Some d) None 200 /\ mkDepositKey (dp_bitcoin_txid d) (dp_bitcoin_tx_output_index d) = vdu_key v) \/
      (exists e status, r = mkDepositWithStatus None (Some (inr e)) status /\ status ∈ [403; 404; 500])
  | Err ve => r = mkDepositWithStatus None (Some (inl ve)) 400
  | _ => False
  end.

Lemma pull_deposit_key u trusted n s e : sound s -> (pull_and_update_deposit_with_retry u n trusted s).2 = Ok e ->
  de_key e = vdu_key u /\ deposit_ok e.
Proof.
  intros Hs He. pose proof (pull_deposit_outcome u trusted n s Hs) as Ho. destruct (runs_pull_deposit u trusted n s Hs) as (_ & Hs' & HQ).
  rewrite He in *. split; [|by apply (known_deposit_ok _ _ Hs' HQ)]. destruct Ho as [(t & Ht & e0 & p & He0 & _ & -> & _)|(_ & _ & Hk & _)]; [|done].
  apply others_fair in Ht as [_ Hok]. destruct (Hok (proj1 (Hs _ (seen_now s)))) as [Hd _]. by destruct (Hd _ _ He0).
Qed.
Lemma update_item_replies trusted i u tip s : sound s -> exists r s',
  update_deposit_item trusted (i, try_into_validated_deposit_update u tip) s = (s', Ok (i, r)) /\ answers_update u tip r.
Proof.
  intros Hs. unfold update_deposit_item, answers_update. cbn [fst snd]. destruct (try_into_validated_deposit_update u tip) as [v|ve| |] eqn:Hv.
  2: by eexists _, s. 2,3: exfalso; revert Hv; unfold try_into_validated_deposit_update, ok_or; repeat case_match; cbn; done.
  pose proof (pull_deposit_outcome v trusted 15 s Hs) as Ho. pose proof (pull_deposit_key v trusted 15 s) as Hk.
  unfold st_bind, st_result. destruct (pull_and_update_deposit_with_retry v 15 trusted s) as [s' [e|err| |]]; cbn [fst snd] in *; try done.
  - destruct (Hk e Hs eq_refl) as [Hkey Hok]. destruct (deposit_try_from_ok e Hok) as (d & Hd & Hdk & _). unfold st_lift. rewrite Hd. cbn.
    eexists _, s'. split; [done|]. left. exists d. by rewrite Hdk.
  - destruct err; cbn; (eexists _, s'; split; [reflexivity|]); right; (eexists _, _; split; [reflexivity|]); set_solver.
Qed.
Lemma update_items_reply trusted tip l s : sound s -> Forall (fun x => exists u, x.2 = try_into_validated_deposit_update u tip) l ->
  exists rs s', st_map (update_deposit_item trusted) l s = (s', Ok rs) /\
    Forall2 (fun x y => y.1 = x.1 /\ forall u, x.2 = try_into_validated_deposit_update u tip -> answers_update u tip y.2) l rs.
Proof.
  revert s. induction l as [|[i o] l IH]; intros s Hs Hl; cbn; [by exists [], s|]. apply Forall_cons in Hl as [[u Ho] Hl]. cbn in Ho. subst o.
  destruct (update_item_replies trusted i u tip s Hs) as (r & s1 & Hr & Ha).
  destruct (safe_update_deposit_item trusted (i, try_into_validated_deposit_update u tip) s Hs) as (_ & Hs1 & _). rewrite Hr in Hs1. cbn in Hs1.
  destruct (IH s1 Hs1 Hl) as (rs & s2 & Hrs & Hall). unfold st_bind. rewrite Hr, Hrs. cbn. eexists _, s2. split; [done|]. constructor; [|done].
  split; [done|]. cbn. intros u' Hu. unfold answers_update in *. by rewrite <- Hu.
Qed.
End Replies.

Lemma enumerate_keys {A} (l : list A) : StronglySorted (fun x y : Z * A => x.1 < y.1) (enumerate l).
Proof.
  unfold enumerate. generalize 0. induction l as [|a l IH]; intros i; cbn; [constructor|]. constructor; [apply IH|].
  apply Forall_forall. intros [j b] Hj. cbn. clear IH. revert i Hj. induction l as [|c l IH]; intros i Hj; cbn in Hj; [by apply elem_of_nil in Hj|].
  apply elem_of_cons in Hj as [[= -> _]|Hj]; [lia|]. specialize (IH (i + 1)). specialize (IH Hj). lia.
Qed.
(** Answers sorted by position are in the order of the positions. *)
Lemma by_index_perm {A} (l k : list (Z * A)) : StronglySorted (fun x y => x.1 < y.1) k -> l ≡ₚ k -> by_index l = k.*2.
Proof.
  intros Hk Hp. unfold by_index. assert (StronglySorted (key_lt (fun x : Z * A => [[x.1]])) k) as Hlt.
  { eapply StronglySorted_impl; [|exact Hk]. intros x y Hxy. unfold key_lt, okey_cmp. cbn. apply Z.compare_lt_iff in Hxy. by rewrite Hxy. }
  rewrite (sort_by_key_unique _ l k); [by rewrite sort_by_key_lt| |done]. rewrite Hp. by apply sorted_lt_NoDup.
Qed.

Lemma replies_in_order {A B C} (f : A -> C) (P : A -> B -> Prop) us l rs : l ≡ₚ map (fun x : Z * A => (x.1, f x.2)) (enumerate us) ->
  Forall2 (fun x y => y.1 = x.1 /\ forall u, x.2 = f u -> P u y.2) l rs -> Forall2 P us (by_index rs).
Proof.
  intros Hp Hall. destruct (Permutation_Forall2 Hp Hall) as (rs' & Hrp & Hall'). clear Hall. apply Forall2_fmap_l in Hall'.
  assert (rs'.*1 = (enumerate us).*1) as Hidx by (clear Hrp Hp; induction Hall' as [|x y ? ? [Hxy _]]; [done|]; rewrite !fmap_cons, Hxy; cbn; by f_equal).
  assert (StronglySorted (fun x y => x.1 < y.1) rs') as Hs.
  { apply (StronglySorted_map Z.lt fst). change (map fst rs') with (rs'.*1). rewrite Hidx. apply (StronglySorted_map Z.lt fst), enumerate_keys. }
  rewrite (by_index_perm rs rs') by done. apply Forall2_fmap_r. clear Hrp Hp Hs Hidx. revert Hall'. unfold enumerate. generalize 0. revert rs'.
  induction us as [|u us IH]; intros rs' z Hall; cbn in Hall; [by inversion Hall|]. apply Forall2_cons_inv_l in Hall as (r & rs'' & [_ Hr] & Hall & ->).
  constructor; [by apply Hr|]. by eapply IH.
Qed.

(** C40: A request to update deposits is answered in full. Once the endpoint has read
    the API state and found no reorganisation under way, [update_deposits] replies 200 with
    one answer per update, in the order of the request. An update that is not valid
    is refused with 400 and its validation error; a valid one is answered with the
    entry of its own deposit, or with the error of that update alone (404, 403 or
    500). In particular a failing update fails neither the request nor the updates
    after it. *)
Theorem update_deposits_reply `{L : DynamoLaws others} `{!FairClients others} api_state body trusted s : sound s ->
  exists s' answers, update_deposits api_state body trusted s = (s', Ok (200, answers)) /\
    Forall2 (fun u r => answers_update u (chainstate_from (chaintip api_state)) r) body answers.
Proof.
  intros Hs. set (tip := chainstate_from (chaintip api_state)).
  assert (deposits_into_validated body tip ≡ₚ map (fun x => (x.1, try_into_validated_deposit_update x.2 tip)) (enumerate body)) as Hp by apply sort_by_key_perm.
  destruct (update_items_reply trusted tip (deposits_into_validated body tip) s Hs) as (rs & s' & Hrs & Hall).
  { rewrite Hp. apply Forall_forall. intros x (y & -> & _)%list_elem_of_fmap. by exists y.2. }
  exists s', (by_index rs). split; [|exact (replies_in_order (fun u => try_into_validated_deposit_update u tip) (fun u r => answers_update u tip r) body _ rs Hp Hall)]. unfold update_deposits, st_bind. fold tip. by rewrite Hrs.
Qed.
