(* ===== verification/EmilyQuiet.v ===== *)
(** Quiet runs of the Emily API: what its operations do to the tables exactly when it
    is the only client, no request fails and every read is current ([QuietLaws]).
    DynamoDB does not promise that its runs are quiet; what holds in every run is in
    [EmilySafety].

    In a quiet run every operation has one result. Theorems: an update takes
    effect at its first attempt; a reorganisation completes and leaves in every
    history the events that belong to the new chain; throttling takes effect and
    only tightens limits. *)

From stdpp Require Import strings.
From S2P Require Import Prelude Effects Types Bitcoin Deposits EmilyEntries EmilyStore EmilyAccessors EmilyHandlers EmilySafety.

(** ** Runs of the only client *)
Section Does.
Context `{QuietLaws}.

(** [m] succeeds with [a] and leaves the tables [t]. *)
Definition does {A} (m : st Store EmilyError A) (s : Store) (a : A) (t : Tables) : Prop := (m s).2 = Ok a /\ contents (m s).1 = t.
Lemma does_ret {A} (a : A) s : does (st_ret a) s a (contents s).
Proof. done. Qed.
Lemma does_lift {A} (o : outcome EmilyError A) a s : o = Ok a -> does (st_lift o) s a (contents s).
Proof. by intros ->. Qed.
Lemma does_bind {A B} (m : st Store EmilyError A) (k : A -> st Store EmilyError B) s a t b t' :
  does m s a t -> (forall s', contents s' = t -> does (k a) s' b t') -> does (st_bind m k) s b t'.
Proof. intros [Hm Ht] Hk. unfold does, st_bind. destruct (m s) as [s' o]. cbn in *. subst o. by apply Hk. Qed.
(** The state after [m]; the continuation is run from there. *)
Lemma does_bind_at {A B} (m : st Store EmilyError A) (k : A -> st Store EmilyError B) s a t b t' :
  does m s a t -> does (k a) (m s).1 b t' -> does (st_bind m k) s b t'.
Proof. intros [Hm Ht] Hk. unfold does, st_bind in *. destruct (m s) as [s' o]. cbn in *. by subst o. Qed.
Lemma does_result {A} (m : st Store EmilyError A) s a t : does m s a t -> does (st_result m) s (inl a) t.
Proof. intros [Hm Ht]. unfold does, st_result. destruct (m s) as [s' o]. cbn in *. by subst o. Qed.
Lemma does_on_conflict {A} (m retry : st Store EmilyError A) s a t : does m s a t -> does (on_conflict m retry) s a t.
Proof. intros Hm. eapply does_bind; [by apply does_result|]. intros s' <-. apply does_ret. Qed.
(** A call that fails. *)
Definition fails {A} (m : st Store EmilyError A) (s : Store) (e : EmilyError) (t : Tables) : Prop := (m s).2 = Err e /\ contents (m s).1 = t.
Lemma fails_result {A} (m : st Store EmilyError A) s e t : fails m s e t -> does (st_result m) s (inr e) t.
Proof. intros [Hm Ht]. unfold does, st_result. destruct (m s) as [s' o]. cbn in *. by subst o. Qed.
Lemma fails_bind {A B} (m : st Store EmilyError A) (k : A -> st Store EmilyError B) s e t : fails m s e t -> fails (st_bind m k) s e t.
Proof. intros [Hm Ht]. unfold fails, st_bind. destruct (m s) as [s' o]. cbn in *. by subst o. Qed.
Lemma does_fails {A B} (m : st Store EmilyError A) (k : A -> st Store EmilyError B) s a t e t' :
  does m s a t -> (forall s', contents s' = t -> fails (k a) s' e t') -> fails (st_bind m k) s e t'.
Proof. intros [Hm Ht] Hk. unfold fails, st_bind. destruct (m s) as [s' o]. cbn in *. subst o. by apply Hk. Qed.

Lemma does_write {A} (r : request Token A) w s a t : write r = Some w -> w (contents s) = (Ok a, t) -> does (send r) s a t.
Proof. intros Hw Ht. pose proof (quiet_write r s w Hw) as Hq. rewrite Ht in Hq. by injection Hq as Ho Ht'. Qed.

(** *** Accessors *)
Lemma does_get_deposit k s e : tb_deposits (contents s) !! k = Some e -> does (get_deposit_entry k) s e (contents s).
Proof.
  intros Hk. destruct (quiet_get_deposit k s) as [Ho Ht]. eapply does_bind; [by split|]. intros s' Hs'. rewrite Hk, <- Hs'. by apply does_lift.
Qed.
Lemma does_get_api_state s a : tb_api_state (contents s) = Some a -> does get_api_state s a (contents s).
Proof. intros Ha. destruct (quiet_get_api_state s) as [Ho Ht]. eapply does_bind; [by split|]. intros s' Hs'. rewrite Ha, <- Hs'. apply does_ret. Qed.
Lemma does_set_api_state s a a0 : tb_api_state (contents s) = Some a0 -> as_version a0 = as_version a ->
  does (set_api_state a) s tt (set_api (mkApiState (as_version a + 1) (as_api_status a)) (contents s)).
Proof.
  intros Ha Hv. eapply does_write; [reflexivity|]. cbn. rewrite Ha. cbn. by rewrite Hv, Z.eqb_refl.
Qed.
Lemma does_query_all {E} (q : query E) pages : forall start s, (length (cursor (contents s) q start) < pages)%nat ->
  does (query_all pages q start) s (cursor (contents s) q start) (contents s).
Proof.
  induction pages as [|pages IH]; intros start s Hf; [lia|]. cbn [query_all].
  destruct (quiet_query q start None s) as (page & next & Ho & Ht & Hc & Hne & _); [done|]. eapply does_bind; [by split|]. intros s' Hs'. cbn [fst snd].
  destruct next as [k|].
  - rewrite Hc in Hf |- *. rewrite length_app in Hf. assert (length page <> 0)%nat by (destruct page; [by destruct Hne|done]).
    eapply does_bind; [apply IH; rewrite Hs'; lia|]. intros s'' Hs''. rewrite Hs' in *. rewrite <- Hs''. apply does_ret.
  - rewrite app_nil_r in Hc. rewrite Hc, <- Hs'. apply does_ret.
Qed.
Lemma does_map {A B} (f : A -> st Store EmilyError B) (P : list A -> Tables -> Prop) l :
  (forall a l s, P (a :: l) (contents s) -> exists b t, does (f a) s b t /\ P l t) ->
  forall s, P l (contents s) -> exists bs t, does (st_map f l) s bs t /\ P [] t.
Proof.
  intros Hf. induction l as [|a l IH]; intros s Hp; cbn; [by exists [], (contents s)|]. destruct (Hf a l s Hp) as (b & t & [Ho Ht] & Hl).
  destruct (IH (f a s).1) as (bs & t' & [Hos Hts] & Hnil); [by rewrite Ht|]. exists (b :: bs), t'. split; [|done].
  unfold does, st_bind. destruct (f a s) as [s1 o]. cbn in *. subst o. destruct (st_map f l s1) as [s2 os]. cbn in *. by subst os.
Qed.
(** Reads one after the other. *)
Lemma does_map_read {A B} (f : A -> st Store EmilyError B) (g : A -> B) l : forall s,
  (forall a s', contents s' = contents s -> does (f a) s' (g a) (contents s)) -> does (st_map f l) s (map g l) (contents s).
Proof.
  induction l as [|a l IH]; intros s Hf; cbn; [apply does_ret|]. eapply does_bind; [by apply Hf|]. intros s1 H1.
  eapply does_bind; [apply IH; intros a' s' Hs'; rewrite H1; apply Hf; congruence|]. intros s2 H2. rewrite <- H1, <- H2. apply does_ret.
Qed.
End Does.

(** ** Updates *)
Lemma does_update_deposit `{QuietLaws} p e s : tb_deposits (contents s) !! dup_key p = Some e -> de_version e = dup_version p ->
  does (update_deposit p) s (deposit_apply p e) (put_deposit (deposit_apply p e) (contents s)).
Proof.
  intros He Hv. eapply does_bind.
  - eapply does_write; [reflexivity|]. cbn. rewrite He. unfold conditional. by rewrite Hv, Z.eqb_refl.
  - intros s' Hs'. rewrite <- Hs'. by apply does_lift.
Qed.

(** ** Reorganisations *)
Section Reorg.
Context `{QuietLaws} (c : Chainstate).

(** What an entry is after the reorganisation. *)
Definition reorg_deposit_history (e : DepositEntry) : list DepositEvent := or_else (List.filter (survives_reorg c) (de_history e)) (reorg_deposit_event c).
Definition reorg_withdrawal_history (e : WithdrawalEntry) : list WithdrawalEvent :=
  or_else (List.filter (survives_reorg c) (we_history e)) (reorg_withdrawal_event c).

Lemma filter_idem {A} (p : A -> bool) l : List.filter p (List.filter p l) = List.filter p l.
Proof. induction l as [|a l IH]; cbn; [done|]. destruct (p a) eqn:Ha; cbn; rewrite ?Ha; congruence. Qed.
Lemma survives_own_block {E} `{BlockEvent E} (v : E) : ev_height v = ch_stacks_block_height c -> ev_hash v = ch_stacks_block_hash c -> survives_reorg c v = true.
Proof. intros. apply survives_iff. by right. Qed.
(** Reorganising twice is reorganising once. *)
Lemma or_else_filter_idem {E} `{BlockEvent E} (l : list E) v : survives_reorg c v = true ->
  or_else (List.filter (survives_reorg c) (or_else (List.filter (survives_reorg c) l) v)) v = or_else (List.filter (survives_reorg c) l) v.
Proof.
  intros Hv. destruct (List.filter (survives_reorg c) l) as [|x k] eqn:Hf; cbn [or_else]; [cbn; by rewrite Hv|]. rewrite <- Hf, filter_idem. by rewrite Hf.
Qed.
(** An entry that was last updated below the tip needs no reorganisation. *)
Lemma unaffected_deposit e : deposit_ok e -> de_last_update_height e < ch_stacks_block_height c -> reorg_deposit_history e = de_history e.
Proof.
  intros [(v & Hv & _ & Hh & _)%deposit_validate_iff Hc] Hlt. unfold reorg_deposit_history. rewrite filter_survives_all; [|done|].
  - destruct (de_history e); [done|]. done.
  - intros a Ha. rewrite Hv in Ha. injection Ha as <-. apply survives_iff. left. cbn. lia.
Qed.
Lemma unaffected_withdrawal e : withdrawal_ok e -> we_last_update_height e < ch_stacks_block_height c -> reorg_withdrawal_history e = we_history e.
Proof.
  intros [(v & Hv & _ & Hh & _)%withdrawal_validate_iff Hc] Hlt. unfold reorg_withdrawal_history. rewrite filter_survives_all; [|done|].
  - destruct (we_history e); [done|]. done.
  - intros a Ha. rewrite Hv in Ha. injection Ha as <-. apply survives_iff. left. cbn. lia.
Qed.

(** One entry. *)
Lemma does_reorganize_deposit n s k e : tables_ok (contents s) -> tb_deposits (contents s) !! k = Some e -> exists e',
  does (reorganize_deposit (S n) c k) s tt (put_deposit e' (contents s)) /\ de_key e' = k /\ deposit_ok e' /\ de_history e' = reorg_deposit_history e.
Proof.
  intros [Hok _] He. destruct (Hok k e He) as [Hk [_ Hc]]. destruct (deposit_reorganize_spec c e Hc) as (e' & Hr & Hok' & Hk' & Hv' & Hh').
  exists (de_set_version (de_version e' + 1) e'). split_and!; [|by cbn; rewrite Hk'|exact Hok'|exact Hh'].
  cbn [reorganize_deposit]. eapply does_bind; [by apply does_get_deposit|]. intros s1 H1. rewrite Hr. eapply does_bind; [by apply does_lift|].
  intros s2 H2. apply does_on_conflict. eapply does_write; [reflexivity|]. cbn. rewrite H2, H1, Hk', Hk, He. cbn.
  by rewrite Hv', Z.eqb_refl.
Qed.

Lemma values_NoDup `{Countable K} {V} (key : V -> K) (m : gmap K V) : map_Forall (fun k v => key v = k) m -> NoDup (values m).
Proof.
  intros Hk. unfold values. apply NoDup_fmap_2_strong; [|apply NoDup_map_to_list]. intros [k v] [k' v'] Hx Hy Hv. cbn in Hv. subst v'.
  apply elem_of_map_to_list in Hx, Hy. apply Hk in Hx, Hy. congruence.
Qed.
Lemma NoDup_singleton_perm {A} (l : list A) x : NoDup l -> (forall y, y ∈ l <-> y = x) -> l = [x].
Proof.
  intros Hl Hx. destruct l as [|y l]; [specialize (proj2 (Hx x) eq_refl); set_solver|]. apply NoDup_cons in Hl as [Hy Hl].
  assert (y = x) as -> by (apply Hx; left). destruct l as [|z l]; [done|]. assert (z = x) as -> by (apply Hx; right; left). set_solver.
Qed.
(** Every request id has one entry. *)
Definition ids_unique (t : Tables) : Prop := forall k k' e e', tb_withdrawals t !! k = Some e -> tb_withdrawals t !! k' = Some e' ->
  wk_request_id k = wk_request_id k' -> k = k'.
Lemma does_get_withdrawal s k e : tables_ok (contents s) -> ids_unique (contents s) -> tb_withdrawals (contents s) !! k = Some e ->
  does (get_withdrawal_entry (wk_request_id k)) s e (contents s).
Proof.
  intros [_ Hok] Hu He. destruct (quiet_query (QWithdrawals (wk_request_id k)) None (Some 3) s) as (page & next & Ho & Ht & _ & _ & Hp); [naive_solver lia|].
  assert (cursor (contents s) (QWithdrawals (wk_request_id k)) None = [e]) as Hcur.
  { apply NoDup_singleton_perm.
    - rewrite cursor_matches. cbn. apply NoDup_ListNoDup, List.NoDup_filter, NoDup_ListNoDup, (values_NoDup we_key). intros k' e' He'. by destruct (Hok k' e' He').
    - intros y. rewrite cursor_matches. cbn. rewrite filter_elem, values_elem, Z.eqb_eq. split.
      + intros [[k' Hk'] Hid]. destruct (Hok k' y Hk') as [<- _]. assert (we_key y = k) as Hyk by by eapply Hu. rewrite Hyk in Hk'. congruence.
      + intros ->. destruct (Hok k e He) as [-> _]. split; [by exists k|done]. }
  rewrite Hcur in Hp. cbn in Hp. rewrite Hp in Ho by done. eapply does_bind; [by split|]. intros s' Hs'. cbn. rewrite <- Hs'. apply does_ret.
Qed.
Lemma does_reorganize_withdrawal n s k e : tables_ok (contents s) -> ids_unique (contents s) -> tb_withdrawals (contents s) !! k = Some e -> exists e',
  does (reorganize_withdrawal (S n) c (wk_request_id k)) s tt (put_withdrawal e' (contents s)) /\ we_key e' = k /\ withdrawal_ok e' /\
  we_history e' = reorg_withdrawal_history e.
Proof.
  intros Ht Hu He. pose proof Ht as [_ Hok]. destruct (Hok k e He) as [Hk [_ Hc]]. destruct (withdrawal_reorganize_spec c e Hc) as (e' & Hr & Hok' & Hk' & Hv' & Hh').
  exists (we_set_version (we_version e' + 1) e'). split_and!; [|by cbn; rewrite Hk'|exact Hok'|exact Hh'].
  cbn [reorganize_withdrawal]. eapply does_bind; [by apply does_get_withdrawal|]. intros s1 H1. rewrite Hr. eapply does_bind; [by apply does_lift|].
  intros s2 H2. apply does_on_conflict. eapply does_write; [reflexivity|]. cbn. rewrite H2, H1, Hk', Hk, He. cbn.
  by rewrite Hv', Z.eqb_refl.
Qed.

(** The entries to look at. *)
Lemma concat_elem {A} (ls : list (list A)) x : x ∈ concat ls <-> exists l, x ∈ l /\ l ∈ ls.
Proof. rewrite list_elem_of_In, in_concat. split; intros (l & H1 & H2); exists l; rewrite !list_elem_of_In in *; done. Qed.
Lemma length_filter_le {A} (p : A -> bool) l : (length (List.filter p l) <= length l)%nat.
Proof. induction l as [|a l IH]; cbn; [lia|]. destruct (p a); cbn; lia. Qed.
Lemma length_values `{Countable K} {V} (m : gmap K V) : length (values m) = size m.
Proof. unfold values. by rewrite length_fmap, length_map_to_list. Qed.
Lemma does_all_deposits pages s : tables_ok (contents s) -> (size (tb_deposits (contents s)) < pages)%nat -> exists l,
  does (get_all_deposit_entries_modified_from_height pages (ch_stacks_block_height c)) s l (contents s) /\
  forall k, k ∈ map dif_primary_index_key l <-> exists e, tb_deposits (contents s) !! k = Some e /\ ch_stacks_block_height c <= de_last_update_height e.
Proof.
  intros [Hok _] Hsize. set (q st := QDepositsWithStatus st (Some (ch_stacks_block_height c))).
  exists (concat (map (fun st => cursor (contents s) (q st) None) deposit_statuses)). split.
  - eapply does_bind; [apply (does_map_read _ (fun st => cursor (contents s) (q st) None))|].
    + intros st s' Hs'. unfold get_all_deposit_entries_modified_from_height_with_status. rewrite <- Hs'. apply does_query_all. rewrite cursor_matches. cbn.
      rewrite length_map. eapply Nat.le_lt_trans; [apply length_filter_le|]. by rewrite length_values, Hs'.
    + intros s' <-. apply does_ret.
  - intros k. rewrite list_elem_of_fmap. split.
    + intros (d & -> & (l & Hd & (st & -> & _)%list_elem_of_fmap)%concat_elem). rewrite cursor_matches in Hd. cbn in Hd.
      apply list_elem_of_fmap in Hd as (e & -> & [(k & Hk)%values_elem [_ Hh]%andb_true_iff]%filter_elem). destruct (Hok k e Hk) as [Hkey _]. cbn in *. rewrite Hkey.
      exists e. split; [done|]. by apply Z.leb_le.
    + intros (e & He & Hh). destruct (Hok k e He) as [Hkey _]. exists (deposit_info e). split; [done|]. apply concat_elem.
      exists (cursor (contents s) (q (de_status e)) None). split.
      * rewrite cursor_matches. cbn. apply list_elem_of_fmap. exists e. split; [done|]. apply filter_elem. split; [apply values_elem; by exists k|].
        apply andb_true_iff. split; [by apply bool_decide_eq_true|]. by apply Z.leb_le.
      * apply list_elem_of_fmap. exists (de_status e). split; [done|]. destruct (de_status e); set_solver.
Qed.
Lemma does_all_withdrawals pages s : tables_ok (contents s) -> (size (tb_withdrawals (contents s)) < pages)%nat -> exists l,
  does (get_all_withdrawal_entries_modified_from_height pages (ch_stacks_block_height c)) s l (contents s) /\
  forall k, k ∈ map wif_primary_index_key l <-> exists e, tb_withdrawals (contents s) !! k = Some e /\ ch_stacks_block_height c <= we_last_update_height e.
Proof.
  intros [_ Hok] Hsize. set (q st := QWithdrawalsWithStatus st (Some (ch_stacks_block_height c))).
  exists (concat (map (fun st => cursor (contents s) (q st) None) withdrawal_statuses)). split.
  - eapply does_bind; [apply (does_map_read _ (fun st => cursor (contents s) (q st) None))|].
    + intros st s' Hs'. unfold get_all_withdrawal_entries_modified_from_height_with_status. rewrite <- Hs'. apply does_query_all. rewrite cursor_matches. cbn.
      rewrite length_map. eapply Nat.le_lt_trans; [apply length_filter_le|]. by rewrite length_values, Hs'.
    + intros s' <-. apply does_ret.
  - intros k. rewrite list_elem_of_fmap. split.
    + intros (d & -> & (l & Hd & (st & -> & _)%list_elem_of_fmap)%concat_elem). rewrite cursor_matches in Hd. cbn in Hd.
      apply list_elem_of_fmap in Hd as (e & -> & [(k & Hk)%values_elem [_ Hh]%andb_true_iff]%filter_elem). destruct (Hok k e Hk) as [Hkey _]. cbn in *. rewrite Hkey.
      exists e. split; [done|]. by apply Z.leb_le.
    + intros (e & He & Hh). destruct (Hok k e He) as [Hkey _]. exists (withdrawal_info e). split; [done|]. apply concat_elem.
      exists (cursor (contents s) (q (we_status e)) None). split.
      * rewrite cursor_matches. cbn. apply list_elem_of_fmap. exists e. split; [done|]. apply filter_elem. split; [apply values_elem; by exists k|].
        apply andb_true_iff. split; [by apply bool_decide_eq_true|]. by apply Z.leb_le.
      * apply list_elem_of_fmap. exists (we_status e). split; [done|]. destruct (we_status e); set_solver.
Qed.

(** The loops: the entries that are still to be reorganised are among [ks]. *)
Definition deposits_between (t0 : Tables) (ks : list DepositEntryKey) (t : Tables) : Prop :=
  forall k, match tb_deposits t0 !! k, tb_deposits t !! k with
  | Some e0, Some e => de_history e = reorg_deposit_history e0 \/ (de_history e = de_history e0 /\ k ∈ ks)
  | None, None => k ∉ ks
  | _, _ => False
  end.
Definition withdrawals_between (t0 : Tables) (ks : list WithdrawalEntryKey) (t : Tables) : Prop :=
  forall k, match tb_withdrawals t0 !! k, tb_withdrawals t !! k with
  | Some e0, Some e => we_history e = reorg_withdrawal_history e0 \/ (we_history e = we_history e0 /\ k ∈ ks)
  | None, None => k ∉ ks
  | _, _ => False
  end.
Lemma reorg_deposit_twice e0 e : de_history e = reorg_deposit_history e0 \/ de_history e = de_history e0 -> reorg_deposit_history e = reorg_deposit_history e0.
Proof. unfold reorg_deposit_history. intros [-> | ->]; [|done]. apply or_else_filter_idem. by apply survives_own_block. Qed.
Lemma reorg_withdrawal_twice e0 e : we_history e = reorg_withdrawal_history e0 \/ we_history e = we_history e0 -> reorg_withdrawal_history e = reorg_withdrawal_history e0.
Proof. unfold reorg_withdrawal_history. intros [-> | ->]; [|done]. apply or_else_filter_idem. by apply survives_own_block. Qed.

Lemma does_reorganize_deposits t0 l s : tables_ok (contents s) -> deposits_between t0 (map dif_primary_index_key l) (contents s) -> exists bs t,
  does (st_map (fun d => reorganize_deposit ENTRY_UPDATE_RETRIES c (dif_primary_index_key d)) l) s bs t /\
  tables_ok t /\ deposits_between t0 [] t /\ exists m, t = on_deposits (fun _ => m) (contents s).
Proof.
  intros Hok Hb. apply (does_map _ (fun l t => tables_ok t /\ deposits_between t0 (map dif_primary_index_key l) t /\ exists m, t = on_deposits (fun _ => m) (contents s))).
  2: { split_and!; [done|done|]. exists (tb_deposits (contents s)). by destruct (contents s). }
  clear Hok Hb. intros d l' s' (Hok & Hb & m & Hm). set (k := dif_primary_index_key d). pose proof (Hb k) as Hk.
  destruct (tb_deposits t0 !! k) as [e0|] eqn:He0, (tb_deposits (contents s') !! k) as [e|] eqn:He; try done.
  2: { exfalso. apply Hk. left. }
  destruct (does_reorganize_deposit 3 s' k e Hok He) as (e' & Hd & Hk' & Hok' & Hh'). exists tt, (put_deposit e' (contents s')). split; [done|]. split_and!.
  - destruct Hok as [Hdo Hw]. split; [|done]. unfold deposits_ok. cbn. by apply map_Forall_insert_2.
  - intros k'. cbn. rewrite Hk'. destruct (decide (k = k')) as [<- |Hne].
    + rewrite He0, lookup_insert_eq. left. rewrite Hh'. apply reorg_deposit_twice. naive_solver.
    + rewrite lookup_insert_ne by done. specialize (Hb k'). cbn in Hb. destruct (tb_deposits t0 !! k'), (tb_deposits (contents s') !! k'); set_solver.
  - exists (<[de_key e' := e']> m). rewrite Hm. done.
Qed.
Lemma does_reorganize_withdrawals t0 l s : tables_ok (contents s) -> ids_unique (contents s) ->
  withdrawals_between t0 (map wif_primary_index_key l) (contents s) -> exists bs t,
  does (st_map (fun w => reorganize_withdrawal ENTRY_UPDATE_RETRIES c (wk_request_id (wif_primary_index_key w))) l) s bs t /\
  tables_ok t /\ withdrawals_between t0 [] t /\ exists m, t = on_withdrawals (fun _ => m) (contents s).
Proof.
  intros Hok Hu Hb. destruct (does_map (fun w => reorganize_withdrawal ENTRY_UPDATE_RETRIES c (wk_request_id (wif_primary_index_key w)))
    (fun l t => (tables_ok t /\ withdrawals_between t0 (map wif_primary_index_key l) t /\ exists m, t = on_withdrawals (fun _ => m) (contents s)) /\ ids_unique t) l)
    with (s := s) as (bs & t & Hd & Hp & _).
  2: { split_and!; [done|done| |done]. exists (tb_withdrawals (contents s)). by destruct (contents s). }
  2: by exists bs, t.
  clear Hok Hb Hu. intros d l' s' ((Hok & Hb & m & Hm) & Hu). set (k := wif_primary_index_key d). pose proof (Hb k) as Hk.
  destruct (tb_withdrawals t0 !! k) as [e0|] eqn:He0, (tb_withdrawals (contents s') !! k) as [e|] eqn:He; try done.
  2: { exfalso. apply Hk. left. }
  destruct (does_reorganize_withdrawal 3 s' k e Hok Hu He) as (e' & Hd & Hk' & Hok' & Hh'). exists tt, (put_withdrawal e' (contents s')). split; [done|]. split_and!.
  - destruct Hok as [Hdo Hw]. split; [done|]. unfold withdrawals_ok. cbn. by apply map_Forall_insert_2.
  - intros k'. cbn. rewrite Hk'. destruct (decide (k = k')) as [<- |Hne].
    + rewrite He0, lookup_insert_eq. left. rewrite Hh'. apply reorg_withdrawal_twice. naive_solver.
    + rewrite lookup_insert_ne by done. specialize (Hb k'). cbn in Hb. destruct (tb_withdrawals t0 !! k'), (tb_withdrawals (contents s') !! k'); set_solver.
  - exists (<[we_key e' := e']> m). rewrite Hm. done.
  - intros k1 k2 e1 e2. cbn. rewrite Hk'. intros [[<- _]|[_ H1]]%lookup_insert_Some [[<- _]|[_ H2]]%lookup_insert_Some; try done; by eapply Hu.
Qed.
End Reorg.

Definition same_kind (a b : ApiStatus) : bool := match a, b with Stable _, Stable _ | Reorg _, Reorg _ => true | _, _ => false end.
Lemma does_set_status_attempts `{QuietLaws} n new a s : tb_api_state (contents s) = Some a -> same_kind new (as_api_status a) = false ->
  does (set_api_state_attempts (S n) new) s (Some (with_status new a)) (set_api (mkApiState (as_version a + 1) new) (contents s)).
Proof.
  intros Ha Hk. cbn [set_api_state_attempts]. eapply does_bind; [by apply does_get_api_state|]. intros s1 H1.
  assert (does (on_conflict (set_api_state (with_status new a);;; st_ret (Some (with_status new a)))
    (set_api_state_attempts n new)) s1 (Some (with_status new a)) (set_api (mkApiState (as_version a + 1) new) (contents s))) as Hd.
  { apply does_on_conflict. eapply does_bind; [apply (does_set_api_state _ _ a); [by rewrite H1|done]|]. intros s2 H2. rewrite <- H1. cbn in H2. rewrite <- H2. apply does_ret. }
  by destruct new, (as_api_status a).
Qed.
Lemma does_set_status `{QuietLaws} new a s : tb_api_state (contents s) = Some a -> same_kind new (as_api_status a) = false ->
  does (set_api_state_status new) s (Some (with_status new a)) (set_api (mkApiState (as_version a + 1) new) (contents s)).
Proof. apply does_set_status_attempts. Qed.

(** Before the loops, an entry that is not among the keys is as it should be. *)
Lemma deposits_to_do c t ks : tables_ok t -> (forall k, k ∈ ks <-> exists e, tb_deposits t !! k = Some e /\ ch_stacks_block_height c <= de_last_update_height e) ->
  deposits_between c t ks t.
Proof.
  intros [Hok _] Hks k. destruct (tb_deposits t !! k) as [e|] eqn:He; [|rewrite Hks; naive_solver].
  destruct (Z.le_gt_cases (ch_stacks_block_height c) (de_last_update_height e)) as [Hle|Hlt]; [right; split; [done|]; apply Hks; by exists e|].
  left. symmetry. apply unaffected_deposit; [|lia]. by destruct (Hok k e He).
Qed.
Lemma withdrawals_to_do c t ks : tables_ok t -> (forall k, k ∈ ks <-> exists e, tb_withdrawals t !! k = Some e /\ ch_stacks_block_height c <= we_last_update_height e) ->
  withdrawals_between c t ks t.
Proof.
  intros [_ Hok] Hks k. destruct (tb_withdrawals t !! k) as [e|] eqn:He; [|rewrite Hks; naive_solver].
  destruct (Z.le_gt_cases (ch_stacks_block_height c) (we_last_update_height e)) as [Hle|Hlt]; [right; split; [done|]; apply Hks; by exists e|].
  left. symmetry. apply unaffected_withdrawal; [|lia]. by destruct (Hok k e He).
Qed.
(** The two loops between the changes of the API state. *)
Lemma does_reorg_loops `{QuietLaws} c pages s : tables_ok (contents s) -> ids_unique (contents s) ->
  (size (tb_deposits (contents s)) < pages)%nat -> (size (tb_withdrawals (contents s)) < pages)%nat ->
  forall (k : st Store EmilyError unit) t', (forall s' m m', contents s' = on_withdrawals (fun _ => m') (on_deposits (fun _ => m) (contents s)) ->
     tables_ok (contents s') -> deposits_between c (contents s) [] (contents s') -> withdrawals_between c (contents s) [] (contents s') -> does k s' tt (t' m m')) ->
  exists m m', does (all_deposits <- get_all_deposit_entries_modified_from_height pages (ch_stacks_block_height c);;
    st_map (fun d => reorganize_deposit ENTRY_UPDATE_RETRIES c (dif_primary_index_key d)) all_deposits;;;
    all_withdrawals <- get_all_withdrawal_entries_modified_from_height pages (ch_stacks_block_height c);;
    st_map (fun w => reorganize_withdrawal ENTRY_UPDATE_RETRIES c (wk_request_id (wif_primary_index_key w))) all_withdrawals;;; k) s tt (t' m m') /\
    let t := on_withdrawals (fun _ => m') (on_deposits (fun _ => m) (contents s)) in
    tables_ok t /\ deposits_between c (contents s) [] t /\ withdrawals_between c (contents s) [] t.
Proof.
  intros Hok Hu Hnd Hnw k t' Hk. destruct (does_all_deposits c pages s Hok Hnd) as (l & Hl & Hks).
  destruct (does_reorganize_deposits c (contents s) l (get_all_deposit_entries_modified_from_height pages (ch_stacks_block_height c) s).1)
    as (bs & t2 & H2 & Hok2 & Hb2 & m & Hm); [by rewrite (proj2 Hl)|rewrite (proj2 Hl); by apply deposits_to_do|]. rewrite (proj2 Hl) in Hm.
  set (loop := st_map (fun d => reorganize_deposit ENTRY_UPDATE_RETRIES c (dif_primary_index_key d)) l) in *.
  set (s2 := (loop (get_all_deposit_entries_modified_from_height pages (ch_stacks_block_height c) s).1).1) in *. assert (contents s2 = t2) as Hs2 by apply H2.
  destruct (does_all_withdrawals c pages s2) as (l' & Hl' & Hks'); [by rewrite Hs2|by rewrite Hs2, Hm|].
  set (s3 := (get_all_withdrawal_entries_modified_from_height pages (ch_stacks_block_height c) s2).1) in *. assert (contents s3 = t2) as Hs3 by (transitivity (contents s2); [apply Hl'|done]).
  assert (withdrawals_between c (contents s) (map wif_primary_index_key l') t2) as Hbw.
  { rewrite Hs2 in Hks'. pose proof (withdrawals_to_do c t2 _ Hok2 Hks') as Hb. intros j. specialize (Hb j). rewrite Hm in Hb |- *. cbn in *. done. }
  destruct (does_reorganize_withdrawals c (contents s) l' s3) as (bs' & t3 & H3 & Hok3 & Hb3 & m' & Hm'); [by rewrite Hs3| |by rewrite Hs3|].
  { rewrite Hs3, Hm. exact Hu. }
  assert (t3 = on_withdrawals (fun _ => m') (on_deposits (fun _ => m) (contents s))) as Ht3 by (rewrite Hm', Hs3, Hm; done).
  assert (deposits_between c (contents s) [] t3) as Hbd3 by (rewrite Hm', Hs3; exact Hb2).
  assert (forall s', contents s' = t3 -> does k s' tt (t' m m')) as Hk' by (intros s' Hs'; apply (Hk s' m m'); by rewrite Hs').
  exists m, m'. split; [|by cbv zeta; rewrite <- Ht3].
  eapply does_bind_at; [done|]. eapply does_bind_at; [done|]. eapply does_bind_at; [done|]. eapply does_bind_at; [done|].
  apply Hk', H3.
Qed.


(** ** Updates of the only client *)

(** The only client's update takes effect at the first attempt: when the entry of the
    deposit is valid and accepts the update, the retry loop returns the successor of
    the entry and the table holds it, whatever the number of retries. *)
Lemma deposit_update_takes_effect `{QuietLaws} u n trusted e p s :
  tables_ok (contents s) -> tb_deposits (contents s) !! vdu_key u = Some e -> deposit_decision u trusted e = Ok (Some p) ->
  does (pull_and_update_deposit_with_retry u (S n) trusted) s (deposit_apply p e) (put_deposit (deposit_apply p e) (contents s)) /\
  last (de_history (deposit_apply p e)) = Some (vdu_event u) /\ deposit_ok (deposit_apply p e).
Proof.
  intros [Hok _] He Hd. destruct (Hok _ _ He) as [Hk Hoke]. pose proof (deposit_decision_package _ _ _ _ Hd) as Hp.
  destruct (deposit_apply_ok e u p Hoke Hp) as (Hok' & Hev & Hkey & Hv & _). split_and!; [|by cbn; rewrite last_snoc, Hev|done].
  cbn [pull_and_update_deposit_with_retry]. eapply does_bind; [by apply does_get_deposit|]. intros s1 H1.
  eapply does_bind; [by apply does_lift|]. intros s2 H2. apply does_on_conflict. rewrite <- H1, <- H2. apply does_update_deposit; [|done].
  by rewrite H2, H1, Hkey, Hk.
Qed.

(** ** Throttling *)
Section Limits.
Context `{QuietLaws}.

(** Reads that may fail. *)
Definition calm {A} (m : st Store EmilyError A) (s : Store) : Prop :=
  contents (m s).1 = contents s /\ match (m s).2 with Panic | Diverge => False | _ => True end.
Lemma calm_bind {A B} (m : st Store EmilyError A) (k : A -> st Store EmilyError B) s :
  calm m s -> (forall a s', contents s' = contents s -> (m s).2 = Ok a -> calm (k a) s') -> calm (st_bind m k) s.
Proof.
  intros [Hm Ho] Hk. unfold calm, st_bind. destruct (m s) as [s' []]; cbn in *; try done. destruct (Hk a s' Hm eq_refl) as [Hc Hc']. split; [congruence|done].
Qed.
Lemma calm_ret {A} (a : A) s : calm (st_ret a) s.
Proof. done. Qed.
Lemma calm_throw {A} e s : calm (st_throw (A := A) e) s.
Proof. done. Qed.
Lemma calm_ok_or {A} (o : option A) e s : calm (st_ok_or o e) s.
Proof. by destruct o. Qed.
Lemma calm_result {A} (m : st Store EmilyError A) s : calm m s -> calm (st_result m) s.
Proof. intros [Hm Ho]. unfold calm, st_result. by destruct (m s) as [s' []]. Qed.
Lemma calm_does {A} (m : st Store EmilyError A) s a : does m s a (contents s) -> calm m s.
Proof. intros [Ho Ht]. split; [done|]. by rewrite Ho. Qed.
Lemma calm_map {A B} (f : A -> st Store EmilyError B) l s : (forall a s', contents s' = contents s -> calm (f a) s') -> calm (st_map f l) s.
Proof.
  revert s. induction l as [|a l IH]; intros s Hf; cbn; [apply calm_ret|]. apply calm_bind; [by apply Hf|]. intros b s1 H1 _.
  apply calm_bind; [apply IH; intros; apply Hf; congruence|]. intros bs s2 _ _. apply calm_ret.
Qed.
Lemma calm_query {E} (q : query E) start limit s : (forall n, limit = Some n -> 1 <= n) -> calm (send (Query q start limit)) s.
Proof. intros Hl. destruct (quiet_query q start limit s Hl) as (page & next & Ho & Ht & _). split; [done|]. by rewrite Ho. Qed.
Lemma calm_result_does {A} (m : st Store EmilyError A) s : calm m s -> exists r, does (st_result m) s r (contents s).
Proof. intros [Hm Ho]. unfold does, st_result. destruct (m s) as [s' [a|e| |]]; cbn in *; try done; by eexists. Qed.

Lemma calm_first_block hs s : calm (first_stacks_block hs) s.
Proof.
  revert s. induction hs as [|h hs IH]; intros s; cbn; [apply calm_throw|]. apply calm_bind.
  - apply calm_result. apply calm_bind; [by apply calm_query|]. intros page s' _ _. apply calm_ok_or.
  - intros [z|e] s' _ _; [apply calm_ret|apply IH].
Qed.
(** The chain tip, as the API knows it. *)
Definition tip_known (t : Tables) : Prop := exists a, tb_api_state t = Some a /\
  forall h, ce_bitcoin_height (chaintip a) = Some h -> 0 <= h < 2 ^ 64 - 1.
Lemma calm_block_range lo hi s : lo <= hi < 2 ^ 64 - 1 -> calm (get_oldest_stacks_block_in_range lo hi) s.
Proof.
  intros [Hlo Hhi]. unfold get_oldest_stacks_block_in_range. apply Z.leb_le in Hlo. rewrite Hlo. cbn [negb]. rewrite (add_u_ok 64) by lia.
  apply calm_bind; [done|]. intros stop s' _ _. apply calm_first_block.
Qed.
Lemma calm_sbtc_left pages blocks cap s : tip_known (contents s) -> (size (tb_withdrawals (contents s)) < pages)%nat ->
  calm (calculate_sbtc_left_for_withdrawals pages blocks cap) s.
Proof.
  intros (a & Ha & Hh) Hsize. unfold calculate_sbtc_left_for_withdrawals. destruct blocks as [b|]; [|apply calm_ret]. destruct cap as [cp|]; [|apply calm_ret].
  pose proof (does_get_api_state s a Ha) as Hd. apply calm_bind; [by eapply calm_does|]. intros a' s1 H1 Ha'. rewrite (proj1 Hd) in Ha'. injection Ha' as <-.
  apply calm_bind; [apply calm_ok_or|]. intros h s2 H2 Hh2. cbn in Hh2. apply ok_or_ok in Hh2. specialize (Hh h Hh2).
  apply calm_bind; [apply calm_block_range; unfold saturating_sub; lia|]. intros lo s3 H3 _. apply calm_bind; [|intros; apply calm_ret].
  apply calm_map. intros st s' Hs'. eapply calm_does. apply does_query_all. rewrite cursor_matches. cbn. rewrite length_map.
  eapply Nat.le_lt_trans; [apply length_filter_le|]. rewrite length_values, Hs', H3, H2, H1. done.
Qed.

(** The scan of the limits. *)
Lemma does_all_limits pages : forall start s, (length (scan_cursor (contents s) start) < pages)%nat ->
  does (get_all_limit_entries pages start) s (scan_cursor (contents s) start) (contents s).
Proof.
  induction pages as [|pages IH]; intros start s Hf; [lia|]. cbn [get_all_limit_entries].
  destruct (quiet_scan start s) as (page & next & Ho & Ht & Hc & Hne). eapply does_bind; [by split|]. intros s' Hs'. cbn [fst snd].
  destruct next as [k|].
  - rewrite Hc in Hf |- *. rewrite length_app in Hf. assert (length page <> 0)%nat by (destruct page; [by destruct Hne|done]).
    eapply does_bind; [apply IH; rewrite Hs'; lia|]. intros s'' Hs''. rewrite Hs' in *. rewrite <- Hs''. apply does_ret.
  - rewrite app_nil_r in Hc. rewrite Hc, <- Hs'. apply does_ret.
Qed.
(** Enough pages for the tables. *)
Definition pages_enough (pages : nat) (t : Tables) : Prop := (size (tb_limits t) < pages)%nat /\ (size (tb_withdrawals t) < pages)%nat.
Definition default_entry (d : AccountLimits) : LimitEntry := mkLimitEntry (mkLimitKey GLOBAL_CAP_ACCOUNT 0) d.
Lemma does_get_limits pages d s : tip_known (contents s) -> pages_enough pages (contents s) -> exists avail,
  does (get_limits pages d) s
    (mkLimits avail (le_limits (latest_limits (default_entry d) (scan_cursor (contents s) None)).1)
       (filter (fun kv => limit_is_empty kv.2 = false) (le_limits <$> (latest_limits (default_entry d) (scan_cursor (contents s) None)).2))) (contents s).
Proof.
  intros Htip [Hl Hw]. set (all := scan_cursor (contents s) None). unfold get_limits. fold (default_entry d).
  assert (does (get_all_limit_entries pages None) s all (contents s)) as Hall.
  { apply does_all_limits. by rewrite scan_cursor_all, length_values. }
  destruct (latest_limits (default_entry d) all) as [g m] eqn:Hg. set (s1 := (get_all_limit_entries pages None s).1). assert (contents s1 = contents s) as H1 by apply Hall.
  destruct (calm_result_does (calculate_sbtc_left_for_withdrawals pages (al_rolling_withdrawal_blocks (le_limits g)) (al_rolling_withdrawal_cap (le_limits g))) s1)
    as [r Hr]; [apply calm_sbtc_left; by rewrite H1|].
  exists (match r with inl o => o | inr _ => None end). eapply does_bind_at; [done|]. rewrite Hg. eapply does_bind_at; [done|]. cbn [fst snd].
  rewrite <- H1, <- (proj2 Hr). apply does_ret.
Qed.
End Limits.

(** The latest entries. *)
Definition is_global (e : LimitEntry) : Prop := lk_account (le_key e) = GLOBAL_CAP_ACCOUNT.
Definition latest_step : LimitEntry * gmap string LimitEntry -> LimitEntry -> LimitEntry * gmap string LimitEntry :=
  fun '(global, by_account) e =>
    let account := lk_account (le_key e) in
    if bool_decide (account = GLOBAL_CAP_ACCOUNT) then
      (if lk_timestamp (le_key global) <? lk_timestamp (le_key e) then e else global, by_account)
    else match by_account !! account with
    | Some existing =>
        (global, if lk_timestamp (le_key existing) <? lk_timestamp (le_key e) then <[account := e]> by_account else by_account)
    | None => (global, <[account := e]> by_account)
    end.
Lemma latest_limits_steps g all : latest_limits g all = foldl latest_step (g, ∅) all.
Proof. done. Qed.
(** An entry of the global account that is later than all the others is the one in force. *)
Lemma latest_global x all : is_global x -> (forall e, e ∈ all -> is_global e -> e <> x -> lk_timestamp (le_key e) < lk_timestamp (le_key x)) ->
  forall g m, g = x \/ (lk_timestamp (le_key g) < lk_timestamp (le_key x) /\ x ∈ all) -> (foldl latest_step (g, m) all).1 = x.
Proof.
  intros Hx. induction all as [|e all IH]; intros Hlt g m Hg; cbn [foldl]; [destruct Hg as [-> |[_ []%elem_of_nil]]; done|].
  assert (forall e', e' ∈ all -> is_global e' -> e' <> x -> lk_timestamp (le_key e') < lk_timestamp (le_key x)) as Hlt' by (intros; apply Hlt; [by right|done|done]).
  destruct (latest_step (g, m) e) as [g' m'] eqn:Hs. apply (IH Hlt'). revert Hs. unfold latest_step. case_bool_decide as Hge.
  - intros [= <- _]. specialize (Hlt e ltac:(left) Hge). destruct (decide (e = x)) as [-> |Hne].
    + left. zcase; [done|]. destruct Hg as [-> |[Hg _]]; [done|lia].
    + specialize (Hlt Hne). zcase.
      * right. destruct Hg as [-> |[_ [-> |Hin]%elem_of_cons]]; [exfalso; lia|done|done].
      * destruct Hg as [-> |[Hgx [-> |Hin]%elem_of_cons]]; [by left|done|by right].
  - intros Hs. assert (g' = g) as -> by (destruct (m !! _); by injection Hs). destruct Hg as [-> |[Hgx [-> |Hin]%elem_of_cons]]; [by left|done|by right].
Qed.
(** The global account is not among the others, and there are not more accounts than entries. *)
Lemma latest_accounts all : forall g m, m !! GLOBAL_CAP_ACCOUNT = None ->
  (foldl latest_step (g, m) all).2 !! GLOBAL_CAP_ACCOUNT = None /\ (size (foldl latest_step (g, m) all).2 <= size m + length all)%nat.
Proof.
  induction all as [|e all IH]; intros g m Hm; cbn [foldl length]; [cbn; split; [done|lia]|]. destruct (latest_step (g, m) e) as [g' m'] eqn:Hs.
  assert (m' !! GLOBAL_CAP_ACCOUNT = None /\ (size m' <= S (size m))%nat) as [Hm' Hsz].
  { revert Hs. unfold latest_step. case_bool_decide as Hge; [intros [= _ <-]; split; [done|lia]|].
    assert ((<[lk_account (le_key e) := e]> m) !! GLOBAL_CAP_ACCOUNT = None) as Hi by by rewrite lookup_insert_ne.
    assert (size (<[lk_account (le_key e) := e]> m) <= S (size m))%nat as Hsi.
    { destruct (m !! lk_account (le_key e)) eqn:Hl; [rewrite map_size_insert_Some by done; lia|rewrite map_size_insert_None by done; lia]. }
    destruct (m !! lk_account (le_key e)); [case_match|]; intros [= _ <-]; split; try done; lia. }
  destruct (IH g' m' Hm') as [H1 H2]. split; [done|lia].
Qed.

(** Throttled limits are at least as tight as the limits before, and as the limits of
    the throttle mode. *)
Definition tightened (l l' : AccountLimits) : Prop :=
  (exists c, al_per_withdrawal_cap l' = Some c /\ c <= THROTTLE_MODE_PER_WITHDRAWAL_CAP /\ forall c0, al_per_withdrawal_cap l = Some c0 -> c <= c0) /\
  (exists b, al_rolling_withdrawal_blocks l' = Some b /\ THROTTLE_MODE_ROLLING_WINDOW <= b /\ forall b0, al_rolling_withdrawal_blocks l = Some b0 -> b0 <= b) /\
  (exists c, al_rolling_withdrawal_cap l' = Some c /\ c <= THROTTLE_MODE_ROLLING_CAP /\ forall c0, al_rolling_withdrawal_cap l = Some c0 -> c <= c0) /\
  al_peg_cap l' = al_peg_cap l /\ al_per_deposit_minimum l' = al_per_deposit_minimum l /\ al_per_deposit_cap l' = al_per_deposit_cap l.
Lemma throttled_tightens initiator l : tightened l (throttled initiator l).
Proof.
  unfold tightened, throttled, map_or. cbn. split_and!; try done.
  - destruct (al_per_withdrawal_cap l) as [c|]; eexists; (split; [done|]); split; [lia|intros ? [= <-]; lia|lia|done].
  - destruct (al_rolling_withdrawal_blocks l) as [c|]; eexists; (split; [done|]); split; [lia|intros ? [= <-]; lia|lia|done].
  - destruct (al_rolling_withdrawal_cap l) as [c|]; eexists; (split; [done|]); split; [lia|intros ? [= <-]; lia|lia|done].
Qed.

Section Throttle.
Context {D : Dynamo} {QL : QuietLaws} {TH : ThrottleHash}.

(** The clock is ahead of the global entries, which are stored under their keys. *)
Definition clock_ahead (time : Z) (t : Tables) : Prop := 0 < time /\
  forall k e, tb_limits t !! k = Some e -> le_key e = k /\ (is_global e -> lk_timestamp k < time).
(** The tables after limits were set at [time]: the new global entry is there, and no
    other entry of the global account has changed. *)
Definition limits_set (time : Z) (l : AccountLimits) (t t' : Tables) : Prop :=
  tb_limits t' !! mkLimitKey GLOBAL_CAP_ACCOUNT time = Some (from_account_limit GLOBAL_CAP_ACCOUNT time l) /\
  (forall k e, tb_limits t' !! k = Some e -> le_key e = k /\ (is_global e -> k = mkLimitKey GLOBAL_CAP_ACCOUNT time \/ tb_limits t !! k = Some e)) /\
  tb_api_state t' = tb_api_state t /\ tb_withdrawals t' = tb_withdrawals t.

Lemma size_put_limit (m : gmap LimitEntryKey LimitEntry) k e : (size (<[k := e]> m) <= S (size m))%nat.
Proof. destruct (m !! k) eqn:Hk; [rewrite map_size_insert_Some by done; lia|rewrite map_size_insert_None by done; lia]. Qed.
Lemma does_set_limits pages d time l s : clock_ahead (time GLOBAL_CAP_ACCOUNT) (contents s) -> tip_known (contents s) ->
  limits_validate (li_global l) = Ok tt -> li_account_caps l !! GLOBAL_CAP_ACCOUNT = None ->
  (S (size (tb_limits (contents s)) + size (li_account_caps l)) < pages)%nat -> (size (tb_withdrawals (contents s)) < pages)%nat ->
  exists r t, does (set_limits pages d time l) s (201, r) t /\ limits_set (time GLOBAL_CAP_ACCOUNT) (li_global l) (contents s) t /\ pages_enough pages t.
Proof.
  intros [Htime Hclock] Htip Hv Hcaps Hl Hw. unfold set_limits. rewrite Hv. set (t0 := contents s) in *.
  set (e := from_account_limit GLOBAL_CAP_ACCOUNT (time GLOBAL_CAP_ACCOUNT) (li_global l)). set (t1 := on_limits <[le_key e := e]> t0).
  set (s1 := (set_limit_for_account e s).1). assert (does (set_limit_for_account e) s tt t1) as H1 by by eapply does_write.
  assert (contents s1 = t1) as Hs1 by apply H1.
  destruct (does_map (fun kv => set_limit_for_account (from_account_limit kv.1 (time kv.1) kv.2))
    (fun l' t => (forall kv, kv ∈ l' -> kv.1 <> GLOBAL_CAP_ACCOUNT) /\ limits_set (time GLOBAL_CAP_ACCOUNT) (li_global l) t0 t /\
       (size (tb_limits t) + length l' <= S (size (tb_limits t0) + size (li_account_caps l)))%nat) (map_to_list (li_account_caps l)))
    with (s := s1) as (bs & t2 & H2 & _ & Hset & Hsize).
  - intros [k v] l' s' (Hne & (Hg & Hall & Ha & Hwd) & Hsz). exists tt, (on_limits <[mkLimitKey k (time k) := from_account_limit k (time k) v]> (contents s')).
    split; [by eapply does_write|]. specialize (Hne (k, v) ltac:(left)) as Hk. cbn in Hk. split; [intros; apply Hne; by right|]. split.
    + split_and!; [|intros k' e' He'|done|done].
      * cbn. rewrite lookup_insert_ne; [done|]. congruence.
      * cbn in He'. apply lookup_insert_Some in He' as [[<- <-]|[Hne' He']]; [split; [done|]; intros Hglob; by destruct Hk|]. by apply Hall.
    + cbn. pose proof (size_put_limit (tb_limits (contents s')) (mkLimitKey k (time k)) (from_account_limit k (time k) v)). cbn [length] in Hsz. lia.
  - rewrite Hs1. split; [|split].
    + intros [k v] Hkv%elem_of_map_to_list. cbn. intros ->. by rewrite Hcaps in Hkv.
    + split_and!; [|intros k' e' He'|done|done].
      * cbn. by rewrite lookup_insert_eq.
      * cbn in He'. apply lookup_insert_Some in He' as [[<- <-]|[Hne' He']]; [split; [done|by left]|]. destruct (Hclock _ _ He') as [<- _]. split; [done|by right].
    + cbn. rewrite length_map_to_list. pose proof (size_put_limit (tb_limits t0) (le_key e) e). cbn in *. lia.
  - assert (tb_withdrawals t2 = tb_withdrawals t0 /\ tb_api_state t2 = tb_api_state t0) as [Hw2 Ha2] by by destruct Hset as (_ & _ & ? & ?).
    assert (pages_enough pages t2) as Hp2. { split; [cbn [length] in Hsize; lia|by rewrite Hw2]. }
    set (loop := st_map (fun kv => set_limit_for_account (from_account_limit kv.1 (time kv.1) kv.2)) (map_to_list (li_account_caps l))) in *.
    assert (contents (loop s1).1 = t2) as Hs2 by apply H2.
    destruct (does_get_limits pages d (loop s1).1) as [avail Hget]; [|by rewrite Hs2|].
    { rewrite Hs2. destruct Htip as (a & Ha & Hh). exists a. by rewrite Ha2. }
    rewrite Hs2 in Hget. eexists _, t2. split; [|by split]. eapply does_bind_at; [by apply does_lift|]. eapply does_bind_at; [exact H1|].
    eapply does_bind_at; [exact H2|]. eapply does_bind_at; [exact Hget|]. split; [reflexivity|exact (proj2 Hget)].
Qed.

(** The limits that are in force after they were set. *)
Lemma limits_in_force pages d time l t t' s : clock_ahead time t -> limits_set time l t t' -> pages_enough pages t' -> tip_known t -> contents s = t' -> exists r,
  does (get_limits pages d) s r t' /\ li_global r = l.
Proof.
  intros [Htime Hclock] (Hnew & Hall & Ha & _) Hp (a & Hap & Hh) <-. destruct (does_get_limits pages d s) as [avail Hget]; [|done|].
  { exists a. by rewrite Ha. }
  eexists. split; [exact Hget|]. cbn [li_global]. set (x := from_account_limit GLOBAL_CAP_ACCOUNT time l) in *.
  rewrite latest_limits_steps, (latest_global x); [done|done| |].
  - intros e He Hg Hne. rewrite scan_cursor_all in He. apply values_elem in He as [k Hk]. destruct (Hall k e Hk) as [<- Hcase]. destruct (Hcase Hg) as [Heq|Hold].
    + rewrite Heq in Hk. congruence.
    + by apply (Hclock _ _ Hold).
  - right. split; [done|]. rewrite scan_cursor_all. apply values_elem. by eexists.
Qed.
End Throttle.

(** Throttling takes effect. A client that knows the secret of an active throttle key
    puts the API into throttle mode: the limits that are in force afterwards cap each
    withdrawal at 1.5 BTC and the withdrawals of a window of at least 18 blocks at 2
    BTC, no limit is looser than before, the limits for deposits are what they were,
    and the key is named as the initiator. *)
Theorem throttle_takes_effect {D : Dynamo} {QL : QuietLaws} {TH : ThrottleHash} pages d time name secret salt hash key s :
  salt_from_b64 (sha256_hex name) = Some salt -> hash_password secret salt = Some hash ->
  matches (QThrottleKeys hash) (contents s) = [key] -> te_is_active key = true ->
  tip_known (contents s) -> clock_ahead (time GLOBAL_CAP_ACCOUNT) (contents s) ->
  (S (2 * size (tb_limits (contents s))) < pages)%nat -> (size (tb_withdrawals (contents s)) < pages)%nat ->
  exists old new t, does (get_limits pages d) s old (contents s) /\
    does (start_throttle pages d time name secret) s (200, new) t /\
    forall s', contents s' = t -> exists r, does (get_limits pages d) s' r t /\ tightened (li_global old) (li_global r) /\
      al_throttle_mode_initiator (li_global r) = Some (te_name key).
Proof.
  intros Hsalt Hhash Hkey Hact Htip Hclock Hl Hw.
  destruct (does_get_limits pages d s Htip) as [avail Hget]; [split; lia|]. set (old := mkLimits _ _ _) in Hget.
  assert (does (verify_throttle_key name secret) s (Eligible (te_name key)) (contents s)) as Hver.
  { unfold verify_throttle_key, name_to_salt. rewrite Hsalt. eapply does_bind_at; [by apply does_lift|]. rewrite Hhash. eapply does_bind_at; [by apply does_lift|].
    destruct (quiet_query (QThrottleKeys hash) None None s) as (page & next & Ho & Ht & _ & _ & Hp); [done|].
    assert (page = [key]) as ->. { rewrite Hp by done. cbn. apply Permutation_singleton_r. by rewrite cursor_matches, Hkey. }
    assert (does (get_throttle_key hash) s key (contents s)) as Hg.
    { eapply does_bind; [split; [exact Ho|exact Ht]|]. intros s' Hs'. cbn. rewrite <- Hs'. apply does_ret. }
    eapply does_bind_at; [exact Hg|]. rewrite Hact. split; [done|apply Hg]. }
  set (s1 := (verify_throttle_key name secret s).1). assert (contents s1 = contents s) as H1 by apply Hver.
  destruct (does_get_limits pages d s1) as [avail' Hget']; [by rewrite H1|rewrite H1; split; lia|]. rewrite H1 in Hget'.
  set (new' := mkLimits avail' (throttled (te_name key) (li_global old)) (li_account_caps old)).
  set (s2 := (calculate_throttle_mode_limits pages d (te_name key) s1).1).
  assert (does (calculate_throttle_mode_limits pages d (te_name key)) s1 new' (contents s)) as Hcalc.
  { eapply does_bind_at; [exact Hget'|]. split; [reflexivity|exact (proj2 Hget')]. }
  assert (contents s2 = contents s) as H2 by apply Hcalc.
  assert ((latest_limits (default_entry d) (scan_cursor (contents s) None)).2 !! GLOBAL_CAP_ACCOUNT = None /\
    (size (latest_limits (default_entry d) (scan_cursor (contents s) None)).2 <= size (tb_limits (contents s)))%nat) as [Hng Hsz].
  { rewrite latest_limits_steps. destruct (latest_accounts (scan_cursor (contents s) None) (default_entry d) ∅) as [Hn Hs]; [done|]. split; [done|].
    rewrite map_size_empty in Hs. pose proof (Permutation_length (scan_cursor_all (contents s))) as Hlen. rewrite length_values in Hlen. lia. }
  destruct (does_set_limits pages d time new' s2) as (r & t & Hset & Hls & Hp); rewrite ?H2; try done.
  { cbn. apply map_lookup_filter_None_2. left. by rewrite lookup_fmap, Hng. }
  { assert (size (li_account_caps new') <= size (tb_limits (contents s)))%nat; [|lia]. cbn. etrans; [|exact Hsz].
    etrans; [apply map_subseteq_size, map_filter_subseteq|]. by rewrite map_size_fmap. }
  exists old, new', t. split; [done|]. split.
  - eapply does_bind_at; [exact Hver|]. eapply does_bind_at; [exact Hcalc|]. eapply does_bind_at; [apply does_result; exact Hset|].
    split; [reflexivity|]. apply (does_result _ _ _ _ Hset).
  - intros s' Hs'. rewrite H2 in *. destruct (limits_in_force pages d _ _ _ _ s' Hclock Hls Hp Htip Hs') as (r' & Hr' & Hg).
    exists r'. split; [done|]. rewrite Hg. split; [apply throttled_tightens|done].
Qed.

(** ** Repeated updates *)

(** A deposit update is idempotent: once it has been applied, the same update, sent
    again by a sidecar or a signer, is recognised as unnecessary, and the entry is
    returned as it is. *)
Theorem deposit_update_idempotent u trusted trusted' e p : deposit_ok e -> deposit_decision u trusted e = Ok (Some p) ->
  deposit_decision u trusted' (deposit_apply p e) = Ok None.
Proof.
  intros Hok Hd. pose proof (deposit_decision_package _ _ _ _ Hd) as Hp. destruct (deposit_apply_ok e u p Hok Hp) as (_ & Hev & _).
  unfold deposit_decision, deposit_is_unnecessary, in_recent_history. cbn [deposit_apply de_history]. rewrite reverse_snoc, Hev. cbn [take_while].
  rewrite Z.leb_refl. cbn [existsb]. by rewrite bool_decide_true.
Qed.

(** A withdrawal update is not: the entry that is stored has the Bitcoin height at
    which the fulfilment is expected, which an update does not carry, so the stored
    event differs from the one of the update. The update is applied again each time. *)
Lemma repeated_withdrawal_update u e p h :
  withdrawal_ok e -> withdrawal_decision u true e = Ok (Some p) -> withdrawal_status_from (wv_status (vwu_event u)) <> WsAccepted ->
  (forall v, v ∈ we_history e -> ef_bitcoin_block_height (wv_expected_fulfillment_info v) = Some h) ->
  ef_bitcoin_block_height (wv_expected_fulfillment_info (vwu_event u)) = None ->
  exists p', withdrawal_decision u true (withdrawal_apply p e) = Ok (Some p').
Proof.
  intros Hok Hd Hacc Hall Hnone. pose proof (withdrawal_decision_package _ _ _ _ Hd) as Hp. unfold withdrawal_package_try_from, withdrawal_latest_event in Hp.
  destruct (Z.eqb_spec (vwu_request_id u) (wk_request_id (we_key e))) as [Hid|]; cbn [negb] in Hp; [|done].
  apply bind_ok_inv in Hp as (v & Hv%ok_or_ok & Hp). apply bind_ok_inv in Hp as (x & _ & [= <-]). cbn.
  assert (Hh : ef_bitcoin_block_height (wv_expected_fulfillment_info v) = Some h) by (apply Hall; apply last_Some in Hv as [k ->]; set_solver).
  set (p := mkWithdrawalUpdatePackage _ _ _). unfold withdrawal_decision.
  assert (withdrawal_is_unnecessary u (withdrawal_apply p e) = false) as ->.
  { unfold withdrawal_is_unnecessary, in_recent_history. apply not_true_is_false. intros (w & Hw & Heq%bool_decide_eq_true)%existsb_exists. subst w.
    assert (vwu_event u ∈ reverse (we_history (withdrawal_apply p e))) as Hin.
    { apply list_elem_of_In in Hw. revert Hw. generalize (reverse (we_history (withdrawal_apply p e))). intros l. induction l as [|y l IH]; cbn; [done|]. case_match; [|by intros ?%elem_of_nil].
      intros [-> |Hin]%elem_of_cons; [left|right; auto]. }
    rewrite elem_of_reverse in Hin. cbn in Hin. apply elem_of_app in Hin as [Hin|Heq%list_elem_of_singleton]; [rewrite (Hall _ Hin) in Hnone; done|].
    rewrite Heq in Hnone. cbn in Hnone. by rewrite Hh in Hnone. }
  rewrite (bool_decide_false (wv_status (vwu_event u) = WithdrawalAccepted)) by (intros Heq; apply Hacc; by rewrite Heq). cbn [andb negb].
  eexists. unfold withdrawal_package_try_from, withdrawal_latest_event. cbn. rewrite Hid, Z.eqb_refl. cbn [negb]. rewrite last_snoc. oreduce.
  assert (ensure_following_event_is_valid (set_expected (mkExpected (ef_bitcoin_block_height (wv_expected_fulfillment_info v))
    (option_or (ef_bitcoin_txid (wv_expected_fulfillment_info (vwu_event u))) (ef_bitcoin_txid (wv_expected_fulfillment_info v)))) (vwu_event u)) (vwu_event u) = Ok tt) as ->.
  { apply ensure_following_iff. right. done. }
  reflexivity.
Qed.


(** ** A small database *)
Definition demo_hash_a : string := "a".
Definition demo_hash_b : string := "b".
Definition demo_tip (hash : string) : ChainstateEntry := mkChainstateEntry (mkChainstateKey hash 10) (Some 100).
Definition demo_deposit_entry : DepositEntry :=
  mkDepositEntry (mkDepositKey "tx" 0) 0 "recipient" 1000 (mkDepositParameters 10 20) DsPending "rs" "ds" 10 demo_hash_a None
    [mkDepositEvent DepositPending "Just received deposit" 10 demo_hash_a] None None.
Definition demo_withdrawal_body (hash : string) : CreateWithdrawalRequestBody := mkCreateWithdrawalBody 1 hash 10 "script" "sender" 500 5 "txid".
Definition demo_withdrawal_entry : WithdrawalEntry := new_withdrawal_entry (demo_withdrawal_body demo_hash_a) (Some 107).
Definition demo_throttle_key : ThrottleKeyEntry := mkThrottleKey (mkThrottleKeyKey "hash" 5) true "operator".
Definition demo_tables : Tables :=
  mkTables {[ de_key demo_deposit_entry := demo_deposit_entry ]} {[ we_key demo_withdrawal_entry := demo_withdrawal_entry ]}
    {[ ce_key (demo_tip demo_hash_a) := demo_tip demo_hash_a ]} (Some (mkApiState 3 (Stable (demo_tip demo_hash_a)))) ∅
    {[ te_key demo_throttle_key := demo_throttle_key ]}.
Definition demo_store : @Store Memory.memory := Memory.mkState demo_tables [].

Lemma demo_deposit_ok : deposit_ok demo_deposit_entry.
Proof. split; [reflexivity|]. repeat constructor. Qed.
Lemma demo_withdrawal_ok : withdrawal_ok demo_withdrawal_entry.
Proof. split; [reflexivity|]. repeat constructor. Qed.
Lemma demo_tables_ok : tables_ok demo_tables.
Proof.
  split; apply map_Forall_singleton; (split; [done|]); [apply demo_deposit_ok|apply demo_withdrawal_ok].
Qed.
Lemma demo_ids_unique : ids_unique demo_tables.
Proof. intros k k' e e'. cbn [demo_tables tb_withdrawals]. by intros [<- _]%lookup_singleton_Some [<- _]%lookup_singleton_Some _. Qed.
Lemma demo_tip_known : tip_known demo_tables.
Proof. eexists. split; [reflexivity|]. intros h [= <-]. lia. Qed.
#[global] Instance eq_fair : FairClients eq.
Proof. by intros t t' ->. Qed.
Lemma demo_sound : sound (H := Memory.memory) demo_store.
Proof. intros u [-> |Hu%elem_of_nil]; [split; [apply demo_tables_ok|done]|done]. Qed.

(** A block at the height of the tip reorganises the API. The table of chain states
    keeps the abandoned block, so when the withdrawal is created again on the new
    chain, the API takes the entry of the abandoned block for the canonical one. *)
Definition demo_reorganized : @Store Memory.memory :=
  (create_withdrawal (demo_withdrawal_body demo_hash_b) (set_chainstate 9 (chainstate_from (demo_tip demo_hash_b)) demo_store).1).1.
Example reorg_leaves_abandoned_block :
  tb_api_state (Memory.current demo_reorganized) = Some (mkApiState 5 (Stable (demo_tip demo_hash_b))) /\
  is_Some (tb_withdrawals (Memory.current demo_reorganized) !! mkWithdrawalKey 1 demo_hash_b) /\
  match (get_withdrawal_entry 1 demo_reorganized).2 with Ok e => wk_stacks_block_hash (we_key e) = demo_hash_a | _ => False end.
Proof. split_and!; vm_compute; try done. by eexists. Qed.

Definition demo_fulfillment : Fulfillment := mkFulfillment "sweep" 0 "stx" "block" 106 3.
Definition demo_confirm : WithdrawalUpdate := mkWithdrawalUpdate 1 WsConfirmed "Included in block a" (Some demo_fulfillment) None.
(** The confirmation of a withdrawal is appended again each time it is delivered. *)
Example repeated_confirmation_appends :
  let s := (update_withdrawals_sidecar [demo_confirm] (update_withdrawals_sidecar [demo_confirm] demo_store).1).1 in
  match tb_withdrawals (Memory.current s) !! we_key demo_withdrawal_entry with
  | Some e => map (fun v => withdrawal_status_from (wv_status v)) (we_history e) = [WsPending; WsConfirmed; WsConfirmed]
  | None => False
  end.
Proof. vm_compute. done. Qed.
(** A confirmed withdrawal that is created again, as when a block is delivered twice, is
    pending again, its history and version lost. *)
Example create_withdrawal_resets :
  let s := (update_withdrawals_sidecar [demo_confirm] demo_store).1 in
  (we_status <$> tb_withdrawals (Memory.current s) !! we_key demo_withdrawal_entry) = Some WsConfirmed /\
  (tb_withdrawals (Memory.current (create_withdrawal (demo_withdrawal_body demo_hash_a) s).1) !! we_key demo_withdrawal_entry) = Some demo_withdrawal_entry.
Proof. split; vm_compute; done. Qed.
(** An account whose only limit is a minimum for deposits counts as one without limits. *)
Example limit_is_empty_ignores_minimum : limit_is_empty (mkAccountLimits None (Some 100) None None None None None) = true.
Proof. reflexivity. Qed.

(** ** Instances of the theorems *)
Definition demo_hash : ThrottleHash :=
  {| Salt := unit; sha256_hex _ := demo_hash_a; salt_from_b64 _ := Some tt; hash_password _ _ := Some (tk_hash (te_key demo_throttle_key)) |}.
Definition demo_limits : AccountLimits := mkAccountLimits None None None (Some 200000000) None None None.
Definition demo_accept : DepositUpdate := mkDepositUpdate "tx" 0 DsAccepted "Accepted" None None.
Definition demo_ops : list operation :=
  [UpdateDepositsOp false [demo_accept]; SetChainstateOp (chainstate_from (demo_tip demo_hash_b)); UpdateWithdrawalsOp true [demo_confirm];
   StartThrottleOp (fun _ => 9) "operator" "secret"].

Definition demo_valid_update : ValidatedDepositUpdate := mkValidatedDepositUpdate (de_key demo_deposit_entry) (mkDepositEvent DepositAccepted "Accepted" 10 demo_hash_a).
Definition demo_package : DepositUpdatePackage := mkDepositUpdatePackage (de_key demo_deposit_entry) 0 (vdu_event demo_valid_update).
Lemma demo_decision : deposit_decision demo_valid_update false demo_deposit_entry = Ok (Some demo_package).
Proof. reflexivity. Qed.
Lemma deposit_update_linearizable_witness : exists t,
  deposit_updated demo_valid_update false t (deposit_apply demo_package demo_deposit_entry)
    (Memory.current (pull_and_update_deposit_with_retry demo_valid_update 15 false demo_store).1).
Proof.
  pose proof (deposit_update_linearizable (others := eq) demo_valid_update 15 false demo_store demo_sound) as Hl.
  assert ((pull_and_update_deposit_with_retry demo_valid_update 15 false demo_store).2 = Ok (deposit_apply demo_package demo_deposit_entry)) as Ho
    by (vm_compute; reflexivity).
  assert ((de_version <$> tb_deposits (Memory.current (pull_and_update_deposit_with_retry demo_valid_update 15 false demo_store).1) !! de_key demo_deposit_entry)
    = Some 1) as Hv by (vm_compute; reflexivity).
  destruct (pull_and_update_deposit_with_retry demo_valid_update 15 false demo_store) as [s' o]. cbn in Ho, Hv. subst o.
  destruct Hl as [(t & _ & Ht)|(Hn & _)]; [by exists t|]. cbn in Hn. rewrite <- Hn in Hv. discriminate Hv.
Defined.
Lemma signer_updates_only_accept_witness :
  rtc (signer_step (others := eq)) demo_tables (Memory.current (update_deposits_signer [demo_accept] demo_store).1).
Proof. apply (signer_updates_only_accept (others := eq) [demo_accept] demo_store demo_sound). Defined.
Lemma update_deposits_reply_witness : exists s' answers,
  update_deposits (mkApiState 3 (Stable (demo_tip demo_hash_a))) [demo_accept; demo_accept] false demo_store = (s', Ok (200, answers)) /\ length answers = 2%nat.
Proof.
  destruct (update_deposits_reply (others := eq) (mkApiState 3 (Stable (demo_tip demo_hash_a))) [demo_accept; demo_accept] false demo_store demo_sound)
    as (s' & answers & Hr & Ha). exists s', answers. split; [done|]. by apply Forall2_length in Ha.
Defined.
Lemma deposit_update_takes_effect_witness :
  does (pull_and_update_deposit_with_retry demo_valid_update 15 false) demo_store (deposit_apply demo_package demo_deposit_entry)
    (put_deposit (deposit_apply demo_package demo_deposit_entry) demo_tables).
Proof.
  apply (deposit_update_takes_effect (H0 := Memory.memory_quiet) demo_valid_update 14 false demo_deposit_entry demo_package demo_store).
  - apply demo_tables_ok.
  - apply lookup_singleton_eq.
  - apply demo_decision.
Defined.
Lemma throttle_takes_effect_witness : exists old new t, does (get_limits 9 demo_limits) demo_store old demo_tables /\
  does (start_throttle (H3 := demo_hash) 9 demo_limits (fun _ => 9) "operator" "secret") demo_store (200, new) t.
Proof.
  destruct (throttle_takes_effect (TH := demo_hash) 9 demo_limits (fun _ => 9) "operator" "secret" tt "hash" demo_throttle_key demo_store)
    as (old & new & t & Hold & Hnew & _); [done|done|reflexivity|done|apply demo_tip_known| |vm_compute; lia|vm_compute; lia|by exists old, new, t].
  split; [lia|]. intros k e Hk. by apply (lookup_empty_Some k e) in Hk.
Defined.
Lemma deposit_update_idempotent_witness :
  deposit_decision demo_valid_update true (deposit_apply demo_package demo_deposit_entry) = Ok None.
Proof. apply (deposit_update_idempotent demo_valid_update false true demo_deposit_entry demo_package demo_deposit_ok demo_decision). Defined.
