(* ===== verification/EmilyNewBlock.v ===== *)
(** The webhook of the Stacks nodes: what a new block does to the Emily API.

    Sources: src/emily/handler/src/api/handlers/new_block.rs, and the payload of
    src/sbtc/src/webhooks.rs. The JSON codec is a parameter; the other crates' text
    forms of hashes, scripts and principals are the class [TextForms].

    Theorems: in a quiet run a block that reports the completion of a deposit moves
    the deposit to Confirmed, with the sweep and the fee of the contract call that the
    signers made; events of other contracts, and events that were rolled back, are
    ignored. What the webhook can change in any run is in [EmilyWebhook]. *)

From stdpp Require Import strings.
From S2P Require Import Prelude Effects Types Consts Bitcoin Requests Validation Deposits Contracts SbtcEvents EmilyEntries EmilyStore EmilyAccessors EmilyHandlers EmilySafety EmilyQuiet.

(** ** The payload *)
Record ContractId := mkContractId { ci_issuer : StacksAddress; ci_name : string }.   (* [QualifiedContractIdentifier] *)
#[global] Instance ContractId_eq_dec : EqDecision ContractId.
Proof. solve_decision. Defined.
Record SmartContractEvent := mkContractEvent { sce_contract_identifier : ContractId; sce_topic : string; sce_raw_value : ClarityValue }.
Record TransactionEvent := mkTransactionEvent { te_txid : Z; te_committed : bool; te_contract_event : option SmartContractEvent }.
(** The fields that the handler reads. *)
Record NewBlockEvent := mkNewBlock {
  nb_block_height : Z;
  nb_burn_block_height : Z;
  nb_index_block_hash : Z;
  nb_events : list TransactionEvent }.

(** [to_string], [to_hex] and [hex::encode] *)
Class TextForms := {
  bitcoin_txid_string : Txid -> string;
  bitcoin_block_string : BlockHash -> string;
  stacks_txid_hex : Z -> string;
  stacks_block_hex : Z -> string;
  script_hex : Script -> string;
  principal_string : Principal -> string }.

(** ** What is stored for an event *)
Section Handlers.
Context `{TextForms}.
Definition deposit_key_of (o : OutPoint) : DepositEntryKey := mkDepositKey (bitcoin_txid_string (op_txid o)) (op_vout o).
Definition included_in (block_id : Z) : string := "Included in block " +:+ stacks_block_hex block_id.
Definition deposit_fulfillment (event : CompletedDepositEvent) (amount : Z) : Fulfillment :=
  mkFulfillment (bitcoin_txid_string (ced_sweep_txid event)) 0 (stacks_txid_hex (ced_txid event)) (bitcoin_block_string (ced_sweep_block_hash event))
    (ced_sweep_block_height event) (Z.max 0 (amount - ced_amount event)).
Definition completed_update (event : CompletedDepositEvent) (amount : Z) : DepositUpdate :=
  mkDepositUpdate (bitcoin_txid_string (op_txid (ced_outpoint event))) (op_vout (ced_outpoint event)) DsConfirmed
    (included_in (ced_block_id event)) (Some (deposit_fulfillment event amount)) None.
Definition handle_withdrawal_accept (event : WithdrawalAcceptEvent) : WithdrawalUpdate :=
  mkWithdrawalUpdate (wae_request_id event) WsConfirmed (included_in (wae_block_id event))
    (Some (mkFulfillment (bitcoin_txid_string (op_txid (wae_outpoint event))) (op_vout (wae_outpoint event)) (stacks_txid_hex (wae_txid event))
       (bitcoin_block_string (wae_sweep_block_hash event)) (wae_sweep_block_height event) (wae_fee event))) None.
Definition handle_withdrawal_create (event : WithdrawalCreateEvent) (stacks_block_height : Z) : CreateWithdrawalRequestBody :=
  mkCreateWithdrawalBody (wce_request_id event) (stacks_block_hex (wce_block_id event)) stacks_block_height (script_hex (wce_recipient event))
    (principal_string (wce_sender event)) (wce_amount event) (wce_max_fee event) (stacks_txid_hex (wce_txid event)).
Definition handle_withdrawal_reject (event : WithdrawalRejectEvent) : WithdrawalUpdate :=
  mkWithdrawalUpdate (wre_request_id event) WsFailed "Rejected" None None.
End Handlers.

Section NewBlock.
Context `{TextForms} `{EventLib} {D : Dynamo}.
Abbreviation db := (st Store EmilyError).

Definition handle_completed_deposit (event : CompletedDepositEvent) : db DepositUpdate :=
  deposit <- get_deposit_entry (deposit_key_of (ced_outpoint event));;
  st_ret (completed_update event (de_amount deposit)).

(** Only a 2xx reply of the internal call is a success. *)
Definition handle_internal_call {A} (api_call : db (Z * A)) : db unit :=
  response <- st_result api_call;;
  match response with
  | inl (status, _) => if (200 <=? status) && (status <? 300) then st_ret tt else st_throw EeInternalServer
  | inr _ => st_throw EeInternalServer
  end.

Definition SBTC_REGISTRY_CONTRACT_NAME : string := "sbtc-registry".
Definition registry_events (deployer : StacksAddress) (event : NewBlockEvent) : list (SmartContractEvent * Z) :=
  List.filter (fun x => bool_decide (sce_contract_identifier x.1 = mkContractId deployer SBTC_REGISTRY_CONTRACT_NAME) && bool_decide (sce_topic x.1 = "print"%string))
    (omap (fun x => (fun ev => (ev, te_txid x)) <$> te_contract_event x) (List.filter te_committed (nb_events event))).

(** The three vectors that the loop fills. *)
Record Processed := mkProcessed {
  pr_completed_deposits : list DepositUpdate;
  pr_updated_withdrawals : list WithdrawalUpdate;
  pr_created_withdrawals : list CreateWithdrawalRequestBody }.
Definition process_event (event : NewBlockEvent) (p : Processed) (x : SmartContractEvent * Z) : db Processed :=
  match try_new (mkTxInfo x.2 (nb_index_block_hash event)) (sce_raw_value x.1) with
  | Ok (EvCompletedDeposit e) =>
      deposit_maybe <- st_result (handle_completed_deposit e);;
      match deposit_maybe with
      | inl deposit => st_ret (mkProcessed (pr_completed_deposits p ++ [deposit]) (pr_updated_withdrawals p) (pr_created_withdrawals p))
      | inr _ => st_ret p
      end
  | Ok (EvWithdrawalAccept e) =>
      st_ret (mkProcessed (pr_completed_deposits p) (pr_updated_withdrawals p ++ [handle_withdrawal_accept e]) (pr_created_withdrawals p))
  | Ok (EvWithdrawalReject e) =>
      st_ret (mkProcessed (pr_completed_deposits p) (pr_updated_withdrawals p ++ [handle_withdrawal_reject e]) (pr_created_withdrawals p))
  | Ok (EvWithdrawalCreate e) =>
      st_ret (mkProcessed (pr_completed_deposits p) (pr_updated_withdrawals p)
        (pr_created_withdrawals p ++ [handle_withdrawal_create e (nb_block_height event)]))
  | Ok (EvKeyRotation _) | Err _ => st_ret p
  | Panic => st_lift Panic
  | Diverge => st_lift Diverge
  end.
Fixpoint process_events (event : NewBlockEvent) (p : Processed) (events : list (SmartContractEvent * Z)) : db Processed :=
  match events with
  | [] => st_ret p
  | x :: events => p <- process_event event p x;; process_events event p events
  end.

Definition block_chainstate (event : NewBlockEvent) : Chainstate :=
  mkChainstate (stacks_block_hex (nb_index_block_hash event)) (nb_block_height event) (Some (nb_burn_block_height event)).
(** The calls for what was collected: deposits, then new withdrawals, then updates of
    withdrawals. *)
Definition store_processed (p : Processed) : db unit :=
  (match pr_completed_deposits p with [] => st_ret tt | deposits => handle_internal_call (update_deposits_sidecar deposits) end);;;
  st_map (fun w => handle_internal_call (create_withdrawal w)) (pr_created_withdrawals p);;;
  match pr_updated_withdrawals p with [] => st_ret tt | withdrawals => handle_internal_call (update_withdrawals_sidecar withdrawals) end.
(** [new_block]; the body is [None] when it cannot be read. A block of which nothing is
    to be stored ends early, as does one without events. *)
Definition new_block (pages : nat) (deployer : StacksAddress) (body : option NewBlockEvent) : db Z :=
  event <- st_ok_or body (EeDeserialization "new block event");;
  let events := registry_events deployer event in
  handle_internal_call (set_chainstate pages (block_chainstate event));;;
  match events with
  | [] => st_ret 200
  | _ => p <- process_events event (mkProcessed [] [] []) events;; store_processed p;;; st_ret 200
  end.
End NewBlock.

(** ** A block that extends the chain *)
Section Quiet.
Context {D : Dynamo} {QL : QuietLaws}.

Lemma does_internal_call {A} (m : st Store EmilyError (Z * A)) s status a t :
  does m s (status, a) t -> 200 <= status < 300 -> does (handle_internal_call m) s tt t.
Proof.
  intros Hm [Hlo Hhi]. eapply does_bind; [by apply does_result|]. intros s' <-. apply Z.leb_le in Hlo. apply Z.ltb_lt in Hhi.
  rewrite Hlo, Hhi. apply does_ret.
Qed.

(** The block is new: one above the known blocks, and not in a bitcoin block far below
    the tip's. *)
Record extends (t : Tables) (a : ApiStateEntry) (c : Chainstate) : Prop := {
  ext_state : tb_api_state t = Some a;
  ext_stable : exists tip, as_api_status a = Stable tip;
  ext_height : ck_height (ce_key (chaintip a)) < ch_stacks_block_height c;
  ext_new : matches (QChainstates (ch_stacks_block_height c)) t = [];
  ext_bitcoin : forall h h', ce_bitcoin_height (chaintip a) = Some h -> ch_bitcoin_block_height c = Some h' -> 0 <= h <= h' }.
(** The tables after the block was recorded. *)
Definition with_block (a : ApiStateEntry) (c : Chainstate) (t : Tables) : Tables :=
  set_api (mkApiState (as_version a + 1) (Stable (chainstate_entry_from c))) (on_chainstates <[ce_key (chainstate_entry_from c) := chainstate_entry_from c]> t).

Lemma does_no_chainstate h s : matches (QChainstates h) (contents s) = [] -> fails (get_chainstate_entry_at_height h) s EeNotFound (contents s).
Proof.
  intros Hm. unfold get_chainstate_entry_at_height. destruct (quiet_query (QChainstates h) None None s) as (page & next & Ho & Ht & Hc & _ & _); [done|].
  eapply does_fails; [by split|]. intros s' Hs'. cbn [fst]. pose proof (cursor_matches (contents s) (QChainstates h)) as Hp.
  rewrite Hm in Hp. symmetry in Hp. apply Permutation_nil in Hp. rewrite Hp in Hc. symmetry in Hc. apply app_eq_nil in Hc as [-> _]. by split.
Qed.
Lemma does_add_chainstate a c s : extends (contents s) a c -> does (add_chainstate_entry (chainstate_entry_from c)) s tt (with_block a c (contents s)).
Proof.
  intros [Ha [tip Hst] Hh Hn _]. unfold add_chainstate_entry. eapply does_bind; [by apply does_get_api_state|]. intros s1 H1.
  cbv zeta. rewrite Hst. cbn iota. cbn [chainstate_entry_from ce_key ck_height]. eapply does_bind.
  { apply fails_result, does_no_chainstate. by rewrite H1. }
  intros s2 H2. cbn iota. rewrite H1 in H2.
  assert (does (st_bind (send (PutChainstate (chainstate_entry_from c))) (fun _ => set_api_state (with_status (Stable (chainstate_entry_from c)) a))) s2 tt (with_block a c (contents s))) as Hput.
  { eapply does_bind; [eapply does_write; reflexivity|]. intros s3 H3. rewrite H2 in H3. unfold with_block. rewrite <- H3.
    apply (does_set_api_state s3 (with_status (Stable (chainstate_entry_from c)) a) a); [|done]. by rewrite H3. }
  case_match; [exact Hput|]. assert ((1 <? ch_stacks_block_height c - ck_height (ce_key (chaintip a))) = true) as ->; [|exact Hput].
  apply orb_false_iff in H as [Hne _]. apply Z.eqb_neq in Hne. apply Z.ltb_lt. lia.
Qed.
Lemma does_add_retry n a c s : extends (contents s) a c ->
  does (add_chainstate_entry_with_retry (chainstate_entry_from c) (S n)) s tt (with_block a c (contents s)).
Proof. intros He. apply does_on_conflict. by apply does_add_chainstate. Qed.
Lemma does_set_chainstate pages a c s : extends (contents s) a c -> does (set_chainstate pages c) s (201, c) (with_block a c (contents s)).
Proof.
  intros He. pose proof He as [Ha _ _ _ Hb]. unfold set_chainstate, add_chainstate_entry_or_reorg. eapply does_bind; [|intros s' <-; apply does_ret].
  eapply does_bind; [by apply does_get_api_state|]. intros s1 H1. case_match eqn:Hc.
  { exfalso. destruct (ce_bitcoin_height (chaintip a)) as [h|]; [|done]. destruct (ch_bitcoin_block_height c) as [h'|]; [|done].
    specialize (Hb h h' eq_refl eq_refl). apply Z.ltb_lt in Hc. unfold NO_REORG_DEPTH, saturating_sub in Hc. lia. }
  eapply does_bind; [apply does_result, (does_add_retry 14 a c s1); by rewrite H1|]. intros s2 H2. rewrite <- H1, <- H2. apply does_ret.
Qed.

Lemma does_record_block pages a c t s : extends t a c -> contents s = t -> does (handle_internal_call (set_chainstate pages c)) s tt (with_block a c t).
Proof. intros He <-. eapply does_internal_call; [by apply does_set_chainstate|lia]. Qed.

(** *** A deposit is confirmed *)
Definition confirmation (c : Chainstate) (u : DepositUpdate) (f : Fulfillment) : DepositEvent :=
  mkDepositEvent (DepositConfirmed f) (du_status_message u) (ch_stacks_block_height c) (ch_stacks_block_hash c).
Lemma in_recent_later {E} `{BlockEvent E} (l : list E) v w : chronological l -> last l = Some w -> ev_height w < ev_height v -> in_recent_history l v = false.
Proof.
  intros _ Hl Hh. apply last_Some in Hl as [k ->]. unfold in_recent_history. rewrite reverse_snoc. cbn [take_while].
  destruct (Z.leb_spec (ev_height v) (ev_height w)); [lia|done].
Qed.
Lemma confirm_decision e key v : deposit_ok e -> de_key e = key -> de_last_update_height e < dv_stacks_block_height v -> dv_status v <> DepositAccepted ->
  deposit_decision (mkValidatedDepositUpdate key v) true e = Ok (Some (mkDepositUpdatePackage (de_key e) (de_version e) v)).
Proof.
  intros [(w & Hw & _ & Hh & _)%deposit_validate_iff Hc] <- Hlt Hv. unfold deposit_decision, deposit_is_unnecessary. cbn [vdu_event vdu_key].
  rewrite (in_recent_later _ v w); [|done|done|cbn; lia]. rewrite bool_decide_false by done. cbn [andb negb].
  unfold deposit_package_try_from, deposit_latest_event. cbn [vdu_key vdu_event]. rewrite bool_decide_true by done. cbn [negb]. rewrite Hw. oreduce.
  assert (ensure_following_event_is_valid w v = Ok tt) as ->; [|done]. apply ensure_following_iff. left. cbn. lia.
Qed.
Lemma does_update_item i u e p s : tables_ok (contents s) -> tb_deposits (contents s) !! vdu_key u = Some e -> deposit_decision u true e = Ok (Some p) ->
  exists d, does (update_deposit_item true (i, Ok u)) s (i, mkDepositWithStatus (Some d) None 200) (put_deposit (deposit_apply p e) (contents s)).
Proof.
  intros Hok He Hd. destruct (deposit_update_takes_effect u 14 true e p s Hok He Hd) as (Hup & Hw & Hval & _).
  assert (exists d, deposit_try_from (deposit_apply p e) = Ok d) as [d Htf].
  { unfold deposit_try_from, deposit_latest_event. rewrite Hval, Hw. oreduce. by eexists. }
  exists d. unfold update_deposit_item. cbn [fst snd]. eapply does_bind; [apply does_result, Hup|]. intros s' <-. cbn iota.
  eapply does_bind; [by apply does_lift|]. intros s'' <-. apply does_ret.
Qed.
Lemma does_confirm a c u f s e : tb_api_state (contents s) = Some a -> as_api_status a = Stable (chainstate_entry_from c) -> tables_ok (contents s) ->
  tb_deposits (contents s) !! mkDepositKey (du_bitcoin_txid u) (du_bitcoin_tx_output_index u) = Some e ->
  du_status u = DsConfirmed -> du_fulfillment u = Some f -> du_replaced_by_tx u = None -> de_last_update_height e < ch_stacks_block_height c ->
  exists r, does (update_deposits_sidecar [u]) s (200, r)
    (put_deposit (deposit_apply (mkDepositUpdatePackage (de_key e) (de_version e) (confirmation c u f)) e) (contents s)).
Proof.
  intros Ha Hst Hok He Hs Hf Hr Hh. set (key := mkDepositKey _ _) in *. set (p := mkDepositUpdatePackage _ _ _). destruct (proj1 Hok _ _ He) as [Hk Hoke].
  set (v := mkValidatedDepositUpdate key (confirmation c u f)).
  assert (deposit_decision v true e = Ok (Some p)) as Hd by (by apply confirm_decision).
  assert (try_into_validated_deposit_update u (chainstate_from (chainstate_entry_from c)) = Ok v) as Hv.
  { apply deposit_update_valid_iff. cbn. by rewrite Hs, Hf, Hr. }
  unfold update_deposits_sidecar. pose proof (does_get_api_state s a Ha) as Hget. set (s1 := (get_api_state s).1).
  assert (contents s1 = contents s) as H1 by apply Hget. destruct (does_update_item 0 v e p s1) as [d Hitem]; [by rewrite H1..|done|].
  exists [mkDepositWithStatus (Some d) None 200]. eapply does_bind_at; [exact Hget|]. fold s1.
  unfold error_if_reorganizing. rewrite Hst. eapply does_bind_at; [by apply does_lift|]. cbn [st_lift fst].
  unfold update_deposits, deposits_into_validated, chaintip. rewrite Hst. cbn [enumerate enumerate_from map fst snd].
  rewrite Hv. unfold sort_by_key. cbn [foldr insert_by st_map]. rewrite <- H1.
  eapply (does_bind _ _ _ [(0, mkDepositWithStatus (Some d) None 200)] (put_deposit (deposit_apply p e) (contents s1))).
  - eapply does_bind; [exact Hitem|]. intros s2 <-. eapply does_bind; [apply does_ret|]. intros s3 <-. apply does_ret.
  - intros s2 <-. apply does_ret.
Qed.
End Quiet.

Lemma parse_one_registry_event deployer event raw txid other other' :
  nb_events event = other ++ [mkTransactionEvent txid true (Some (mkContractEvent (mkContractId deployer SBTC_REGISTRY_CONTRACT_NAME) "print" raw))] ++ other' ->
  Forall (fun x => te_committed x = false \/ forall ev, te_contract_event x = Some ev -> sce_contract_identifier ev <> mkContractId deployer SBTC_REGISTRY_CONTRACT_NAME)
    (other ++ other') ->
  registry_events deployer event = [(mkContractEvent (mkContractId deployer SBTC_REGISTRY_CONTRACT_NAME) "print" raw, txid)].
Proof.
  intros He Ho. apply Forall_app in Ho as [Ho Ho'].
  assert (forall l, Forall (fun x => te_committed x = false \/ forall ev, te_contract_event x = Some ev -> sce_contract_identifier ev <> mkContractId deployer SBTC_REGISTRY_CONTRACT_NAME) l ->
    registry_events deployer (mkNewBlock 0 0 0 l) = []) as Hnil.
  { unfold registry_events. cbn [nb_events]. induction 1 as [|[t co ev] l Hx _ IH]; [done|]. cbn [List.filter te_committed]. destruct co; [|done].
    destruct Hx as [Hx|Hx]; [done|]. destruct ev as [ev|]; [|done]. cbn [te_contract_event] in Hx. specialize (Hx ev eq_refl). cbn.
    rewrite bool_decide_false by done. done. }
  apply Hnil in Ho, Ho'. unfold registry_events in *. rewrite He. cbn [nb_events] in *. rewrite !List.filter_app, !omap_app, !List.filter_app, Ho.
  cbn [List.filter te_committed app]. rewrite ?app_nil_r. cbn. rewrite !bool_decide_true by done. cbn. by f_equal.
Qed.

Lemma does_process_completed `{TextForms} `{EventLib} {D : Dynamo} {QL : QuietLaws} event p ce x e s :
  try_new (mkTxInfo x.2 (nb_index_block_hash event)) (sce_raw_value x.1) = Ok (EvCompletedDeposit ce) ->
  tb_deposits (contents s) !! deposit_key_of (ced_outpoint ce) = Some e ->
  does (process_event event p x) s
    (mkProcessed (pr_completed_deposits p ++ [completed_update ce (de_amount e)]) (pr_updated_withdrawals p) (pr_created_withdrawals p)) (contents s).
Proof.
  intros Hread He. unfold process_event. rewrite Hread.
  assert (does (handle_completed_deposit ce) s (completed_update ce (de_amount e)) (contents s)) as Hc.
  { eapply does_bind; [by apply does_get_deposit|]. intros s' <-. apply does_ret. }
  eapply does_bind; [apply does_result, Hc|]. intros s' <-. apply does_ret.
Qed.


(** ** A witness *)
Definition demo_forms : TextForms := {|
  bitcoin_txid_string _ := "tx";
  bitcoin_block_string _ := "block";
  stacks_txid_hex _ := "stx";
  stacks_block_hex _ := "c";
  script_hex _ := "script";
  principal_string _ := "sender" |}.
Definition demo_call : CompleteDepositV1 := mkCompleteDeposit (mkOutPoint 3 0) 900 [] 4 5 6 100.
Definition demo_raw : ClarityValue :=
  match registry_print [] (CallCompleteDeposit demo_call) with Some v => v | None => CvUInt 0 end.
(** A block with the completion between an event that was rolled back and one of
    another contract. *)
Definition demo_print (name : string) : SmartContractEvent := mkContractEvent (mkContractId 9 name) "print" demo_raw.
Definition demo_block : NewBlockEvent := mkNewBlock 11 101 72
  [mkTransactionEvent 70 false (Some (demo_print "sbtc-registry")); mkTransactionEvent 71 true (Some (demo_print "sbtc-registry"));
   mkTransactionEvent 73 true (Some (demo_print "other"))].
