(* ===== verification/EmilyWebhook.v ===== *)
(** What the webhook of the Stacks nodes changes, among other clients.

    Source: src/emily/handler/src/api/handlers/new_block.rs, whose definitions are in
    [EmilyNewBlock]. Reads may be stale, other instances run beside the handler and any
    request may fail ([DynamoLaws]).

    Theorem: a deposit is confirmed only for a completion that the registry printed in
    the block, with the sweep that was printed; apart from that the handler only
    reorganises deposits around the block. *)

From stdpp Require Import strings.
From S2P Require Import Prelude Effects Types Consts Bitcoin Requests Validation Deposits Contracts SbtcEvents EmilyEntries EmilyStore EmilyAccessors EmilyHandlers EmilySafety EmilyQuiet EmilyNewBlock.

(** ** Operations that leave the deposits alone *)
Section Free.
Context `{L : DynamoLaws others}.

Definition untouched (t t' : Tables) : Prop := tb_deposits t' = tb_deposits t.
Definition free_step (t t' : Tables) : Prop := others t t' \/ untouched t t'.
(** Whatever the store holds, sound or not. *)
Definition free {A} (m : st Store EmilyError A) : Prop := forall s, later s (m s).1 /\ rtc free_step (now s) (now (m s).1).

Lemma free_pure {A} (m : st Store EmilyError A) : (forall s, (m s).1 = s) -> free m.
Proof. intros Hm s. by rewrite Hm. Qed.
Lemma free_ret {A} (a : A) : free (st_ret a).
Proof. by apply free_pure. Qed.
Lemma free_throw {A} e : free (st_throw (A := A) e).
Proof. by apply free_pure. Qed.
Lemma free_lift {A} (o : outcome EmilyError A) : free (st_lift o).
Proof. by apply free_pure. Qed.
Lemma free_ok_or {A} (o : option A) e : free (st_ok_or o e).
Proof. by apply free_pure. Qed.
Lemma free_bind {A B} (m : st Store EmilyError A) (k : A -> st Store EmilyError B) : free m -> (forall a, free (k a)) -> free (st_bind m k).
Proof.
  intros Hm Hk s. destruct (Hm s) as [Hl Hr]. unfold st_bind. destruct (m s) as [s' [a| | |]]; cbn in *; try done.
  destruct (Hk a s') as [Hl' Hr']. by split; etrans.
Qed.
Lemma free_result {A} (m : st Store EmilyError A) : free m -> free (st_result m).
Proof. intros Hm s. specialize (Hm s). unfold st_result. by destruct (m s) as [s' []]. Qed.
Lemma free_map_err {A} f (m : st Store EmilyError A) : free m -> free (st_map_err f m).
Proof. intros Hm s. specialize (Hm s). unfold st_map_err. by destruct (m s) as [s' []]. Qed.
Lemma free_on_conflict {A} (m retry : st Store EmilyError A) : free m -> free retry -> free (on_conflict m retry).
Proof. intros Hm Hr. apply free_bind; [by apply free_result|]. intros [a|[]]; try exact Hr; by apply free_pure. Qed.
Lemma free_map {A B} (f : A -> st Store EmilyError B) l : (forall a, free (f a)) -> free (st_map f l).
Proof.
  intros Hf. induction l as [|a l IH]; cbn; [apply free_ret|]. apply free_bind; [done|]. intros b. apply free_bind; [done|]. intros bs. apply free_ret.
Qed.
Lemma free_read {A} (r : request Token A) : write r = None -> free (send r).
Proof.
  intros Hr s. split; [intros u; apply seen_mono|]. destruct (send_law r s) as (t & Ht & _ & Hlaw). rewrite Hr in Hlaw. destruct Hlaw as [-> _].
  apply rtc_once. by left.
Qed.
Lemma free_write {A} (r : request Token A) w : write r = Some w -> (forall t, untouched t (w t).2) -> free (send r).
Proof.
  intros Hr Hw s. split; [intros u; apply seen_mono|]. destruct (send_law r s) as (t & Ht & _ & Hlaw). rewrite Hr in Hlaw.
  eapply rtc_l; [by left|]. destruct Hlaw as [Hlaw|[_ [-> | ->]]]; [|done|apply rtc_once; by right].
  apply (f_equal snd) in Hlaw. cbn in Hlaw. rewrite <- Hlaw. apply rtc_once. by right.
Qed.
End Free.

Create HintDb free.
#[global] Hint Resolve free_ret free_throw free_lift free_ok_or : free.
Ltac free_step :=
  match goal with
  | |- forall _, _ => intro
  | |- free (st_bind _ _) => apply free_bind
  | |- free (st_result _) => apply free_result
  | |- free (st_map_err _ _) => apply free_map_err
  | |- free (on_conflict _ _) => apply free_on_conflict
  | |- free (st_map _ _) => apply free_map
  | |- free (send _) => apply free_read; reflexivity
  | |- free (send _) => eapply free_write; [reflexivity|intros t; cbn; unfold conditional, untouched; by repeat case_match]
  | |- free (if _ then _ else _) => case_match
  | |- free (let '(_, _) := ?x in _) => destruct x
  | |- free (match ?x with _ => _ end) => destruct x
  | |- _ => solve [eauto with free]
  end.
Ltac freely := repeat free_step.

Section FreeOperations.
Context `{L : DynamoLaws others}.

Lemma free_get_chainstate h : free (get_chainstate_entry_at_height h).
Proof. unfold get_chainstate_entry_at_height. freely. Qed.
Lemma free_get_api_state : free get_api_state.
Proof. unfold get_api_state. freely. Qed.
Lemma free_set_api_state a : free (set_api_state a).
Proof. unfold set_api_state. freely. Qed.
#[local] Hint Resolve free_get_chainstate free_get_api_state free_set_api_state : free.
Lemma free_get_withdrawal i : free (get_withdrawal_entry i).
Proof. unfold get_withdrawal_entry, is_in_canonical_chain. freely. Qed.
Lemma free_set_api_state_attempts n new : free (set_api_state_attempts n new).
Proof. induction n as [|n IH]; cbn; freely. Qed.
Lemma free_query_all {E} n (q : query E) start : free (query_all n q start).
Proof. revert start. induction n as [|n IH]; intros start; cbn; freely. Qed.
Lemma free_add_chainstate e : free (add_chainstate_entry e).
Proof. unfold add_chainstate_entry. freely. Qed.
#[local] Hint Resolve free_get_withdrawal free_set_api_state_attempts free_query_all free_add_chainstate : free.
Lemma free_add_chainstate_retry e n : free (add_chainstate_entry_with_retry e n).
Proof. induction n as [|n IH]; cbn; freely. Qed.
Lemma free_pull_withdrawal u trusted n : free (pull_and_update_withdrawal_with_retry u n trusted).
Proof. induction n as [|n IH]; cbn; unfold update_withdrawal; freely. Qed.
Lemma free_reorganize_withdrawal n c k : free (reorganize_withdrawal n c k).
Proof. induction n as [|n IH]; cbn; unfold set_withdrawal_entry; freely. Qed.
#[local] Hint Resolve free_add_chainstate_retry free_pull_withdrawal free_reorganize_withdrawal : free.
Lemma free_update_withdrawals body : free (update_withdrawals_sidecar body).
Proof. unfold update_withdrawals_sidecar, update_withdrawals, update_withdrawal_item. freely. Qed.
Lemma free_create_withdrawal b : free (create_withdrawal b).
Proof. unfold create_withdrawal, add_withdrawal_entry. freely. Qed.
End FreeOperations.
#[global] Hint Resolve free_get_chainstate free_get_api_state free_set_api_state free_get_withdrawal free_set_api_state_attempts free_query_all
  free_add_chainstate_retry free_reorganize_withdrawal free_update_withdrawals free_create_withdrawal : free.

(** ** The webhook *)
Section Webhook.
Context `{TextForms} `{EventLib} `{L : DynamoLaws others} `{!FairClients others}.
Variables (deployer : StacksAddress) (event : NewBlockEvent).

(** A completion of a deposit that the registry printed in the block. *)
Definition reported (ce : CompletedDepositEvent) : Prop := exists te ev, te ∈ nb_events event /\ te_committed te = true /\
  te_contract_event te = Some ev /\ sce_contract_identifier ev = mkContractId deployer SBTC_REGISTRY_CONTRACT_NAME /\ sce_topic ev = "print"%string /\
  try_new (mkTxInfo (te_txid te) (nb_index_block_hash event)) (sce_raw_value ev) = Ok (EvCompletedDeposit ce).

(** One deposit becomes confirmed, with the sweep of such a completion. Its fee is
    what was minted less than the amount of an entry that the store [held] for the
    deposit. *)
Definition confirms (held : Tables -> Prop) (t t' : Tables) : Prop := exists ce u e0 e e' v,
  let k := deposit_key_of (ced_outpoint ce) in
  reported ce /\ held u /\ tb_deposits u !! k = Some e0 /\ tb_deposits t !! k = Some e /\
  dv_status v = DepositConfirmed (deposit_fulfillment ce (de_amount e0)) /\
  de_history e' = de_history e ++ [v] /\ de_status e' = DsConfirmed /\ de_amount e' = de_amount e /\ de_recipient e' = de_recipient e /\
  t' = on_deposits <[k := e']> t.
(** One deposit is reorganised around the block: it keeps the events of its history
    that belong to blocks below the block or to the block itself, or is pending. *)
Definition reorganizes (t t' : Tables) : Prop := exists k e e',
  tb_deposits t !! k = Some e /\ deposit_ok e' /\ de_history e' = reorg_deposit_history (block_chainstate event) e /\
  de_amount e' = de_amount e /\ de_recipient e' = de_recipient e /\ t' = on_deposits <[k := e']> t.
Definition webhook_step (held : Tables -> Prop) (t t' : Tables) : Prop :=
  others t t' \/ untouched t t' \/ reorganizes t t' \/ confirms held t t'.

Section Steps.
Variable held : Tables -> Prop.
Abbreviation step := (webhook_step held).
Lemma others_webhook t t' : others t t' -> step t t'.
Proof. by left. Qed.
Lemma free_rtc t t' : rtc (free_step (others := others)) t t' -> rtc step t t'.
Proof. induction 1 as [|t1 t2 t3 [Hs|Hs] _ IH]; [done| |]; (eapply rtc_l; [|exact IH]); [by left|right; by left]. Qed.
Lemma via_free {A} (m : st Store EmilyError A) : free m -> via step m.
Proof. intros Hm s _. apply free_rtc. by destruct (Hm s). Qed.

(** *** Reorganisations *)
Lemma reorganize_keeps c e e' : deposit_reorganize_around c e = Ok e' -> de_amount e' = de_amount e /\ de_recipient e' = de_recipient e.
Proof.
  unfold deposit_reorganize_around, deposit_synchronize_with_history. cbv zeta. intros (v & _ & [= <-])%bind_ok_inv. done.
Qed.
Lemma via_set_reorganized e e' s : sound s -> known_deposit e s -> deposit_reorganize_around (block_chainstate event) e = Ok e' ->
  rtc step (now s) (now (set_deposit_entry e' s).1).
Proof.
  intros Hs Hk He'. destruct (known_deposit_ok _ _ Hs Hk) as [_ Hc]. destruct (deposit_reorganize_spec (block_chainstate event) e Hc) as (x & Hx & Hok & Hkey & Hv & Hh).
  rewrite He' in Hx. injection Hx as <-. destruct (reorganize_keeps _ _ _ He') as [Ha Hr].
  unfold set_deposit_entry. destruct (send_law (PutDepositIf (de_set_version (de_version e' + 1) e') (de_version e')) s) as (t & Ht & _ & Hlaw).
  cbn [write] in Hlaw. eapply rtc_l; [by left|].
  assert (forall u, seen s u -> grows u t) as Hg by (intros u Hu; etrans; [by apply Hs|by apply others_fair]).
  unfold conditional, version_is in Hlaw. change (de_key (de_set_version (de_version e' + 1) e')) with (de_key e') in Hlaw. rewrite Hkey, Hv in Hlaw. rewrite Hv.
  destruct (tb_deposits t !! de_key e) as [x|] eqn:Hx; [|destruct Hlaw as [[= _ <-]|[_ [-> | ->]]]; done].
  destruct (Z.eqb_spec (de_version x) (de_version e)) as [Hve|]; [|destruct Hlaw as [[= _ <-]|[_ [-> | ->]]]; done].
  assert (x = e) as -> by exact (deposit_version_identifies e x s t Hk Hg Hx Hve).
  assert (step t (put_deposit (de_set_version (de_version e + 1) e') t)) as Hstep.
  { right; right; left. exists (de_key e), e, (de_set_version (de_version e + 1) e'). split_and!; try done. unfold put_deposit. cbn. by rewrite Hkey. }
  destruct Hlaw as [[= _ <-]|[_ [-> | ->]]]; [by apply rtc_once|done|by apply rtc_once].
Qed.
Lemma via_reorganize_deposit n k : via step (reorganize_deposit n (block_chainstate event) k).
Proof.
  induction n as [|n IH]; cbn; [by apply via_pure|]. intros s Hs. destruct (runs_get_deposit k s Hs) as (_ & Hs1 & Hk).
  destruct (get_deposit_others k s) as [Ho _]. unfold st_bind at 1. destruct (get_deposit_entry k s) as [s1 [e| | |]]; cbn [fst snd] in *;
    try by apply rtc_once; left. destruct Hk as [Hk _].
  eapply rtc_l; [by left|]. destruct (known_deposit_ok _ _ Hs1 Hk) as [_ Hc].
  destruct (deposit_reorganize_spec (block_chainstate event) e Hc) as (e' & He' & Hok & _). unfold st_bind, st_lift. rewrite He'.
  pose proof (via_set_reorganized e e' s1 Hs1 Hk He') as Hv. destruct (runs_set_deposit e' s1 Hok Hs1) as (_ & Hs2 & _).
  unfold on_conflict, st_bind, st_result. destruct (set_deposit_entry e' s1) as [s2 [u|err| |]]; cbn [fst snd] in *; try done.
  destruct err; cbn; try done. etrans; [exact Hv|]. by apply IH.
Qed.
Lemma via_execute_reorg pages : via step (execute_reorg_handler pages (block_chainstate event)).
Proof.
  unfold execute_reorg_handler, set_api_state_status.
  apply via_bind; [apply safe_set_api_state_attempts|apply via_free, free_set_api_state_attempts|]. intros [a|]; [|by apply via_pure].
  unfold get_all_deposit_entries_modified_from_height, get_all_deposit_entries_modified_from_height_with_status.
  apply via_bind; [apply safe_bind; [apply safe_map; intros; apply safe_query_all|intros; apply safe_ret]| |].
  { apply via_free. freely. }
  intros ds. apply via_bind; [apply safe_map; intros; apply safe_reorganize_deposit| |].
  { apply via_map; [intros; apply safe_reorganize_deposit|intros d _; apply via_reorganize_deposit]. }
  intros _. apply via_free. unfold get_all_withdrawal_entries_modified_from_height, get_all_withdrawal_entries_modified_from_height_with_status.
  freely.
Qed.
Lemma safe_internal_call {A} (m : st Store EmilyError (Z * A)) : safe m -> safe (handle_internal_call m).
Proof. intros Hm. apply safe_bind; [by apply safe_result|]. intros [[status a]|e]; [|apply safe_throw]. case_match; [apply safe_ret|apply safe_throw]. Qed.
Lemma via_internal_call {A} (m : st Store EmilyError (Z * A)) : safe m -> via step m -> via step (handle_internal_call m).
Proof.
  intros Hs Hm. apply via_bind; [by apply safe_result|by apply via_result|]. intros [[status a]|e]; [|by apply via_pure]. case_match; by apply via_pure.
Qed.
Lemma safe_set_chainstate pages c : safe (set_chainstate pages c).
Proof.
  pose proof safe_get_api_state. pose proof safe_add_chainstate_retry. pose proof safe_execute_reorg. unfold set_chainstate, add_chainstate_entry_or_reorg. safely.
Qed.
Lemma via_set_chainstate pages : via step (set_chainstate pages (block_chainstate event)).
Proof.
  pose proof safe_get_api_state. pose proof safe_add_chainstate_retry. pose proof safe_execute_reorg.
  apply via_bind; [unfold add_chainstate_entry_or_reorg; safely| |intros; by apply via_pure].
  apply via_bind; [apply safe_get_api_state|apply via_free, free_get_api_state|]. intros a. match goal with |- via _ (if ?b then _ else _) => destruct b end; [by apply via_pure|].
  apply via_bind; [apply safe_result, safe_add_chainstate_retry|apply via_free; freely|]. intros [u|e]; [by apply via_pure|].
  destruct e; try by apply via_pure. apply via_execute_reorg.
Qed.

(** *** Confirmations *)
Definition reported_update (u : DepositUpdate) : Prop := exists ce t e, reported ce /\ held t /\
  tb_deposits t !! deposit_key_of (ced_outpoint ce) = Some e /\ u = completed_update ce (de_amount e).
Lemma reported_confirms u tip v t e t' : reported_update u -> try_into_validated_deposit_update u tip = Ok v -> tables_ok t ->
  deposit_updated v true t e t' -> confirms held t t'.
Proof.
  intros (ce & w & e1 & Hr & Hheld & He1 & ->) Hv [Hok _] (e0 & p & He0 & Hd & -> & ->). cbn in Hv. injection Hv as <-. cbn in He0.
  destruct (Hok _ _ He0) as [Hk Hok0]. destruct (deposit_apply_ok e0 _ p Hok0 (deposit_decision_package _ _ _ _ Hd)) as (_ & Hev & _). cbn in Hev.
  exists ce, w, e1, e0, (deposit_apply p e0), (dup_event p). cbv zeta.
  split_and!; try done; [by rewrite Hev|cbn; by rewrite Hev|]. unfold put_deposit. cbn. by rewrite Hk.
Qed.
Lemma via_pull_reported u tip v n : reported_update u -> try_into_validated_deposit_update u tip = Ok v ->
  via step (pull_and_update_deposit_with_retry v n true).
Proof.
  intros Hr Hv s Hs. pose proof (pull_deposit_outcome v true n s Hs) as Ho. unfold update_outcome in Ho.
  assert (forall t e, others (now s) t -> deposit_updated v true t e (now (pull_and_update_deposit_with_retry v n true s).1) ->
    rtc step (now s) (now (pull_and_update_deposit_with_retry v n true s).1)) as Hdone.
  { intros t e Ht Hu. eapply rtc_l; [by left|]. apply rtc_once. right; right; right. eapply reported_confirms; [done..| |exact Hu].
    apply others_fair in Ht. apply Ht, Hs, seen_now. }
  destruct ((pull_and_update_deposit_with_retry v n true s).2) as [e|e| |]; try done.
  - destruct Ho as [(t & Ht & Hu)|[Ht _]]; [by eapply Hdone|by apply rtc_once; left].
  - destruct Ho as [Ht|(_ & t & e' & Ht & Hu)]; [by apply rtc_once; left|by eapply Hdone].
Qed.
Lemma via_update_reported body : Forall reported_update body -> via step (update_deposits_sidecar body).
Proof.
  intros Hb. apply via_bind; [apply safe_get_api_state|apply via_free, free_get_api_state|]. intros a.
  apply via_bind; [apply safe_lift|by apply via_pure|]. intros _. apply via_bind; [apply safe_map, safe_update_deposit_item| |intros; by apply via_pure].
  apply via_map; [apply safe_update_deposit_item|]. intros [i o] Hx. unfold deposits_into_validated in Hx. rewrite sort_by_key_perm in Hx.
  apply list_elem_of_fmap in Hx as ([j u] & [= -> ->] & Hin%enumerate_value).
  rewrite Forall_forall in Hb. specialize (Hb u Hin). unfold update_deposit_item. cbn [fst snd].
  destruct (try_into_validated_deposit_update u _) as [v|e| |] eqn:Hv; try by apply via_pure.
  apply via_bind; [apply safe_result, safe_pull_deposit|eapply via_result, via_pull_reported; done|].
  intros [e|err]; [|destruct err; by apply via_pure]. apply via_bind; [apply safe_lift|by apply via_pure|]. intros d. by apply via_pure.
Qed.
End Steps.

(** *** The loop over the events *)
Lemma registry_events_elem x : x ∈ registry_events deployer event -> exists te, te ∈ nb_events event /\ te_committed te = true /\
  te_contract_event te = Some x.1 /\ te_txid te = x.2 /\ sce_contract_identifier x.1 = mkContractId deployer SBTC_REGISTRY_CONTRACT_NAME /\
  sce_topic x.1 = "print"%string.
Proof.
  intros [Hx [Hi%bool_decide_eq_true Ht%bool_decide_eq_true]%andb_prop]%filter_elem. apply list_elem_of_omap in Hx as (te & [Hte Hc]%filter_elem & Hev).
  apply fmap_Some in Hev as (ev & Hev & ->). by exists te.
Qed.
Lemma reported_update_mono (P Q : Tables -> Prop) u : (forall t, P t -> Q t) -> reported_update P u -> reported_update Q u.
Proof. intros HPQ (ce & t & e & ? & ? & ? & ?). exists ce, t, e. auto. Qed.
Definition collected (p : Processed) (s : Store) : Prop := Forall (reported_update (seen s)) (pr_completed_deposits p).
Lemma collected_later p s s' : later s s' -> collected p s -> collected p s'.
Proof. intros Hl Hp. eapply Forall_impl; [exact Hp|]. intros u. apply reported_update_mono. exact Hl. Qed.
Lemma runs_process_event p x s : x ∈ registry_events deployer event -> collected p s -> runs (process_event event p x) s collected.
Proof.
  intros Hx Hp. unfold process_event. destruct (try_new _ _) as [[]|e| |] eqn:Hr; try by apply runs_ret. 2-3: intros Hs; by split_and!.
  eapply (runs_bind _ _ _ (fun r s' => match r with inl u => reported_update (seen s') u | inr _ => True end)).
  - apply runs_result. eapply runs_bind; [apply runs_get_deposit|]. intros d s' _ [(t & Ht & Hd) Hk]. apply runs_ret. intros _.
    destruct (registry_events_elem x Hx) as (te & ? & ? & ? & Htx & ? & ?). exists e, t, d. rewrite <- Hk. split_and!; try done.
    exists te, x.1. rewrite Htx. by split_and!.
  - intros [u|err] s' Hl Hu; apply runs_ret; intros _; [|by eapply collected_later]. apply Forall_app. split; [by eapply collected_later|]. by apply Forall_singleton.
Qed.
Lemma runs_process_events events : forall p s, events ⊆ registry_events deployer event -> collected p s -> runs (process_events event p events) s collected.
Proof.
  induction events as [|x events IH]; intros p s Hsub Hp; [by apply runs_ret|]. cbn [process_events].
  eapply runs_bind; [apply runs_process_event; [apply Hsub; left|done]|]. intros p' s' Hl Hp'. apply IH; [set_solver|done].
Qed.
Lemma free_process_events events : forall p, free (process_events event p events).
Proof.
  induction events as [|x events IH]; intros p; cbn [process_events]; [apply free_ret|]. apply free_bind; [|done].
  unfold process_event, handle_completed_deposit, get_deposit_entry. freely.
Qed.
Lemma free_store_rest p : free (st_map (fun w => handle_internal_call (create_withdrawal w)) (pr_created_withdrawals p);;;
  match pr_updated_withdrawals p with [] => st_ret tt | withdrawals => handle_internal_call (update_withdrawals_sidecar withdrawals) end).
Proof. unfold handle_internal_call. freely. Qed.

(** A safe operation, then free ones. *)
Lemma then_free {A B} (P : Tables -> Prop) (m : st Store EmilyError A) (k : A -> st Store EmilyError B) s :
  sound s -> safe m -> via (webhook_step P) m -> (forall a, free (k a)) ->
  later s (st_bind m k s).1 /\ rtc (webhook_step P) (now s) (now (st_bind m k s).1).
Proof.
  intros Hs Hm Hv Hk. destruct (Hm s Hs) as (Hl & _ & _). specialize (Hv s Hs). unfold st_bind. destruct (m s) as [s' [a| | |]]; cbn in *; try done.
  destruct (Hk a s') as [Hl' Hr']. split; [by etrans|]. etrans; [exact Hv|]. by apply free_rtc.
Qed.
Lemma store_processed_via (P : Tables -> Prop) p s : sound s -> (forall t, seen s t -> P t) -> collected p s ->
  later s (store_processed p s).1 /\ rtc (webhook_step P) (now s) (now (store_processed p s).1).
Proof.
  intros Hs HP Hp. assert (Forall (reported_update P) (pr_completed_deposits p)) as Hp'.
  { eapply Forall_impl; [exact Hp|]. intros u. by apply reported_update_mono. }
  pose proof safe_get_api_state. pose proof safe_update_deposit_item.
  assert (safe (update_deposits_sidecar (pr_completed_deposits p))) as Hsafe by (unfold update_deposits_sidecar, update_deposits; safely).
  apply then_free; [done| | |intros _; apply free_store_rest].
  - destruct (pr_completed_deposits p); [apply safe_ret|by apply safe_internal_call].
  - destruct (pr_completed_deposits p); [by apply via_pure|]. apply via_internal_call; [done|]. by apply via_update_reported.
Qed.
Lemma events_via events s : sound s -> events ⊆ registry_events deployer event ->
  let s' := ((p <- process_events event (mkProcessed [] [] []) events;; store_processed p;;; st_ret 200) s).1 in
  rtc (webhook_step (seen s')) (now s) (now s').
Proof.
  intros Hs Hsub. cbv zeta. destruct (runs_process_events events (mkProcessed [] [] []) s) as (_ & Hs2 & Hp); [done|constructor|done|].
  destruct (free_process_events events (mkProcessed [] [] []) s) as [_ Hf2]. unfold st_bind.
  destruct (process_events event (mkProcessed [] [] []) events s) as [s2 [p| | |]]; cbn [fst snd] in *; try by apply free_rtc.
  destruct (store_processed_via (fun _ => True) p s2 Hs2) as [Hl3 _]; [done..|].
  destruct (store_processed_via (seen (store_processed p s2).1) p s2 Hs2 Hl3 Hp) as [_ Hv3].
  destruct (store_processed p s2) as [s3 [[]| | |]]; cbn [fst snd st_ret] in *; (etrans; [apply free_rtc, Hf2|exact Hv3]).
Qed.
Lemma new_block_eq pages s : (new_block pages deployer (Some event) s).1 =
  match handle_internal_call (set_chainstate pages (block_chainstate event)) s with
  | (s1, Ok _) =>
      match registry_events deployer event with
      | [] => s1
      | events => ((p <- process_events event (mkProcessed [] [] []) events;; store_processed p;;; st_ret 200) s1).1
      end
  | (s1, _) => s1
  end.
Proof.
  unfold new_block. change (st_ok_or (Some event) (EeDeserialization "new block event")) with (st_ret (S := Store) (E := EmilyError) event).
  unfold st_bind at 1, st_ret at 1. cbv zeta. unfold st_bind at 1. destruct (handle_internal_call _ s) as [s1 [u| | |]]; try done.
  by destruct (registry_events deployer event).
Qed.
End Webhook.

(** C26: the webhook confirms only what the registry reported. Among other fair
    clients, on stale reads and failing requests, each change that the handling of a
    block makes to the deposits is one of two. One deposit becomes confirmed for a
    completion of that very deposit which the registry, not another contract, printed
    in a transaction of the block that was not rolled back; the new event of its
    history carries the sweep transaction, bitcoin block and height that were printed,
    and as its fee what was minted less than the amount of the deposit, as read from a
    version of its entry; its amount and recipient stay. Or one deposit is reorganised
    around the block. Every other write leaves the deposits as they are. *)
Theorem new_block_confirms_reported `{TextForms} `{EventLib} `{L : DynamoLaws others} `{!FairClients others} pages deployer event s : sound s ->
  let s' := (new_block pages deployer (Some event) s).1 in
  rtc (webhook_step (others := others) deployer event (seen s')) (now s) (now s').
Proof.
  intros Hs s'. pose proof (safe_set_chainstate pages (block_chainstate event)) as Hsc.
  destruct (safe_internal_call _ Hsc s Hs) as (_ & Hs1 & _).
  pose proof (via_internal_call deployer event (seen s') _ Hsc (via_set_chainstate deployer event (seen s') pages) s Hs) as Hv1.
  subst s'. rewrite new_block_eq in *. destruct (handle_internal_call _ s) as [s1 [u| | |]]; cbn [fst] in *; try done.
  pose proof (events_via deployer event (registry_events deployer event) s1 Hs1 ltac:(done)) as Hev. cbv zeta in Hev.
  destruct (registry_events deployer event) as [|x xs]; [done|]. etrans; [exact Hv1|exact Hev].
Qed.

(** The block of [EmilyNewBlock]: the deposit becomes confirmed. *)
Section Witness.
#[local] Existing Instance demo_forms.
#[local] Existing Instance SbtcEvents.demo_lib.
#[local] Existing Instance Memory.memory.
Definition handled : Memory.state := (new_block 1 9 (Some demo_block) demo_store).1.
Lemma new_block_confirms_reported_witness :
  (de_status <$> tb_deposits (Memory.current handled) !! de_key demo_deposit_entry) = Some DsConfirmed /\
  rtc (webhook_step (others := eq) 9 demo_block (seen handled)) demo_tables (Memory.current handled).
Proof.
  split; [vm_compute; reflexivity|]. apply (new_block_confirms_reported (others := eq) 1 9 demo_block demo_store demo_sound).
Defined.
End Witness.
