(* ===== verification/Wsts.v ===== *)
(** Weighted threshold Schnorr signatures: the [wsts] crate's scalars and
    points, polynomial commitments, key generation, signing and aggregation.

    Source: src/wsts/src/{v2,compute,common,schnorr,taproot,vss,util,errors,traits}.rs.

    The curve, its field and the hash function are third-party crates
    ([p256k1], [polynomial], [sha2]) and so are section variables: scalars are any field
    [F], points any module [V] over it with a generator [G]; [multimult],
    [x], [has_even_y], [lift_x] and the [polynomial] crate's polynomials are
    functions with the laws [CurveLaws] states.  A [HashMap] is the list of its entries in
    iteration order.  Key identifiers and counts are [u32]s of the source and
    naturals here; the two places where [u32] arithmetic can leave its range,
    [threshold - 1] on zero and the fuel of a loop, are explicit. *)
From HB Require Import structures.
From mathcomp Require Import boot ssralg poly zmodp.
From Stdlib Require Import Strings.Byte Strings.String.

Set Implicit Arguments.
Unset Strict Implicit.
Unset Printing Implicit Defensive.
Set Bullet Behavior "Strict Subproofs".

Import GRing.Theory.
Local Open Scope ring_scope.

(** ** Results *)

(** A Rust [Result] of a computation that may also panic. *)
Inductive res (E A : Type) : Type :=
| Done (a : A)
| Fails (e : E)
| Panics.
Arguments Done {E A} a.
Arguments Fails {E A} e.
Arguments Panics {E A}.

Definition res_bind (E A B : Type) (m : res E A) (f : A -> res E B) : res E B :=
  match m with
  | Done a => f a
  | Fails e => Fails e
  | Panics => Panics
  end.

Notation "x <-! m ; k" := (res_bind m (fun x => k))
  (at level 100, m at next level, right associativity).

Definition is_done (E A : Type) (m : res E A) : bool :=
  if m is Done _ then true else false.

(** ** Hash maps as lists of entries *)
Section HashMap.
Context {A : Type}.
Implicit Type m : seq (nat * A).

Fixpoint hget (m : seq (nat * A)) (k : nat) : option A :=
  if m is (k', a) :: m' then if k' == k then Some a else hget m' k else None.

(** [HashMap::insert]: the entry of a present key is overwritten in place. *)
Fixpoint hset (m : seq (nat * A)) (k : nat) (a : A) : seq (nat * A) :=
  if m is (k', a') :: m' then
    if k' == k then (k, a) :: m' else (k', a') :: hset m' k a
  else [:: (k, a)].

Definition keys m : seq nat := [seq e.1 | e <- m].

End HashMap.

(** ** Errors (errors.rs) *)
Inductive CommonError : Type := InvalidPolynomial.

Inductive DkgError (PointError : Type) : Type :=
| MissingPublicShares (ids : seq nat)
| MissingPrivateShares (ids : seq (nat * nat))
| BadPublicShares (ids : seq nat)
| BadPrivateShares (ids : seq nat)
| PointErr (e : PointError)
| DkgTryFromInt.
Arguments MissingPublicShares {PointError} ids.
Arguments MissingPrivateShares {PointError} ids.
Arguments BadPublicShares {PointError} ids.
Arguments BadPrivateShares {PointError} ids.
Arguments DkgTryFromInt {PointError}.

Inductive AggregatorError (F : Type) : Type :=
| NotInitialized
| AggInvalidPolynomial (e : CommonError)
| BadPolyCommitments (ids : seq F)
| BadPolynomialDegree (expected received : nat)
| BadNonceLen (expected got : nat)
| BadPartyKeys (ids : seq nat)
| BadPartySigs (ids : seq nat)
| BadGroupSig
| AggTryFromInt
| MissingNonce.
Arguments NotInitialized {F}.
Arguments AggInvalidPolynomial {F} e.
Arguments BadPolynomialDegree {F} expected received.
Arguments BadNonceLen {F} expected got.
Arguments BadPartyKeys {F} ids.
Arguments BadPartySigs {F} ids.
Arguments BadGroupSig {F}.
Arguments AggTryFromInt {F}.
Arguments MissingNonce {F}.

(** ** The third-party operations *)

(** What the code calls of [p256k1], [sha2] and the random number
    generator. *)
Record Curve (F : fieldType) (V : lmodType F) : Type := mkCurve {
  G : V;
  FE : eqType;                                    (* field::Element *)
  PointError : Type;
  point_x : V -> FE;
  has_even_y : V -> bool;
  lift_x : FE -> option V;
  multimult : seq F -> seq V -> res PointError V;
  sha256 : seq byte -> seq byte;
  scalar_from_bytes : seq byte -> F;
  scalar_to_bytes : F -> seq byte;
  fe_to_bytes : FE -> seq byte;
  compress : V -> seq byte;
  Polynomial : Type;                              (* polynomial::Polynomial<Scalar> *)
  poly_new : seq F -> Polynomial;
  poly_data : Polynomial -> seq F;
  poly_eval : Polynomial -> F -> F;
  rng : Type;
  scalar_random : rng -> F * rng;
  fill_bytes : nat -> rng -> seq byte * rng
}.

Arguments lift_x {F V c} _.
Arguments fe_to_bytes {F V c} _.
Arguments poly_data {F V c} _.
Arguments poly_eval {F V c} _ _.
Arguments scalar_random {F V c} _.
Arguments fill_bytes {F V c} _ _.

(** ** Data *)
Section Data.
Context {F : fieldType} {V : lmodType F} {C : Curve V}.

(** schnorr.rs: a party's identifier with its proof of knowledge. *)
Record ID : Type := mkID { id_id : F; kG : V; kca : F }.

(** common.rs: the coefficients of a public polynomial. *)
Record PublicPolynomial : Type := mkPublicPolynomial { coefficients : seq V }.

Record PolyCommitment : Type := mkPolyCommitment {
  pc_id : ID;
  pc_poly : PublicPolynomial
}.

Record Nonce : Type := mkNonce { nonce_d : F; nonce_e : F }.

Record PublicNonce : Type := mkPublicNonce { nonce_D : V; nonce_E : V }.

Record SignatureShare : Type := mkSignatureShare {
  ss_id : nat;
  z_i : F;
  ss_key_ids : seq nat
}.

Record Signature : Type := mkSignature { sig_R : V; sig_z : F }.

Record TupleProof : Type := mkTupleProof { tp_R : V; tp_rB : V; tp_z : F }.

(** v2.rs: a party of the signing set. *)
Record Party : Type := mkParty {
  party_id : nat;
  key_ids : seq nat;
  num_keys : nat;
  num_parties : nat;
  threshold : nat;
  p_f : option (Polynomial C);
  private_keys : seq (nat * F);
  group_key : V;
  p_nonce : option Nonce
}.

Record Aggregator : Type := mkAggregator {
  agg_num_keys : nat;
  agg_threshold : nat;
  agg_poly : option PublicPolynomial
}.

(** traits.rs: the state a party is saved as. *)
Record PartyState : Type := mkPartyState {
  polynomial : option (Polynomial C);
  ps_private_keys : seq (nat * F)
}.

Record SignerState : Type := mkSignerState {
  st_id : nat;
  st_key_ids : seq nat;
  st_num_keys : nat;
  st_num_parties : nat;
  st_threshold : nat;
  st_group_key : V;
  st_party_state : PartyState
}.

Definition with_nonce (p : Party) (n : option Nonce) : Party :=
  mkParty (party_id p) (key_ids p) (num_keys p) (num_parties p) (threshold p)
          (p_f p) (private_keys p) (group_key p) n.

Definition with_f (p : Party) (q : option (Polynomial C)) : Party :=
  mkParty (party_id p) (key_ids p) (num_keys p) (num_parties p) (threshold p)
          q (private_keys p) (group_key p) (p_nonce p).

Definition with_secrets (p : Party) (ks : seq (nat * F)) (gk : V) : Party :=
  mkParty (party_id p) (key_ids p) (num_keys p) (num_parties p) (threshold p)
          (p_f p) ks gk (p_nonce p).

End Data.
Arguments ID {F} V.
Arguments PublicPolynomial {F} V.
Arguments PolyCommitment {F} V.
Arguments Nonce F : clear implicits.
Arguments PublicNonce {F} V.
Arguments SignatureShare F : clear implicits.
Arguments Signature {F} V.
Arguments TupleProof {F} V.
Arguments Party {F V} C.
Arguments Aggregator {F} V.
Arguments PartyState {F V} C.
Arguments SignerState {F V} C.

(** taproot.rs: a BIP-340 proof holds the x coordinate of the commitment. *)
Record SchnorrProof (F FE : Type) : Type := mkSchnorrProof { proof_r : FE; proof_s : F }.

(** The sum [s_0 P_0 + s_1 P_1 + ...]. *)
Fixpoint lincomb (F : fieldType) (V : lmodType F) (s : seq F) (ps : seq V) : V :=
  match s, ps with
  | a :: s', p :: ps' => a *: p + lincomb s' ps'
  | _, _ => 0
  end.

(** The value at [y] of the polynomial with the coefficients [cs], lowest first. *)
Fixpoint heval (F : fieldType) (cs : seq F) (y : F) : F :=
  if cs is c :: cs' then c + y * heval cs' y else 0.

(** The documented behaviour of the curve: multi-exponentiation of vectors of
    the same length succeeds with their linear combination; a point and its
    opposite have the same x coordinate, exactly one of the two has an even y
    coordinate, and lifting an x coordinate gives that one.  The point at
    infinity has no affine coordinates, so the laws leave it out.  Evaluating a
    polynomial is evaluating its coefficients. *)
Class CurveLaws (F : fieldType) (V : lmodType F) (C : Curve V) : Prop := {
  multimultE : forall s ps, size s = size ps -> multimult C s ps = Done (lincomb s ps);
  x_opp : forall P : V, point_x C (- P) = point_x C P;
  has_even_y_opp : forall P : V, P != 0 -> has_even_y C (- P) = ~~ has_even_y C P;
  lift_x_x : forall P : V, P != 0 ->
    lift_x (point_x C P) = Some (if has_even_y C P then P else - P);
  poly_evalE : forall (q : Polynomial C) y, poly_eval q y = heval (poly_data q) y
}.

Section Ops.
Context {F : fieldType} {V : lmodType F} (C : Curve V).
Abbreviation gen := (G C).

(** ** Hashing and computations (util.rs, compute.rs) *)

(** A hasher is the list of bytes fed to it so far. *)
Definition bytes_of (s : string) : seq byte := list_byte_of_string s.

Definition hash_to_scalar (hasher : seq byte) : F := scalar_from_bytes C (sha256 C hasher).

Definition compute_id (i : nat) : F := i%:R.

Definition binding (id : F) (B : seq (PublicNonce V)) (msg : seq byte) : F :=
  let hasher := bytes_of "WSTS/binding" ++ scalar_to_bytes C id in
  let hasher := foldl (fun h b => h ++ compress C (nonce_D b) ++ compress C (nonce_E b)) hasher B in
  hash_to_scalar (hasher ++ msg).

Definition binding_compressed (id : F) (B : seq (seq byte * seq byte)) (msg : seq byte) : F :=
  let hasher := bytes_of "WSTS/binding" ++ scalar_to_bytes C id in
  let hasher := foldl (fun h b => h ++ b.1 ++ b.2) hasher B in
  hash_to_scalar (hasher ++ msg).

Definition tagged_hash (tag : string) : seq byte :=
  let tag_hash := sha256 C (bytes_of tag) in tag_hash ++ tag_hash.

Definition challenge (publicKey R : V) (msg : seq byte) : F :=
  hash_to_scalar (tagged_hash "BIP0340/challenge"
    ++ fe_to_bytes (point_x C R) ++ fe_to_bytes (point_x C publicKey) ++ msg).

Definition lambda (i : nat) (key_ids : seq nat) : F :=
  let i_scalar := compute_id i in
  foldl (fun l j => if i != j
                    then let j_scalar := compute_id j in l * (j_scalar / (j_scalar - i_scalar))
                    else l) 1 key_ids.

Definition intermediate (msg : seq byte) (party_ids : seq nat) (nonces : seq (PublicNonce V)) :
    seq V * V :=
  let rhos := [seq binding (compute_id i) nonces msg | i <- party_ids] in
  let R_vec := [seq nonce_D nr.1 + nr.2 *: nonce_E nr.1 | nr <- zip nonces rhos] in
  (R_vec, foldl +%R 0 R_vec).

Definition aggregate_nonce (msg : seq byte) (party_ids : seq nat) (nonces : seq (PublicNonce V)) :
    res (PointError C) V :=
  let compressed := [seq (compress C (nonce_D n), compress C (nonce_E n)) | n <- nonces] in
  let scalars := flatten
    [seq [:: 1; binding_compressed (compute_id i) compressed msg] | i <- party_ids] in
  let points := flatten [seq [:: nonce_D n; nonce_E n] | n <- nonces] in
  multimult C scalars points.

(** The loop of [compute::poly]: [n] successive powers of [x], from [pow]. *)
Fixpoint powers (n : nat) (x pow : F) : seq F :=
  if n is n'.+1 then pow :: powers n' x (pow * x) else [::].

Definition compute_poly (x : F) (f : seq V) : res (PointError C) V :=
  multimult C (powers (size f) x 1) f.

Definition compute_tweak (public_key : V) (merkle_root : option (seq byte)) : F :=
  hash_to_scalar (tagged_hash "TapTweak" ++ fe_to_bytes (point_x C public_key)
                  ++ (if merkle_root is Some root then root else [::])).

(** [Point::lift_x(..).unwrap()] panics when the x coordinate is not on the curve. *)
Definition tweaked_public_key_from_tweak (E : Type) (public_key : V) (tweak : F) : res E V :=
  if lift_x (point_x C public_key) is Some P then Done (P + tweak *: gen) else Panics.

Definition tweaked_public_key (E : Type) (public_key : V) (merkle_root : option (seq byte)) : res E V :=
  tweaked_public_key_from_tweak E public_key (compute_tweak public_key merkle_root).

Definition merkle_root (data : seq byte) : seq byte := sha256 C (tagged_hash "TapLeaf" ++ data).

(** ** Schnorr identifiers (schnorr.rs) *)

Definition id_challenge (id : F) (K A : V) : F :=
  hash_to_scalar (bytes_of "WSTS/polynomial-constant" ++ scalar_to_bytes C id
                  ++ compress C K ++ compress C A).

Definition id_new (id a : F) (r : rng C) : ID V * rng C :=
  let (k, r') := scalar_random r in
  let c := id_challenge id (k *: gen) (a *: gen) in
  (mkID id (k *: gen) (k + c * a), r').

Definition id_verify (i : ID V) (A : V) : bool :=
  let c := id_challenge (id_id i) (kG i) A in
  kca i *: gen == kG i + c *: A.

(** ** Polynomials, nonces, signatures and proofs (common.rs, vss.rs, taproot.rs) *)

Definition public_polynomial_new (cs : seq V) : res CommonError (PublicPolynomial V) :=
  if nilp cs then Fails InvalidPolynomial else Done (mkPublicPolynomial cs).

(** [first().expect(..)]: the fields are private and [new] refuses an empty
    vector, so the constant term of an empty polynomial is not reached. *)
Definition constant_term (q : PublicPolynomial V) : V := head 0 (coefficients q).

Definition poly_commitment_new (id : ID V) (q : seq V) : res CommonError (PolyCommitment V) :=
  q' <-! public_polynomial_new q ; Done (mkPolyCommitment id q').

Definition pc_coefficients (c : PolyCommitment V) : seq V := coefficients (pc_poly c).

Definition num_coefficients (c : PolyCommitment V) : nat := size (pc_coefficients c).

Definition pc_constant_term (c : PolyCommitment V) : V := constant_term (pc_poly c).

Definition poly_commitment_verify (c : PolyCommitment V) : bool :=
  id_verify (pc_id c) (pc_constant_term c).

Definition check_public_shares (c : PolyCommitment V) (threshold : nat) : bool :=
  (size (pc_coefficients c) == threshold) && poly_commitment_verify c.

Definition nonce_is_valid (n : Nonce F) : bool :=
  ~~ ((nonce_d n == 0) && (nonce_e n == 0) || (nonce_d n == 1) && (nonce_e n == 1)).

Definition nonce_gen (r : rng C) : F * rng C :=
  let (bytes, r) := fill_bytes 32 r in
  let (s, r) := scalar_random r in
  (hash_to_scalar (bytes ++ scalar_to_bytes C s), r).

Definition nonce_random (r : rng C) : Nonce F * rng C :=
  let (d, r) := nonce_gen r in
  let (e, r) := nonce_gen r in
  (mkNonce d e, r).

(** The loop of [Nonce::new], at most [fuel] draws. *)
Fixpoint nonce_new (fuel : nat) (r : rng C) : option (Nonce F * rng C) :=
  if fuel is fuel'.+1 then
    let (n, r') := nonce_random r in
    if nonce_is_valid n then Some (n, r') else nonce_new fuel' r'
  else None.

Definition public_nonce (n : Nonce F) : PublicNonce V :=
  mkPublicNonce (nonce_d n *: gen) (nonce_e n *: gen).

Definition public_nonce_is_valid (n : PublicNonce V) : bool :=
  [&& nonce_D n != 0, nonce_E n != 0, nonce_D n != gen & nonce_E n != gen].

Definition signature_verify (s : Signature V) (public_key : V) (msg : seq byte) : bool :=
  let c := challenge public_key (sig_R s) msg in
  sig_z s *: gen + (- c) *: public_key == sig_R s.

Definition tuple_challenge (A B K R : V) : F :=
  hash_to_scalar (bytes_of "TUPLE_PROOF/" ++ compress C A ++ compress C B
                  ++ compress C K ++ compress C R).

Definition tuple_proof_new (a : F) (A B K : V) (r : rng C) : TupleProof V * rng C :=
  let (k, r') := scalar_random r in
  let R := k *: gen in
  let s := tuple_challenge A B K R in
  (mkTupleProof R (k *: B) (k + a * s), r').

Definition tuple_proof_verify (p : TupleProof V) (A B K : V) : bool :=
  let s := tuple_challenge A B K (tp_R p) in
  (tp_z p *: gen == tp_R p + s *: A) && (tp_z p *: B == tp_rB p + s *: K).

Definition validate_signer_id (signer_id num_signers : nat) : bool := (signer_id < num_signers)%N.

Definition validate_key_id (key_id num_keys : nat) : bool := ((0 < key_id) && (key_id <= num_keys))%N.

Fixpoint random_scalars (n : nat) (r : rng C) : seq F * rng C :=
  if n is n'.+1 then
    let (a, r') := scalar_random r in
    let (s, r'') := random_scalars n' r' in (a :: s, r'')
  else ([::], r).

(** [VSS::random_poly n]: [n + 1] random coefficients. *)
Definition random_poly (n : nat) (r : rng C) : Polynomial C * rng C :=
  let (params, r') := random_scalars n.+1 r in (poly_new C params, r').

Definition schnorr_proof_new (s : Signature V) : SchnorrProof F (FE C) :=
  mkSchnorrProof (point_x C (sig_R s)) (sig_z s).

Definition schnorr_proof_verify (p : SchnorrProof F (FE C)) (public_key : FE C) (msg : seq byte) : bool :=
  if lift_x public_key is Some Y then
    if lift_x (proof_r p) is Some R then
      let c := challenge Y R msg in
      let Rp := proof_s p *: gen - c *: Y in
      has_even_y C Rp && (point_x C Rp == proof_r p)
    else false
  else false.

Definition schnorr_proof_to_bytes (p : SchnorrProof F (FE C)) : seq byte :=
  fe_to_bytes (proof_r p) ++ scalar_to_bytes C (proof_s p).

(** ** Parties (v2.rs) *)

(** [threshold - 1] underflows on zero. *)
Definition party_new (pid : nat) (kids : seq nat) (np nk t : nat) (r : rng C) :
    res unit (Party C * rng C) :=
  if t is t'.+1 then
    let (q, r') := random_poly t' r in
    Done (mkParty pid kids nk np t (Some q) [::] 0 None, r')
  else Panics.

Definition reset_polys (p : Party C) (r : rng C) : res unit (Party C * rng C) :=
  if threshold p is t'.+1 then
    let (q, r') := random_poly t' r in Done (with_f p (Some q), r')
  else Panics.

Definition clear_polys (p : Party C) : Party C := with_f p None.

Definition gen_nonce (fuel : nat) (p : Party C) (r : rng C) :
    option (PublicNonce V * Party C * rng C) :=
  if nonce_new fuel r is Some (n, r') then Some (public_nonce n, with_nonce p (Some n), r')
  else None.

Definition party_scalar_id (p : Party C) : F := compute_id (party_id p).

Definition get_poly_commitment (p : Party C) (r : rng C) : option (PolyCommitment V) * rng C :=
  if p_f p is Some q then
    let points := [seq c *: gen | c <- poly_data q] in
    if poly_data q is c0 :: _ then
      let (id, r') := id_new (party_scalar_id p) c0 r in
      (if poly_commitment_new id points is Done c then Some c else None, r')
    else (None, r)
  else (None, r).

Definition get_shares (p : Party C) : seq (nat * F) :=
  if p_f p is Some q then
    foldl (fun m i => hset m i (poly_eval q (compute_id i))) [::] (iota 1 (num_keys p))
  else [::].

(** The first loop of [compute_secret]: the rejected commitments, and the
    group key summed over the others. *)
Definition check_commitments (t : nat) (public_shares : seq (nat * PolyCommitment V)) : seq nat * V :=
  foldl (fun acc ic =>
           if ~~ check_public_shares ic.2 t then (rcons acc.1 ic.1, acc.2)
           else (acc.1, acc.2 + pc_constant_term ic.2))
        ([::], 0) public_shares.

(** The second loop: the (receiver, sender) pairs without a share. *)
Definition find_missing (kids : seq nat) (private_shares : seq (nat * seq (nat * F)))
    (public_shares : seq (nat * PolyCommitment V)) : seq (nat * nat) :=
  foldl (fun acc dst =>
           foldl (fun acc src =>
                    match hget private_shares dst with
                    | Some shares => if hget shares src is None then rcons acc (dst, src) else acc
                    | None => rcons acc (dst, src)
                    end) acc (keys public_shares))
        [::] kids.

(** The third loop: the senders of shares that do not match their commitment. *)
Fixpoint check_key_shares (kid : nat) (public_shares : seq (nat * PolyCommitment V))
    (shares : seq (nat * F)) (acc : seq nat) : res (DkgError (PointError C)) (seq nat) :=
  if shares is (sender, s) :: shares' then
    if hget public_shares sender is Some comm then
      match compute_poly (compute_id kid) (pc_coefficients comm) with
      | Done q => check_key_shares kid public_shares shares'
                    (if s *: gen != q then rcons acc sender else acc)
      | Fails e => Fails (PointErr e)
      | Panics => Panics
      end
    else check_key_shares kid public_shares shares' acc
  else Done acc.

Fixpoint find_bad_shares (kids : seq nat) (private_shares : seq (nat * seq (nat * F)))
    (public_shares : seq (nat * PolyCommitment V)) (acc : seq nat) :
    res (DkgError (PointError C)) (seq nat) :=
  if kids is kid :: kids' then
    if hget private_shares kid is Some shares then
      acc' <-! check_key_shares kid public_shares shares acc ;
      find_bad_shares kids' private_shares public_shares acc'
    else find_bad_shares kids' private_shares public_shares acc
  else Done acc.

(** The last loop: the private key of each key identifier is the sum of the
    shares received for it. *)
Definition sum_shares (kids : seq nat) (private_shares : seq (nat * seq (nat * F))) : seq (nat * F) :=
  foldl (fun pk kid =>
           let pk := hset pk kid 0 in
           if hget private_shares kid is Some shares
           then hset pk kid (foldl +%R 0 [seq e.2 | e <- shares]) else pk)
        [::] kids.

(** Each exit leaves the keys as the code has them at that point: the private
    keys are cleared first, the group key holds the sum of the accepted
    commitments. *)
Definition compute_secret (p : Party C) (private_shares : seq (nat * seq (nat * F)))
    (public_shares : seq (nat * PolyCommitment V)) :
    Party C * res (DkgError (PointError C)) unit :=
  let (bad_ids, gk) := check_commitments (threshold p) public_shares in
  let p' := with_secrets p [::] gk in
  if ~~ nilp bad_ids then (p', Fails (BadPublicShares bad_ids)) else
  let missing := find_missing (key_ids p) private_shares public_shares in
  if ~~ nilp missing then (p', Fails (MissingPrivateShares missing)) else
  match find_bad_shares (key_ids p) private_shares public_shares [::] with
  | Done bad => if ~~ nilp bad then (p', Fails (BadPrivateShares bad))
                else (with_secrets p (sum_shares (key_ids p) private_shares) gk, Done tt)
  | Fails e => (p', Fails e)
  | Panics => (p', Panics)
  end.

(** The shares sent to the keys of this party, by key and then by sender. *)
Definition collect_shares (kids : seq nat) (private_shares : seq (nat * seq (nat * F))) :
    seq (nat * seq (nat * F)) :=
  foldl (fun ks dst =>
           hset ks dst
             (foldl (fun shares e => if hget e.2 dst is Some s then hset shares e.1 s else shares)
                    [::] private_shares))
        [::] kids.

Definition compute_secrets (p : Party C) (private_shares : seq (nat * seq (nat * F)))
    (polys : seq (nat * PolyCommitment V)) :
    Party C * res (seq (nat * DkgError (PointError C))) unit :=
  match compute_secret p (collect_shares (key_ids p) private_shares) polys with
  | (p', Done _) => (p', Done tt)
  | (p', Fails e) => (p', Fails [:: (party_id p, e)])
  | (p', Panics) => (p', Panics)
  end.

(** The public key a tweak selects, and whether the key shares are negated. *)
Definition party_tweaked_key (gk : V) (tweak : option F) : res (AggregatorError F) (V * F) :=
  if tweak is Some t then
    if t != 0 then
      key <-! tweaked_public_key_from_tweak _ gk t ;
      Done (key, if has_even_y C key (+) has_even_y C gk then -1 else 1)
    else Done (gk, if ~~ has_even_y C gk then -1 else 1)
  else Done (gk, 1).

(** [cx] of [sign_with_tweak]; [private_keys[key_id]] panics on a missing key. *)
Fixpoint sum_key_shares (c : F) (pks : seq (nat * F)) (kids all_ids : seq nat) (cx : F) :
    res (AggregatorError F) F :=
  if kids is kid :: kids' then
    if hget pks kid is Some sk
    then sum_key_shares c pks kids' all_ids (cx + c * sk * lambda kid all_ids)
    else Panics
  else Done cx.

Definition sign_with_tweak (p : Party C) (msg : seq byte) (party_ids all_ids : seq nat)
    (nonces : seq (PublicNonce V)) (tweak : option F) :
    Party C * res (AggregatorError F) (SignatureShare F) :=
  if p_nonce p is Some n then
    (with_nonce p None,
     kc <-! party_tweaked_key (group_key p) tweak ;
     let R := (intermediate msg party_ids nonces).2 in
     let c := challenge kc.1 R msg in
     let r := nonce_d n + nonce_e n * binding (party_scalar_id p) nonces msg in
     let r := if (tweak != None) && ~~ has_even_y C R then - r else r in
     cx <-! sum_key_shares c (private_keys p) (key_ids p) all_ids 0 ;
     Done (mkSignatureShare (party_id p) (r + kc.2 * cx) (key_ids p)))
  else (p, Fails MissingNonce).

Definition party_sign_schnorr (p : Party C) (msg : seq byte) (signer_ids all_ids : seq nat)
    (nonces : seq (PublicNonce V)) :=
  sign_with_tweak p msg signer_ids all_ids nonces (Some 0).

Definition party_sign_taproot (p : Party C) (msg : seq byte) (signer_ids all_ids : seq nat)
    (nonces : seq (PublicNonce V)) (root : option (seq byte)) :=
  sign_with_tweak p msg signer_ids all_ids nonces (Some (compute_tweak (group_key p) root)).

(** [collect] into a [HashMap]. *)
Definition hcollect (A : Type) (l : seq (nat * A)) : seq (nat * A) :=
  foldl (fun m e => hset m e.1 e.2) [::] l.

Definition party_load (s : SignerState C) : Party C :=
  mkParty (st_id s) (st_key_ids s) (st_num_keys s) (st_num_parties s) (st_threshold s)
          (polynomial (st_party_state s)) (hcollect (ps_private_keys (st_party_state s)))
          (st_group_key s) None.

Definition party_save (p : Party C) : SignerState C :=
  mkSignerState (party_id p) (key_ids p) (num_keys p) (num_parties p) (threshold p)
                (group_key p) (mkPartyState (p_f p) (private_keys p)).

(** ** Aggregator (v2.rs) *)

Definition aggregator_new (nk t : nat) : Aggregator V := mkAggregator nk t None.

(** [coefficients.iter_mut().zip(comm.poly()).for_each(|(c, p)| *c += p)] *)
Fixpoint add_points (cs ps : seq V) : seq V :=
  match cs, ps with
  | c :: cs', p :: ps' => (c + p) :: add_points cs' ps'
  | _, _ => cs
  end.

Fixpoint sum_commitments (t : nat) (comms : seq (nat * PolyCommitment V)) (cs : seq V) :
    res (AggregatorError F) (seq V) :=
  if comms is (_, comm) :: comms' then
    if num_coefficients comm != t then Fails (BadPolynomialDegree t (num_coefficients comm))
    else sum_commitments t comms' (add_points cs (pc_coefficients comm))
  else Done cs.

Definition aggregator_init (a : Aggregator V) (comms : seq (nat * PolyCommitment V)) :
    Aggregator V * res (AggregatorError F) unit :=
  match sum_commitments (agg_threshold a) comms (nseq (agg_threshold a) 0) with
  | Done cs =>
      match public_polynomial_new cs with
      | Done q => (mkAggregator (agg_num_keys a) (agg_threshold a) (Some q), Done tt)
      | Fails e => (a, Fails (AggInvalidPolynomial e))
      | Panics => (a, Panics)
      end
  | Fails e => (a, Fails e)
  | Panics => (a, Panics)
  end.

Definition aggregator_tweaked_key (apk : V) (tweak : option F) : res (AggregatorError F) (V * F) :=
  if tweak is Some t then
    if t != 0 then
      key <-! tweaked_public_key_from_tweak _ apk t ;
      Done (key, if ~~ has_even_y C key then -1 else 1)
    else Done (apk, 1)
  else Done (apk, 1).

Definition aggregator_sign_with_tweak (a : Aggregator V) (msg : seq byte)
    (nonces : seq (PublicNonce V)) (sig_shares : seq (SignatureShare F)) (tweak : option F) :
    res (AggregatorError F) (V * Signature V) :=
  if size nonces != size sig_shares then Fails (BadNonceLen (size nonces) (size sig_shares)) else
  let party_ids := [seq ss_id s | s <- sig_shares] in
  let R := (intermediate msg party_ids nonces).2 in
  if agg_poly a is Some q then
    kc <-! aggregator_tweaked_key (constant_term q) tweak ;
    let c := challenge kc.1 R msg in
    let z := foldl (fun z s => z + z_i s) 0 sig_shares in
    let z := if tweak is Some t then z + kc.2 * c * t else z in
    Done (kc.1, mkSignature R z)
  else Fails NotInitialized.

(** The public side of one share: the key identifiers that failed to
    evaluate, and the expected [cx]. *)
Definition share_cx (q : PublicPolynomial V) (c : F) (all_ids : seq nat) (s : SignatureShare F) :
    seq nat * V :=
  foldl (fun acc kid =>
           match compute_poly (compute_id kid) (coefficients q) with
           | Done pk => (acc.1, acc.2 + (lambda kid all_ids * c) *: pk)
           | _ => (rcons acc.1 (ss_id s), acc.2 + (lambda kid all_ids * c) *: 0)
           end) ([::], 0) (ss_key_ids s).

Definition check_keys_and_shares (q : PublicPolynomial V) (c r_sign cx_sign : F) (all_ids : seq nat)
    (sig_shares : seq (SignatureShare F)) (Rs : seq V) : seq nat * seq nat :=
  foldl (fun acc sr =>
           let (bad_keys, cx) := share_cx q c all_ids sr.1 in
           (acc.1 ++ bad_keys,
            if z_i sr.1 *: gen != r_sign *: sr.2 + cx_sign *: cx
            then rcons acc.2 (ss_id sr.1) else acc.2))
        ([::], [::]) (zip sig_shares Rs).

(** The signs [check_signature_shares] applies to the nonce and to the key. *)
Definition check_signs (apk tpk R : V) (tweak : option F) : F * F :=
  if tweak is Some t then
    (if ~~ has_even_y C R then -1 else 1,
     if t != 0 then
       if ~~ has_even_y C tpk (+) ~~ has_even_y C apk then -1 else 1
     else if ~~ has_even_y C apk then -1 else 1)
  else (1, 1).

(** [check_signature_shares] always returns an error value; the [res] accounts
    for the panic of the tweaked key. *)
Definition check_signature_shares (a : Aggregator V) (msg : seq byte)
    (nonces : seq (PublicNonce V)) (sig_shares : seq (SignatureShare F))
    (all_ids : seq nat) (tweak : option F) : res (AggregatorError F) (AggregatorError F) :=
  if size nonces != size sig_shares then Done (BadNonceLen (size nonces) (size sig_shares)) else
  if agg_poly a is Some q then
    let party_ids := [seq ss_id s | s <- sig_shares] in
    let (Rs, R) := intermediate msg party_ids nonces in
    let apk := constant_term q in
    kc <-! aggregator_tweaked_key apk tweak ;
    let c := challenge kc.1 R msg in
    let (r_sign, cx_sign) := check_signs apk kc.1 R tweak in
    let (bad_keys, bad_sigs) := check_keys_and_shares q c r_sign cx_sign all_ids sig_shares Rs in
    Done (if ~~ nilp bad_keys then BadPartyKeys bad_keys
          else if ~~ nilp bad_sigs then BadPartySigs bad_sigs else BadGroupSig)
  else Done NotInitialized.

(** [Err(self.check_signature_shares(..))] *)
Definition blame (A : Type) (m : res (AggregatorError F) (AggregatorError F)) : res (AggregatorError F) A :=
  e <-! m ; Fails e.

Definition aggregator_sign (a : Aggregator V) (msg : seq byte) (nonces : seq (PublicNonce V))
    (sig_shares : seq (SignatureShare F)) (all_ids : seq nat) : res (AggregatorError F) (Signature V) :=
  ks <-! aggregator_sign_with_tweak a msg nonces sig_shares None ;
  if signature_verify ks.2 ks.1 msg then Done ks.2
  else blame _ (check_signature_shares a msg nonces sig_shares all_ids None).

(** The common tail of [sign_schnorr] and [sign_taproot]. *)
Definition sign_bip340 (a : Aggregator V) (msg : seq byte) (nonces : seq (PublicNonce V))
    (sig_shares : seq (SignatureShare F)) (all_ids : seq nat) (tweak : F) :
    res (AggregatorError F) (SchnorrProof F (FE C)) :=
  ks <-! aggregator_sign_with_tweak a msg nonces sig_shares (Some tweak) ;
  let proof := schnorr_proof_new ks.2 in
  if schnorr_proof_verify proof (point_x C ks.1) msg then Done proof
  else blame _ (check_signature_shares a msg nonces sig_shares all_ids (Some tweak)).

Definition aggregator_sign_schnorr (a : Aggregator V) (msg : seq byte) (nonces : seq (PublicNonce V))
    (sig_shares : seq (SignatureShare F)) (all_ids : seq nat) :=
  sign_bip340 a msg nonces sig_shares all_ids 0.

Definition aggregator_sign_taproot (a : Aggregator V) (msg : seq byte) (nonces : seq (PublicNonce V))
    (sig_shares : seq (SignatureShare F)) (all_ids : seq nat) (root : option (seq byte)) :
    res (AggregatorError F) (SchnorrProof F (FE C)) :=
  if agg_poly a is Some q then
    sign_bip340 a msg nonces sig_shares all_ids (compute_tweak (constant_term q) root)
  else Fails NotInitialized.

End Ops.
Arguments get_poly_commitment : simpl never.

(** ** Encrypted shares (util.rs) *)

Inductive EncryptionError (AesError : Type) : Type :=
| EncMissingNonce
| EncMissingData
| AesGcm (e : AesError).
Arguments EncMissingNonce {AesError}.
Arguments EncMissingData {AesError}.

Definition AES_GCM_NONCE_SIZE : nat := 12.

Section Encryption.
Context {F : fieldType} {V : lmodType F} (C : Curve V).
(** The AES-256-GCM cipher of the [aes_gcm] crate: key, nonce, text. *)
Context {AesError : Type}.
Variables (aes_encrypt aes_decrypt : seq byte -> seq byte -> seq byte -> res AesError (seq byte)).

Definition lift_aes (A : Type) (m : res AesError A) : res (EncryptionError AesError) A :=
  match m with
  | Done a => Done a
  | Fails e => Fails (AesGcm e)
  | Panics => Panics
  end.

(** The counter is [1u32], in big-endian bytes. *)
Definition ansi_x963_derive_key (shared_key shared_info : seq byte) : seq byte :=
  sha256 C (shared_key ++ [:: x00; x00; x00; x01] ++ shared_info).

Definition make_shared_secret_from_key (shared_key : V) : seq byte :=
  ansi_x963_derive_key (compress C shared_key) (bytes_of "DH_SHARED_SECRET_KEY/").

Definition make_shared_secret (private_key : F) (public_key : V) : seq byte :=
  make_shared_secret_from_key (private_key *: public_key).

Definition encrypt (key data : seq byte) (r : rng C) :
    res (EncryptionError AesError) (seq byte) * rng C :=
  let (nonce_bytes, r') := fill_bytes AES_GCM_NONCE_SIZE r in
  (cipher <-! lift_aes (aes_encrypt key nonce_bytes data) ; Done (nonce_bytes ++ cipher), r').

Definition decrypt (key data : seq byte) : res (EncryptionError AesError) (seq byte) :=
  if (size data < AES_GCM_NONCE_SIZE)%N then Fails EncMissingNonce else
  let cipher := drop AES_GCM_NONCE_SIZE data in
  if nilp cipher then Fails EncMissingData
  else lift_aes (aes_decrypt key (take AES_GCM_NONCE_SIZE data) cipher).

(** Both ends of a Diffie-Hellman exchange derive the same key. *)
Lemma make_shared_secret_agree a b :
  make_shared_secret a (b *: G C) = make_shared_secret b (a *: G C).
Proof. by rewrite /make_shared_secret !scalerA mulrC. Qed.

(** Encryption does not panic if the cipher does not. *)
Lemma encrypt_no_panic key data r : (forall n, aes_encrypt key n data <> Panics) -> (encrypt key data r).1 <> Panics.
Proof. by rewrite /encrypt; case: (fill_bytes _ r) => n r1 /(_ n); case: (aes_encrypt key n data). Qed.

(** The cipher inverts itself under the same key and nonce, its texts carry a
    non-empty tag, and the generator fills the whole buffer. *)
Hypothesis aes_decryptK : forall key n d c, aes_encrypt key n d = Done c -> aes_decrypt key n c = Done d.
Hypothesis aes_tag : forall key n d c, aes_encrypt key n d = Done c -> (0 < size c)%N.
Hypothesis fill_bytes_size : forall n (r : rng C), size (fill_bytes n r).1 = n.

Lemma decrypt_encrypt key data r bs r' :
  encrypt key data r = (Done bs, r') -> decrypt key bs = Done data.
Proof.
rewrite /encrypt; have := fill_bytes_size AES_GCM_NONCE_SIZE r.
case: (fill_bytes _ r) => n r1 /= Hn; case E: (aes_encrypt key n data) => [c|e|] //= [<- _].
rewrite /decrypt size_cat Hn ltnNge leq_addr /= drop_size_cat // take_size_cat //.
by rewrite /nilp; case: c E => [/aes_tag|b c E] //=; rewrite (aes_decryptK E).
Qed.

End Encryption.
