(* ===== verification/WstsDkg.v ===== *)
(** Distributed key generation of the [wsts] crate: interpolation of the key
    shares, and that [compute_secrets] gives each party the shares of the
    committed polynomials and succeeds among honest parties.

    Source: src/wsts/src/v2.rs, src/wsts/src/compute.rs. *)
From HB Require Import structures.
From mathcomp Require Import boot ssralg poly zmodp.
From Stdlib Require Import Strings.Byte Strings.String.
From S2P Require Import Wsts.

Set Implicit Arguments.
Unset Strict Implicit.
Unset Printing Implicit Defensive.
Set Bullet Behavior "Strict Subproofs".

Import GRing.Theory.
Local Open Scope ring_scope.

(** ** Linear combinations and interpolation *)
Section Interpolation.
Context {F : fieldType} {V : lmodType F}.

Lemma foldl_addE (A : zmodType) (s : seq A) (a : A) : foldl +%R a s = a + \sum_(x <- s) x.
Proof.
elim: s a => [|x s IH] a /=; first by rewrite big_nil addr0.
by rewrite IH big_cons addrA.
Qed.

Lemma foldl_add_mapE (A : zmodType) (B : Type) (g : B -> A) (s : seq B) (a : A) :
  foldl (fun z b => z + g b) a s = a + \sum_(b <- s) g b.
Proof.
elim: s a => [|x s IH] a /=; first by rewrite big_nil addr0.
by rewrite IH big_cons addrA.
Qed.

Lemma size_powers n (x pow : F) : size (powers n x pow) = n.
Proof. by elim: n pow => //= n IH pow; rewrite IH. Qed.

Lemma lincomb_powers (x pow : F) (ps : seq V) :
  lincomb (powers (size ps) x pow) ps = \sum_(i < size ps) (pow * x ^+ i) *: ps`_i.
Proof.
elim: ps pow => [|p ps IH] pow /=; first by rewrite big_ord0.
rewrite IH big_ord_recl /= expr0 mulr1; congr (_ + _).
by apply: eq_bigr => i _; rewrite exprS mulrA.
Qed.

(** The value at [x] of the polynomial with the points [ps] as coefficients. *)
Definition peval (x : F) (ps : seq V) : V := \sum_(i < size ps) x ^+ i *: ps`_i.

Lemma lincomb_peval (x : F) (ps : seq V) : lincomb (powers (size ps) x 1) ps = peval x ps.
Proof. by rewrite lincomb_powers; apply: eq_bigr => i _; rewrite mul1r. Qed.

(** The scalar values of key identifiers are distinct. *)
Definition distinct_ids (ks : seq nat) : bool := uniq [seq compute_id i : F | i <- ks].

Lemma distinct_ids_uniq ks : distinct_ids ks -> uniq ks.
Proof. exact: map_uniq. Qed.

Lemma distinct_ids_neq ks i j : distinct_ids ks -> i \in ks -> j \in ks -> i != j ->
  compute_id j - compute_id i != 0 :> F.
Proof.
rewrite /distinct_ids => U Hi Hj; apply: contraNneq => E.
apply/eqP/esym; apply: (uniq_map_inj_in U) => //.
by apply/eqP; rewrite -subr_eq0 E.
Qed.

Lemma lambdaE i ks :
  lambda i ks = \prod_(j <- ks | i != j) (compute_id j / (compute_id j - compute_id i)) :> F.
Proof.
have gen a : foldl (fun l j => if i != j then l * (compute_id j / (compute_id j - compute_id i)) else l)
    a ks = a * \prod_(j <- ks | i != j) (compute_id j / (compute_id j - compute_id i)) :> F.
  elim: ks a => [|j ks IH] a /=; first by rewrite big_nil mulr1.
  by rewrite IH big_cons; case: (i != j); rewrite ?mulrA.
by rewrite /lambda gen mul1r.
Qed.

(** The Lagrange basis polynomial of the key identifier [i]. *)
Definition lagrange_basis (i : nat) (ks : seq nat) : {poly F} :=
  \prod_(j <- ks | i != j) ((compute_id j - compute_id i)^-1 *: ((compute_id j)%:P - 'X)).

Lemma lagrange_basis0 i ks : (lagrange_basis i ks).[0] = lambda i ks.
Proof.
rewrite lambdaE /lagrange_basis horner_prod; apply: eq_bigr => j _.
by rewrite hornerZ hornerD hornerC hornerN hornerX subr0 mulrC.
Qed.

Lemma lagrange_basis_same i ks : distinct_ids ks -> i \in ks ->
  (lagrange_basis i ks).[compute_id i] = 1.
Proof.
move=> U Hi; rewrite /lagrange_basis horner_prod big_seq_cond big1 // => j /andP[Hj Hij].
by rewrite hornerZ hornerD hornerC hornerN hornerX mulVf // (distinct_ids_neq U).
Qed.

Lemma lagrange_basis_other i j ks : j \in ks -> i != j ->
  (lagrange_basis i ks).[compute_id j] = 0.
Proof.
move=> Hj Hij; rewrite /lagrange_basis horner_prod (big_rem j) //= Hij.
by rewrite hornerZ hornerD hornerC hornerN hornerX subrr mulr0 mul0r.
Qed.

Lemma size_lagrange_basis i ks : i \in ks -> (size (lagrange_basis i ks) <= size ks)%N.
Proof.
move=> Hi.
have step (rs : seq nat) : (size (lagrange_basis i rs) <= (count (fun j => i != j) rs).+1)%N.
  elim: rs => [|j rs IH]; first by rewrite /lagrange_basis big_nil size_poly1.
  rewrite /lagrange_basis big_cons /=; case: ifP => Hij; last by rewrite add0n; exact: IH.
  apply: leq_trans (size_polyMleq _ _) _.
  have s2 : (size ((compute_id j - compute_id i)^-1 *: ((compute_id j)%:P - 'X) : {poly F}) <= 2)%N.
    apply: leq_trans (size_scale_leq _ _) _.
    by rewrite -opprB size_polyN size_XsubC.
  rewrite -/(lagrange_basis i rs) -subn1 leq_subLR add1n.
  exact: leq_trans (leq_add s2 IH) (leqnn _).
apply: leq_trans (step ks) _.
rewrite -(count_predC (fun j => i != j) ks) -addn1 leq_add2l -has_count.
by apply/hasP; exists i => //=; rewrite eqxx.
Qed.

(** The Lagrange coefficients at zero annihilate every monomial of degree
    below the number of keys, except the constant. *)
Lemma lambda_monomial ks m : distinct_ids ks -> (m < size ks)%N ->
  \sum_(i <- ks) lambda i ks * compute_id i ^+ m = (m == 0)%:R :> F.
Proof.
move=> U Hm.
pose q : {poly F} := \sum_(i <- ks) (compute_id i ^+ m) *: lagrange_basis i ks - 'X^m.
have q_roots : all (root q) [seq compute_id i | i <- ks].
  apply/allP => _ /mapP[k Hk ->]; rewrite rootE hornerD hornerN hornerXn horner_sum.
  rewrite (bigD1_seq k) ?(distinct_ids_uniq U) //=.
  rewrite hornerZ lagrange_basis_same // mulr1 big1 ?addr0 ?subrr // => i Hik.
  by rewrite hornerZ lagrange_basis_other // mulr0.
have q_size : (size q <= size [seq compute_id i : F | i <- ks])%N.
  rewrite size_map; apply: leq_trans (size_polyD _ _) _.
  rewrite geq_max size_polyN size_polyXn Hm andbT.
  apply: leq_trans (size_sum _ _ _) _; rewrite big_seq.
  apply/bigmax_leqP_seq => i Hi _.
  exact: leq_trans (size_scale_leq _ _) (size_lagrange_basis Hi).
have q0 : q = 0 := roots_geq_poly_eq0 q_roots U q_size.
have := congr1 (horner^~ 0) q0; rewrite horner0 hornerD hornerN hornerXn horner_sum expr0n => /eqP.
rewrite subr_eq0 => /eqP <-; apply: eq_bigr => i _.
by rewrite hornerZ lagrange_basis0 mulrC.
Qed.

(** Interpolation at zero of a polynomial with point coefficients. *)
Lemma lambda_peval ks (ps : seq V) : distinct_ids ks -> (size ps <= size ks)%N ->
  \sum_(i <- ks) lambda i ks *: peval (compute_id i) ps = head 0 ps.
Proof.
move=> U Hs; rewrite /peval (eq_bigr (fun i => \sum_(j < size ps) (lambda i ks * compute_id i ^+ j) *: ps`_j));
  first by move=> i _; rewrite scaler_sumr; apply: eq_bigr => j _; rewrite scalerA.
rewrite exchange_big /= (eq_bigr (fun j : 'I_(size ps) => ((j : nat) == 0)%:R *: ps`_j)).
  by move=> j _; rewrite -scaler_suml lambda_monomial // (leq_trans (ltn_ord j)).
case: ps Hs => [|p ps] _ /=; first by rewrite big_ord0.
rewrite big_ord_recl /= scale1r big1 ?addr0 // => i _.
by rewrite scale0r.
Qed.

End Interpolation.
Arguments distinct_ids F ks : clear implicits.

(** ** Hash maps *)
Section HashMapFacts.
Context {A : Type}.
Implicit Type m : seq (nat * A).

Lemma hget_hset m k k' a : hget (hset m k a) k' = if k == k' then Some a else hget m k'.
Proof.
elim: m => [|[k1 a1] m IH] //=; case: (altP (k1 =P k)) => [->|Hk] /=; first by case: ifP.
rewrite IH; case: (altP (k1 =P k')) => [E|//]; subst k1.
by rewrite eq_sym (negbTE Hk).
Qed.

Lemma hget_isSome m k : isSome (hget m k) = (k \in keys m).
Proof.
elim: m => [|[k1 a1] m IH] //=; rewrite in_cons [k == _]eq_sym.
by case: (k1 == k) => //=.
Qed.

Lemma hget_Some m k : k \in keys m -> exists a, hget m k = Some a.
Proof. by rewrite -hget_isSome; case: (hget m k) => [a|] // _; exists a. Qed.

Lemma keys_hset m k a : keys (hset m k a) = if k \in keys m then keys m else rcons (keys m) k.
Proof.
elim: m => [|[k1 a1] m IH] //=; rewrite in_cons [k == _]eq_sym.
case: (altP (k1 =P k)) => [->|Hk] //=; rewrite IH.
by case: ifP.
Qed.

Lemma hset_fresh m k a : k \notin keys m -> hset m k a = rcons m (k, a).
Proof.
elim: m => [|[k1 a1] m IH] //=; rewrite in_cons negb_or [k == _]eq_sym => /andP[Hk Hm].
by rewrite (negbTE Hk) IH.
Qed.

Lemma hget_In m k a : hget m k = Some a -> List.In (k, a) m.
Proof.
elim: m => [|[k1 a1] m IH] //=.
by case: (altP (k1 =P k)) => [-> [->]|_ /IH H]; [left | right].
Qed.

Lemma hget_uniq m k a : uniq (keys m) -> List.In (k, a) m -> hget m k = Some a.
Proof.
elim: m => [|[k1 a1] m IH] //= /andP[Hn Hu] [[-> ->]|H]; first by rewrite eqxx.
case: (altP (k1 =P k)) => [E|_]; last exact: IH.
by case/negP: Hn; rewrite E; elim: m H {IH Hu} => [|[k2 a2] m IH] //= [[-> _]|/IH];
   rewrite in_cons ?eqxx // => ->; rewrite orbT.
Qed.

End HashMapFacts.

Lemma hget_map (A B : Type) (g : nat -> A -> B) (m : seq (nat * A)) k :
  hget [seq (e.1, g e.1 e.2) | e <- m] k = omap (g k) (hget m k).
Proof.
elim: m => [|[k1 a1] m IH] //=.
by case: (altP (k1 =P k)) => [->|].
Qed.

Lemma hcollectE (A : Type) (l : seq (nat * A)) : uniq (keys l) -> hcollect l = l.
Proof.
rewrite /hcollect -[l in RHS]cat0s.
have : ~~ has (mem (keys (@nil (nat * A)))) (keys l) by apply/hasPn.
elim: l [::] => [|[k a] l IH] m /=; first by rewrite cats0.
rewrite negb_or => /andP[Hk Hl] /andP[Hkl Hu].
rewrite hset_fresh // IH ?cat_rcons //.
rewrite /keys map_rcons -/(keys m); apply/hasPn => y Hy /=.
rewrite mem_rcons in_cons negb_or; apply/andP; split; last exact: (hasPn Hl).
by apply: contraNneq Hkl => <-.
Qed.

(** ** Key generation *)
Section Dkg.
Context {F : fieldType} {V : lmodType F} (C : Curve V) {L : CurveLaws C}.
Abbreviation gen := (G C).

Lemma compute_polyE y (ps : seq V) : compute_poly C y ps = Done (peval y ps).
Proof. by rewrite /compute_poly multimultE ?size_powers // lincomb_peval. Qed.

Lemma peval0 (ps : seq V) : peval 0 ps = head 0 ps.
Proof.
rewrite /peval; case: ps => [|p ps]; first by rewrite big_ord0.
rewrite big_ord_recl expr0 scale1r big1 ?addr0 // => i _.
by rewrite exprS mul0r scale0r.
Qed.

Lemma size_add_points (cs ps : seq V) : size (add_points cs ps) = size cs.
Proof. by elim: cs ps => [|c cs IH] [|p ps] //=; rewrite IH. Qed.

Lemma nth_add_points (cs ps : seq V) i : size cs = size ps ->
  (add_points cs ps)`_i = cs`_i + ps`_i.
Proof.
elim: cs ps i => [|c cs IH] [|p ps] i //= Hs; first by rewrite nth_nil addr0.
by case: i => [|i] //=; apply: IH; case: Hs.
Qed.

Lemma peval_add_points y (cs ps : seq V) : size cs = size ps ->
  peval y (add_points cs ps) = peval y cs + peval y ps.
Proof.
move=> Hs; rewrite /peval size_add_points -Hs -big_split; apply: eq_bigr => i _ /=.
by rewrite -scalerDr nth_add_points.
Qed.

Lemma peval_nseq0 y n : peval y (nseq n (0 : V)) = 0.
Proof. by rewrite /peval big1 // => i _; rewrite nth_nseq; case: ifP => _; rewrite scaler0. Qed.

Lemma sum_commitmentsP t comms (cs cs' : seq V) :
  size cs = t -> sum_commitments t comms cs = Done cs' ->
  [/\ size cs' = t, all (fun ic => num_coefficients ic.2 == t) comms &
      forall y, peval y cs' = peval y cs + \sum_(ic <- comms) peval y (pc_coefficients ic.2)].
Proof.
elim: comms cs => [|[i c] comms IH] cs Hs /=.
  by case=> <-; split=> // y; rewrite big_nil addr0.
case: (altP (num_coefficients c =P t)) => Hc //= /IH; rewrite size_add_points.
case=> // Hs' Ha He; split=> // y; rewrite He big_cons addrA peval_add_points // Hs -Hc.
by [].
Qed.

Lemma sum_commitments_done t comms (cs : seq V) :
  all (fun ic => num_coefficients ic.2 == t) comms ->
  exists cs', sum_commitments t comms cs = Done cs'.
Proof.
elim: comms cs => [|[i c] comms IH] cs /=; first by exists cs.
by case/andP=> -> /IH H; exact: H.
Qed.

Lemma check_commitmentsE t (pub : seq (nat * PolyCommitment V)) :
  check_commitments C t pub =
  ([seq ic.1 | ic <- pub & ~~ check_public_shares C ic.2 t],
   \sum_(ic <- pub | check_public_shares C ic.2 t) pc_constant_term ic.2).
Proof.
rewrite /check_commitments; set step := (fun acc ic => _).
suff gen_acc bad gk : foldl step (bad, gk) pub =
    (bad ++ [seq ic.1 | ic <- pub & ~~ check_public_shares C ic.2 t],
     gk + \sum_(ic <- pub | check_public_shares C ic.2 t) pc_constant_term ic.2).
  by rewrite gen_acc add0r.
elim: pub bad gk => [|[i c] pub IH] bad gk /=; first by rewrite big_nil cats0 addr0.
by rewrite big_cons /step /= -/step; case: (check_public_shares C c t) => /=;
  rewrite IH ?cat_rcons ?addrA.
Qed.

Lemma foldl_rcons_filter (T U : Type) (P : pred T) (g : T -> U) s acc :
  foldl (fun a y => if P y then rcons a (g y) else a) acc s = acc ++ [seq g y | y <- s & P y].
Proof.
elim: s acc => [|y s IH] acc /=; first by rewrite cats0.
by rewrite IH; case: (P y); rewrite ?cat_rcons.
Qed.

Lemma foldl_cat_map (T U : Type) (g : T -> seq U) s acc :
  foldl (fun a y => a ++ g y) acc s = acc ++ flatten (map g s).
Proof. by elim: s acc => [|y s IH] acc /=; rewrite ?cats0 // IH catA. Qed.

Lemma eq_foldl (T U : Type) (g h : U -> T -> U) s acc :
  (forall a y, g a y = h a y) -> foldl g acc s = foldl h acc s.
Proof. by move=> E; elim: s acc => //= y s IH acc; rewrite E IH. Qed.

(** No share of [src] for the key [dst] was received. *)
Definition share_missing (priv : seq (nat * seq (nat * F))) (dst src : nat) : bool :=
  if hget priv dst is Some sh then ~~ isSome (hget sh src) else true.

Lemma find_missingE kids (priv : seq (nat * seq (nat * F))) (pub : seq (nat * PolyCommitment V)) :
  find_missing kids priv pub =
  flatten [seq [seq (dst, src) | src <- keys pub & share_missing priv dst src] | dst <- kids].
Proof.
rewrite -[RHS]cat0s -foldl_cat_map /find_missing; apply: eq_foldl => a dst.
rewrite -foldl_rcons_filter; apply: eq_foldl => b src.
by rewrite /share_missing; case: (hget priv dst) => // sh; case: (hget sh src).
Qed.

(** The share [e] of the sender [e.1] for the key [kid] does not match the
    sender's commitment. *)
Definition share_mismatch (kid : nat) (pub : seq (nat * PolyCommitment V)) (e : nat * F) : bool :=
  if hget pub e.1 is Some comm
  then e.2 *: gen != peval (compute_id kid) (pc_coefficients comm) else false.

Lemma check_key_sharesE kid pub shares acc :
  check_key_shares C kid pub shares acc =
  Done (acc ++ [seq e.1 | e <- shares & share_mismatch kid pub e]).
Proof.
elim: shares acc => [|[sender s] shares IH] acc /=; first by rewrite cats0.
rewrite /share_mismatch /=; case: (hget pub sender) => [comm|]; last exact: IH.
by rewrite compute_polyE IH; case: (_ != _); rewrite ?cat_rcons.
Qed.

Lemma find_bad_sharesE kids priv pub acc :
  find_bad_shares C kids priv pub acc =
  Done (acc ++ flatten [seq (if hget priv kid is Some shares
                             then [seq e.1 | e <- shares & share_mismatch kid pub e] else [::])
                       | kid <- kids]).
Proof.
elim: kids acc => [|kid kids IH] acc /=; first by rewrite cats0.
case: (hget priv kid) => [shares|]; last by rewrite IH.
by rewrite check_key_sharesE /= IH catA.
Qed.

Lemma hget_sum_shares kids (priv : seq (nat * seq (nat * F))) k :
  hget (sum_shares kids priv) k =
  if k \in kids then Some (if hget priv k is Some sh then \sum_(e <- sh) e.2 else 0) else None.
Proof.
rewrite /sum_shares; set step := (fun pk kid => _).
suff gen_acc pk : hget (foldl step pk kids) k =
    if k \in kids then Some (if hget priv k is Some sh then \sum_(e <- sh) e.2 else 0)
    else hget pk k by rewrite gen_acc.
elim: kids pk => [|kid kids IH] pk //=.
rewrite IH in_cons orbC; case: (k \in kids) => //=; rewrite /step /= [k == _]eq_sym.
case: (altP (kid =P k)) => [->|Hk]; case: (hget priv _) => [sh|];
  rewrite !hget_hset ?eqxx ?(negbTE Hk) //.
by rewrite foldl_addE add0r big_map.
Qed.

(** The shares for the key [k] among those of all senders. *)
Definition shares_for (priv : seq (nat * seq (nat * F))) (k : nat) : seq (nat * F) :=
  pmap (fun e => omap (pair e.1) (hget e.2 k)) priv.

Lemma keys_shares_forE priv k :
  keys (shares_for priv k) = [seq e.1 | e <- priv & isSome (hget e.2 k)].
Proof. by elim: priv => [|[i m] priv IH] //=; case: (hget m k) => [s|] //=; rewrite IH. Qed.

Lemma keys_shares_for priv k : subseq (keys (shares_for priv k)) (keys priv).
Proof. by rewrite keys_shares_forE; apply: map_subseq; exact: filter_subseq. Qed.

Lemma collect_oneE (priv : seq (nat * seq (nat * F))) k : uniq (keys priv) ->
  foldl (fun shares e => if hget e.2 k is Some s then hset shares e.1 s else shares) [::] priv
  = shares_for priv k.
Proof.
move=> U; rewrite -[RHS]cat0s.
have : ~~ has (mem (keys (@nil (nat * F)))) (keys priv) by apply/hasPn.
elim: priv [::] U => [|[i m] priv IH] acc /=; first by rewrite cats0.
case/andP=> Hi U; rewrite negb_or => /andP[Ha Hp].
case: (hget m k) => [s|] /=; last exact: IH.
rewrite hset_fresh // IH ?cat_rcons // /keys map_rcons -/(keys acc).
apply/hasPn => y Hy /=; rewrite mem_rcons in_cons negb_or (hasPn Hp y Hy) andbT.
by apply: contraNneq Hi => <-.
Qed.

Lemma hget_collect_shares kids (priv : seq (nat * seq (nat * F))) k : uniq (keys priv) ->
  hget (collect_shares kids priv) k = if k \in kids then Some (shares_for priv k) else None.
Proof.
move=> U; rewrite /collect_shares; elim/last_ind: kids => [|kids kid IH] //=.
rewrite foldl_rcons hget_hset collect_oneE // IH mem_rcons in_cons [k == _]eq_sym.
by case: (altP (kid =P k)) => [->|].
Qed.

Lemma nilP_filter_map (T U : Type) (g : T -> U) (P : pred T) s :
  nilp [seq g y | y <- s & P y] = ~~ has P s.
Proof. by rewrite /nilp size_map size_filter has_count -leqNgt leqn0. Qed.

Lemma nilp_flatten_map (T U : Type) (g : T -> seq U) s :
  nilp (flatten [seq g y | y <- s]) = all (fun y => nilp (g y)) s.
Proof. by elim: s => //= y s <-; rewrite /nilp size_cat addn_eq0. Qed.

Lemma big_all_filter (T : Type) (A : zmodType) (P : pred T) (g : T -> A) s : all P s ->
  \sum_(y <- s | P y) g y = \sum_(y <- s) g y.
Proof. by elim: s => [|y s IH] /=; rewrite ?big_nil // !big_cons => /andP[-> /IH ->]. Qed.

(** The key shares [p] holds are those of the public polynomial [q]. *)
Definition holds_keys (q : PublicPolynomial V) (p : Party C) : Prop :=
  group_key p = constant_term q /\
  forall k, k \in key_ids p ->
    exists2 sk, hget (private_keys p) k = Some sk & sk *: gen = peval (compute_id k) (coefficients q).

(** What a successful [compute_secret] has checked and stored. *)
Lemma compute_secret_done (p : Party C) priv pub p' :
  compute_secret p priv pub = (p', Done tt) ->
  [/\ all (fun ic => check_public_shares C ic.2 (threshold p)) pub,
      p' = with_secrets p (sum_shares (key_ids p) priv) (\sum_(ic <- pub) pc_constant_term ic.2),
      all (fun dst => all (fun src => ~~ share_missing priv dst src) (keys pub)) (key_ids p) &
      forall k sh, k \in key_ids p -> hget priv k = Some sh -> ~~ has (share_mismatch k pub) sh].
Proof.
rewrite /compute_secret check_commitmentsE find_missingE find_bad_sharesE /=.
case: ifP => // /negbFE; rewrite nilP_filter_map -all_predC => Hc.
case: ifP => // /negbFE; rewrite nilp_flatten_map => Hm.
case: ifP => // /negbFE; rewrite nilp_flatten_map => /allP Hb [<-].
have Hc' : all (fun ic => check_public_shares C ic.2 (threshold p)) pub.
  by apply: sub_all Hc => ic /=; rewrite negbK.
split=> //.
- by rewrite big_all_filter.
- by apply: sub_all Hm => dst; rewrite nilP_filter_map -all_predC.
- by move=> k sh Hk Es; move: (Hb k Hk); rewrite Es nilP_filter_map.
Qed.

Lemma sum_hget (A : Type) (B : zmodType) (g : A -> B) (m : seq (nat * A)) : uniq (keys m) ->
  \sum_(i <- keys m) (if hget m i is Some a then g a else 0) = \sum_(e <- m) g e.2.
Proof.
elim: m => [|[k a] m IH] /=; first by rewrite !big_nil.
case/andP=> Hk /IH {}IH; rewrite !big_cons eqxx -IH; congr (_ + _).
by apply: eq_big_seq => i Hi; case: (altP (k =P i)) => // E; rewrite E Hi in Hk.
Qed.

(** The shares accepted for one key sum to the value of the sum of the
    commitments at that key. *)
Lemma accepted_shares_sum k (sh : seq (nat * F)) (pub : seq (nat * PolyCommitment V)) :
  uniq (keys pub) -> perm_eq (keys sh) (keys pub) -> ~~ has (share_mismatch k pub) sh ->
  (\sum_(e <- sh) e.2) *: gen = \sum_(ic <- pub) peval (compute_id k) (pc_coefficients ic.2).
Proof.
move=> U Hp Hm; rewrite -(sum_hget (fun c => peval (compute_id k) (pc_coefficients c)) U).
rewrite -(perm_big _ Hp) big_map scaler_suml /=.
have Hs : {subset keys sh <= keys pub} by move=> i; rewrite (perm_mem Hp).
elim: sh Hm Hs {Hp} => [|[i s] sh IH] /=; first by rewrite !big_nil.
rewrite negb_or !big_cons => /andP[H1 /IH {}IH] Hs; rewrite IH //=.
  by move=> j Hj; apply: Hs; rewrite in_cons Hj orbT.
congr (_ + _); have /hget_Some[c Ec] : i \in keys pub by apply: Hs; rewrite in_cons eqxx.
by move: H1; rewrite /share_mismatch /= Ec negbK => /eqP.
Qed.

(** Key generation is sound whatever the other parties sent: when
    [compute_secrets] succeeds, every commitment was of the right degree and
    proved, the group key is the sum of the constant terms, and each private
    key is the discrete logarithm of the sum of the committed polynomials at
    its key identifier. *)
Lemma compute_secrets_done (p : Party C) priv pub p' :
  uniq (keys priv) -> uniq (keys pub) -> {subset keys priv <= keys pub} ->
  compute_secrets p priv pub = (p', Done tt) ->
  [/\ all (fun ic => check_public_shares C ic.2 (threshold p)) pub,
      group_key p' = \sum_(ic <- pub) pc_constant_term ic.2,
      key_ids p' = key_ids p &
      forall k, k \in key_ids p -> exists2 sk, hget (private_keys p') k = Some sk &
        sk *: gen = \sum_(ic <- pub) peval (compute_id k) (pc_coefficients ic.2)].
Proof.
move=> Upriv Upub Hsub; rewrite /compute_secrets.
case E: (compute_secret _ _ _) => [p1 [[]|e|]] //= [<-].
have [Hc -> Hm Hb] := compute_secret_done E; split=> // k Hk; rewrite /= hget_sum_shares Hk.
have Esh : hget (collect_shares (key_ids p) priv) k = Some (shares_for priv k).
  by rewrite hget_collect_shares // Hk.
rewrite Esh; exists (\sum_(e <- shares_for priv k) e.2) => //.
apply: accepted_shares_sum => //; last exact: (Hb _ _ Hk Esh).
apply: uniq_perm => //; first exact: subseq_uniq (keys_shares_for _ _) Upriv.
move=> i; apply/idP/idP => [Hi|Hi]; first by apply: Hsub; apply: mem_subseq Hi; exact: keys_shares_for.
by move/allP: Hm => /(_ k Hk) /allP /(_ i Hi); rewrite /share_missing Esh negbK hget_isSome.
Qed.

(** An accusation of private shares is well founded: when [compute_secrets]
    names the senders of bad shares, each of them sent, for some key of the
    party, a share that does not match the commitment it published.  It blames
    under the party's own id. *)
Lemma shares_for_mem priv k e : uniq (keys priv) -> e \in shares_for priv k ->
  exists2 d, hget priv e.1 = Some d & hget d k = Some e.2.
Proof.
move=> U; rewrite mem_pmap => /mapP[[i d] Hin /=].
case Hk: (hget d k) => [x|] //= [->]; exists d => //=.
apply: hget_uniq => //; elim: priv Hin {U} => [|y priv IH] //=.
by rewrite in_cons => /orP[/eqP<-|/IH H]; [left|right].
Qed.

Lemma compute_secrets_blame (p : Party C) priv pub p' q ids i :
  uniq (keys priv) -> compute_secrets p priv pub = (p', Fails [:: (q, BadPrivateShares ids)]) -> i \in ids ->
  q = party_id p /\
  exists k d x poly, [/\ k \in key_ids p, hget priv i = Some d, hget d k = Some x, hget pub i = Some poly &
    compute_poly C (compute_id k) (pc_coefficients poly) <> Done (x *: gen)].
Proof.
move=> U; rewrite /compute_secrets /compute_secret check_commitmentsE find_missingE find_bad_sharesE /=.
case: ifP => // _; case: ifP => // _; case: ifP => // _ [_ <- <-] Hi; split=> //.
move: Hi => /flattenP[l /mapP[k Hk ->]]; rewrite hget_collect_shares // Hk => /mapP[e].
rewrite mem_filter => /andP[Hm /(shares_for_mem U)[d Hd Hx]] ->.
move: Hm; rewrite /share_mismatch; case Hp: (hget pub e.1) => [poly|] // Hne.
by exists k, d, e.2, poly; split=> //; rewrite compute_polyE => -[E]; move: Hne; rewrite E eqxx.
Qed.

(** No operation of a round changes the keys that a party holds. *)
Lemma compute_secrets_key_ids (p : Party C) priv pub : key_ids (compute_secrets p priv pub).1 = key_ids p.
Proof.
rewrite /compute_secrets /compute_secret check_commitmentsE find_missingE find_bad_sharesE /=.
case: ifP => _ //=; case: ifP => _ //=; by case: ifP.
Qed.
Lemma gen_nonce_key_ids fuel (p : Party C) r n p' r' : gen_nonce fuel p r = Some (n, p', r') -> key_ids p' = key_ids p.
Proof. by rewrite /gen_nonce; case: (nonce_new _ _) => [[n' r'']|] // [_ <- _]. Qed.
Lemma sign_with_tweak_key_ids (p : Party C) msg ids kids ns tweak : key_ids (sign_with_tweak p msg ids kids ns tweak).1 = key_ids p.
Proof. by rewrite /sign_with_tweak; case: (p_nonce p). Qed.

Lemma aggregator_init_done (a : Aggregator V) comms a' : aggregator_init a comms = (a', Done tt) ->
  exists q, [/\ agg_poly a' = Some q, size (coefficients q) = agg_threshold a,
    (0 < agg_threshold a)%N, agg_threshold a' = agg_threshold a & 
    forall y, peval y (coefficients q) = \sum_(ic <- comms) peval y (pc_coefficients ic.2)].
Proof.
rewrite /aggregator_init; case E: (sum_commitments _ _ _) => [cs|e|] //.
have [Hs Ha He] := sum_commitmentsP (size_nseq _ _) E.
rewrite /public_polynomial_new; case: ifP => // Hn [<-] /=.
exists (mkPublicPolynomial cs); split=> //.
- by move: Hn; rewrite /nilp Hs lt0n => ->.
- by move=> y; rewrite He peval_nseq0 add0r.
Qed.

Lemma constant_termE (q : PublicPolynomial V) : constant_term q = peval 0 (coefficients q).
Proof. by rewrite peval0. Qed.

Lemma dkg_holds_keys (p : Party C) priv pub p' a a' q :
  uniq (keys priv) -> uniq (keys pub) -> {subset keys priv <= keys pub} ->
  compute_secrets p priv pub = (p', Done tt) ->
  aggregator_init a pub = (a', Done tt) -> agg_poly a' = Some q ->
  holds_keys q p'.
Proof.
move=> Upriv Upub Hsub /(compute_secrets_done Upriv Upub Hsub)[_ Hg Hid Hk].
case/aggregator_init_done=> q' [-> _ _ _ He] [<-]; split.
  by rewrite Hg constant_termE He; apply: eq_bigr => ic _; rewrite peval0.
by move=> k; rewrite Hid => /Hk[sk Es Eg]; exists sk => //; rewrite He.
Qed.

(** *** Honest parties *)

Lemma commitment_of_poly (p : Party C) q (r : rng C) : p_f p = Some q -> (0 < size (poly_data q))%N ->
  exists c, [/\ (get_poly_commitment p r).1 = Some c,
    pc_coefficients c = [seq a *: gen | a <- poly_data q] & poly_commitment_verify C c].
Proof.
rewrite /get_poly_commitment => -> Hq; case Eq: (poly_data q) Hq => [|c0 cs] //= _.
rewrite /id_new; case Er: (scalar_random r) => [k r'] /=; eexists; split=> //.
rewrite /poly_commitment_verify /id_verify /pc_constant_term /constant_term /=.
by rewrite scalerDl scalerA.
Qed.

Lemma heval_peval (cs : seq F) y : heval cs y *: gen = peval y [seq a *: gen | a <- cs].
Proof.
elim: cs => [|c cs IH]; first by rewrite scale0r /peval big_ord0.
rewrite /peval /= big_ord_recl expr0 scale1r scalerDl -scalerA IH /peval scaler_sumr; congr (_ + _).
by apply: eq_bigr => i _; rewrite scalerA exprS.
Qed.

Lemma hget_get_shares (p : Party C) q k : p_f p = Some q -> k \in iota 1 (num_keys p) ->
  hget (get_shares p) k = Some (poly_eval q (compute_id k)).
Proof.
rewrite /get_shares => ->; elim/last_ind: (iota 1 (num_keys p)) => [|s i IH] //=.
rewrite foldl_rcons hget_hset mem_rcons in_cons [k == _]eq_sym.
by case: (altP (i =P k)) => [->|_] //= /IH.
Qed.

(** The commitments and the private shares the parties [ps] broadcast. *)
Definition broadcast_commitments (ps : seq (Party C)) (rs : seq (rng C)) :
    seq (nat * PolyCommitment V) :=
  pmap (fun pr => omap (pair (party_id pr.1)) (get_poly_commitment pr.1 pr.2).1) (zip ps rs).

Definition broadcast_shares (ps : seq (Party C)) : seq (nat * seq (nat * F)) :=
  [seq (party_id p, get_shares p) | p <- ps].

(** A party ready for key generation: it has a polynomial of full degree. *)
Definition dkg_ready (t n : nat) (p : Party C) : bool :=
  (num_keys p == n) && (if p_f p is Some q then size (poly_data q) == t else false).

Lemma keys_broadcast t n (ps : seq (Party C)) rs : (0 < t)%N -> size rs = size ps -> all (dkg_ready t n) ps ->
  keys (broadcast_commitments ps rs) = [seq party_id p | p <- ps].
Proof.
move=> Ht; elim: ps rs => [|p ps IH] [|r rs] //= [Hs] /andP[/andP[_ Hp] Hps].
case Ef: (p_f p) Hp => [q|] // /eqP Hq; have Hq0 : (0 < size (poly_data q))%N by rewrite Hq.
by have [c [Ec _ _]] := commitment_of_poly r Ef Hq0; rewrite /broadcast_commitments /= Ec /= -(IH rs).
Qed.

Lemma hget_broadcast t n (ps : seq (Party C)) rs i c : (0 < t)%N -> all (dkg_ready t n) ps ->
  hget (broadcast_commitments ps rs) i = Some c ->
  exists p q, [/\ List.In p ps, party_id p = i, p_f p = Some q, size (poly_data q) = t &
    pc_coefficients c = [seq a *: gen | a <- poly_data q] /\ poly_commitment_verify C c].
Proof.
move=> Ht; elim: ps rs => [|p ps IH] [|r rs] //= /andP[/andP[_ Hp] Hps].
case Ef: (p_f p) Hp => [q|] // /eqP Hq; have Hq0 : (0 < size (poly_data q))%N by rewrite Hq.
have [c' [Ec Hc Hv]] := commitment_of_poly r Ef Hq0; rewrite /broadcast_commitments /= Ec /=.
case: (altP (party_id p =P i)) => [<- [<-]|_ /(IH _ Hps)]; first by exists p, q; split=> //; left.
by case=> p1 [q1 [H1 H2 H3 H4 H5]]; exists p1, q1; split=> //; right.
Qed.

Lemma In_map_inj (T : Type) (U : eqType) (g : T -> U) s a b :
  uniq (map g s) -> List.In a s -> List.In b s -> g a = g b -> a = b.
Proof.
have mem c (r : seq T) : List.In c r -> g c \in map g r.
  by elim: r => //= d r IH [->|/IH]; rewrite in_cons ?eqxx // => ->; rewrite orbT.
elim: s => //= c s IH /andP[Hc U'] [<-|Ha] [<-|Hb] E //; last exact: IH.
  by case/negP: Hc; rewrite E mem.
by case/negP: Hc; rewrite -E mem.
Qed.

Lemma broadcast_checked t n (ps : seq (Party C)) rs : (0 < t)%N -> all (dkg_ready t n) ps ->
  all (fun ic => check_public_shares C ic.2 t) (broadcast_commitments ps rs).
Proof.
move=> Ht; elim: ps rs => [|p ps IH] [|r rs] //= /andP[/andP[_ Hp] Hps].
case Ef: (p_f p) Hp => [q|] // /eqP Hq; have Hq0 : (0 < size (poly_data q))%N by rewrite Hq.
have [c [Ec Hc Hv]] := commitment_of_poly r Ef Hq0; rewrite /broadcast_commitments /= Ec /=.
by rewrite /check_public_shares Hc size_map Hq eqxx Hv IH.
Qed.

Lemma shares_for_broadcast t n (ps : seq (Party C)) k : k \in iota 1 n -> all (dkg_ready t n) ps ->
  shares_for (broadcast_shares ps) k =
  [seq (party_id p, if p_f p is Some q then poly_eval q (compute_id k) else 0) | p <- ps].
Proof.
move=> Hk; elim: ps => [|p ps IH] //= /andP[/andP[/eqP Hn Hp] /IH {}IH].
case Ef: (p_f p) Hp => [q|] // _.
by rewrite (hget_get_shares Ef) ?Hn //= IH.
Qed.

Lemma broadcast_no_mismatch t n (ps : seq (Party C)) rs k : (0 < t)%N -> k \in iota 1 n ->
  uniq [seq party_id p | p <- ps] -> all (dkg_ready t n) ps ->
  ~~ has (share_mismatch k (broadcast_commitments ps rs)) (shares_for (broadcast_shares ps) k).
Proof.
move=> Ht Hk U Hr; rewrite (shares_for_broadcast Hk Hr) has_map; set P := preim _ _.
suff sub s : (forall p, List.In p s -> List.In p ps) -> ~~ has P s by exact: (sub ps).
elim: s => //= p s IH Hs; rewrite negb_or IH; first by move=> p1 H1; apply: Hs; right.
rewrite /P /share_mismatch /= andbT; case E: (hget _ _) => [c|] //.
have [p1 [q [H1 H2 Ef _ [-> _]]]] := hget_broadcast Ht Hr E.
have -> : p = p1 by apply: (In_map_inj U) => //; apply: Hs; left.
by rewrite Ef /= poly_evalE heval_peval negbK.
Qed.

Lemma compute_secret_ok (p : Party C) priv pub :
  all (fun ic => check_public_shares C ic.2 (threshold p)) pub ->
  all (fun dst => all (fun src => ~~ share_missing priv dst src) (keys pub)) (key_ids p) ->
  (forall k sh, k \in key_ids p -> hget priv k = Some sh -> ~~ has (share_mismatch k pub) sh) ->
  (compute_secret p priv pub).2 = Done tt.
Proof.
move=> Hc Hm Hb; rewrite /compute_secret check_commitmentsE find_missingE find_bad_sharesE /=.
rewrite nilP_filter_map -all_predC (eq_all (a2 := fun ic => check_public_shares C ic.2 (threshold p)));
  first by move=> ic /=; rewrite negbK.
rewrite Hc nilp_flatten_map (eq_all (a2 := fun dst => all (fun src => ~~ share_missing priv dst src)
  (keys pub))); first by move=> dst; rewrite nilP_filter_map -all_predC.
rewrite Hm nilp_flatten_map /=; have -> // : all (fun kid => nilp (if hget priv kid is Some shares
  then [seq e.1 | e <- shares & share_mismatch kid pub e] else [::])) (key_ids p).
by apply/allP => k Hk; case E: (hget priv k) => [sh|] //; rewrite nilP_filter_map Hb.
Qed.

(** Key generation among honest parties succeeds. *)
Lemma compute_secrets_honest (p : Party C) t n ps rs :
  (0 < t)%N -> threshold p = t -> {subset key_ids p <= iota 1 n} ->
  uniq [seq party_id p | p <- ps] -> size rs = size ps -> all (dkg_ready t n) ps ->
  (compute_secrets p (broadcast_shares ps) (broadcast_commitments ps rs)).2 = Done tt.
Proof.
move=> Ht Hp Hk U Hs Hr; rewrite /compute_secrets.
suff E : (compute_secret p (collect_shares (key_ids p) (broadcast_shares ps))
           (broadcast_commitments ps rs)).2 = Done tt.
  by case: (compute_secret _ _ _) E => p' [[]|e|].
have Upriv : uniq (keys (broadcast_shares ps)) by rewrite /keys -map_comp.
apply: compute_secret_ok.
- by rewrite Hp; exact: broadcast_checked Hr.
- apply/allP => k Hkp; apply/allP => i; rewrite (keys_broadcast Ht Hs Hr) => Hi.
  rewrite /share_missing hget_collect_shares // Hkp negbK hget_isSome.
  by rewrite (shares_for_broadcast (Hk k Hkp) Hr) /keys -map_comp.
- move=> k sh Hkp; rewrite hget_collect_shares // Hkp => -[<-].
  exact: broadcast_no_mismatch (Hk k Hkp) U Hr.
Qed.

End Dkg.
