(* ===== verification/WstsSign.v ===== *)
(** Threshold signing of the [wsts] crate: the shares of parties that finished
    key generation aggregate to signatures that verify, plain, BIP-340 and
    under a BIP-341 tweak, a failed aggregation names the parties at fault, and
    the smaller facts on nonces, proofs and saved parties.  The last section
    instantiates the curve and runs a round of two parties.

    Source: src/wsts/src/v2.rs, src/wsts/src/compute.rs,
    src/wsts/src/common.rs, src/wsts/src/taproot.rs. *)
From HB Require Import structures.
From mathcomp Require Import boot ssralg poly zmodp.
From Stdlib Require Import Strings.Byte Strings.String.
From S2P Require Import Wsts WstsDkg.

Set Implicit Arguments.
Unset Strict Implicit.
Unset Printing Implicit Defensive.
Set Bullet Behavior "Strict Subproofs".

Import GRing.Theory.
Local Open Scope ring_scope.

(** ** Signing *)
Section Sign.
Context {F : fieldType} {V : lmodType F} (C : Curve V) {L : CurveLaws C}.
Abbreviation gen := (G C).

(** The sign that makes a point's y coordinate even. *)
Definition ysign (P : V) : F := if has_even_y C P then 1 else -1.

Lemma ysignK P : ysign P * ysign P = 1.
Proof. by rewrite /ysign; case: ifP => _; rewrite ?mulr1 // mulrNN mulr1. Qed.

Lemma lift_x_point P : P != 0 -> lift_x (point_x C P) = Some (ysign P *: P).
Proof. by move=> HP; rewrite lift_x_x // /ysign; case: ifP; rewrite ?scale1r ?scaleN1r. Qed.

Lemma point_x_ysign P (Q : V) : point_x C (ysign P *: Q) = point_x C Q.
Proof. by rewrite /ysign; case: ifP => _; rewrite ?scale1r // scaleN1r x_opp. Qed.

Lemma even_ysign P : P != 0 -> has_even_y C (ysign P *: P).
Proof.
move=> HP; rewrite /ysign; case E: (has_even_y C P); first by rewrite scale1r.
by rewrite scaleN1r has_even_y_opp // E.
Qed.

(** The equation of BIP-340 verification, for a signature whose nonce and key
    were normalised to even y coordinates. *)
Lemma bip340_equation (z : F) (P R : V) msg : P != 0 -> R != 0 ->
  z *: gen = ysign R *: R + (challenge C P R msg * ysign P) *: P ->
  schnorr_proof_verify (mkSchnorrProof (point_x C R) z) (point_x C P) msg.
Proof.
move=> HP HR Ez; rewrite /schnorr_proof_verify !lift_x_point //=.
have -> : challenge C (ysign P *: P) (ysign R *: R) msg = challenge C P R msg.
  by rewrite /challenge !point_x_ysign.
by rewrite Ez scalerA addrK even_ysign // point_x_ysign eqxx.
Qed.

(** The value share [s] must have, given the commitment [Ri] of its nonce. *)
Definition share_valid (q : PublicPolynomial V) (c r_sign cx_sign : F) (all_ids : seq nat)
    (s : SignatureShare F) (Ri : V) : bool :=
  z_i s *: gen == r_sign *: Ri + cx_sign *:
    \sum_(k <- ss_key_ids s) (lambda k all_ids * c) *: peval (compute_id k) (coefficients q).

Lemma share_cxE q c all_ids s :
  share_cx C q c all_ids s =
  ([::], \sum_(k <- ss_key_ids s) (lambda k all_ids * c) *: peval (compute_id k) (coefficients q)).
Proof.
rewrite /share_cx; set step := (fun acc kid => _).
suff gen_acc ids (cx : V) : foldl step ([::], cx) ids =
    ([::], cx + \sum_(k <- ids) (lambda k all_ids * c) *: peval (compute_id k) (coefficients q)).
  by rewrite gen_acc add0r.
elim: ids cx => [|k ids IH] cx /=; first by rewrite big_nil addr0.
by rewrite big_cons {2}/step compute_polyE IH addrA.
Qed.

Lemma check_keys_and_sharesE q c r_sign cx_sign all_ids shares Rs :
  check_keys_and_shares C q c r_sign cx_sign all_ids shares Rs =
  ([::], [seq ss_id sr.1 | sr <- zip shares Rs & ~~ share_valid q c r_sign cx_sign all_ids sr.1 sr.2]).
Proof.
rewrite /check_keys_and_shares; set step := (fun acc sr => _).
suff gen_acc l bad : foldl step ([::], bad) l =
    ([::], bad ++ [seq ss_id sr.1 | sr <- l & ~~ share_valid q c r_sign cx_sign all_ids sr.1 sr.2]).
  by rewrite gen_acc.
elim: l bad => [|sr l IH] bad /=; first by rewrite cats0.
by rewrite {2}/step share_cxE IH /= /share_valid; case: (_ == _); rewrite /= ?cat_rcons.
Qed.

Lemma intermediateE msg ids (nonces : seq (PublicNonce V)) :
  (intermediate C msg ids nonces).2 = \sum_(Ri <- (intermediate C msg ids nonces).1) Ri.
Proof. by rewrite /intermediate /= foldl_addE add0r. Qed.

Lemma size_intermediate msg ids (nonces : seq (PublicNonce V)) :
  size (intermediate C msg ids nonces).1 = minn (size nonces) (size ids).
Proof. by rewrite /= size_map size_zip size_map. Qed.

(** Valid shares add up to the group's equation. *)
Lemma valid_shares_sum q c r_sign cx_sign all_ids shares Rs :
  size Rs = size shares ->
  perm_eq (flatten [seq ss_key_ids s | s <- shares]) all_ids ->
  distinct_ids F all_ids -> (size (coefficients q) <= size all_ids)%N ->
  all (fun sr => share_valid q c r_sign cx_sign all_ids sr.1 sr.2) (zip shares Rs) ->
  (\sum_(s <- shares) z_i s) *: gen =
  r_sign *: (\sum_(Ri <- Rs) Ri) + (c * cx_sign) *: constant_term q.
Proof.
move=> Hs Hp U Hq Hv.
pose g k := (lambda k all_ids * c) *: peval (compute_id k) (coefficients q) : V.
have sum_all : (\sum_(s <- shares) z_i s) *: gen = r_sign *: (\sum_(Ri <- Rs) Ri) +
    cx_sign *: \sum_(k <- flatten [seq ss_key_ids s | s <- shares]) g k.
  elim: shares Rs Hs Hv {Hp} => [|s shares IH] [|Ri Rs] //= Hs.
    by rewrite !big_nil scale0r !scaler0 addr0.
  case: Hs => Hs /andP[/eqP E /(IH _ Hs) {}IH]; rewrite !big_cons big_cat /= scalerDl E IH.
  by rewrite !scalerDr addrACA.
rewrite sum_all (perm_big _ Hp) /g /= (eq_bigr (fun k => c *: (lambda k all_ids *:
  peval (compute_id k) (coefficients q)))); first by move=> k _; rewrite scalerA mulrC.
by rewrite -scaler_sumr lambda_peval // scalerA mulrC.
Qed.

(** The key a tweak selects: BIP-341 adds the tweak to the point with the
    same x coordinate and an even y coordinate. *)
Definition tweaked (apk : V) (tweak : option F) : V :=
  if tweak is Some t then if t != 0 then ysign apk *: apk + t *: gen else apk else apk.

(** The group key is a proper point where the code needs its coordinates. *)
Definition key_defined (apk : V) (tweak : option F) : bool :=
  if tweak is Some _ then apk != 0 else true.

Lemma aggregator_tweaked_keyE apk tweak : key_defined apk tweak ->
  aggregator_tweaked_key C apk tweak =
  Done (tweaked apk tweak,
        if tweak is Some t then if t != 0 then ysign (tweaked apk tweak) else 1 else 1).
Proof.
rewrite /aggregator_tweaked_key /key_defined /tweaked; case: tweak => [t|] // Ha.
case: ifP => // Ht; rewrite /tweaked_public_key_from_tweak lift_x_point //= /ysign.
by case: (has_even_y C (_ + _)).
Qed.

Lemma party_tweaked_keyE apk tweak R : key_defined apk tweak ->
  party_tweaked_key C apk tweak =
  Done (tweaked apk tweak, (check_signs C apk (tweaked apk tweak) R tweak).2).
Proof.
rewrite /party_tweaked_key /key_defined /tweaked; case: tweak => [t|] //= Ha.
case: ifP => // Ht; rewrite /tweaked_public_key_from_tweak lift_x_point //=.
by case: (has_even_y C (_ + _)); case: (has_even_y C apk).
Qed.

(** The signs of [check_signature_shares] are those that make the nonce, the
    group key and the tweaked key even. *)
Lemma check_signsE apk tweak R :
  check_signs C apk (tweaked apk tweak) R tweak =
  if tweak is Some t
  then (ysign R, ysign apk * if t != 0 then ysign (tweaked apk tweak) else 1) else (1, 1).
Proof.
rewrite /check_signs /tweaked; case: tweak => [t|] //=.
congr pair; first by rewrite /ysign; case: (has_even_y C R).
case: ifP => Ht; last by rewrite mulr1 /ysign; case: (has_even_y C apk).
rewrite Ht; set tk := (_ + _); rewrite /ysign.
by case: (has_even_y C tk); case: (has_even_y C apk); rewrite /= ?mulr1 ?mul1r ?mulrNN ?mulr1.
Qed.

Lemma sum_key_sharesE q c pks kids all_ids cx :
  (forall k, k \in kids -> exists2 sk, hget pks k = Some sk &
    sk *: gen = peval (compute_id k) (coefficients q)) ->
  exists2 cx', sum_key_shares c pks kids all_ids cx = Done cx' &
    cx' *: gen = cx *: gen + \sum_(k <- kids) (lambda k all_ids * c) *: peval (compute_id k) (coefficients q).
Proof.
elim: kids cx => [|k kids IH] cx Hk /=; first by exists cx => //; rewrite big_nil addr0.
have [sk -> Esk] := Hk k (mem_head _ _).
have [cx' -> E] := IH (cx + c * sk * lambda k all_ids) (fun j Hj => Hk j (mem_behead (s := k :: kids) Hj)).
exists cx' => //; rewrite E big_cons scalerDl -addrA; congr (_ + (_ + _)).
by rewrite -Esk scalerA -mulrA [sk * _]mulrC mulrA [c * _]mulrC.
Qed.

(** The share of a party that holds its keys is the one the aggregator
    expects, and signing uses up the party's nonce. *)
Lemma share_of_party q (p : Party C) n msg ids all_ids nonces tweak :
  holds_keys q p -> p_nonce p = Some n -> key_defined (constant_term q) tweak ->
  let R := (intermediate C msg ids nonces).2 in
  let tk := tweaked (constant_term q) tweak in
  let signs := check_signs C (constant_term q) tk R tweak in
  let pn := public_nonce C n in
  exists2 s, sign_with_tweak p msg ids all_ids nonces tweak = (with_nonce p None, Done s) &
    [/\ ss_id s = party_id p, ss_key_ids s = key_ids p &
        share_valid q (challenge C tk R msg) signs.1 signs.2 all_ids s
          (nonce_D pn + binding C (party_scalar_id p) nonces msg *: nonce_E pn)].
Proof.
move=> [Hg Hk] Hn Hd R tk signs pn; rewrite /sign_with_tweak Hn Hg (party_tweaked_keyE R Hd) /=.
have [cx -> Ecx] := sum_key_sharesE (challenge C tk R msg) all_ids 0 Hk.
eexists; first by []; split=> //; rewrite /share_valid /=; apply/eqP.
rewrite scalerDl -/tk -/signs -scalerA Ecx scale0r add0r; congr (_ + _).
have -> : signs.1 = if (tweak != None) && ~~ has_even_y C R then -1 else 1.
  by rewrite /signs check_signsE /ysign; case: (tweak) => //= t; case: (has_even_y C R).
by case: ifP => _; rewrite ?scale1r ?scaleN1r ?scaleNr scalerDl scalerA mulrC.
Qed.

(** *** The aggregator *)

(** The identifiers of the parties whose share is not the expected one. *)
Definition bad_sharers (q : PublicPolynomial V) (msg : seq byte) (nonces : seq (PublicNonce V))
    (shares : seq (SignatureShare F)) (all_ids : seq nat) (tweak : option F) : seq nat :=
  let (Rs, R) := intermediate C msg [seq ss_id s | s <- shares] nonces in
  let tk := tweaked (constant_term q) tweak in
  let signs := check_signs C (constant_term q) tk R tweak in
  [seq ss_id sr.1 | sr <- zip shares Rs &
     ~~ share_valid q (challenge C tk R msg) signs.1 signs.2 all_ids sr.1 sr.2].

Lemma check_signature_sharesE a q msg nonces shares all_ids tweak :
  agg_poly a = Some q -> size nonces = size shares -> key_defined (constant_term q) tweak ->
  check_signature_shares C a msg nonces shares all_ids tweak =
  Done (let bad := bad_sharers q msg nonces shares all_ids tweak in
        if nilp bad then BadGroupSig else BadPartySigs bad).
Proof.
move=> Ha Hs Hd; rewrite /check_signature_shares Hs eqxx Ha /= aggregator_tweaked_keyE //=.
rewrite /bad_sharers /=; case: (check_signs _ _ _ _ _) => r_sign cx_sign.
by rewrite check_keys_and_sharesE /=; case: (nilp _).
Qed.

(** When no share is bad, the aggregated response satisfies the group's equation. *)
Lemma no_bad_sharers q msg nonces shares all_ids tweak :
  size nonces = size shares ->
  perm_eq (flatten [seq ss_key_ids s | s <- shares]) all_ids ->
  distinct_ids F all_ids -> (size (coefficients q) <= size all_ids)%N ->
  nilp (bad_sharers q msg nonces shares all_ids tweak) ->
  let R := (intermediate C msg [seq ss_id s | s <- shares] nonces).2 in
  let tk := tweaked (constant_term q) tweak in
  let signs := check_signs C (constant_term q) tk R tweak in
  (\sum_(s <- shares) z_i s) *: gen =
  signs.1 *: R + (challenge C tk R msg * signs.2) *: constant_term q.
Proof.
move=> Hs Hp U Hq; rewrite /bad_sharers.
case E: (intermediate _ _ _ _) => [Rs R]; rewrite nilP_filter_map -all_predC => Hv.
have ER : R = \sum_(Ri <- Rs) Ri by have := intermediateE msg [seq ss_id s | s <- shares] nonces; rewrite E.
have SR : size Rs = size shares.
  by have := size_intermediate msg [seq ss_id s | s <- shares] nonces; rewrite E /= size_map Hs minnn.
rewrite /= {2}ER; apply: (valid_shares_sum SR Hp U Hq); apply: sub_all Hv => sr /=.
by rewrite negbK.
Qed.

Lemma foldl_zE (shares : seq (SignatureShare F)) :
  foldl (fun z s => z + z_i s) 0 shares = \sum_(s <- shares) z_i s.
Proof. by rewrite foldl_add_mapE add0r. Qed.

(** The aggregated signature verifies when every share is the expected one:
    the standard Schnorr equation, and the BIP-340 one under a tweak. *)
Lemma signature_of_valid_shares q msg nonces shares all_ids :
  size nonces = size shares ->
  perm_eq (flatten [seq ss_key_ids s | s <- shares]) all_ids ->
  distinct_ids F all_ids -> (size (coefficients q) <= size all_ids)%N ->
  nilp (bad_sharers q msg nonces shares all_ids None) ->
  signature_verify C (mkSignature (intermediate C msg [seq ss_id s | s <- shares] nonces).2
                        (\sum_(s <- shares) z_i s)) (constant_term q) msg.
Proof.
move=> Hs Hp U Hq Hb; rewrite /signature_verify; cbn [sig_R sig_z].
rewrite (no_bad_sharers Hs Hp U Hq Hb) check_signsE /tweaked; cbn [fst snd].
by rewrite mulr1 scale1r scaleNr addrK.
Qed.

Lemma proof_of_valid_shares q msg nonces shares all_ids t :
  let R := (intermediate C msg [seq ss_id s | s <- shares] nonces).2 in
  let tk := tweaked (constant_term q) (Some t) in
  size nonces = size shares ->
  perm_eq (flatten [seq ss_key_ids s | s <- shares]) all_ids ->
  distinct_ids F all_ids -> (size (coefficients q) <= size all_ids)%N ->
  constant_term q != 0 -> R != 0 -> tk != 0 ->
  nilp (bad_sharers q msg nonces shares all_ids (Some t)) ->
  schnorr_proof_verify (mkSchnorrProof (point_x C R)
    (\sum_(s <- shares) z_i s + (if t != 0 then ysign tk else 1) * challenge C tk R msg * t))
    (point_x C tk) msg.
Proof.
move=> R tk Hs Hp U Hq Hc HR Htk Hb; apply: bip340_equation => //.
rewrite scalerDl (no_bad_sharers Hs Hp U Hq Hb) check_signsE -/R -/tk; cbn [fst snd].
rewrite -addrA; congr (_ + _); set c := challenge C tk R msg.
have Etk : tk = if t != 0 then ysign (constant_term q) *: constant_term q + t *: gen
                else constant_term q by [].
case: (altP (t =P 0)) Etk => /= [-> Etk|_ Etk]; first by rewrite mulr0 scale0r addr0 mulr1 -Etk.
transitivity ((c * ysign tk) *: (ysign (constant_term q) *: constant_term q + t *: gen));
  last by rewrite -Etk.
rewrite scalerDr !scalerA; congr (_ *: _ + _ *: _); last by rewrite [ysign tk * c]mulrC.
by rewrite -mulrA [ysign tk * _]mulrC.
Qed.

(** Outcome of aggregation. *)
Lemma aggregator_sign_outcome a q msg nonces shares all_ids :
  agg_poly a = Some q -> size nonces = size shares ->
  perm_eq (flatten [seq ss_key_ids s | s <- shares]) all_ids ->
  distinct_ids F all_ids -> (size (coefficients q) <= size all_ids)%N ->
  let bad := bad_sharers q msg nonces shares all_ids None in
  match aggregator_sign C a msg nonces shares all_ids with
  | Done sig => signature_verify C sig (constant_term q) msg = true
  | Fails e => ~~ nilp bad /\ e = BadPartySigs bad
  | Panics => False
  end.
Proof.
move=> Ha Hs Hp U Hq bad.
rewrite /aggregator_sign /aggregator_sign_with_tweak Hs eqxx Ha foldl_zE; cbn [negb res_bind aggregator_tweaked_key fst snd].
case: ifP => // Hv; rewrite (check_signature_sharesE _ _ Ha Hs) //= -/bad.
by case Hn: (nilp bad) => //=; rewrite (signature_of_valid_shares Hs Hp U Hq Hn) in Hv.
Qed.

Lemma sign_bip340_outcome a q msg nonces shares all_ids t :
  agg_poly a = Some q -> size nonces = size shares ->
  perm_eq (flatten [seq ss_key_ids s | s <- shares]) all_ids ->
  distinct_ids F all_ids -> (size (coefficients q) <= size all_ids)%N ->
  let R := (intermediate C msg [seq ss_id s | s <- shares] nonces).2 in
  let tk := tweaked (constant_term q) (Some t) in
  constant_term q != 0 -> R != 0 -> tk != 0 ->
  let bad := bad_sharers q msg nonces shares all_ids (Some t) in
  match sign_bip340 C a msg nonces shares all_ids t with
  | Done proof => schnorr_proof_verify proof (point_x C tk) msg = true
  | Fails e => ~~ nilp bad /\ e = BadPartySigs bad
  | Panics => False
  end.
Proof.
move=> Ha Hs Hp U Hq R tk Hc HR Htk bad.
rewrite /sign_bip340 /aggregator_sign_with_tweak Hs eqxx Ha foldl_zE aggregator_tweaked_keyE //.
cbn [negb res_bind fst snd]; rewrite -/tk -/R.
case: ifP => // Hv; rewrite (check_signature_sharesE _ _ Ha Hs) //= -/bad.
by case Hn: (nilp bad) => //=; rewrite (proof_of_valid_shares Hs Hp U Hq Hc HR Htk Hn) in Hv.
Qed.

(** *** A signing round *)

Definition round_ids (signers : seq (Party C)) : seq nat := [seq party_id p | p <- signers].
Definition round_keys (signers : seq (Party C)) : seq nat := flatten [seq key_ids p | p <- signers].
Definition round_nonces (signers : seq (Party C)) : seq (PublicNonce V) :=
  pmap (fun p => omap (public_nonce C) (p_nonce p)) signers.

(** The party holds the keys of [q] and has a nonce. *)
Definition ready_to_sign (q : PublicPolynomial V) (p : Party C) : Prop :=
  holds_keys q p /\ isSome (p_nonce p).

Lemma intermediate_round msg signers nonces :
  (forall p, List.In p signers -> isSome (p_nonce p)) ->
  [seq nonce_D nr.1 + nr.2 *: nonce_E nr.1 | nr <- zip (round_nonces signers)
     [seq binding C (compute_id i) nonces msg | i <- round_ids signers]] =
  [seq (let pn := public_nonce C (odflt (mkNonce 0 0) (p_nonce p)) in
        nonce_D pn + binding C (party_scalar_id p) nonces msg *: nonce_E pn) | p <- signers].
Proof.
elim: signers => [|p s IH] //= Hn.
have := Hn p (or_introl erefl); case: (p_nonce p) => [n|] //= _.
by rewrite IH // => p1 H1; apply: Hn; right.
Qed.

Lemma size_round_nonces signers : (forall p, List.In p signers -> isSome (p_nonce p)) ->
  size (round_nonces signers) = size signers.
Proof.
elim: signers => [|p s IH] //= Hn.
have := Hn p (or_introl erefl); case: (p_nonce p) => [n|] //= _.
by rewrite IH // => p1 H1; apply: Hn; right.
Qed.

(** Each signer of the round produces the share the aggregator expects. *)
Lemma round_shares_valid q signers msg ids all_ids nonces tweak :
  key_defined (constant_term q) tweak ->
  (forall p, List.In p signers -> ready_to_sign q p) ->
  let R := (intermediate C msg ids nonces).2 in
  let tk := tweaked (constant_term q) tweak in
  let signs := check_signs C (constant_term q) tk R tweak in
  exists shares,
    [/\ [seq (sign_with_tweak p msg ids all_ids nonces tweak).2 | p <- signers]
          = [seq Done s | s <- shares],
        [seq ss_id s | s <- shares] = round_ids signers,
        [seq ss_key_ids s | s <- shares] = [seq key_ids p | p <- signers] &
        all (fun sr => share_valid q (challenge C tk R msg) signs.1 signs.2 all_ids sr.1 sr.2)
          (zip shares [seq (let pn := public_nonce C (odflt (mkNonce 0 0) (p_nonce p)) in
             nonce_D pn + binding C (party_scalar_id p) nonces msg *: nonce_E pn) | p <- signers])].
Proof.
move=> Hd; elim: signers => [|p s IH] Hr R tk signs; first by exists [::].
have [shares [E1 E2 E3 E4]] := IH (fun p1 H1 => Hr p1 (or_intror H1)).
have [Hk] := Hr p (or_introl erefl); case En: (p_nonce p) => [n|] // _.
have [sh Es [I1 I2 I3]] := share_of_party msg ids all_ids nonces Hk En Hd.
exists (sh :: shares); split; rewrite /= ?Es ?E1 ?I1 ?I2 ?E2 ?E3 //.
by rewrite En /= I3 E4.
Qed.

Lemma round_no_bad q signers msg tweak :
  key_defined (constant_term q) tweak ->
  (forall p, List.In p signers -> ready_to_sign q p) ->
  let nonces := round_nonces signers in
  exists shares,
    [/\ [seq (sign_with_tweak p msg (round_ids signers) (round_keys signers) nonces tweak).2
          | p <- signers] = [seq Done s | s <- shares],
        [seq ss_id s | s <- shares] = round_ids signers,
        size nonces = size shares, flatten [seq ss_key_ids s | s <- shares] = round_keys signers &
        nilp (bad_sharers q msg nonces shares (round_keys signers) tweak)].
Proof.
move=> Hd Hr nonces; have Hn p : List.In p signers -> isSome (p_nonce p) by case/Hr.
have [shares [E1 E2 E3 E4]] := round_shares_valid msg (round_ids signers) (round_keys signers) nonces Hd Hr.
exists shares; split=> //; last 1 first.
- rewrite /bad_sharers E2 /intermediate (intermediate_round _ _ Hn) nilP_filter_map -all_predC.
  apply: sub_all E4 => sr /=; rewrite negbK.
  by rewrite /intermediate (intermediate_round _ _ Hn).
- rewrite size_round_nonces // -[RHS](size_map (@ss_id _)) E2 size_map.
  by [].
- by rewrite E3.
Qed.

Lemma eq_map_In (T U : Type) (g h : T -> U) (s : seq T) :
  (forall y, List.In y s -> g y = h y) -> map g s = map h s.
Proof.
elim: s => //= y s IH E; rewrite E; first by left.
by rewrite IH // => z Hz; apply: E; right.
Qed.

(** A party that finished key generation and drew a nonce. *)
Definition after_dkg (priv : seq (nat * seq (nat * F))) (pub : seq (nat * PolyCommitment V))
    (p : Party C) : Prop :=
  exists p0 p1 n, compute_secrets p0 priv pub = (p1, Done tt) /\ p = with_nonce p1 (Some n).

Lemma after_dkg_ready priv pub a a' q p :
  uniq (keys priv) -> uniq (keys pub) -> {subset keys priv <= keys pub} ->
  aggregator_init a pub = (a', Done tt) -> agg_poly a' = Some q ->
  after_dkg priv pub p -> ready_to_sign q p.
Proof.
move=> U1 U2 Hs Hi Hq [p0 [p1 [n [Hc ->]]]]; split=> //.
by have [] := dkg_holds_keys U1 U2 Hs Hc Hi Hq.
Qed.

(** C19: Key generation is sound against the other parties: when [compute_secrets]
    succeeds on shares of committed parties, every commitment has the threshold's
    degree and a valid proof, the group key is the sum of the constant terms and
    every private key is the discrete logarithm of the committed sum at its key. *)
Theorem dkg_sound (p : Party C) priv pub p' :
  uniq (keys priv) -> uniq (keys pub) -> {subset keys priv <= keys pub} ->
  compute_secrets p priv pub = (p', Done tt) ->
  [/\ all (fun ic => check_public_shares C ic.2 (threshold p)) pub,
      group_key p' = \sum_(ic <- pub) pc_constant_term ic.2 &
      forall k, k \in key_ids p -> exists2 sk, hget (private_keys p') k = Some sk &
        sk *: gen = \sum_(ic <- pub) peval (compute_id k) (pc_coefficients ic.2)].
Proof. by move=> U1 U2 Hs /(compute_secrets_done U1 U2 Hs)[]. Qed.

(** Key generation among honest parties completes: with the commitments and
    shares that parties with polynomials of full degree broadcast,
    [compute_secrets] succeeds for every party. *)
Theorem dkg_complete (p : Party C) t n ps (rs : seq (rng C)) :
  (0 < t)%N -> threshold p = t -> {subset key_ids p <= iota 1 n} ->
  uniq [seq party_id p | p <- ps] -> size rs = size ps -> all (dkg_ready t n) ps ->
  (compute_secrets p (broadcast_shares ps) (broadcast_commitments ps rs)).2 = Done tt.
Proof. exact: compute_secrets_honest. Qed.

(** C10: After key generation (every private share is of a party whose commitment
    is among the public shares, and [compute_secrets] accepted them at each signer)
    any signers whose keys reach the threshold produce
    taproot shares from which [sign_taproot] makes a proof that verifies against
    the tweaked group key, whatever the parities of the nonce, of the group key and
    of the tweaked key; the three points must not be the point at infinity. *)
Theorem taproot_signature_verifies priv pub nk t a q signers msg root :
  uniq (keys priv) -> uniq (keys pub) -> {subset keys priv <= keys pub} ->
  aggregator_init (aggregator_new nk t) pub = (a, Done tt) -> agg_poly a = Some q ->
  (forall p, List.In p signers -> after_dkg priv pub p) ->
  distinct_ids F (round_keys signers) -> (t <= size (round_keys signers))%N ->
  let ids := round_ids signers in
  let all_ids := round_keys signers in
  let nonces := round_nonces signers in
  let tk := tweaked (constant_term q) (Some (compute_tweak C (constant_term q) root)) in
  constant_term q != 0 -> (intermediate C msg ids nonces).2 != 0 -> tk != 0 ->
  exists shares proof,
    [/\ [seq (party_sign_taproot p msg ids all_ids nonces root).2 | p <- signers]
          = [seq Done s | s <- shares],
        aggregator_sign_taproot C a msg nonces shares all_ids root = Done proof &
        schnorr_proof_verify proof (point_x C tk) msg].
Proof.
move=> U1 U2 Hs Hi Hq Hd Hids Ht ids all_ids nonces tk Hc HR Htk.
have Hr p : List.In p signers -> ready_to_sign q p by move/Hd; exact: (after_dkg_ready U1 U2 Hs Hi Hq).
set tw := compute_tweak C (constant_term q) root in tk Htk *.
have [q' [Hq' Hsz _ _ _]] := aggregator_init_done Hi; rewrite Hq in Hq'; case: Hq' => ?; subst q'.
have [shares [E1 E2 E3 E4 E5]] := round_no_bad (q := q) (tweak := Some tw) msg Hc Hr.
have Hsize : (size (coefficients q) <= size (round_keys signers))%N by rewrite Hsz.
have Hp : perm_eq (flatten [seq ss_key_ids s | s <- shares]) (round_keys signers) by rewrite E4.
have := sign_bip340_outcome (msg := msg) (t := tw) Hq E3 Hp Hids Hsize Hc.
rewrite E2 -/ids => /(_ HR Htk); case E: (sign_bip340 _ _ _ _ _ _ _) => [proof|e|] //.
  move=> Hv; exists shares, proof; split=> //; last by rewrite /aggregator_sign_taproot Hq.
  rewrite -E1; apply: eq_map_In => p /Hr[[Hg _] _].
  by rewrite /party_sign_taproot Hg.
by case=> /negP; rewrite E5.
Qed.


(** A nonce signs once: after a signature, whatever its outcome, a second one
    is refused until a nonce is drawn again. *)
Lemma nonce_single_use (p : Party C) msg ids all_ids nonces tweak msg' ids' all_ids' nonces' tweak' :
  let p' := (sign_with_tweak p msg ids all_ids nonces tweak).1 in
  sign_with_tweak p' msg' ids' all_ids' nonces' tweak' = (p', Fails MissingNonce).
Proof. by rewrite /sign_with_tweak; case En: (p_nonce p) => [n|] //=; rewrite En. Qed.

Lemma lincomb_nonces (rho : nat -> F) ids (ns : seq (PublicNonce V)) : size ids = size ns ->
  lincomb (flatten [seq [:: 1; rho i] | i <- ids]) (flatten [seq [:: nonce_D n; nonce_E n] | n <- ns])
  = \sum_(nr <- zip ns [seq rho i | i <- ids]) (nonce_D nr.1 + nr.2 *: nonce_E nr.1).
Proof.
elim: ids ns => [|i ids IH] [|n ns] //= Hs; first by rewrite big_nil.
by rewrite big_cons /= scale1r IH ?addrA //; case: Hs.
Qed.

(** [aggregate_nonce], one multi-exponentiation over compressed nonces, is the
    aggregate commitment of [intermediate]. *)
Lemma aggregate_nonceE msg ids (nonces : seq (PublicNonce V)) : size ids = size nonces ->
  aggregate_nonce C msg ids nonces = Done (intermediate C msg ids nonces).2.
Proof.
move=> Hs; rewrite /aggregate_nonce; set cs := [seq (compress _ _, _) | _ <- _].
have bE i : binding_compressed C (compute_id i) cs msg = binding C (compute_id i) nonces msg.
  rewrite /binding_compressed /binding /cs; congr (hash_to_scalar _ (_ ++ _)).
  by elim: (nonces) (bytes_of _ ++ _) => //= n ns IH h; rewrite IH.
have szE (T U : Type) (g h : T -> U) (s : seq T) : size (flatten [seq [:: g y; h y] | y <- s]) = (size s).*2.
  by elim: s => //= y s ->; rewrite doubleS.
rewrite multimultE ?szE ?Hs // /intermediate /= foldl_addE add0r big_map; congr Done.
by rewrite -(lincomb_nonces (fun i => binding C (compute_id i) nonces msg)) //; congr lincomb;
   congr flatten; apply: eq_map => i; rewrite bE.
Qed.

End Sign.

(** ** Proofs and saved parties *)
Section Proofs.
Context {F : fieldType} {V : lmodType F} (C : Curve V).

(** A Chaum-Pedersen proof made with the exponent of [A] verifies. *)
Lemma tuple_proof_complete a B (r : rng C) :
  let A := a *: G C in let K := a *: B in
  tuple_proof_verify C (tuple_proof_new a A B K r).1 A B K.
Proof.
rewrite /tuple_proof_new /tuple_proof_verify; case: (scalar_random r) => k r' /=.
by rewrite !scalerDl !scalerA [a * _]mulrC !eqxx.
Qed.

(** And only a Diffie-Hellman tuple passes for two different challenges of
    the same commitment. *)
Lemma tuple_proof_sound R rB z1 z2 s1 s2 (A B K : V) :
  s1 != s2 ->
  z1 *: G C = R + s1 *: A -> z1 *: B = rB + s1 *: K ->
  z2 *: G C = R + s2 *: A -> z2 *: B = rB + s2 *: K ->
  exists a', A = a' *: G C /\ K = a' *: B.
Proof.
move=> Hs H1 H2 H3 H4; exists ((s1 - s2)^-1 * (z1 - z2)).
have Hd : s1 - s2 != 0 by rewrite subr_eq0.
have extract (P X Y : V) : z1 *: P = X + s1 *: Y -> z2 *: P = X + s2 *: Y ->
    Y = ((s1 - s2)^-1 * (z1 - z2)) *: P.
  move=> E1 E2; rewrite -scalerA scalerBl E1 E2 opprD addrACA subrr add0r -scalerBl.
  by rewrite scalerA mulVf // scale1r.
by split; [exact: extract H1 H3 | exact: extract H2 H4].
Qed.

(** Saving a party and loading it restores everything but the nonce. *)
Lemma party_load_save (p : Party C) : uniq (keys (private_keys p)) ->
  party_load (party_save p) = with_nonce p None.
Proof. by move=> U; rewrite /party_load /= hcollectE. Qed.

(** A drawn nonce is valid, and drawing succeeds within the number of draws a
    valid one takes to appear. *)
Lemma nonce_new_valid fuel (r : rng C) n r' :
  nonce_new fuel r = Some (n, r') -> nonce_is_valid n.
Proof.
elim: fuel r => [|fuel IH] r //=; case: (nonce_random r) => n1 r1.
by case: ifP => [Hv [<- _]|_ /IH].
Qed.

Lemma nonce_new_terminates m (r : rng C) :
  nonce_is_valid (nonce_random (iter m (fun r => (nonce_random r).2) r)).1 ->
  exists n r', nonce_new m.+1 r = Some (n, r').
Proof.
elim: m r => [|m IH] r; rewrite [nonce_new _ _]/=.
  by rewrite /iter; case: (nonce_random r) => n r' /= ->; exists n, r'.
rewrite iterSr => H; case E: (nonce_random r) => [n1 r1].
case: ifP => _; first by exists n1, r1.
by apply: IH; rewrite E in H.
Qed.

End Proofs.

(** ** An instance of the curve *)

(** The additive group of ['F_11]: the generator is one, a point is even when
    its representative is at most five, its x coordinate is that of the even
    one of the point and its opposite. *)
Definition ex_even (P : 'F_11) : bool := (val P <= 5)%N.
Definition ex_x (P : 'F_11) : 'F_11 := if ex_even P then P else - P.
Definition ex_lift (e : 'F_11) : option 'F_11 := if e == 0 then None else if ex_even e then Some e else None.

Definition ex_curve : Curve ('F_11)^o%type :=
  @mkCurve 'F_11 ('F_11)^o%type (1 : 'F_11) 'F_11 unit ex_x ex_even ex_lift
    (fun s ps => Done (lincomb s ps)) (fun bs => bs)
    (fun bs => (size bs)%:R) (fun s => nseq (val s) x00) (fun e => nseq (val e) x00)
    (fun P => nseq (val (P : 'F_11)) x00)
    (seq 'F_11) (fun cs => cs) (fun cs => cs) (@heval _)
    nat (fun r => (r%:R + 3, r.+1)) (fun n r => (nseq n x00, r)).

Lemma F11_cases (P : pred 'F_11) : all P [seq i%:R | i <- iota 0 11] -> forall y, P y.
Proof.
move=> /allP H y; apply: H; apply/mapP; exists (val y); last by rewrite natr_Zp.
by rewrite mem_iota /=; have := ltn_ord y.
Qed.

Lemma ex_x_opp (P : 'F_11) : ex_x (- P) = ex_x P.
Proof.
apply/eqP; move: P.
by apply: (F11_cases (P := fun P => ex_x (- P) == ex_x P)); vm_compute.
Qed.

Lemma ex_even_opp (P : 'F_11) : P != 0 -> ex_even (- P) = ~~ ex_even P.
Proof.
suff /implyP H : (P != 0) ==> (ex_even (- P) == ~~ ex_even P) by move/H/eqP.
move: P; apply: (F11_cases (P := fun P => (P != 0) ==> (ex_even (- P) == ~~ ex_even P))).
by vm_compute.
Qed.

Lemma ex_lift_x (P : 'F_11) : P != 0 -> ex_lift (ex_x P) = Some (if ex_even P then P else - P).
Proof.
suff /implyP H : (P != 0) ==> (ex_lift (ex_x P) == Some (if ex_even P then P else - P)) by move/H/eqP.
move: P; apply: (F11_cases (P := fun P => (P != 0) ==>
  (ex_lift (ex_x P) == Some (if ex_even P then P else - P)))).
by vm_compute.
Qed.

#[export] Instance ex_curve_laws : CurveLaws ex_curve.
Proof. split; [by [] | exact: ex_x_opp | exact: ex_even_opp | exact: ex_lift_x | by []]. Qed.

(** Two parties with three keys between them and a threshold of two. *)
Definition ex_party (i : nat) (kids : seq nat) (cs : seq 'F_11) : Party ex_curve :=
  @mkParty _ _ ex_curve i kids 3 2 2 (Some cs) [::] 0 None.
Definition ex_p0 := ex_party 0 [:: 1; 2]%N [:: 4; 7].
Definition ex_p1 := ex_party 1 [:: 3]%N [:: 9; 2].
Definition ex_rs : seq (rng ex_curve) := [:: 5; 8]%N.
Definition ex_pub := broadcast_commitments [:: ex_p0; ex_p1] ex_rs.
Definition ex_priv := broadcast_shares [:: ex_p0; ex_p1].
Definition ex_agg := (aggregator_init (aggregator_new 3 2) ex_pub).1.
Definition ex_q := odflt (mkPublicPolynomial [::]) (agg_poly ex_agg).
Definition ex_signers : seq (Party ex_curve) :=
  [:: with_nonce (compute_secrets ex_p0 ex_priv ex_pub).1 (Some (mkNonce 3 4));
      with_nonce (compute_secrets ex_p1 ex_priv ex_pub).1 (Some (mkNonce 5 8))].
Definition ex_msg : seq byte := [:: x01; x02].
Definition ex_shares : seq (SignatureShare 'F_11) :=
  pmap (fun p => if (party_sign_taproot p ex_msg (round_ids ex_signers)
                  (round_keys ex_signers) (round_nonces ex_signers) None).2 is Done s
                 then Some s else None) ex_signers.
Definition ex_bad_shares : seq (SignatureShare 'F_11) :=
  if ex_shares is s :: ss then mkSignatureShare (ss_id s) (z_i s + 1) (ss_key_ids s) :: ss else [::].

Lemma eq_snd (A B : Type) (r : A * B) b : r.2 = b -> r = (r.1, b).
Proof. by case: r => a c /= <-. Qed.

Lemma ex_dkg_done p : List.In p [:: ex_p0; ex_p1] ->
  compute_secrets p ex_priv ex_pub = ((compute_secrets p ex_priv ex_pub).1, Done tt).
Proof. by case=> [<-|[<-|//]]; apply: eq_snd; vm_compute. Qed.

Lemma ex_keys : [/\ uniq (keys ex_priv), uniq (keys ex_pub) & {subset keys ex_priv <= keys ex_pub}].
Proof. by split; [vm_compute | vm_compute | apply/allP; vm_compute]. Qed.

Lemma ex_init : aggregator_init (aggregator_new 3 2) ex_pub = (ex_agg, Done tt).
Proof. by apply: eq_snd; vm_compute. Qed.

Lemma ex_agg_poly : agg_poly ex_agg = Some ex_q.
Proof. by rewrite /ex_q; case E: (agg_poly ex_agg) => [q|] //; vm_compute in E. Qed.

Lemma ex_after_dkg p : List.In p ex_signers -> after_dkg ex_priv ex_pub p.
Proof.
case=> [<-|[<-|//]].
  by exists ex_p0; do 2 eexists; split; first by apply: ex_dkg_done; left.
by exists ex_p1; do 2 eexists; split; first by apply: ex_dkg_done; right; left.
Qed.

Lemma dkg_sound_witness :
  [/\ all (fun ic => check_public_shares ex_curve ic.2 2) ex_pub,
      group_key (compute_secrets ex_p0 ex_priv ex_pub).1 = \sum_(ic <- ex_pub) pc_constant_term ic.2 &
      forall k, k \in [:: 1; 2]%N -> exists2 sk,
        hget (private_keys (compute_secrets ex_p0 ex_priv ex_pub).1) k = Some sk &
        sk *: G ex_curve = \sum_(ic <- ex_pub) peval (compute_id k) (pc_coefficients ic.2)].
Proof.
have [U1 U2 Hs] := ex_keys.
exact: (dkg_sound U1 U2 Hs (ex_dkg_done (or_introl erefl))).
Defined.

Lemma dkg_complete_witness : (compute_secrets ex_p1 ex_priv ex_pub).2 = Done tt.
Proof.
apply: (dkg_complete (p := ex_p1) (t := 2) (n := 3)) => //.
by apply/allP; vm_compute.
Defined.

Lemma taproot_signature_verifies_witness :
  let ids := round_ids ex_signers in
  let all_ids := round_keys ex_signers in
  let nonces := round_nonces ex_signers in
  let tk := tweaked ex_curve (constant_term ex_q) (Some (compute_tweak ex_curve (constant_term ex_q) None)) in
  exists shares proof,
    [/\ [seq (party_sign_taproot p ex_msg ids all_ids nonces None).2 | p <- ex_signers]
          = [seq Done s | s <- shares],
        aggregator_sign_taproot ex_curve ex_agg ex_msg nonces shares all_ids None = Done proof &
        schnorr_proof_verify proof (point_x ex_curve tk) ex_msg].
Proof.
have [U1 U2 Hs] := ex_keys.
by apply: (taproot_signature_verifies U1 U2 Hs ex_init ex_agg_poly ex_after_dkg); vm_compute.
Defined.


(** The corrupted share is refused and its party named. *)
Example ex_blamed :
  aggregator_sign_taproot ex_curve ex_agg ex_msg (round_nonces ex_signers) ex_bad_shares
    (round_keys ex_signers) None = Fails (BadPartySigs [:: 0%N]).
Proof. by vm_compute. Qed.

(** A private share from a party that published no commitment is not checked
    but is added to the private key: with the share [1] of a third party, party 1
    finishes key generation with a key that is not the committed one. *)
Example uncommitted_share_accepted :
  let priv := rcons ex_priv (7%N, [:: (3%N, 1%R : 'F_11)]) in
  (compute_secrets ex_p1 priv ex_pub).2 = Done tt /\
  hget (private_keys (compute_secrets ex_p1 priv ex_pub).1) 3
    <> hget (private_keys (compute_secrets ex_p1 ex_priv ex_pub).1) 3.
Proof. by split; vm_compute. Qed.
